(* ===== verification/_CoqProject ===== *)
-Q . S2P
Prelude.v
CLib.v
JobId.v
NotifId.v
StrMd5.v
JpAttr.v
LbTypes.v
Events.v
SeqCode.v
Context.v
Param.v
ParamProps.v
StateMachine.v
ProcessPBS.v
ProcessCream.v
ProcessFT.v
ProcessVM.v
ProcessCondor.v
Gss.v
ProcessGlite.v
GliteCases.v
GliteProps.v
ProcessEvent.v
IntJobStat.v
Authz.v
Acl.v
StoreEvent.v
StoreEventProps.v
ParentStatus.v
ParentProps.v
ParentInv.v
IlMsg.v
EventQueue.v
QueueRing.v
QueueSpec.v
EventQueueProps.v
Delivery.v
EventStore.v
StoreProps.v
StoreList.v
Escape.v
Ulm.v
UlmLine.v
UlmProps.v
UlmDate.v
Query.v
QueryMatch.v
Paging.v
QueryRows.v
QueryWhere.v
QueryJobs.v
Stats.v
StatsRing.v
StatsRate.v
MiniHttp.v
Notif.v
DbStore.v
DbStoreProps.v
Redelivery.v
Maildir.v
MaildirProps.v
MaildirSim.v
MaildirRuns.v
Client.v
ClientDemo.v
ConnPool.v
PoolProps.v
PoolOpen.v
ProdProto.v
ProtoProps.v
Producer.v
LogProps.v
LogSpec.v
