(* ===== verification/Prelude.v ===== *)
(** * Logging and Bookkeeping: a verification library

    gLite Logging and Bookkeeping (LB) tracks the jobs of a grid.  Components of the grid log
    events; the logging daemons store them in files and deliver them to a server; the server
    computes the status of a job from its events with a state machine, keeps it in a data base,
    answers queries, notifies clients and counts.  This library models the part of the C code
    that computes, and proves what makes it correct.  Paths are those of the repository, below
    src/.

    ** The parts and the files that model them

    Foundations.
    - Prelude (this file): record update, the [outcome] of a piece of C (a value, or undefined
      behaviour with its reason), machine integers, shared tactics and hints.
    - CLib: the C library: [strchr], [strtol], [atoi], the printf family with trio's extensions,
      [sscanf], on an LP64 machine.
    - LbTypes, Events: the data types that the templates of org.glite.lb.types generate (job
      states and status, events).
    - JobId: org.glite.jobid.api-c/src/cjobid.c.  Gss: subjects, org.glite.lbjp-common.gss.
    - NotifId: identifiers of notifications, org.glite.lb.common/src/notifid.c; StrMd5: base64
      and the texts of digests, strmd5.c of the job identifiers; Param, ParamProps: the parameters
      of a context with their defaults, org.glite.lb.common/src/param.c; JpAttr: attributes of
      job provenance and their plug-ins, org.glite.lbjp-common.jp-interface/src/attr.c.
    - Maildir: org.glite.lbjp-common.maildir/src/maildir.c, every function a program of system
      calls over a tree of directories with inodes and descriptors; MaildirProps: single calls,
      MaildirSim and MaildirRuns: runs of any number of processes refine a mailbox.

    The state machine (org.glite.lb.state-machine/src).
    - SeqCode: sequence codes, seqcode_aux.c; Context: the sequence code of a client,
      org.glite.lb.common/src/context.c.
    - StateMachine: the common part and the invariant [wf_status] of a job status.
    - ProcessGlite (with GliteCases and GliteProps), ProcessPBS, ProcessCream, ProcessFT,
      ProcessVM, ProcessCondor: process_event.c and its companions, one definition for every case of a [switch].
    - ProcessEvent: the dispatcher; a processor is an instance of the class [Processor], the
      theorems about the whole machine are proved against the class.
    - IntJobStat: the stored text of a status, intjobstat_supp.c.

    The logging daemons (org.glite.lb.logger/src and the code of org.glite.lb.common they use).
    - Escape: org.glite.lbjp-common.trio/src/escape.c; Ulm, UlmLine, UlmProps, UlmDate: log
      lines, ulm_parse.c and the formats of the producers.
    - IlMsg: the framed messages, il_int.c, il_string.c, il_msg.c.
    - EventQueue: event_queue.c on a heap of elements, messages and stores; QueueRing the rings
      of elements, QueueSpec the abstract queues, EventQueueProps the refinement, Delivery the
      runs of any number of threads.
    - EventStore, StoreProps, StoreList: event_store.c, recovery and the list of stores.

    The client library (org.glite.lb.client/src).
    - Client: a context with its errors, the pool and the world around it, the monad [M] that the
      functions of the library are written in, its predicate transformer [wp], and what an honest
      world answers; ClientDemo: a world for examples.
    - ConnPool: connection.c and the locks of connpool.c, the connections that the contexts of a
      process share; PoolProps: the steps [pool_step] that one context makes of the pool, their
      invariant [pool_ok]; PoolOpen: opening a connection and requests to a server.
    - ProdProto: prod_proto.c, the protocols of the local logger, the proxy and the server;
      ProtoProps: the rules for its functions.
    - Producer: producer.c, the logging of events, flushing, the job of a context, registrations;
      LogProps: the rules for sending; LogSpec: what a logging call does and in which order the
      events of a context are numbered.

    The server (org.glite.lb.server/src).
    - StoreEvent: the tables of the data base as finite maps, store.c.T: who may log an event,
      the log of a job, the registration of jobs and users; StoreEventProps: the log.
    - ParentStatus, ParentProps, ParentInv: jobstat.c, the stored status and the histogram of a
      collection.
    - DbStore: db_store.c, all that the transaction of an event does, with the status computed
      from all events and the registration of subjobs; DbStoreProps: what stays consistent;
      Redelivery: events that come again.
    - Query, QueryMatch: the conditions of queries, query_rec.h, [match_status] of query.c;
      QueryWhere: their SQL, with index.c.T; Paging, QueryRows, QueryJobs: the loops over the
      rows of the data base.
    - Authz: authz_policy.c and the decisions of lb_authz.c; Acl: the ACLs of jobs and their
      reference counts, lb_authz.c.
    - Stats, StatsRing, StatsRate: stats.c.
    - Notif: who is notified of a status and of what, notif_match.c, with the history of jobstat.c.
    - MiniHttp: the messages of the protocol, org.glite.lb.common/src/mini_http.c.

    How they interact: a client formats an event (Producer, with the sequence code of Context) and
    hands it over (ProdProto, ConnPool); it arrives as a log line (Ulm and its companions) in a message (IlMsg) or over HTTP
    (MiniHttp), passes the store and the queue of a daemon (EventStore, EventQueue, Delivery),
    is stored by the server (DbStore), which asks Authz and Acl, appends it to the log of the job
    (StoreEvent) and applies it to the status by [processEvent] (ProcessEvent), which compares
    sequence codes (SeqCode); the status is stored as a text (IntJobStat), moves the status of
    the parent (ParentStatus), whose events go into its own log, and the counters (Stats).  Queries (the files Query...) and
    notifications (Notif) match statuses and events, show what Authz allows and use the subjects of Gss; Acl keeps what Authz asks for.

    ** How C is modelled

    A function that can fail to be defined returns an [outcome]: [UB] with NULL dereference,
    failed assertion, access outside of an object, signed overflow, use of a freed object, an
    indeterminate value.  Integers are [Z]; [s32], [u32] wrap, [add_int] and [add_long] are the
    additions that overflow.  A pointer to characters is an [option string], NULL being [None]; where pointers
    into buffers or lists matter there is a heap ([gmap]) or the bytes with an index.  [malloc]
    succeeds.  A statement of SQL is the function it has on the tables; the parts of the server
    that only move rows around are not modelled.  The client library runs in the monad of Client: a
    context, the pool that all contexts of the process share, and the world, an instance of the class
    [Network] whose answers ([answer_ok], [HonestReplies]) are of the documented form and otherwise
    arbitrary.  The functions of a context are not interleaved with those of others; what others did
    before is a reachable pool, and the use of a connection that is not locked for the context is a
    fault, so that the theorems show that the locks suffice.  Processes over a mail directory are
    interleaved at every system call.  Code that is not in the repository (SQL data base, GACL, class-ads, digests,
    sockets) is a parameter of the definitions that use it, with named hypotheses where a
    theorem depends on its documented behaviour.

    ** What the theorems show

    - No event makes the state machine leave defined behaviour or lose the invariant, whatever
      events come in whatever order; what late, usable and final events do; the status follows
      the order of the sequence codes, not of arrival.
    - Whatever clients deliver, the events of a job stay numbered without gaps, its owner known,
      the ACLs counted right; an event goes into the log exactly if its client may log it and it
      is new; an event that comes again changes nothing.
    - A collection's stored histogram counts its children and its state is the one the children
      determine.
    - The queues of the daemon implement abstract queues for any interleaving of threads: the
      messages of a job keep their order, no two threads work on the same job, nothing is used
      after it has been freed (but by the discarding of expired messages), and a queue drains;
      after a restart exactly the uncommitted events are sent.
    - Round trips: log lines, dates, escapes, stored status, sequence codes, job identifiers,
      framed messages in a stream, HTTP messages in any pieces.
    - Queries: matching is the boolean formula the conditions mean; paging does not change the
      answer; the SQL loses no matching job; only authorised events and jobs are returned.
    - Authorisation: the policy grants what its rules say and nothing else; who sees a status
      with which restriction; a monitoring client learns nothing but the public fields.
    - ACLs: reference counts equal the number of jobs, a change takes one turn of its loop.
    - Notifications: each registration gets exactly the status that it may see, whatever the
      order of the registrations; the history is complete and fits its buffer.
    - The client: whatever the network does, logging an event and asking a server are defined, end
      with the error they leave, give every connection back and touch none of another context;
      the events of a context carry growing sequence codes, failed calls included, and the daemons
      read these codes back from the lines.
    - Parameters: what is set is read back, the errors are the documented ones.  Mail directories:
      a message is stored completely before it can be seen, is held by one process at a time and
      leaves only when it is done.  Attributes, base64 and digests are read back as written.
    - Statistics: the archives hold the exact counts of the last intervals, off their borders.
    Some theorems show where the code does something else than it means to; their comments say
    so, and the hypotheses of the theorems above exclude these cases.

    ** Fuel

    Loops that are not structural take fuel, with [NoFuel] or an unreachable value at its end;
    theorems exclude it.  Printing a number: one more than its binary logarithm.  Decoding a
    list: the length of the input.  Searching a queue: the number of its elements; recovery of a
    file: its length and one; unescaping: the length; pages of an answer: the number of rows and
    one ([Paging]); the year of a date: days / 365 and one; [http_parse]: the length of the
    buffer and two; [http_recv]: the bytes and pieces to come and one; [catch_up]: the cells of
    the archive and one; [edg_wll_UpdateACL]: one turn for a registered job ([acl_updated]), and
    no number of turns for another one ([update_acl_diverges]); [db_store]: two events, as an event
    of the server stores no other one ([db_store_two_deep]); [read_loop] of Maildir: the 262143
    enlargements by 8192 bytes that an [int] allows, reading further is its overflow; storing a message
    tries ten names, as the code does; [encode_loop]: three more than the bytes; [read_answers]: the
    interruptions of [select] that are left and three, one for each answer and one for the end.

    ** Not modelled

    Sockets, processes, signals and time limits (bkserverd.c, logd.c, interlogd.c, srvbones.c,
    lb_plain_io.c, most of glite_gss.c): the operating system and the GSS library are all they
    call.  SQL and the drivers of the data bases, and with them the requests for notifications
    (notification.c of the server), purging, dumping and loading, which are sequences of statements.
    XML, HTML and web services, the consumer calls and the notification client of the client
    library, which print and parse XML with generated code.  The harvester and the bindings.  The
    job provenance plug-in (lb_plugin.c), which prints a status.  The pool of notifications and
    the acceptor of connection.c.  trio's own formatter (its extensions are in CLib); GridSite,
    VOMS, class-ads and digests; memory that runs out; functions under LB_PERF. *)
From Stdlib Require Import ZArith Lia.
From stdpp Require Import base option list strings numbers.

(** ** Record update

    [Eta R] names the eta expansion of a record type; [Setter p], derived from
    it by unification, is the functional update of the field [p].  The model of
    an assignment [r->p = v;] is [r <| p := v |>]. *)
Class Eta (R : Type) := eta : R → R.
Class Setter {R T : Type} (p : R → T) := setter : T → R → R.
Arguments setter {R T} p {_} _ _.

Ltac derive_setter p :=
  lazymatch type of p with
  | ?R → ?T =>
    exact (fun (v : T) (r : R) =>
      ltac:(let t := eval hnf in (eta r) in
            let t := eval pattern (p r) in t in
            match t with ?F _ => let u := eval cbv beta in (F v) in exact u end))
  end.
#[export] Hint Extern 1 (Setter ?p) => derive_setter p : typeclass_instances.

Declare Scope lb_scope.
Delimit Scope lb_scope with lb.
Notation "r <| p := v |>" := (setter p v r)
  (at level 1, left associativity, p at level 9, v at level 200,
   format "r  <| p  :=  v |>") : lb_scope.
#[global] Open Scope lb_scope.

(** ** Outcomes

    A piece of C either completes with a value or has undefined behaviour.  The
    second case is kept as a value, with its reason, so that the theorems can
    say exactly when it is impossible. *)
Inductive fault :=
| NullDeref       (* a NULL pointer is dereferenced *)
| AssertFailed    (* assert() aborts the process *)
| OutOfBounds     (* an access outside of an object *)
| SignedOverflow  (* a signed integer computation leaves its type *)
| DanglingPtr     (* an object that has been freed is accessed *)
| Indeterminate   (* an object that has no value is read *)
| NoFuel.         (* not a fault of the program: the bound of a modelled loop is
                     exhausted, which the theorems exclude *)

Inductive outcome (A : Type) :=
| Ret (a : A)
| UB (why : fault).
Arguments Ret {A} a.
Arguments UB {A} why.

Definition obind {A B} (m : outcome A) (f : A → outcome B) : outcome B :=
  match m with Ret a => f a | UB w => UB w end.

Notation "'let!' x ':=' m 'in' k" := (obind m (fun x => k))
  (at level 10, x name, m at level 100, k at level 200) : lb_scope.
Notation "'let!' ' p ':=' m 'in' k" := (obind m (fun x => match x with p => k end))
  (at level 10, p pattern, m at level 100, k at level 200) : lb_scope.

Definition defined {A} (m : outcome A) : Prop :=
  match m with Ret _ => True | UB _ => False end.

#[export] Instance fault_eq_dec : EqDecision fault.
Proof. solve_decision. Defined.

Lemma obind_ret {A B} (a : A) (f : A → outcome B) : obind (Ret a) f = f a.
Proof. reflexivity. Qed.

Lemma obind_Ret_inv {A B} (m : outcome A) (f : A → outcome B) b :
  obind m f = Ret b → ∃ a, m = Ret a ∧ f a = Ret b.
Proof. destruct m; simpl; [eauto | discriminate]. Qed.

Lemma obind_assoc {A B C} (m : outcome A) (f : A → outcome B) (g : B → outcome C) :
  obind (obind m f) g = obind m (fun a => obind (f a) g).
Proof. by destruct m. Qed.

#[local] Open Scope Z_scope.

(** ** Machine integers

    An [int] is a [Z] in the signed 32-bit range, an [unsigned int] one in the
    unsigned range.  The conversions wrap around. *)
Definition INT_MIN : Z := -2147483648.
Definition INT_MAX : Z := 2147483647.
Definition LONG_MIN : Z := -9223372036854775808.
Definition LONG_MAX : Z := 9223372036854775807.
Definition UINT_MOD : Z := 4294967296.

Definition u32 (z : Z) : Z := z mod UINT_MOD.
Definition s32 (z : Z) : Z := (z - INT_MIN) mod UINT_MOD + INT_MIN.

Definition is_int (z : Z) : Prop := INT_MIN ≤ z ≤ INT_MAX.
Definition is_uint (z : Z) : Prop := 0 ≤ z < UINT_MOD.
Definition is_long (z : Z) : Prop := LONG_MIN ≤ z ≤ LONG_MAX.

#[export] Instance is_int_dec z : Decision (is_int z).
Proof. unfold is_int. apply _. Defined.
#[export] Instance is_long_dec z : Decision (is_long z).
Proof. unfold is_long. apply _. Defined.
#[export] Instance is_uint_dec z : Decision (is_uint z).
Proof. unfold is_uint. apply _. Defined.

Ltac unfold_int :=
  unfold is_int, is_uint, is_long, u32, s32, INT_MIN, INT_MAX, LONG_MIN,
    LONG_MAX, UINT_MOD in *.

Lemma s32_id z : is_int z → s32 z = z.
Proof. unfold_int. intros. rewrite Z.mod_small; lia. Qed.
Lemma u32_id z : is_uint z → u32 z = z.
Proof. unfold_int. intros. by rewrite Z.mod_small. Qed.
Lemma s32_is_int z : is_int (s32 z).
Proof. unfold_int. pose proof (Z.mod_pos_bound (z - -2147483648) 4294967296). lia. Qed.
Lemma u32_is_uint z : is_uint (u32 z).
Proof. unfold_int. apply Z.mod_pos_bound. lia. Qed.
Lemma u32_s32 z : u32 (s32 z) = u32 z.
Proof.
  unfold_int.
  rewrite <-(Z.add_mod_idemp_l _ _ 4294967296), Z.mod_mod, Z.add_mod_idemp_l by lia.
  f_equal. lia.
Qed.
Lemma s32_u32 z : s32 (u32 z) = s32 z.
Proof.
  unfold_int. f_equal.
  rewrite <-(Zminus_mod_idemp_l (z mod _)), Z.mod_mod, Zminus_mod_idemp_l by lia. done.
Qed.
Lemma int_is_long z : is_int z → is_long z.
Proof. unfold_int. lia. Qed.


(** [+] on [int]s and [long]s, for [++], [--] and [+=]. *)
Definition add_int (a b : Z) : outcome Z :=
  if decide (is_int (a + b)) then Ret (a + b) else UB SignedOverflow.
Definition add_long (a b : Z) : outcome Z :=
  if decide (is_long (a + b)) then Ret (a + b) else UB SignedOverflow.

Create HintDb cint.
#[export] Hint Resolve s32_is_int u32_is_uint int_is_long : cint.

(** ** The string macros of the state machine

    [char *] fields are [option string], NULL being [None].  [rep(a,b)] stores a
    copy of [b], [rep_cond(a,b)] only if [b] is not NULL. *)
Definition rep_cond (a b : option string) : option string :=
  match b with Some _ => b | None => a end.

(** ** Tactics *)

(** Split on the [match] that blocks the goal's reduction. *)
Ltac case_goal :=
  match goal with
  | |- context [match ?x with _ => _ end] => destruct x eqn:?
  end.

(** Clear the boolean tests on [Z] and [nat]. *)
Ltac zbool :=
  repeat match goal with
  | H : (_ =? _)%Z = true |- _ => apply Z.eqb_eq in H
  | H : (_ =? _)%Z = false |- _ => apply Z.eqb_neq in H
  | H : (_ <? _)%Z = true |- _ => apply Z.ltb_lt in H
  | H : (_ <? _)%Z = false |- _ => apply Z.ltb_ge in H
  | H : (_ <=? _)%Z = true |- _ => apply Z.leb_le in H
  | H : (_ <=? _)%Z = false |- _ => apply Z.leb_gt in H
  end.
