(* ===== verification/CLib.v ===== *)
(** * The C library

    What the modelled code uses of the C standard library: [strchr], [strstr],
    [strcasecmp], [strtol], [atoi], the [printf] family ([asprintf], [snprintf],
    [trio_asprintf]) and [sscanf], on an LP64 machine.  A C string is a [string]
    (its bytes up to the terminating NUL), a pointer into a string is the suffix
    it points to. *)
From Stdlib Require Import ZArith Lia.
From Stdlib Require Import Ascii.
From stdpp Require Import base option list strings numbers.
From S2P Require Import Prelude.
#[local] Open Scope Z_scope.
#[global] Arguments String.append !_ _ / : simpl nomatch.

(** ** Characters *)
Definition code (c : ascii) : Z := Z.of_N (N_of_ascii c).
Definition chr (z : Z) : ascii := ascii_of_N (Z.to_N z).

Definition isspace (c : ascii) : bool :=
  (code c =? 32) || ((9 <=? code c) && (code c <=? 13)).
Definition digit_val (c : ascii) : option Z :=
  if (48 <=? code c) && (code c <=? 57) then Some (code c - 48) else None.
Definition digit_char (d : Z) : ascii := chr (48 + d).
Definition tolower (c : ascii) : ascii :=
  if (65 <=? code c) && (code c <=? 90) then chr (code c + 32) else c.

(** ** Strings *)
Fixpoint strchr (s : string) (c : ascii) : option string :=
  match s with
  | EmptyString => None
  | String a r => if Ascii.eqb a c then Some s else strchr r c
  end.

#[global] Arguments strchr _%_string_scope _%_char_scope.

(** The suffix at the last occurrence. *)
Fixpoint strrchr (s : string) (c : ascii) : option string :=
  match s with
  | EmptyString => None
  | String a r =>
    match strrchr r c with
    | Some t => Some t
    | None => if Ascii.eqb a c then Some s else None
    end
  end.

#[global] Arguments strrchr _%_string_scope _%_char_scope.

(** [strip_prefix p s] is the rest of [s] after the prefix [p]:
    [strncmp(s,p,strlen(p)) == 0] when it is not [None]. *)
Fixpoint strip_prefix (p s : string) : option string :=
  match p with
  | EmptyString => Some s
  | String a p' =>
    match s with
    | EmptyString => None
    | String b s' => if Ascii.eqb a b then strip_prefix p' s' else None
    end
  end.

Fixpoint strstr (s needle : string) : option string :=
  match strip_prefix needle s with
  | Some _ => Some s
  | None =>
    match s with
    | EmptyString => None
    | String _ r => strstr r needle
    end
  end.

Fixpoint strcmp (s t : string) : Z :=
  match s, t with
  | EmptyString, EmptyString => 0
  | EmptyString, String _ _ => -1
  | String _ _, EmptyString => 1
  | String a s', String b t' =>
    if code a <? code b then -1
    else if code b <? code a then 1
    else strcmp s' t'
  end.

Fixpoint str_map (f : ascii → ascii) (s : string) : string :=
  match s with EmptyString => EmptyString | String a r => String (f a) (str_map f r) end.
Definition strcasecmp_eq (s t : string) : bool :=
  String.eqb (str_map tolower s) (str_map tolower t).

Fixpoint str_take (n : nat) (s : string) : string :=
  match n, s with
  | S n, String a r => String a (str_take n r)
  | _, _ => EmptyString
  end.
Fixpoint str_drop (n : nat) (s : string) : string :=
  match n, s with
  | S n, String a r => str_drop n r
  | _, _ => s
  end.
Fixpoint str_repeat (c : ascii) (n : nat) : string :=
  match n with O => EmptyString | S n => String c (str_repeat c n) end.
Fixpoint str_forall (p : ascii → bool) (s : string) : bool :=
  match s with EmptyString => true | String a r => p a && str_forall p r end.

(** The bytes before the first one that satisfies [p], and from it on. *)
Fixpoint str_span (p : ascii → bool) (s : string) : string * string :=
  match s with
  | EmptyString => (EmptyString, EmptyString)
  | String a r =>
    if p a then (EmptyString, s)
    else let '(u, v) := str_span p r in (String a u, v)
  end.

Fixpoint skip_space (s : string) : string :=
  match s with
  | String a r => if isspace a then skip_space r else s
  | EmptyString => s
  end.

(** ** Decimal numbers: reading *)
Fixpoint scan_digits (s : string) (acc : Z) : Z * string :=
  match s with
  | String c r =>
    match digit_val c with
    | Some d => scan_digits r (10 * acc + d)
    | None => (acc, s)
    end
  | EmptyString => (acc, s)
  end.

Definition starts_digit (s : string) : bool :=
  match s with
  | String c _ => match digit_val c with Some _ => true | None => false end
  | EmptyString => false
  end.

(** An optional sign and at least one digit. *)
Definition scan_signed (s : string) : option (Z * string) :=
  match s with
  | String "-" r =>
    if starts_digit r then let '(n, t) := scan_digits r 0 in Some (- n, t) else None
  | String "+" r => if starts_digit r then Some (scan_digits r 0) else None
  | _ => if starts_digit s then Some (scan_digits s 0) else None
  end.

Definition scan_num (s : string) : option (Z * string) := scan_signed (skip_space s).

Definition clamp (lo hi z : Z) : Z := Z.max lo (Z.min hi z).

(** [strtol(s,&end,10)]: the value saturates, [end] is [s] if there is no number. *)
Definition strtol (s : string) : Z * string :=
  match scan_num s with
  | Some (n, t) => (clamp LONG_MIN LONG_MAX n, t)
  | None => (0, s)
  end.
Definition atoi (s : string) : Z := s32 (fst (strtol s)).

(** [(unsigned int) strtoul(s,NULL,10)]: a negative number is negated in the
    unsigned type, an overflow saturates at [ULONG_MAX]. *)
Definition ULONG_MAX : Z := 18446744073709551615.
Definition strtoul_uint (s : string) : Z :=
  match scan_num s with
  | Some (n, _) => if Z.abs n <=? ULONG_MAX then u32 n else u32 ULONG_MAX
  | None => 0
  end.

(** ** Decimal numbers: printing *)
Fixpoint digits_aux (fuel : nat) (n : Z) (acc : string) : string :=
  match fuel with
  | O => acc
  | S f =>
    if n <? 10 then String (digit_char n) acc
    else digits_aux f (n / 10) (String (digit_char (n mod 10)) acc)
  end.
Definition digits_fuel (n : Z) : nat := S (Z.to_nat (Z.log2 n)).
Definition print_nonneg (n : Z) : string := digits_aux (digits_fuel n) n EmptyString.

(** ["%d"], ["%Nd"] and ["%0Nd"]. *)
Definition fmt_d (zero : bool) (width : nat) (z : Z) : string :=
  let sign := if z <? 0 then "-"%string else EmptyString in
  let ds := print_nonneg (Z.abs z) in
  let pad := (width - (String.length sign + String.length ds))%nat in
  if zero then sign +:+ str_repeat "0" pad +:+ ds
  else str_repeat " " pad +:+ sign +:+ ds.

Abbreviation print_int := (fmt_d false 0).

(** ** Formats

    A format string is parsed into items, literal characters and conversions
    with their [0] flag and width; the [l] length modifier says nothing here,
    the values carry their own range. *)
Inductive fitem :=
| FLit (c : ascii)
| FConv (zero : bool) (width : nat) (conv : ascii).

Fixpoint parse_fmt_aux (s : string) (st : option (bool * nat)) : list fitem :=
  match s with
  | EmptyString => []
  | String c r =>
    match st with
    | None =>
      if Ascii.eqb c "%" then parse_fmt_aux r (Some (false, 0%nat))
      else FLit c :: parse_fmt_aux r None
    | Some (z, w) =>
      match digit_val c with
      | Some d =>
        if (Nat.eqb w 0) && (d =? 0) then parse_fmt_aux r (Some (true, 0%nat))
        else parse_fmt_aux r (Some (z, 10 * w + Z.to_nat d)%nat)
      | None =>
        if Ascii.eqb c "l" then parse_fmt_aux r (Some (z, w))
        else FConv z w c :: parse_fmt_aux r None
      end
    end
  end.
Definition parse_fmt (s : string) : list fitem := parse_fmt_aux s None.

(** *** printf

    [null] is what ["%s"] prints for a NULL pointer: ["(null)"] in glibc's [asprintf], and
    in [trio_asprintf] too ([TrioFormatProcess] of trio.c: the strings without an escaping
    qualifier; one with it, as in ["%|Ss"], prints ["(nil)"]).  An [int] argument is given
    as the signed value that ["%d"] prints. *)
Inductive parg :=
| PInt (z : Z)
| PStr (s : option string).

Definition glibc_null : string := "(null)".
Definition trio_null : string := "(null)".

Definition print_str (null : string) (s : option string) : string := default null s.

Fixpoint printf_items (null : string) (items : list fitem) (args : list parg) : string :=
  match items with
  | [] => EmptyString
  | FLit c :: items => String c (printf_items null items args)
  | FConv z w c :: items =>
    match args with
    | PInt n :: args => fmt_d z w n +:+ printf_items null items args
    | PStr s :: args => print_str null s +:+ printf_items null items args
    | [] => EmptyString
    end
  end.
Definition printf (null fmt : string) (args : list parg) : string :=
  printf_items null (parse_fmt fmt) args.

(** [asprintf] and [trio_asprintf]. *)
Definition asprintf : string → list parg → string := printf glibc_null.
Definition trio_asprintf : string → list parg → string := printf trio_null.

(** [snprintf(buf,size,fmt,...)]: what [buf] holds, at most [size-1] bytes. *)
Definition snprintf (size : nat) (fmt : string) (args : list parg) : string :=
  str_take (size - 1) (asprintf fmt args).

(** Run [printf] on a literal format. *)
Ltac norm_fmt :=
  repeat match goal with
  | |- context [parse_fmt ?f] =>
    let v := eval vm_compute in (parse_fmt f) in change (parse_fmt f) with v
  end.
Ltac printf_simpl :=
  unfold asprintf, trio_asprintf, printf; norm_fmt;
  cbn [printf_items String.append print_str default].

(** *** sscanf

    The values assigned, in order: the C function returns their number (or [EOF]
    instead of 0 if the input ends first). A literal matches itself, ["%d"] skips
    white space and stores the [strtol] value cut to an [int], ["%Ns"] skips white
    space and takes at most [N] other bytes, ["%c"] takes any byte. *)
Inductive sval :=
| SInt (z : Z)
| SStr (s : string)
| SChr (c : ascii).

Definition scan_num_width (w : nat) (s : string) : option (Z * string) :=
  match w with
  | O => scan_num s
  | _ =>
    let s := skip_space s in
    match scan_signed (str_take w s) with
    | Some (n, t) => Some (n, t +:+ str_drop w s)
    | None => None
    end
  end.

Definition scan_str_width (w : nat) (s : string) : option (string * string) :=
  let s := skip_space s in
  let '(tok, _) := str_span isspace s in
  let tok := match w with O => tok | _ => str_take w tok end in
  match tok with
  | EmptyString => None
  | _ => Some (tok, str_drop (String.length tok) s)
  end.

Fixpoint sscanf_items (items : list fitem) (s : string) : list sval :=
  match items with
  | [] => []
  | FLit c :: items =>
    match s with
    | String a r => if Ascii.eqb a c then sscanf_items items r else []
    | EmptyString => []
    end
  | FConv _ w "d" :: items =>
    match scan_num_width w s with
    | Some (n, r) => SInt (s32 (clamp LONG_MIN LONG_MAX n)) :: sscanf_items items r
    | None => []
    end
  | FConv _ w "s" :: items =>
    match scan_str_width w s with
    | Some (t, r) => SStr t :: sscanf_items items r
    | None => []
    end
  | FConv _ w "c" :: items =>
    match s with
    | String a r => SChr a :: sscanf_items items r
    | EmptyString => []
    end
  | FConv _ _ _ :: _ => []
  end.
Definition sscanf (s fmt : string) : list sval := sscanf_items (parse_fmt fmt) s.

(** [sscanf(s,"%d",&n)] and [sscanf(s,"%ld",&n)] with the test for one value. *)
Definition sscanf_d (s : string) : option Z :=
  match scan_num s with
  | Some (n, _) => Some (s32 (clamp LONG_MIN LONG_MAX n))
  | None => None
  end.
Definition sscanf_ld (s : string) : option Z :=
  match scan_num s with
  | Some (n, _) => Some (clamp LONG_MIN LONG_MAX n)
  | None => None
  end.

(** ** Lemmas on strings *)
Lemma app_nil_r_str (s : string) : s +:+ "" = s.
Proof. induction s; simpl; congruence. Qed.
Lemma app_assoc_str (a b c : string) : (a +:+ b) +:+ c = a +:+ (b +:+ c).
Proof. induction a; simpl; congruence. Qed.
Lemma length_app_str (a b : string) :
  String.length (a +:+ b) = (String.length a + String.length b)%nat.
Proof. induction a; simpl; congruence. Qed.
Lemma length_str_repeat c n : String.length (str_repeat c n) = n.
Proof. induction n; simpl; congruence. Qed.

Lemma strip_prefix_app p s : strip_prefix p (p +:+ s) = Some s.
Proof. induction p as [|a p IH]; simpl; [done |]. by rewrite Ascii.eqb_refl. Qed.
Lemma strip_prefix_inv p s t : strip_prefix p s = Some t → s = p +:+ t.
Proof.
  revert s. induction p as [|a p IH]; intros s; simpl; [congruence |].
  destruct s as [|b s]; [discriminate |].
  destruct (Ascii.eqb_spec a b) as [->|]; [| discriminate].
  intros H. by rewrite (IH s H).
Qed.

Lemma str_forall_app p a b : str_forall p (a +:+ b) = str_forall p a && str_forall p b.
Proof. induction a; simpl; [done |]. by rewrite IHa, andb_assoc. Qed.
Lemma str_forall_repeat p c n : p c = true → str_forall p (str_repeat c n) = true.
Proof. intros H. induction n; simpl; [done |]. by rewrite H. Qed.
Lemma str_forall_impl (p q : ascii → bool) s :
  (∀ c, p c = true → q c = true) → str_forall p s = true → str_forall q s = true.
Proof.
  intros Hpq. induction s as [|a s IH]; simpl; [done |].
  rewrite !andb_true_iff. intros [??]. auto.
Qed.

Lemma strchr_app_none s t c :
  str_forall (fun a => negb (Ascii.eqb a c)) s = true →
  strchr (s +:+ t) c = strchr t c.
Proof.
  induction s as [|a s IH]; simpl; [done |].
  rewrite andb_true_iff, negb_true_iff. intros [-> H]. auto.
Qed.
Lemma strchr_none s c :
  str_forall (fun a => negb (Ascii.eqb a c)) s = true → strchr s c = None.
Proof. intros H. rewrite <-(app_nil_r_str s), strchr_app_none; done. Qed.
Lemma strrchr_none s c :
  str_forall (fun a => negb (Ascii.eqb a c)) s = true → strrchr s c = None.
Proof.
  induction s as [|a s IH]; simpl; [done |].
  rewrite andb_true_iff, negb_true_iff. intros [-> H]. by rewrite IH.
Qed.
Lemma strrchr_app s t c u : strrchr t c = Some u → strrchr (s +:+ t) c = Some u.
Proof. intros H. induction s as [|a s IH]; simpl; [done |]. by rewrite IH. Qed.

Lemma strrchr_sep s c t :
  str_forall (fun a => negb (Ascii.eqb a c)) t = true →
  strrchr (s +:+ String c t) c = Some (String c t).
Proof.
  intros H. apply strrchr_app. simpl. by rewrite strrchr_none, Ascii.eqb_refl.
Qed.
Lemma strchr_sep s c t :
  str_forall (fun a => negb (Ascii.eqb a c)) s = true →
  strchr (s +:+ String c t) c = Some (String c t).
Proof. intros H. rewrite strchr_app_none by done. simpl. by rewrite Ascii.eqb_refl. Qed.

Lemma strchr_inv s c t :
  strchr s c = Some t →
  ∃ a r, s = a +:+ t ∧ t = String c r ∧ str_forall (fun x => negb (Ascii.eqb x c)) a = true.
Proof.
  induction s as [|x s IH]; simpl; [discriminate |].
  destruct (Ascii.eqb_spec x c) as [->|Hx].
  - intros [= <-]. exists "", s. done.
  - intros H. destruct (IH H) as (a & r & -> & -> & Ha).
    exists (String x a), r. simpl. rewrite Ha.
    by destruct (Ascii.eqb_spec x c).
Qed.
Lemma strrchr_inv s c t :
  strrchr s c = Some t → ∃ a r, s = a +:+ t ∧ t = String c r.
Proof.
  induction s as [|x s IH]; simpl; [discriminate |].
  destruct (strrchr s c) as [u|].
  - intros [= <-]. destruct (IH eq_refl) as (a & r & -> & ->). by exists (String x a), r.
  - destruct (Ascii.eqb_spec x c) as [->|]; [| discriminate].
    intros [= <-]. by exists "", s.
Qed.

(** [needle] occurs in any string it is put into. *)
Lemma strstr_app_some a needle b : is_Some (strstr (a +:+ needle +:+ b) needle).
Proof.
  induction a as [|x a IH]; simpl.
  - destruct (needle +:+ b) eqn:E; simpl; rewrite <-E, strip_prefix_app; eauto.
  - destruct (strip_prefix _ _); eauto.
Qed.

(** A needle with a byte the string does not have does not occur. *)
Lemma strstr_none s needle c :
  str_forall (fun a => negb (Ascii.eqb a c)) s = true →
  str_forall (fun a => negb (Ascii.eqb a c)) needle = false →
  strstr s needle = None.
Proof.
  intros Hs Hn.
  assert (∀ t, str_forall (fun a => negb (Ascii.eqb a c)) t = true →
          strip_prefix needle t = None) as Hsp.
  { intros t Ht. destruct (strip_prefix needle t) as [u|] eqn:E; [| done].
    apply strip_prefix_inv in E. subst t.
    rewrite str_forall_app, Hn in Ht. discriminate. }
  induction s as [|a s IH]; simpl.
  - by rewrite Hsp.
  - rewrite Hsp by done. apply IH. simpl in Hs. by apply andb_true_iff in Hs as [_ ?].
Qed.

Lemma length_str_take n s : String.length (str_take n s) = Nat.min n (String.length s).
Proof. revert s. induction n as [|n IH]; intros [|c s]; cbn; [done..|]. by rewrite IH. Qed.
Lemma str_take_all n s : (String.length s ≤ n)%nat → str_take n s = s.
Proof.
  revert s. induction n as [|n IH]; intros [|a s]; simpl; intros; try done; [lia |].
  rewrite IH; [done | lia].
Qed.
Lemma str_take_drop n s : str_take n s +:+ str_drop n s = s.
Proof. revert s. induction n as [|n IH]; intros [|a s]; simpl; try done. by rewrite IH. Qed.
Lemma str_take_app s t : str_take (String.length s) (s +:+ t) = s.
Proof. induction s as [|a s IH]; simpl; [by destruct t | by rewrite IH]. Qed.
Lemma str_drop_app s t : str_drop (String.length s) (s +:+ t) = t.
Proof. induction s as [|a s IH]; simpl; [by destruct t | done]. Qed.

(** ** Lemmas on decimal numbers *)
Lemma digit_cases (P : Z → Prop) d :
  0 ≤ d < 10 → P 0 → P 1 → P 2 → P 3 → P 4 → P 5 → P 6 → P 7 → P 8 → P 9 → P d.
Proof.
  intros. assert (d = 0 ∨ d = 1 ∨ d = 2 ∨ d = 3 ∨ d = 4 ∨ d = 5 ∨ d = 6 ∨ d = 7 ∨
    d = 8 ∨ d = 9) by lia. destruct_or!; subst; assumption.
Qed.
Lemma digit_val_char d : 0 ≤ d < 10 → digit_val (digit_char d) = Some d.
Proof. intros Hd. by apply (digit_cases (fun d => digit_val (digit_char d) = Some d)). Qed.

(** The bytes of a printed number. *)
Definition numchar (c : ascii) : bool :=
  match digit_val c with
  | Some _ => true
  | None => Ascii.eqb c "-" || Ascii.eqb c " "
  end.
Definition isdigit (c : ascii) : bool :=
  match digit_val c with Some _ => true | None => false end.
Lemma isdigit_digit_char d : 0 ≤ d < 10 → isdigit (digit_char d) = true.
Proof. intros. unfold isdigit. by rewrite digit_val_char. Qed.

Lemma digits_aux_forall p fuel n acc :
  (∀ c, isdigit c = true → p c = true) → 0 ≤ n →
  str_forall p acc = true → str_forall p (digits_aux fuel n acc) = true.
Proof.
  intros Hp. revert n acc. induction fuel as [|f IH]; intros n acc Hn Hacc; simpl; [done |].
  destruct (n <? 10) eqn:E; zbool; simpl.
  - rewrite Hp; [done |]. apply isdigit_digit_char. lia.
  - apply IH; [apply Z.div_pos; lia |]. simpl. rewrite Hp; [done |].
    apply isdigit_digit_char. apply Z.mod_pos_bound. lia.
Qed.
Lemma print_nonneg_digits n : 0 ≤ n → str_forall isdigit (print_nonneg n) = true.
Proof. intros. by apply digits_aux_forall. Qed.

Lemma digits_aux_starts fuel n acc :
  0 ≤ n → starts_digit (digits_aux (S fuel) n acc) = true ∨
  starts_digit acc = true ∧ starts_digit (digits_aux (S fuel) n acc) = true.
Proof.
  left. revert n acc H. induction fuel as [|f IH]; intros n acc Hn.
  - simpl. destruct (n <? 10) eqn:E; zbool; simpl.
    + rewrite digit_val_char by lia. done.
    + rewrite digit_val_char; [done |]. apply Z.mod_pos_bound; lia.
  - change (digits_aux (S (S f)) n acc) with
      (if n <? 10 then String (digit_char n) acc
       else digits_aux (S f) (n / 10) (String (digit_char (n mod 10)) acc)).
    destruct (n <? 10) eqn:E; zbool; simpl.
    + rewrite digit_val_char by lia. done.
    + apply IH. apply Z.div_pos; lia.
Qed.
Lemma print_nonneg_starts n t : 0 ≤ n → starts_digit (print_nonneg n +:+ t) = true.
Proof.
  intros Hn. destruct (digits_aux_starts (Z.to_nat (Z.log2 n)) n "" Hn) as [H|[H _]]; [| done].
  unfold print_nonneg, digits_fuel.
  by destruct (digits_aux (S (Z.to_nat (Z.log2 n))) n "").
Qed.

Lemma digits_fuel_bound n : 0 ≤ n → n < 2 ^ Z.of_nat (digits_fuel n).
Proof.
  intros. unfold digits_fuel. destruct (decide (n = 0)) as [->|].
  - simpl. lia.
  - rewrite Nat2Z.inj_succ, Z2Nat.id by apply Z.log2_nonneg.
    apply Z.log2_spec. lia.
Qed.

(** Reading back a printed number, whatever follows it. *)
Lemma scan_digits_aux fuel n acc :
  0 ≤ n < 2 ^ Z.of_nat fuel → scan_digits (digits_aux fuel n acc) 0 = scan_digits acc n.
Proof.
  revert n acc. induction fuel as [|f IH]; intros n acc Hn.
  - simpl in *. assert (n = 0) as -> by lia. done.
  - cbn [digits_aux]. destruct (n <? 10) eqn:E; zbool.
    + cbn [scan_digits]. by rewrite digit_val_char by lia.
    + rewrite IH.
      * cbn [scan_digits]. rewrite digit_val_char by (apply Z.mod_pos_bound; lia).
        f_equal. rewrite (Z.div_mod n 10) at 3 by lia. lia.
      * split; [apply Z.div_pos; lia |]. rewrite Nat2Z.inj_succ, Z.pow_succ_r in Hn by lia.
        apply Z.div_lt_upper_bound; lia.
Qed.
Lemma digits_aux_app fuel n acc t :
  digits_aux fuel n acc +:+ t = digits_aux fuel n (acc +:+ t).
Proof.
  revert n acc. induction fuel as [|f IH]; intros; simpl; [done |].
  destruct (n <? 10); simpl; [done |]. by rewrite IH.
Qed.
Lemma scan_print_nonneg n t :
  0 ≤ n → starts_digit t = false → scan_digits (print_nonneg n +:+ t) 0 = (n, t).
Proof.
  intros Hn Ht. unfold print_nonneg. rewrite digits_aux_app, scan_digits_aux.
  - destruct t as [|c t]; simpl in *; [done |]. by destruct (digit_val c).
  - split; [done |]. by apply digits_fuel_bound.
Qed.
Lemma scan_digits_zeros k s : scan_digits (str_repeat "0" k +:+ s) 0 = scan_digits s 0.
Proof.
  induction k as [|k IH]; [done |]. cbn [str_repeat String.append scan_digits].
  change (digit_val "0") with (Some 0). exact IH.
Qed.

Lemma scan_signed_digits s :
  starts_digit s = true → scan_signed s = Some (scan_digits s 0).
Proof.
  intros H. destruct s as [|c s]; [discriminate |].
  assert (c ≠ "-"%char ∧ c ≠ "+"%char) as [H1 H2].
  { split; intros ->; discriminate. }
  destruct c as [[] [] [] [] [] [] [] []]; try (by destruct H1); try (by destruct H2);
    unfold scan_signed; by rewrite H.
Qed.
Lemma starts_digit_zeros k s :
  starts_digit s = true → starts_digit (str_repeat "0" k +:+ s) = true.
Proof. by destruct k. Qed.
Lemma skip_space_digit s : starts_digit s = true → skip_space s = s.
Proof.
  destruct s as [|c s]; [done |]. unfold starts_digit, digit_val, skip_space, isspace.
  destruct ((48 <=? code c) && (code c <=? 57)) eqn:E; [| discriminate]. intros _.
  apply andb_true_iff in E as [??]. zbool.
  destruct (code c =? 32) eqn:?; [zbool; lia |].
  destruct (9 <=? code c) eqn:?, (code c <=? 13) eqn:?; simpl; try done. zbool; lia.
Qed.
Lemma skip_space_repeat k s : skip_space (str_repeat " " k +:+ s) = skip_space s.
Proof. induction k; simpl; done. Qed.

(** The number printed by any of the formats is read back by [scan_num]. *)
Lemma scan_num_fmt_d zero w z t :
  starts_digit t = false → scan_num (fmt_d zero w z +:+ t) = Some (z, t).
Proof.
  intros Ht. unfold fmt_d, scan_num.
  set (pad := (w - _)%nat). clearbody pad.
  pose proof (print_nonneg_starts (Z.abs z) t ltac:(lia)) as Hs.
  pose proof (scan_print_nonneg (Z.abs z) t ltac:(lia) Ht) as Hd.
  destruct zero, (z <? 0) eqn:E; zbool; rewrite ?app_assoc_str; cbn [String.append].
  - cbn [skip_space isspace]. change (isspace "-") with false. cbn iota.
    cbn [scan_signed]. rewrite starts_digit_zeros by done.
    rewrite scan_digits_zeros, Hd. repeat f_equal. lia.
  - rewrite skip_space_digit by (by apply starts_digit_zeros).
    rewrite scan_signed_digits by (by apply starts_digit_zeros).
    rewrite scan_digits_zeros, Hd. repeat f_equal. lia.
  - rewrite skip_space_repeat. cbn [skip_space]. change (isspace "-") with false. cbn iota.
    cbn [scan_signed]. rewrite Hs, Hd. repeat f_equal. lia.
  - rewrite skip_space_repeat, skip_space_digit, scan_signed_digits, Hd by done.
    repeat f_equal. lia.
Qed.

(** What is printed consists of digits, signs and blanks. *)
Lemma isdigit_numchar c : isdigit c = true → numchar c = true.
Proof. unfold isdigit, numchar. by destruct (digit_val c). Qed.
Lemma fmt_d_numchar zero w z : str_forall numchar (fmt_d zero w z) = true.
Proof.
  unfold fmt_d. set (pad := (w - _)%nat). clearbody pad.
  assert (str_forall numchar (print_nonneg (Z.abs z)) = true) as H.
  { eapply str_forall_impl; [exact isdigit_numchar | apply print_nonneg_digits; lia]. }
  destruct zero, (z <? 0);
    rewrite !str_forall_app, ?str_forall_repeat, H by done; done.
Qed.
Lemma fmt_d_forall p zero w z :
  (∀ c, numchar c = true → p c = true) → str_forall p (fmt_d zero w z) = true.
Proof. intros H. eapply str_forall_impl; [exact H | apply fmt_d_numchar]. Qed.

(** A byte test that no byte of a number satisfies, decided by computation on the
    12 bytes a number is made of. *)
Definition numchars : string := "0123456789- ".
Lemma numchar_in c : numchar c = true → str_forall (fun a => negb (Ascii.eqb a c)) numchars = false.
Proof.
  destruct c as [[] [] [] [] [] [] [] []]; vm_compute; congruence.
Qed.
Lemma numchar_other (p : ascii → bool) :
  str_forall p numchars = true → ∀ c, numchar c = true → p c = true.
Proof.
  intros Hp c Hc%numchar_in. induction numchars as [|a s IH]; simpl in *; [discriminate |].
  apply andb_true_iff in Hp as [Ha Hp].
  destruct (Ascii.eqb_spec a c) as [->|]; simpl in *; auto.
Qed.
Lemma fmt_d_other p zero w z :
  str_forall p numchars = true → str_forall p (fmt_d zero w z) = true.
Proof. intros. by apply fmt_d_forall, numchar_other. Qed.

(** The width of a zero padded number that fits it. *)
Lemma length_digits_aux fuel n acc (k : nat) :
  0 ≤ n < 10 ^ Z.of_nat k → (0 < k)%nat →
  (String.length (digits_aux fuel n acc) ≤ k + String.length acc)%nat.
Proof.
  revert n acc k. induction fuel as [|f IH]; intros n acc k Hn Hk; simpl; [lia |].
  destruct (n <? 10) eqn:E; zbool; simpl; [lia |].
  destruct k as [|[|k]]; [lia | simpl in Hn; lia |].
  etrans; [apply (IH _ _ (S k)) | simpl; lia]; [| lia].
  split; [apply Z.div_pos; lia |].
  rewrite (Nat2Z.inj_succ (S k)), Z.pow_succ_r in Hn by lia.
  apply Z.div_lt_upper_bound; lia.
Qed.
Lemma length_fmt_d_zero (w : nat) z :
  (0 < w)%nat → 0 ≤ z < 10 ^ Z.of_nat w → String.length (fmt_d true w z) = w.
Proof.
  intros Hw Hz. unfold fmt_d. destruct (z <? 0) eqn:E; zbool; [lia |].
  rewrite Z.abs_eq by lia. rewrite !length_app_str, length_str_repeat.
  pose proof (length_digits_aux (digits_fuel z) z "" w Hz Hw) as Hl.
  unfold print_nonneg. simpl in *. lia.
Qed.

(** One conversion of a number that was printed by any of the formats. *)
Lemma clamp_int z : is_int z → s32 (clamp LONG_MIN LONG_MAX z) = z.
Proof.
  intros H. rewrite <-(s32_id z) at 2 by done. f_equal. unfold clamp. unfold_int. lia.
Qed.
Lemma sscanf_items_d z items w t n :
  is_int n → starts_digit t = false →
  sscanf_items (FConv false 0 "d" :: items) (fmt_d z w n +:+ t) =
  SInt n :: sscanf_items items t.
Proof.
  intros Hn Ht. simpl. rewrite scan_num_fmt_d by done. by rewrite clamp_int.
Qed.
Lemma sscanf_items_lit c items t :
  sscanf_items (FLit c :: items) (String c t) = sscanf_items items t.
Proof. simpl. by rewrite Ascii.eqb_refl. Qed.
Lemma sscanf_d_print n t :
  is_int n → starts_digit t = false → sscanf_d (print_int n +:+ t) = Some n.
Proof.
  intros Hn Ht. unfold sscanf_d. rewrite scan_num_fmt_d by done.
  by rewrite clamp_int.
Qed.
Lemma sscanf_ld_print n t :
  is_long n → starts_digit t = false → sscanf_ld (print_int n +:+ t) = Some n.
Proof.
  intros Hn Ht. unfold sscanf_ld. rewrite scan_num_fmt_d by done.
  f_equal. unfold clamp. unfold_int. lia.
Qed.

Lemma str_span_app p s t :
  str_forall (fun c => negb (p c)) s = true →
  (∃ c r, t = String c r ∧ p c = true) ∨ t = EmptyString →
  str_span p (s +:+ t) = (s, t).
Proof.
  intros Hs Ht. induction s as [|a s IH]; simpl in *.
  - destruct Ht as [(c & r & -> & Hc)| ->]; simpl; [by rewrite Hc | done].
  - apply andb_true_iff in Hs as [Ha%negb_true_iff Hs]. by rewrite Ha, IH.
Qed.
Lemma str_span_spec p s u v :
  str_span p s = (u, v) →
  s = u +:+ v ∧ str_forall (fun c => negb (p c)) u = true ∧
  ((∃ c r, v = String c r ∧ p c = true) ∨ v = EmptyString).
Proof.
  revert u v. induction s as [|a s IH]; intros u v; simpl.
  - intros [= <- <-]. auto.
  - destruct (p a) eqn:Ha.
    + intros [= <- <-]. simpl. eauto 10.
    + destruct (str_span p s) as [u' v']. intros [= <- <-].
      destruct (IH u' v' eq_refl) as (-> & H & H'). simpl. by rewrite Ha.
Qed.

Lemma atoi_print w n : is_int n → atoi (fmt_d false w n) = n.
Proof.
  intros Hn. unfold atoi, strtol. rewrite <-(app_nil_r_str (fmt_d false w n)).
  rewrite scan_num_fmt_d by done. by apply clamp_int.
Qed.
