(* ===== verification/JobId.v ===== *)
(** * Job identifiers

    The model of org.glite.jobid.api-c/src/cjobid.c: the job identifier record,
    its creation, its textual form ["https://host:port/unique?info"] and the
    parser.  A [glite_jobid_t] is an [option JobId], NULL being [None]; [malloc]
    does not fail. *)
From Stdlib Require Import ZArith Lia Ascii.
From stdpp Require Import base option list strings numbers.
From S2P Require Import Prelude CLib.
#[local] Open Scope Z_scope.

Definition GLITE_JOBID_DEFAULT_PORT : Z := 9000.
Definition GLITE_JOBID_PROTO_PREFIX : string := "https://".

Record JobId := mkJobId {
  jid_id : string;
  BShost : string;
  BSport : Z;
  jid_info : option string
}.
#[export] Instance JobId_eq_dec : EqDecision JobId.
Proof. solve_decision. Defined.

(** The part of [s] before the suffix [t]. *)
Definition before (s t : string) : string := str_take (String.length s - String.length t) s.
(** [p + 1] *)
Definition tail1 (s : string) : string :=
  match s with String _ r => r | EmptyString => EmptyString end.
Definition no_space (s : string) : bool := str_forall (fun c => negb (isspace c)) s.

(** [fresh] is the MD5 based unique string that is drawn when [unique] is NULL;
    [None] is the return value [EINVAL]. *)
Definition glite_jobid_recreate (fresh : string) (bkserver : option string) (port : Z)
    (unique : option string) : option JobId :=
  match bkserver with
  | None => None
  | Some bk =>
    match strip_prefix GLITE_JOBID_PROTO_PREFIX bk with
    | Some _ => None
    | None =>
      let '(host, port) :=
        match strrchr bk ":" with
        | Some portbeg =>
          (before bk portbeg, if port =? 0 then atoi (tail1 portbeg) else port)
        | None => (bk, port)
        end in
      let port := if port =? 0 then GLITE_JOBID_DEFAULT_PORT else port in
      Some {| jid_id := default fresh unique; BShost := host; BSport := u32 port;
              jid_info := None |}
    end
  end.

Definition glite_jobid_create (fresh : string) (bkserver : option string) (port : Z) :
    option JobId :=
  glite_jobid_recreate fresh bkserver port None.

Definition glite_jobid_dup (j : option JobId) : option JobId :=
  match j with
  | None => None
  | Some j => Some {| jid_id := j.(jid_id); BShost := j.(BShost);
                      BSport := j.(BSport); jid_info := j.(jid_info) |}
  end.

(** [None] is [EINVAL], with [*jobId] NULL. *)
Definition glite_jobid_parse (idString : string) : option JobId :=
  match strip_prefix GLITE_JOBID_PROTO_PREFIX idString with
  | None => None
  | Some pom =>
    match strchr pom "/" with
    | None => None
    | Some pom1 =>
      let hostport := before pom pom1 in
      let pom2 :=
        match strrchr hostport ":" with
        | Some p => match strchr p "]" with Some _ => None | None => Some p end
        | None => None
        end in
      let '(host, port) :=
        match pom2 with
        | Some p => (before hostport p, strtoul_uint (tail1 p))
        | None => (hostport, GLITE_JOBID_DEFAULT_PORT)
        end in
      let path := tail1 pom1 in
      let '(uniq, info) :=
        match strchr path "?" with
        | Some q => (before path q, Some (tail1 q))
        | None => (path, None)
        end in
      if no_space host && no_space uniq
      then Some {| jid_id := uniq; BShost := host; BSport := port; jid_info := info |}
      else None
    end
  end.

(** The port in use: [jobid->BSport ? jobid->BSport : GLITE_JOBID_DEFAULT_PORT]. *)
Definition port_of (j : JobId) : Z :=
  if j.(BSport) =? 0 then GLITE_JOBID_DEFAULT_PORT else j.(BSport).

Definition glite_jobid_unparse (j : option JobId) : option string :=
  match j with
  | None => None
  | Some j =>
    Some (GLITE_JOBID_PROTO_PREFIX +:+
      asprintf "%s:%d/%s%s%s"
        [PStr (Some j.(BShost)); PInt (s32 (port_of j)); PStr (Some j.(jid_id));
         PStr (Some (match j.(jid_info) with Some _ => "?" | None => "" end));
         PStr (Some (default ""%string j.(jid_info)))])
  end.

Definition glite_jobid_getServer (j : option JobId) : option string :=
  match j with
  | None => None
  | Some j => Some (asprintf "%s:%u" [PStr (Some j.(BShost)); PInt (port_of j)])
  end.

Definition glite_jobid_getServerParts (j : option JobId) : option (string * Z) :=
  match j with
  | None => None
  | Some j => Some (j.(BShost), port_of j)
  end.

Definition glite_jobid_getUnique (j : option JobId) : option string :=
  match j with None => None | Some j => Some j.(jid_id) end.

(** ** Properties *)

(** The identifiers that have a textual form of their own. *)
Definition wf_jobid (j : JobId) : Prop :=
  str_forall (fun c => negb (isspace c) && negb (Ascii.eqb c "/")) j.(BShost) = true ∧
  str_forall (fun c => negb (isspace c) && negb (Ascii.eqb c "?")) j.(jid_id) = true ∧
  0 < j.(BSport) < UINT_MOD.

#[export] Instance wf_jobid_dec j : Decision (wf_jobid j).
Proof. unfold wf_jobid. apply _. Defined.

Lemma str_forall_and p q s :
  str_forall (fun c => p c && q c) s = str_forall p s && str_forall q s.
Proof.
  induction s as [|a s IH]; simpl; [done |]. rewrite IH.
  by destruct (p a), (q a), (str_forall p s), (str_forall q s).
Qed.

Lemma before_app s t : before (s +:+ t) t = s.
Proof.
  unfold before. rewrite length_app_str, Nat.add_sub. apply str_take_app.
Qed.

Lemma strtoul_uint_port p t :
  0 < p < UINT_MOD → starts_digit t = false →
  strtoul_uint (print_int (s32 p) +:+ t) = p.
Proof.
  intros Hp Ht. unfold strtoul_uint. rewrite scan_num_fmt_d by done.
  assert (is_int (s32 p)) as Hi by apply s32_is_int.
  destruct (Z.abs (s32 p) <=? ULONG_MAX) eqn:E; zbool.
  - rewrite u32_s32. apply u32_id. unfold_int. lia.
  - unfold ULONG_MAX, is_int, INT_MIN, INT_MAX in *. lia.
Qed.

(** The textual form, spelled out. *)
Lemma unparse_text j :
  glite_jobid_unparse (Some j) =
  Some (GLITE_JOBID_PROTO_PREFIX +:+ (j.(BShost) +:+ String ":" (print_int (s32 (port_of j)))) +:+
        String "/" (j.(jid_id) +:+ match j.(jid_info) with Some i => String "?" i | None => "" end)).
Proof.
  unfold glite_jobid_unparse. printf_simpl. rewrite !app_assoc_str. cbn [String.append].
  by destruct (jid_info j) as [i|]; simpl; rewrite ?app_nil_r_str.
Qed.

Lemma print_int_no c n : numchar c = false →
  str_forall (fun a => negb (Ascii.eqb a c)) (print_int n) = true.
Proof.
  intros Hc. apply fmt_d_forall. intros a Ha. apply negb_true_iff.
  destruct (Ascii.eqb_spec a c) as [->|]; congruence.
Qed.

Lemma parse_unparse_wf j :
  wf_jobid j → ∃ s, glite_jobid_unparse (Some j) = Some s ∧ glite_jobid_parse s = Some j.
Proof.
  intros (Hh & Hi & Hp). rewrite unparse_text. eexists. split; [done |].
  assert (port_of j = BSport j) as ->.
  { unfold port_of. destruct (BSport j =? 0) eqn:E; zbool; lia. }
  rewrite str_forall_and in Hh, Hi.
  apply andb_true_iff in Hh as [Hh1 Hh2], Hi as [Hi1 Hi2].
  unfold glite_jobid_parse. rewrite strip_prefix_app.
  rewrite strchr_sep, before_app.
  2: { rewrite str_forall_app, Hh2. simpl. by apply print_int_no. }
  rewrite strrchr_sep by (by apply print_int_no).
  rewrite (strchr_none (String ":" _)) by (cbn [str_forall]; by rewrite print_int_no).
  rewrite before_app. cbn [tail1].
  rewrite <-(app_nil_r_str (print_int _)), strtoul_uint_port by done.
  destruct j as [i h p [inf|]]; simpl in *.
  - rewrite strchr_sep, before_app by done. cbn [tail1].
    unfold no_space. by rewrite Hh1, Hi1.
  - rewrite app_nil_r_str, strchr_none by done. unfold no_space. by rewrite Hh1, Hi1.
Qed.

(** the textual form of a job identifier determines it: [glite_jobid_unparse]
    of any identifier with a non-zero port, a host without blanks and slashes and a
    unique part without blanks and question marks is accepted by
    [glite_jobid_parse], which returns the same identifier, the additional
    information after the question mark included. *)
Theorem jobid_unparse_parse j :
  wf_jobid j → (s ← glite_jobid_unparse (Some j); glite_jobid_parse s) = Some j.
Proof. intros H. by destruct (parse_unparse_wf j H) as (s & -> & ?). Qed.

Lemma strtoul_uint_range s : is_uint (strtoul_uint s).
Proof.
  unfold strtoul_uint. destruct (scan_num s) as [[n t]|].
  - destruct (_ <=? _); apply u32_is_uint.
  - unfold_int. lia.
Qed.

(** What the parser returns is well formed, apart from a port 0. *)
Lemma parse_wf s j :
  glite_jobid_parse s = Some j → j.(BSport) ≠ 0 → wf_jobid j.
Proof.
  unfold glite_jobid_parse. intros H Hp.
  destruct (strip_prefix _ s) as [pom|]; [| done].
  destruct (strchr pom "/") as [pom1|] eqn:E1; [| done].
  apply strchr_inv in E1 as (hp & path & -> & -> & Hhp). rewrite before_app in H.
  set (pom2 := match strrchr hp ":" with
    | Some p => match strchr p "]" with Some _ => None | None => Some p end
    | None => None end) in H.
  assert (∀ p, pom2 = Some p → ∃ h, hp = h +:+ p) as Hpom2.
  { subst pom2. intros p. destruct (strrchr hp ":") as [q|] eqn:E; [| done].
    apply strrchr_inv in E as (h & r & -> & ->). destruct (strchr _ "]"); [done |].
    intros [= <-]. eauto. }
  clearbody pom2. cbn [tail1] in H.
  destruct (match pom2 with
    | Some p => (before hp p, strtoul_uint (tail1 p))
    | None => (hp, GLITE_JOBID_DEFAULT_PORT) end) as [host port] eqn:E2.
  assert (str_forall (fun a => negb (Ascii.eqb a "/")) host = true ∧ is_uint port) as [Hh Hport].
  { destruct pom2 as [p|]; injection E2 as <- <-.
    - destruct (Hpom2 p eq_refl) as [h ->]. rewrite before_app.
      rewrite str_forall_app in Hhp. apply andb_true_iff in Hhp as [??].
      split; [done | apply strtoul_uint_range].
    - split; [done |]. by unfold_int. }
  destruct (match strchr path "?" with
    | Some q => (before path q, Some (tail1 q))
    | None => (path, None) end) as [u inf] eqn:E3.
  assert (str_forall (fun a => negb (Ascii.eqb a "?")) u = true) as Hu.
  { destruct (strchr path "?") as [q|] eqn:Eq; injection E3 as <- <-.
    - apply strchr_inv in Eq as (a & r & -> & -> & Ha). by rewrite before_app.
    - clear -Eq. induction path as [|x path IH]; simpl in *; [done |].
      destruct (Ascii.eqb x "?"); [done | auto]. }
  destruct (no_space host) eqn:Eh; [| done]. destruct (no_space u) eqn:Eu; [| done].
  injection H as <-. simpl in *. unfold no_space in *.
  unfold wf_jobid. simpl. rewrite !str_forall_and, Hh, Hu, Eh, Eu.
  unfold is_uint in Hport. repeat split; lia.
Qed.

(** [glite_jobid_unparse] is a normal form: whatever text an identifier was
    parsed from (with another port spelling, without a port, with a bracketed
    host), printing it gives a text that is parsed to the same identifier. *)
Theorem jobid_parse_stable s j :
  glite_jobid_parse s = Some j → j.(BSport) ≠ 0 →
  (t ← glite_jobid_unparse (Some j); glite_jobid_parse t) = Some j.
Proof.
  intros H Hp. destruct (parse_unparse_wf j (parse_wf s j H Hp)) as (t & -> & ?). done.
Qed.

Example jobid_parse_examples :
  glite_jobid_parse "https://lb.example.org:9100/a1B2_c?x=1" =
    Some (mkJobId "a1B2_c" "lb.example.org" 9100 (Some "x=1"%string)) ∧
  glite_jobid_parse "https://lb.example.org/a1B2_c" =
    Some (mkJobId "a1B2_c" "lb.example.org" 9000 None) ∧
  glite_jobid_parse "https://[::1]/u" = Some (mkJobId "u" "[::1]" 9000 None) ∧
  glite_jobid_parse "http://h/u" = None ∧
  glite_jobid_parse "https://h h/u" = None.
Proof. vm_compute. auto. Qed.

Definition sample_jobid : JobId := mkJobId "u-1_Z" "lb.example.org" 9000 (Some "x y"%string).

Lemma jobid_unparse_parse_witness :
  wf_jobid sample_jobid ∧
  (s ← glite_jobid_unparse (Some sample_jobid); glite_jobid_parse s) = Some sample_jobid.
Proof.
  assert (wf_jobid sample_jobid) as H by (vm_compute; auto).
  split; [exact H | exact (jobid_unparse_parse sample_jobid H)].
Defined.

Lemma jobid_parse_stable_witness :
  (t ← glite_jobid_unparse (Some (mkJobId "u" "[::1]" 9000 None)); glite_jobid_parse t) =
  Some (mkJobId "u" "[::1]" 9000 None).
Proof.
  apply (jobid_parse_stable "https://[::1]/u"); [vm_compute; reflexivity | discriminate].
Defined.
