(* ===== verification/NotifId.v ===== *)
(** * Notification identifiers

    org.glite.lb.common/src/notifid.c: the identifiers of notification registrations,
    which are job identifiers whose unique part begins with ["NOTIF:"], on the operations
    of [JobId]. *)
From Stdlib Require Import ZArith Lia Ascii.
From stdpp Require Import base option list strings numbers.
From S2P Require Import Prelude CLib JobId.
#[local] Open Scope Z_scope.

(** ** Operations

    [None] is the error that the operation of the job identifier returns. *)
Definition edg_wll_NotifId : Type := JobId.

Definition edg_wll_NotifIdParse (s : string) : option edg_wll_NotifId := glite_jobid_parse s.
Definition edg_wll_NotifIdUnparse (n : option edg_wll_NotifId) : option string :=
  glite_jobid_unparse n.

Definition notif_unique (u : string) : string := asprintf "NOTIF:%s" [PStr (Some u)].

(** [fresh] is the unique part drawn for the job identifier. *)
Definition edg_wll_NotifIdCreate (fresh server : string) (port : Z) : option edg_wll_NotifId :=
  j ← glite_jobid_create fresh (Some server) port;
  u ← glite_jobid_getUnique (Some j);
  glite_jobid_recreate fresh (Some server) port (Some (notif_unique u)).

(** The server parts are read back from the identifier; the [unsigned] port is passed as an
    [int]. *)
Definition edg_wll_NotifIdSetUnique (n : edg_wll_NotifId) (un : string) : option edg_wll_NotifId :=
  '(srv, port) ← glite_jobid_getServerParts (Some n);
  glite_jobid_recreate "" (Some srv) (s32 port) (Some (notif_unique un)).

Definition edg_wll_NotifIdGetServerParts (n : edg_wll_NotifId) : option (string * Z) :=
  glite_jobid_getServerParts (Some n).

Definition edg_wll_NotifIdGetUnique (n : option edg_wll_NotifId) : option string :=
  id ← glite_jobid_getUnique n;
  s ← strchr id ":";
  Some (tail1 s).

Definition edg_wll_NotifIdDup (src : option edg_wll_NotifId) : option edg_wll_NotifId :=
  str ← edg_wll_NotifIdUnparse src;
  edg_wll_NotifIdParse str.

(** ** Properties *)

(** The host names that [glite_jobid_recreate] takes as they are. *)
Definition plain_host (h : string) : bool :=
  str_forall (fun c => negb (isspace c) && negb (Ascii.eqb c "/") && negb (Ascii.eqb c ":")) h.

Lemma plain_host_no h c : c = "/"%char ∨ c = ":"%char → plain_host h = true →
  str_forall (fun a => negb (Ascii.eqb a c)) h = true.
Proof.
  unfold plain_host. rewrite !str_forall_and. intros [-> | ->] H; apply andb_true_iff in H as [H1 H];
    [by apply andb_true_iff in H1 as [_ H1]|done].
Qed.

Lemma prefix_with p s c : str_forall (fun a => negb (Ascii.eqb a c)) p = false →
  str_forall (fun a => negb (Ascii.eqb a c)) s = true → strip_prefix p s = None.
Proof.
  revert s. induction p as [|a p IH]; intros [|b s] Hp Hs; try done.
  cbn [str_forall strip_prefix] in *. apply andb_true_iff in Hs as [Hb Hs].
  destruct (Ascii.eqb_spec a b) as [->|]; [|done]. rewrite Hb in Hp. by apply IH.
Qed.

Lemma recreate_plain fresh h p u : plain_host h = true → p ≠ 0 →
  glite_jobid_recreate fresh (Some h) p u =
  Some {| jid_id := default fresh u; BShost := h; BSport := u32 p; jid_info := None |}.
Proof.
  intros Hh Hp. unfold glite_jobid_recreate.
  rewrite (prefix_with _ h "/") by (try apply plain_host_no; auto).
  rewrite strrchr_none by (apply plain_host_no; auto).
  by rewrite (proj2 (Z.eqb_neq p 0)).
Qed.

Lemma notif_unique_eq u : notif_unique u = ("NOTIF:" +:+ u)%string.
Proof. unfold notif_unique. printf_simpl. by rewrite ?app_nil_r_str. Qed.

Lemma getUnique_notif j u : j.(jid_id) = notif_unique u →
  edg_wll_NotifIdGetUnique (Some j) = Some u.
Proof. intros H. unfold edg_wll_NotifIdGetUnique. cbn. by rewrite H, notif_unique_eq. Qed.

Lemma s32_zero p : is_uint p → s32 p = 0 → p = 0.
Proof. intros Hp H. rewrite <-(u32_id p Hp), <-u32_s32, H. done. Qed.

(** A registration whose server is a plain host name with a port gets any unique part:
    [edg_wll_NotifIdSetUnique] succeeds, [edg_wll_NotifIdGetUnique] returns this part, the
    server does not change, and if the part has a textual form (no blank, no question mark)
    then [edg_wll_NotifIdDup], which prints and parses, makes an equal identifier. *)
Theorem notifid_set_unique n u (Hh : plain_host n.(BShost) = true)
    (Hp : 0 < n.(BSport) < UINT_MOD) :
  ∃ n', edg_wll_NotifIdSetUnique n u = Some n' ∧
    edg_wll_NotifIdGetUnique (Some n') = Some u ∧
    edg_wll_NotifIdGetServerParts n' = edg_wll_NotifIdGetServerParts n ∧
    (str_forall (fun c => negb (isspace c) && negb (Ascii.eqb c "?")) u = true →
     edg_wll_NotifIdDup (Some n') = Some n').
Proof.
  assert (port_of n = BSport n) as E.
  { unfold port_of. by rewrite (proj2 (Z.eqb_neq _ 0)) by lia. }
  assert (s32 (BSport n) ≠ 0) as Hn.
  { intros H. apply s32_zero in H; [lia|]. unfold_int. lia. }
  assert (u32 (s32 (BSport n)) = BSport n) as Hu.
  { rewrite u32_s32. apply u32_id. unfold_int. lia. }
  unfold edg_wll_NotifIdSetUnique, glite_jobid_getServerParts. rewrite E. cbn [mbind option_bind].
  rewrite recreate_plain, Hu by done. eexists. split; [done|]. split; [by apply getUnique_notif|].
  split.
  { unfold edg_wll_NotifIdGetServerParts, glite_jobid_getServerParts. rewrite E.
    unfold port_of. cbn. by rewrite (proj2 (Z.eqb_neq _ 0)) by lia. }
  intros Ht. unfold edg_wll_NotifIdDup, edg_wll_NotifIdUnparse, edg_wll_NotifIdParse.
  match goal with |- _ = Some ?j => destruct (parse_unparse_wf j) as (t & E1 & E2) end.
  { unfold wf_jobid. cbn [jid_id BShost BSport default]. split_and!; [|by rewrite notif_unique_eq|lia..].
    revert Hh. unfold plain_host. rewrite str_forall_and. intros H.
    by apply andb_true_iff in H as [H _]. }
  setoid_rewrite E1. done.
Qed.

Lemma notifid_create fresh server port n : plain_host server = true → port ≠ 0 →
  edg_wll_NotifIdCreate fresh server port = Some n →
  edg_wll_NotifIdGetUnique (Some n) = Some fresh.
Proof.
  intros Hh Hp. unfold edg_wll_NotifIdCreate, glite_jobid_create.
  rewrite recreate_plain by done. cbn [mbind option_bind glite_jobid_getUnique jid_id default].
  rewrite recreate_plain by done. intros [= <-]. by apply getUnique_notif.
Qed.

(** A numeric IPv6 address loses its last field: the port is looked for behind its last
    colon. *)
Example set_unique_ipv6 :
  (n ← edg_wll_NotifIdParse "https://[2001:db8::1]:9000/NOTIF:a";
   n' ← edg_wll_NotifIdSetUnique n "b"; edg_wll_NotifIdUnparse (Some n')) =
  Some "https://[2001:db8::9000/NOTIF:b"%string.
Proof. vm_compute. reflexivity. Qed.

Lemma notifid_set_unique_witness :
  ∃ n', edg_wll_NotifIdSetUnique (mkJobId "NOTIF:old" "lb.cesnet.cz" 9100 None) "x:1" = Some n' ∧
    edg_wll_NotifIdGetUnique (Some n') = Some "x:1"%string ∧
    edg_wll_NotifIdGetServerParts n' =
      edg_wll_NotifIdGetServerParts (mkJobId "NOTIF:old" "lb.cesnet.cz" 9100 None) ∧
    (str_forall (fun c => negb (isspace c) && negb (Ascii.eqb c "?")) "x:1" = true →
     edg_wll_NotifIdDup (Some n') = Some n').
Proof. apply notifid_set_unique; [reflexivity | done]. Defined.
