(* ===== verification/StrMd5.v ===== *)
(** * Base64 and digests as text

    org.glite.jobid.api-c/src/strmd5.c: the base64 codec ([base64_encode],
    [base64_decode]) with the sizes of the buffers, and the digests as text ([strmd5],
    [str2md5], [str2md5base64]).  The reverse table [b64r] is the one that
    gen-b64r.pl generates.  MD5 itself is OpenSSL's: a parameter, of which the code relies
    on the size of the digest. *)
From Stdlib Require Import ZArith Lia Ascii.
From stdpp Require Import base option list strings numbers.
From S2P Require Import Prelude CLib JobId.
#[local] Open Scope Z_scope.

(** ** Tables *)
Definition b64 : string := "ABCDEFGHIJKLMNOPQRSTUVWXYZabcdefghijklmnopqrstuvwxyz0123456789-_".

Definition b64_at (i : Z) : ascii := default "A"%char (String.get (Z.to_nat i) b64).

(** [for my $i (0..$#b64) { $b64r[$b64[$i]] = $i; }]: the table ends at the largest code,
    the entries that are not set are 0. *)
Fixpoint fill (tab : list Z) (s : string) (i : Z) : list Z :=
  match s with
  | EmptyString => tab
  | String c s =>
    let k := Z.to_nat (code c) in
    fill (<[k := i]> (tab ++ replicate (S k - length tab) 0)) s (i + 1)
  end.
Definition b64r : list Z := fill [] b64 0.

(** [(int) c] of a [char], which is signed. *)
Definition char_int (c : ascii) : Z := if 128 <=? code c then code c - 256 else code c.

Definition b64r_at (c : ascii) : outcome Z :=
  if char_int c <? 0 then UB OutOfBounds
  else match b64r !! Z.to_nat (char_int c) with Some v => Ret v | None => UB OutOfBounds end.

Definition str_len (s : string) : Z := Z.of_nat (String.length s).

(** ** Encoding

    The [while (shift>=6)] loop: [cap] is the size of the memory behind [out], the bytes
    written are kept in [out]. *)
Fixpoint encode_shift (fuel : nat) (cap bits shift : Z) (out : string) : outcome (Z * string) :=
  match fuel with
  | O => UB NoFuel
  | S fuel =>
    if shift <? 6 then Ret (shift, out) else
    let shift := shift - 6 in
    if cap <=? str_len out then UB OutOfBounds else
    encode_shift fuel cap bits shift
      (out +:+ String (b64_at (Z.land (Z.shiftr bits shift) 63)) "")
  end.

(** [bits <<= 8; bits |= *enc_buf;] *)
Definition shift_in (bits w v : Z) : Z := Z.lor (u32 (Z.shiftl bits w)) v.

(** The outer loop; [None] is the return value -1. *)
Fixpoint encode_loop (fuel : nat) (cap max bits shift : Z) (enc out : string)
  : outcome (option string) :=
  match fuel with
  | O => UB NoFuel
  | S fuel =>
    if max <=? str_len out then Ret None else
    match enc with
    | String c enc =>
      let bits := shift_in bits 8 (code c) in
      let! '(shift, out) := encode_shift (S (Z.to_nat shift + 8)) cap bits (shift + 8) out in
      encode_loop fuel cap max bits shift enc out
    | EmptyString =>
      if 0 <? shift then
        let bits := u32 (Z.shiftl bits (6 - shift)) in
        let! '(shift, out) := encode_shift 7 cap bits 6 out in
        encode_loop fuel cap max bits shift enc out
      else
        if cap <=? str_len out then UB OutOfBounds else Ret (Some (out +:+ "="))
    end
  end.

(** [base64_encode(enc,strlen,out,max)] into [cap] bytes of memory.  An iteration takes a
    byte, pads, or ends the loop. *)
Definition base64_encode (cap : Z) (enc : string) (out_max_size : Z) : outcome (option string) :=
  encode_loop (3 + String.length enc) cap out_max_size 0 0 enc "".

(** ** Decoding *)
Fixpoint decode_shift (fuel : nat) (max bits shift : Z) (out : string)
  : outcome (option (Z * string)) :=
  match fuel with
  | O => UB NoFuel
  | S fuel =>
    if shift <? 8 then Ret (Some (shift, out)) else
    if max <=? str_len out then Ret None else
    let shift := shift - 8 in
    decode_shift fuel max bits shift (out +:+ String (chr (Z.land (Z.shiftr bits shift) 255)) "")
  end.

Fixpoint decode_loop (max bits shift : Z) (enc out : string) : outcome (option string) :=
  match enc with
  | EmptyString => Ret (Some out)
  | String c enc =>
    if Ascii.eqb c "=" then Ret (Some out) else
    let! v := b64r_at c in
    let bits := shift_in bits 6 v in
    let! r := decode_shift (S (Z.to_nat shift + 6)) max bits (shift + 6) out in
    match r with
    | Some (shift, out) => decode_loop max bits shift enc out
    | None => Ret None
    end
  end.

(** [None] is -1: the output does not fit. *)
Definition base64_decode (enc : string) (max_out_size : Z) : outcome (option string) :=
  decode_loop max_out_size 0 0 enc "".

(** ** Digests *)
Definition hex_char (dd : Z) : ascii := if dd <? 10 then chr (dd + 48) else chr (dd - 10 + 97).

(** The loop over the bytes of the digest. *)
Fixpoint hex_digest (d : string) : string :=
  match d with
  | EmptyString => ""
  | String c d =>
    String (hex_char (Z.shiftr (code c) 4)) (String (hex_char (Z.land (code c) 15)) (hex_digest d))
  end.

Section Digest.
Variable MD5 : string → string.

(** The text in the static buffer and the digest. *)
Definition strmd5 (s : string) : string * string := (hex_digest (MD5 s), MD5 s).
Definition str2md5 (s : string) : string := hex_digest (MD5 s).

(** [char buf[50]]; [buf[l-1] = 0] cuts the final ["="]. *)
Definition str2md5base64 (s : string) : outcome (option string) :=
  let! r := base64_encode 50 (MD5 s) 49 in
  match r with
  | Some buf => if str_len buf <? 1 then Ret None
                else Ret (Some (str_take (String.length buf - 1) buf))
  | None => Ret None
  end.
End Digest.

Example encode_ex : base64_encode 50 "any carnal pleas" 49 = Ret (Some "YW55IGNhcm5hbCBwbGVhcw="%string).
Proof. reflexivity. Qed.
Example decode_ex : base64_decode "YW55IGNhcm5hbCBwbGVhcw=" 16 = Ret (Some "any carnal pleas"%string).
Proof. reflexivity. Qed.
(** The size is tested before the inner loop, which can write two characters. *)
Example encode_overrun : base64_encode 3 "abc" 3 = UB OutOfBounds.
Proof. reflexivity. Qed.

(** ** The arithmetic of the bit buffers *)

Lemma str_len_app s t : str_len (s +:+ t) = str_len s + str_len t.
Proof. unfold str_len. rewrite length_app_str. lia. Qed.
Lemma str_len_cons c s : str_len (String c s) = 1 + str_len s.
Proof. unfold str_len. cbn [String.length]. lia. Qed.
Lemma str_len_nil : str_len "" = 0.
Proof. reflexivity. Qed.
Lemma str_len_nonneg s : 0 <= str_len s.
Proof. unfold str_len. lia. Qed.

Lemma shift_in_arith bits w v : 0 <= w <= 32 -> 0 <= v < 2 ^ w ->
  shift_in bits w v = (bits * 2 ^ w + v) mod UINT_MOD.
Proof.
  intros Hw Hv. unfold shift_in, u32.
  change UINT_MOD with (2 ^ 32). rewrite Z.shiftl_mul_pow2 by lia.
  replace (2 ^ 32) with (2 ^ (32 - w) * 2 ^ w) by (rewrite <-Z.pow_add_r by lia; f_equal; lia).
  assert (0 < 2 ^ w) by lia. assert (0 < 2 ^ (32 - w)) by lia.
  rewrite Z.mul_mod_distr_r by lia.
  set (q := bits mod 2 ^ (32 - w)).
  pose proof (Z.mod_pos_bound bits (2 ^ (32 - w)) ltac:(lia)) as Hq. fold q in Hq.
  assert (Z.lor (q * 2 ^ w) v = q * 2 ^ w + v) as ->.
  { rewrite <-Z.add_lor_land.
    assert (Z.land (q * 2 ^ w) v = 0) as ->; [|lia].
    apply Z.bits_inj'. intros n Hn. rewrite Z.land_spec, Z.bits_0.
    destruct (Z.ltb_spec n w).
    - by rewrite Z.mul_pow2_bits_low.
    - assert (Z.testbit v n = false) as ->; [|by rewrite andb_false_r].
      destruct (Z.eq_dec v 0) as [->|]; [apply Z.bits_0|].
      apply Z.bits_above_log2; [lia|]. apply Z.log2_lt_pow2; [lia|].
      eapply Z.lt_le_trans; [apply Hv|]. apply Z.pow_le_mono_r; lia. }
  apply (Z.mod_unique_pos _ _ (bits / 2 ^ (32 - w))); [nia|].
  subst q. rewrite (Z.mod_eq bits) by lia. nia.
Qed.

Lemma sextet x s : 0 <= s -> Z.land (Z.shiftr x s) 63 = (x / 2 ^ s) mod 64.
Proof. intros. rewrite (Z.land_ones _ 6), Z.shiftr_div_pow2 by lia. done. Qed.
Lemma octet x s : 0 <= s -> Z.land (Z.shiftr x s) 255 = (x / 2 ^ s) mod 256.
Proof. intros. rewrite (Z.land_ones _ 8), Z.shiftr_div_pow2 by lia. done. Qed.

Lemma code_range c : 0 <= code c < 256.
Proof. unfold code. destruct c as [[][][][][][][][]]; vm_compute; by split. Qed.

(** ** Encoding *)

Ltac div_lia := Z.to_euclidean_division_equations; lia.

Definition out1 (out : string) (i : Z) : string := out +:+ String (b64_at i) "".

Lemma encode_shift_stop fuel cap bits shift out : shift < 6 ->
  encode_shift (S fuel) cap bits shift out = Ret (shift, out).
Proof. intros. cbn [encode_shift]. by rewrite (proj2 (Z.ltb_lt _ _)). Qed.

Lemma encode_shift_step fuel cap bits shift out : 6 <= shift -> str_len out < cap ->
  encode_shift (S fuel) cap bits shift out =
  encode_shift fuel cap bits (shift - 6) (out1 out ((bits / 2 ^ (shift - 6)) mod 64)).
Proof.
  intros. cbn [encode_shift].
  rewrite (proj2 (Z.ltb_ge _ _)), (proj2 (Z.leb_gt _ _)), sextet by lia. done.
Qed.

Lemma out1_len out i : str_len (out1 out i) = str_len out + 1.
Proof. unfold out1. by rewrite str_len_app. Qed.

(** One byte: one character, or two if four bits were left. *)
Lemma encode_byte fuel cap max bits shift c enc out :
  shift = 0 ∨ shift = 2 ∨ shift = 4 -> str_len out < max -> max < cap ->
  let x := (bits * 256 + code c) mod UINT_MOD in
  encode_loop (S fuel) cap max bits shift (String c enc) out =
  encode_loop fuel cap max x (if shift =? 4 then 0 else shift + 2) enc
    (let out := out1 out ((x / 2 ^ (shift + 2)) mod 64) in
     if shift =? 4 then out1 out (x mod 64) else out).
Proof.
  intros Hs Hl Hc x. cbn [encode_loop]. rewrite (proj2 (Z.leb_gt _ _)) by lia.
  rewrite shift_in_arith by (try apply code_range; lia).
  change (bits * 2 ^ 8) with (bits * 256). fold x.
  destruct Hs as [-> | [-> | ->]]; cbn [Z.eqb Pos.eqb].
  - change (S (Z.to_nat 0 + 8)) with 9%nat.
    rewrite encode_shift_step, encode_shift_stop by lia. done.
  - change (S (Z.to_nat 2 + 8)) with 11%nat.
    rewrite encode_shift_step, encode_shift_stop by lia. done.
  - change (S (Z.to_nat 4 + 8)) with 13%nat.
    rewrite encode_shift_step, encode_shift_step, encode_shift_stop by (rewrite ?out1_len; lia).
    cbn [obind]. by rewrite Z.div_1_r.
Qed.

(** The bits that are left are padded with zeros, and ["="] ends the text. *)
Lemma encode_end fuel cap max bits shift out :
  shift = 0 ∨ shift = 2 ∨ shift = 4 -> max < cap ->
  encode_loop (S (S fuel)) cap max bits shift "" out =
  let out := if shift =? 0 then out
             else out1 out ((bits * 2 ^ (6 - shift)) mod UINT_MOD mod 64) in
  Ret (if max <=? str_len out then None else Some (out +:+ "=")).
Proof.
  intros Hs Hc. cbn zeta. set (n := (bits * 2 ^ (6 - shift)) mod UINT_MOD).
  assert (∀ b o f, encode_loop (S f) cap max b 0 "" o =
    Ret (if max <=? str_len o then None else Some (o +:+ "="))) as Hend.
  { intros b o f. cbn [encode_loop Z.ltb Z.compare].
    destruct (Z.leb_spec max (str_len o)); [done|].
    by rewrite (proj2 (Z.leb_gt _ _)) by lia. }
  destruct Hs as [-> | Hs].
  { apply Hend. }
  assert (u32 (Z.shiftl bits (6 - shift)) = n) as E.
  { unfold u32. rewrite Z.shiftl_mul_pow2 by lia. done. }
  rewrite (proj2 (Z.eqb_neq shift 0)) by lia.
  destruct (Z.leb_spec max (str_len out)).
  { cbn [encode_loop]. rewrite (proj2 (Z.leb_le _ _)) by lia.
    rewrite out1_len, (proj2 (Z.leb_le _ _)) by lia. done. }
  cbn [encode_loop]. rewrite (proj2 (Z.leb_gt _ _)), (proj2 (Z.ltb_lt _ _)), E by lia.
  rewrite encode_shift_step, encode_shift_stop by lia. cbn [obind].
  change (6 - 6) with 0. rewrite Z.div_1_r. exact (Hend n _ fuel).
Qed.

(** The length of the encoded text. *)
Definition b64_size (n : Z) : Z := (8 * n + 5) / 6 + 1.

(** The call is defined if one byte more than announced is there, and fails exactly if the
    text does not fit. *)
Lemma encode_loop_size cap max : max < cap -> ∀ enc fuel bits shift out,
  (String.length enc + 3 <= fuel)%nat -> shift = 0 ∨ shift = 2 ∨ shift = 4 ->
  ∃ r, encode_loop fuel cap max bits shift enc out = Ret r ∧
    let size := str_len out + (shift + 8 * str_len enc + 5) / 6 + 1 in
    match r with
    | Some e => str_len e = size ∧ size <= max
    | None => max < size
    end.
Proof.
  intros Hc enc. induction enc as [|c enc IH]; intros fuel bits shift out Hf Hs.
  - destruct fuel as [|[|fuel]]; [cbn in Hf; lia..|]. rewrite encode_end by done.
    eexists. split; [done|]. cbn zeta. rewrite str_len_nil.
    destruct Hs as [-> | [-> | ->]]; cbn [Z.eqb]; rewrite ?out1_len;
      match goal with |- context [max <=? ?b] => destruct (Z.leb_spec max b) end;
      rewrite ?str_len_app, ?out1_len, ?str_len_cons, ?str_len_nil; div_lia.
  - destruct fuel as [|fuel]; [cbn in Hf; lia|]. rewrite str_len_cons.
    destruct (Z.leb_spec max (str_len out)) as [Hm | Hm].
    { cbn [encode_loop]. rewrite (proj2 (Z.leb_le _ _)) by done. exists None. split; [done|].
      cbn zeta. pose proof (str_len_nonneg enc).
      assert (0 <= (shift + 8 * (1 + str_len enc) + 5) / 6); [|lia].
      apply Z.div_pos; lia. }
    rewrite encode_byte by lia. cbn [String.length] in Hf.
    destruct Hs as [-> | [-> | ->]]; cbn [Z.eqb Pos.eqb];
      match goal with
      | |- context [encode_loop fuel cap max ?x ?s enc ?o] =>
        destruct (IH fuel x s o ltac:(lia) ltac:(lia)) as (r & -> & H)
      end;
      eexists; (split; [done|]); cbn zeta in *; rewrite ?out1_len in H; destruct r; div_lia.
Qed.

(** ** The text of a sequence of bytes: three bytes make four characters *)
Fixpoint b64_text (s : string) : string :=
  match s with
  | String a (String b (String c s)) =>
    let '(x, y, z) := (code a, code b, code c) in
    String (b64_at (x / 4)) (String (b64_at (x mod 4 * 16 + y / 16))
      (String (b64_at (y mod 16 * 4 + z / 64)) (String (b64_at (z mod 64)) (b64_text s))))
  | String a (String b EmptyString) =>
    let '(x, y) := (code a, code b) in
    String (b64_at (x / 4)) (String (b64_at (x mod 4 * 16 + y / 16))
      (String (b64_at (y mod 16 * 4)) ""))
  | String a EmptyString =>
    let x := code a in String (b64_at (x / 4)) (String (b64_at (x mod 4 * 16)) "")
  | EmptyString => ""
  end.

(** Induction by three bytes. *)
Lemma string_ind3 (P : string → Prop) :
  P ""%string → (∀ a, P (String a "")) → (∀ a b, P (String a (String b ""))) →
  (∀ a b c s, P s → P (String a (String b (String c s)))) → ∀ s, P s.
Proof.
  intros H0 H1 H2 H3 s.
  enough (∀ n s, (String.length s <= n)%nat → P s) as H by eauto.
  clear s. induction n as [|n IH]; intros [|a [|b [|c s]]] Hs; cbn in Hs; auto; try lia.
  apply H3, IH. lia.
Qed.

Lemma out1_app out i t : out1 out i +:+ t = out +:+ String (b64_at i) t.
Proof. unfold out1. by rewrite app_assoc_str. Qed.

Lemma sext1 g x : 0 <= x < 256 -> (g * 256 + x) mod UINT_MOD / 4 mod 64 = x / 4.
Proof. unfold UINT_MOD. intros. div_lia. Qed.
Lemma sext2 g x y : 0 <= x < 256 -> 0 <= y < 256 -> 
  ((g * 256 + x) mod UINT_MOD * 256 + y) mod UINT_MOD / 16 mod 64 = x mod 4 * 16 + y / 16.
Proof. unfold UINT_MOD. intros. div_lia. Qed.
Lemma sext3 g y z : 0 <= y < 256 -> 0 <= z < 256 ->
  ((g * 256 + y) mod UINT_MOD * 256 + z) mod UINT_MOD / 64 mod 64 = y mod 16 * 4 + z / 64.
Proof. unfold UINT_MOD. intros. div_lia. Qed.
Lemma sext4 g z : 0 <= z < 256 -> (g * 256 + z) mod UINT_MOD mod 64 = z mod 64.
Proof. unfold UINT_MOD. intros. div_lia. Qed.
Lemma pad1 g x : 0 <= x < 256 ->
  ((g * 256 + x) mod UINT_MOD * 2 ^ 4) mod UINT_MOD mod 64 = x mod 4 * 16.
Proof. unfold UINT_MOD. intros. div_lia. Qed.
Lemma pad2 g y : 0 <= y < 256 ->
  ((g * 256 + y) mod UINT_MOD * 2 ^ 2) mod UINT_MOD mod 64 = y mod 16 * 4.
Proof. unfold UINT_MOD. intros. div_lia. Qed.

(** The characters of the loop are those of the reference definition. *)
Ltac sextets :=
  change (2 ^ 2) with 4; change (2 ^ (2 + 2)) with 16; change (2 ^ (4 + 2)) with 64;
  rewrite ?sext2, ?sext3, ?sext4, ?pad1, ?pad2, ?sext1 by apply code_range.

Ltac shifts :=
  try change (0 + 2) with 2; try change (2 + 2) with 4; try change (6 - 2) with 4;
  try change (6 - 4) with 2; cbn [Z.eqb Pos.eqb].

Lemma b64_text_len s : str_len (b64_text s) = (8 * str_len s + 5) / 6.
Proof.
  induction s as [|a|a b|a b c s IH] using string_ind3; try reflexivity.
  cbn [b64_text]. rewrite !str_len_cons, IH. pose proof (str_len_nonneg s). div_lia.
Qed.

(** The loop is the reference definition. *)
Lemma encode_loop_text cap max : max < cap -> ∀ enc fuel bits out,
  (String.length enc + 3 <= fuel)%nat -> str_len out + b64_size (str_len enc) <= max ->
  encode_loop fuel cap max bits 0 enc out = Ret (Some (out +:+ b64_text enc +:+ "=")).
Proof.
  intros Hc enc. unfold b64_size.
  induction enc as [|a|a b|a b c s IH] using string_ind3; intros fuel bits out Hf Hs;
    rewrite ?str_len_cons in Hs; cbn [String.length] in Hf;
    do 3 (destruct fuel as [|fuel]; [lia|]); try pose proof (str_len_nonneg s).
  - rewrite encode_end by lia. cbn zeta. cbn [Z.eqb].
    rewrite (proj2 (Z.leb_gt _ _)); [done|]. rewrite str_len_nil in Hs. revert Hs. div_lia.
  - rewrite encode_byte by (rewrite ?str_len_nil in Hs; div_lia). shifts.
    rewrite encode_end by lia. cbn zeta. shifts.
    rewrite (proj2 (Z.leb_gt _ _)) by (rewrite ?out1_len; rewrite ?str_len_nil in Hs; div_lia).
    rewrite !out1_app. cbn [b64_text String.append]. by sextets.
  - rewrite encode_byte by (rewrite ?str_len_nil in Hs; div_lia). shifts.
    rewrite encode_byte by (rewrite ?out1_len; rewrite ?str_len_nil in Hs; div_lia). shifts.
    destruct fuel as [|fuel]; [lia|].
    rewrite encode_end by lia. cbn zeta. shifts.
    rewrite (proj2 (Z.leb_gt _ _)) by (rewrite ?out1_len; rewrite ?str_len_nil in Hs; div_lia).
    rewrite !out1_app. cbn [b64_text String.append]. by sextets.
  - rewrite encode_byte by div_lia. shifts.
    rewrite encode_byte by (rewrite ?out1_len; div_lia). shifts.
    rewrite encode_byte by (rewrite ?out1_len; div_lia). shifts.
    rewrite IH by (rewrite ?out1_len; div_lia).
    rewrite !out1_app. cbn [b64_text String.append]. by sextets.
Qed.

(** ** Decoding *)

Lemma b64r_b64 v : 0 <= v < 64 -> b64r_at (b64_at v) = Ret v.
Proof.
  intros Hv. assert (∀ n, (n < 64)%nat → b64r_at (b64_at (Z.of_nat n)) = Ret (Z.of_nat n)) as H.
  { intros n Hn. do 64 (destruct n as [|n]; [reflexivity|]). lia. }
  specialize (H (Z.to_nat v)). rewrite Z2Nat.id in H by lia. apply H. lia.
Qed.

Lemma b64_not_end v : Ascii.eqb (b64_at v) "=" = false.
Proof.
  unfold b64_at. destruct (Nat.lt_ge_cases (Z.to_nat v) 64).
  - revert H. generalize (Z.to_nat v). intros n H.
    do 64 (destruct n as [|n]; [reflexivity|]). lia.
  - assert (String.get (Z.to_nat v) b64 = None) as ->; [|done].
    revert H. generalize (Z.to_nat v). intros n H.
    do 64 (destruct n as [|n]; [lia|]). by destruct n.
Qed.

Lemma decode_shift_stop fuel max bits shift out : shift < 8 ->
  decode_shift (S fuel) max bits shift out = Ret (Some (shift, out)).
Proof. intros. cbn [decode_shift]. by rewrite (proj2 (Z.ltb_lt _ _)). Qed.

(** One character: no byte yet, or one that must fit. *)
Lemma decode_char max bits shift v enc out :
  0 <= v < 64 -> 0 <= shift < 8 ->
  let x := (bits * 64 + v) mod UINT_MOD in
  decode_loop max bits shift (String (b64_at v) enc) out =
  if shift <? 2 then decode_loop max x (shift + 6) enc out
  else if max <=? str_len out then Ret None
  else decode_loop max x (shift - 2) enc
         (out +:+ String (chr ((x / 2 ^ (shift - 2)) mod 256)) "").
Proof.
  intros Hv Hs x. cbn [decode_loop]. rewrite b64_not_end, b64r_b64 by done. cbn [obind].
  rewrite shift_in_arith by lia. change (bits * 2 ^ 6) with (bits * 64). fold x.
  destruct (Z.ltb_spec shift 2).
  - rewrite decode_shift_stop by lia. done.
  - assert (∃ n, Z.to_nat shift = S n) as [n ->] by (exists (Z.to_nat (shift - 1)); lia).
    cbn [decode_shift Nat.add].
    rewrite (proj2 (Z.ltb_ge _ _)) by lia.
    destruct (Z.leb_spec max (str_len out)); [done|].
    replace (shift + 6 - 8) with (shift - 2) by lia.
    rewrite (proj2 (Z.ltb_lt (shift - 2) 8)), octet by lia. done.
Qed.

Lemma oct1 g a b : 0 <= a < 64 -> 0 <= b < 64 ->
  ((g * 64 + a) mod UINT_MOD * 64 + b) mod UINT_MOD / 16 mod 256 = a * 4 + b / 16.
Proof. unfold UINT_MOD. intros. div_lia. Qed.
Lemma oct2 g b c : 0 <= b < 64 -> 0 <= c < 64 ->
  ((g * 64 + b) mod UINT_MOD * 64 + c) mod UINT_MOD / 4 mod 256 = b mod 16 * 16 + c / 4.
Proof. unfold UINT_MOD. intros. div_lia. Qed.
Lemma oct3 g c d : 0 <= c < 64 -> 0 <= d < 64 ->
  ((g * 64 + c) mod UINT_MOD * 64 + d) mod UINT_MOD mod 256 = c mod 4 * 64 + d.
Proof. unfold UINT_MOD. intros. div_lia. Qed.

Lemma chr_code c z : z = code c -> chr z = c.
Proof. intros ->. unfold chr, code. by rewrite N2Z.id, ascii_N_embedding. Qed.

Ltac ranges :=
  repeat match goal with c : ascii |- _ =>
    lazymatch goal with
    | _ : 0 <= code c < 256 |- _ => fail
    | _ => pose proof (code_range c)
    end
  end.

(** The bytes that the groups of six bits make. *)
Lemma byte1 g a y : 0 <= y < 16 ->
  chr (((g * 64 + code a / 4) mod UINT_MOD * 64 + (code a mod 4 * 16 + y)) mod UINT_MOD
         / 16 mod 256) = a.
Proof. intros. ranges. rewrite oct1 by div_lia. apply chr_code. div_lia. Qed.
Lemma byte2 g a b y : 0 <= y < 4 ->
  chr (((g * 64 + (code a mod 4 * 16 + code b / 16)) mod UINT_MOD * 64
        + (code b mod 16 * 4 + y)) mod UINT_MOD / 4 mod 256) = b.
Proof. intros. ranges. rewrite oct2 by div_lia. apply chr_code. div_lia. Qed.
Lemma byte3 g b c :
  chr (((g * 64 + (code b mod 16 * 4 + code c / 64)) mod UINT_MOD * 64
        + code c mod 64) mod UINT_MOD mod 256) = c.
Proof. ranges. rewrite oct3 by div_lia. apply chr_code. div_lia. Qed.

Ltac decode_step :=
  rewrite decode_char by div_lia;
  match goal with |- context [?a <? 2] => let v := eval vm_compute in (a <? 2) in
    change (a <? 2) with v end; cbn match;
  try change (2 ^ (0 + 6 - 2)) with 16; try change (2 ^ (0 + 6 - 2 - 2)) with 4;
  try change (0 + 6 - 2 - 2 - 2) with 0; try change (2 ^ 0) with 1; rewrite ?Z.div_1_r.

Lemma padded x : x = x + 0.
Proof. lia. Qed.

(** The text decodes to the bytes if they fit. *)
Lemma decode_loop_text max : ∀ enc bits out,
  decode_loop max bits 0 (b64_text enc +:+ "=") out =
  Ret (if str_len enc <=? Z.max 0 (max - str_len out) then Some (out +:+ enc) else None).
Proof.
  intros enc.
  induction enc as [|a|a b|a b c s IH] using string_ind3; intros bits out; ranges;
    cbn [b64_text String.append]; rewrite ?str_len_cons, ?str_len_nil.
  - cbn [decode_loop Ascii.eqb Bool.eqb]. rewrite (proj2 (Z.leb_le _ _)) by lia.
    by rewrite app_nil_r_str.
  - do 2 decode_step.
    destruct (Z.leb_spec max (str_len out)).
    { by rewrite (proj2 (Z.leb_gt _ _)) by lia. }
    rewrite (proj2 (Z.leb_le _ _)) by lia.
    rewrite (padded (code a mod 4 * 16)), byte1 by lia. done.
  - do 3 decode_step.
    destruct (Z.leb_spec max (str_len out)).
    { by rewrite (proj2 (Z.leb_gt _ _)) by lia. }
    rewrite byte1 by div_lia. rewrite str_len_app, str_len_cons, str_len_nil.
    rewrite (padded (code b mod 16 * 4)), byte2 by lia.
    repeat match goal with |- context [?x <=? ?y] => destruct (Z.leb_spec x y); try lia end; [done|].
    cbn [decode_loop Ascii.eqb Bool.eqb]. by rewrite app_assoc_str.
  - do 2 decode_step. rewrite byte1 by div_lia.
    destruct (Z.leb_spec max (str_len out)).
    { pose proof (str_len_nonneg s). by rewrite (proj2 (Z.leb_gt _ _)) by lia. }
    decode_step. rewrite byte2 by div_lia. rewrite str_len_app, str_len_cons, str_len_nil.
    pose proof (str_len_nonneg s).
    destruct (Z.leb_spec max (str_len out + (1 + 0))).
    { by rewrite (proj2 (Z.leb_gt _ _)) by lia. }
    decode_step. rewrite byte3. rewrite !str_len_app, !str_len_cons, str_len_nil.
    destruct (Z.leb_spec max (str_len out + (1 + 0) + (1 + 0))).
    { by rewrite (proj2 (Z.leb_gt _ _)) by lia. }
    rewrite IH, !str_len_app, !str_len_cons, str_len_nil, !app_assoc_str. cbn [String.append].
    repeat match goal with |- context [?x <=? ?y] => destruct (Z.leb_spec x y); try lia end; done.
Qed.

(** ** The codec *)

Lemma base64_codec enc cap max (Hc : max < cap) :
  base64_encode cap enc max =
    Ret (if max <? b64_size (str_len enc) then None else Some (b64_text enc +:+ "=")) ∧
  str_len (b64_text enc +:+ "=") = b64_size (str_len enc) ∧
  ∀ n, 0 <= n → base64_decode (b64_text enc +:+ "=") n =
    Ret (if n <? str_len enc then None else Some enc).
Proof.
  unfold base64_encode, base64_decode. split_and!.
  - destruct (Z.ltb_spec max (b64_size (str_len enc))) as [Hm | Hm].
    + destruct (encode_loop_size cap max Hc enc (3 + String.length enc) 0 0 "")
        as ([e|] & E & H); [lia|lia| |done].
      unfold b64_size in Hm. rewrite str_len_nil in H. cbn zeta in H.
      rewrite !Z.add_0_l in H. lia.
    + rewrite encode_loop_text by (rewrite ?str_len_nil; lia). done.
  - rewrite str_len_app, b64_text_len. done.
  - intros n Hn. rewrite decode_loop_text, str_len_nil, Z.sub_0_r, Z.max_r by done.
    destruct (Z.ltb_spec n (str_len enc)), (Z.leb_spec (str_len enc) n); try lia; done.
Qed.

(** C27: The base64 codec is lossless and stays within its buffers.  With one byte of memory
    more than [out_max_size] (the callers give it), [base64_encode] is defined for all bytes
    (NUL and the high ones among them); it returns -1 exactly if the text, of
    [(8n+5)/6 + 1] characters, does not fit.  Otherwise the text is that of the reference
    definition, and [base64_decode] gives the bytes back if its buffer holds them and -1 if
    it does not. *)
Theorem base64_roundtrip enc cap max (Hc : max < cap) :
  base64_encode cap enc max =
    Ret (if max <? b64_size (str_len enc) then None else Some (b64_text enc +:+ "=")) ∧
  str_len (b64_text enc +:+ "=") = b64_size (str_len enc) ∧
  ∀ n, 0 <= n → base64_decode (b64_text enc +:+ "=") n =
    Ret (if n <? str_len enc then None else Some enc).
Proof. by apply base64_codec. Qed.

(** ** Digests *)

Fixpoint unhex (s : string) : string :=
  match s with
  | String h (String l s) =>
    let val c := if code c <? 97 then code c - 48 else code c - 87 in
    String (chr (16 * val h + val l)) (unhex s)
  | _ => ""
  end.

Definition is_hex (c : ascii) : bool :=
  ((48 <=? code c) && (code c <=? 57)) || ((97 <=? code c) && (code c <=? 102)).

(** The characters of the codec and nothing else. *)
Definition is_b64 (c : ascii) : bool :=
  ((65 <=? code c) && (code c <=? 90)) || ((97 <=? code c) && (code c <=? 122)) ||
  ((48 <=? code c) && (code c <=? 57)) || Ascii.eqb c "-" || Ascii.eqb c "_".

Lemma hex_byte c :
  is_hex (hex_char (Z.shiftr (code c) 4)) && is_hex (hex_char (Z.land (code c) 15)) = true ∧
  unhex (String (hex_char (Z.shiftr (code c) 4)) (String (hex_char (Z.land (code c) 15)) "")) =
    String c "".
Proof. destruct c as [[][][][][][][][]]; vm_compute; by split. Qed.

Lemma hex_digest_ok d :
  String.length (hex_digest d) = (2 * String.length d)%nat ∧
  str_forall is_hex (hex_digest d) = true ∧ unhex (hex_digest d) = d.
Proof.
  induction d as [|c d (IH1 & IH2 & IH3)]; [done|].
  destruct (hex_byte c) as [H1 H2]. apply andb_true_iff in H1 as [H1 H1'].
  cbn [hex_digest String.length str_forall unhex] in *. rewrite H1, H1', IH1, IH2, IH3.
  split_and!; [lia|done|]. congruence.
Qed.

Lemma b64_at_is v : is_b64 (b64_at v) = true.
Proof.
  unfold b64_at. destruct (Nat.lt_ge_cases (Z.to_nat v) 64) as [H|H];
    revert H; generalize (Z.to_nat v); intros n H.
  - do 64 (destruct n as [|n]; [reflexivity|]). lia.
  - do 64 (destruct n as [|n]; [lia|]). by destruct n.
Qed.

Lemma b64_text_is s : str_forall is_b64 (b64_text s) = true.
Proof.
  induction s as [|a|a b|a b c s IH] using string_ind3; cbn [b64_text str_forall];
    rewrite ?b64_at_is; done.
Qed.

Lemma str_forall_weaken (p q : ascii → bool) s : (∀ c, p c = true → q c = true) →
  str_forall p s = true → str_forall q s = true.
Proof.
  intros H. induction s as [|c s IH]; [done|]. cbn [str_forall]. intros E.
  apply andb_true_iff in E as [E1 E2]. rewrite H, IH; done.
Qed.

Lemma is_b64_plain c : is_b64 c = true → negb (isspace c) && negb (Ascii.eqb c "?") = true.
Proof. destruct c as [[][][][][][][][]]; vm_compute; done. Qed.

Lemma str_take_before s : str_take (String.length (s +:+ "=") - 1) (s +:+ "=") = s.
Proof. by rewrite length_app_str, Nat.add_sub, str_take_app. Qed.

Section DigestProps.
Variable MD5 : string → string.
(** The digest has [MD5_DIGEST_LENGTH] bytes. *)
Hypothesis MD5_size : ∀ s, String.length (MD5 s) = 16%nat.

(** The texts of a digest determine it.  The hexadecimal text has 32 characters, the
    digits and [a] to [f]; [str2md5base64] does not fail and its text has 22 characters of
    the base64 alphabet; both give the digest back. *)
Theorem digest_texts s :
  String.length (str2md5 MD5 s) = 32%nat ∧ str_forall is_hex (str2md5 MD5 s) = true ∧
  unhex (str2md5 MD5 s) = MD5 s ∧
  ∃ t, str2md5base64 MD5 s = Ret (Some t) ∧ String.length t = 22%nat ∧
    str_forall is_b64 t = true ∧ base64_decode (t +:+ "=") 16 = Ret (Some (MD5 s)).
Proof.
  assert (str_len (MD5 s) = 16) as Hl by (unfold str_len; by rewrite MD5_size).
  destruct (hex_digest_ok (MD5 s)) as (H1 & H2 & H3). rewrite MD5_size in H1.
  unfold str2md5. split_and!; [done..|].
  destruct (base64_codec (MD5 s) 50 49) as (E1 & E2 & E3); [done|].
  exists (b64_text (MD5 s)). rewrite Hl in *. split_and!.
  - unfold str2md5base64. rewrite E1. cbn [Z.ltb b64_size obind]. change (49 <? b64_size 16) with false.
    cbn match. rewrite E2. change (b64_size 16 <? 1) with false. cbn match.
    by rewrite str_take_before.
  - pose proof (b64_text_len (MD5 s)) as E. rewrite Hl in E. unfold str_len in E.
    change ((8 * 16 + 5) / 6) with 22 in E. lia.
  - apply b64_text_is.
  - rewrite E3 by done. done.
Qed.

(** A new job identifier, with such a unique part, has a textual form of its own. *)
Lemma fresh_jobid_text s t host port :
  str2md5base64 MD5 s = Ret (Some t) →
  str_forall (fun c => negb (isspace c) && negb (Ascii.eqb c "/")) host = true →
  0 < port < UINT_MOD →
  ∃ u, glite_jobid_unparse (Some (mkJobId t host port None)) = Some u ∧
       glite_jobid_parse u = Some (mkJobId t host port None).
Proof.
  intros E Hh Hp. apply parse_unparse_wf. unfold wf_jobid. cbn.
  assert (str_forall is_b64 t = true) as Ht.
  { destruct (base64_codec (MD5 s) 50 49) as (E1 & E2 & _); [done|].
    unfold str2md5base64 in E. rewrite E1 in E. unfold str_len in E. rewrite MD5_size in E.
    change (49 <? b64_size (Z.of_nat 16)) with false in E. cbn [obind] in E.
    destruct (_ <? 1); [done|]. injection E as <-. rewrite str_take_before. apply b64_text_is. }
  split_and!; [done| |lia..]. eapply str_forall_weaken, Ht. apply is_b64_plain.
Qed.
End DigestProps.

Lemma base64_roundtrip_witness :
  base64_encode 50 "any carnal pleasure." 49 =
    Ret (if 49 <? b64_size (str_len "any carnal pleasure.") then None
         else Some (b64_text "any carnal pleasure." +:+ "=")) ∧
  str_len (b64_text "any carnal pleasure." +:+ "=") = b64_size (str_len "any carnal pleasure.") ∧
  ∀ n, 0 <= n → base64_decode (b64_text "any carnal pleasure." +:+ "=") n =
    Ret (if n <? str_len "any carnal pleasure." then None else Some "any carnal pleasure."%string).
Proof. apply base64_roundtrip. lia. Defined.

Lemma digest_texts_witness :
  String.length (str2md5 (fun _ => "0123456789abcdef"%string) "x") = 32%nat ∧
  str_forall is_hex (str2md5 (fun _ => "0123456789abcdef"%string) "x") = true ∧
  unhex (str2md5 (fun _ => "0123456789abcdef"%string) "x") = "0123456789abcdef"%string ∧
  ∃ t, str2md5base64 (fun _ => "0123456789abcdef"%string) "x" = Ret (Some t) ∧
    String.length t = 22%nat ∧ str_forall is_b64 t = true ∧
    base64_decode (t +:+ "=") 16 = Ret (Some "0123456789abcdef"%string).
Proof. apply (digest_texts (fun _ => "0123456789abcdef"%string)). reflexivity. Defined.
