(* ===== verification/JpAttr.v ===== *)
(** * Job provenance attributes and their type plug-ins

    org.glite.lbjp-common.jp-interface/src/attr.c: comparing attribute values, their text
    in a data base and the reading of it, the dispatch to the plug-in of the attribute's
    namespace, on the base64 codec of [StrMd5].  A plug-in is a record of operations
    (type_plugin.h), its documented contract a class that the built-in one satisfies. *)
From Stdlib Require Import ZArith Lia Ascii.
From stdpp Require Import base option list strings numbers.
From S2P Require Import Prelude CLib JobId StrMd5.
#[local] Open Scope Z_scope.

Definition EINVAL : Z := 22.

(** ** Data *)
Record glite_jp_attrval_t := mkAttrval {
  a_name : string;
  a_value : string;         (* [size] bytes if it is binary, else the bytes before the NUL *)
  a_binary : bool;
  a_size : Z;
  a_origin : Z;
  a_origin_detail : option string;
  a_timestamp : Z
}.
#[export] Instance glite_jp_attrval_t_eta : Eta glite_jp_attrval_t := fun r =>
  mkAttrval r.(a_name) r.(a_value) r.(a_binary) r.(a_size) r.(a_origin) r.(a_origin_detail)
    r.(a_timestamp).

Definition GLITE_JP_ATTR_ORIG_ANY : Z := 0.
Definition GLITE_JP_ATTR_ORIG_FILE : Z := 3.
Definition orig_char : string := "ASUF".

(** ** The built-in plug-in *)

(** The sign of [memcmp(a,b,n)], of [strcmp] for texts. *)
Definition memcmp (a b : string) (n : Z) : Z :=
  strcmp (str_take (Z.to_nat n) a) (str_take (Z.to_nat n) b).

(** The result, or an error code. *)
Definition fb_cmp (a b : glite_jp_attrval_t) : Z + Z :=
  if negb (Bool.eqb a.(a_binary) b.(a_binary)) then inl EINVAL else
  if a.(a_binary) then
    let r := memcmp a.(a_value) b.(a_value) (Z.min a.(a_size) b.(a_size)) in
    inr (if (r =? 0) && negb (a.(a_size) =? b.(a_size))
         then (if b.(a_size) <? a.(a_size) then 1 else -1) else r)
  else inr (strcmp a.(a_value) b.(a_value)).

Fixpoint escape_colon (in_ : string) : string :=
  match in_ with
  | EmptyString => ""
  | String c r =>
    if Ascii.eqb c ":" then String "\" (String ":" (escape_colon r))
    else if Ascii.eqb c "\" then String "\" (String "\" (escape_colon r))
    else String c (escape_colon r)
  end.

(** The text up to the first colon that is not escaped, and the number of bytes read. A
    backslash at the end makes the loop pass the final NUL. *)
Fixpoint unescape_colon (in_ : string) : outcome (string * Z) :=
  match in_ with
  | EmptyString => Ret ("", 0)%string
  | String c r =>
    if Ascii.eqb c ":" then Ret ("", 0)%string
    else if Ascii.eqb c "\" then
      match r with
      | EmptyString => UB OutOfBounds
      | String d r => let! '(out, rd) := unescape_colon r in Ret (String d out, rd + 2)
      end
    else let! '(out, rd) := unescape_colon r in Ret (String c out, rd + 1)
  end.

(** [None] is NULL.  The size of the text without that of the value is the number 19 of the
    source with twice the length of the detail. *)
Definition fb_to_db_full (attr : glite_jp_attrval_t) : outcome (option string) :=
  let vsize := if attr.(a_binary) then s32 (attr.(a_size) * 4 / 3 + 6)
               else s32 (str_len attr.(a_value) + 1) in
  let db_size := 19 + (match attr.(a_origin_detail) with Some d => 2 * str_len d | None => 0 end)
                 + vsize in
  if (attr.(a_origin) <? GLITE_JP_ATTR_ORIG_ANY) || (GLITE_JP_ATTR_ORIG_FILE <? attr.(a_origin))
  then Ret None else
  let origin := default "A"%char (String.get (Z.to_nat attr.(a_origin)) orig_char) in
  let head :=
    String (if attr.(a_binary) then "B" else "S")
      (String ":" (print_int attr.(a_timestamp) +:+ String ":" (String origin ":"))) in
  let head := head +:+ (match attr.(a_origin_detail) with Some d => escape_colon d | None => "" end)
                +:+ ":" in
  let len := str_len head in
  if db_size <? len then UB OutOfBounds else
  if attr.(a_binary) then
    let! r := base64_encode (db_size - len) (str_take (Z.to_nat attr.(a_size)) attr.(a_value))
                (vsize - 1) in
    match r with
    | None => Ret None
    | Some b => if db_size <? len + str_len b + 1 then UB OutOfBounds else Ret (Some (head +:+ b))
    end
  else if db_size <? len + str_len attr.(a_value) + 1 then UB OutOfBounds
  else Ret (Some (head +:+ attr.(a_value))).

Definition fb_to_db_index (attr : glite_jp_attrval_t) (len : Z) : string :=
  if attr.(a_binary) then "XXX" else
  if (0 <=? len) && (len <? str_len attr.(a_value))
  then str_take (Z.to_nat len) attr.(a_value) else attr.(a_value).

(** The position of the byte in [orig_char]. *)
Fixpoint orig_index (chars : string) (c : ascii) (i : Z) : option Z :=
  match chars with
  | EmptyString => None
  | String a chars => if Ascii.eqb a c then Some i else orig_index chars c (i + 1)
  end.

(** [atol]. *)
Definition atol (s : string) : Z := fst (strtol s).

(** The attribute filled in, or an error code. *)
Definition fb_from_db (str : string) (attr : glite_jp_attrval_t)
  : outcome (Z + glite_jp_attrval_t) :=
  match str with
  | EmptyString => Ret (inl EINVAL)
  | String k rest =>
    if negb (Ascii.eqb k "B" || Ascii.eqb k "S") then Ret (inl EINVAL) else
    let binary := Ascii.eqb k "B" in
    match rest with
    | EmptyString => UB OutOfBounds
    | String _ cp =>
      match strchr cp ":" with
      | None => Ret (inl EINVAL)
      | Some colon =>
        let timestamp := atol (before cp colon) in
        match tail1 colon with
        | EmptyString => Ret (inl EINVAL)
        | String o rest =>
          match orig_index orig_char o GLITE_JP_ATTR_ORIG_ANY with
          | None => Ret (inl EINVAL)
          | Some origin =>
            match rest with
            | EmptyString => UB OutOfBounds
            | String _ d =>
              let! '(detail, r) :=
                match d with
                | String ":" _ => Ret (None, 0)
                | _ => let! '(u, r) := unescape_colon d in Ret (Some u, r)
                end in
              match str_drop (Z.to_nat r) d with
              | String ":" v =>
                if binary then
                  let! b := base64_decode v (str_len str) in
                  match b with
                  | None => Ret (inl EINVAL)
                  | Some b => Ret (inr (mkAttrval attr.(a_name) b true (str_len b) origin detail timestamp))
                  end
                else Ret (inr (mkAttrval attr.(a_name) v false attr.(a_size) origin detail timestamp))
              | _ => Ret (inl EINVAL)
              end
            end
          end
        end
      end
    end
  end.

Definition fb_type_full (attr : string) : string := "mediumblob".
Definition fb_type_index (attr : string) (len : Z) : string :=
  asprintf "varchar(%d)" [PInt len].

(** ** Plug-ins *)

(** A NULL operation is [None]. *)
Record glite_jp_tplug_data_t := mkPlugin {
  namespace : string;
  cmp : option (glite_jp_attrval_t → glite_jp_attrval_t → Z + Z);
  to_db_full : option (glite_jp_attrval_t → outcome (option string));
  to_db_index : option (glite_jp_attrval_t → Z → string);
  from_db : option (string → glite_jp_attrval_t → outcome (Z + glite_jp_attrval_t));
  db_type_full : option (string → string);
  db_type_index : option (string → Z → string)
}.

Definition fallback_plugin : glite_jp_tplug_data_t :=
  mkPlugin "" (Some fb_cmp) (Some fb_to_db_full) (Some fb_to_db_index) (Some fb_from_db)
    (Some fb_type_full) (Some fb_type_index).

(** [None] is a context without plug-ins. *)
Definition get_plugin (type_plugins : option (list glite_jp_tplug_data_t)) (aname : string)
  : glite_jp_tplug_data_t :=
  match type_plugins with
  | None => fallback_plugin
  | Some cp =>
    let ns := match strrchr aname ":" with Some colon => before aname colon | None => ""%string end in
    default fallback_plugin (snd <$> list_find (fun p => namespace p = ns) cp)
  end.

(** Attributes of different names are not compared. *)
Definition glite_jp_attrval_cmp (ctx : option (list glite_jp_tplug_data_t))
    (a b : glite_jp_attrval_t) : Z + Z :=
  let ap := get_plugin ctx a.(a_name) in
  if negb (String.eqb a.(a_name) b.(a_name)) then inl EINVAL
  else default fb_cmp ap.(cmp) a b.

Definition glite_jp_attrval_to_db_full (ctx : option (list glite_jp_tplug_data_t))
    (attr : glite_jp_attrval_t) : outcome (option string) :=
  default fb_to_db_full (get_plugin ctx attr.(a_name)).(to_db_full) attr.

Definition glite_jp_attrval_to_db_index (ctx : option (list glite_jp_tplug_data_t))
    (attr : glite_jp_attrval_t) (len : Z) : string :=
  default fb_to_db_index (get_plugin ctx attr.(a_name)).(to_db_index) attr len.

Definition glite_jp_attrval_from_db (ctx : option (list glite_jp_tplug_data_t)) (str : string)
    (attr : glite_jp_attrval_t) : outcome (Z + glite_jp_attrval_t) :=
  default fb_from_db (get_plugin ctx attr.(a_name)).(from_db) str attr.

Definition glite_jp_attrval_db_type_full (ctx : option (list glite_jp_tplug_data_t))
    (attr : string) : string :=
  default fb_type_full (get_plugin ctx attr).(db_type_full) attr.

Definition glite_jp_attrval_db_type_index (ctx : option (list glite_jp_tplug_data_t))
    (attr : string) (len : Z) : string :=
  default fb_type_index (get_plugin ctx attr).(db_type_index) attr len.

(** [None]: [sscanf] converts nothing and the result has no value. *)
Definition glite_jp_attr2time (a : string) : outcome Z :=
  match sscanf_ld a with Some t => Ret t | None => UB Indeterminate end.
Definition glite_jp_time2attr (t : Z) : string := asprintf "%ld" [PInt t].

(** [malloc(size)] and [memcpy] for a binary value. *)
Definition glite_jp_attrval_copy (src : glite_jp_attrval_t) : glite_jp_attrval_t :=
  src <| a_value := if src.(a_binary) then str_take (Z.to_nat src.(a_size)) src.(a_value)
                    else src.(a_value) |>.

(** ** The contract of a plug-in *)

(** The attributes a text can be made of: the size of a binary value is that of its bytes,
    the origin is one of the enumerators, the detail is not empty, the time has at most 13
    characters. *)
Definition storable (a : glite_jp_attrval_t) : Prop :=
  (a.(a_binary) = true → a.(a_size) = str_len a.(a_value)) ∧
  str_len a.(a_value) < 2 ^ 29 ∧
  0 <= a.(a_origin) <= 3 ∧ a.(a_origin_detail) ≠ Some ""%string ∧
  is_long a.(a_timestamp) ∧ str_len (print_int a.(a_timestamp)) <= 13.

#[export] Instance storable_dec a : Decision (storable a).
Proof. unfold storable. apply _. Defined.

(** What type_plugin.h promises of the conversions: the text can be converted back, and the
    index text is monotone. *)
Class PluginContract (p : glite_jp_tplug_data_t) : Prop := {
  plugin_roundtrip : ∀ a a0, storable a →
    ∃ s, default fb_to_db_full p.(to_db_full) a = Ret (Some s) ∧
      default fb_from_db p.(from_db) s a0 =
        Ret (inr (a <| a_name := a0.(a_name) |>
                    <| a_size := if a.(a_binary) then a.(a_size) else a0.(a_size) |>));
  plugin_index_monotone : ∀ a b r len,
    default fb_cmp p.(cmp) a b = inr r → r <= 0 →
    strcmp (default fb_to_db_index p.(to_db_index) a len)
           (default fb_to_db_index p.(to_db_index) b len) <= 0
}.

(** ** Properties *)

Lemma escape_colon_len d : str_len d <= str_len (escape_colon d) <= 2 * str_len d.
Proof.
  induction d as [|c d IH]; [done|]. cbn [escape_colon].
  destruct (Ascii.eqb c ":"), (Ascii.eqb c "\"); rewrite !str_len_cons; lia.
Qed.

(** Escaping hides every colon. *)
Lemma unescape_escape d v :
  unescape_colon (escape_colon d +:+ String ":" v) = Ret (d, str_len (escape_colon d)).
Proof.
  induction d as [|c d IH]; [done|]. cbn [escape_colon].
  destruct (Ascii.eqb_spec c ":") as [->|H1].
  { cbn [String.append unescape_colon Ascii.eqb Bool.eqb]. rewrite IH. cbn [obind].
    rewrite !str_len_cons. do 2 f_equal. lia. }
  destruct (Ascii.eqb_spec c "\") as [->|H2].
  { cbn [String.append unescape_colon Ascii.eqb Bool.eqb]. rewrite IH. cbn [obind].
    rewrite !str_len_cons. do 2 f_equal. lia. }
  cbn [String.append unescape_colon].
  rewrite (proj2 (Ascii.eqb_neq c ":")), (proj2 (Ascii.eqb_neq c "\")), IH by done.
  cbn [obind]. rewrite !str_len_cons. do 2 f_equal. lia.
Qed.

Lemma str_drop_app_len s t : str_drop (Z.to_nat (str_len s)) (s +:+ t) = t.
Proof.
  unfold str_len. rewrite Nat2Z.id. induction s as [|a s IH]; [by destruct t|]. exact IH.
Qed.

Lemma str_take_len s n : n = str_len s → str_take (Z.to_nat n) s = s.
Proof.
  intros ->. unfold str_len. rewrite Nat2Z.id. induction s as [|a s IH]; [done|].
  cbn [String.length str_take]. by rewrite IH.
Qed.

Lemma orig_index_char o : 0 <= o <= 3 →
  orig_index orig_char (default "A"%char (String.get (Z.to_nat o) orig_char)) 0 = Some o.
Proof.
  intros H. assert (o = 0 ∨ o = 1 ∨ o = 2 ∨ o = 3) as [-> | [-> | [-> | ->]]] by lia; done.
Qed.

Lemma atol_print t u : is_long t → starts_digit u = false → atol (print_int t +:+ u) = t.
Proof.
  intros Ht Hu. unfold atol, strtol. rewrite scan_num_fmt_d by done. cbn [fst].
  unfold clamp. unfold_int. lia.
Qed.

(** The text of the detail and its colon. *)
Definition detail_text (d : option string) : string :=
  match d with Some d => escape_colon d | None => "" end.

(** The head of the text up to the value. *)
Definition db_head (a : glite_jp_attrval_t) : string :=
  String (if a.(a_binary) then "B" else "S")
    (String ":" (print_int a.(a_timestamp) +:+
      String ":" (String (default "A"%char (String.get (Z.to_nat a.(a_origin)) orig_char))
        (String ":" (detail_text a.(a_origin_detail) +:+ ":"))))).

Definition db_value (a : glite_jp_attrval_t) : string :=
  if a.(a_binary) then b64_text a.(a_value) +:+ "=" else a.(a_value).

(** Reading the head leaves the value. *)
Lemma from_db_head a a0 v : storable a →
  fb_from_db (db_head a +:+ v) a0 =
  if a.(a_binary) then
    let! b := base64_decode v (str_len (db_head a +:+ v)) in
    match b with
    | None => Ret (inl EINVAL)
    | Some b => Ret (inr (mkAttrval a0.(a_name) b true (str_len b) a.(a_origin)
                            a.(a_origin_detail) a.(a_timestamp)))
    end
  else Ret (inr (mkAttrval a0.(a_name) v false a0.(a_size) a.(a_origin)
                  a.(a_origin_detail) a.(a_timestamp))).
Proof.
  intros (_ & _ & Ho & Hd & Ht & _). unfold db_head.
  cbn [String.append]. set (k := if a_binary a then "B"%char else "S"%char).
  match goal with |- context [String k ?r] => remember r as rest eqn:Er end.
  unfold fb_from_db. set (L := str_len (String k rest)). clearbody L. subst rest.
  assert (Ascii.eqb k "B" || Ascii.eqb k "S" = true) as -> by (subst k; by destruct (a_binary a)).
  assert (Ascii.eqb k "B" = a_binary a) as -> by (subst k; by destruct (a_binary a)).
  cbn [negb]. rewrite app_assoc_str. cbn [String.append].
  rewrite strchr_sep, before_app by (by apply print_int_no).
  cbn [tail1]. unfold GLITE_JP_ATTR_ORIG_ANY. rewrite orig_index_char by done.
  rewrite <-(app_nil_r_str (print_int _)), atol_print by done.
  rewrite app_assoc_str. cbn [String.append].
  assert ((match detail_text (a_origin_detail a) +:+ String ":" v with
           | String ":" _ => Ret (None, 0)
           | _ => let! '(u, r) := unescape_colon (detail_text (a_origin_detail a) +:+ String ":" v)
                  in Ret (Some u, r)
           end) = Ret (a_origin_detail a, str_len (detail_text (a_origin_detail a)))) as ->.
  { destruct (a_origin_detail a) as [d|]; [|done]. cbn [detail_text].
    rewrite unescape_escape. cbn [obind].
    destruct d as [|c d]; [done|]. cbn [escape_colon].
    destruct (Ascii.eqb_spec c ":"); [done|]. destruct (Ascii.eqb_spec c "\"); [done|].
    cbn [String.append]. destruct c as [[][][][][][][][]]; try done. }
  cbn [obind]. rewrite str_drop_app_len. by destruct (a_binary a).
Qed.

(** Writing: the text fits the memory allocated for it. *)
Lemma to_db_full_text a : storable a → fb_to_db_full a = Ret (Some (db_head a +:+ db_value a)).
Proof.
  intros (Hb & Hv & Ho & Hd & Ht & Hl).
  assert (str_len (db_head a) <= 19 + match a_origin_detail a with Some d => 2 * str_len d | None => 0 end)
    as Hh.
  { unfold db_head. rewrite !str_len_cons, str_len_app, !str_len_cons, str_len_app, str_len_cons, str_len_nil.
    destruct (a_origin_detail a) as [d|]; cbn [detail_text]; rewrite ?str_len_nil; [|lia].
    pose proof (escape_colon_len d). lia. }
  unfold fb_to_db_full.
  unfold GLITE_JP_ATTR_ORIG_ANY, GLITE_JP_ATTR_ORIG_FILE.
  rewrite (proj2 (Z.ltb_ge _ _)), (proj2 (Z.ltb_ge _ _)) by lia. cbn [orb].
  match goal with |- context [str_len ?h] =>
    lazymatch h with String _ _ +:+ _ => replace h with (db_head a) end end.
  2: { unfold db_head, detail_text. cbn [String.append]. rewrite !app_assoc_str. done. }
  pose proof (str_len_nonneg (a_value a)). unfold db_value. destruct (a_binary a).
  - rewrite (Hb eq_refl), str_take_len by done.
    set (n := str_len (a_value a)) in *.
    assert (n * 4 / 3 + 6 = s32 (n * 4 / 3 + 6)) as <-.
    { symmetry. apply s32_id. unfold_int. div_lia. }
    rewrite (proj2 (Z.ltb_ge _ _)) by div_lia.
    match goal with |- context [base64_encode ?c ?e ?m] =>
      destruct (base64_codec e c m) as (E & E2 & _); [div_lia|] end.
    fold n in E, E2. rewrite E. unfold b64_size in *.
    rewrite (proj2 (Z.ltb_ge _ _)) by div_lia. cbn [obind]. rewrite E2.
    rewrite (proj2 (Z.ltb_ge _ _)) by div_lia. done.
  - rewrite s32_id by (unfold_int; lia).
    rewrite (proj2 (Z.ltb_ge _ _)), (proj2 (Z.ltb_ge _ _)) by lia. done.
Qed.

Lemma strcmp_take a b n : strcmp a b <= 0 → strcmp (str_take n a) (str_take n b) <= 0.
Proof.
  revert a b. induction n as [|n IH]; intros a b H; [done|].
  destruct a as [|x a], b as [|y b]; cbn [strcmp str_take] in *; try done.
  destruct (code x <? code y); [done|]. destruct (code y <? code x); [lia|]. by apply IH.
Qed.

(** Cutting at [len], whether the text is longer or not. *)
Lemma fb_index_take a len : a.(a_binary) = false → 0 <= len →
  fb_to_db_index a len = str_take (Z.to_nat len) a.(a_value).
Proof.
  intros Hb Hl. unfold fb_to_db_index. rewrite Hb, (proj2 (Z.leb_le _ _)) by done. cbn [andb].
  destruct (Z.ltb_spec len (str_len (a_value a))); [done|].
  rewrite str_take_all; [done|]. unfold str_len in *. lia.
Qed.

Lemma fb_index_whole a len : a.(a_binary) = false → len < 0 → fb_to_db_index a len = a.(a_value).
Proof.
  intros Hb Hl. unfold fb_to_db_index. by rewrite Hb, (proj2 (Z.leb_gt _ _)).
Qed.

#[export] Instance fallback_contract : PluginContract fallback_plugin.
Proof.
  split; cbn [fallback_plugin to_db_full from_db cmp to_db_index default from_option id].
  - intros a a0 Hs. exists (db_head a +:+ db_value a)%string.
    split; [by apply to_db_full_text|]. rewrite from_db_head by done.
    destruct Hs as (Hb & _). unfold db_value. destruct a as [n v b s o d t]. cbn [a_name a_value a_binary a_size a_origin a_origin_detail a_timestamp] in *.
    destruct b; [|done].
    destruct (base64_codec v (1 + b64_size (str_len v)) (b64_size (str_len v))) as (_ & _ & E); [lia|].
    rewrite E by apply str_len_nonneg.
    rewrite (proj2 (Z.ltb_ge _ _)). { cbn [obind]. by rewrite (Hb eq_refl). }
    rewrite !str_len_app, b64_text_len, str_len_cons, str_len_nil.
    pose proof (str_len_nonneg (db_head (mkAttrval n v true s o d t))).
    pose proof (str_len_nonneg v). div_lia.
  - intros a b r len. unfold fb_cmp.
    destruct (Bool.eqb_spec (a_binary a) (a_binary b)) as [E|]; cbn [negb];
      [|discriminate].
    destruct (a_binary a) eqn:Ea; symmetry in E; intros [= <-] Hr.
    { unfold fb_to_db_index. by rewrite Ea, E. }
    destruct (Z.le_gt_cases 0 len).
    + rewrite !fb_index_take by done. by apply strcmp_take.
    + by rewrite !fb_index_whole by (done || lia).
Qed.

(** ** The dispatch *)

Section Dispatch.
Variable ctx : option (list glite_jp_tplug_data_t).
(** Every plug-in of the context keeps the contract. *)
Hypothesis contracts : ∀ ps p, ctx = Some ps → p ∈ ps → PluginContract p.

Lemma get_plugin_contract aname : PluginContract (get_plugin ctx aname).
Proof.
  unfold get_plugin. destruct ctx as [ps|] eqn:E; [|apply _].
  destruct (list_find _ ps) as [[i p]|] eqn:F; cbn; [|apply _].
  apply list_find_Some in F as (Hi & _). eapply contracts; [done|].
  by eapply list_elem_of_lookup_2.
Qed.

(** C26: An attribute value stored in a data base is read back: for every context whose
    plug-ins keep their documented contract (the built-in one does, with its escaping of
    colons, its base64 and the sizes of its buffers), [glite_jp_attrval_to_db_full] makes
    a text of a storable attribute and [glite_jp_attrval_from_db] with the name of the
    attribute makes the attribute again. *)
Theorem attribute_stored a a0 (Hs : storable a) (Hn : a0.(a_name) = a.(a_name)) :
  ∃ s, glite_jp_attrval_to_db_full ctx a = Ret (Some s) ∧
    glite_jp_attrval_from_db ctx s a0 =
      Ret (inr (a <| a_size := if a.(a_binary) then a.(a_size) else a0.(a_size) |>)).
Proof.
  pose proof (get_plugin_contract a.(a_name)) as Hc.
  destruct (plugin_roundtrip a a0 Hs) as (s & E1 & E2).
  exists s. unfold glite_jp_attrval_to_db_full, glite_jp_attrval_from_db. rewrite Hn.
  split; [done|]. rewrite E2, Hn. by destruct a.
Qed.

(** The order of the index texts is that of the values. *)
Lemma index_monotone a b r len :
  glite_jp_attrval_cmp ctx a b = inr r → r <= 0 →
  strcmp (glite_jp_attrval_to_db_index ctx a len) (glite_jp_attrval_to_db_index ctx b len) <= 0.
Proof.
  unfold glite_jp_attrval_cmp, glite_jp_attrval_to_db_index.
  destruct (String.eqb_spec (a_name a) (a_name b)) as [E|]; [|done]. cbn [negb]. rewrite <-E.
  pose proof (get_plugin_contract a.(a_name)). apply plugin_index_monotone.
Qed.
End Dispatch.

Lemma time_attr_roundtrip t : is_long t → glite_jp_attr2time (glite_jp_time2attr t) = Ret t.
Proof.
  intros Ht. unfold glite_jp_attr2time, glite_jp_time2attr. printf_simpl.
  by rewrite sscanf_ld_print.
Qed.

(** A time of more than 13 characters overruns the memory. *)
Example late_time_overruns :
  fb_to_db_full (mkAttrval "n" "v" false 0 1 None 99999999999999) = UB OutOfBounds.
Proof. reflexivity. Qed.
(** A backslash at the end of the text is followed by a read behind it. *)
Example from_db_backslash a : fb_from_db "S:1:U:x\" a = UB OutOfBounds.
Proof. reflexivity. Qed.

Definition sample_attr : glite_jp_attrval_t :=
  mkAttrval "http://egee.cesnet.cz/en/Schema/LB/Attributes:user" "a:\b" true 4 2
    (Some "f:i\le"%string) 1100000000.

Lemma attribute_stored_witness :
  ∃ s, glite_jp_attrval_to_db_full (Some [fallback_plugin]) sample_attr = Ret (Some s) ∧
    glite_jp_attrval_from_db (Some [fallback_plugin]) s sample_attr =
      Ret (inr (sample_attr <| a_size := if sample_attr.(a_binary) then sample_attr.(a_size)
                                          else sample_attr.(a_size) |>)).
Proof.
  apply attribute_stored; [| |reflexivity].
  { intros ps p [= <-] Hp. apply list_elem_of_singleton in Hp as ->. apply fallback_contract. }
  apply (bool_decide_unpack _). vm_compute. exact I.
Defined.
