(* ===== verification/LbTypes.v ===== *)
(** * Data types of Logging and Bookkeeping

    Components ([edg_wll_Source]), job states and their codes, events and the
    job status record.  They model org.glite.lb.common/interface/context.h, the
    type tables org.glite.lb.types/status.T and events.T with the templates
    org.glite.lb.common/interface/jobstat.h.T, events.h.T and src/status.c.T that
    the C types are generated from, and
    org.glite.lb.state-machine/interface/intjobstat.h.

    Status codes are [Z] because the state record is read back from a database
    as plain integers; the component and the enumerations of the events are
    inductive types.  [bool] fields are [int] in C. *)
From Stdlib Require Import ZArith Lia Ascii.
From stdpp Require Import base option list strings numbers.
From S2P Require Import Prelude CLib JobId.
#[local] Open Scope Z_scope.

(** ** Logging components *)
Inductive edg_wll_Source :=
| EDG_WLL_SOURCE_NONE
| EDG_WLL_SOURCE_USER_INTERFACE
| EDG_WLL_SOURCE_NETWORK_SERVER
| EDG_WLL_SOURCE_WORKLOAD_MANAGER
| EDG_WLL_SOURCE_BIG_HELPER
| EDG_WLL_SOURCE_JOB_SUBMISSION
| EDG_WLL_SOURCE_LOG_MONITOR
| EDG_WLL_SOURCE_LRMS
| EDG_WLL_SOURCE_APPLICATION
| EDG_WLL_SOURCE_LB_SERVER
| EDG_WLL_SOURCE_CREAM_INTERFACE
| EDG_WLL_SOURCE_CREAM_EXECUTOR
| EDG_WLL_SOURCE_PBS_CLIENT
| EDG_WLL_SOURCE_PBS_SERVER
| EDG_WLL_SOURCE_PBS_SMOM
| EDG_WLL_SOURCE_PBS_MOM
| EDG_WLL_SOURCE_PBS_SCHEDULER
| EDG_WLL_SOURCE_CLOUD_MANAGER
| EDG_WLL_SOURCE_VM_MANAGER
| EDG_WLL_SOURCE_VM_SYSTEM.
#[export] Instance edg_wll_Source_eq_dec : EqDecision edg_wll_Source.
Proof. solve_decision. Defined.

(** The enumerators in order; a component's code is its position. *)
Definition all_sources : list edg_wll_Source :=
  [EDG_WLL_SOURCE_NONE; EDG_WLL_SOURCE_USER_INTERFACE; EDG_WLL_SOURCE_NETWORK_SERVER;
   EDG_WLL_SOURCE_WORKLOAD_MANAGER; EDG_WLL_SOURCE_BIG_HELPER;
   EDG_WLL_SOURCE_JOB_SUBMISSION; EDG_WLL_SOURCE_LOG_MONITOR; EDG_WLL_SOURCE_LRMS;
   EDG_WLL_SOURCE_APPLICATION; EDG_WLL_SOURCE_LB_SERVER; EDG_WLL_SOURCE_CREAM_INTERFACE;
   EDG_WLL_SOURCE_CREAM_EXECUTOR; EDG_WLL_SOURCE_PBS_CLIENT; EDG_WLL_SOURCE_PBS_SERVER;
   EDG_WLL_SOURCE_PBS_SMOM; EDG_WLL_SOURCE_PBS_MOM; EDG_WLL_SOURCE_PBS_SCHEDULER;
   EDG_WLL_SOURCE_CLOUD_MANAGER; EDG_WLL_SOURCE_VM_MANAGER; EDG_WLL_SOURCE_VM_SYSTEM].

(** [sources_index s] is the value of the enumerator, an index into arrays. *)
Definition source_index (s : edg_wll_Source) : nat :=
  match s with
  | EDG_WLL_SOURCE_NONE => 0 | EDG_WLL_SOURCE_USER_INTERFACE => 1
  | EDG_WLL_SOURCE_NETWORK_SERVER => 2 | EDG_WLL_SOURCE_WORKLOAD_MANAGER => 3
  | EDG_WLL_SOURCE_BIG_HELPER => 4 | EDG_WLL_SOURCE_JOB_SUBMISSION => 5
  | EDG_WLL_SOURCE_LOG_MONITOR => 6 | EDG_WLL_SOURCE_LRMS => 7
  | EDG_WLL_SOURCE_APPLICATION => 8 | EDG_WLL_SOURCE_LB_SERVER => 9
  | EDG_WLL_SOURCE_CREAM_INTERFACE => 10 | EDG_WLL_SOURCE_CREAM_EXECUTOR => 11
  | EDG_WLL_SOURCE_PBS_CLIENT => 12 | EDG_WLL_SOURCE_PBS_SERVER => 13
  | EDG_WLL_SOURCE_PBS_SMOM => 14 | EDG_WLL_SOURCE_PBS_MOM => 15
  | EDG_WLL_SOURCE_PBS_SCHEDULER => 16 | EDG_WLL_SOURCE_CLOUD_MANAGER => 17
  | EDG_WLL_SOURCE_VM_MANAGER => 18 | EDG_WLL_SOURCE_VM_SYSTEM => 19
  end%nat.

Definition srcNames : list string :=
  ["Undefined"; "UserInterface"; "NetworkServer"; "WorkloadManager"; "BigHelper";
   "JobController"; "LogMonitor"; "LRMS"; "Application"; "LBServer"; "CREAMInterface";
   "CREAMExecutor"; "PBSClient"; "PBSServer"; "PBSMomSuperior"; "PBSMom"; "PBSScheduler";
   "CloudManager"; "VMManager"; "VMSystem"]%string.

(** [for (i=from; i<n; i++) if (strcasecmp(names[i],name) == 0) return i;] *)
Fixpoint name_index (names : list string) (name : string) (i : nat) : option nat :=
  match names with
  | [] => None
  | n :: names => if strcasecmp_eq n name then Some i else name_index names name (S i)
  end.

Definition edg_wll_StringToSource (name : string) : edg_wll_Source :=
  match name_index (drop 1 srcNames) name 1 with
  | Some i => default EDG_WLL_SOURCE_NONE (all_sources !! i)
  | None => EDG_WLL_SOURCE_NONE
  end.
Definition edg_wll_SourceToString (src : edg_wll_Source) : option string :=
  srcNames !! source_index src.

(** ** Job states *)
Definition EDG_WLL_JOB_UNDEF : Z := 0.
Definition EDG_WLL_JOB_SUBMITTED : Z := 1.
Definition EDG_WLL_JOB_WAITING : Z := 2.
Definition EDG_WLL_JOB_READY : Z := 3.
Definition EDG_WLL_JOB_SCHEDULED : Z := 4.
Definition EDG_WLL_JOB_RUNNING : Z := 5.
Definition EDG_WLL_JOB_DONE : Z := 6.
Definition EDG_WLL_JOB_CLEARED : Z := 7.
Definition EDG_WLL_JOB_ABORTED : Z := 8.
Definition EDG_WLL_JOB_CANCELLED : Z := 9.
Definition EDG_WLL_JOB_UNKNOWN : Z := 10.
Definition EDG_WLL_JOB_PURGED : Z := 11.
Definition EDG_WLL_NUMBER_OF_STATCODES : Z := 12.

Definition statNames : list string :=
  ["Undefined"; "Submitted"; "Waiting"; "Ready"; "Scheduled"; "Running"; "Done";
   "Cleared"; "Aborted"; "Cancelled"; "Unknown"; "Purged"]%string.

Definition edg_wll_StringToStat (name : string) : Z :=
  match name_index statNames name 0 with Some i => Z.of_nat i | None => -1 end.
Definition edg_wll_StatToString (statCode : Z) : option string :=
  if statCode <? 0 then None else statNames !! Z.to_nat statCode.

(** Job types, [enum edg_wll_StatJobtype]; -1 before the registration. *)
Definition EDG_WLL_STAT_SIMPLE : Z := 0.
Definition EDG_WLL_STAT_DAG : Z := 1.
Definition EDG_WLL_STAT_COLLECTION : Z := 4.
Definition EDG_WLL_STAT_PBS : Z := 5.
Definition EDG_WLL_STAT_CONDOR : Z := 6.
Definition EDG_WLL_STAT_CREAM : Z := 7.
Definition EDG_WLL_STAT_FILE_TRANSFER_COLLECTION : Z := 8.
Definition EDG_WLL_STAT_FILE_TRANSFER : Z := 9.
Definition EDG_WLL_STAT_VIRTUAL_MACHINE : Z := 10.

(** Done codes, [enum edg_wll_StatDone_code]. *)
Definition EDG_WLL_STAT_OK : Z := 0.
Definition EDG_WLL_STAT_FAILED : Z := 1.
Definition EDG_WLL_STAT_CANCELLED : Z := 2.

(** [enum edg_wll_StatSandbox_retrieved] *)
Definition EDG_WLL_STAT_NOTYET : Z := 0.
Definition EDG_WLL_STAT_USER : Z := 1.
Definition EDG_WLL_STAT_TIMEOUT : Z := 2.
Definition EDG_WLL_STAT_NOOUTPUT : Z := 3.

(** Status of the job wrapper, [enum edg_wll_StatJw_status]. *)
Definition EDG_WLL_STAT_UNKNOWN : Z := 0.
Definition EDG_WLL_STAT_WRAPPER_RUNNING : Z := 1.
Definition EDG_WLL_STAT_PAYLOAD_RUNNING : Z := 2.
Definition EDG_WLL_STAT_DONE : Z := 3.

(** CREAM states, [enum edg_wll_StatCream_state]. *)
Definition EDG_WLL_STAT_CREAM_REGISTERED : Z := 0.
Definition EDG_WLL_STAT_CREAM_PENDING : Z := 1.
Definition EDG_WLL_STAT_CREAM_IDLE : Z := 2.
Definition EDG_WLL_STAT_CREAM_RUNNING : Z := 3.
Definition EDG_WLL_STAT_CREAM_REALLY_RUNNING : Z := 4.
Definition EDG_WLL_STAT_CREAM_HELD : Z := 5.
Definition EDG_WLL_STAT_CREAM_DONE_OK : Z := 6.
Definition EDG_WLL_STAT_CREAM_DONE_FAILED : Z := 7.
Definition EDG_WLL_STAT_CREAM_ABORTED : Z := 8.
Definition EDG_WLL_STAT_CREAM_CANCELLED : Z := 9.
Definition EDG_WLL_STAT_CREAM_PURGED : Z := 10.
Definition EDG_WLL_NUMBER_OF_CREAM_STATES : Z := 11.

(** The names after the prefix ["Cream_"] that the code skips. *)
Definition cream_statNames : list string :=
  ["registered"; "pending"; "idle"; "running"; "really-running"; "held"; "done-ok";
   "done-failed"; "aborted"; "cancelled"; "purged"]%string.
Definition edg_wll_StringToCreamStat (name : string) : Z :=
  match name_index cream_statNames name 0 with Some i => Z.of_nat i | None => -1 end.

(** [enum edg_wll_StatFt_sandbox_type] and [enum edg_wll_StatVm_state]. *)
Definition EDG_WLL_STAT_INPUT : Z := 0.
Definition EDG_WLL_STAT_OUTPUT : Z := 1.
Definition EDG_WLL_STAT_VM_PENDING : Z := 0.
Definition EDG_WLL_STAT_VM_BOOT : Z := 1.
Definition EDG_WLL_STAT_VM_RUNNING : Z := 2.
Definition EDG_WLL_STAT_VM_REALLY_RUNNING : Z := 3.
Definition EDG_WLL_STAT_VM_SHUTDOWN : Z := 4.
Definition EDG_WLL_STAT_VM_STOPPED : Z := 5.
Definition EDG_WLL_STAT_VM_DONE : Z := 6.
Definition EDG_WLL_STAT_VM_FAILURE : Z := 7.

(** ** Job status *)
Record timeval := mkTime { tv_sec : Z; tv_usec : Z }.
Definition null_timeval : timeval := mkTime 0 0.
#[export] Instance timeval_eq_dec : EqDecision timeval.
Proof. solve_decision. Defined.

(** An element of a tag list; the lists are terminated by a NULL tag. *)
Record TagValue := mkTag { tag : string; value : option string }.
#[export] Instance TagValue_eq_dec : EqDecision TagValue.
Proof. solve_decision. Defined.

(** [edg_wll_JobStat], with the fields of status.T in their order. A NULL
    terminated array is the list of its elements; [children_hist] and
    [stateEnterTimes] are the whole arrays, whose element 0 is the number of the
    others.  The pointers [children_states] and [jdl_classad] are left out: the
    modelled code does not touch them. *)
Record JobStat := mkJobStat {
  state : Z;
  jobId : option JobId;
  owner : option string;
  jobtype : Z;
  parent_job : option JobId;
  seed : option string;
  children_num : Z;
  children : option (list string);
  children_hist : option (list Z);
  condorId : option string;
  globusId : option string;
  localId : option string;
  jdl : option string;
  matched_jdl : option string;
  destination : option string;
  condor_jdl : option string;
  rsl : option string;
  reason : option string;
  location : option string;
  ce_node : option string;
  network_server : option string;
  subjob_failed : Z;
  done_code : Z;
  exit_code : Z;
  resubmitted : Z;
  cancelling : Z;
  cancelReason : option string;
  cpuTime : Z;
  user_tags : option (list TagValue);
  stateEnterTime : timeval;
  lastUpdateTime : timeval;
  stateEnterTimes : option (list Z);
  expectUpdate : Z;
  expectFrom : option string;
  acl : option string;
  payload_running : Z;
  possible_destinations : option (list string);
  possible_ce_nodes : option (list string);
  suspended : Z;
  suspend_reason : option string;
  failure_reasons : option string;
  remove_from_proxy : Z;
  ui_host : option string;
  user_fqans : option (list string);
  sandbox_retrieved : Z;
  jw_status : Z;
  isb_transfer : option JobId;
  osb_transfer : option JobId;
  payload_owner : option string;
  access_rights : option string;
  history : option string;
  pbs_state : option string;
  pbs_substate : Z;
  pbs_queue : option string;
  pbs_owner : option string;
  pbs_name : option string;
  pbs_reason : option string;
  pbs_scheduler : option string;
  pbs_dest_host : option string;
  pbs_pid : Z;
  pbs_resource_requested : option (list TagValue);
  pbs_resource_usage : option (list TagValue);
  pbs_exit_status : Z;
  pbs_error_desc : option string;
  condor_status : option string;
  condor_universe : option string;
  condor_owner : option string;
  condor_preempting : option string;
  condor_shadow_pid : Z;
  condor_shadow_exit_status : Z;
  condor_starter_pid : Z;
  condor_starter_exit_status : Z;
  condor_job_pid : Z;
  condor_job_exit_status : Z;
  condor_dest_host : option string;
  condor_reason : option string;
  condor_error_desc : option string;
  cream_state : Z;
  cream_id : option string;
  cream_owner : option string;
  cream_endpoint : option string;
  cream_jdl : option string;
  cream_reason : option string;
  cream_failure_reason : option string;
  cream_lrms_id : option string;
  cream_node : option string;
  cream_done_code : Z;
  cream_exit_code : Z;
  cream_cancelling : Z;
  cream_cpu_time : Z;
  cream_jw_status : Z;
  ft_compute_job : option JobId;
  ft_sandbox_type : Z;
  ft_src : option string;
  ft_dest : option string;
  vm_state : Z;
  vm_image : option string;
  vm_require : option string;
  vm_usage : option string;
  vm_hostname : option string;
  vm_machine : option string;
  vm_id : option string;
  vm_name : option string;
  vm_phy_hostname : option string;
  vm_system_halting : Z;
  vm_manager : option string
}.
#[export] Instance JobStat_eta : Eta JobStat := fun r => mkJobStat
  r.(state) r.(jobId) r.(owner) r.(jobtype) r.(parent_job) r.(seed) r.(children_num)
  r.(children) r.(children_hist) r.(condorId) r.(globusId) r.(localId) r.(jdl)
  r.(matched_jdl) r.(destination) r.(condor_jdl) r.(rsl) r.(reason) r.(location)
  r.(ce_node) r.(network_server) r.(subjob_failed) r.(done_code) r.(exit_code)
  r.(resubmitted) r.(cancelling) r.(cancelReason) r.(cpuTime) r.(user_tags)
  r.(stateEnterTime) r.(lastUpdateTime) r.(stateEnterTimes) r.(expectUpdate)
  r.(expectFrom) r.(acl) r.(payload_running) r.(possible_destinations)
  r.(possible_ce_nodes) r.(suspended) r.(suspend_reason) r.(failure_reasons)
  r.(remove_from_proxy) r.(ui_host) r.(user_fqans) r.(sandbox_retrieved) r.(jw_status)
  r.(isb_transfer) r.(osb_transfer) r.(payload_owner) r.(access_rights) r.(history)
  r.(pbs_state) r.(pbs_substate) r.(pbs_queue) r.(pbs_owner) r.(pbs_name) r.(pbs_reason)
  r.(pbs_scheduler) r.(pbs_dest_host) r.(pbs_pid) r.(pbs_resource_requested)
  r.(pbs_resource_usage) r.(pbs_exit_status) r.(pbs_error_desc) r.(condor_status)
  r.(condor_universe) r.(condor_owner) r.(condor_preempting) r.(condor_shadow_pid)
  r.(condor_shadow_exit_status) r.(condor_starter_pid) r.(condor_starter_exit_status)
  r.(condor_job_pid) r.(condor_job_exit_status) r.(condor_dest_host) r.(condor_reason)
  r.(condor_error_desc) r.(cream_state) r.(cream_id) r.(cream_owner) r.(cream_endpoint)
  r.(cream_jdl) r.(cream_reason) r.(cream_failure_reason) r.(cream_lrms_id)
  r.(cream_node) r.(cream_done_code) r.(cream_exit_code) r.(cream_cancelling)
  r.(cream_cpu_time) r.(cream_jw_status) r.(ft_compute_job) r.(ft_sandbox_type)
  r.(ft_src) r.(ft_dest) r.(vm_state) r.(vm_image) r.(vm_require) r.(vm_usage)
  r.(vm_hostname) r.(vm_machine) r.(vm_id) r.(vm_name) r.(vm_phy_hostname)
  r.(vm_system_halting) r.(vm_manager).

(** The state of one branch of a shallow resubmission; [branch] is the WM
    component of the sequence code.  An array of them ends with branch 0. *)
Record branch_state := mkBranch {
  branch : Z;
  bs_destination : option string;
  bs_ce_node : option string;
  bs_jdl : option string
}.
Definition null_branch : branch_state := mkBranch 0 None None None.
#[export] Instance branch_state_eta : Eta branch_state := fun r =>
  mkBranch r.(branch) r.(bs_destination) r.(bs_ce_node) r.(bs_jdl).
#[export] Instance branch_state_eq_dec : EqDecision branch_state.
Proof. solve_decision. Defined.

(** The internal job state.  [branch_states] is the whole array, the terminator
    included, because the code reads the terminator's fields. *)
Record intJobStat := mkIntJobStat {
  pub : JobStat;
  resubmit_type : Z;
  last_seqcode : option string;
  last_cancel_seqcode : option string;
  branch_tag_seqcode : option string;
  last_branch_seqcode : option string;
  deep_resubmit_seqcode : option string;
  branch_states : option (list branch_state);
  last_pbs_event_timestamp : timeval;
  pbs_reruning : Z;
  tag_seq_codes : option (list string);
  payload_owner_pending : option string;
  payload_owner_unconfirmed : option string
}.
#[export] Instance intJobStat_eta : Eta intJobStat := fun r => mkIntJobStat
  r.(pub) r.(resubmit_type) r.(last_seqcode) r.(last_cancel_seqcode)
  r.(branch_tag_seqcode) r.(last_branch_seqcode) r.(deep_resubmit_seqcode)
  r.(branch_states) r.(last_pbs_event_timestamp) r.(pbs_reruning) r.(tag_seq_codes)
  r.(payload_owner_pending) r.(payload_owner_unconfirmed).

(** [js->pub.f = v;] *)
Notation "r <! p := v !>" := (setter pub (setter p v (pub r)) r)
  (at level 1, left associativity, p at level 9, v at level 200,
   format "r  <!  p  :=  v  !>") : lb_scope.

Definition edg_wll_InitStatus : JobStat := {|
  state := EDG_WLL_JOB_UNDEF; jobId := None; owner := None; jobtype := (-1); parent_job
  := None; seed := None; children_num := 0; children := None; children_hist := None;
  condorId := None; globusId := None; localId := None; jdl := None; matched_jdl := None;
  destination := None; condor_jdl := None; rsl := None; reason := None; location :=
  None; ce_node := None; network_server := None; subjob_failed := 0; done_code := (-1);
  exit_code := 0; resubmitted := 0; cancelling := 0; cancelReason := None; cpuTime :=
  (-1); user_tags := None; stateEnterTime := null_timeval; lastUpdateTime :=
  null_timeval; stateEnterTimes := None; expectUpdate := 0; expectFrom := None; acl :=
  None; payload_running := 0; possible_destinations := None; possible_ce_nodes := None;
  suspended := 0; suspend_reason := None; failure_reasons := None; remove_from_proxy :=
  0; ui_host := None; user_fqans := None; sandbox_retrieved := 0; jw_status := 0;
  isb_transfer := None; osb_transfer := None; payload_owner := None; access_rights :=
  None; history := None; pbs_state := None; pbs_substate := 0; pbs_queue := None;
  pbs_owner := None; pbs_name := None; pbs_reason := None; pbs_scheduler := None;
  pbs_dest_host := None; pbs_pid := 0; pbs_resource_requested := None;
  pbs_resource_usage := None; pbs_exit_status := 0; pbs_error_desc := None;
  condor_status := None; condor_universe := None; condor_owner := None;
  condor_preempting := None; condor_shadow_pid := 0; condor_shadow_exit_status := 0;
  condor_starter_pid := 0; condor_starter_exit_status := 0; condor_job_pid := 0;
  condor_job_exit_status := 0; condor_dest_host := None; condor_reason := None;
  condor_error_desc := None; cream_state := (-1); cream_id := None; cream_owner := None;
  cream_endpoint := None; cream_jdl := None; cream_reason := None; cream_failure_reason
  := None; cream_lrms_id := None; cream_node := None; cream_done_code := (-1);
  cream_exit_code := (-1); cream_cancelling := 0; cream_cpu_time := 0; cream_jw_status
  := (-1); ft_compute_job := None; ft_sandbox_type := (-1); ft_src := None; ft_dest :=
  None; vm_state := (-1); vm_image := None; vm_require := None; vm_usage := None;
  vm_hostname := None; vm_machine := None; vm_id := None; vm_name := None;
  vm_phy_hostname := None; vm_system_halting := 0; vm_manager := None
|}.

(** [init_intJobStat]: the structure is zeroed, the public part initialised and the
    two counted arrays allocated. *)
Definition counted_array : list Z := EDG_WLL_NUMBER_OF_STATCODES :: replicate 12 0.
Definition init_intJobStat : intJobStat := {|
  pub := edg_wll_InitStatus <| jobtype := -1 |>
    <| children_hist := Some counted_array |> <| stateEnterTimes := Some counted_array |>;
  resubmit_type := 0; last_seqcode := None; last_cancel_seqcode := None;
  branch_tag_seqcode := None; last_branch_seqcode := None; deep_resubmit_seqcode := None;
  branch_states := None; last_pbs_event_timestamp := null_timeval; pbs_reruning := 0;
  tag_seq_codes := None; payload_owner_pending := None; payload_owner_unconfirmed := None
|}.
