(* ===== verification/Events.v ===== *)
(** * Logging events

    The event types of org.glite.lb.types/events.T as the generator of
    org.glite.lb.common/interface/events.h.T turns them into C: every event has
    the fields of [_common_] and the fields of its own type.  [edg_wll_Event] is a
    union whose members all start with the common fields, here a record with the
    common fields and a body.  Code fields are [int]: 0 is the generated
    [..._UNDEFINED], the codes follow from 1.  Events that no part of the state
    machine looks into carry no fields here. *)
From Stdlib Require Import ZArith Lia Ascii.
From stdpp Require Import base option list strings numbers.
From S2P Require Import Prelude CLib JobId LbTypes.
#[local] Open Scope Z_scope.

(** ** Codes *)
Definition EDG_WLL_TRANSFER_START : Z := 1.
Definition EDG_WLL_TRANSFER_OK : Z := 2.
Definition EDG_WLL_TRANSFER_REFUSED : Z := 3.
Definition EDG_WLL_TRANSFER_FAIL : Z := 4.
Definition EDG_WLL_ENQUEUED_START : Z := 1.
Definition EDG_WLL_ENQUEUED_OK : Z := 2.
Definition EDG_WLL_ENQUEUED_REFUSED : Z := 3.
Definition EDG_WLL_ENQUEUED_FAIL : Z := 4.
Definition EDG_WLL_RESUBMISSION_WILLRESUB : Z := 1.
Definition EDG_WLL_RESUBMISSION_WONTRESUB : Z := 2.
Definition EDG_WLL_RESUBMISSION_SHALLOW : Z := 3.
Definition EDG_WLL_DONE_OK : Z := 1.
Definition EDG_WLL_DONE_FAILED : Z := 2.
Definition EDG_WLL_DONE_CANCELLED : Z := 3.
Definition EDG_WLL_DONE_KILLED : Z := 4.
Definition EDG_WLL_CANCEL_REQ : Z := 1.
Definition EDG_WLL_CANCEL_REFUSE : Z := 2.
Definition EDG_WLL_CANCEL_DONE : Z := 3.
Definition EDG_WLL_CANCEL_ABORT : Z := 4.
Definition EDG_WLL_CLEAR_USER : Z := 1.
Definition EDG_WLL_CLEAR_TIMEOUT : Z := 2.
Definition EDG_WLL_CLEAR_NOOUTPUT : Z := 3.
Definition EDG_WLL_REGJOB_SIMPLE : Z := 1.
Definition EDG_WLL_REGJOB_DAG : Z := 2.
Definition EDG_WLL_REGJOB_PARTITIONABLE : Z := 3.
Definition EDG_WLL_REGJOB_PARTITIONED : Z := 4.
Definition EDG_WLL_REGJOB_COLLECTION : Z := 5.
Definition EDG_WLL_REGJOB_PBS : Z := 6.
Definition EDG_WLL_REGJOB_CONDOR : Z := 7.
Definition EDG_WLL_REGJOB_CREAM : Z := 8.
Definition EDG_WLL_REGJOB_FILE_TRANSFER_COLLECTION : Z := 9.
Definition EDG_WLL_REGJOB_FILE_TRANSFER : Z := 10.
Definition EDG_WLL_REGJOB_VIRTUAL_MACHINE : Z := 11.
Definition EDG_WLL_SANDBOX_INPUT : Z := 1.
Definition EDG_WLL_SANDBOX_OUTPUT : Z := 2.
Definition EDG_WLL_PBSTRANSFER_OK : Z := 2.
Definition EDG_WLL_PBSRESOURCEUSAGE_REQUESTED : Z := 1.
Definition EDG_WLL_PBSRESOURCEUSAGE_USED : Z := 2.
Definition EDG_WLL_CONDORREJECT_NOMATCH : Z := 1.
Definition EDG_WLL_CREAMSTORE_CMDSTART : Z := 1.
Definition EDG_WLL_CREAMSTORE_CMDSUSPEND : Z := 4.
Definition EDG_WLL_CREAMSTORE_CMDRESUME : Z := 5.
Definition EDG_WLL_CREAMSTORE_OK : Z := 2.
Definition EDG_WLL_CREAMCALL_CMDSTART : Z := 1.
Definition EDG_WLL_CREAMCALL_CMDCANCEL : Z := 2.
Definition EDG_WLL_CREAMCALL_CMDPURGE : Z := 3.
Definition EDG_WLL_CREAMCALL_OK : Z := 2.
Definition EDG_WLL_CREAMCANCEL_DONE : Z := 3.
Definition EDG_WLL_CREAMSTATUS_DONE : Z := 2.
Definition EDG_WLL_FILETRANSFER_START : Z := 1.
Definition EDG_WLL_FILETRANSFER_OK : Z := 2.
Definition EDG_WLL_FILETRANSFER_FAIL : Z := 3.
Definition EDG_WLL_VMDONE_OK : Z := 1.
Definition EDG_WLL_VMDONE_DELETE : Z := 2.
Definition EDG_WLL_VMDONE_FAILURE : Z := 3.

(** ** Bodies *)
Record TransferEvent := mkTransfer {
  tr_destination : edg_wll_Source; tr_dest_host : option string;
  tr_dest_instance : option string; tr_job : option string;
  tr_result : Z; tr_reason : option string; tr_dest_jobid : option string }.
Record AcceptedEvent := mkAccepted {
  ac_from : edg_wll_Source; ac_from_host : option string;
  ac_from_instance : option string; ac_local_jobid : option string }.
Record RefusedEvent := mkRefused {
  rf_from : edg_wll_Source; rf_from_host : option string;
  rf_from_instance : option string; rf_reason : option string }.
Record EnQueuedEvent := mkEnQueued {
  eq_queue : option string; eq_job : option string; eq_result : Z;
  eq_reason : option string }.
Record DoneEvent := mkDone {
  dn_status_code : Z; dn_reason : option string; dn_exit_code : Z }.
Record RegJobEvent := mkRegJob {
  rj_jdl : option string; rj_ns : option string; rj_parent : option JobId;
  rj_jobtype : Z; rj_nsubjobs : Z; rj_seed : option string; rj_wms_dn : option string }.
Record ChangeACLEvent := mkChangeACL {
  ca_user_id : option string; ca_user_id_type : Z; ca_permission : Z;
  ca_permission_type : Z; ca_operation : Z }.
Record CollectionStateEvent := mkCollectionState {
  cs_state : option string; cs_done_code : Z; cs_histogram : option string;
  cs_child : option JobId; cs_child_event : option string }.
Record SandboxEvent := mkSandbox {
  sb_sandbox_type : Z; sb_transfer_job : option string; sb_compute_job : option string }.
Record CREAMStoreEvent := mkCREAMStore {
  cst_command : Z; cst_cmdid : option string; cst_result : Z; cst_reason : option string }.
Record CREAMCallEvent := mkCREAMCall {
  cc_callee : edg_wll_Source; cc_command : Z; cc_cmdid : option string;
  cc_destid : option string; cc_result : Z; cc_reason : option string }.
Record CREAMStatusEvent := mkCREAMStatus {
  ct_old_state : option string; ct_new_state : option string; ct_result : Z;
  ct_descr : option string; ct_exit_code : option string;
  ct_failure_reason : option string; ct_worker_node : option string;
  ct_LRMS_jobid : option string }.
Record PBSStateEvent := mkPBSState {
  ps_oldstate : Z; ps_oldsubstate : Z; ps_newstate : Z; ps_newsubstate : Z }.
Record PBSTransferEvent := mkPBSTransfer {
  pt_destination : edg_wll_Source; pt_dest_instance : option string; pt_result : Z;
  pt_reason : option string; pt_dest_jobid : option string }.
Record PBSQueuedEvent := mkPBSQueued {
  pq_queue : option string; pq_name : option string; pq_owner : option string }.
Record PBSRunEvent := mkPBSRun {
  pr_scheduler : option string; pr_dest_host : option string; pr_pid : Z }.
Record CondorStarterExitedEvent := mkCondorStarterExited {
  cx_starter_pid : Z; cx_starter_exit_status : Z; cx_job_pid : Z;
  cx_job_exit_status : Z }.
Record VMCreateEvent := mkVMCreate {
  vc_require : option string; vc_id : option string; vc_name : option string;
  vc_owner : option string; vc_hostname : option string; vc_manager : option string;
  vc_image : option string }.

Inductive EventBody :=
| UndefEvent
(* flesh gLite *)
| Transfer (b : TransferEvent)
| Accepted (b : AcceptedEvent)
| Refused (b : RefusedEvent)
| EnQueued (b : EnQueuedEvent)
| DeQueued (queue local_jobid : option string)
| HelperCall (helper_name helper_params : option string)
| HelperReturn (helper_name retval : option string)
| Running (node : option string)
| Resubmission (result : Z) (reason : option string) (tag : option string)
| Done (b : DoneEvent)
| Cancel (status_code : Z) (reason : option string)
| Abort_ (reason : option string)
| Clear_ (reason : Z)
| Purge
| Match (dest_id : option string)
| Pending (reason : option string)
| RegJob (b : RegJobEvent)
| Chkpt
| Listener
| CurDescr
| UserTag (name value : option string)
| ChangeACL (b : ChangeACLEvent)
| Notification
| ResourceUsage
| ReallyRunning (wn_seq : option string)
| Suspend (reason : option string)
| Resume (reason : option string)
| CollectionState (b : CollectionStateEvent)
| GrantPayloadOwnership (payload_owner : option string)
| TakePayloadOwnership
| ConnectJob (dest_jobid : option string) (jobtype : Z)
| DisconnectJob (dest_jobid : option string)
(* flesh PBS *)
| PBSInternalStateChange (b : PBSStateEvent)
| PBSTransfer (b : PBSTransferEvent)
| PBSAccepted
| PBSRefused
| PBSQueued (b : PBSQueuedEvent)
| PBSDequeued
| PBSMatch (dest_host : option string)
| PBSPending (reason : option string)
| PBSWaiting
| PBSRun (b : PBSRunEvent)
| PBSRerun
| PBSAbort
| PBSDone (exit_status : Z)
| PBSResourceUsage (usage : Z) (resources : option (list TagValue))
| PBSError (error_desc : option string)
(* flesh Condor *)
| CondorMatch (owner dest_host preempting : option string)
| CondorReject (owner : option string) (status_code : Z)
| CondorShadowStarted (shadow_pid : Z)
| CondorShadowExited (shadow_pid shadow_exit_status : Z)
| CondorStarterStarted (starter_pid : Z) (universe : option string)
| CondorStarterExited (b : CondorStarterExitedEvent)
| CondorResourceUsage
| CondorError (error_desc : option string)
(* flesh CREAM *)
| CREAMStart
| CREAMPurge
| CREAMAccepted (local_jobid : option string)
| CREAMStore (b : CREAMStoreEvent)
| CREAMCall (b : CREAMCallEvent)
| CREAMRunning (node : option string)
| CREAMReallyRunning
| CREAMDone
| CREAMCancel (status_code : Z) (reason : option string)
| CREAMAbort (reason : option string)
| CREAMStatus (b : CREAMStatusEvent)
| CREAMSuspend
| CREAMResume
(* flesh Transfer *)
| FileTransferRegister (src dest : option string)
| FileTransfer (result : Z) (reason : option string)
| Sandbox (b : SandboxEvent)
(* flesh VirtualMachine *)
| VMCreate (b : VMCreateEvent)
| VMHost (hostname : option string)
| VMImage (image : option string)
| VMRunning
| VMShutdown (usage : option string)
| VMStop
| VMResume
| VMDone (status_code : Z) (usage : option string).

(** [edg_wll_EventCode]: the types are counted in their order, every flesh from a new hundred. *)
Definition event_code (b : EventBody) : Z :=
  match b with
  | UndefEvent => 0 | Transfer _ => 1 | Accepted _ => 2 | Refused _ => 3 | EnQueued _ => 4
  | DeQueued _ _ => 5 | HelperCall _ _ => 6 | HelperReturn _ _ => 7 | Running _ => 8
  | Resubmission _ _ _ => 9 | Done _ => 10 | Cancel _ _ => 11 | Abort_ _ => 12 | Clear_ _ => 13
  | Purge => 14 | Match _ => 15 | Pending _ => 16 | RegJob _ => 17 | Chkpt => 18
  | Listener => 19 | CurDescr => 20 | UserTag _ _ => 21 | ChangeACL _ => 22 | Notification => 23
  | ResourceUsage => 24 | ReallyRunning _ => 25 | Suspend _ => 26 | Resume _ => 27
  | CollectionState _ => 28 | GrantPayloadOwnership _ => 29 | TakePayloadOwnership => 30
  | ConnectJob _ _ => 31 | DisconnectJob _ => 32 | PBSInternalStateChange _ => 101
  | PBSTransfer _ => 102 | PBSAccepted => 103 | PBSRefused => 104 | PBSQueued _ => 105
  | PBSDequeued => 106 | PBSMatch _ => 107 | PBSPending _ => 108 | PBSWaiting => 109
  | PBSRun _ => 110 | PBSRerun => 111 | PBSAbort => 112 | PBSDone _ => 113
  | PBSResourceUsage _ _ => 114 | PBSError _ => 115 | CondorMatch _ _ _ => 201
  | CondorReject _ _ => 202 | CondorShadowStarted _ => 203 | CondorShadowExited _ _ => 204
  | CondorStarterStarted _ _ => 205 | CondorStarterExited _ => 206 | CondorResourceUsage => 207
  | CondorError _ => 208 | CREAMStart => 301 | CREAMPurge => 302 | CREAMAccepted _ => 303
  | CREAMStore _ => 304 | CREAMCall _ => 305 | CREAMRunning _ => 306 | CREAMReallyRunning => 307
  | CREAMDone => 308 | CREAMCancel _ _ => 309 | CREAMAbort _ => 310 | CREAMStatus _ => 311
  | CREAMSuspend => 312 | CREAMResume => 313 | FileTransferRegister _ _ => 401
  | FileTransfer _ _ => 402 | Sandbox _ => 403 | VMCreate _ => 501 | VMHost _ => 502
  | VMImage _ => 503 | VMRunning => 504 | VMShutdown _ => 505 | VMStop => 506 | VMResume => 507
  | VMDone _ _ => 508
  end.

(** The names of the types by their codes. *)
Definition eventNames : list (Z * string) :=
  [(0, "Undefined"); (1, "Transfer"); (2, "Accepted"); (3, "Refused"); (4, "EnQueued");
   (5, "DeQueued"); (6, "HelperCall"); (7, "HelperReturn"); (8, "Running"); (9, "Resubmission");
   (10, "Done"); (11, "Cancel"); (12, "Abort"); (13, "Clear"); (14, "Purge"); (15, "Match");
   (16, "Pending"); (17, "RegJob"); (18, "Chkpt"); (19, "Listener"); (20, "CurDescr");
   (21, "UserTag"); (22, "ChangeACL"); (23, "Notification"); (24, "ResourceUsage");
   (25, "ReallyRunning"); (26, "Suspend"); (27, "Resume"); (28, "CollectionState");
   (29, "GrantPayloadOwnership"); (30, "TakePayloadOwnership"); (31, "ConnectJob");
   (32, "DisconnectJob"); (101, "PBSInternalStateChange"); (102, "PBSTransfer");
   (103, "PBSAccepted"); (104, "PBSRefused"); (105, "PBSQueued"); (106, "PBSDequeued");
   (107, "PBSMatch"); (108, "PBSPending"); (109, "PBSWaiting"); (110, "PBSRun");
   (111, "PBSRerun"); (112, "PBSAbort"); (113, "PBSDone"); (114, "PBSResourceUsage");
   (115, "PBSError"); (201, "CondorMatch"); (202, "CondorReject"); (203, "CondorShadowStarted");
   (204, "CondorShadowExited"); (205, "CondorStarterStarted"); (206, "CondorStarterExited");
   (207, "CondorResourceUsage"); (208, "CondorError"); (301, "CREAMStart"); (302, "CREAMPurge");
   (303, "CREAMAccepted"); (304, "CREAMStore"); (305, "CREAMCall"); (306, "CREAMRunning");
   (307, "CREAMReallyRunning"); (308, "CREAMDone"); (309, "CREAMCancel"); (310, "CREAMAbort");
   (311, "CREAMStatus"); (312, "CREAMSuspend"); (313, "CREAMResume");
   (401, "FileTransferRegister"); (402, "FileTransfer"); (403, "Sandbox"); (501, "VMCreate");
   (502, "VMHost"); (503, "VMImage"); (504, "VMRunning"); (505, "VMShutdown"); (506, "VMStop");
   (507, "VMResume"); (508, "VMDone")]%string.
Definition edg_wll_EventToString (event : Z) : option string :=
  snd <$> find (fun n => n.1 =? event) eventNames.

(** [edg_wll_Event]; the sequence code is a mandatory field of every event. *)
Record Event := mkEvent {
  ev_timestamp : timeval;
  ev_arrived : timeval;
  ev_host : option string;
  ev_level : Z;
  ev_priority : Z;
  ev_jobId : option JobId;
  ev_seqcode : string;
  ev_user : option string;
  ev_source : edg_wll_Source;
  ev_src_instance : option string;
  ev_body : EventBody
}.
#[export] Instance Event_eta : Eta Event := fun e =>
  mkEvent e.(ev_timestamp) e.(ev_arrived) e.(ev_host) e.(ev_level) e.(ev_priority) e.(ev_jobId)
    e.(ev_seqcode) e.(ev_user) e.(ev_source) e.(ev_src_instance) e.(ev_body).

(** [e->type == EDG_WLL_EVENT_...] for the types that are tested outside of a
    [switch]. *)
Definition is_cancel (b : EventBody) : bool :=
  match b with Cancel _ _ => true | _ => false end.
Definition is_collectionstate (b : EventBody) : bool :=
  match b with CollectionState _ => true | _ => false end.

(** [e->vMCreate.image] and [e->vMDone.usage], read through the union whatever the
    type of the event is: the other virtual machine events are shorter, so that the
    field lies behind their own fields, in memory that [edg_wll_InitEvent] set to
    zero. *)
Definition vMCreate_image (b : EventBody) : option string :=
  match b with VMCreate c => c.(vc_image) | _ => None end.
Definition vMDone_usage (b : EventBody) : option string :=
  match b with VMDone _ usage => usage | _ => None end.
