(* ===== verification/SeqCode.v ===== *)
(** * Sequence codes

    The model of org.glite.lb.state-machine/src/seqcode_aux.c with the formats of
    org.glite.lb.common/interface/context-int.h: reading, changing and comparing the
    sequence codes of events, the order of events, and the list of user tags whose
    values are ordered by sequence codes. *)
From Stdlib Require Import ZArith Lia Ascii.
From stdpp Require Import base option list strings numbers.
From S2P Require Import Prelude CLib JobId LbTypes Events.
#[local] Open Scope Z_scope.

Definition EDG_WLL_SEQ_NULL : string :=
  "UI=000000:NS=0000000000:WM=000000:BH=0000000000:JSS=000000:LM=000000:LRMS=000000:APP=000000:LBS=000000".
Definition EDG_WLL_SEQ_PBS_NULL : string :=
  "CLIENT=000000:SERVER=0000000000:SCHED=000000:SMOM=000000:MOM=000000".
Definition EDG_WLL_SEQ_SIZE : nat := S (String.length EDG_WLL_SEQ_NULL).
Definition EDG_WLL_SEQ_PBS_SIZE : nat := S (String.length EDG_WLL_SEQ_PBS_NULL).
Definition EDG_WLL_SEQ_CONDOR_SIZE : nat := EDG_WLL_SEQ_PBS_SIZE.
Definition EDG_WLL_SEQ_FORMAT_PRINTF : string :=
  "UI=%06d:NS=%010d:WM=%06d:BH=%010d:JSS=%06d:LM=%06d:LRMS=%06d:APP=%06d:LBS=%06d".
Definition EDG_WLL_SEQ_FORMAT_SCANF : string :=
  "UI=%d:NS=%d:WM=%d:BH=%d:JSS=%d:LM=%d:LRMS=%d:APP=%d:LBS=%d".
Definition EDG_WLL_SEQ_FORMAT_NUMBER : nat := 9.
Definition EDG_WLL_SEQ_PBS_FORMAT_PRINTF : string :=
  "CLIENT=%06d:SERVER=%010d:SCHED=%06d:SMOM=%06d:MOM=%06d".
Definition EDG_WLL_SEQ_PBS_FORMAT_SCANF : string :=
  "CLIENT=%d:SERVER=%d:SCHED=%d:SMOM=%d:MOM=%d".
Definition EDG_WLL_SEQ_PBS_FORMAT_NUMBER : nat := 5.

(** ** Reading *)

(** The [unsigned int] values that a [sscanf] with ["%d"] conversions stores. *)
Definition sscanf_uints (s fmt : string) : list Z :=
  map (fun v => match v with SInt z => u32 z | _ => 0 end) (sscanf s fmt).

(** The buffer [sc]: codes of older versions get an LBS component. *)
Definition with_lbs (a : string) : string :=
  match strstr a "LBS" with
  | None => snprintf EDG_WLL_SEQ_SIZE "%s:LBS=000000" [PStr (Some a)]
  | Some _ => snprintf EDG_WLL_SEQ_SIZE "%s" [PStr (Some a)]
  end.

(** [c[EDG_WLL_SOURCE_USER_INTERFACE]], ..., [c[EDG_WLL_SOURCE_LB_SERVER]], unless
    the code is unparsable. *)
Definition parse_seq (a : string) : option (list Z) :=
  let c := sscanf_uints (with_lbs a) EDG_WLL_SEQ_FORMAT_SCANF in
  if Nat.eqb (List.length c) EDG_WLL_SEQ_FORMAT_NUMBER then Some c else None.

(** [c[index]]; the callers only ask for the nine components that are parsed. *)
Definition seq_component (c : list Z) (index : edg_wll_Source) : Z :=
  match source_index index with
  | O => 0
  | S i => default 0 (c !! i)
  end.

Definition component_seqcode (a : string) (index : edg_wll_Source) : Z :=
  match parse_seq a with
  | Some c => s32 (seq_component c index)
  | None => -1
  end.

(** The [unsigned int] arguments of ["%06d"] are printed as signed numbers. *)
Definition print_seq (c : list Z) : list parg := map (fun v => PInt (s32 v)) c.

Definition set_component_seqcode (a : string) (index : edg_wll_Source) (val : Z) :
    option string :=
  match parse_seq a with
  | Some c =>
    let c := match source_index index with O => c | S i => <[i := u32 val]> c end in
    Some (trio_asprintf EDG_WLL_SEQ_FORMAT_PRINTF (print_seq c))
  | None => None
  end.

Definition before_deep_resubmission (a b : string) : bool :=
  component_seqcode a EDG_WLL_SOURCE_WORKLOAD_MANAGER <?
  component_seqcode b EDG_WLL_SOURCE_WORKLOAD_MANAGER.

Definition same_branch (a b : string) : bool :=
  component_seqcode a EDG_WLL_SOURCE_WORKLOAD_MANAGER =?
  component_seqcode b EDG_WLL_SOURCE_WORKLOAD_MANAGER.

(** ** Comparing *)

(** [for (i...) { if (c[i] < d[i]) return -1; if (c[i] > d[i]) return 1; } return 0;] *)
Fixpoint compare_components (c d : list Z) : Z :=
  match c, d with
  | x :: c, y :: d =>
    if x <? y then -1 else if y <? x then 1 else compare_components c d
  | _, _ => 0
  end.

(** [edg_wll_compare_pbs_seq] also compares [c[5]] and [d[5]], which are never
    assigned: [stack a b] is what they happen to hold in the comparison of [a] and
    [b]. *)
Class Stack := stack : string → string → Z * Z.

Definition edg_wll_compare_pbs_seq `{Stack} (a b : string) : Z :=
  let c := sscanf_uints a EDG_WLL_SEQ_PBS_FORMAT_SCANF in
  if negb (Nat.eqb (List.length c) EDG_WLL_SEQ_PBS_FORMAT_NUMBER) then -1
  else
    let d := sscanf_uints b EDG_WLL_SEQ_PBS_FORMAT_SCANF in
    if negb (Nat.eqb (List.length d) EDG_WLL_SEQ_PBS_FORMAT_NUMBER) then -1
    else compare_components (c ++ [fst (stack a b)]) (d ++ [snd (stack a b)]).

Inductive edg_wll_CondorEventSource :=
| EDG_WLL_CONDOR_EVENT_SOURCE_UNDEF
| EDG_WLL_CONDOR_EVENT_SOURCE_COLLECTOR
| EDG_WLL_CONDOR_EVENT_SOURCE_MASTER
| EDG_WLL_CONDOR_EVENT_SOURCE_MATCH
| EDG_WLL_CONDOR_EVENT_SOURCE_NEGOTIATOR
| EDG_WLL_CONDOR_EVENT_SOURCE_SCHED
| EDG_WLL_CONDOR_EVENT_SOURCE_SHADOW
| EDG_WLL_CONDOR_EVENT_SOURCE_STARTER
| EDG_WLL_CONDOR_EVENT_SOURCE_START
| EDG_WLL_CONDOR_EVENT_SOURCE_JOBQUEUE.

(** [s[n]], the terminating NUL included. *)
Definition char_at (s : string) (n : nat) : outcome ascii :=
  match String.get n s with
  | Some c => Ret c
  | None => if Nat.eqb n (String.length s) then Ret Ascii.zero else UB OutOfBounds
  end.

Definition get_condor_event_source (condor_seq_num : string) :
    outcome edg_wll_CondorEventSource :=
  let! c := char_at condor_seq_num (EDG_WLL_SEQ_CONDOR_SIZE - 2) in
  Ret (match c with
       | "L" => EDG_WLL_CONDOR_EVENT_SOURCE_COLLECTOR
       | "M" => EDG_WLL_CONDOR_EVENT_SOURCE_MASTER
       | "m" => EDG_WLL_CONDOR_EVENT_SOURCE_MATCH
       | "N" => EDG_WLL_CONDOR_EVENT_SOURCE_NEGOTIATOR
       | "C" => EDG_WLL_CONDOR_EVENT_SOURCE_SCHED
       | "H" => EDG_WLL_CONDOR_EVENT_SOURCE_SHADOW
       | "s" => EDG_WLL_CONDOR_EVENT_SOURCE_STARTER
       | "S" => EDG_WLL_CONDOR_EVENT_SOURCE_START
       | "j" => EDG_WLL_CONDOR_EVENT_SOURCE_JOBQUEUE
       | _ => EDG_WLL_CONDOR_EVENT_SOURCE_UNDEF
       end%char).

(** [sscanf(a,"TIMESTAMP=%14s:POS=%10s:EV.CODE=%3d:SRC=%c",...)] stores the two
    strings and their NULs into [char timestamp[14], pos[10]]. *)
Definition CONDOR_SCANF : string := "TIMESTAMP=%14s:POS=%10s:EV.CODE=%3d:SRC=%c".
Definition fits_buffers (v : list sval) : bool :=
  match v with
  | SStr t :: SStr p :: _ => (String.length t <? 14)%nat && (String.length p <? 10)%nat
  | SStr t :: _ => (String.length t <? 14)%nat
  | _ => true
  end.
Definition scan_condor (a : string) : outcome (option (string * string * Z * ascii)) :=
  let v := sscanf a CONDOR_SCANF in
  if fits_buffers v then
    Ret (match v with
         | [SStr t; SStr p; SInt n; SChr c] => Some (t, p, n, c)
         | _ => None
         end)
  else UB OutOfBounds.

Definition EDG_WLL_EVENT_REGJOB : Z := 17.

Definition edg_wll_compare_condor_seq (a b : string) : outcome Z :=
  let! va := scan_condor a in
  match va with
  | None => Ret (-1)
  | Some (timestamp_a, pos_a, ev_code_a, src_a) =>
    let! vb := scan_condor b in
    match vb with
    | None => Ret (-1)
    | Some (timestamp_b, pos_b, ev_code_b, src_b) =>
      Ret (if ev_code_a =? EDG_WLL_EVENT_REGJOB then -1
           else if ev_code_b =? EDG_WLL_EVENT_REGJOB then 1
           else
             let res := strcmp timestamp_a timestamp_b in
             if negb (res =? 0) then res
             else if Ascii.eqb src_a src_b then strcmp pos_a pos_b
             else if Ascii.eqb src_a "m" then 1
             else if Ascii.eqb src_b "m" then -1
             else if Ascii.eqb src_a "s" then 1
             else if Ascii.eqb src_b "s" then -1
             else 0)
    end
  end.

Definition is_pbs_code (a : string) : bool :=
  match strstr a "SMOM=" with Some _ => true | None => false end.

Definition edg_wll_compare_seq `{Stack} (a b : string) : Z :=
  if is_pbs_code a && is_pbs_code b then edg_wll_compare_pbs_seq a b
  else
    match parse_seq a with
    | None => -1
    | Some c =>
      match parse_seq b with
      | None => 1
      | Some d => compare_components c d
      end
    end.

Definition compare_events_by_seq `{Stack} (e f : Event) : Z :=
  let ret := edg_wll_compare_seq e.(ev_seqcode) f.(ev_seqcode) in
  if negb (ret =? 0) then ret
  else
    let te := e.(ev_timestamp) in
    let tf := f.(ev_timestamp) in
    if te.(tv_sec) <? tf.(tv_sec) then -1
    else if tf.(tv_sec) <? te.(tv_sec) then 1
    else if te.(tv_usec) <? tf.(tv_usec) then -1
    else if tf.(tv_usec) <? te.(tv_usec) then 1
    else 0.

(** ** User tags *)

(** The position of a tag in a tag list, up to the case of letters. *)
Fixpoint find_tag (tags : list TagValue) (new_item : string) (i : nat) : option nat :=
  match tags with
  | [] => None
  | t :: tags => if strcasecmp_eq t.(tag) new_item then Some i else find_tag tags new_item (S i)
  end.

(** [js->tag_seq_codes[i] = strdup(seq_code); js->tag_seq_codes[i+1] = NULL;] after
    the [realloc], as the NULL terminated list it leaves behind. *)
Definition append_code (codes : option (list string)) (i : nat) (seq_code : string) :
    outcome (list string) :=
  match codes with
  | Some codes =>
    if Nat.leb i (List.length codes) then Ret (take i codes ++ [seq_code]) else Ret codes
  | None => if Nat.eqb i 0 then Ret [seq_code] else UB OutOfBounds
  end.

(** The return value is 1 as [realloc] does not fail. *)
Definition add_taglist `{Stack} (new_item new_item2 seq_code : string) (js : intJobStat) :
    outcome (Z * intJobStat) :=
  match js.(pub).(user_tags) with
  | None =>
    Ret (1, js <! user_tags := Some [mkTag new_item (Some new_item2)] !>
               <| tag_seq_codes := Some [seq_code] |>)
  | Some tags =>
    match find_tag tags new_item 0 with
    | Some i =>
      match js.(tag_seq_codes) with
      | None => UB NullDeref
      | Some codes =>
        match codes !! i, tags !! i with
        | Some code_i, Some tag_i =>
          if edg_wll_compare_seq seq_code code_i =? 1 then
            Ret (1, js <! user_tags :=
                         Some (<[i := mkTag tag_i.(tag) (Some new_item2)]> tags) !>
                       <| tag_seq_codes := Some (<[i := seq_code]> codes) |>)
          else Ret (1, js)
        | _, _ => UB OutOfBounds
        end
      end
    | None =>
      let i := List.length tags in
      let! codes := append_code js.(tag_seq_codes) i seq_code in
      Ret (1, js <! user_tags := Some (tags ++ [mkTag new_item (Some new_item2)]) !>
                 <| tag_seq_codes := Some codes |>)
    end
  end.

(** ** Lemmas: the text of a code *)

(** The codes that fit their fields: nine components, each within the width of its
    conversion. *)
Definition seq_widths : list nat := [6; 10; 6; 10; 6; 6; 6; 6; 6]%nat.
Definition fits_width (v : Z) (w : nat) : Prop := 0 ≤ v < 10 ^ Z.of_nat w ∧ is_int v.
Definition wf_components (c : list Z) : Prop := Forall2 fits_width c seq_widths.

Definition seq_text (c : list Z) : string :=
  asprintf EDG_WLL_SEQ_FORMAT_PRINTF (print_seq c).

#[export] Instance fits_width_dec v w : Decision (fits_width v w).
Proof. unfold fits_width. apply _. Defined.
#[export] Instance wf_components_dec c : Decision (wf_components c).
Proof. unfold wf_components. apply _. Defined.

Lemma trio_asprintf_seq c : trio_asprintf EDG_WLL_SEQ_FORMAT_PRINTF (print_seq c) = seq_text c.
Proof.
  unfold seq_text, trio_asprintf, asprintf, printf.
  change trio_null with glibc_null. reflexivity.
Qed.

Lemma wf_components_9 c :
  wf_components c → ∃ a1 a2 a3 a4 a5 a6 a7 a8 a9, c = [a1; a2; a3; a4; a5; a6; a7; a8; a9].
Proof.
  intros H. do 9 (inversion H as [|? ? ? ? _ H']; subst; clear H; rename H' into H).
  inversion H; subst. eauto 12.
Qed.

Lemma scan_seq_text a1 a2 a3 a4 a5 a6 a7 a8 a9 :
  sscanf (seq_text [a1; a2; a3; a4; a5; a6; a7; a8; a9]) EDG_WLL_SEQ_FORMAT_SCANF =
  map (fun v => SInt (s32 v)) [a1; a2; a3; a4; a5; a6; a7; a8; a9].
Proof.
  unfold seq_text, sscanf, print_seq. printf_simpl. cbn [map]. norm_fmt.
  printf_simpl.
  repeat first
    [ rewrite sscanf_items_d by (done || apply s32_is_int) | rewrite sscanf_items_lit ].
  done.
Qed.

Lemma seq_text_length c : wf_components c → String.length (seq_text c) = String.length EDG_WLL_SEQ_NULL.
Proof.
  intros H. pose proof H as H'. apply wf_components_9 in H' as (?&?&?&?&?&?&?&?&?&->).
  unfold wf_components, seq_widths in H.
  repeat match goal with
  | H : Forall2 _ (_ :: _) (_ :: _) |- _ =>
    apply Forall2_cons_1 in H; destruct H as [[? ?] H]
  end.
  unfold seq_text, print_seq. printf_simpl. cbn [map]. printf_simpl.
  repeat (cbn [String.length]; rewrite ?length_app_str).
  rewrite !s32_id by done. rewrite !length_fmt_d_zero by (assumption || lia). done.
Qed.

Lemma seq_text_lbs c : wf_components c → is_Some (strstr (seq_text c) "LBS").
Proof.
  intros H. apply wf_components_9 in H as (a1&a2&a3&a4&a5&a6&a7&a8&a9&->).
  unfold seq_text, print_seq. printf_simpl. cbn [map]. printf_simpl.
  match goal with |- is_Some (strstr ?t _) =>
    assert (∃ p q, t = p +:+ "LBS" +:+ q) as (p & q & ->) end.
  { repeat match goal with
    | |- ∃ p q, String "L" (String "B" (String "S" ?r)) = _ => exists ""%string, r; reflexivity
    | |- ∃ p q, String ?c ?r = _ =>
      cut (∃ p q, r = p +:+ "LBS" +:+ q);
        [intros (p & q & ->); exists (String c p), q; reflexivity |]
    | |- ∃ p q, ?s +:+ ?r = _ =>
      cut (∃ p q, r = p +:+ "LBS" +:+ q);
        [intros (p & q & ->); exists (s +:+ p), q; by rewrite !app_assoc_str |]
    end. }
  apply strstr_app_some.
Qed.

Lemma with_lbs_text c : wf_components c → with_lbs (seq_text c) = seq_text c.
Proof.
  intros H. unfold with_lbs. destruct (seq_text_lbs c H) as [? ->].
  unfold snprintf. printf_simpl. rewrite app_nil_r_str. apply str_take_all.
  rewrite seq_text_length by done. vm_compute. lia.
Qed.

Lemma wf_components_u32 c : wf_components c → map (fun v => u32 (s32 v)) c = c.
Proof.
  unfold wf_components. generalize seq_widths. intros ws H.
  induction H as [|v w c ws [Hv Hi] _ IH]; simpl; [done |].
  rewrite IH, u32_s32, u32_id; [done |]. unfold_int. lia.
Qed.

(** Reading a printed code gives its components back. *)
Lemma sscanf_uints_text c :
  wf_components c → sscanf_uints (seq_text c) EDG_WLL_SEQ_FORMAT_SCANF = c.
Proof.
  intros H. pose proof H as H'. apply wf_components_9 in H' as (?&?&?&?&?&?&?&?&?&->).
  unfold sscanf_uints. rewrite scan_seq_text, map_map. by apply wf_components_u32 in H.
Qed.

Lemma parse_seq_text c : wf_components c → parse_seq (seq_text c) = Some c.
Proof.
  intros H. unfold parse_seq. rewrite with_lbs_text, sscanf_uints_text by done.
  by rewrite (Forall2_length H).
Qed.

Lemma parse_seq_length a c : parse_seq a = Some c → List.length c = 9%nat.
Proof.
  unfold parse_seq. destruct (Nat.eqb _ _) eqn:E; [| done]. intros [= <-].
  by apply Nat.eqb_eq in E.
Qed.

Lemma parse_seq_uint a c : parse_seq a = Some c → Forall is_uint c.
Proof.
  unfold parse_seq. destruct (Nat.eqb _ _); [| done]. intros [= <-].
  apply Forall_map, list.Forall_forall. intros [z| |] _; simpl; [apply u32_is_uint | by unfold_int ..].
Qed.

(** ** Lemmas: the lexicographic order *)
Lemma compare_components_refl c : compare_components c c = 0.
Proof. induction c as [|x c IH]; simpl; [done |]. by rewrite Z.ltb_irrefl. Qed.

Lemma compare_components_antisym c d : compare_components d c = - compare_components c d.
Proof.
  revert d. induction c as [|x c IH]; intros [|y d]; simpl; try done.
  destruct (Z.ltb_spec x y), (Z.ltb_spec y x); try done; lia.
Qed.

Lemma compare_components_trans c d e :
  List.length c = List.length d → List.length d = List.length e →
  compare_components c d ≤ 0 → compare_components d e ≤ 0 →
  compare_components c e ≤ 0 ∧
  (compare_components c e = 0 → compare_components c d = 0 ∧ compare_components d e = 0).
Proof.
  revert d e. induction c as [|x c IH]; intros [|y d] [|z e]; simpl; try done.
  intros [= H1] [= H2]. specialize (IH d e H1 H2). revert IH.
  destruct (Z.ltb_spec x y), (Z.ltb_spec y x), (Z.ltb_spec y z), (Z.ltb_spec z y),
    (Z.ltb_spec x z), (Z.ltb_spec z x); intros IH Hc Hd; try lia; tauto || (split; [lia |]; lia).
Qed.

Lemma compare_components_eq c d :
  List.length c = List.length d → compare_components c d = 0 → c = d.
Proof.
  revert d. induction c as [|x c IH]; intros [|y d]; simpl; try done.
  intros [= H]. destruct (Z.ltb_spec x y), (Z.ltb_spec y x); try done.
  intros E. f_equal; [lia | auto].
Qed.

Lemma compare_components_range c d :
  compare_components c d = -1 ∨ compare_components c d = 0 ∨ compare_components c d = 1.
Proof.
  revert d. induction c as [|x c IH]; intros [|y d]; simpl; auto.
  destruct (x <? y); auto. destruct (y <? x); auto.
Qed.

(** Increasing a component makes a code newer. *)
Lemma compare_components_incr c i v w :
  c !! i = Some v → v < w → compare_components (<[i := w]> c) c = 1.
Proof.
  revert i. induction c as [|x c IH]; intros [|i]; simpl; try done.
  - intros [= ->] H. destruct (Z.ltb_spec w v); [lia |].
    destruct (Z.ltb_spec v w); [done | lia].
  - intros. rewrite Z.ltb_irrefl. eauto.
Qed.

(** ** The order of sequence codes *)
Definition seq_ok (a : string) : bool :=
  match parse_seq a with Some _ => negb (is_pbs_code a) | None => false end.

Lemma compare_seq_ok `{Stack} a b :
  seq_ok a = true → seq_ok b = true →
  ∃ c d, parse_seq a = Some c ∧ parse_seq b = Some d ∧ List.length c = List.length d ∧
    edg_wll_compare_seq a b = compare_components c d.
Proof.
  unfold seq_ok, edg_wll_compare_seq.
  destruct (parse_seq a) as [c|] eqn:Ea; [| done]. destruct (parse_seq b) as [d|] eqn:Eb; [| done].
  intros Ha%negb_true_iff Hb. rewrite Ha. simpl. exists c, d.
  apply parse_seq_length in Ea, Eb. rewrite Ea, Eb. auto.
Qed.

Lemma compare_seq_range `{Stack} a b :
  edg_wll_compare_seq a b = -1 ∨ edg_wll_compare_seq a b = 0 ∨ edg_wll_compare_seq a b = 1.
Proof.
  unfold edg_wll_compare_seq, edg_wll_compare_pbs_seq.
  repeat case_goal; auto using compare_components_range.
Qed.

(** on the sequence codes of the grid components, comparing is antisymmetric up to
    equal components: swapping the arguments negates the result, and the result is 0
    exactly if all nine components agree, however the codes are written. *)
Theorem compare_seq_antisym `{Stack} a b :
  seq_ok a = true → seq_ok b = true →
  edg_wll_compare_seq b a = - edg_wll_compare_seq a b ∧
  (edg_wll_compare_seq a b = 0 ↔ parse_seq a = parse_seq b).
Proof.
  intros Ha Hb. destruct (compare_seq_ok a b Ha Hb) as (c & d & Ec & Ed & Hl & ->).
  destruct (compare_seq_ok b a Hb Ha) as (d' & c' & Ed' & Ec' & _ & ->).
  rewrite Ec in *. rewrite Ed in *. simplify_eq. split; [apply compare_components_antisym |].
  split; [| intros [= ->]; apply compare_components_refl].
  intros E. f_equal. by apply compare_components_eq.
Qed.

(** comparing sequence codes is transitive: a code that is not newer than a second
    one is not newer than any code that the second one is not newer than, and it equals
    the third one only if all three are equal. *)
Theorem compare_seq_trans `{Stack} a b c :
  seq_ok a = true → seq_ok b = true → seq_ok c = true →
  edg_wll_compare_seq a b ≤ 0 → edg_wll_compare_seq b c ≤ 0 →
  edg_wll_compare_seq a c ≤ 0 ∧
  (edg_wll_compare_seq a c = 0 → edg_wll_compare_seq a b = 0 ∧ edg_wll_compare_seq b c = 0).
Proof.
  intros Ha Hb Hc.
  destruct (compare_seq_ok a b Ha Hb) as (x & y & Ex & Ey & ? & ->).
  destruct (compare_seq_ok b c Hb Hc) as (y' & z & Ey' & Ez & ? & ->).
  destruct (compare_seq_ok a c Ha Hc) as (x' & z' & Ex' & Ez' & ? & ->).
  simplify_eq. by apply compare_components_trans.
Qed.

(** the comparison function that the events of a job are sorted with is a total
    preorder on events with parsable grid sequence codes, as [qsort] requires: it is
    antisymmetric in sign and its "not after" relation is transitive; time stamps break
    the ties between equal sequence codes. *)
Theorem compare_events_preorder `{Stack} e f g :
  seq_ok e.(ev_seqcode) = true → seq_ok f.(ev_seqcode) = true → seq_ok g.(ev_seqcode) = true →
  compare_events_by_seq f e = - compare_events_by_seq e f ∧
  (compare_events_by_seq e f ≤ 0 → compare_events_by_seq f g ≤ 0 →
   compare_events_by_seq e g ≤ 0).
Proof.
  intros He Hf Hg.
  destruct (compare_seq_ok _ _ He Hf) as (x & y & Ex & Ey & ? & Hcmp1).
  destruct (compare_seq_ok _ _ Hf Hg) as (y' & z & Ey' & Ez & ? & Hcmp2).
  destruct (compare_seq_ok _ _ He Hg) as (x' & z' & Ex' & Ez' & ? & Hcmp3).
  destruct (compare_seq_ok _ _ Hf He) as (y'' & x'' & Ey'' & Ex'' & _ & Hcmp4).
  simplify_eq. unfold compare_events_by_seq.
  rewrite Hcmp1, Hcmp2, Hcmp3, Hcmp4, (compare_components_antisym x y).
  pose proof (compare_components_trans x y z) as Htr.
  pose proof (compare_components_range x y) as Hu.
  pose proof (compare_components_range y z) as Hv.
  pose proof (compare_components_range x z) as Hw.
  clear Hcmp1 Hcmp2 Hcmp3 Hcmp4.
  set (u := compare_components x y) in *. set (v := compare_components y z) in *.
  set (w := compare_components x z) in *. clearbody u v w.
  destruct e as [[es eu]], f as [[fs fu]], g as [[gs gu]]; simpl in *.
  split.
  - destruct (Z.eqb_spec u 0), (Z.eqb_spec (-u) 0); simpl; try lia.
    repeat case_goal; zbool; lia.
  - destruct (Z.eqb_spec u 0), (Z.eqb_spec v 0), (Z.eqb_spec w 0); simpl; try lia;
      repeat case_goal; zbool; lia.
Qed.

(** ** Changing a component *)
Lemma seq_ok_text c : wf_components c → seq_ok (seq_text c) = true.
Proof.
  intros H. unfold seq_ok. rewrite parse_seq_text by done.
  unfold is_pbs_code.
  apply wf_components_9 in H as (?&?&?&?&?&?&?&?&?&->).
  unfold seq_text, print_seq. printf_simpl. cbn [map]. printf_simpl.
  rewrite (strstr_none _ _ "O"%char); [done | | done].
  repeat (cbn [str_forall String.append]; rewrite ?str_forall_app, ?andb_true_iff;
    rewrite ?fmt_d_other by done); done.
Qed.

(** The position of a component among the nine that a code prints. *)
Definition seq_pos (index : edg_wll_Source) : option nat :=
  match source_index index with
  | O => None
  | S i => if Nat.ltb i EDG_WLL_SEQ_FORMAT_NUMBER then Some i else None
  end.
Definition seq_width (index : edg_wll_Source) : nat :=
  match seq_pos index with Some i => default O (seq_widths !! i) | None => O end.

Lemma seq_pos_inv index i :
  seq_pos index = Some i → source_index index = S i ∧ (i < 9)%nat ∧ is_Some (seq_widths !! i).
Proof.
  intros H. destruct index; vm_compute in H; simplify_eq;
    (split; [done | split; [lia | vm_compute; eauto]]).
Qed.

Lemma wf_components_insert c i v w :
  wf_components c → seq_widths !! i = Some w → fits_width v w → wf_components (<[i := v]> c).
Proof.
  unfold wf_components. generalize seq_widths. intros ws H. revert i.
  induction H as [|x y c ws Hx H IH]; intros [|i]; simpl; intros; simplify_eq;
    constructor; auto.
Qed.

Lemma seq_component_text c index i v :
  wf_components c → seq_pos index = Some i → c !! i = Some v →
  component_seqcode (seq_text c) index = v.
Proof.
  intros Hc Hi Hv. unfold component_seqcode. rewrite parse_seq_text by done.
  unfold seq_component. apply seq_pos_inv in Hi as (-> & _ & w & Hw). rewrite Hv. simpl.
  assert (fits_width v w) as [_ ?] by exact (Forall2_lookup_lr _ _ _ _ _ _ Hc Hv Hw).
  by apply s32_id.
Qed.

(** The parsed code, component by component. *)
Lemma set_component_text c index i v :
  wf_components c → seq_pos index = Some i → fits_width v (seq_width index) →
  set_component_seqcode (seq_text c) index v = Some (seq_text (<[i := v]> c)) ∧
  wf_components (<[i := v]> c).
Proof.
  intros Hc Hi Hv. unfold set_component_seqcode. rewrite parse_seq_text by done.
  unfold seq_width in Hv. rewrite Hi in Hv.
  apply seq_pos_inv in Hi as (-> & _ & w & Hw). rewrite Hw in Hv. simpl in Hv.
  rewrite u32_id by (destruct Hv as [? ?]; unfold_int; lia).
  rewrite trio_asprintf_seq. split; [done |]. by eapply wf_components_insert.
Qed.

(** setting a component of a sequence code changes that component and no other: if
    the components fit their fields and the new value fits its field,
    [set_component_seqcode] returns a code from which [component_seqcode] reads the new
    value at the changed component and the old value at every other one. *)
Theorem set_component_get c index index' v :
  wf_components c → is_Some (seq_pos index) → is_Some (seq_pos index') →
  fits_width v (seq_width index) →
  (s ← set_component_seqcode (seq_text c) index v; Some (component_seqcode s index')) =
  Some (if decide (index = index') then v else component_seqcode (seq_text c) index').
Proof.
  intros Hc [i Hi] [i' Hi'] Hv.
  destruct (set_component_text c index i v Hc Hi Hv) as [-> Hwf]. simpl. f_equal.
  pose proof (Forall2_length Hc) as Hl. change (List.length seq_widths) with 9%nat in Hl.
  pose proof (seq_pos_inv _ _ Hi') as (Hs' & Hlt' & _).
  pose proof (seq_pos_inv _ _ Hi) as (Hs & Hlt & _).
  assert (i = i' ↔ index = index') as Heq.
  { split; [intros -> | intros ->; congruence].
    clear -Hs Hs'. destruct index, index'; simpl in *; congruence. }
  destruct (decide (index = index')) as [E|E].
  - apply seq_component_text with i'; [done .. |]. apply Heq in E. subst i'.
    rewrite list_lookup_insert_eq; [done | lia].
  - assert (i ≠ i') as Hne by tauto.
    destruct (lookup_lt_is_Some_2 c i') as [x Hx]; [lia |].
    rewrite (seq_component_text c index' i' x) by done.
    apply seq_component_text with i'; [done .. |]. by rewrite list_lookup_insert_ne.
Qed.

(** ** User tags *)

(** The two arrays run in parallel and no tag occurs twice. *)
Definition tag_names (tags : list TagValue) : list string :=
  map (fun t => str_map tolower t.(tag)) tags.
Definition wf_taglist (js : intJobStat) : Prop :=
  match js.(pub).(user_tags), js.(tag_seq_codes) with
  | None, None => True
  | Some tags, Some codes =>
    List.length codes = List.length tags ∧ NoDup (tag_names tags)
  | _, _ => False
  end.

Lemma find_tag_spec tags n k :
  match find_tag tags n k with
  | Some i => ∃ j, i = (k + j)%nat ∧ tag_names tags !! j = Some (str_map tolower n)
  | None => str_map tolower n ∉ tag_names tags
  end.
Proof.
  revert k. induction tags as [|t tags IH]; intros k; simpl; [apply not_elem_of_nil |].
  unfold strcasecmp_eq. destruct (String.eqb_spec (str_map tolower (tag t)) (str_map tolower n)) as [e|].
  - exists O. split; [lia |]. simpl. by rewrite e.
  - specialize (IH (S k)). destruct (find_tag tags n (S k)) as [i|].
    + destruct IH as (j & -> & Hj). exists (S j). split; [lia | done].
    + rewrite not_elem_of_cons. auto.
Qed.

Lemma tag_names_insert tags i t t' :
  tags !! i = Some t → t'.(tag) = t.(tag) → tag_names (<[i := t']> tags) = tag_names tags.
Proof.
  intros Hi Ht. unfold tag_names. revert i Hi. induction tags as [|x tags IH]; intros [|i] Hi; simplify_eq/=.
  - by rewrite Ht.
  - f_equal. by eapply IH.
Qed.

(** The value of a tag and the code it was set with. *)
Definition entry_of (tags : list TagValue) (codes : list string) (name : string) :
    option (option string * string) :=
  i ← find_tag tags name 0; t ← tags !! i; c ← codes !! i; Some (t.(value), c).
Definition tag_entry (js : intJobStat) (name : string) : option (option string * string) :=
  match js.(pub).(user_tags), js.(tag_seq_codes) with
  | Some tags, Some codes => entry_of tags codes name
  | _, _ => None
  end.

Lemma find_tag_lookup tags n i :
  find_tag tags n 0 = Some i → is_Some (tags !! i).
Proof.
  intros E. pose proof (find_tag_spec tags n 0) as H. rewrite E in H.
  destruct H as (j & -> & Hj). apply lookup_lt_Some in Hj. unfold tag_names in Hj.
  rewrite length_map in Hj. by apply lookup_lt_is_Some_2.
Qed.

Lemma find_tag_names tags tags' n k :
  tag_names tags = tag_names tags' → find_tag tags n k = find_tag tags' n k.
Proof.
  revert tags' k. induction tags as [|t tags IH]; intros [|t' tags'] k; simpl; try done.
  intros [= H1 H2]. unfold strcasecmp_eq. rewrite H1. destruct (String.eqb _ _); auto.
Qed.

Lemma find_tag_case tags m n k :
  str_map tolower m = str_map tolower n → find_tag tags m k = find_tag tags n k.
Proof.
  intros E. revert k. induction tags as [|t tags IH]; intros k; simpl; [done |].
  unfold strcasecmp_eq. rewrite E. by destruct (String.eqb _ _).
Qed.

Lemma find_tag_app tags t n k :
  find_tag (tags ++ [t]) n k =
  match find_tag tags n k with
  | Some i => Some i
  | None => if strcasecmp_eq t.(tag) n then Some (k + List.length tags)%nat else None
  end.
Proof.
  revert k. induction tags as [|x tags IH]; intros k; simpl.
  - by rewrite Nat.add_0_r.
  - destruct (strcasecmp_eq (tag x) n); [done |]. rewrite IH.
    destruct (find_tag tags n (S k)); [done |].
    destruct (strcasecmp_eq _ _); [f_equal; lia | done].
Qed.

Lemma find_tag_distinct tags n m i j :
  find_tag tags n 0 = Some i → find_tag tags m 0 = Some j →
  str_map tolower m ≠ str_map tolower n → i ≠ j.
Proof.
  intros En Em Hm ->. pose proof (find_tag_spec tags n 0) as H1. rewrite En in H1.
  pose proof (find_tag_spec tags m 0) as H2. rewrite Em in H2.
  destruct H1 as (? & E1 & H1), H2 as (? & E2 & H2). simpl in *. congruence.
Qed.

(** The two ways in which the arrays change. *)
Lemma entry_update tags codes n i t v s :
  find_tag tags n 0 = Some i → tags !! i = Some t → List.length codes = List.length tags →
  let tags' := <[i := mkTag t.(tag) v]> tags in
  tag_names tags' = tag_names tags ∧
  entry_of tags' (<[i := s]> codes) n = Some (v, s) ∧
  ∀ m, str_map tolower m ≠ str_map tolower n →
    entry_of tags' (<[i := s]> codes) m = entry_of tags codes m.
Proof.
  intros Ef Ht Hl tags'. pose proof (lookup_lt_Some _ _ _ Ht).
  assert (tag_names tags' = tag_names tags) as Hn by (by eapply tag_names_insert).
  split; [done |]. unfold entry_of, tags'. split.
  - rewrite (find_tag_names _ _ _ _ Hn), Ef. simpl.
    by rewrite !list_lookup_insert_eq by lia.
  - intros m Hm. rewrite (find_tag_names _ _ _ _ Hn).
    destruct (find_tag tags m 0) as [j|] eqn:Em; [| done]. simpl.
    pose proof (find_tag_distinct _ _ _ _ _ Ef Em Hm). by rewrite !list_lookup_insert_ne.
Qed.

Lemma entry_append tags codes n v s :
  find_tag tags n 0 = None → List.length codes = List.length tags →
  NoDup (tag_names tags) →
  let tags' := tags ++ [mkTag n v] in
  NoDup (tag_names tags') ∧
  entry_of tags' (codes ++ [s]) n = Some (v, s) ∧
  ∀ m, str_map tolower m ≠ str_map tolower n →
    entry_of tags' (codes ++ [s]) m = entry_of tags codes m.
Proof.
  intros Ef Hl Hnd tags'. unfold entry_of, tags'.
  pose proof (find_tag_spec tags n 0) as Hn. rewrite Ef in Hn. split; [| split].
  - unfold tag_names. rewrite map_app. apply list.NoDup_app.
    split; [done |]. split; [| apply NoDup_singleton].
    intros x Hx Hx'%list_elem_of_singleton. by subst x.
  - rewrite find_tag_app, Ef. unfold strcasecmp_eq. simpl. rewrite String.eqb_refl. simpl.
    by rewrite !list_lookup_middle by lia.
  - intros m Hm. rewrite find_tag_app.
    destruct (find_tag tags m 0) as [j|] eqn:Em; simpl.
    + destruct (find_tag_lookup _ _ _ Em) as [t Ht]. pose proof (lookup_lt_Some _ _ _ Ht).
      by rewrite !lookup_app_l by lia.
    + unfold strcasecmp_eq. simpl.
      destruct (String.eqb_spec (str_map tolower n) (str_map tolower m)); [congruence | done].
Qed.

(** One step: what [add_taglist] does to the entry of its own tag and to the others. *)
Lemma add_taglist_entry `{Stack} n v s js :
  wf_taglist js →
  ∃ js', add_taglist n v s js = Ret (1, js') ∧ wf_taglist js' ∧
    tag_entry js' n =
      (match tag_entry js n with
       | Some (v0, s0) =>
         if edg_wll_compare_seq s s0 =? 1 then Some (Some v, s) else Some (v0, s0)
       | None => Some (Some v, s)
       end) ∧
    (∀ m, str_map tolower m ≠ str_map tolower n → tag_entry js' m = tag_entry js m).
Proof.
  unfold wf_taglist, add_taglist, tag_entry.
  destruct (user_tags (pub js)) as [tags|] eqn:Et, (tag_seq_codes js) as [codes|] eqn:Ec;
    try done.
  - intros [Hl Hnd]. destruct (find_tag tags n 0) as [i|] eqn:Ef.
    + destruct (find_tag_lookup _ _ _ Ef) as [t Ht]. rewrite Ht.
      destruct (lookup_lt_is_Some_2 codes i) as [c Hc].
      { rewrite Hl. by eapply lookup_lt_Some. }
      assert (entry_of tags codes n = Some (t.(value), c)) as ->
        by (unfold entry_of; rewrite Ef; simpl; by rewrite Ht, Hc).
      destruct (entry_update tags codes n i t (Some v) s) as (Hn & He & Hm); [done .. |].
      rewrite Hc. simpl.
      destruct (edg_wll_compare_seq s c =? 1); eexists; (split; [done |]); simpl;
        rewrite ?Et, ?Ec, ?Hn, ?length_insert; auto.
      split; [done |]. split; [| done]. unfold entry_of. rewrite Ef. simpl. by rewrite Ht, Hc.
    + destruct (entry_append tags codes n (Some v) s) as (Hn & He & Hm); [done .. |].
      unfold append_code. rewrite Hl, Nat.leb_refl, <-Hl, take_ge by done. simpl.
      eexists. split; [done |]. simpl. rewrite !length_app. simpl. split; [split; [lia | done] |].
      split; [| done]. rewrite He. unfold entry_of. by rewrite Ef.
  - intros _. destruct (entry_append [] [] n (Some v) s) as (Hn & He & Hm);
      [done | done | apply NoDup_nil_2 |].
    eexists. split; [done |]. simpl. auto.
Qed.

(** The tags of a sequence of UserTag events, each with name, value and code. *)
Fixpoint add_tags `{Stack} (l : list (string * string * string)) (js : intJobStat) :
    outcome intJobStat :=
  match l with
  | [] => Ret js
  | (name, value, seq_code) :: l =>
    let! r := add_taglist name value seq_code js in add_tags l (snd r)
  end.

Lemma add_tags_app `{Stack} l l' js :
  add_tags (l ++ l') js = obind (add_tags l js) (add_tags l').
Proof.
  revert js. induction l as [|[[n v] s] l IH]; intros js; simpl; [done |].
  rewrite obind_assoc. destruct (add_taglist n v s js); simpl; auto.
Qed.

(** The entry [e] of tag [n] is the newest one of [l]. *)
Definition newest `{Stack} (l : list (string * string * string)) (n : string)
    (e : option (option string * string)) : Prop :=
  match e with
  | None => ∀ x, x ∈ l → str_map tolower x.1.1 ≠ str_map tolower n
  | Some (v, s) =>
    (∃ n' v', v = Some v' ∧ (n', v', s) ∈ l ∧ str_map tolower n' = str_map tolower n) ∧
    (∀ x, x ∈ l → str_map tolower x.1.1 = str_map tolower n →
          edg_wll_compare_seq x.2 s ≤ 0)
  end.

Lemma newest_snoc_other `{Stack} l n e x :
  newest l n e → str_map tolower n ≠ str_map tolower x.1.1 → newest (l ++ [x]) n e.
Proof.
  intros Hl Hx. destruct e as [[v s]|]; simpl in *.
  - destruct Hl as [(n' & v' & -> & Hin & Hn) Hmax]. split.
    + exists n', v'. rewrite elem_of_app. auto.
    + intros y [Hy| ->%list_elem_of_singleton]%elem_of_app Hyn; [auto | congruence].
  - intros y [Hy| ->%list_elem_of_singleton]%elem_of_app; [auto | congruence].
Qed.

Lemma compare_seq_refl_ok `{Stack} s : seq_ok s = true → edg_wll_compare_seq s s = 0.
Proof. intros Hs. by apply (compare_seq_antisym s s Hs Hs). Qed.

Lemma newest_snoc_same `{Stack} l x e :
  Forall (fun y => seq_ok y.2 = true) (l ++ [x]) → newest l x.1.1 e →
  newest (l ++ [x]) x.1.1
    (match e with
     | Some (v0, s0) =>
       if edg_wll_compare_seq x.2 s0 =? 1 then Some (Some x.1.2, x.2) else Some (v0, s0)
     | None => Some (Some x.1.2, x.2)
     end).
Proof.
  intros Hok Hl. pose proof Hok as [Hokl Hokx]%Forall_app. rewrite Forall_singleton in Hokx.
  assert ((x.1.1, x.1.2, x.2) ∈ l ++ [x]) as Hin.
  { apply elem_of_app. right. destruct x as [[??]?]. by apply list_elem_of_singleton. }
  destruct e as [[v0 s0]|]; simpl in Hl.
  - destruct Hl as [(n' & v' & -> & Hin0 & Hn) Hmax].
    assert (seq_ok s0 = true) as Hs0 by exact (proj1 (list.Forall_forall _ _) Hokl _ Hin0).
    destruct (Z.eqb_spec (edg_wll_compare_seq x.2 s0) 1) as [E|E]; simpl.
    + split; [eauto 10 |].
      intros y [Hy| ->%list_elem_of_singleton]%elem_of_app Hyn;
        [| rewrite compare_seq_refl_ok; done].
      assert (seq_ok y.2 = true) by exact (proj1 (list.Forall_forall _ _) Hokl _ Hy).
      apply (compare_seq_trans y.2 s0 x.2); auto.
      rewrite (proj1 (compare_seq_antisym x.2 s0 Hokx Hs0)). lia.
    + split; [exists n', v'; rewrite elem_of_app; auto |].
      intros y [Hy| ->%list_elem_of_singleton]%elem_of_app Hyn; [auto |].
      destruct (compare_seq_range x.2 s0) as [?|[?|?]]; lia.
  - split; [eauto 10 |].
    intros y [Hy| ->%list_elem_of_singleton]%elem_of_app Hyn; [by destruct (Hl y Hy) |].
    rewrite compare_seq_refl_ok; done.
Qed.

Definition no_tags (js : intJobStat) : Prop :=
  js.(pub).(user_tags) = None ∧ js.(tag_seq_codes) = None.

(** however the UserTag events of a job arrive, the tag list stays well formed (values
    and codes in parallel, one entry per tag up to the case of letters) and the value of
    each tag is one that was logged with a maximal sequence code: no event of the same
    tag is newer.  Nothing is read outside of the arrays. *)
Theorem user_tags_newest `{Stack} l js :
  no_tags js → Forall (fun x => seq_ok x.2 = true) l →
  ∃ js', add_tags l js = Ret js' ∧ wf_taglist js' ∧ ∀ n, newest l n (tag_entry js' n).
Proof.
  intros [Hu Hc] Hok. induction l as [|x l IH] using rev_ind.
  - exists js. split; [done |]. unfold wf_taglist, tag_entry. rewrite Hu, Hc. split; [done |].
    intros n y Hy. by apply not_elem_of_nil in Hy.
  - pose proof Hok as [Hokl _]%Forall_app. destruct (IH Hokl) as (js1 & E & Hwf & Hn).
    rewrite add_tags_app, E. simpl. destruct x as [[n v] s].
    destruct (add_taglist_entry n v s js1 Hwf) as (js2 & -> & Hwf2 & He & Ho). simpl.
    exists js2. split; [done |]. split; [done |]. intros m.
    destruct (decide (str_map tolower m = str_map tolower n)) as [Em|Em].
    + assert (tag_entry js2 m = tag_entry js2 n) as ->.
      { unfold tag_entry, entry_of. destruct (user_tags (pub js2)), (tag_seq_codes js2); try done.
        by rewrite (find_tag_case _ m n). }
      rewrite He. pose proof (newest_snoc_same l (n, v, s) _ Hok (Hn n)) as Hnew.
      simpl in Hnew. revert Hnew. unfold newest. by rewrite Em.
    + rewrite (Ho m Em). by apply newest_snoc_other.
Qed.

(** ** Where the comparison goes wrong *)
Definition PBS_CODE : string := EDG_WLL_SEQ_PBS_NULL.
Definition CONDOR_CODE : string := "TIMESTAMP=20100101120000:POS=0000000000:EV.CODE=002:SRC=s".

(** comparing a PBS code with itself has no defined result: the loop of
    [edg_wll_compare_pbs_seq] runs one step too far, over array elements that were never
    assigned, and depending on them the same code is older than, equal to or newer than
    itself. *)
Theorem compare_pbs_indeterminate :
  Forall (fun r => ∃ st : Stack, edg_wll_compare_seq PBS_CODE PBS_CODE = r) [-1; 0; 1].
Proof.
  repeat apply Forall_cons_2; [| | | apply Forall_nil_2].
  - by exists (fun _ _ => (0, 1)).
  - by exists (fun _ _ => (0, 0)).
  - by exists (fun _ _ => (1, 0)).
Qed.

(** on Condor codes with the full 14 digit time stamp that its format expects, [edg_wll_compare_condor_seq] writes
    behind its 14 byte time stamp buffer and [get_condor_event_source] reads behind the
    end of the code. *)
Theorem condor_code_out_of_bounds :
  edg_wll_compare_condor_seq CONDOR_CODE CONDOR_CODE = UB OutOfBounds ∧
  get_condor_event_source CONDOR_CODE = UB OutOfBounds.
Proof. vm_compute. auto. Qed.

(** ["%14s"] does not stop at a colon: what follows a shorter token is white space or
    the end of the code, and never the [":POS="] of the format. *)
Lemma scan_condor_short a r : scan_condor a = Ret r → r = None.
Proof.
  unfold scan_condor, sscanf, CONDOR_SCANF. norm_fmt.
  match goal with |- context [FConv false 14 ?c :: FLit ?d :: ?l] =>
    generalize l; intros items end.
  do 10 (cbn [sscanf_items]; destruct a as [|? a];
    [by intros [= <-] | destruct (Ascii.eqb _ _); [| by intros [= <-]]]).
  cbn [sscanf_items]. unfold scan_str_width, fits_buffers.
  set (s := skip_space a). clearbody s. clear a. destruct (str_span isspace s) as [u v] eqn:E.
  apply str_span_spec in E as (-> & _ & Hv).
  destruct (str_take 14 u) as [|c t] eqn:Et; [by intros [= <-] |]. rewrite <-Et.
  destruct (Nat.le_gt_cases 14 (String.length u)) as [Hu|Hu].
  - assert (String.length (str_take 14 u) = 14%nat) as Hl.
    { pose proof (str_take_drop 14 u) as Htd. clear -Hu.
      do 14 (destruct u as [|? u]; [simpl in Hu; lia |]). reflexivity. }
    rewrite Hl. repeat case_match; simplify_eq; try done.
  - rewrite (str_take_all 14 u) by lia. rewrite str_drop_app.
    destruct Hv as [(d & w & -> & Hd)| ->]; cbn [sscanf_items].
    + destruct (Ascii.eqb_spec d ":"%char) as [->|]; [discriminate Hd |].
      destruct (_ <? _)%nat; [by intros [= <-] | discriminate].
    + destruct (_ <? _)%nat; [by intros [= <-] | discriminate].
Qed.

Lemma compare_condor_older a b r : edg_wll_compare_condor_seq a b = Ret r → r = -1.
Proof.
  unfold edg_wll_compare_condor_seq. intros (va & Ha & H)%obind_Ret_inv.
  apply scan_condor_short in Ha as ->. by injection H.
Qed.

(** [edg_wll_compare_condor_seq] never finds out the order of two Condor codes: as
    its scan takes 14 bytes for the time stamp or fails, either the buffer of the time
    stamp is overrun or the first code counts as unparsable and the result is -1,
    "older", whatever the codes are. *)
Theorem compare_condor_never_orders a b r :
  edg_wll_compare_condor_seq a b = Ret r → r = -1.
Proof. apply compare_condor_older. Qed.

(** ** Witnesses *)
Definition zero_stack : Stack := fun _ _ => (0, 0).
Definition sample_code (wm jss : Z) : string := seq_text [2; 9; wm; 0; jss; 0; 0; 0; 0].

Example component_seqcode_examples :
  sample_code 4 7 = "UI=000002:NS=0000000009:WM=000004:BH=0000000000:JSS=000007:LM=000000:LRMS=000000:APP=000000:LBS=000000"%string ∧
  component_seqcode (sample_code 4 7) EDG_WLL_SOURCE_WORKLOAD_MANAGER = 4 ∧
  component_seqcode "UI=000003:NS=1:WM=2:BH=0:JSS=0:LM=0:LRMS=0:APP=5" EDG_WLL_SOURCE_APPLICATION = 5 ∧
  component_seqcode "rubbish" EDG_WLL_SOURCE_APPLICATION = -1 ∧
  set_component_seqcode (sample_code 4 7) EDG_WLL_SOURCE_WORKLOAD_MANAGER 12 = Some (sample_code 12 7).
Proof. vm_compute. auto. Qed.

Lemma compare_seq_antisym_witness :
  @edg_wll_compare_seq zero_stack (sample_code 5 1) (sample_code 4 7) =
  - @edg_wll_compare_seq zero_stack (sample_code 4 7) (sample_code 5 1).
Proof.
  apply (@compare_seq_antisym zero_stack (sample_code 4 7) (sample_code 5 1)); vm_compute; done.
Defined.

Lemma compare_seq_trans_witness :
  @edg_wll_compare_seq zero_stack (sample_code 4 7) (sample_code 6 0) ≤ 0.
Proof.
  apply (@compare_seq_trans zero_stack (sample_code 4 7) (sample_code 5 1) (sample_code 6 0));
    vm_compute; done.
Defined.

Definition sample_event (wm sec : Z) : Event :=
  mkEvent (mkTime sec 0) (mkTime sec 0) (Some "host"%string) 0 0 (Some sample_jobid)
    (sample_code wm 0) (Some "user"%string) EDG_WLL_SOURCE_WORKLOAD_MANAGER None Purge.
Lemma compare_events_preorder_witness :
  @compare_events_by_seq zero_stack (sample_event 2 30) (sample_event 3 10) =
  - @compare_events_by_seq zero_stack (sample_event 3 10) (sample_event 2 30).
Proof.
  apply (@compare_events_preorder zero_stack (sample_event 3 10) (sample_event 2 30)
           (sample_event 2 40)); vm_compute; done.
Defined.

Lemma set_component_get_witness :
  (s ← set_component_seqcode (seq_text [1; 2; 3; 4; 5; 6; 7; 8; 9])
         EDG_WLL_SOURCE_LOG_MONITOR 0;
   Some (component_seqcode s EDG_WLL_SOURCE_LRMS)) = Some 7.
Proof.
  apply (set_component_get [1; 2; 3; 4; 5; 6; 7; 8; 9] EDG_WLL_SOURCE_LOG_MONITOR
           EDG_WLL_SOURCE_LRMS 0); try (eexists; reflexivity);
    apply (bool_decide_unpack _); vm_compute; exact I.
Defined.

Lemma user_tags_newest_witness :
  ∃ js', @add_tags zero_stack
           [("A", "new", sample_code 5 0); ("b", "x", sample_code 1 0);
            ("a", "old", sample_code 4 0)]%string init_intJobStat = Ret js' ∧
    wf_taglist js' ∧
    ∀ n, @newest zero_stack
           [("A", "new", sample_code 5 0); ("b", "x", sample_code 1 0);
            ("a", "old", sample_code 4 0)]%string n (tag_entry js' n).
Proof.
  apply user_tags_newest; [vm_compute; auto |].
  repeat apply Forall_cons_2; try apply Forall_nil_2; vm_compute; reflexivity.
Defined.

Lemma compare_condor_never_orders_witness :
  ∃ r, edg_wll_compare_condor_seq "TIMESTAMP=2010 " "TIMESTAMP=2009 " = Ret r ∧ r = -1.
Proof.
  exists (-1). split; [vm_compute; reflexivity |].
  apply (compare_condor_never_orders "TIMESTAMP=2010 " "TIMESTAMP=2009 "). reflexivity.
Defined.
