(* ===== verification/Context.v ===== *)
(** * The sequence code of a client context

    The sequence code operations of org.glite.lb.common/src/context.c:
    [edg_wll_SetSequenceCode], [edg_wll_GetSequenceCode] and
    [edg_wll_IncSequenceCode] on the part of [edg_wll_Context] they use. *)
From Stdlib Require Import ZArith Lia Ascii.
From stdpp Require Import base option list strings numbers.
From S2P Require Import Prelude CLib JobId LbTypes Events SeqCode.
#[local] Open Scope Z_scope.

Definition EDG_WLL_SEQ_NORMAL : Z := 1.
Definition EDG_WLL_SEQ_DUPLICATE : Z := 11.
Definition EDG_WLL_SEQ_PBS : Z := 2.
Definition EDG_WLL_SEQ_CONDOR : Z := 3.
Definition EDG_WLL_SEQ_CREAM : Z := 4.
Definition EINVAL : Z := 22.

(** [edg_wll_SeqCode]: [sq_c] has an element for every component, [sq_condor] is the
    contents of the buffer before its first NUL. *)
Record SeqCode := mkSeqCode {
  sq_type : Z;
  sq_c : list Z;
  sq_condor : string
}.
#[export] Instance SeqCode_eta : Eta SeqCode := fun r =>
  mkSeqCode r.(sq_type) r.(sq_c) r.(sq_condor).

Record Context := mkContext {
  p_seqcode : SeqCode;
  p_source : edg_wll_Source;
  errCode : Z;
  errDesc : option string
}.
#[export] Instance Context_eta : Eta Context := fun r =>
  mkContext r.(p_seqcode) r.(p_source) r.(errCode) r.(errDesc).

Definition edg_wll_ResetError (ctx : Context) : Context :=
  ctx <| errCode := 0 |> <| errDesc := None |>.
(** Returns the code it records. *)
Definition edg_wll_SetError (ctx : Context) (err : Z) (desc : string) : Z * Context :=
  (err, ctx <| errCode := err |> <| errDesc := Some desc |>).

Definition EDG_WLL_SOURCE__LAST : nat := 20.
Definition seq_sources : list edg_wll_Source :=
  [EDG_WLL_SOURCE_USER_INTERFACE; EDG_WLL_SOURCE_NETWORK_SERVER;
   EDG_WLL_SOURCE_WORKLOAD_MANAGER; EDG_WLL_SOURCE_BIG_HELPER;
   EDG_WLL_SOURCE_JOB_SUBMISSION; EDG_WLL_SOURCE_LOG_MONITOR; EDG_WLL_SOURCE_LRMS;
   EDG_WLL_SOURCE_APPLICATION; EDG_WLL_SOURCE_LB_SERVER].
Definition pbs_sources : list edg_wll_Source :=
  [EDG_WLL_SOURCE_PBS_CLIENT; EDG_WLL_SOURCE_PBS_SERVER; EDG_WLL_SOURCE_PBS_SCHEDULER;
   EDG_WLL_SOURCE_PBS_SMOM; EDG_WLL_SOURCE_PBS_MOM].

Definition c_at (c : list Z) (s : edg_wll_Source) : Z := default 0 (c !! source_index s).
Definition c_set (c : list Z) (s : edg_wll_Source) (v : Z) : list Z := <[source_index s := v]> c.

(** The stores of [sscanf] into [&c[s1]], [&c[s2]], ...: as many as were converted. *)
Fixpoint store_values (c : list Z) (sources : list edg_wll_Source) (v : list Z) : list Z :=
  match sources, v with
  | s :: sources, x :: v => store_values (c_set c s x) sources v
  | _, _ => c
  end.

Definition set_c (ctx : Context) (c : list Z) : Context :=
  ctx <| p_seqcode := (ctx.(p_seqcode)) <| sq_c := c |> |>.

(** [NULL] is [None]. *)
Definition edg_wll_GetSequenceCode (ctx : Context) : outcome (option string * Context) :=
  let sq := ctx.(p_seqcode) in
  let t := sq.(sq_type) in
  if (t =? EDG_WLL_SEQ_CREAM) || (t =? EDG_WLL_SEQ_DUPLICATE) || (t =? EDG_WLL_SEQ_NORMAL) then
    Ret (Some (asprintf EDG_WLL_SEQ_FORMAT_PRINTF (print_seq (map (c_at sq.(sq_c)) seq_sources))), ctx)
  else if t =? EDG_WLL_SEQ_PBS then
    Ret (Some (asprintf EDG_WLL_SEQ_PBS_FORMAT_PRINTF (print_seq (map (c_at sq.(sq_c)) pbs_sources))), ctx)
  else if t =? EDG_WLL_SEQ_CONDOR then
    if (String.length sq.(sq_condor) <? EDG_WLL_SEQ_CONDOR_SIZE)%nat
    then Ret (Some sq.(sq_condor), ctx)
    else UB OutOfBounds
  else
    Ret (None, snd (edg_wll_SetError ctx EINVAL
                     "edg_wll_GetSequenceCode(): unknown sequence code type")).

(** [now] is [time(NULL)]. *)
Definition edg_wll_SetSequenceCode (now : Z) (ctx : Context) (seqcode_str : option string)
    (seq_type : Z) : Z * Context :=
  let ctx := edg_wll_ResetError ctx in
  let ctx := ctx <| p_seqcode := (ctx.(p_seqcode)) <| sq_type := seq_type |> |> in
  let c := ctx.(p_seqcode).(sq_c) in
  let zero := replicate EDG_WLL_SOURCE__LAST 0 in
  let syntax ctx := edg_wll_SetError ctx EINVAL
    "edg_wll_SetSequenceCode(): syntax error in sequence code" in
  if (seq_type =? EDG_WLL_SEQ_CREAM) || (seq_type =? EDG_WLL_SEQ_DUPLICATE) ||
     (seq_type =? EDG_WLL_SEQ_NORMAL) then
    match seqcode_str with
    | None => (0, set_c ctx zero)
    | Some s =>
      let v := sscanf_uints s EDG_WLL_SEQ_FORMAT_SCANF in
      let res := List.length v in
      let c := store_values c seq_sources v in
      let old := Nat.eqb res (source_index EDG_WLL_SOURCE_LB_SERVER - 1) in
      let c := if old then c_set c EDG_WLL_SOURCE_LB_SERVER 0 else c in
      let ctx := set_c ctx c in
      if negb old && negb (Nat.eqb res EDG_WLL_SEQ_FORMAT_NUMBER) then
        if seq_type =? EDG_WLL_SEQ_CREAM then (0, ctx) else syntax ctx
      else if seq_type =? EDG_WLL_SEQ_DUPLICATE then
        if decide (ctx.(p_source) = EDG_WLL_SOURCE_NONE) then
          edg_wll_SetError ctx EINVAL
            "edg_wll_SetSequenceCode(): context param: source missing"
        else let ctx := set_c ctx (c_set c ctx.(p_source) (u32 now)) in (ctx.(errCode), ctx)
      else (ctx.(errCode), ctx)
    end
  else if seq_type =? EDG_WLL_SEQ_PBS then
    match seqcode_str with
    | None => (0, set_c ctx zero)
    | Some s =>
      let v := sscanf_uints s EDG_WLL_SEQ_PBS_FORMAT_SCANF in
      let ctx := set_c ctx (store_values c pbs_sources v) in
      if negb (Nat.eqb (List.length v) EDG_WLL_SEQ_PBS_FORMAT_NUMBER) then syntax ctx
      else (ctx.(errCode), ctx)
    end
  else if seq_type =? EDG_WLL_SEQ_CONDOR then
    let buf := match seqcode_str with
               | None => EmptyString
               | Some s => str_take EDG_WLL_SEQ_CONDOR_SIZE s
               end in
    let ctx := ctx <| p_seqcode := (ctx.(p_seqcode)) <| sq_condor := buf |> |> in
    (ctx.(errCode), ctx)
  else
    edg_wll_SetError ctx EINVAL
      "edg_wll_SetSequenceCode(): unrecognized value of seq_type parameter".

Definition edg_wll_IncSequenceCode (ctx : Context) : Z * Context :=
  let ctx := edg_wll_ResetError ctx in
  let t := ctx.(p_seqcode).(sq_type) in
  if (t =? EDG_WLL_SEQ_CREAM) || (t =? EDG_WLL_SEQ_PBS) || (t =? EDG_WLL_SEQ_DUPLICATE) ||
     (t =? EDG_WLL_SEQ_NORMAL) then
    if decide (ctx.(p_source) = EDG_WLL_SOURCE_NONE) then
      edg_wll_SetError ctx EINVAL "edg_wll_IncSequenceCode(): context param: source missing"
    else
      let c := ctx.(p_seqcode).(sq_c) in
      let ctx := set_c ctx (c_set c ctx.(p_source) (u32 (c_at c ctx.(p_source) + 1))) in
      (ctx.(errCode), ctx)
  else (ctx.(errCode), ctx).

(** ** Properties *)

(** A context whose array of counters is complete and whose printed components fit. *)
Definition seq_vector (ctx : Context) : list Z :=
  map (c_at ctx.(p_seqcode).(sq_c)) seq_sources.
Definition wf_context (ctx : Context) : Prop :=
  List.length ctx.(p_seqcode).(sq_c) = EDG_WLL_SOURCE__LAST ∧
  wf_components (seq_vector ctx).

Definition grid_type (t : Z) : bool :=
  (t =? EDG_WLL_SEQ_CREAM) || (t =? EDG_WLL_SEQ_DUPLICATE) || (t =? EDG_WLL_SEQ_NORMAL).

Lemma c_at_set c s s' v :
  (source_index s < List.length c)%nat →
  c_at (c_set c s v) s' = if decide (s = s') then v else c_at c s'.
Proof.
  intros Hl. unfold c_at, c_set. destruct (decide (s = s')) as [->|Hne].
  - by rewrite list_lookup_insert_eq.
  - rewrite list_lookup_insert_ne; [done |]. destruct s, s'; simpl; congruence.
Qed.

(** Storing the components of a vector puts it there. *)
Lemma store_values_vector c v :
  List.length c = EDG_WLL_SOURCE__LAST → List.length v = 9%nat →
  map (c_at (store_values c seq_sources v)) seq_sources = v ∧
  List.length (store_values c seq_sources v) = EDG_WLL_SOURCE__LAST.
Proof.
  intros Hc Hv.
  do 9 (destruct v as [|? v]; [discriminate |]). destruct v; [| discriminate].
  do 20 (destruct c as [|? c]; [discriminate |]). destruct c; [| discriminate].
  split; reflexivity.
Qed.

Lemma get_seq_text ctx :
  grid_type ctx.(p_seqcode).(sq_type) = true →
  edg_wll_GetSequenceCode ctx = Ret (Some (seq_text (seq_vector ctx)), ctx).
Proof.
  unfold grid_type, edg_wll_GetSequenceCode, seq_text, seq_vector. cbv zeta.
  intros ->. cbn iota. reflexivity.
Qed.

(** [edg_wll_SetSequenceCode] takes back the text that [edg_wll_GetSequenceCode]
    produces: a normal or CREAM code printed by one context and set in another one
    succeeds and leaves the same nine components there. *)
Theorem seqcode_get_set now ctx ctx' t :
  wf_context ctx → grid_type ctx.(p_seqcode).(sq_type) = true →
  List.length ctx'.(p_seqcode).(sq_c) = EDG_WLL_SOURCE__LAST →
  t = EDG_WLL_SEQ_NORMAL ∨ t = EDG_WLL_SEQ_CREAM →
  ∃ s, edg_wll_GetSequenceCode ctx = Ret (Some s, ctx) ∧
    let r := edg_wll_SetSequenceCode now ctx' (Some s) t in
    fst r = 0 ∧ seq_vector (snd r) = seq_vector ctx ∧ (snd r).(p_source) = ctx'.(p_source).
Proof.
  intros [Hl Hwf] Ht Hl' Ht'. rewrite get_seq_text by done. eexists. split; [done |].
  unfold edg_wll_SetSequenceCode. rewrite sscanf_uints_text by done.
  pose proof (Forall2_length Hwf) as Hn. change (List.length seq_widths) with 9%nat in Hn.
  destruct (store_values_vector ctx'.(p_seqcode).(sq_c) (seq_vector ctx) Hl' Hn) as [E _].
  rewrite Hn. destruct Ht' as [-> | ->]; simpl; auto.
Qed.

(** What [edg_wll_IncSequenceCode] does to a code of the grid components. *)
Definition inc_ctx (ctx : Context) : Context :=
  let ctx := edg_wll_ResetError ctx in
  let c := ctx.(p_seqcode).(sq_c) in
  set_c ctx (c_set c ctx.(p_source) (u32 (c_at c ctx.(p_source) + 1))).

Lemma inc_grid ctx :
  grid_type ctx.(p_seqcode).(sq_type) = true → ctx.(p_source) ≠ EDG_WLL_SOURCE_NONE →
  edg_wll_IncSequenceCode ctx = (0, inc_ctx ctx).
Proof.
  destruct ctx as [[t c co] src e d]. unfold grid_type, edg_wll_IncSequenceCode. simpl.
  intros Ht Hs.
  replace ((t =? EDG_WLL_SEQ_CREAM) || (t =? EDG_WLL_SEQ_PBS) || (t =? EDG_WLL_SEQ_DUPLICATE)
    || (t =? EDG_WLL_SEQ_NORMAL)) with true.
  - by destruct (decide _).
  - destruct (t =? EDG_WLL_SEQ_CREAM), (t =? EDG_WLL_SEQ_PBS); simpl in *; done.
Qed.

Lemma inc_vector ctx i :
  List.length ctx.(p_seqcode).(sq_c) = EDG_WLL_SOURCE__LAST →
  seq_pos ctx.(p_source) = Some i →
  seq_vector (inc_ctx ctx) =
  <[i := u32 (c_at ctx.(p_seqcode).(sq_c) ctx.(p_source) + 1)]> (seq_vector ctx) ∧
  seq_vector ctx !! i = Some (c_at ctx.(p_seqcode).(sq_c) ctx.(p_source)).
Proof.
  destruct ctx as [[t c co] src e d]. simpl. intros Hc Hi.
  do 20 (destruct c as [|? c]; [discriminate |]). destruct c; [| discriminate].
  destruct src; vm_compute in Hi; try discriminate; injection Hi as <-; split; reflexivity.
Qed.

(** increasing the sequence code makes it newer: when a component logs its next event
    after [edg_wll_IncSequenceCode], its sequence code compares as newer than the one
    before, as long as the counter does not outgrow its field. *)
Theorem seqcode_inc_newer `{Stack} ctx :
  wf_context ctx → grid_type ctx.(p_seqcode).(sq_type) = true →
  is_Some (seq_pos ctx.(p_source)) →
  fits_width (c_at ctx.(p_seqcode).(sq_c) ctx.(p_source) + 1) (seq_width ctx.(p_source)) →
  let r := edg_wll_IncSequenceCode ctx in
  fst r = 0 ∧ wf_context (snd r) ∧
  ∃ s s', edg_wll_GetSequenceCode ctx = Ret (Some s, ctx) ∧
    edg_wll_GetSequenceCode (snd r) = Ret (Some s', snd r) ∧
    edg_wll_compare_seq s' s = 1.
Proof.
  intros [Hl Hwf] Ht [i Hi] Hfit.
  assert (p_source ctx ≠ EDG_WLL_SOURCE_NONE) as Hsrc by (intros E; rewrite E in Hi; done).
  rewrite inc_grid by done. cbn zeta. cbn [fst snd].
  destruct (inc_vector ctx i Hl Hi) as [Hv Hvi].
  rewrite u32_id in Hv by (destruct Hfit as [[? _] ?]; unfold_int; lia).
  assert (wf_components (seq_vector (inc_ctx ctx))) as Hwf'.
  { rewrite Hv. unfold seq_width in Hfit. rewrite Hi in Hfit.
    destruct (seq_pos_inv _ _ Hi) as (_ & _ & w & Hw). rewrite Hw in Hfit.
    by eapply wf_components_insert. }
  split; [done |]. split; [split; [| done] |].
  { unfold inc_ctx, c_set. simpl. by rewrite length_insert. }
  rewrite (get_seq_text ctx), (get_seq_text (inc_ctx ctx)) by done.
  do 2 eexists. split; [done |]. split; [done |].
  destruct (compare_seq_ok (seq_text (seq_vector (inc_ctx ctx))) (seq_text (seq_vector ctx)))
    as (x & y & Ex & Ey & _ & ->); [by apply seq_ok_text .. |].
  rewrite parse_seq_text in Ex, Ey by done. simplify_eq. rewrite Hv.
  eapply compare_components_incr; [done | lia].
Qed.

Definition sample_ctx : Context :=
  mkContext (mkSeqCode EDG_WLL_SEQ_NORMAL (replicate EDG_WLL_SOURCE__LAST 3) "")
    EDG_WLL_SOURCE_WORKLOAD_MANAGER 0 None.

Lemma seqcode_get_set_witness :
  ∃ s, edg_wll_GetSequenceCode sample_ctx = Ret (Some s, sample_ctx) ∧
    let r := edg_wll_SetSequenceCode 0 (set_c sample_ctx (replicate EDG_WLL_SOURCE__LAST 0))
               (Some s) EDG_WLL_SEQ_NORMAL in
    fst r = 0 ∧ seq_vector (snd r) = seq_vector sample_ctx ∧
    (snd r).(p_source) = EDG_WLL_SOURCE_WORKLOAD_MANAGER.
Proof.
  apply (seqcode_get_set 0 sample_ctx (set_c sample_ctx (replicate EDG_WLL_SOURCE__LAST 0))
           EDG_WLL_SEQ_NORMAL); try reflexivity; [| by left].
  split; [reflexivity |]. apply (bool_decide_unpack _). vm_compute. exact I.
Defined.

Lemma seqcode_inc_newer_witness :
  ∃ s s', edg_wll_GetSequenceCode sample_ctx = Ret (Some s, sample_ctx) ∧
    edg_wll_GetSequenceCode (snd (edg_wll_IncSequenceCode sample_ctx)) =
      Ret (Some s', snd (edg_wll_IncSequenceCode sample_ctx)) ∧
    @edg_wll_compare_seq zero_stack s' s = 1.
Proof.
  apply (@seqcode_inc_newer zero_stack sample_ctx).
  - split; [reflexivity |]. apply (bool_decide_unpack _). vm_compute. exact I.
  - reflexivity.
  - eexists. reflexivity.
  - apply (bool_decide_unpack _). vm_compute. exact I.
Defined.
