(* ===== verification/Param.v ===== *)
(** * The parameters of a client context

    org.glite.lb.common/src/param.c: the parameters of a context ([edg_wll_SetParamString],
    [edg_wll_SetParamInt], [edg_wll_SetParamTime], [edg_wll_SetParam],
    [edg_wll_SetParamToDefault], [edg_wll_GetParam], [edg_wll_FreeParams]) with their
    defaults out of the environment, and the loop of [edg_wll_InitContext] (context.c) that
    gives every parameter its default.  The environment is a finite map, the name of the
    host is an argument; [strtod] is computed on the binary64 numbers of the Standard
    Library's [SpecFloat]. *)
From Stdlib Require Import ZArith Lia Ascii.
From Stdlib Require Import SpecFloat.
From stdpp Require Import base option list strings numbers gmap.
From S2P Require Import Prelude CLib JobId LbTypes Events SeqCode Context.
#[local] Open Scope Z_scope.

(** ** Data *)

(** The marker [EDG_WLL_PARAM__LAST] stands for every value the [switch]es do not know. *)
Inductive edg_wll_ContextParam :=
| EDG_WLL_PARAM_HOST
| EDG_WLL_PARAM_SOURCE
| EDG_WLL_PARAM_INSTANCE
| EDG_WLL_PARAM_LEVEL
| EDG_WLL_PARAM_DESTINATION
| EDG_WLL_PARAM_DESTINATION_PORT
| EDG_WLL_PARAM_LOG_TIMEOUT
| EDG_WLL_PARAM_LOG_SYNC_TIMEOUT
| EDG_WLL_PARAM_QUERY_SERVER
| EDG_WLL_PARAM_QUERY_SERVER_PORT
| EDG_WLL_PARAM_QUERY_SERVER_OVERRIDE
| EDG_WLL_PARAM_QUERY_TIMEOUT
| EDG_WLL_PARAM_QUERY_JOBS_LIMIT
| EDG_WLL_PARAM_QUERY_EVENTS_LIMIT
| EDG_WLL_PARAM_QUERY_RESULTS
| EDG_WLL_PARAM_CONNPOOL_SIZE
| EDG_WLL_PARAM_NOTIF_SERVER
| EDG_WLL_PARAM_NOTIF_SERVER_PORT
| EDG_WLL_PARAM_NOTIF_TIMEOUT
| EDG_WLL_PARAM_X509_PROXY
| EDG_WLL_PARAM_X509_KEY
| EDG_WLL_PARAM_X509_CERT
| EDG_WLL_PARAM_LBPROXY_STORE_SOCK
| EDG_WLL_PARAM_LBPROXY_SERVE_SOCK
| EDG_WLL_PARAM_LBPROXY_USER
| EDG_WLL_PARAM_JPREG_TMPDIR
| EDG_WLL_PARAM_LOG_FILE_PREFIX
| EDG_WLL_PARAM_LOG_IL_SOCK
| EDG_WLL_PARAM_LBPROXY_SERVERNAME
| EDG_WLL_PARAM__LAST.

#[export] Instance edg_wll_ContextParam_eq_dec : EqDecision edg_wll_ContextParam.
Proof. solve_decision. Defined.

(** The enumerators below the marker, in order. *)
Definition all_params : list edg_wll_ContextParam :=
  [EDG_WLL_PARAM_HOST; EDG_WLL_PARAM_SOURCE; EDG_WLL_PARAM_INSTANCE; EDG_WLL_PARAM_LEVEL;
   EDG_WLL_PARAM_DESTINATION; EDG_WLL_PARAM_DESTINATION_PORT; EDG_WLL_PARAM_LOG_TIMEOUT;
   EDG_WLL_PARAM_LOG_SYNC_TIMEOUT; EDG_WLL_PARAM_QUERY_SERVER;
   EDG_WLL_PARAM_QUERY_SERVER_PORT; EDG_WLL_PARAM_QUERY_SERVER_OVERRIDE;
   EDG_WLL_PARAM_QUERY_TIMEOUT; EDG_WLL_PARAM_QUERY_JOBS_LIMIT;
   EDG_WLL_PARAM_QUERY_EVENTS_LIMIT; EDG_WLL_PARAM_QUERY_RESULTS;
   EDG_WLL_PARAM_CONNPOOL_SIZE; EDG_WLL_PARAM_NOTIF_SERVER;
   EDG_WLL_PARAM_NOTIF_SERVER_PORT; EDG_WLL_PARAM_NOTIF_TIMEOUT; EDG_WLL_PARAM_X509_PROXY;
   EDG_WLL_PARAM_X509_KEY; EDG_WLL_PARAM_X509_CERT; EDG_WLL_PARAM_LBPROXY_STORE_SOCK;
   EDG_WLL_PARAM_LBPROXY_SERVE_SOCK; EDG_WLL_PARAM_LBPROXY_USER;
   EDG_WLL_PARAM_JPREG_TMPDIR; EDG_WLL_PARAM_LOG_FILE_PREFIX; EDG_WLL_PARAM_LOG_IL_SOCK;
   EDG_WLL_PARAM_LBPROXY_SERVERNAME].

(** [struct timeval]. *)
Definition timeval : Type := Z * Z.

Definition EDG_WLL_LEVEL_SYSTEM : Z := 8.
Definition EDG_WLL_QUERYRES_UNDEF : Z := 0.
Definition EDG_WLL_QUERYRES__LAST : Z := 4.
Definition EDG_WLL_LOG_HOST_DEFAULT : string := "localhost".
Definition EDG_WLL_LOG_PORT_DEFAULT : Z := 9002.
Definition GLITE_LB_COMMON_CONNPOOL_SIZE : Z := 50.
Definition EDG_WLL_LOG_TIMEOUT_DEFAULT : Z := 120.
Definition EDG_WLL_LOG_SYNC_TIMEOUT_DEFAULT : Z := 120.
Definition EDG_WLL_QUERY_TIMEOUT_DEFAULT : Z := 120.
Definition EDG_WLL_NOTIF_TIMEOUT_DEFAULT : Z := 120.

(** The user settable parameters of a context, the rest of the context (the error and
    [p_source] among it), and [connectionsHandle.poolSize], which all contexts of the
    process share. *)
Record ParamState := mkParamState {
  ctx_base : Context;
  p_host : option string;
  p_instance : option string;
  p_level : Z;
  p_destination : option string;
  p_dest_port : Z;
  p_lbproxy_store_sock : option string;
  p_lbproxy_serve_sock : option string;
  p_user_lbproxy : option string;
  p_log_timeout : timeval;
  p_sync_timeout : timeval;
  p_query_timeout : timeval;
  p_notif_timeout : timeval;
  p_query_server : option string;
  p_query_server_port : Z;
  p_query_server_override : bool;
  p_query_events_limit : Z;
  p_query_jobs_limit : Z;
  p_query_results : Z;
  p_notif_server : option string;
  p_notif_server_port : Z;
  p_proxy_filename : option string;
  p_cert_filename : option string;
  p_key_filename : option string;
  jpreg_dir : option string;
  p_event_file_prefix : option string;
  p_il_sock : option string;
  p_lbproxy_servername : option string;
  p_lbproxy_servername_port : Z;
  connectionsHandle_poolSize : Z
}.
#[export] Instance ParamState_eta : Eta ParamState := fun r =>
  mkParamState r.(ctx_base) r.(p_host) r.(p_instance) r.(p_level) r.(p_destination)
    r.(p_dest_port) r.(p_lbproxy_store_sock) r.(p_lbproxy_serve_sock) r.(p_user_lbproxy)
    r.(p_log_timeout) r.(p_sync_timeout) r.(p_query_timeout) r.(p_notif_timeout)
    r.(p_query_server) r.(p_query_server_port) r.(p_query_server_override)
    r.(p_query_events_limit) r.(p_query_jobs_limit) r.(p_query_results)
    r.(p_notif_server) r.(p_notif_server_port) r.(p_proxy_filename) r.(p_cert_filename)
    r.(p_key_filename) r.(jpreg_dir) r.(p_event_file_prefix) r.(p_il_sock)
    r.(p_lbproxy_servername) r.(p_lbproxy_servername_port) r.(connectionsHandle_poolSize).

(** The argument of [edg_wll_SetParam] after the parameter, and what [edg_wll_GetParam]
    stores through its pointer. *)
Inductive param_value :=
| VInt (z : Z)
| VStr (s : option string)
| VTime (t : option timeval).

(** The member of the union of types that [va_arg] reads. *)
Inductive param_type := TInt | TStr | TTime.

Definition param_kind (p : edg_wll_ContextParam) : option param_type :=
  match p with
  | EDG_WLL_PARAM_LEVEL | EDG_WLL_PARAM_DESTINATION_PORT | EDG_WLL_PARAM_QUERY_SERVER_PORT
  | EDG_WLL_PARAM_NOTIF_SERVER_PORT | EDG_WLL_PARAM_QUERY_JOBS_LIMIT
  | EDG_WLL_PARAM_QUERY_EVENTS_LIMIT | EDG_WLL_PARAM_QUERY_RESULTS
  | EDG_WLL_PARAM_CONNPOOL_SIZE | EDG_WLL_PARAM_SOURCE => Some TInt
  | EDG_WLL_PARAM_HOST | EDG_WLL_PARAM_INSTANCE | EDG_WLL_PARAM_DESTINATION
  | EDG_WLL_PARAM_QUERY_SERVER | EDG_WLL_PARAM_NOTIF_SERVER
  | EDG_WLL_PARAM_QUERY_SERVER_OVERRIDE | EDG_WLL_PARAM_X509_PROXY | EDG_WLL_PARAM_X509_KEY
  | EDG_WLL_PARAM_X509_CERT | EDG_WLL_PARAM_LBPROXY_STORE_SOCK
  | EDG_WLL_PARAM_LBPROXY_SERVE_SOCK | EDG_WLL_PARAM_LBPROXY_USER
  | EDG_WLL_PARAM_JPREG_TMPDIR | EDG_WLL_PARAM_LOG_FILE_PREFIX | EDG_WLL_PARAM_LOG_IL_SOCK
  | EDG_WLL_PARAM_LBPROXY_SERVERNAME => Some TStr
  | EDG_WLL_PARAM_LOG_TIMEOUT | EDG_WLL_PARAM_LOG_SYNC_TIMEOUT
  | EDG_WLL_PARAM_QUERY_TIMEOUT | EDG_WLL_PARAM_NOTIF_TIMEOUT => Some TTime
  | EDG_WLL_PARAM__LAST => None
  end.

(** ** Floating point: [atof] and the conversions of [extract_time] *)
Definition double : Type := spec_float.
Abbreviation b64_prec := 53%Z.
Abbreviation b64_emax := 1024%Z.

(** The double nearest to [m * 2^e]. *)
Definition double_of (m e : Z) : double := binary_normalize b64_prec b64_emax m e false.

(** The double nearest to [m / n], both positive. *)
Definition double_quot (neg : bool) (m n : Z) : double :=
  let '(mz, ez, lz) := SFdiv_core_binary b64_prec b64_emax m 0 n 0 in
  binary_round_aux b64_prec b64_emax neg mz ez lz.

Definition hex_val (c : ascii) : option Z :=
  match digit_val c with
  | Some d => Some d
  | None =>
    let c := tolower c in
    if (97 <=? code c) && (code c <=? 102) then Some (code c - 87) else None
  end.

(** The digits of a number to [base]: their value, their number, and the rest. *)
Fixpoint scan_mant (val : ascii → option Z) (base : Z) (s : string) (acc n : Z)
  : Z * Z * string :=
  match s with
  | String c r =>
    match val c with
    | Some d => scan_mant val base r (base * acc + d) (n + 1)
    | None => (acc, n, s)
    end
  | EmptyString => (acc, n, s)
  end.

(** The digits before and after the point, and the exponent after [mark]: the mantissa
    [m], the number of its digits, of those after the point, and the exponent. *)
Definition scan_real (val : ascii → option Z) (base : Z) (mark : ascii) (s : string)
  : option (Z * Z * Z) :=
  let '(m, n, r) := scan_mant val base s 0 0 in
  let '(m, n', f, r) :=
    match r with
    | String "." r => let '(m', k, r) := scan_mant val base r m 0 in (m', n + k, k, r)
    | _ => (m, n, 0, r)
    end in
  if n' =? 0 then None else
  let e :=
    match r with
    | String c r =>
      if Ascii.eqb (tolower c) mark then match scan_signed r with Some (e, _) => e | None => 0 end
      else 0
    | EmptyString => 0
    end in
  Some (m, f, e).

Definition signed_double (neg : bool) (d : double) : double := if neg then SFopp d else d.

(** [strtod] without its end pointer. *)
Definition atof (s : string) : double :=
  let '(neg, r) :=
    match skip_space s with
    | String "-" r => (true, r)
    | String "+" r => (false, r)
    | r => (false, r)
    end in
  let l := str_map tolower r in
  let dec :=
    match scan_real digit_val 10 "e" r with
    | Some (m, f, e) =>
      if m =? 0 then S754_zero neg
      else if f <=? e then signed_double neg (double_of (m * 10 ^ (e - f)) 0)
      else double_quot neg m (10 ^ (f - e))
    | None => S754_zero false
    end in
  match strip_prefix "inf" l with
  | Some _ => S754_infinity neg
  | None =>
    match strip_prefix "nan" l with
    | Some _ => S754_nan
    | None =>
      match strip_prefix "0x" l with
      | Some h =>
        match scan_real hex_val 16 "p" h with
        | Some (m, f, e) =>
          if m =? 0 then S754_zero neg else signed_double neg (double_of m (e - 4 * f))
        | None => dec
        end
      | None => dec
      end
    end
  end.

(** [(long) d]: out of the range of [long], or for a value that is not a number, the
    conversion is undefined. *)
Definition long_of_double (d : double) : outcome Z :=
  match d with
  | S754_zero _ => Ret 0
  | S754_finite neg m e =>
    let z := Z.quot (Z.pos m * 2 ^ Z.max 0 e) (2 ^ Z.max 0 (- e)) in
    let z := if neg then - z else z in
    if decide (is_long z) then Ret z else UB SignedOverflow
  | S754_infinity _ | S754_nan => UB SignedOverflow
  end.

(** ** The environment *)
Definition environment : Type := gmap string string.
Definition getenv (env : environment) (name : string) : option string := env !! name.

Definition myenv (param : edg_wll_ContextParam) : option string :=
  match param with
  | EDG_WLL_PARAM_HOST => Some "GLOBUS_HOSTNAME"
  | EDG_WLL_PARAM_SOURCE | EDG_WLL_PARAM_INSTANCE | EDG_WLL_PARAM_LEVEL => None
  | EDG_WLL_PARAM_DESTINATION | EDG_WLL_PARAM_DESTINATION_PORT => Some "%sLOG_DESTINATION"
  | EDG_WLL_PARAM_LOG_TIMEOUT => Some "%sLOG_TIMEOUT"
  | EDG_WLL_PARAM_LOG_SYNC_TIMEOUT => Some "%sLOG_SYNC_TIMEOUT"
  | EDG_WLL_PARAM_QUERY_SERVER | EDG_WLL_PARAM_QUERY_SERVER_PORT => Some "%sQUERY_SERVER"
  | EDG_WLL_PARAM_QUERY_SERVER_OVERRIDE => Some "%sQUERY_SERVER_OVERRIDE"
  | EDG_WLL_PARAM_QUERY_TIMEOUT => Some "%sQUERY_TIMEOUT"
  | EDG_WLL_PARAM_QUERY_JOBS_LIMIT => Some "%sQUERY_JOBS_LIMIT"
  | EDG_WLL_PARAM_QUERY_EVENTS_LIMIT => Some "%sQUERY_EVENTS_LIMIT"
  | EDG_WLL_PARAM_QUERY_RESULTS => Some "%sQUERY_RESULTS"
  | EDG_WLL_PARAM_CONNPOOL_SIZE => Some "%sCONNPOOL_SIZE"
  | EDG_WLL_PARAM_NOTIF_SERVER | EDG_WLL_PARAM_NOTIF_SERVER_PORT => Some "%sNOTIF_SERVER"
  | EDG_WLL_PARAM_NOTIF_TIMEOUT => Some "%sNOTIF_TIMEOUT"
  | EDG_WLL_PARAM_X509_PROXY | EDG_WLL_PARAM_X509_KEY | EDG_WLL_PARAM_X509_CERT => None
  | EDG_WLL_PARAM_LBPROXY_STORE_SOCK => Some "%sLBPROXY_STORE_SOCK"
  | EDG_WLL_PARAM_LBPROXY_SERVE_SOCK => Some "%sLBPROXY_SERVE_SOCK"
  | EDG_WLL_PARAM_LBPROXY_USER => Some "%sLBPROXY_USER"
  | EDG_WLL_PARAM_JPREG_TMPDIR => Some "%sJPREG_TMPDIR"
  | EDG_WLL_PARAM_LOG_FILE_PREFIX => Some "%sLOG_FILE_PREFIX"
  | EDG_WLL_PARAM_LOG_IL_SOCK => Some "%sLOG_IL_SOCK"
  | EDG_WLL_PARAM_LBPROXY_SERVERNAME => Some "%sLBPROXY_SERVERNAME"
  | EDG_WLL_PARAM__LAST => None
  end%string.

Definition mygetenv (env : environment) (param : edg_wll_ContextParam) : option string :=
  match myenv param with
  | Some fmt =>
    match getenv env (asprintf fmt [PStr (Some "GLITE_WMS_"%string)]) with
    | Some s => Some s
    | None => getenv env (asprintf fmt [PStr (Some "EDG_WL_"%string)])
    end
  | None => None
  end.

Definition extract_port (env : environment) (param : edg_wll_ContextParam) (dflt : Z) : Z :=
  match mygetenv env param with
  | Some s => match strrchr s ":" with Some p => atoi (str_drop 1 p) | None => dflt end
  | None => dflt
  end.

Definition extract_num (env : environment) (param : edg_wll_ContextParam) (dflt : Z) : Z :=
  match mygetenv env param with Some s => atoi s | None => dflt end.

(** [if ((p = strrchr(s,':'))) *p = 0;] *)
Definition cut_port (s : string) : string :=
  match strrchr s ":" with
  | Some p => str_take (String.length s - String.length p) s
  | None => s
  end.

Definition extract_host (env : environment) (param : edg_wll_ContextParam)
    (dflt : option string) : option string :=
  match mygetenv env param, dflt with
  | None, None => None
  | Some s, _ => Some (cut_port s)
  | None, Some d => Some (cut_port d)
  end.

Definition extract_time (env : environment) (param : edg_wll_ContextParam) (dflt : Z)
  : outcome timeval :=
  let d := match mygetenv env param with Some s => atof s | None => double_of dflt 0 end in
  let! sec := long_of_double d in
  let! usec := long_of_double
    (SFmul b64_prec b64_emax
       (SFsub b64_prec b64_emax d (double_of sec 0)) (double_of 1000000 0)) in
  Ret (sec, usec).

(** [my_strndup(s,len)]. *)
Definition my_strndup (s : string) (len : nat) : string := str_take len s.

(** The loop of [extract_split]: [index] times behind the next [by]. *)
Fixpoint skip_fields (index : nat) (by_ : ascii) (s : string) : option string :=
  match index with
  | O => Some s
  | S index =>
    match strchr s by_ with
    | Some s => skip_fields index by_ (str_drop 1 s)
    | None => None
    end
  end.

Definition extract_split (env : environment) (param : edg_wll_ContextParam) (by_ : ascii)
    (index : nat) : option string :=
  match mygetenv env param with
  | None => None
  | Some s =>
    match skip_fields index by_ s with
    | Some s =>
      match strchr s by_ with
      | Some e => Some (my_strndup s (String.length s - String.length e))
      | None => Some s
      end
    | None => None
    end
  end.

Definition queryResultNames : list string := ["Undefined"; "None"; "All"; "Limited"]%string.

Definition edg_wll_StringToQResult (name : string) : Z :=
  match name_index (drop 1 queryResultNames) name 1 with
  | Some i => Z.of_nat i
  | None => EDG_WLL_QUERYRES_UNDEF
  end.

(** ** Setting *)
Definition set_error (st : ParamState) (err : Z) (desc : string) : Z * ParamState :=
  let '(r, c) := edg_wll_SetError st.(ctx_base) err desc in (r, st <| ctx_base := c |>).
Definition reset_error (st : ParamState) : Z * ParamState :=
  (0, st <| ctx_base := edg_wll_ResetError st.(ctx_base) |>).

(** [if (!val) val = v;] *)
Definition if_null (val v : option string) : option string :=
  match val with Some _ => val | None => v end.

Definition unknown (st : ParamState) : Z * ParamState :=
  set_error st EINVAL "unknown parameter".

Definition edg_wll_SetParamString (env : environment) (hn : string) (st : ParamState)
    (param : edg_wll_ContextParam) (val : option string) : Z * ParamState :=
  match param with
  | EDG_WLL_PARAM_HOST =>
    reset_error (st <| p_host := if_null val (extract_host env param (Some hn)) |>)
  | EDG_WLL_PARAM_INSTANCE =>
    reset_error (st <| p_instance := if_null val (extract_split env param "/" 1) |>)
  | EDG_WLL_PARAM_DESTINATION =>
    reset_error (st <| p_destination :=
      if_null val (extract_host env param (Some EDG_WLL_LOG_HOST_DEFAULT)) |>)
  | EDG_WLL_PARAM_QUERY_SERVER =>
    reset_error (st <| p_query_server := if_null val (extract_host env param None) |>)
  | EDG_WLL_PARAM_NOTIF_SERVER =>
    reset_error (st <| p_notif_server := if_null val (extract_host env param None) |>)
  | EDG_WLL_PARAM_X509_PROXY => reset_error (st <| p_proxy_filename := val |>)
  | EDG_WLL_PARAM_X509_KEY => reset_error (st <| p_key_filename := val |>)
  | EDG_WLL_PARAM_X509_CERT => reset_error (st <| p_cert_filename := val |>)
  | EDG_WLL_PARAM_QUERY_SERVER_OVERRIDE =>
    let val := if_null val (mygetenv env param) in
    reset_error (st <| p_query_server_override :=
      strcasecmp_eq (default "no"%string val) "yes" |>)
  | EDG_WLL_PARAM_LBPROXY_STORE_SOCK =>
    let val := if_null val (mygetenv env param) in
    reset_error (st <| p_lbproxy_store_sock :=
      if_null val (Some "/tmp/lb_proxy_store.sock"%string) |>)
  | EDG_WLL_PARAM_LBPROXY_SERVE_SOCK =>
    let val := if_null val (mygetenv env param) in
    reset_error (st <| p_lbproxy_serve_sock :=
      if_null val (Some "/tmp/lb_proxy_serve.sock"%string) |>)
  | EDG_WLL_PARAM_LBPROXY_USER =>
    reset_error (st <| p_user_lbproxy := if_null val (mygetenv env param) |>)
  | EDG_WLL_PARAM_JPREG_TMPDIR =>
    reset_error (st <| jpreg_dir := if_null val (mygetenv env param) |>)
  | EDG_WLL_PARAM_LOG_FILE_PREFIX =>
    reset_error (st <| p_event_file_prefix := if_null val (mygetenv env param) |>)
  | EDG_WLL_PARAM_LOG_IL_SOCK =>
    reset_error (st <| p_il_sock := if_null val (mygetenv env param) |>)
  | EDG_WLL_PARAM_LBPROXY_SERVERNAME =>
    let val := if_null val (mygetenv env param) in
    reset_error (st
      <| p_lbproxy_servername := match val with Some _ => extract_host env param None | None => None end |>
      <| p_lbproxy_servername_port :=
           match val with
           | Some _ => u32 (extract_port env param GLITE_JOBID_DEFAULT_PORT)
           | None => 0
           end |>)
  | _ => unknown st
  end.

(** [val ? val : dflt]. *)
Definition if_zero (val dflt : Z) : Z := if val =? 0 then dflt else val.

Definition edg_wll_SetParamInt (env : environment) (st : ParamState)
    (param : edg_wll_ContextParam) (val : Z) : Z * ParamState :=
  match param with
  | EDG_WLL_PARAM_LEVEL => reset_error (st <| p_level := if_zero val EDG_WLL_LEVEL_SYSTEM |>)
  | EDG_WLL_PARAM_DESTINATION_PORT =>
    reset_error (st <| p_dest_port :=
      if_zero val (extract_port env param EDG_WLL_LOG_PORT_DEFAULT) |>)
  | EDG_WLL_PARAM_QUERY_SERVER_PORT =>
    reset_error (st <| p_query_server_port :=
      if_zero val (extract_port env param GLITE_JOBID_DEFAULT_PORT) |>)
  | EDG_WLL_PARAM_NOTIF_SERVER_PORT =>
    reset_error (st <| p_notif_server_port := if_zero val (extract_port env param 0) |>)
  | EDG_WLL_PARAM_QUERY_JOBS_LIMIT =>
    reset_error (st <| p_query_jobs_limit := if_zero val (extract_num env param 0) |>)
  | EDG_WLL_PARAM_QUERY_EVENTS_LIMIT =>
    reset_error (st <| p_query_events_limit := if_zero val (extract_num env param 0) |>)
  | EDG_WLL_PARAM_QUERY_RESULTS =>
    if negb (val =? 0) then
      if (val <=? EDG_WLL_QUERYRES_UNDEF) || (EDG_WLL_QUERYRES__LAST <=? val)
      then set_error st EINVAL "Query result parameter value out of range"
      else reset_error (st <| p_query_results := val |>)
    else
      match mygetenv env param with
      | Some _ =>
        match extract_split env param "/" 0 with
        | Some s =>
          let val := edg_wll_StringToQResult s in
          if val =? 0 then set_error st EINVAL "can't parse query result parameter name"
          else reset_error (st <| p_query_results := val |>)
        | None => set_error st EINVAL "can't parse query result parameter name"
        end
      | None => reset_error st
      end
  | EDG_WLL_PARAM_CONNPOOL_SIZE =>
    let val :=
      match mygetenv env param with
      | Some s => if val =? 0 then atoi s else val
      | None => val
      end in
    reset_error (st <| connectionsHandle_poolSize := if_zero val GLITE_LB_COMMON_CONNPOOL_SIZE |>)
  | EDG_WLL_PARAM_SOURCE =>
    let store src :=
      reset_error (st <| ctx_base := st.(ctx_base) <| Context.p_source := src |> |>) in
    if negb (val =? 0) then
      if (val <=? 0) || (Z.of_nat EDG_WLL_SOURCE__LAST <=? val)
      then set_error st EINVAL "Source out of range"
      else store (default EDG_WLL_SOURCE_NONE (all_sources !! Z.to_nat val))
    else
      match mygetenv env param with
      | Some _ =>
        match extract_split env param "/" 0 with
        | Some s =>
          match edg_wll_StringToSource s with
          | EDG_WLL_SOURCE_NONE => set_error st EINVAL "can't parse source name"
          | src => store src
          end
        | None => set_error st EINVAL "can't parse source name"
        end
      | None => reset_error st
      end
  | _ => unknown st
  end.

Definition edg_wll_SetParamTime (env : environment) (st : ParamState)
    (param : edg_wll_ContextParam) (val : option timeval) : outcome (Z * ParamState) :=
  let time dflt := match val with Some t => Ret t | None => extract_time env param dflt end in
  match param with
  | EDG_WLL_PARAM_LOG_TIMEOUT =>
    let! t := time EDG_WLL_LOG_TIMEOUT_DEFAULT in Ret (reset_error (st <| p_log_timeout := t |>))
  | EDG_WLL_PARAM_LOG_SYNC_TIMEOUT =>
    let! t := time EDG_WLL_LOG_SYNC_TIMEOUT_DEFAULT in
    Ret (reset_error (st <| p_sync_timeout := t |>))
  | EDG_WLL_PARAM_QUERY_TIMEOUT =>
    let! t := time EDG_WLL_QUERY_TIMEOUT_DEFAULT in
    Ret (reset_error (st <| p_query_timeout := t |>))
  | EDG_WLL_PARAM_NOTIF_TIMEOUT =>
    let! t := time EDG_WLL_NOTIF_TIMEOUT_DEFAULT in
    Ret (reset_error (st <| p_notif_timeout := t |>))
  | _ => Ret (unknown st)
  end.

(** An argument of another type than the one [va_arg] reads is undefined. *)
Definition edg_wll_SetParam (env : environment) (hn : string) (st : ParamState)
    (param : edg_wll_ContextParam) (val : param_value) : outcome (Z * ParamState) :=
  match param_kind param, val with
  | Some TInt, VInt z => Ret (edg_wll_SetParamInt env st param z)
  | Some TStr, VStr s => Ret (edg_wll_SetParamString env hn st param s)
  | Some TTime, VTime t => edg_wll_SetParamTime env st param t
  | Some _, _ => UB Indeterminate
  | None, _ => Ret (unknown st)
  end.

Definition edg_wll_SetParamToDefault (env : environment) (hn : string) (st : ParamState)
    (param : edg_wll_ContextParam) : outcome (Z * ParamState) :=
  match param_kind param with
  | Some TInt => Ret (edg_wll_SetParamInt env st param 0)
  | Some TStr => Ret (edg_wll_SetParamString env hn st param None)
  | Some TTime => edg_wll_SetParamTime env st param None
  | None => Ret (unknown st)
  end.

(** ** Getting *)

(** What the call stores, the code it returns, and the state with the error it leaves. *)
Definition edg_wll_GetParam (st : ParamState) (param : edg_wll_ContextParam)
  : option param_value * Z * ParamState :=
  let '(_, st) := reset_error st in
  let int z := (Some (VInt z), st.(ctx_base).(errCode), st) in
  let str s := (Some (VStr s), st.(ctx_base).(errCode), st) in
  let time t := (Some (VTime (Some t)), st.(ctx_base).(errCode), st) in
  match param with
  | EDG_WLL_PARAM_LEVEL => int st.(p_level)
  | EDG_WLL_PARAM_DESTINATION_PORT => int st.(p_dest_port)
  | EDG_WLL_PARAM_QUERY_SERVER_PORT => int st.(p_query_server_port)
  | EDG_WLL_PARAM_NOTIF_SERVER_PORT => int st.(p_notif_server_port)
  | EDG_WLL_PARAM_QUERY_JOBS_LIMIT => int st.(p_query_jobs_limit)
  | EDG_WLL_PARAM_QUERY_EVENTS_LIMIT => int st.(p_query_events_limit)
  | EDG_WLL_PARAM_QUERY_RESULTS => int st.(p_query_results)
  | EDG_WLL_PARAM_CONNPOOL_SIZE => int st.(connectionsHandle_poolSize)
  | EDG_WLL_PARAM_SOURCE => int (Z.of_nat (source_index st.(ctx_base).(Context.p_source)))
  | EDG_WLL_PARAM_HOST => str st.(p_host)
  | EDG_WLL_PARAM_INSTANCE => str st.(p_instance)
  | EDG_WLL_PARAM_DESTINATION => str st.(p_destination)
  | EDG_WLL_PARAM_QUERY_SERVER => str st.(p_query_server)
  | EDG_WLL_PARAM_NOTIF_SERVER => str st.(p_notif_server)
  | EDG_WLL_PARAM_QUERY_SERVER_OVERRIDE =>
    str (Some (if st.(p_query_server_override) then "yes" else "no")%string)
  | EDG_WLL_PARAM_X509_PROXY => str st.(p_proxy_filename)
  | EDG_WLL_PARAM_X509_KEY => str st.(p_key_filename)
  | EDG_WLL_PARAM_X509_CERT => str st.(p_cert_filename)
  | EDG_WLL_PARAM_LBPROXY_STORE_SOCK => str st.(p_lbproxy_store_sock)
  | EDG_WLL_PARAM_LBPROXY_SERVE_SOCK => str st.(p_lbproxy_serve_sock)
  | EDG_WLL_PARAM_LBPROXY_USER => str st.(p_user_lbproxy)
  | EDG_WLL_PARAM_JPREG_TMPDIR => str st.(jpreg_dir)
  | EDG_WLL_PARAM_LOG_FILE_PREFIX => str st.(p_event_file_prefix)
  | EDG_WLL_PARAM_LOG_IL_SOCK => str st.(p_il_sock)
  | EDG_WLL_PARAM_LBPROXY_SERVERNAME =>
    str (match st.(p_lbproxy_servername) with
         | Some s =>
           Some (asprintf "%s:%d" [PStr (Some s); PInt (s32 st.(p_lbproxy_servername_port))])
         | None => None
         end)
  | EDG_WLL_PARAM_LOG_TIMEOUT => time st.(p_log_timeout)
  | EDG_WLL_PARAM_LOG_SYNC_TIMEOUT => time st.(p_sync_timeout)
  | EDG_WLL_PARAM_QUERY_TIMEOUT => time st.(p_query_timeout)
  | EDG_WLL_PARAM_NOTIF_TIMEOUT => time st.(p_notif_timeout)
  | EDG_WLL_PARAM__LAST => let '(c, st) := unknown st in (None, c, st)
  end.

Definition get (st : ParamState) (param : edg_wll_ContextParam) : option param_value :=
  (edg_wll_GetParam st param).1.1.

(** ** All parameters at once *)

(** The strings that are freed; [p_jobid] is not a settable parameter. *)
Definition edg_wll_FreeParams (st : ParamState) : ParamState :=
  st <| p_host := None |> <| p_instance := None |> <| p_destination := None |>
     <| p_user_lbproxy := None |> <| p_query_server := None |> <| p_notif_server := None |>
     <| p_proxy_filename := None |> <| p_cert_filename := None |> <| p_key_filename := None |>
     <| p_lbproxy_store_sock := None |> <| p_lbproxy_serve_sock := None |>
     <| p_event_file_prefix := None |> <| p_il_sock := None |>.

(** [for (i=0; i<EDG_WLL_PARAM__LAST; i++)] of [edg_wll_InitContext], from [params] on. *)
Fixpoint set_defaults (env : environment) (hn : string) (st : ParamState)
    (params : list edg_wll_ContextParam) : outcome (Z * ParamState) :=
  match params with
  | [] => Ret (0, st)
  | p :: params =>
    let! '(ret, st) := edg_wll_SetParamToDefault env hn st p in
    if ret =? 0 then set_defaults env hn st params else Ret (ret, st)
  end.

(** The context after [memset(out,0,sizeof *out)]: the level is no level yet. *)
Definition zero_context : Context :=
  mkContext (mkSeqCode 0 (replicate EDG_WLL_SOURCE__LAST 0) "") EDG_WLL_SOURCE_NONE 0 None.
Definition zero_params (pool : Z) : ParamState :=
  mkParamState zero_context None None 0 None 0 None None None (0, 0) (0, 0) (0, 0) (0, 0)
    None 0 false 0 0 0 None 0 None None None None None None None 0 pool.

Definition edg_wll_InitContext (env : environment) (hn : string) (pool : Z)
  : outcome (Z * ParamState) :=
  set_defaults env hn (zero_params pool) all_params.

(** ** What a call may be given *)

Definition well_typed (p : edg_wll_ContextParam) (v : param_value) : bool :=
  match param_kind p, v with
  | Some TInt, VInt z => bool_decide (is_int z)
  | Some TStr, VStr _ | Some TTime, VTime _ | None, _ => true
  | _, _ => false
  end.

(** A value of its own, not a request for the default, that the parameter can hold. *)
Definition valid_value (p : edg_wll_ContextParam) (v : param_value) : bool :=
  well_typed p v &&
  match p, v with
  | EDG_WLL_PARAM__LAST, _ | EDG_WLL_PARAM_LBPROXY_SERVERNAME, _ => false
  | EDG_WLL_PARAM_SOURCE, VInt z => (0 <? z) && (z <? 20)
  | EDG_WLL_PARAM_QUERY_RESULTS, VInt z => (0 <? z) && (z <? 4)
  | EDG_WLL_PARAM_QUERY_SERVER_OVERRIDE, VStr (Some s) =>
    String.eqb s "yes" || String.eqb s "no"
  | _, VInt z => negb (z =? 0)
  | _, VStr (Some _) | _, VTime (Some _) => true
  | _, _ => false
  end.

(** The values the documentation calls invalid: a number that is no component or no kind
    of result, and a default out of the environment that names no kind of result. *)
Definition refused (env : environment) (p : edg_wll_ContextParam) (v : param_value) : bool :=
  match p, v with
  | EDG_WLL_PARAM__LAST, _ => true
  | EDG_WLL_PARAM_SOURCE, VInt z => negb ((0 <=? z) && (z <? 20))
  | EDG_WLL_PARAM_QUERY_RESULTS, VInt z =>
    if z =? 0 then
      match mygetenv env p with
      | Some s =>
        forallb (fun n => negb (strcasecmp_eq n (str_span (Ascii.eqb "/") s).1))
          ["None"; "All"; "Limited"]%string
      | None => false
      end
    else negb ((0 <? z) && (z <? 4))
  | _, _ => false
  end.

(** The default of a time is defined: the number in the environment is a [long]. *)
Definition time_ok (env : environment) (p : edg_wll_ContextParam) (v : param_value) : Prop :=
  match v with VTime None => defined (extract_time env p 120) | _ => True end.
