(* ===== verification/ParamProps.v ===== *)
(** * The parameters of a client context: theorems

    Every parameter can be set and read back without a change of another, the calls that
    fail with [EINVAL] are the documented ones and change nothing, and a new context has
    the default of every parameter. *)
From Stdlib Require Import ZArith Lia Ascii SpecFloat.
From stdpp Require Import base option list strings numbers gmap.
From S2P Require Import Prelude CLib JobId LbTypes Events SeqCode Context Param.
#[local] Open Scope Z_scope.

(** ** The frame of a call *)

Lemma reset_get st q : get (reset_error st).2 q = get st q.
Proof. by destruct q. Qed.
Lemma set_error_get st e d q : get (set_error st e d).2 q = get st q.
Proof. by destruct q. Qed.

Lemma atoi_int : ∀ s, is_int (atoi s).
Proof. intros. apply s32_is_int. Qed.

(** One case per member that a call can assign. *)
Ltac each_call :=
  repeat match goal with
  | |- context [match ?x with _ => _ end] => destruct x eqn:?
  end.

Lemma set_int_frame env st p z q : q ≠ p →
  get (edg_wll_SetParamInt env st p z).2 q = get st q.
Proof.
  intros Hq. destruct p; cbn [edg_wll_SetParamInt];
    rewrite ?set_error_get, ?reset_get; try (destruct q; done).
  - each_call; rewrite ?set_error_get, ?reset_get; destruct q; done.
  - each_call; rewrite ?set_error_get, ?reset_get; destruct q; done.
Qed.

Lemma set_string_frame env hn st p s q : q ≠ p →
  get (edg_wll_SetParamString env hn st p s).2 q = get st q.
Proof.
  intros Hq. destruct p; cbn [edg_wll_SetParamString]; unfold unknown;
    rewrite ?set_error_get, ?reset_get; destruct q; done.
Qed.

Lemma set_time_frame env st p t q c st' : q ≠ p →
  edg_wll_SetParamTime env st p t = Ret (c, st') → get st' q = get st q.
Proof.
  intros Hq H.
  destruct p; cbn [edg_wll_SetParamTime] in H;
    try (apply obind_Ret_inv in H as (u & _ & H));
    injection H as H1 H2; subst; destruct q; done.
Qed.

Lemma ret_snd (r : Z * ParamState) c st' : Ret r = Ret (c, st') → r.2 = st'.
Proof. by intros [= ->]. Qed.

Lemma set_param_frame env hn st p v q c st' : q ≠ p →
  edg_wll_SetParam env hn st p v = Ret (c, st') → get st' q = get st q.
Proof.
  intros Hq H. unfold edg_wll_SetParam in H.
  destruct (param_kind p) as [[]|], v; try discriminate;
    try apply ret_snd in H as <-;
    eauto using set_int_frame, set_string_frame, set_time_frame, set_error_get.
Qed.

Lemma default_is_set env hn st p :
  edg_wll_SetParamToDefault env hn st p =
  edg_wll_SetParam env hn st p
    (match param_kind p with Some TStr => VStr None | Some TTime => VTime None | _ => VInt 0 end).
Proof. unfold edg_wll_SetParamToDefault, edg_wll_SetParam. by destruct (param_kind p) as [[]|]. Qed.

(** ** Setting and reading back *)

Lemma if_zero_id z d : z ≠ 0 → if_zero z d = z.
Proof. intros. unfold if_zero. by rewrite (proj2 (Z.eqb_neq _ _)). Qed.

Lemma source_index_nth z : 0 < z < 20 →
  Z.of_nat (source_index (default EDG_WLL_SOURCE_NONE (all_sources !! Z.to_nat z))) = z.
Proof.
  intros. rewrite <-(Z2Nat.id z) at 2 by lia. f_equal.
  assert (Z.to_nat z < 20)%nat as Hn by lia. revert Hn. generalize (Z.to_nat z) as n.
  intros n Hn. by do 20 (destruct n as [|n]; [done|]); lia.
Qed.

Lemma set_int_get env st p z : valid_value p (VInt z) = true →
  ∃ st', edg_wll_SetParamInt env st p z = (0, st') ∧ get st' p = Some (VInt z).
Proof.
  unfold valid_value, well_typed. intros H. apply andb_true_iff in H as [H1 H].
  destruct p; try discriminate; cbn in H; unfold edg_wll_SetParamInt.
  all: try (apply negb_true_iff, Z.eqb_neq in H; rewrite if_zero_id by done;
            eexists; split; reflexivity).
  - rewrite (proj2 (Z.eqb_neq z 0)) by lia. cbn [negb].
    rewrite (proj2 (Z.leb_gt z 0)), (proj2 (Z.leb_gt _ z)) by (cbv [EDG_WLL_SOURCE__LAST]; lia).
    eexists; split; [reflexivity|]. cbn. by rewrite source_index_nth by lia.
  - rewrite (proj2 (Z.eqb_neq z 0)) by lia. cbn [negb].
    rewrite (proj2 (Z.leb_gt z _)), (proj2 (Z.leb_gt _ z)) by (unfold EDG_WLL_QUERYRES_UNDEF, EDG_WLL_QUERYRES__LAST; lia).
    eexists; split; reflexivity.
  - apply negb_true_iff in H. rewrite H.
    destruct (mygetenv env _); rewrite if_zero_id by lia; eexists; split; reflexivity.
Qed.

Lemma set_string_get env hn st p s : valid_value p (VStr s) = true →
  ∃ st', edg_wll_SetParamString env hn st p s = (0, st') ∧ get st' p = Some (VStr s).
Proof.
  unfold valid_value, well_typed. intros H. apply andb_true_iff in H as [H1 H].
  destruct p; try discriminate; destruct s as [s|]; try discriminate;
    try (eexists; split; reflexivity).
  apply orb_true_iff in H as [H | H]; apply String.eqb_eq in H as ->;
    eexists; split; reflexivity.
Qed.

Lemma set_time_get env st p t : valid_value p (VTime t) = true →
  ∃ st', edg_wll_SetParamTime env st p t = Ret (0, st') ∧ get st' p = Some (VTime t).
Proof.
  unfold valid_value, well_typed. intros H. apply andb_true_iff in H as [H1 H].
  destruct p; try discriminate; destruct t as [t|]; try discriminate;
    eexists; split; reflexivity.
Qed.


(** ** Errors *)

Lemma span_take s c : (str_span (Ascii.eqb c) s).1 =
  match strchr s c with
  | Some e => str_take (String.length s - String.length e) s
  | None => s
  end.
Proof.
  induction s as [|a s IH]; [done|]. cbn [str_span strchr String.length].
  rewrite (Ascii.eqb_sym c a). destruct (Ascii.eqb a c) eqn:E.
  { by rewrite Nat.sub_diag. }
  destruct (str_span (Ascii.eqb c) s) as [u w] eqn:F. cbn [fst] in *. subst u.
  destruct (strchr s c) as [e|] eqn:G; [|done].
  assert (String.length e <= String.length s)%nat.
  { clear -G. revert e G. induction s as [|b s IH]; intros e G; [done|]. cbn in G |- *.
    destruct (Ascii.eqb b c); [injection G as <-; cbn; lia|]. specialize (IH _ G). lia. }
  by rewrite Nat.sub_succ_l by lia.
Qed.

Lemma split_first env p :
  extract_split env p "/" 0 = (fun s => (str_span (Ascii.eqb "/") s).1) <$> mygetenv env p.
Proof.
  unfold extract_split. destruct (mygetenv env p) as [s|]; [|done]. cbn [skip_fields fmap option_fmap option_map].
  rewrite span_take. unfold my_strndup. by destruct (strchr s "/").
Qed.

Lemma qresult_unknown s :
  (edg_wll_StringToQResult s =? 0) =
  forallb (fun n => negb (strcasecmp_eq n s)) ["None"; "All"; "Limited"]%string.
Proof.
  unfold edg_wll_StringToQResult, queryResultNames. cbn [drop name_index forallb].
  by repeat (destruct (strcasecmp_eq _ s); [done|]).
Qed.

(** What a call leaves: a recorded code, and with an error the old parameters. *)
Definition call_ok (st : ParamState) (err : bool) (r : Z * ParamState) : Prop :=
  r.1 = (if err then EINVAL else 0) ∧
  r.2.(ctx_base).(errCode) = r.1 ∧
  (err = false → r.2.(ctx_base).(errDesc) = None) ∧
  (err = true → ∀ q, get r.2 q = get st q).

Lemma call_ok_reset st st' : call_ok st false (reset_error st').
Proof. by repeat split. Qed.
Lemma call_ok_error st d : call_ok st true (set_error st EINVAL d).
Proof. unfold call_ok. split_and!; try done. Qed.
#[local] Hint Resolve call_ok_reset call_ok_error : core.

Lemma set_int_ok env st p z : is_int z → param_kind p = Some TInt →
  call_ok st (refused env p (VInt z)) (edg_wll_SetParamInt env st p z).
Proof.
  intros Hz Hp. destruct p; try discriminate; cbn [edg_wll_SetParamInt refused]; auto.
  - destruct (Z.eqb_spec z 0) as [->|Hn]; cbn [negb].
    { unfold mygetenv. cbn [myenv]. auto. }
    change (Z.of_nat EDG_WLL_SOURCE__LAST) with 20.
    destruct (Z.leb_spec z 0), (Z.leb_spec 0 z), (Z.leb_spec 20 z), (Z.ltb_spec z 20);
      cbn [negb orb andb]; auto; lia.
  - destruct (Z.eqb_spec z 0) as [->|Hn]; cbn [negb].
    + rewrite split_first. destruct (mygetenv env _) as [s|]; cbn [fmap option_fmap option_map]; [|auto].
      rewrite <-qresult_unknown. destruct (_ =? 0); auto.
    + unfold EDG_WLL_QUERYRES_UNDEF, EDG_WLL_QUERYRES__LAST.
      destruct (Z.leb_spec z 0), (Z.ltb_spec 0 z), (Z.leb_spec 4 z), (Z.ltb_spec z 4);
        cbn [negb orb andb]; auto; lia.
Qed.

Lemma set_string_ok env hn st p s : param_kind p = Some TStr →
  call_ok st (refused env p (VStr s)) (edg_wll_SetParamString env hn st p s).
Proof. intros Hp. destruct p; try discriminate; cbn [edg_wll_SetParamString refused]; auto. Qed.

Lemma set_time_ok env st p t : param_kind p = Some TTime → time_ok env p (VTime t) →
  ∃ r, edg_wll_SetParamTime env st p t = Ret r ∧ call_ok st (refused env p (VTime t)) r.
Proof.
  intros Hp Ht.
  assert (∃ u, (match t with Some t => Ret t | None => extract_time env p 120 end) = Ret u)
    as [u E].
  { destruct t as [u|]; [eauto|]. cbn in Ht. destruct (extract_time env p 120); [eauto|done]. }
  destruct p; try discriminate; cbn [edg_wll_SetParamTime];
    unfold EDG_WLL_LOG_TIMEOUT_DEFAULT, EDG_WLL_LOG_SYNC_TIMEOUT_DEFAULT,
      EDG_WLL_QUERY_TIMEOUT_DEFAULT, EDG_WLL_NOTIF_TIMEOUT_DEFAULT; rewrite E;
    cbn [obind refused]; eauto.
Qed.

(** C39: The errors of [edg_wll_SetParam] are the documented ones.  With an argument of the
    right type, and a convertible time in the environment if a time is to get its default,
    the call is defined and returns 0 or [EINVAL], the code it leaves in the context.  It
    returns [EINVAL] exactly for an unknown parameter, a number that is no component or no
    kind of result, and a default in the environment that names no kind of result; then
    every parameter keeps its value.  Otherwise the error description is cleared. *)
Theorem param_errors env hn st p v (Ht : well_typed p v = true) (Hd : time_ok env p v) :
  ∃ r st', edg_wll_SetParam env hn st p v = Ret (r, st') ∧
    r = (if refused env p v then EINVAL else 0) ∧
    st'.(ctx_base).(errCode) = r ∧
    (r = 0 → st'.(ctx_base).(errDesc) = None) ∧
    (r ≠ 0 → ∀ q, get st' q = get st q).
Proof.
  assert (∃ x, edg_wll_SetParam env hn st p v = Ret x ∧ call_ok st (refused env p v) x)
    as ([r st'] & E & H1 & H2 & H3 & H4).
  { unfold edg_wll_SetParam, well_typed in *.
    destruct (param_kind p) as [[]|] eqn:E, v; try discriminate.
    - apply bool_decide_eq_true in Ht. eauto using set_int_ok.
    - eauto using set_string_ok.
    - eauto using set_time_ok.
    - destruct p; try discriminate. eexists. split; [done|]. apply call_ok_error.
    - destruct p; try discriminate. eexists. split; [done|]. apply call_ok_error.
    - destruct p; try discriminate. eexists. split; [done|]. apply call_ok_error. }
  cbn [fst snd] in *. exists r, st'. split_and!; try done.
  - intros ->. destruct (refused env p v); [discriminate|auto].
  - intros Hr. destruct (refused env p v); [auto|congruence].
Qed.

(** ** A new context *)

Lemma default_frame env hn st p q c st' : q ≠ p →
  edg_wll_SetParamToDefault env hn st p = Ret (c, st') → get st' q = get st q.
Proof. intros Hq. rewrite default_is_set. by apply set_param_frame. Qed.

(** The default does not depend on the other parameters. *)
Lemma default_indep env hn s1 s2 p r1 r2 : get s1 p = get s2 p →
  edg_wll_SetParamToDefault env hn s1 p = Ret r1 →
  edg_wll_SetParamToDefault env hn s2 p = Ret r2 →
  r1.1 = r2.1 ∧ get r1.2 p = get r2.2 p.
Proof.
  intros G H1 H2.
  destruct p; cbn [edg_wll_SetParamToDefault param_kind edg_wll_SetParamTime] in H1, H2;
    try (apply obind_Ret_inv in H1 as (u & E & H1); rewrite E in H2; cbn [obind] in H2);
    injection H1 as <-; injection H2 as <-; try (split; reflexivity).
  - by split.
  - cbn [edg_wll_SetParamInt Z.eqb negb].
    destruct (mygetenv env _); [|by split]. destruct (extract_split env _ _ _); [|by split].
    by destruct (_ =? 0).
Qed.

(** The times of the environment are convertible. *)
Definition times_ok (env : environment) : Prop := ∀ p, time_ok env p (VTime None).

Lemma default_runs env hn st p : p ≠ EDG_WLL_PARAM__LAST → times_ok env →
  ∃ st', edg_wll_SetParamToDefault env hn st p =
    Ret (if refused env EDG_WLL_PARAM_QUERY_RESULTS (VInt 0) &&
            bool_decide (p = EDG_WLL_PARAM_QUERY_RESULTS) then EINVAL else 0, st').
Proof.
  intros Hp Ht. unfold edg_wll_SetParamToDefault.
  assert (is_int 0) as H0 by (unfold_int; lia).
  destruct (param_kind p) as [[]|] eqn:E.
  - pose proof (set_int_ok env st p 0 H0 E) as [H _].
    eexists. rewrite (surjective_pairing (edg_wll_SetParamInt _ _ _ _)), H.
    destruct p; try discriminate; try (by rewrite andb_false_r).
    by rewrite andb_true_r.
  - pose proof (set_string_ok env hn st p None E) as [H _].
    eexists. rewrite (surjective_pairing (edg_wll_SetParamString _ _ _ _ _)), H.
    destruct p; try discriminate; by rewrite andb_false_r.
  - destruct (set_time_ok env st p None E (Ht p)) as ([c st'] & -> & H & _).
    eexists. cbn [fst] in H. rewrite H.
    destruct p; try discriminate; by rewrite andb_false_r.
  - by destruct p.
Qed.

Lemma set_defaults_sound env hn pool : times_ok env → ∀ ps st, NoDup ps →
  EDG_WLL_PARAM__LAST ∉ ps → (∀ p, p ∈ ps → get st p = get (zero_params pool) p) →
  ∃ r st', set_defaults env hn st ps = Ret (r, st') ∧
    r = (if refused env EDG_WLL_PARAM_QUERY_RESULTS (VInt 0) &&
            bool_decide (EDG_WLL_PARAM_QUERY_RESULTS ∈ ps) then EINVAL else 0) ∧
    (r = 0 → (∀ q, q ∉ ps → get st' q = get st q) ∧
       (∀ p, p ∈ ps → ∃ st1,
          edg_wll_SetParamToDefault env hn (zero_params pool) p = Ret (0, st1) ∧
          get st' p = get st1 p)).
Proof.
  intros Ht ps. induction ps as [|p ps IH]; intros st Hnd Hl Hz.
  { exists 0, st. rewrite andb_false_r. split_and!; [done|done|]. split; [done|].
    intros p Hp. by apply elem_of_nil in Hp. }
  apply NoDup_cons in Hnd as [Hp Hnd]. apply not_elem_of_cons in Hl as [Hl Hls].
  destruct (default_runs env hn st p) as [st1 E]; [done..|].
  destruct (default_runs env hn (zero_params pool) p) as [st0 E0]; [done..|].
  cbn [set_defaults]. rewrite E. cbn [obind].
  destruct (refused _ _ _ && bool_decide (p = _)) eqn:B.
  { apply andb_true_iff in B as [B1 B2]. apply bool_decide_eq_true in B2. subst p.
    rewrite B1, bool_decide_true by set_solver. cbn. exists EINVAL, st1. by split_and!. }
  cbn [Z.eqb].
  destruct (IH st1 Hnd Hls) as (r & st' & -> & Hr & Hd).
  { intros q Hq. rewrite (default_frame env hn st p q 0 st1); [|set_solver|done].
    apply Hz. set_solver. }
  exists r, st'. split_and!; [done| |].
  { rewrite Hr. destruct (refused _ _ _); [|done]. cbn [andb] in *.
    apply bool_decide_eq_false in B.
    assert (∀ q, q ≠ p → bool_decide (q ∈ ps) = bool_decide (q ∈ p :: ps)) as -> by
      (intros; apply bool_decide_ext; set_solver); done. }
  intros Hr0. destruct (Hd Hr0) as [Hf Hs]. split.
  { intros q Hq. rewrite Hf by set_solver. eapply default_frame; [|done]. set_solver. }
  intros q Hq. apply elem_of_cons in Hq as [->|Hq]; [|auto].
  exists st0. split; [done|]. rewrite Hf by done.
  refine (proj2 (default_indep env hn st (zero_params pool) p _ _ _ E E0)).
  apply Hz. set_solver.
Qed.

(** A new context has the default of every parameter, whatever the others are: if the
    times in the environment are convertible, [edg_wll_InitContext] returns 0 and every
    parameter has the value it gets alone, or it returns [EINVAL], exactly if the
    environment asks for a kind of query result that does not exist. *)
Theorem context_defaults env hn pool (Ht : times_ok env) :
  ∃ r st, edg_wll_InitContext env hn pool = Ret (r, st) ∧
    r = (if refused env EDG_WLL_PARAM_QUERY_RESULTS (VInt 0) then EINVAL else 0) ∧
    (r = 0 → ∀ p, p ≠ EDG_WLL_PARAM__LAST → ∃ st1,
       edg_wll_SetParamToDefault env hn (zero_params pool) p = Ret (0, st1) ∧
       get st p = get st1 p).
Proof.
  destruct (set_defaults_sound env hn pool Ht all_params (zero_params pool))
    as (r & st & E & Hr & Hd).
  - apply (bool_decide_unpack _). vm_compute. done.
  - apply (bool_decide_unpack _). vm_compute. done.
  - done.
  - exists r, st. split_and!; [done| |].
    + rewrite Hr, bool_decide_true by (apply (bool_decide_unpack _); by vm_compute).
      by rewrite andb_true_r.
    + intros H0 p Hp. apply (Hd H0). destruct p; try done;
        apply (bool_decide_unpack _); by vm_compute.
Qed.

(** ** What the environment and the defaults do *)

(** The name of the server of a proxy is never the value given. *)
Lemma servername_of_environment env hn st s :
  let '(_, st') := edg_wll_SetParamString env hn st EDG_WLL_PARAM_LBPROXY_SERVERNAME (Some s) in
  st'.(p_lbproxy_servername) = extract_host env EDG_WLL_PARAM_LBPROXY_SERVERNAME None.
Proof. reflexivity. Qed.

(** The default of the component is the value it has. *)
Lemma source_default_keeps env hn st :
  edg_wll_SetParamToDefault env hn st EDG_WLL_PARAM_SOURCE = Ret (reset_error st).
Proof. reflexivity. Qed.

Definition sample_env : environment := list_to_map
  [("GLITE_WMS_LOG_DESTINATION", "wms.cern.ch:9012"); ("EDG_WL_QUERY_SERVER", "lb.cesnet.cz");
   ("GLITE_WMS_LOG_TIMEOUT", "1.5"); ("EDG_WL_QUERY_RESULTS", "limited/5");
   ("GLITE_WMS_QUERY_TIMEOUT", "0x1p5")]%string.

Lemma sample_times : times_ok sample_env.
Proof. intros p. destruct p; vm_compute; exact I. Defined.

Example sample_context :
  match edg_wll_InitContext sample_env "ui.cesnet.cz" 0 with
  | Ret (r, st) =>
    r = 0 ∧ get st EDG_WLL_PARAM_DESTINATION = Some (VStr (Some "wms.cern.ch"%string)) ∧
    get st EDG_WLL_PARAM_DESTINATION_PORT = Some (VInt 9012) ∧
    get st EDG_WLL_PARAM_QUERY_SERVER_PORT = Some (VInt 9000) ∧
    get st EDG_WLL_PARAM_LOG_TIMEOUT = Some (VTime (Some (1, 500000))) ∧
    get st EDG_WLL_PARAM_QUERY_TIMEOUT = Some (VTime (Some (32, 0))) ∧
    get st EDG_WLL_PARAM_QUERY_RESULTS = Some (VInt 3) ∧
    get st EDG_WLL_PARAM_HOST = Some (VStr (Some "ui.cesnet.cz"%string))
  | UB _ => False
  end.
Proof. vm_compute. by repeat split. Qed.

Example atof_values :
  map atof ["0.1"; " -2.5e3"; "1e-400"; "12abc"; ""; "0x10"]%string =
  [S754_finite false 7205759403792794 (-56); S754_finite true 5497558138880000 (-41);
   S754_zero false; S754_finite false 6755399441055744 (-49); S754_zero false;
   S754_finite false 4503599627370496 (-48)].
Proof. vm_compute. reflexivity. Qed.

(** 0.3 is not a binary fraction: the microseconds of "0.3" and "2.3". *)
Example extract_time_fractions :
  map (fun s => extract_time {["GLITE_WMS_LOG_TIMEOUT"%string := s]} EDG_WLL_PARAM_LOG_TIMEOUT 120)
    ["0.3"; "2.3"; "inf"]%string = [Ret (0, 300000); Ret (2, 299999); UB SignedOverflow].
Proof. vm_compute. reflexivity. Qed.


Definition bad_env : environment := {["EDG_WL_QUERY_RESULTS"%string := "some"%string]}.

Lemma param_errors_witness :
  refused bad_env EDG_WLL_PARAM_QUERY_RESULTS (VInt 0) = true ∧
  ∃ r st', edg_wll_SetParam bad_env "ui" (zero_params 50) EDG_WLL_PARAM_QUERY_RESULTS (VInt 0)
      = Ret (r, st') ∧
    r = (if refused bad_env EDG_WLL_PARAM_QUERY_RESULTS (VInt 0) then EINVAL else 0) ∧
    st'.(ctx_base).(errCode) = r ∧
    (r = 0 → st'.(ctx_base).(errDesc) = None) ∧
    (r ≠ 0 → ∀ q, get st' q = get (zero_params 50) q).
Proof.
  split; [vm_compute; reflexivity|]. apply param_errors; [vm_compute; reflexivity|exact I].
Defined.

Lemma context_defaults_witness :
  refused sample_env EDG_WLL_PARAM_QUERY_RESULTS (VInt 0) = false ∧
  ∃ r st, edg_wll_InitContext sample_env "ui" 50 = Ret (r, st) ∧
    r = (if refused sample_env EDG_WLL_PARAM_QUERY_RESULTS (VInt 0) then EINVAL else 0) ∧
    (r = 0 → ∀ p, p ≠ EDG_WLL_PARAM__LAST → ∃ st1,
       edg_wll_SetParamToDefault sample_env "ui" (zero_params 50) p = Ret (0, st1) ∧
       get st p = get st1 p).
Proof.
  split; [vm_compute; reflexivity|]. apply (context_defaults sample_env "ui" 50 sample_times).
Defined.
