(* ===== verification/StateMachine.v ===== *)
(** * The state machine: common part

    What the event processors of org.glite.lb.state-machine/src share: the return
    codes of intjobstat.h, the recording of state changes that ends each of them, and
    the invariant of the job status record that they keep. *)
From Stdlib Require Import ZArith Lia Ascii.
From stdpp Require Import base option list strings numbers.
From S2P Require Import Prelude CLib JobId LbTypes Events SeqCode.
#[local] Open Scope Z_scope.

Definition RET_FAIL : Z := 0.
Definition RET_OK : Z := 1.
Definition RET_FATAL : Z := RET_FAIL.
Definition RET_SOON : Z := 2.
Definition RET_LATE : Z := 3.
Definition RET_BADSEQ : Z := 4.
Definition RET_SUSPECT : Z := 5.
Definition RET_IGNORE : Z := 6.
Definition RET_BADBRANCH : Z := 7.
Definition RET_GOODBRANCH : Z := 8.
Definition RET_TOOOLD : Z := 9.
Definition RET_UNREG : Z := 10.
Definition RET_INTERNAL : Z := 100.

(** [a[i] = v] *)
Definition store_int (a : option (list Z)) (i v : Z) : outcome (option (list Z)) :=
  match a with
  | None => UB NullDeref
  | Some a =>
    if (0 <=? i) && (i <? Z.of_nat (List.length a)) then Ret (Some (<[Z.to_nat i := v]> a))
    else UB OutOfBounds
  end.

(** [js->pub.stateEnterTimes[1 + state] = tv_sec;] *)
Definition set_enter_time (js : intJobStat) (st tv_sec : Z) : outcome intJobStat :=
  let! t := store_int js.(pub).(stateEnterTimes) (1 + st) (s32 tv_sec) in
  Ret (js <! stateEnterTimes := t !>).

(** [js->pub.lastUpdateTime = e->any.timestamp; if (old_state != js->pub.state) { ... }] *)
Definition update_times (old_state : Z) (e : Event) (js : intJobStat) : outcome intJobStat :=
  let js := js <! lastUpdateTime := e.(ev_timestamp) !> in
  if old_state =? js.(pub).(state) then Ret js
  else
    set_enter_time (js <! stateEnterTime := e.(ev_timestamp) !>)
      js.(pub).(state) e.(ev_timestamp).(tv_sec).

(** [if (! js->pub.location) js->pub.location = strdup(text);] *)
Definition default_location (text : string) (js : intJobStat) : intJobStat :=
  match js.(pub).(location) with
  | Some _ => js
  | None => js <! location := Some text !>
  end.

(** [strcmp]-like comparison of time stamps. *)
Definition compare_timestamps (a b : timeval) : Z :=
  if (b.(tv_sec) <? a.(tv_sec)) || ((a.(tv_sec) =? b.(tv_sec)) && (b.(tv_usec) <? a.(tv_usec)))
  then 1
  else if (a.(tv_sec) <? b.(tv_sec)) ||
          ((a.(tv_sec) =? b.(tv_sec)) && (a.(tv_usec) <? b.(tv_usec)))
  then -1 else 0.

(** [edg_wll_CopyTagList] of org.glite.lb.common/src/events.c.T *)
Definition edg_wll_CopyTagList (src : option (list TagValue)) :
    outcome (option (list TagValue)) :=
  match src with
  | None => Ret None
  | Some l =>
    if forallb (fun t => match t.(value) with Some _ => true | None => false end) l
    then Ret (Some l) else UB NullDeref
  end.

(** The [EDG_WLL_EVENT_USERTAG] case that the processors share. *)
Definition usertag_case `{Stack} (name value : option string) (e : Event) (js : intJobStat) :
    outcome intJobStat :=
  match name, value with
  | Some n, Some v => let! r := add_taglist n v e.(ev_seqcode) js in Ret (snd r)
  | _, _ => Ret js
  end.

(** ** The invariant of the job status *)
Definition valid_state (st : Z) : Prop := EDG_WLL_JOB_UNDEF ≤ st < EDG_WLL_NUMBER_OF_STATCODES.
(** A counted array: its element 0 is the number of the others. *)
Definition counted (a : option (list Z)) : Prop :=
  ∃ l, a = Some (EDG_WLL_NUMBER_OF_STATCODES :: l) ∧
       Z.of_nat (List.length l) = EDG_WLL_NUMBER_OF_STATCODES.

Definition wf_status (js : intJobStat) : Prop :=
  valid_state js.(pub).(state) ∧ counted js.(pub).(stateEnterTimes) ∧
  counted js.(pub).(children_hist) ∧ wf_taglist js.

#[export] Instance valid_state_dec st : Decision (valid_state st).
Proof. unfold valid_state. apply _. Defined.

Lemma init_wf_status : wf_status init_intJobStat.
Proof.
  split; [by vm_compute |].
  repeat split; exists (replicate 12 0); vm_compute; auto.
Qed.

Lemma store_int_counted a i v :
  counted a → 1 ≤ i ≤ EDG_WLL_NUMBER_OF_STATCODES →
  ∃ a', store_int a i v = Ret a' ∧ counted a' ∧
    a' = option_fmap _ _ (fun l => <[Z.to_nat i := v]> l) a.
Proof.
  intros (l & -> & Hl) Hi. unfold store_int. simpl List.length.
  replace ((0 <=? i) && (i <? Z.of_nat (S (List.length l)))) with true
    by (symmetry; apply andb_true_iff; split; [apply Z.leb_le | apply Z.ltb_lt]; lia).
  eexists. split; [done |]. split; [| done].
  destruct (Z.to_nat i) as [|n] eqn:E; [lia |]. simpl. exists (<[n := v]> l).
  by rewrite length_insert.
Qed.

Lemma set_enter_time_ok js st t :
  counted js.(pub).(stateEnterTimes) → valid_state st →
  ∃ a, set_enter_time js st t = Ret (js <! stateEnterTimes := a !>) ∧ counted a.
Proof.
  intros Hc Hs. unfold set_enter_time.
  destruct (store_int_counted _ (1 + st) (s32 t) Hc) as (a & -> & Ha & _).
  { unfold valid_state, EDG_WLL_JOB_UNDEF, EDG_WLL_NUMBER_OF_STATCODES in *. lia. }
  simpl. eauto.
Qed.

(** The end of a processor keeps the invariant, and does what it says. *)
Lemma update_times_ok old e js :
  wf_status js →
  ∃ js', update_times old e js = Ret js' ∧ wf_status js' ∧
    js'.(pub).(state) = js.(pub).(state) ∧
    js'.(pub).(lastUpdateTime) = e.(ev_timestamp) ∧
    (js.(pub).(state) ≠ old → js'.(pub).(stateEnterTime) = e.(ev_timestamp)) ∧
    (js.(pub).(state) = old → js'.(pub).(stateEnterTimes) = js.(pub).(stateEnterTimes)).
Proof.
  intros (Hs & Ht & Hc & Hw). unfold update_times. cbv zeta.
  change (state (pub (js <! lastUpdateTime := ev_timestamp e !>))) with (state (pub js)).
  destruct (Z.eqb_spec old (state (pub js))) as [E|E].
  - eexists. split; [done |]. split; [exact (conj Hs (conj Ht (conj Hc Hw))) |].
    repeat split; done.
  - match goal with |- context [set_enter_time ?j ?s ?t] =>
      destruct (set_enter_time_ok j s t Ht Hs) as (a & -> & Ha) end.
    eexists. split; [done |]. split; [exact (conj Hs (conj Ha (conj Hc Hw))) |].
    by repeat split.
Qed.

Lemma update_times_branches old e js js' :
  update_times old e js = Ret js' → js'.(branch_states) = js.(branch_states) ∧
    js'.(last_seqcode) = js.(last_seqcode).
Proof.
  unfold update_times. cbv zeta. destruct (_ =? _); [by intros [= <-] |].
  unfold set_enter_time. intros (a & _ & [= <-])%obind_Ret_inv. done.
Qed.

Lemma default_location_wf text js : wf_status js → wf_status (default_location text js).
Proof. unfold default_location. by destruct (location (pub js)). Qed.
Lemma default_location_state text js :
  (default_location text js).(pub).(state) = js.(pub).(state).
Proof. unfold default_location. by destruct (location (pub js)). Qed.

Lemma default_location_branches text js :
  (default_location text js).(branch_states) = js.(branch_states).
Proof. unfold default_location. by destruct (location (pub js)). Qed.

Lemma add_taglist_frame `{Stack} n v s js r :
  add_taglist n v s js = Ret r →
  ∃ t c, snd r = js <! user_tags := t !> <| tag_seq_codes := c |>.
Proof.
  unfold add_taglist. destruct (user_tags (pub js)) as [tags|] eqn:Et.
  - destruct (find_tag tags n 0) as [i|].
    + destruct (tag_seq_codes js) as [codes|] eqn:Ec; [| done].
      destruct (codes !! i) as [c|]; [| done]. destruct (tags !! i); [| done].
      destruct (_ =? 1); intros [= <-]; simpl; [eauto |].
      exists (user_tags (pub js)), (tag_seq_codes js). by destruct js as [[]].
    + intros (cs & _ & [= <-])%obind_Ret_inv. simpl. eauto.
  - intros [= <-]. simpl. eauto.
Qed.

(** What the cases of the [switch] statements leave alone: the last sequence code, the
    times, the histogram and the branches; the tag list stays well formed. *)
Definition same_core (js js' : intJobStat) : Prop :=
  js'.(last_seqcode) = js.(last_seqcode) ∧
  js'.(pub).(stateEnterTimes) = js.(pub).(stateEnterTimes) ∧
  js'.(pub).(stateEnterTime) = js.(pub).(stateEnterTime) ∧
  js'.(pub).(lastUpdateTime) = js.(pub).(lastUpdateTime) ∧
  js'.(pub).(children_hist) = js.(pub).(children_hist) ∧
  (wf_taglist js → wf_taglist js') ∧ js'.(branch_states) = js.(branch_states).

#[export] Instance same_core_preorder : PreOrder same_core.
Proof.
  split; [intros js; repeat split; auto |].
  intros a b c (?&?&?&?&?&?&?) (?&?&?&?&?&?&?). repeat split; auto; congruence.
Qed.

Lemma same_core_wf js js' :
  wf_status js → same_core js js' → valid_state js'.(pub).(state) → wf_status js'.
Proof.
  intros (Hs & Ht & Hc & Hw) (_ & E1 & _ & _ & E2 & Hw' & _) Hs'. unfold wf_status.
  rewrite E1, E2. auto.
Qed.

(** Records that differ in other fields: decided by conversion. *)
Lemma same_core_refl' js js' :
  js'.(last_seqcode) = js.(last_seqcode) →
  js'.(pub).(stateEnterTimes) = js.(pub).(stateEnterTimes) →
  js'.(pub).(stateEnterTime) = js.(pub).(stateEnterTime) →
  js'.(pub).(lastUpdateTime) = js.(pub).(lastUpdateTime) →
  js'.(pub).(children_hist) = js.(pub).(children_hist) →
  js'.(pub).(user_tags) = js.(pub).(user_tags) →
  js'.(tag_seq_codes) = js.(tag_seq_codes) →
  js'.(branch_states) = js.(branch_states) → same_core js js'.
Proof.
  intros ????? E1 E2 ?. repeat split; try done. unfold wf_taglist. by rewrite E1, E2.
Qed.
Ltac core := first [ reflexivity | apply same_core_refl'; reflexivity ].

Lemma usertag_case_ok `{Stack} n v e js :
  wf_taglist js →
  ∃ js', usertag_case n v e js = Ret js' ∧ same_core js js' ∧
         js'.(pub).(state) = js.(pub).(state).
Proof.
  intros Hw. unfold usertag_case.
  destruct n as [n|], v as [v|]; [| by exists js ..].
  destruct (add_taglist_entry n v (ev_seqcode e) js Hw) as (js' & E & Hw' & _).
  rewrite E. simpl. destruct (add_taglist_frame _ _ _ _ _ E) as (t & c & Ej).
  simpl in Ej. exists js'. rewrite Ej in *. split; [done |].
  split; [repeat split; auto | done].
Qed.

Lemma copy_taglist_ok l :
  match l with
  | Some l => forallb (fun t => match t.(value) with Some _ => true | None => false end) l
  | None => true
  end = true → edg_wll_CopyTagList l = Ret l.
Proof. unfold edg_wll_CopyTagList. destruct l; [by intros -> | done]. Qed.

(** The common end of the processors without branches: a usable event is recorded. *)
Lemma finish_ok old e js :
  wf_status js →
  ∃ js', update_times old e (js <| last_seqcode := Some e.(ev_seqcode) |>) = Ret js' ∧
    wf_status js' ∧ js'.(pub).(state) = js.(pub).(state) ∧
    js'.(last_seqcode) = Some e.(ev_seqcode) ∧
    js'.(pub).(lastUpdateTime) = e.(ev_timestamp) ∧
    js'.(branch_states) = js.(branch_states).
Proof.
  intros Hwf. destruct (update_times_ok old e (js <| last_seqcode := Some (ev_seqcode e) |>))
    as (js' & E & Hwf' & Hs & Hl & _); [exact Hwf |].
  exists js'. split; [done |]. split; [done |]. split; [done |].
  enough (last_seqcode js' = Some (ev_seqcode e) ∧ branch_states js' = branch_states js)
    as [-> ->] by auto.
  revert E. unfold update_times. destruct (_ =? _); [by intros [= <-] |].
  unfold set_enter_time. intros (a & _ & [= <-])%obind_Ret_inv. done.
Qed.
