(* ===== verification/ProcessPBS.v ===== *)
(** * The state machine: PBS jobs

    The model of org.glite.lb.state-machine/src/process_event_pbs.c.  Every case of
    the [switch] over the event type is a definition; [usable] is [USABLE(res)],
    [USABLE_DATA(res)] is always true there. *)
From Stdlib Require Import ZArith Lia Ascii.
From stdpp Require Import base option list strings numbers.
From S2P Require Import Prelude CLib JobId LbTypes Events SeqCode StateMachine.
#[local] Open Scope Z_scope.

Definition PBSstate2char : list string := ["T"; "Q"; "H"; "W"; "R"; "E"; "C"]%string.

Definition pbs_state_change (usable : bool) (b : PBSStateEvent) (js : intJobStat) :
    outcome intJobStat :=
  if usable then
    if b.(ps_newstate) <? 0 then UB OutOfBounds
    else
      match PBSstate2char !! Z.to_nat b.(ps_newstate) with
      | Some c => Ret (js <! pbs_state := Some c !> <! pbs_substate := b.(ps_newsubstate) !>)
      | None => UB OutOfBounds
      end
  else Ret js.

Definition pbs_regjob (usable : bool) (b : RegJobEvent) (js : intJobStat) : intJobStat :=
  let js := if usable then js <! state := EDG_WLL_JOB_SUBMITTED !> else js in
  js <! network_server := b.(rj_ns) !>.

Definition pbs_transfer (b : PBSTransferEvent) (js : intJobStat) : intJobStat :=
  if b.(pt_result) =? EDG_WLL_PBSTRANSFER_OK then
    match b.(pt_destination) with
    | EDG_WLL_SOURCE_PBS_SERVER => js <! location := b.(pt_dest_instance) !>
    | EDG_WLL_SOURCE_PBS_MOM | EDG_WLL_SOURCE_PBS_SMOM =>
      js <! ce_node := b.(pt_dest_instance) !>
    | _ => js
    end
  else js.

Definition pbs_accepted (usable : bool) (e : Event) (js : intJobStat) : intJobStat :=
  if usable then
    match e.(ev_source) with
    | EDG_WLL_SOURCE_PBS_SERVER =>
      js <! state := EDG_WLL_JOB_SUBMITTED !> <! location := e.(ev_src_instance) !>
    | EDG_WLL_SOURCE_PBS_SMOM | EDG_WLL_SOURCE_PBS_MOM =>
      js <! state := EDG_WLL_JOB_SCHEDULED !> <! ce_node := e.(ev_src_instance) !>
    | _ => js
    end
  else js.

Definition pbs_queued (usable : bool) (e : Event) (b : PBSQueuedEvent) (js : intJobStat) :
    intJobStat :=
  let js := if usable then js <! state := EDG_WLL_JOB_WAITING !> else js in
  match e.(ev_source) with
  | EDG_WLL_SOURCE_PBS_SERVER =>
    let js := js <! pbs_queue := b.(pq_queue) !> in
    let js := match js.(pub).(pbs_owner) with
              | None => js <! pbs_owner := rep_cond None b.(pq_owner) !>
              | Some _ => js
              end in
    match js.(pub).(pbs_name) with
    | None => js <! pbs_name := rep_cond None b.(pq_name) !>
    | Some _ => js
    end
  | _ => js
  end.

Definition pbs_match (usable : bool) (dest_host : option string) (js : intJobStat) : intJobStat :=
  let js := if usable then js <! state := EDG_WLL_JOB_READY !> else js in
  js <! pbs_dest_host := rep_cond js.(pub).(pbs_dest_host) dest_host !>.

Definition pbs_pending (usable : bool) (reason : option string) (js : intJobStat) : intJobStat :=
  let js := if usable then js <! state := EDG_WLL_JOB_WAITING !> <| pbs_reruning := 0 |>
            else js in
  js <! pbs_reason := rep_cond js.(pub).(pbs_reason) reason !>.

Definition pbs_run (usable : bool) (e : Event) (b : PBSRunEvent) (js : intJobStat) :
    outcome intJobStat :=
  let! js :=
    if usable then
      match e.(ev_source) with
      | EDG_WLL_SOURCE_PBS_SERVER => Ret (js <! state := EDG_WLL_JOB_SCHEDULED !>)
      | EDG_WLL_SOURCE_PBS_SMOM | EDG_WLL_SOURCE_PBS_MOM =>
        Ret (js <! state := EDG_WLL_JOB_RUNNING !>)
      | _ => UB AssertFailed
      end
    else Ret js in
  Ret (js <! pbs_scheduler := rep_cond js.(pub).(pbs_scheduler) b.(pr_scheduler) !>
          <! pbs_dest_host := rep_cond js.(pub).(pbs_dest_host) b.(pr_dest_host) !>
          <! pbs_pid := b.(pr_pid) !>).

Definition pbs_rerun (usable : bool) (e : Event) (js : intJobStat) : outcome intJobStat :=
  if usable then
    match e.(ev_source) with
    | EDG_WLL_SOURCE_PBS_SERVER => Ret (js <! state := EDG_WLL_JOB_WAITING !>)
    | EDG_WLL_SOURCE_PBS_SMOM | EDG_WLL_SOURCE_PBS_MOM =>
      Ret (js <! state := EDG_WLL_JOB_WAITING !> <| pbs_reruning := 1 |>)
    | _ => UB AssertFailed
    end
  else Ret js.

Definition pbs_done (usable : bool) (e : Event) (exit_status : Z) (js : intJobStat) :
    outcome intJobStat :=
  let! js :=
    if usable then
      match e.(ev_source) with
      | EDG_WLL_SOURCE_PBS_SERVER =>
        Ret (js <! state := EDG_WLL_JOB_DONE !> <! done_code := EDG_WLL_STAT_OK !>)
      | EDG_WLL_SOURCE_PBS_SMOM | EDG_WLL_SOURCE_PBS_MOM => Ret js
      | _ => UB AssertFailed
      end
    else Ret js in
  Ret (js <! pbs_exit_status := exit_status !>).

Definition pbs_resource (usage : Z) (resources : option (list TagValue)) (js : intJobStat) :
    outcome intJobStat :=
  if usage =? EDG_WLL_PBSRESOURCEUSAGE_REQUESTED then
    let! r := edg_wll_CopyTagList resources in Ret (js <! pbs_resource_requested := r !>)
  else if usage =? EDG_WLL_PBSRESOURCEUSAGE_USED then
    let! r := edg_wll_CopyTagList resources in Ret (js <! pbs_resource_usage := r !>)
  else Ret js.

Definition pbs_error (usable : bool) (error_desc : option string) (js : intJobStat) :
    intJobStat :=
  let js :=
    if usable then
      js <! state := EDG_WLL_JOB_DONE !> <! done_code := EDG_WLL_STAT_FAILED !>
         <! pbs_state := Some "C"%string !>
    else js in
  let old := js.(pub).(pbs_error_desc) in
  let new_error_desc :=
    trio_asprintf ("%s%s" +:+ String (chr 9) "%s")
      [PStr (Some (default ""%string old));
       PStr (Some (match old with Some _ => String (chr 10) "" | None => ""%string end));
       PStr error_desc] in
  js <! pbs_error_desc := Some new_error_desc !>.

(** The [switch]. *)
Definition pbs_switch `{Stack} (usable : bool) (e : Event) (js : intJobStat) :
    outcome intJobStat :=
  match e.(ev_body) with
  | PBSInternalStateChange b => pbs_state_change usable b js
  | RegJob b => Ret (pbs_regjob usable b js)
  | PBSTransfer b => Ret (pbs_transfer b js)
  | PBSAccepted => Ret (pbs_accepted usable e js)
  | PBSQueued b => Ret (pbs_queued usable e b js)
  | PBSMatch dest_host => Ret (pbs_match usable dest_host js)
  | PBSPending r => Ret (pbs_pending usable r js)
  | PBSRun b => pbs_run usable e b js
  | PBSRerun => pbs_rerun usable e js
  | PBSDone exit_status => pbs_done usable e exit_status js
  | PBSResourceUsage usage resources => pbs_resource usage resources js
  | PBSError error_desc => Ret (pbs_error usable error_desc js)
  | UserTag name value => usertag_case name value e js
  | _ => Ret js
  end.

Definition processEvent_PBS `{Stack} (js : intJobStat) (e : Event) : outcome (Z * intJobStat) :=
  let old_state := js.(pub).(state) in
  let res :=
    match js.(last_seqcode) with
    | Some last => if 0 <? edg_wll_compare_pbs_seq last e.(ev_seqcode) then RET_LATE else RET_OK
    | None => RET_OK
    end in
  let usable := res =? RET_OK in
  let! js := pbs_switch usable e js in
  let! js :=
    if usable then update_times old_state e (js <| last_seqcode := Some e.(ev_seqcode) |>)
    else Ret js in
  Ret (RET_OK, default_location "this is PBS" js).

(** ** Properties *)

(** The events that the cases do not crash on. *)
Definition pbs_server_or_mom (s : edg_wll_Source) : bool :=
  match s with
  | EDG_WLL_SOURCE_PBS_SERVER | EDG_WLL_SOURCE_PBS_SMOM | EDG_WLL_SOURCE_PBS_MOM => true
  | _ => false
  end.
Definition tags_have_values (l : option (list TagValue)) : bool :=
  match l with
  | Some l => forallb (fun t => match t.(value) with Some _ => true | None => false end) l
  | None => true
  end.
Definition pbs_sane (e : Event) : bool :=
  match e.(ev_body) with
  | PBSInternalStateChange b => (0 <=? b.(ps_newstate)) && (b.(ps_newstate) <? 7)
  | PBSRun _ | PBSRerun | PBSDone _ => pbs_server_or_mom e.(ev_source)
  | PBSResourceUsage usage resources =>
    negb ((usage =? EDG_WLL_PBSRESOURCEUSAGE_REQUESTED) ||
          (usage =? EDG_WLL_PBSRESOURCEUSAGE_USED)) || tags_have_values resources
  | _ => true
  end.

(** The state that an event moves a job to. *)
Definition pbs_target (e : Event) : option Z :=
  match e.(ev_body), e.(ev_source) with
  | RegJob _, _ => Some EDG_WLL_JOB_SUBMITTED
  | PBSAccepted, EDG_WLL_SOURCE_PBS_SERVER => Some EDG_WLL_JOB_SUBMITTED
  | PBSAccepted, (EDG_WLL_SOURCE_PBS_SMOM | EDG_WLL_SOURCE_PBS_MOM) =>
    Some EDG_WLL_JOB_SCHEDULED
  | PBSQueued _, _ => Some EDG_WLL_JOB_WAITING
  | PBSMatch _, _ => Some EDG_WLL_JOB_READY
  | PBSPending _, _ => Some EDG_WLL_JOB_WAITING
  | PBSRun _, EDG_WLL_SOURCE_PBS_SERVER => Some EDG_WLL_JOB_SCHEDULED
  | PBSRun _, _ => Some EDG_WLL_JOB_RUNNING
  | PBSRerun, _ => Some EDG_WLL_JOB_WAITING
  | PBSDone _, EDG_WLL_SOURCE_PBS_SERVER => Some EDG_WLL_JOB_DONE
  | PBSError _, _ => Some EDG_WLL_JOB_DONE
  | _, _ => None
  end.

Lemma pbs_queued_frame usable e b js :
  same_core js (pbs_queued usable e b js) ∧
  (pbs_queued usable e b js).(pub).(state) =
    if usable then EDG_WLL_JOB_WAITING else js.(pub).(state).
Proof.
  unfold pbs_queued. destruct usable, (ev_source e); (split; [| reflexivity || idtac]);
    try core; repeat case_match; core || reflexivity.
Qed.

Lemma pbs_switch_ok `{Stack} usable e js :
  wf_taglist js → pbs_sane e = true →
  ∃ js', pbs_switch usable e js = Ret js' ∧ same_core js js' ∧
    js'.(pub).(state) =
      if usable then default js.(pub).(state) (pbs_target e) else js.(pub).(state).
Proof.
  intros Hw Hs. unfold pbs_switch, pbs_target. unfold pbs_sane in Hs.
  destruct (ev_body e) eqn:Eb;
    try (destruct usable; eexists; (split; [reflexivity |]; split; [core | done])).
  - (* UserTag *)
    match goal with |- context [usertag_case ?n ?v e js] =>
      destruct (usertag_case_ok n v e js Hw) as (js' & E & Hc & Hst) end.
    exists js'. rewrite Hst. by destruct usable.
  - (* PBSInternalStateChange *)
    apply andb_true_iff in Hs as [H0 H7]. unfold pbs_state_change.
    destruct usable; [| by eexists]. destruct (ps_newstate b <? 0) eqn:E; zbool; [lia |].
    destruct (lookup_lt_is_Some_2 PBSstate2char (Z.to_nat (ps_newstate b))) as [c ->];
      [simpl; lia |]. eexists. split; [done |]. split; [core | done].
  - (* PBSTransfer *)
    unfold pbs_transfer. destruct usable, (_ =? _), (pt_destination b);
      (eexists; split; [reflexivity |]; split; [core | done]).
  - (* PBSAccepted *)
    unfold pbs_accepted. destruct usable, (ev_source e);
      (eexists; split; [reflexivity |]; split; [core | done]).
  - (* PBSQueued *)
    eexists. split; [reflexivity |]. apply pbs_queued_frame.
  - (* PBSRun *)
    unfold pbs_run. destruct usable, (ev_source e); try discriminate Hs;
      (eexists; split; [reflexivity |]; split; [core | done]).
  - (* PBSRerun *)
    unfold pbs_rerun. destruct usable, (ev_source e); try discriminate Hs;
      (eexists; split; [reflexivity |]; split; [core | done]).
  - (* PBSDone *)
    unfold pbs_done. destruct usable, (ev_source e); try discriminate Hs;
      (eexists; split; [reflexivity |]; split; [core | done]).
  - (* PBSResourceUsage *)
    unfold pbs_resource.
    destruct (_ =? EDG_WLL_PBSRESOURCEUSAGE_REQUESTED), (_ =? EDG_WLL_PBSRESOURCEUSAGE_USED);
      simpl in Hs; rewrite ?(copy_taglist_ok _ Hs); destruct usable;
      (eexists; split; [reflexivity |]; split; [core | done]).
Qed.

(** The event is older than the last one that counted. *)
Definition pbs_late `{Stack} (js : intJobStat) (e : Event) : bool :=
  match js.(last_seqcode) with
  | Some last => 0 <? edg_wll_compare_pbs_seq last e.(ev_seqcode)
  | None => false
  end.

Lemma pbs_usable `{Stack} js e :
  ((match js.(last_seqcode) with
    | Some last => if 0 <? edg_wll_compare_pbs_seq last e.(ev_seqcode) then RET_LATE else RET_OK
    | None => RET_OK
    end) =? RET_OK) = negb (pbs_late js e).
Proof. unfold pbs_late. destruct (last_seqcode js); [| done]. by destruct (_ <? _). Qed.

Lemma pbs_target_valid e s : pbs_target e = Some s → valid_state s.
Proof.
  unfold pbs_target. destruct (ev_body e); try discriminate;
    try (intros [= <-]; by vm_compute);
    destruct (ev_source e); try discriminate; intros [= <-]; by vm_compute.
Qed.

Lemma pbs_core `{Stack} js e :
  wf_status js → pbs_sane e = true →
  ∃ js', processEvent_PBS js e = Ret (RET_OK, js') ∧ wf_status js' ∧
    js'.(branch_states) = js.(branch_states) ∧
    if pbs_late js e then
      js'.(pub).(state) = js.(pub).(state) ∧ js'.(last_seqcode) = js.(last_seqcode) ∧
      js'.(pub).(lastUpdateTime) = js.(pub).(lastUpdateTime) ∧
      js'.(pub).(stateEnterTimes) = js.(pub).(stateEnterTimes)
    else
      js'.(pub).(state) = default js.(pub).(state) (pbs_target e) ∧
      js'.(last_seqcode) = Some e.(ev_seqcode) ∧
      js'.(pub).(lastUpdateTime) = e.(ev_timestamp).
Proof.
  intros Hwf Hs. unfold processEvent_PBS. cbv zeta. rewrite pbs_usable.
  destruct (pbs_switch_ok (negb (pbs_late js e)) e js) as (js1 & -> & Hcore & Hst);
    [apply Hwf | done |]. cbn [obind].
  assert (wf_status js1) as Hwf1.
  { apply (same_core_wf js); [done .. |]. rewrite Hst.
    destruct (negb _); [| apply Hwf]. destruct (pbs_target e) eqn:E; [| apply Hwf].
    by apply pbs_target_valid in E. }
  destruct (pbs_late js e); cbn [negb] in *.
  - eexists. split; [done |]. split; [by apply default_location_wf |].
    destruct Hcore as (E1 & E2 & _ & E3 & _ & _ & Eb).
    rewrite default_location_state, default_location_branches. split; [done |].
    unfold default_location. by destruct (location (pub js1)).
  - destruct (finish_ok (state (pub js)) e js1 Hwf1) as (js2 & -> & Hwf2 & E1 & E2 & E3 & E4).
    cbn [obind]. eexists. split; [done |]. split; [by apply default_location_wf |].
    rewrite default_location_state, default_location_branches, E1, Hst, E4.
    split; [apply Hcore |].
    unfold default_location. by destruct (location (pub js2)).
Qed.

(** a PBS event in the right order moves the job to the state that its type and
    source stand for and becomes the last event; a late one (older than the last event)
    changes neither the state nor the last sequence code nor any time stamp.  In both
    cases the processor returns [RET_OK] and the job status stays well formed. *)
Theorem pbs_event `{Stack} js e :
  wf_status js → pbs_sane e = true →
  ∃ js', processEvent_PBS js e = Ret (RET_OK, js') ∧ wf_status js' ∧
    if pbs_late js e then
      js'.(pub).(state) = js.(pub).(state) ∧ js'.(last_seqcode) = js.(last_seqcode) ∧
      js'.(pub).(lastUpdateTime) = js.(pub).(lastUpdateTime) ∧
      js'.(pub).(stateEnterTimes) = js.(pub).(stateEnterTimes)
    else
      js'.(pub).(state) = default js.(pub).(state) (pbs_target e) ∧
      js'.(last_seqcode) = Some e.(ev_seqcode) ∧
      js'.(pub).(lastUpdateTime) = e.(ev_timestamp).
Proof.
  intros. destruct (pbs_core js e) as (js' & E & Hwf & _ & Hr); [done .. |]. by exists js'.
Qed.

Lemma pbs_switch_crash `{Stack} e js : pbs_sane e = false → ¬ defined (pbs_switch true e js).
Proof.
  unfold pbs_switch, pbs_sane. destruct (ev_body e); try discriminate.
  - unfold pbs_state_change. intros Hs. destruct (_ <? 0) eqn:E; [simpl; tauto |].
    destruct (PBSstate2char !! _) eqn:El; [| simpl; tauto].
    apply lookup_lt_Some in El. simpl in El. apply andb_false_iff in Hs as [?|?]; zbool; lia.
  - unfold pbs_run, pbs_server_or_mom. destruct (ev_source e); try discriminate; simpl; tauto.
  - unfold pbs_rerun, pbs_server_or_mom. destruct (ev_source e); try discriminate; simpl; tauto.
  - unfold pbs_done, pbs_server_or_mom. destruct (ev_source e); try discriminate; simpl; tauto.
  - unfold pbs_resource, edg_wll_CopyTagList, tags_have_values.
    destruct (_ =? EDG_WLL_PBSRESOURCEUSAGE_REQUESTED), (_ =? EDG_WLL_PBSRESOURCEUSAGE_USED);
      simpl; intros Hs; try discriminate; case_match; try discriminate;
      rewrite Hs; simpl; tauto.
Qed.

(** the PBS processor crashes (an [assert], an index out of range or a NULL tag
    value) on exactly the events that a job's components are not supposed to log: when an
    event is not late, processing it is defined if and only if a run, rerun or done event
    comes from the PBS server or a MOM, an internal state is one of the seven known ones
    and every listed resource has a value. *)
Theorem pbs_crash `{Stack} js e :
  wf_status js → pbs_late js e = false →
  (defined (processEvent_PBS js e) ↔ pbs_sane e = true).
Proof.
  intros Hwf Hl. unfold processEvent_PBS. cbv zeta. rewrite pbs_usable, Hl. cbn [negb].
  destruct (pbs_sane e) eqn:Hs.
  - split; [done |]. intros _.
    destruct (pbs_switch_ok true e js) as (js1 & -> & Hcore & Hst); [apply Hwf | done |].
    cbn [obind]. destruct (finish_ok (state (pub js)) e js1) as (js2 & -> & _); [| exact I].
    apply (same_core_wf js); [done .. |]. rewrite Hst.
    destruct (pbs_target e) eqn:E; [by apply pbs_target_valid in E | apply Hwf].
  - split; [| done]. intros Hd. destruct (pbs_switch_crash e js Hs).
    by destruct (pbs_switch true e js).
Qed.

(** ** Witnesses *)
Definition pbs_code : string :=
  "CLIENT=000000:SERVER=0000000004:SCHED=000000:SMOM=000000:MOM=000000".
Definition pbs_sample (source : edg_wll_Source) (b : EventBody) : Event :=
  mkEvent (mkTime 1000 5) (mkTime 1001 0) (Some "host"%string) 0 0 (Some sample_jobid)
    pbs_code (Some "user"%string) source (Some "pbs.example.org"%string) b.

Lemma pbs_event_witness :
  ∃ js', @processEvent_PBS zero_stack init_intJobStat
           (pbs_sample EDG_WLL_SOURCE_PBS_MOM (PBSRun (mkPBSRun None None 7))) =
         Ret (RET_OK, js') ∧ wf_status js' ∧
    js'.(pub).(state) = EDG_WLL_JOB_RUNNING ∧ js'.(last_seqcode) = Some pbs_code ∧
    js'.(pub).(lastUpdateTime) = mkTime 1000 5.
Proof.
  destruct (@pbs_event zero_stack init_intJobStat
              (pbs_sample EDG_WLL_SOURCE_PBS_MOM (PBSRun (mkPBSRun None None 7)))
              init_wf_status) as (js' & E & Hwf & Hr); [vm_compute; reflexivity |].
  exists js'. split; [exact E |]. split; [exact Hwf |]. exact Hr.
Defined.

Lemma pbs_crash_witness :
  defined (@processEvent_PBS zero_stack init_intJobStat
             (pbs_sample EDG_WLL_SOURCE_PBS_SERVER (PBSDone 0))) ∧
  ¬ defined (@processEvent_PBS zero_stack init_intJobStat
               (pbs_sample EDG_WLL_SOURCE_PBS_SCHEDULER (PBSDone 0))).
Proof.
  split.
  - apply (@pbs_crash zero_stack init_intJobStat
             (pbs_sample EDG_WLL_SOURCE_PBS_SERVER (PBSDone 0)) init_wf_status eq_refl).
    reflexivity.
  - intros Hd. apply (@pbs_crash zero_stack init_intJobStat
      (pbs_sample EDG_WLL_SOURCE_PBS_SCHEDULER (PBSDone 0)) init_wf_status eq_refl) in Hd.
    discriminate Hd.
Defined.
