(* ===== verification/ProcessCream.v ===== *)
(** * The state machine: CREAM jobs

    The model of org.glite.lb.state-machine/src/process_event_cream.c:
    [processEvent_Cream] for the jobs of type CREAM, and [processData_Cream], which the
    grid processor calls as well.  Events are never late here, [USABLE(res)] is always
    true. *)
From Stdlib Require Import ZArith Lia Ascii.
From stdpp Require Import base option list strings numbers.
From S2P Require Import Prelude CLib JobId LbTypes Events SeqCode StateMachine.
#[local] Open Scope Z_scope.

(** ** Data *)
Definition creamdata_regjob (b : RegJobEvent) (js : intJobStat) : intJobStat :=
  let js := js <! cream_owner := rep_cond js.(pub).(cream_owner) js.(pub).(owner) !> in
  let js := js <! jdl := rep_cond js.(pub).(jdl) b.(rj_jdl) !> in
  let js := js <! cream_jdl := rep_cond js.(pub).(cream_jdl) b.(rj_jdl) !> in
  let js := js <! cream_endpoint := rep_cond js.(pub).(cream_endpoint) b.(rj_ns) !> in
  let js := js <! destination := rep_cond js.(pub).(destination) b.(rj_ns) !> in
  js <! network_server := rep_cond js.(pub).(network_server) b.(rj_ns) !>.

(** The new failure reason replaces the ones recorded so far. *)
Definition creamdata_failure (reason : string) (js : intJobStat) : intJobStat :=
  let js := js <! cream_failure_reason := Some reason !> in
  match js.(pub).(failure_reasons) with
  | Some _ =>
    js <! failure_reasons :=
            Some (asprintf ("%s" +:+ String (chr 10) "") [PStr (Some reason)]) !>
  | None => js <! failure_reasons := Some (asprintf "%s" [PStr (Some reason)]) !>
  end.

Definition creamdata_status (b : CREAMStatusEvent) (js : intJobStat) : intJobStat :=
  if b.(ct_result) =? EDG_WLL_CREAMSTATUS_DONE then
    let js := match b.(ct_exit_code) with
              | Some c =>
                if negb (strcmp c "N/A" =? 0)
                then js <! cream_exit_code := atoi c !> <! exit_code := atoi c !>
                else js
              | None => js
              end in
    let js := match b.(ct_worker_node) with
              | Some w => js <! cream_node := Some w !> <! ce_node := Some w !>
              | None => js
              end in
    let js := match b.(ct_LRMS_jobid) with
              | Some l => js <! cream_lrms_id := Some l !> <! localId := Some l !>
              | None => js
              end in
    match b.(ct_failure_reason) with
    | Some r => creamdata_failure r js
    | None => js
    end
  else js.

(** The result is always [RET_OK]. *)
Definition processData_Cream `{Stack} (js : intJobStat) (e : Event) : outcome intJobStat :=
  let! js :=
    match e.(ev_body) with
    | RegJob b => Ret (creamdata_regjob b js)
    | CREAMAccepted local_jobid =>
      Ret (js <! cream_id := local_jobid !> <! globusId := local_jobid !>)
    | CREAMStatus b => Ret (creamdata_status b js)
    | UserTag name value => usertag_case name value e js
    | _ => Ret js
    end in
  Ret (default_location "this is CREAM" js).

(** ** State transitions *)
Definition cream_set_reason (reason_ : option string) (js : intJobStat) : intJobStat :=
  js <! cream_reason := rep_cond js.(pub).(cream_reason) reason_ !>
     <! reason := rep_cond js.(pub).(reason) reason_ !>.

Definition cream_store (b : CREAMStoreEvent) (js : intJobStat) : intJobStat :=
  let ok := b.(cst_result) =? EDG_WLL_CREAMSTORE_OK in
  let js :=
    if b.(cst_command) =? EDG_WLL_CREAMSTORE_CMDSTART then
      if ok then js <! state := EDG_WLL_JOB_WAITING !>
                    <! cream_state := EDG_WLL_STAT_CREAM_PENDING !>
      else js
    else if b.(cst_command) =? EDG_WLL_CREAMSTORE_CMDSUSPEND then
      if ok then js <! suspended := 1 !> else js
    else if b.(cst_command) =? EDG_WLL_CREAMSTORE_CMDRESUME then
      if ok then js <! suspended := 0 !> else js
    else js in
  cream_set_reason b.(cst_reason) js.

(** The call of the LRMS that starts the job. *)
Definition is_lrms_start (e : Event) (b : CREAMCallEvent) : bool :=
  bool_decide (e.(ev_source) = EDG_WLL_SOURCE_CREAM_EXECUTOR) &&
  bool_decide (b.(cc_callee) = EDG_WLL_SOURCE_LRMS) &&
  (b.(cc_command) =? EDG_WLL_CREAMCALL_CMDSTART) && (b.(cc_result) =? EDG_WLL_CREAMCALL_OK).

Definition cream_call (e : Event) (b : CREAMCallEvent) (js : intJobStat) : intJobStat :=
  let js :=
    if is_lrms_start e b then
      let js := js <! state := EDG_WLL_JOB_SCHEDULED !>
                   <! cream_state := EDG_WLL_STAT_CREAM_IDLE !> in
      let js := cream_set_reason b.(cc_reason) js in
      js <! cream_reason := b.(cc_reason) !> <! reason := b.(cc_reason) !>
    else js in
  let js :=
    if (b.(cc_command) =? EDG_WLL_CREAMCALL_CMDCANCEL) &&
       (b.(cc_result) =? EDG_WLL_CREAMCALL_OK) then
      cream_set_reason b.(cc_reason) (js <! cream_cancelling := 1 !> <! cancelling := 1 !>)
    else js in
  if (b.(cc_command) =? EDG_WLL_CREAMCALL_CMDPURGE) &&
     (b.(cc_result) =? EDG_WLL_CREAMCALL_OK) then
    cream_set_reason b.(cc_reason)
      (js <! state := EDG_WLL_JOB_CLEARED !> <! cream_state := EDG_WLL_STAT_CREAM_PURGED !>)
  else js.

Definition cream_cancel (status_code : Z) (reason_ : option string) (js : intJobStat) :
    intJobStat :=
  let js :=
    if status_code =? EDG_WLL_CANCEL_DONE then
      js <! state := EDG_WLL_JOB_CANCELLED !> <! cream_state := EDG_WLL_STAT_CREAM_ABORTED !>
    else js in
  js <! cream_reason := reason_ !> <! reason := reason_ !>.

Definition cream_abort (reason_ : option string) (js : intJobStat) : intJobStat :=
  js <! state := EDG_WLL_JOB_ABORTED !> <! cream_state := EDG_WLL_STAT_CREAM_ABORTED !>
     <! cream_reason := reason_ !> <! reason := reason_ !>.

(** The inner [switch] over the CREAM state. *)
Definition cream_state_change (cs : Z) (js : intJobStat) : intJobStat :=
  if cs =? EDG_WLL_STAT_CREAM_PENDING then js <! state := EDG_WLL_JOB_WAITING !>
  else if cs =? EDG_WLL_STAT_CREAM_IDLE then js <! state := EDG_WLL_JOB_SCHEDULED !>
  else if cs =? EDG_WLL_STAT_CREAM_RUNNING then
    js <! state := EDG_WLL_JOB_RUNNING !> <! jw_status := EDG_WLL_STAT_WRAPPER_RUNNING !>
  else if cs =? EDG_WLL_STAT_CREAM_REALLY_RUNNING then
    js <! state := EDG_WLL_JOB_RUNNING !> <! jw_status := EDG_WLL_STAT_PAYLOAD_RUNNING !>
  else if cs =? EDG_WLL_STAT_CREAM_DONE_OK then
    js <! state := EDG_WLL_JOB_DONE !> <! done_code := EDG_WLL_STAT_OK !>
       <! cream_done_code := EDG_WLL_STAT_OK !>
  else if cs =? EDG_WLL_STAT_CREAM_DONE_FAILED then
    js <! state := EDG_WLL_JOB_DONE !> <! done_code := EDG_WLL_STAT_FAILED !>
       <! cream_done_code := EDG_WLL_STAT_FAILED !>
  else if cs =? EDG_WLL_STAT_CREAM_CANCELLED then js <! state := EDG_WLL_JOB_CANCELLED !>
  else if cs =? EDG_WLL_STAT_CREAM_ABORTED then js <! state := EDG_WLL_JOB_ABORTED !>
  else if cs =? EDG_WLL_STAT_CREAM_PURGED then js <! state := EDG_WLL_JOB_CLEARED !>
  else js.

Definition cream_status (b : CREAMStatusEvent) (js : intJobStat) : outcome intJobStat :=
  if b.(ct_result) =? EDG_WLL_CREAMSTATUS_DONE then
    match b.(ct_new_state) with
    | None => UB NullDeref
    | Some n =>
      let cs := edg_wll_StringToCreamStat n in
      Ret (cream_state_change cs (js <! cream_state := cs !>))
    end
  else Ret js.

Definition cream_switch (e : Event) (js : intJobStat) : outcome intJobStat :=
  match e.(ev_body) with
  | RegJob _ => Ret (js <! state := EDG_WLL_JOB_SUBMITTED !>
                        <! cream_state := EDG_WLL_STAT_CREAM_REGISTERED !>)
  | CREAMStore b => Ret (cream_store b js)
  | CREAMCall b => Ret (cream_call e b js)
  | CREAMCancel status_code reason => Ret (cream_cancel status_code reason js)
  | CREAMAbort reason => Ret (cream_abort reason js)
  | CREAMStatus b => cream_status b js
  | _ => Ret js
  end.

Definition processEvent_Cream `{Stack} (js : intJobStat) (e : Event) :
    outcome (Z * intJobStat) :=
  let old_state := js.(pub).(state) in
  let! js := cream_switch e js in
  let! js := update_times old_state e (js <| last_seqcode := Some e.(ev_seqcode) |>) in
  let js := default_location "this is CREAM" js in
  let! js := processData_Cream js e in
  Ret (RET_OK, js).

(** ** Properties *)
Definition cream_named (e : Event) : bool :=
  match e.(ev_body) with
  | CREAMStatus b =>
    negb (b.(ct_result) =? EDG_WLL_CREAMSTATUS_DONE) ||
    match b.(ct_new_state) with Some _ => true | None => false end
  | _ => true
  end.

(** The grid job state of a CREAM state, if it has one. *)
Definition cream_job_state (cs : Z) : option Z :=
  match cs with
  | 1 => Some EDG_WLL_JOB_WAITING
  | 2 => Some EDG_WLL_JOB_SCHEDULED
  | 3 | 4 => Some EDG_WLL_JOB_RUNNING
  | 6 | 7 => Some EDG_WLL_JOB_DONE
  | 8 => Some EDG_WLL_JOB_ABORTED
  | 9 => Some EDG_WLL_JOB_CANCELLED
  | 10 => Some EDG_WLL_JOB_CLEARED
  | _ => None
  end.
Definition cream_target (e : Event) : option Z :=
  match e.(ev_body) with
  | RegJob _ => Some EDG_WLL_JOB_SUBMITTED
  | CREAMStore b =>
    if (b.(cst_command) =? EDG_WLL_CREAMSTORE_CMDSTART) &&
       (b.(cst_result) =? EDG_WLL_CREAMSTORE_OK) then Some EDG_WLL_JOB_WAITING else None
  | CREAMCall b =>
    if is_lrms_start e b then Some EDG_WLL_JOB_SCHEDULED
    else if (b.(cc_command) =? EDG_WLL_CREAMCALL_CMDPURGE) &&
            (b.(cc_result) =? EDG_WLL_CREAMCALL_OK) then Some EDG_WLL_JOB_CLEARED
    else None
  | CREAMCancel status_code _ =>
    if status_code =? EDG_WLL_CANCEL_DONE then Some EDG_WLL_JOB_CANCELLED else None
  | CREAMAbort _ => Some EDG_WLL_JOB_ABORTED
  | CREAMStatus b =>
    if b.(ct_result) =? EDG_WLL_CREAMSTATUS_DONE then
      n ← b.(ct_new_state); cream_job_state (edg_wll_StringToCreamStat n)
    else None
  | _ => None
  end.

Lemma cream_state_change_ok cs js :
  same_core js (cream_state_change cs js) ∧
  (cream_state_change cs js).(pub).(state) = default js.(pub).(state) (cream_job_state cs).
Proof.
  unfold cream_state_change.
  repeat (case_match; [zbool; subst; split; [core | done] |]).
  split; [core |]. zbool. unfold cream_job_state. simpl.
  destruct cs as [|[[[]|[]|]|[[[]|[]|]|[[]|[]|]|]|]|]; try done;
    repeat match goal with p : positive |- _ => destruct p; try done end.
Qed.

Lemma cream_job_state_valid cs s : cream_job_state cs = Some s → valid_state s.
Proof.
  unfold cream_job_state. intros H. repeat case_match; simplify_eq; by vm_compute.
Qed.

Lemma cream_target_valid e s : cream_target e = Some s → valid_state s.
Proof.
  unfold cream_target. destruct (ev_body e); try discriminate;
    try (repeat case_match; intros [= <-]; by vm_compute).
  destruct (_ =? _); [| discriminate]. intros (n & _ & H)%bind_Some.
  by apply cream_job_state_valid in H.
Qed.

Lemma cream_call_ok e b js :
  same_core js (cream_call e b js) ∧
  (cream_call e b js).(pub).(state) =
    if is_lrms_start e b then EDG_WLL_JOB_SCHEDULED
    else if (cc_command b =? EDG_WLL_CREAMCALL_CMDPURGE) &&
            (cc_result b =? EDG_WLL_CREAMCALL_OK) then EDG_WLL_JOB_CLEARED
    else js.(pub).(state).
Proof.
  unfold cream_call. destruct (is_lrms_start e b) eqn:E1.
  - unfold is_lrms_start in E1. apply andb_true_iff in E1 as [[_ E1]%andb_true_iff _].
    zbool. rewrite E1. split; [core | done].
  - destruct (cc_command b =? EDG_WLL_CREAMCALL_CMDCANCEL) eqn:E2,
      (cc_command b =? EDG_WLL_CREAMCALL_CMDPURGE) eqn:E3,
      (cc_result b =? EDG_WLL_CREAMCALL_OK) eqn:E4; cbn [andb];
      (split; [core | done]).
Qed.

Lemma cream_switch_ok e js :
  cream_named e = true →
  ∃ js', cream_switch e js = Ret js' ∧ same_core js js' ∧
    js'.(pub).(state) = default js.(pub).(state) (cream_target e).
Proof.
  unfold cream_switch, cream_target, cream_named. intros Hn.
  destruct (ev_body e); try (eexists; split; [reflexivity |]; split; [core | done]).
  - (* CREAMStore *)
    eexists. split; [reflexivity |]. unfold cream_store.
    destruct (cst_command b =? EDG_WLL_CREAMSTORE_CMDSTART),
      (cst_result b =? EDG_WLL_CREAMSTORE_OK),
      (cst_command b =? EDG_WLL_CREAMSTORE_CMDSUSPEND),
      (cst_command b =? EDG_WLL_CREAMSTORE_CMDRESUME); (split; [core | done]).
  - (* CREAMCall *)
    eexists. split; [reflexivity |]. destruct (cream_call_ok e b js) as [Hc ->].
    split; [done |]. destruct (is_lrms_start e b); [done |]. by destruct (_ && _).
  - (* CREAMCancel *)
    eexists. split; [reflexivity |]. unfold cream_cancel.
    destruct (_ =? _); (split; [core | done]).
  - (* CREAMStatus *)
    unfold cream_status. destruct (ct_result b =? _); [| eexists; split; [reflexivity | done]].
    destruct (ct_new_state b) as [n|]; [| discriminate]. cbn [mbind option_bind].
    destruct (cream_state_change_ok (edg_wll_StringToCreamStat n)
      (js <! cream_state := edg_wll_StringToCreamStat n !>)) as [Hc Hs].
    eexists. split; [done |]. rewrite Hs. split; [| done]. etrans; [| exact Hc]. core.
Qed.

Lemma creamdata_status_ok b js :
  same_core js (creamdata_status b js) ∧
  (creamdata_status b js).(pub).(state) = js.(pub).(state).
Proof.
  unfold creamdata_status, creamdata_failure.
  destruct (_ =? _); [| split; [core | done]].
  destruct (ct_exit_code b) as [c|]; [destruct (negb _)|];
    destruct (ct_worker_node b), (ct_LRMS_jobid b), (ct_failure_reason b);
    try (split; [core | done]);
    case_match; (split; [core | done]).
Qed.

Lemma processData_Cream_ok `{Stack} e js :
  wf_taglist js →
  ∃ js', processData_Cream js e = Ret js' ∧ same_core js js' ∧
         js'.(pub).(state) = js.(pub).(state).
Proof.
  intros Hw. unfold processData_Cream.
  match goal with |- context [obind ?m _] =>
    assert (∃ js', m = Ret js' ∧ same_core js js' ∧ state (pub js') = state (pub js))
      as (js1 & -> & Hc & Hs) end.
  { destruct (ev_body e); try (eexists; split; [reflexivity |]; split; [core | done]).
    - by apply usertag_case_ok.
    - eexists. split; [reflexivity |]. apply creamdata_status_ok. }
  cbn [obind]. eexists. split; [done |]. rewrite default_location_state. split; [| done].
  etrans; [exact Hc |]. unfold default_location. destruct (location (pub js1)); core.
Qed.

Lemma cream_core `{Stack} js e :
  wf_status js → cream_named e = true →
  ∃ js', processEvent_Cream js e = Ret (RET_OK, js') ∧ wf_status js' ∧
    js'.(branch_states) = js.(branch_states) ∧
    js'.(pub).(state) = default js.(pub).(state) (cream_target e) ∧
    js'.(last_seqcode) = Some e.(ev_seqcode) ∧
    js'.(pub).(lastUpdateTime) = e.(ev_timestamp).
Proof.
  intros Hwf Hn. unfold processEvent_Cream. cbv zeta.
  destruct (cream_switch_ok e js Hn) as (js1 & -> & Hc1 & Hs1). cbn [obind].
  assert (wf_status js1) as Hwf1.
  { apply (same_core_wf js); [done .. |]. rewrite Hs1.
    destruct (cream_target e) eqn:E; [by apply cream_target_valid in E | apply Hwf]. }
  destruct (finish_ok (state (pub js)) e js1 Hwf1) as (js2 & -> & Hwf2 & E1 & E2 & E3 & E4).
  cbn [obind].
  destruct (processData_Cream_ok e (default_location "this is CREAM" js2))
    as (js3 & -> & Hc3 & Hs3); [apply default_location_wf, Hwf2 |].
  cbn [obind]. exists js3. split; [done |].
  split; [apply (same_core_wf (default_location "this is CREAM" js2)); [| done |] |].
  - by apply default_location_wf.
  - rewrite Hs3, default_location_state. apply Hwf2.
  - split; [destruct Hc3 as (_ & _ & _ & _ & _ & _ & ->);
            rewrite default_location_branches, E4; apply Hc1 |].
    destruct Hc3 as (-> & _ & _ & -> & _). rewrite Hs3, default_location_state, E1, Hs1.
    unfold default_location. by destruct (location (pub js2)).
Qed.

(** every CREAM event is recorded: the job moves to the state that belongs to the
    event (for a status event, to the grid state of the CREAM state it names, whatever the
    current state is), the event becomes the last one, [RET_OK] is returned and the job
    status stays well formed.  Only a status event without a state is fatal. *)
Theorem cream_event `{Stack} js e :
  wf_status js → cream_named e = true →
  ∃ js', processEvent_Cream js e = Ret (RET_OK, js') ∧ wf_status js' ∧
    js'.(pub).(state) = default js.(pub).(state) (cream_target e) ∧
    js'.(last_seqcode) = Some e.(ev_seqcode) ∧
    js'.(pub).(lastUpdateTime) = e.(ev_timestamp).
Proof.
  intros. destruct (cream_core js e) as (js' & E & Hwf & _ & Hr); [done .. |]. by exists js'.
Qed.

(** the failure reasons of a CREAM job are not accumulated: although the code builds a
    "glued" text when there are reasons already, a further status event with a failure
    reason forgets all the earlier ones. *)
Theorem cream_failure_reasons_lost `{Stack} js e b r :
  e.(ev_body) = CREAMStatus b → b.(ct_result) = EDG_WLL_CREAMSTATUS_DONE →
  b.(ct_failure_reason) = Some r → is_Some js.(pub).(failure_reasons) →
  ∃ js', processData_Cream js e = Ret js' ∧
    js'.(pub).(failure_reasons) = Some (r +:+ String (chr 10) ""%string).
Proof.
  intros Eb Er Ef [old Hold]. unfold processData_Cream. rewrite Eb. cbn [obind].
  eexists. split; [done |].
  transitivity (failure_reasons (pub (creamdata_status b js))).
  { unfold default_location. by destruct (location _). }
  unfold creamdata_status, creamdata_failure. rewrite Er, Ef, Z.eqb_refl.
  unfold asprintf, printf. norm_fmt.
  destruct (ct_exit_code b) as [c|]; [destruct (negb _)|];
    destruct (ct_worker_node b), (ct_LRMS_jobid b); simpl; rewrite Hold; simpl; done.
Qed.

(** ** Witnesses *)
Definition cream_code : string :=
  "UI=000000:NS=0000000000:WM=000000:BH=0000000000:JSS=000000:LM=000000:LRMS=000000:APP=000000:LBS=000002".
Definition cream_sample (reason : option string) (new_state : string) : Event :=
  mkEvent (mkTime 1000 5) (mkTime 1001 0) (Some "host"%string) 0 0 (Some sample_jobid)
    cream_code (Some "user"%string) EDG_WLL_SOURCE_LRMS None
    (CREAMStatus (mkCREAMStatus None (Some new_state) EDG_WLL_CREAMSTATUS_DONE None
       (Some "3"%string) reason (Some "wn1"%string) None)).

Lemma cream_event_witness :
  ∃ js', @processEvent_Cream zero_stack init_intJobStat
           (cream_sample None "Really-Running") = Ret (RET_OK, js') ∧ wf_status js' ∧
    js'.(pub).(state) = EDG_WLL_JOB_RUNNING ∧ js'.(last_seqcode) = Some cream_code ∧
    js'.(pub).(lastUpdateTime) = mkTime 1000 5.
Proof.
  destruct (@cream_event zero_stack init_intJobStat (cream_sample None "Really-Running")
              init_wf_status) as (js' & E & Hwf & Hr); [vm_compute; reflexivity |].
  exists js'. split; [exact E |]. split; [exact Hwf |]. exact Hr.
Defined.

Lemma cream_failure_reasons_lost_witness :
  ∃ js', @processData_Cream zero_stack
           (init_intJobStat <! failure_reasons := Some "first"%string !>)
           (cream_sample (Some "second"%string) "done-failed") = Ret js' ∧
    js'.(pub).(failure_reasons) = Some ("second" +:+ String (chr 10) ""%string)%string.
Proof.
  eapply cream_failure_reasons_lost; [reflexivity .. |]. eexists. reflexivity.
Defined.
