(* ===== verification/ProcessFT.v ===== *)
(** * The state machine: file transfers

    The models of org.glite.lb.state-machine/src/process_event_file_transfer.c and
    process_event_file_transfer_collection.c.  Events are never late here: [USABLE(res)]
    and [USABLE_DATA(res)] are always true. *)
From Stdlib Require Import ZArith Lia Ascii.
From stdpp Require Import base option list strings numbers.
From S2P Require Import Prelude CLib JobId LbTypes Events SeqCode StateMachine.
#[local] Open Scope Z_scope.

(** The sandbox event of both processors. *)
Definition ft_sandbox (b : SandboxEvent) (js : intJobStat) : intJobStat :=
  let js := if b.(sb_sandbox_type) =? EDG_WLL_SANDBOX_INPUT
            then js <! ft_sandbox_type := EDG_WLL_STAT_INPUT !> else js in
  let js := if b.(sb_sandbox_type) =? EDG_WLL_SANDBOX_OUTPUT
            then js <! ft_sandbox_type := EDG_WLL_STAT_OUTPUT !> else js in
  match b.(sb_compute_job) with
  | Some j => js <! ft_compute_job := glite_jobid_parse j !>
  | None => js
  end.

Definition ft_switch (e : Event) (js : intJobStat) : intJobStat :=
  match e.(ev_body) with
  | RegJob b =>
    js <! state := EDG_WLL_JOB_SUBMITTED !> <! parent_job := glite_jobid_dup b.(rj_parent) !>
  | FileTransferRegister src dest => js <! ft_src := src !> <! ft_dest := dest !>
  | FileTransfer result reason =>
    if result =? EDG_WLL_FILETRANSFER_START then js <! state := EDG_WLL_JOB_RUNNING !>
    else if result =? EDG_WLL_FILETRANSFER_OK then
      js <! state := EDG_WLL_JOB_DONE !> <! done_code := EDG_WLL_STAT_OK !>
    else if result =? EDG_WLL_FILETRANSFER_FAIL then
      js <! state := EDG_WLL_JOB_DONE !> <! done_code := EDG_WLL_STAT_FAILED !>
         <! failure_reasons := reason !>
    else js
  | Abort_ r =>
    js <! state := EDG_WLL_JOB_ABORTED !> <! remove_from_proxy := 1 !>
       <! reason := r !> <! location := Some "none"%string !>
  | Sandbox b => ft_sandbox b js
  | Resubmission result r _ =>
    if result =? EDG_WLL_RESUBMISSION_WONTRESUB then js <! reason := r !> else js
  | _ => js
  end.

Definition processEvent_FileTransfer (js : intJobStat) (e : Event) : outcome (Z * intJobStat) :=
  let old_state := js.(pub).(state) in
  let js := ft_switch e js in
  let! js := update_times old_state e (js <| last_seqcode := Some e.(ev_seqcode) |>) in
  Ret (RET_OK, default_location "this is FILE TRANSFER" js).

(** The state that a CollectionState event names is stored as it is found, -1 for a name
    that is not known. *)
Definition ftc_switch (e : Event) (js : intJobStat) : outcome intJobStat :=
  match e.(ev_body) with
  | RegJob b =>
    let js := js <! state := EDG_WLL_JOB_SUBMITTED !>
                 <! children_num := b.(rj_nsubjobs) !> in
    let! h := store_int js.(pub).(children_hist) (EDG_WLL_JOB_UNKNOWN + 1)
                js.(pub).(children_num) in
    Ret (js <! children_hist := h !>)
  | Sandbox b => Ret (ft_sandbox b js)
  | CollectionState b =>
    match b.(cs_state) with
    | None => UB NullDeref
    | Some name =>
      let new_state := edg_wll_StringToStat name in
      let js := js <! state := new_state !> in
      Ret (if new_state =? EDG_WLL_JOB_DONE then js <! done_code := b.(cs_done_code) !> else js)
    end
  | _ => Ret js
  end.

Definition processEvent_FileTransferCollection (js : intJobStat) (e : Event) :
    outcome (Z * intJobStat) :=
  let old_state := js.(pub).(state) in
  let! js := ftc_switch e js in
  let! js := update_times old_state e (js <| last_seqcode := Some e.(ev_seqcode) |>) in
  Ret (RET_OK, default_location "this is FILE TRANSFER" js).

(** ** Properties *)
Definition ft_target (e : Event) : option Z :=
  match e.(ev_body) with
  | RegJob _ => Some EDG_WLL_JOB_SUBMITTED
  | FileTransfer 1 _ => Some EDG_WLL_JOB_RUNNING
  | FileTransfer (2 | 3) _ => Some EDG_WLL_JOB_DONE
  | Abort_ _ => Some EDG_WLL_JOB_ABORTED
  | _ => None
  end.

Lemma ft_sandbox_ok b js :
  same_core js (ft_sandbox b js) ∧ (ft_sandbox b js).(pub).(state) = js.(pub).(state).
Proof.
  unfold ft_sandbox. destruct (_ =? EDG_WLL_SANDBOX_INPUT), (_ =? EDG_WLL_SANDBOX_OUTPUT),
    (sb_compute_job b); (split; [core | done]).
Qed.

Lemma ft_switch_ok e js :
  same_core js (ft_switch e js) ∧
  (ft_switch e js).(pub).(state) = default js.(pub).(state) (ft_target e).
Proof.
  unfold ft_switch, ft_target. destruct (ev_body e); try (split; [core | done]).
  - destruct (_ =? _); (split; [core | done]).
  - destruct (Z.eqb_spec result EDG_WLL_FILETRANSFER_START) as [->|H1]; [split; [core | done] |].
    destruct (Z.eqb_spec result EDG_WLL_FILETRANSFER_OK) as [->|H2]; [split; [core | done] |].
    destruct (Z.eqb_spec result EDG_WLL_FILETRANSFER_FAIL) as [->|H3]; [split; [core | done] |].
    split; [core |]. destruct result as [|[[]|[]|]|]; done.
  - apply ft_sandbox_ok.
Qed.

Lemma ft_core js e :
  wf_status js →
  ∃ js', processEvent_FileTransfer js e = Ret (RET_OK, js') ∧ wf_status js' ∧
    js'.(branch_states) = js.(branch_states) ∧
    js'.(pub).(state) = default js.(pub).(state) (ft_target e) ∧
    js'.(last_seqcode) = Some e.(ev_seqcode) ∧
    js'.(pub).(lastUpdateTime) = e.(ev_timestamp).
Proof.
  intros Hwf. unfold processEvent_FileTransfer. cbv zeta.
  destruct (ft_switch_ok e js) as [Hc Hs].
  destruct (finish_ok (state (pub js)) e (ft_switch e js)) as (js2 & -> & Hwf2 & E1 & E2 & E3 & E4).
  { apply (same_core_wf js); [done .. |]. rewrite Hs.
    unfold ft_target. repeat case_match; try apply Hwf; by vm_compute. }
  cbn [obind]. eexists. split; [done |]. split; [by apply default_location_wf |].
  rewrite default_location_state, default_location_branches, E1, Hs, E4.
  split; [apply Hc |].
  unfold default_location. by destruct (location (pub js2)).
Qed.

(** every file transfer event is recorded: registration, start, success, failure and
    abort move the job to Submitted, Running, Done, Done and Aborted, whatever the current
    state is, other events keep the state; the event becomes the last one and [RET_OK] is
    returned. *)
Theorem ft_event js e :
  wf_status js →
  ∃ js', processEvent_FileTransfer js e = Ret (RET_OK, js') ∧ wf_status js' ∧
    js'.(pub).(state) = default js.(pub).(state) (ft_target e) ∧
    js'.(last_seqcode) = Some e.(ev_seqcode) ∧
    js'.(pub).(lastUpdateTime) = e.(ev_timestamp).
Proof.
  intros. destruct (ft_core js e) as (js' & E & Hwf & _ & Hr); [done .. |]. by exists js'.
Qed.

(** The outcome of a transfer collection's event, the histogram included. *)
Definition ftc_ok (e : Event) : bool :=
  match e.(ev_body) with
  | CollectionState b =>
    match b.(cs_state) with
    | Some n => 0 <=? edg_wll_StringToStat n
    | None => false
    end
  | _ => true
  end.
Definition ftc_target (e : Event) : option Z :=
  match e.(ev_body) with
  | RegJob _ => Some EDG_WLL_JOB_SUBMITTED
  | CollectionState b => edg_wll_StringToStat <$> b.(cs_state)
  | _ => None
  end.

Lemma name_index_bound names n k i :
  name_index names n k = Some i → (k ≤ i < k + List.length names)%nat.
Proof.
  revert k. induction names as [|x names IH]; intros k; simpl; [done |].
  destruct (strcasecmp_eq x n); [intros [= <-]; lia |]. intros H%IH. lia.
Qed.
Lemma StringToStat_range n :
  edg_wll_StringToStat n = -1 ∨ valid_state (edg_wll_StringToStat n).
Proof.
  unfold edg_wll_StringToStat. destruct (name_index statNames n 0) as [i|] eqn:E; [| auto].
  right. apply name_index_bound in E. change (List.length statNames) with 12%nat in E.
  unfold valid_state, EDG_WLL_JOB_UNDEF, EDG_WLL_NUMBER_OF_STATCODES. lia.
Qed.

Lemma ftc_switch_ok e js :
  wf_status js → ftc_ok e = true →
  ∃ js', ftc_switch e js = Ret js' ∧ wf_status js' ∧
    js'.(pub).(state) = default js.(pub).(state) (ftc_target e) ∧
    js'.(branch_states) = js.(branch_states).
Proof.
  intros Hwf Hok. unfold ftc_switch, ftc_target. unfold ftc_ok in Hok.
  destruct (ev_body e); try (by eexists).
  - (* RegJob *)
    destruct Hwf as (Hs & Ht & Hc & Hw). cbv zeta.
    destruct (store_int_counted _ (EDG_WLL_JOB_UNKNOWN + 1) (rj_nsubjobs b) Hc)
      as (a & E & Ha & _); [by vm_compute |].
    match goal with |- context [store_int ?x ?y ?z] =>
      change (store_int x y z) with
        (store_int (children_hist (pub js)) (EDG_WLL_JOB_UNKNOWN + 1) (rj_nsubjobs b)) end.
    rewrite E. cbn [obind]. eexists. split; [done |]. split; [| done].
    split; [by vm_compute |]. exact (conj Ht (conj Ha Hw)).
  - (* CollectionState *)
    destruct (cs_state b) as [n|]; [| discriminate]. zbool.
    destruct (StringToStat_range n) as [?|Hv]; [lia |].
    destruct Hwf as (Hs & Ht & Hc & Hw). cbv zeta.
    eexists. split; [done |]. destruct (_ =? _); (split; [| done]);
      exact (conj Hv (conj Ht (conj Hc Hw))).
  - (* Sandbox *)
    eexists. split; [done |]. destruct (ft_sandbox_ok b js) as [Hc Hs].
    split; [| split; [done | apply Hc]].
    apply (same_core_wf js); [done .. |]. rewrite Hs. apply Hwf.
Qed.

Lemma ftc_core js e :
  wf_status js → ftc_ok e = true →
  ∃ js', processEvent_FileTransferCollection js e = Ret (RET_OK, js') ∧ wf_status js' ∧
    js'.(branch_states) = js.(branch_states) ∧
    js'.(pub).(state) = default js.(pub).(state) (ftc_target e) ∧
    js'.(last_seqcode) = Some e.(ev_seqcode) ∧
    js'.(pub).(lastUpdateTime) = e.(ev_timestamp).
Proof.
  intros Hwf Hok. unfold processEvent_FileTransferCollection. cbv zeta.
  destruct (ftc_switch_ok e js Hwf Hok) as (js1 & -> & Hwf1 & Hs & Hb). cbn [obind].
  destruct (finish_ok (state (pub js)) e js1 Hwf1) as (js2 & -> & Hwf2 & E1 & E2 & E3 & E4).
  cbn [obind]. eexists. split; [done |]. split; [by apply default_location_wf |].
  rewrite default_location_state, default_location_branches, E1, Hs, E4.
  split; [done |].
  unfold default_location. by destruct (location (pub js2)).
Qed.

(** an event of a file transfer collection is recorded: registration fills the
    histogram of the children with the number of subjobs, a CollectionState event with a
    known state name moves the collection to that state, and the job status stays well
    formed. *)
Theorem ftc_event js e :
  wf_status js → ftc_ok e = true →
  ∃ js', processEvent_FileTransferCollection js e = Ret (RET_OK, js') ∧ wf_status js' ∧
    js'.(pub).(state) = default js.(pub).(state) (ftc_target e) ∧
    js'.(last_seqcode) = Some e.(ev_seqcode) ∧
    js'.(pub).(lastUpdateTime) = e.(ev_timestamp).
Proof.
  intros. destruct (ftc_core js e) as (js' & E & Hwf & _ & Hr); [done .. |]. by exists js'.
Qed.

(** a CollectionState event with an unknown state name is not refused: the state of
    the collection becomes -1 and the number of elements of [stateEnterTimes] is
    overwritten with the time of the event. *)
Theorem ftc_unknown_state js e b n :
  wf_status js → e.(ev_body) = CollectionState b → b.(cs_state) = Some n →
  edg_wll_StringToStat n = -1 →
  ∃ js' l, processEvent_FileTransferCollection js e = Ret (RET_OK, js') ∧
    js'.(pub).(state) = -1 ∧
    js'.(pub).(stateEnterTimes) = Some (s32 e.(ev_timestamp).(tv_sec) :: l).
Proof.
  intros (Hv & (l & Et & Hl) & _) Eb Es En. unfold processEvent_FileTransferCollection, ftc_switch.
  rewrite Eb, Es. cbv zeta. cbn [obind]. rewrite En. cbn [Z.eqb EDG_WLL_JOB_DONE].
  unfold update_times. cbv zeta. destruct (Z.eqb_spec (state (pub js)) (-1)) as [E|E].
  { rewrite E in Hv. destruct Hv as [Hv _]. by vm_compute in Hv. }
  simpl state. rewrite (proj2 (Z.eqb_neq _ _) E). unfold set_enter_time. simpl stateEnterTimes.
  rewrite Et. cbn. eexists _, l. split; [done |]. rewrite default_location_state.
  split; [done |]. unfold default_location. case_match; done.
Qed.

(** ** Witnesses *)
Definition ft_sample (b : EventBody) : Event :=
  mkEvent (mkTime 1000 5) (mkTime 1001 0) (Some "host"%string) 0 0 (Some sample_jobid)
    EDG_WLL_SEQ_NULL (Some "user"%string) EDG_WLL_SOURCE_LRMS None b.
Definition ft_collection (name : string) : Event :=
  ft_sample (CollectionState (mkCollectionState (Some name) EDG_WLL_STAT_FAILED None None None)).

Lemma ft_event_witness :
  ∃ js', processEvent_FileTransfer init_intJobStat
           (ft_sample (FileTransfer EDG_WLL_FILETRANSFER_FAIL (Some "disk full"%string))) =
           Ret (RET_OK, js') ∧ wf_status js' ∧
    js'.(pub).(state) = EDG_WLL_JOB_DONE ∧ js'.(last_seqcode) = Some EDG_WLL_SEQ_NULL ∧
    js'.(pub).(lastUpdateTime) = mkTime 1000 5.
Proof. exact (ft_event init_intJobStat (ft_sample _) init_wf_status). Defined.

Lemma ftc_event_witness :
  ∃ js', processEvent_FileTransferCollection init_intJobStat (ft_collection "done") =
           Ret (RET_OK, js') ∧ wf_status js' ∧
    js'.(pub).(state) = EDG_WLL_JOB_DONE ∧ js'.(last_seqcode) = Some EDG_WLL_SEQ_NULL ∧
    js'.(pub).(lastUpdateTime) = mkTime 1000 5.
Proof. exact (ftc_event init_intJobStat (ft_collection "done") init_wf_status eq_refl). Defined.

Lemma ftc_unknown_state_witness :
  ∃ js' l, processEvent_FileTransferCollection init_intJobStat (ft_collection "finished") =
             Ret (RET_OK, js') ∧
    js'.(pub).(state) = -1 ∧ js'.(pub).(stateEnterTimes) = Some (1000 :: l).
Proof.
  exact (ftc_unknown_state init_intJobStat (ft_collection "finished") _ "finished"
           init_wf_status eq_refl eq_refl eq_refl).
Defined.
