(* ===== verification/ProcessVM.v ===== *)
(** * The state machine: virtual machines

    The model of org.glite.lb.state-machine/src/process_event_virtual_machine.c.  Events
    are never late here, and the last sequence code is not kept. *)
From Stdlib Require Import ZArith Lia Ascii.
From stdpp Require Import base option list strings numbers relations.
From S2P Require Import Prelude CLib JobId LbTypes Events SeqCode StateMachine.
#[local] Open Scope Z_scope.

Definition vm_create (b : VMCreateEvent) (js : intJobStat) : intJobStat :=
  js <! vm_require := rep_cond js.(pub).(vm_require) b.(vc_require) !>
     <! vm_image := rep_cond js.(pub).(vm_image) b.(vc_image) !>
     <! vm_id := rep_cond js.(pub).(vm_id) b.(vc_id) !>
     <! vm_name := rep_cond js.(pub).(vm_name) b.(vc_name) !>
     <! owner := rep_cond js.(pub).(owner) b.(vc_owner) !>
     <! vm_hostname := rep_cond js.(pub).(vm_hostname) b.(vc_hostname) !>
     <! destination := rep_cond js.(pub).(destination) b.(vc_hostname) !>.

Definition vm_running (source : edg_wll_Source) (js : intJobStat) : intJobStat :=
  let js :=
    match source with
    | EDG_WLL_SOURCE_CLOUD_MANAGER | EDG_WLL_SOURCE_VM_MANAGER =>
      if js.(pub).(vm_state) =? EDG_WLL_STAT_VM_REALLY_RUNNING then js
      else js <! vm_state := EDG_WLL_STAT_VM_RUNNING !>
    | EDG_WLL_SOURCE_VM_SYSTEM => js <! vm_state := EDG_WLL_STAT_VM_REALLY_RUNNING !>
    | _ => js
    end in
  js <! state := EDG_WLL_JOB_RUNNING !>.

Definition vm_shutdown (e : Event) (js : intJobStat) : intJobStat :=
  let js :=
    match e.(ev_source) with
    | EDG_WLL_SOURCE_CLOUD_MANAGER =>
      js <! vm_state := EDG_WLL_STAT_VM_SHUTDOWN !> <! state := EDG_WLL_JOB_WAITING !>
    | EDG_WLL_SOURCE_VM_MANAGER => js <! vm_system_halting := 1 !>
    | EDG_WLL_SOURCE_VM_SYSTEM =>
      let js := js <! vm_system_halting := 1 !> in
      if js.(pub).(vm_state) =? EDG_WLL_STAT_VM_REALLY_RUNNING
      then js <! vm_state := EDG_WLL_STAT_VM_RUNNING !> else js
    | _ => js
    end in
  js <! vm_usage := rep_cond js.(pub).(vm_usage) (vMDone_usage e.(ev_body)) !>.

Definition vm_done (status_code : Z) (usage : option string) (js : intJobStat) : intJobStat :=
  let js :=
    if status_code =? EDG_WLL_VMDONE_OK then
      js <! vm_state := EDG_WLL_STAT_VM_DONE !> <! state := EDG_WLL_JOB_DONE !>
         <! done_code := EDG_WLL_STAT_OK !>
    else if status_code =? EDG_WLL_VMDONE_DELETE then
      js <! vm_state := EDG_WLL_STAT_VM_DONE !> <! state := EDG_WLL_JOB_DONE !>
         <! done_code := EDG_WLL_STAT_CANCELLED !>
    else if status_code =? EDG_WLL_VMDONE_FAILURE then
      js <! vm_state := EDG_WLL_STAT_VM_FAILURE !> <! state := EDG_WLL_JOB_DONE !>
         <! done_code := EDG_WLL_STAT_FAILED !>
    else js in
  js <! vm_usage := rep_cond js.(pub).(vm_usage) usage !>.

Definition vm_switch (e : Event) (js : intJobStat) : intJobStat :=
  match e.(ev_body) with
  | RegJob _ =>
    js <! vm_state := EDG_WLL_STAT_VM_PENDING !> <! state := EDG_WLL_JOB_SUBMITTED !>
  | VMCreate b => vm_create b js
  | VMHost hostname =>
    js <! vm_phy_hostname := rep_cond js.(pub).(vm_phy_hostname) hostname !>
  | VMImage _ =>
    js <! vm_image := rep_cond js.(pub).(vm_image) (vMCreate_image e.(ev_body)) !>
  | VMRunning => vm_running e.(ev_source) js
  | VMShutdown _ => vm_shutdown e js
  | VMStop => js <! vm_state := EDG_WLL_STAT_VM_STOPPED !> <! state := EDG_WLL_JOB_WAITING !>
  | VMResume =>
    js <! vm_state := EDG_WLL_STAT_VM_PENDING !> <! state := EDG_WLL_JOB_WAITING !>
       <! vm_system_halting := 0 !>
  | VMDone status_code usage => vm_done status_code usage js
  | _ => js
  end.

Definition processEvent_VirtualMachine (js : intJobStat) (e : Event) :
    outcome (Z * intJobStat) :=
  let old_state := js.(pub).(state) in
  let js := vm_switch e js in
  let! js := update_times old_state e js in
  Ret (RET_OK, default_location "this is VIRTUAL MACHINE" js).

(** ** Properties *)
Definition vm_target (e : Event) : option Z :=
  match e.(ev_body), e.(ev_source) with
  | RegJob _, _ => Some EDG_WLL_JOB_SUBMITTED
  | VMRunning, _ => Some EDG_WLL_JOB_RUNNING
  | VMShutdown _, EDG_WLL_SOURCE_CLOUD_MANAGER => Some EDG_WLL_JOB_WAITING
  | VMStop, _ => Some EDG_WLL_JOB_WAITING
  | VMResume, _ => Some EDG_WLL_JOB_WAITING
  | VMDone (1 | 2 | 3) _, _ => Some EDG_WLL_JOB_DONE
  | _, _ => None
  end.

Lemma vm_done_ok c u js :
  same_core js (vm_done c u js) ∧
  (vm_done c u js).(pub).(state) =
    match c with 1 | 2 | 3 => EDG_WLL_JOB_DONE | _ => js.(pub).(state) end.
Proof.
  unfold vm_done.
  destruct (Z.eqb_spec c EDG_WLL_VMDONE_OK) as [->|H1]; [split; [core | done] |].
  destruct (Z.eqb_spec c EDG_WLL_VMDONE_DELETE) as [->|H2]; [split; [core | done] |].
  destruct (Z.eqb_spec c EDG_WLL_VMDONE_FAILURE) as [->|H3]; [split; [core | done] |].
  split; [core |]. destruct c as [|[[]|[]|]|]; done.
Qed.

Lemma vm_switch_ok e js :
  same_core js (vm_switch e js) ∧
  (vm_switch e js).(pub).(state) = default js.(pub).(state) (vm_target e).
Proof.
  unfold vm_switch, vm_target. destruct (ev_body e) eqn:Eb; try (split; [core | done]).
  - unfold vm_running. destruct (ev_source e); try destruct (_ =? _); (split; [core | done]).
  - unfold vm_shutdown. destruct (ev_source e); cbv zeta; try destruct (_ =? _);
      (split; [core | done]).
  - destruct (vm_done_ok status_code usage js) as [Hc ->]. split; [done |].
    destruct status_code as [|[[]|[]|]|]; done.
Qed.

Lemma vm_target_valid e s : vm_target e = Some s → valid_state s.
Proof.
  unfold vm_target. intros H. repeat case_match; simplify_eq; by vm_compute.
Qed.

Lemma vm_core js e :
  wf_status js →
  ∃ js', processEvent_VirtualMachine js e = Ret (RET_OK, js') ∧ wf_status js' ∧
    js'.(branch_states) = js.(branch_states) ∧
    js'.(pub).(state) = default js.(pub).(state) (vm_target e) ∧
    js'.(pub).(lastUpdateTime) = e.(ev_timestamp).
Proof.
  intros Hwf. unfold processEvent_VirtualMachine. cbv zeta.
  destruct (vm_switch_ok e js) as [Hc Hs].
  destruct (update_times_ok (state (pub js)) e (vm_switch e js))
    as (js2 & Eu & Hwf2 & E1 & E2 & _).
  { apply (same_core_wf js); [done .. |]. rewrite Hs.
    destruct (vm_target e) eqn:E; [by apply vm_target_valid in E | apply Hwf]. }
  rewrite Eu. cbn [obind]. eexists. split; [done |]. split; [by apply default_location_wf |].
  rewrite default_location_state, default_location_branches, E1, Hs.
  split; [destruct (update_times_branches _ _ _ _ Eu) as [-> _]; apply Hc |].
  unfold default_location. by destruct (location (pub js2)).
Qed.

(** every event of a virtual machine is accepted: the job moves to the state of the
    event (Waiting for a shutdown reported by the cloud manager, a stop and a resume, Done
    for a done event with a known code), keeps it otherwise, and the job status stays well
    formed. *)
Theorem vm_event js e :
  wf_status js →
  ∃ js', processEvent_VirtualMachine js e = Ret (RET_OK, js') ∧ wf_status js' ∧
    js'.(pub).(state) = default js.(pub).(state) (vm_target e) ∧
    js'.(pub).(lastUpdateTime) = e.(ev_timestamp).
Proof.
  intros. destruct (vm_core js e) as (js' & E & Hwf & _ & Hr); [done .. |]. by exists js'.
Qed.

(** A state of the machine that contradicts the state of the job. *)
Definition vm_consistent (js : intJobStat) : Prop :=
  (js.(pub).(vm_state) = EDG_WLL_STAT_VM_RUNNING ∨
   js.(pub).(vm_state) = EDG_WLL_STAT_VM_REALLY_RUNNING →
   js.(pub).(state) = EDG_WLL_JOB_RUNNING) ∧
  (js.(pub).(vm_state) = EDG_WLL_STAT_VM_DONE ∨
   js.(pub).(vm_state) = EDG_WLL_STAT_VM_FAILURE →
   js.(pub).(state) = EDG_WLL_JOB_DONE) ∧
  (js.(pub).(vm_state) = EDG_WLL_STAT_VM_SHUTDOWN ∨
   js.(pub).(vm_state) = EDG_WLL_STAT_VM_STOPPED →
   js.(pub).(state) = EDG_WLL_JOB_WAITING) ∧
  (js.(pub).(vm_state) = EDG_WLL_STAT_VM_PENDING →
   js.(pub).(state) = EDG_WLL_JOB_SUBMITTED ∨ js.(pub).(state) = EDG_WLL_JOB_WAITING).

(** The running event is logged by a component that tells the machine's state. *)
Definition vm_source_known (e : Event) : bool :=
  match e.(ev_body), e.(ev_source) with
  | VMRunning, (EDG_WLL_SOURCE_CLOUD_MANAGER | EDG_WLL_SOURCE_VM_MANAGER |
                EDG_WLL_SOURCE_VM_SYSTEM) => true
  | VMRunning, _ => false
  | _, _ => true
  end.

Ltac vm_lia :=
  unfold EDG_WLL_STAT_VM_PENDING, EDG_WLL_STAT_VM_RUNNING, EDG_WLL_STAT_VM_REALLY_RUNNING,
    EDG_WLL_STAT_VM_SHUTDOWN, EDG_WLL_STAT_VM_STOPPED, EDG_WLL_STAT_VM_DONE,
    EDG_WLL_STAT_VM_FAILURE, EDG_WLL_JOB_SUBMITTED, EDG_WLL_JOB_WAITING,
    EDG_WLL_JOB_RUNNING, EDG_WLL_JOB_DONE in *; lia.

Lemma vm_switch_consistent e js :
  vm_source_known e = true → vm_consistent js → vm_consistent (vm_switch e js).
Proof.
  unfold vm_source_known, vm_consistent, vm_switch. intros Hk H.
  destruct (ev_body e); try exact H; try (simpl; vm_lia).
  - (* VMRunning *)
    unfold vm_running. destruct (ev_source e); try discriminate;
      try destruct (Z.eqb_spec (vm_state (pub js)) EDG_WLL_STAT_VM_REALLY_RUNNING) as [E|E];
      simpl; vm_lia.
  - (* VMShutdown *)
    unfold vm_shutdown. destruct (ev_source e); simpl; try exact H; try vm_lia.
    destruct (Z.eqb_spec (vm_state (pub js)) EDG_WLL_STAT_VM_REALLY_RUNNING) as [E|];
      simpl; [| exact H]. vm_lia.
  - (* VMDone *)
    unfold vm_done. repeat (destruct (status_code =? _); [simpl; vm_lia |]).
    exact H.
Qed.

(** The steps of one machine's state. *)
Inductive vm_step : intJobStat → intJobStat → Prop :=
| VmStep js e r js' :
  vm_source_known e = true → processEvent_VirtualMachine js e = Ret (r, js') → vm_step js js'.

(** the two states of a virtual machine never contradict each other: in every job
    status that is reached from the initial one by events of virtual machines (running
    events from the cloud manager, the VM manager or the system itself), a running machine
    belongs to a Running job, a finished or failed one to a Done job, a stopped one to a
    Waiting job and a pending one to a Submitted or Waiting job. *)
Theorem vm_states_agree js :
  rtc vm_step init_intJobStat js → vm_consistent js.
Proof.
  intros H. assert (vm_consistent init_intJobStat) as H0.
  { unfold vm_consistent. simpl. vm_lia. }
  induction H as [|js1 js2 js3 Hstep _ IH]; [done |]. apply IH. clear IH js3.
  destruct Hstep as [js e r js' Hk E].
  unfold processEvent_VirtualMachine in E. cbv zeta in E.
  apply obind_Ret_inv in E as (js2 & E & [= _ <-]).
  pose proof (vm_switch_consistent e js Hk H0) as Hc.
  assert (vm_consistent js2) as Hc2.
  { revert E. unfold update_times. cbv zeta. destruct (_ =? _); [by intros [= <-] |].
    unfold set_enter_time. intros (a & _ & [= <-])%obind_Ret_inv. exact Hc. }
  unfold default_location. destruct (location (pub js2)); exact Hc2.
Qed.

(** the image of a virtual machine that is announced by a VMImage event and the usage
    reported by a VMShutdown event never reach the job status: the processor reads both
    through the wrong member of the event union. *)
Theorem vm_fields_lost js e img usage :
  e.(ev_body) = VMImage img ∨ e.(ev_body) = VMShutdown usage →
  (vm_switch e js).(pub).(vm_image) = js.(pub).(vm_image) ∧
  (vm_switch e js).(pub).(vm_usage) = js.(pub).(vm_usage).
Proof.
  unfold vm_switch. intros [-> | Eb]; [done |]. rewrite Eb. unfold vm_shutdown. rewrite Eb.
  destruct (ev_source e); cbv zeta; try destruct (_ =? _); done.
Qed.

(** ** Witnesses *)
Definition vm_sample (source : edg_wll_Source) (b : EventBody) : Event :=
  mkEvent (mkTime 1000 5) (mkTime 1001 0) (Some "host"%string) 0 0 (Some sample_jobid)
    EDG_WLL_SEQ_NULL (Some "user"%string) source None b.

Lemma vm_event_witness :
  ∃ js', processEvent_VirtualMachine init_intJobStat
           (vm_sample EDG_WLL_SOURCE_CLOUD_MANAGER (VMDone EDG_WLL_VMDONE_FAILURE None)) =
           Ret (RET_OK, js') ∧ wf_status js' ∧
    js'.(pub).(state) = EDG_WLL_JOB_DONE ∧ js'.(pub).(lastUpdateTime) = mkTime 1000 5.
Proof. exact (vm_event init_intJobStat (vm_sample _ _) init_wf_status). Defined.

Lemma vm_states_agree_witness :
  match processEvent_VirtualMachine init_intJobStat
          (vm_sample EDG_WLL_SOURCE_VM_SYSTEM VMRunning) with
  | Ret (_, js) => vm_consistent js
  | UB _ => False
  end.
Proof.
  destruct (processEvent_VirtualMachine init_intJobStat
              (vm_sample EDG_WLL_SOURCE_VM_SYSTEM VMRunning)) as [[r js]|w] eqn:E.
  - apply vm_states_agree. eapply rtc_l; [| apply rtc_refl].
    exact (VmStep init_intJobStat (vm_sample EDG_WLL_SOURCE_VM_SYSTEM VMRunning) r js eq_refl E).
  - vm_compute in E. discriminate E.
Defined.

Lemma vm_fields_lost_witness :
  (vm_switch (vm_sample EDG_WLL_SOURCE_VM_MANAGER (VMImage (Some "img"%string)))
     init_intJobStat).(pub).(vm_image) = None.
Proof.
  apply (vm_fields_lost init_intJobStat
           (vm_sample EDG_WLL_SOURCE_VM_MANAGER (VMImage (Some "img"%string)))
           (Some "img"%string) None). by left.
Defined.
