(* ===== verification/ProcessCondor.v ===== *)
(** * The state machine: Condor jobs

    The model of org.glite.lb.state-machine/src/process_event_condor.c, without its debug
    output.  [usable] is [USABLE(res)], [USABLE_DATA(res)] is always true. *)
From Stdlib Require Import ZArith Lia Ascii.
From stdpp Require Import base option list strings numbers.
From S2P Require Import Prelude CLib JobId LbTypes Events SeqCode StateMachine.
#[local] Open Scope Z_scope.

(** [js->pub.state = st; rep(js->pub.condor_status, text);] *)
Definition condor_move (usable : bool) (st : Z) (text : string) (js : intJobStat) : intJobStat :=
  if usable then js <! state := st !> <! condor_status := Some text !> else js.

Definition condor_shadow_started (usable : bool) (e : Event) (pid : Z) (js : intJobStat) :
    outcome intJobStat :=
  let js := condor_move usable EDG_WLL_JOB_READY "Idle" js in
  let! src := get_condor_event_source e.(ev_seqcode) in
  Ret (match src with
       | EDG_WLL_CONDOR_EVENT_SOURCE_SCHED => js <! condor_shadow_pid := pid !>
       | _ => js
       end).

Definition condor_shadow_exited (usable : bool) (e : Event) (status : Z) (js : intJobStat) :
    outcome intJobStat :=
  let js := condor_move usable EDG_WLL_JOB_DONE "Completed" js in
  let! src := get_condor_event_source e.(ev_seqcode) in
  Ret (match src with
       | EDG_WLL_CONDOR_EVENT_SOURCE_SHADOW => js <! condor_shadow_exit_status := status !>
       | _ => js
       end).

Definition condor_starter_started (usable : bool) (e : Event) (pid : Z)
    (universe : option string) (js : intJobStat) : outcome intJobStat :=
  let! src := get_condor_event_source e.(ev_seqcode) in
  let js := match src with
            | EDG_WLL_CONDOR_EVENT_SOURCE_START =>
              condor_move usable EDG_WLL_JOB_SCHEDULED "Idle" js
            | EDG_WLL_CONDOR_EVENT_SOURCE_STARTER =>
              condor_move usable EDG_WLL_JOB_RUNNING "Running" js
            | _ => js
            end in
  Ret (match src with
       | EDG_WLL_CONDOR_EVENT_SOURCE_STARTER =>
         js <! condor_universe := universe !> <! condor_starter_pid := pid !>
       | _ => js
       end).

Definition condor_starter_exited (usable : bool) (e : Event) (b : CondorStarterExitedEvent)
    (js : intJobStat) : outcome intJobStat :=
  let js := condor_move usable EDG_WLL_JOB_DONE "Completed" js in
  let! src := get_condor_event_source e.(ev_seqcode) in
  Ret (match src with
       | EDG_WLL_CONDOR_EVENT_SOURCE_START =>
         js <! condor_starter_pid := b.(cx_starter_pid) !>
            <! condor_starter_exit_status := b.(cx_starter_exit_status) !>
       | EDG_WLL_CONDOR_EVENT_SOURCE_STARTER =>
         js <! condor_starter_pid := b.(cx_starter_pid) !>
            <! condor_job_pid := b.(cx_job_pid) !>
            <! condor_job_exit_status := b.(cx_job_exit_status) !>
       | _ => js
       end).

Definition condor_switch (usable : bool) (e : Event) (js : intJobStat) : outcome intJobStat :=
  match e.(ev_body) with
  | RegJob b =>
    let js := condor_move usable EDG_WLL_JOB_SUBMITTED "Idle" js in
    Ret (js <! jdl := b.(rj_jdl) !>)
  | CondorMatch _ dest_host _ =>
    let js := condor_move usable EDG_WLL_JOB_READY "Idle" js in
    Ret (js <! condor_dest_host := rep_cond js.(pub).(condor_dest_host) dest_host !>)
  | CondorReject _ status_code =>
    let js := condor_move usable EDG_WLL_JOB_ABORTED "Unexpanded" js in
    Ret (if status_code =? EDG_WLL_CONDORREJECT_NOMATCH
         then js <! condor_reason := Some "No match found."%string !> else js)
  | CondorShadowStarted pid => condor_shadow_started usable e pid js
  | CondorShadowExited _ status => condor_shadow_exited usable e status js
  | CondorStarterStarted pid universe => condor_starter_started usable e pid universe js
  | CondorStarterExited b => condor_starter_exited usable e b js
  | _ => Ret js
  end.

Definition processEvent_Condor (js : intJobStat) (e : Event) : outcome (Z * intJobStat) :=
  let old_state := js.(pub).(state) in
  let! res :=
    match js.(last_seqcode) with
    | Some last =>
      let! c := edg_wll_compare_condor_seq last e.(ev_seqcode) in
      Ret (if 0 <? c then RET_LATE else RET_OK)
    | None => Ret RET_OK
    end in
  let usable := res =? RET_OK in
  let! js := condor_switch usable e js in
  let! js :=
    if usable then update_times old_state e (js <| last_seqcode := Some e.(ev_seqcode) |>)
    else Ret js in
  Ret (RET_OK, default_location "this is CONDOR" js).

(** ** Properties *)

(** The events whose processing looks at the source letter of the sequence code. *)
Definition condor_needs_source (e : Event) : bool :=
  match e.(ev_body) with
  | CondorShadowStarted _ | CondorShadowExited _ _ | CondorStarterStarted _ _
  | CondorStarterExited _ => true
  | _ => false
  end.
Definition condor_readable (e : Event) : Prop :=
  condor_needs_source e = true → defined (get_condor_event_source e.(ev_seqcode)).

Definition condor_target (e : Event) : option Z :=
  match e.(ev_body) with
  | RegJob _ => Some EDG_WLL_JOB_SUBMITTED
  | CondorMatch _ _ _ | CondorShadowStarted _ => Some EDG_WLL_JOB_READY
  | CondorReject _ _ => Some EDG_WLL_JOB_ABORTED
  | CondorShadowExited _ _ | CondorStarterExited _ => Some EDG_WLL_JOB_DONE
  | CondorStarterStarted _ _ =>
    match get_condor_event_source e.(ev_seqcode) with
    | Ret EDG_WLL_CONDOR_EVENT_SOURCE_START => Some EDG_WLL_JOB_SCHEDULED
    | Ret EDG_WLL_CONDOR_EVENT_SOURCE_STARTER => Some EDG_WLL_JOB_RUNNING
    | _ => None
    end
  | _ => None
  end.

Lemma condor_switch_ok usable e js :
  condor_readable e →
  ∃ js', condor_switch usable e js = Ret js' ∧ same_core js js' ∧
    js'.(pub).(state) =
      if usable then default js.(pub).(state) (condor_target e) else js.(pub).(state).
Proof.
  unfold condor_switch, condor_target, condor_readable, condor_needs_source. intros Hr.
  destruct (ev_body e);
    try (destruct usable; eexists; (split; [reflexivity |]; split; [core | done]));
    try specialize (Hr eq_refl).
  - (* CondorReject *)
    destruct usable, (_ =? _); eexists; (split; [reflexivity |]; split; [core | done]).
  - (* CondorShadowStarted *)
    unfold condor_shadow_started. destruct (get_condor_event_source _) as [src|]; [| done].
    cbn [obind]. eexists. split; [done |]. destruct usable, src; (split; [core | done]).
  - (* CondorShadowExited *)
    unfold condor_shadow_exited. destruct (get_condor_event_source _) as [src|]; [| done].
    cbn [obind]. eexists. split; [done |]. destruct usable, src; (split; [core | done]).
  - (* CondorStarterStarted *)
    unfold condor_starter_started. destruct (get_condor_event_source _) as [src|]; [| done].
    cbn [obind]. eexists. split; [done |]. destruct usable, src; (split; [core | done]).
  - (* CondorStarterExited *)
    unfold condor_starter_exited. destruct (get_condor_event_source _) as [src|]; [| done].
    cbn [obind]. eexists. split; [done |]. destruct usable, src; (split; [core | done]).
Qed.

Lemma condor_target_valid e s : condor_target e = Some s → valid_state s.
Proof.
  unfold condor_target. destruct (ev_body e); try discriminate;
    try (intros [= <-]; by vm_compute).
  destruct (get_condor_event_source _) as [[]|]; try discriminate; intros [= <-]; by vm_compute.
Qed.

(** The comparison with the last event stays within its buffers. *)
Definition condor_comparable (js : intJobStat) (e : Event) : Prop :=
  match js.(last_seqcode) with
  | Some last => defined (edg_wll_compare_condor_seq last e.(ev_seqcode))
  | None => True
  end.

(** The result of the comparison, where there is one, is "older". *)
Lemma condor_never_late js e :
  condor_comparable js e →
  match js.(last_seqcode) with
  | Some last =>
    let! c := edg_wll_compare_condor_seq last e.(ev_seqcode) in
    Ret (if 0 <? c then RET_LATE else RET_OK)
  | None => Ret RET_OK
  end = Ret RET_OK.
Proof.
  unfold condor_comparable. destruct (last_seqcode js) as [last|]; [| done].
  destruct (edg_wll_compare_condor_seq _ _) as [c|] eqn:E; [| done]. intros _.
  by apply compare_condor_older in E as ->.
Qed.

Lemma condor_core js e :
  wf_status js → condor_comparable js e → condor_readable e →
  ∃ js', processEvent_Condor js e = Ret (RET_OK, js') ∧ wf_status js' ∧
    js'.(branch_states) = js.(branch_states) ∧
    js'.(pub).(state) = default js.(pub).(state) (condor_target e) ∧
    js'.(last_seqcode) = Some e.(ev_seqcode) ∧
    js'.(pub).(lastUpdateTime) = e.(ev_timestamp).
Proof.
  intros Hwf Hl Hr. unfold processEvent_Condor. cbv zeta.
  rewrite condor_never_late by done. cbn [obind]. cbn [Z.eqb RET_OK Pos.eqb].
  destruct (condor_switch_ok true e js Hr) as (js1 & -> & Hcore & Hst). cbn [obind].
  assert (wf_status js1) as Hwf1.
  { apply (same_core_wf js); [done .. |]. rewrite Hst.
    destruct (condor_target e) eqn:E; [| apply Hwf]. by apply condor_target_valid in E. }
  destruct (finish_ok (state (pub js)) e js1 Hwf1) as (js2 & -> & Hwf2 & E1 & E2 & E3 & E4).
  cbn [obind]. eexists. split; [done |]. split; [by apply default_location_wf |].
  rewrite default_location_state, default_location_branches, E1, Hst, E4.
  split; [apply Hcore |].
  unfold default_location. by destruct (location (pub js2)).
Qed.

(** a Condor event is recorded, whatever its order: unless the comparison with the last
    code or the look at the source letter leaves its buffer, the job moves to the state
    that the event stands for, even if the event is older than the last one, which it
    replaces; [RET_OK] is returned and the job status stays well formed. *)
Theorem condor_event js e :
  wf_status js → condor_comparable js e → condor_readable e →
  ∃ js', processEvent_Condor js e = Ret (RET_OK, js') ∧ wf_status js' ∧
    js'.(pub).(state) = default js.(pub).(state) (condor_target e) ∧
    js'.(last_seqcode) = Some e.(ev_seqcode) ∧
    js'.(pub).(lastUpdateTime) = e.(ev_timestamp).
Proof.
  intros. destruct (condor_core js e) as (js' & E & Hwf & _ & Hr); [done .. |]. by exists js'.
Qed.

(** ** Witnesses *)
Definition condor_sample (b : EventBody) : Event :=
  mkEvent (mkTime 1000 5) (mkTime 1001 0) (Some "host"%string) 0 0 (Some sample_jobid)
    CONDOR_CODE (Some "user"%string) EDG_WLL_SOURCE_LRMS None b.

Lemma condor_event_witness :
  ∃ js', processEvent_Condor init_intJobStat
           (condor_sample (CondorMatch None (Some "wn"%string) None)) = Ret (RET_OK, js') ∧
    wf_status js' ∧ js'.(pub).(state) = EDG_WLL_JOB_READY ∧
    js'.(last_seqcode) = Some CONDOR_CODE ∧ js'.(pub).(lastUpdateTime) = mkTime 1000 5.
Proof.
  apply (condor_event init_intJobStat
           (condor_sample (CondorMatch None (Some "wn"%string) None)));
    [exact init_wf_status | exact I | intros H; discriminate H].
Defined.
