(* ===== verification/Gss.v ===== *)
(** * Certificate subjects

    [edg_wll_gss_normalize_subj] and [edg_wll_gss_equal_subj] of
    org.glite.lbjp-common.gss/src/glite_gss.c. *)
From Stdlib Require Import ZArith Lia Ascii.
From stdpp Require Import base option list strings numbers.
From S2P Require Import Prelude CLib.
#[local] Open Scope Z_scope.

Definition EMAIL_LONG : string := "/emailAddress=".
Definition EMAIL_SHORT : string := "/Email=".
Definition CN_PROXY : string := "/CN=proxy".

(** One round of [while ((ptr = strstr(new, "/emailAddress=")))]: [before] is the part of
    the string in front of [ptr]. *)
Fixpoint replace_first (s : string) : option string :=
  match strip_prefix EMAIL_LONG s with
  | Some rest => Some (EMAIL_SHORT +:+ rest)
  | None =>
    match s with
    | EmptyString => None
    | String c r => String c <$> replace_first r
    end
  end.
Fixpoint replace_all (fuel : nat) (s : string) : string :=
  match fuel with
  | O => s
  | S fuel => match replace_first s with Some t => replace_all fuel t | None => s end
  end.

(** [while (len > 9 && !strcmp(new+len-9, "/CN=proxy"))] *)
Fixpoint strip_proxy (fuel : nat) (s : string) : string :=
  match fuel with
  | O => s
  | S fuel =>
    let len := String.length s in
    if (9 <? len)%nat && String.eqb (str_drop (len - 9) s) CN_PROXY
    then strip_proxy fuel (str_take (len - 9) s) else s
  end.

Definition edg_wll_gss_normalize_subj (s : string) : string :=
  let new := replace_all (String.length s) s in
  strip_proxy (String.length new) new.

Definition edg_wll_gss_equal_subj (a b : option string) : bool :=
  match a, b with
  | Some a, Some b =>
    strcasecmp_eq (edg_wll_gss_normalize_subj a) (edg_wll_gss_normalize_subj b)
  | _, _ => false
  end.

(** ** Properties *)
Lemma replace_first_length s t :
  replace_first s = Some t → (String.length t < String.length s)%nat.
Proof.
  revert t. induction s as [|c s IH]; intros t; [done |].
  unfold replace_first; fold replace_first. cbn iota.
  destruct (strip_prefix EMAIL_LONG (String c s)) as [rest|] eqn:E.
  - apply strip_prefix_inv in E. rewrite E. intros [= <-].
    rewrite !length_app_str. simpl. lia.
  - destruct (replace_first s) as [u|]; [| done]. intros [= <-].
    specialize (IH u eq_refl). simpl. lia.
Qed.

Lemma replace_first_none s : replace_first s = None ↔ strstr s EMAIL_LONG = None.
Proof.
  induction s as [|c s IH]; [done |].
  unfold replace_first, strstr; fold replace_first; fold strstr. cbn iota.
  destruct (strip_prefix EMAIL_LONG (String c s)); [done |].
  rewrite <-IH. by destruct (replace_first s).
Qed.

Lemma replace_all_none fuel s :
  (String.length s ≤ fuel)%nat → strstr (replace_all fuel s) EMAIL_LONG = None.
Proof.
  revert s. induction fuel as [|fuel IH]; intros s Hl; simpl.
  - destruct s; [done | simpl in Hl; lia].
  - destruct (replace_first s) as [t|] eqn:E.
    + apply IH. apply replace_first_length in E. lia.
    + by apply replace_first_none.
Qed.

Definition ends_proxy (t : string) : Prop :=
  (9 < String.length t)%nat ∧ str_drop (String.length t - 9) t = CN_PROXY.

Lemma strip_proxy_none fuel s :
  (String.length s ≤ fuel)%nat → ¬ ends_proxy (strip_proxy fuel s).
Proof.
  revert s. induction fuel as [|fuel IH]; intros s Hl; simpl.
  - intros [? _]. lia.
  - destruct ((9 <? String.length s)%nat && _) eqn:E.
    + apply andb_true_iff in E as [E _]. apply Nat.ltb_lt in E.
      apply IH. pose proof (f_equal String.length (str_take_drop (String.length s - 9) s)) as H.
      rewrite length_app_str in H.
      assert (String.length (str_drop (String.length s - 9) s) ≥ 1)%nat; [| lia].
      clear -E. assert (∀ n u, (n < String.length u)%nat → (1 ≤ String.length (str_drop n u))%nat) as Hd.
      { induction n as [|n IHn]; intros [|x u]; simpl; intros; try lia. apply IHn. lia. }
      apply Hd. lia.
    + intros [H1 H2]. apply andb_false_iff in E as [E|E].
      * apply Nat.ltb_ge in E. lia.
      * by rewrite H2, String.eqb_refl in E.
Qed.

Lemma strstr_take s n needle : strstr s needle = None → strstr (str_take n s) needle = None.
Proof.
  intros H. destruct (strstr (str_take n s) needle) as [u|] eqn:E; [| done]. exfalso.
  assert (∃ a b, str_take n s = a +:+ needle +:+ b) as (a & b & Hab).
  { clear H. revert E. generalize (str_take n s). clear. intros s.
    induction s as [|c s IH]; simpl.
    - destruct (strip_prefix needle "") as [r|] eqn:Er; [| done]. intros _.
      exists "", r. simpl. by apply strip_prefix_inv.
    - destruct (strip_prefix needle (String c s)) as [r|] eqn:Er.
      + intros _. exists "", r. simpl. by apply strip_prefix_inv.
      + intros E. destruct (IH E) as (a & b & ->). by exists (String c a), b. }
  pose proof (str_take_drop n s) as Hs. rewrite Hab, !app_assoc_str in Hs.
  pose proof (strstr_app_some a needle (b +:+ str_drop n s)) as [v Hv].
  rewrite Hs in Hv. congruence.
Qed.

Lemma strip_proxy_strstr fuel s needle :
  strstr s needle = None → strstr (strip_proxy fuel s) needle = None.
Proof.
  revert s. induction fuel as [|fuel IH]; intros s H; simpl; [done |].
  destruct (_ && _); [| done]. by apply IH, strstr_take.
Qed.

(** the loops of the subject normalisation run to their end: the normal form of any
    certificate subject contains no ["/emailAddress="] and does not end with a proxy
    component, so that normalising it again changes nothing. *)
Theorem normalize_subj_normal s :
  let n := edg_wll_gss_normalize_subj s in
  strstr n EMAIL_LONG = None ∧
  ¬ ends_proxy n ∧
  edg_wll_gss_normalize_subj n = n.
Proof.
  assert (∀ t, strstr t EMAIL_LONG = None → ¬ ends_proxy t → edg_wll_gss_normalize_subj t = t)
    as Hid.
  { intros t Ht Hp. unfold edg_wll_gss_normalize_subj. cbv zeta.
    assert (replace_all (String.length t) t = t) as ->.
    { destruct (String.length t); simpl; [done |]. by apply replace_first_none in Ht as ->. }
    destruct (String.length t) as [|n] eqn:E; simpl; [done |].
    destruct ((_ <? _)%nat && _) eqn:Eb; [| done].
    apply andb_true_iff in Eb as [E1 E2]. apply Nat.ltb_lt in E1.
    apply String.eqb_eq in E2. by destruct Hp. }
  intros n. assert (strstr n EMAIL_LONG = None) as Hn.
  { unfold n, edg_wll_gss_normalize_subj. by apply strip_proxy_strstr, replace_all_none. }
  assert (¬ ends_proxy n) as Hp.
  { unfold n, edg_wll_gss_normalize_subj. by apply strip_proxy_none. }
  auto.
Qed.

Example equal_subj_examples :
  edg_wll_gss_equal_subj (Some "/CN=Jan Novak/emailAddress=jn@x.cz/CN=proxy/CN=proxy"%string)
    (Some "/cn=jan novak/Email=jn@x.cz"%string) = true ∧
  edg_wll_gss_equal_subj None None = false.
Proof. vm_compute. auto. Qed.
