(* ===== verification/ProcessGlite.v ===== *)
(** * The state machine: grid jobs

    The model of [processEvent_glite] of
    org.glite.lb.state-machine/src/process_event.c and of its helpers: the decision
    whether an event is late, the branches of shallow resubmissions, the cases of the
    event types and the recording of a usable event.  A case of the [switch] is a
    function from the local variables and the job status to a [flow]: the [switch] is
    left by [break] or by [goto bad_event]. *)
From Stdlib Require Import ZArith Lia Ascii.
From stdpp Require Import base option list strings numbers.
From S2P Require Import Prelude CLib JobId LbTypes Events SeqCode StateMachine ProcessCream Gss.
#[local] Open Scope Z_scope.

(** ** String lists *)
Definition add_stringlist (l : option (list string)) (new_item : string) :
    option (list string) :=
  match l with
  | None => Some [new_item]
  | Some l => Some (l ++ [new_item])
  end.

(** ** Branches *)

(** [while (bs[i].branch) { if (branch == bs[i].branch) ... i++; }]: the index where
    the loop ends, and whether it found the branch. *)
Fixpoint find_branch (bs : list branch_state) (br : Z) (i : nat) : outcome (nat * bool) :=
  match bs with
  | [] => UB OutOfBounds
  | b :: bs =>
    if b.(branch) =? 0 then Ret (i, false)
    else if br =? b.(branch) then Ret (i, true)
    else find_branch bs br (S i)
  end.

Definition update_branch_state (b : string) (d c j : option string)
    (bs : option (list branch_state)) : outcome (option (list branch_state)) :=
  let br := component_seqcode b EDG_WLL_SOURCE_WORKLOAD_MANAGER in
  let! r := match bs with
            | Some l => find_branch l br 0
            | None => Ret (0%nat, false)
            end in
  let '(i, found) := r in
  let l := default [] bs in
  if found then
    match l !! i with
    | Some x =>
      Ret (Some (<[i := mkBranch x.(branch) (rep_cond x.(bs_destination) d)
                          (rep_cond x.(bs_ce_node) c) (rep_cond x.(bs_jdl) j)]> l))
    | None => UB OutOfBounds
    end
  else Ret (Some (take i l ++ [mkBranch br d c j; null_branch])).

Definition compare_branch_states (c d : branch_state) : Z :=
  if c.(branch) <? d.(branch) then -1 else if c.(branch) =? d.(branch) then 0 else 1.

(** [qsort] with [compare_branch_states]; the branches are distinct, so that every sorting
    algorithm gives this list. *)
Fixpoint insert_branch (x : branch_state) (l : list branch_state) : list branch_state :=
  match l with
  | [] => [x]
  | y :: l => if compare_branch_states x y <=? 0 then x :: y :: l else y :: insert_branch x l
  end.
Definition qsort_branches (l : list branch_state) : list branch_state :=
  foldr insert_branch [] l.

(** [while (bs[i].branch) i++;] *)
Fixpoint count_branches (bs : list branch_state) : outcome nat :=
  match bs with
  | [] => UB OutOfBounds
  | b :: bs =>
    if b.(branch) =? 0 then Ret 0%nat else let! n := count_branches bs in Ret (S n)
  end.

(** The body of the copying loop. *)
Definition copy_branch (b : branch_state) (js : intJobStat) : intJobStat :=
  js <! destination := rep_cond js.(pub).(destination) b.(bs_destination) !>
     <! ce_node := rep_cond js.(pub).(ce_node) b.(bs_ce_node) !>
     <! matched_jdl := rep_cond js.(pub).(matched_jdl) b.(bs_jdl) !>.

(** [for (j = i - 2; j <= i; j++) if (j >= 0) ...] *)
Fixpoint copy_branches (l : list branch_state) (js : intJobStat) : intJobStat :=
  match l with
  | [] => js
  | b :: l => copy_branches l (copy_branch b js)
  end.

Definition load_branch_state (js : intJobStat) : outcome intJobStat :=
  match js.(branch_tag_seqcode), js.(branch_states) with
  | Some tag, Some bs =>
    let br := component_seqcode tag EDG_WLL_SOURCE_WORKLOAD_MANAGER in
    let! n := count_branches bs in
    let bs := qsort_branches (take n bs) ++ drop n bs in
    let js := js <| branch_states := Some bs |> in
    let! r := find_branch bs br 0 in
    let '(i, _) := r in
    Ret (copy_branches (drop (i - 2) (take (S i) bs)) js)
  | _, _ => Ret js
  end.

(** Forgets the branches (deep resubmission or abort). *)
Definition reset_branch (js : intJobStat) (e : Event) : intJobStat :=
  js <| resubmit_type := EDG_WLL_RESUBMISSION_WILLRESUB |>
     <! possible_destinations := None !>
     <! possible_ce_nodes := None !>
     <| branch_states := None |>
     <! payload_running := 0 !>
     <| branch_tag_seqcode := None |>
     <| deep_resubmit_seqcode := Some e.(ev_seqcode) |>.

(** ** Locations and sequence codes *)
Definition location_string_queue (queue host instance : option string) : option string :=
  Some (trio_asprintf "%s/%s/%s" [PStr queue; PStr host; PStr instance]).
Definition location_string_source (source : edg_wll_Source) (host instance : option string) :
    option string :=
  location_string_queue (edg_wll_SourceToString source) host instance.

Definition after_enter_wm (es js : string) : bool :=
  (component_seqcode js EDG_WLL_SOURCE_NETWORK_SERVER <?
   component_seqcode es EDG_WLL_SOURCE_NETWORK_SERVER) ||
  (component_seqcode js EDG_WLL_SOURCE_USER_INTERFACE <?
   component_seqcode es EDG_WLL_SOURCE_USER_INTERFACE).

Definition USABLE (res : Z) (strict : bool) : bool :=
  (res =? RET_OK) || ((res =? RET_SOON) && negb strict).
Definition USABLE_DATA (res : Z) (strict : bool) : bool :=
  (res =? RET_OK) || (negb (res =? RET_FATAL) && negb strict).
Definition USABLE_BRANCH (fine_res : Z) : bool :=
  negb (fine_res =? RET_TOOOLD) && negb (fine_res =? RET_BADBRANCH).
Definition LRMS_STATE (st : Z) : bool :=
  (st =? EDG_WLL_JOB_RUNNING) || (st =? EDG_WLL_JOB_DONE).
Definition PARSABLE_SEQCODE (code : option string) : bool :=
  match code with
  | Some c => 0 <=? component_seqcode c EDG_WLL_SOURCE_USER_INTERFACE
  | None => false
  end.

(** ** Local variables and control flow *)
Record locals := mkLocals {
  old_state : Z;
  new_state : Z;
  res : Z;
  fine_res : Z;
  lm_favour_lrms : bool;
  ignore_seq_code : bool
}.
#[export] Instance locals_eta : Eta locals := fun r =>
  mkLocals r.(old_state) r.(new_state) r.(res) r.(fine_res) r.(lm_favour_lrms)
    r.(ignore_seq_code).

Inductive flow :=
| Break (l : locals) (js : intJobStat)
| BadEvent (js : intJobStat).

Definition fbind (m : outcome flow) (k : locals → intJobStat → outcome flow) : outcome flow :=
  match m with
  | Ret (Break l js) => k l js
  | Ret (BadEvent js) => Ret (BadEvent js)
  | UB w => UB w
  end.
Notation "'let*' l ',' js ':=' m 'in' k" := (fbind m (fun l js => k))
  (at level 10, l name, js name, m at level 100, k at level 200) : lb_scope.

(** [goto bad_event] *)
Definition bad_event (js : intJobStat) : outcome flow := Ret (BadEvent js).
Definition move_to (st : Z) (l : locals) (js : intJobStat) : outcome flow :=
  Ret (Break (l <| new_state := st |>) js).
(** [if (LRMS_STATE(old_state)) res = RET_LATE;] *)
Definition late_in_lrms (l : locals) : locals :=
  if LRMS_STATE l.(old_state) then l <| res := RET_LATE |> else l.

(** ** Is the event late? *)
Definition glite_old_late (js : intJobStat) (e : Event) : bool :=
  let st := js.(pub).(state) in
  ((st =? EDG_WLL_JOB_ABORTED) && negb (is_collectionstate e.(ev_body))) ||
  (st =? EDG_WLL_JOB_CANCELLED) || (st =? EDG_WLL_JOB_CLEARED).

(** A new event from NS or UI: forget about any resubmission loops. *)
Definition glite_forget_branches (js : intJobStat) (e : Event) : intJobStat :=
  if is_cancel e.(ev_body) then js
  else
    match js.(last_seqcode) with
    | Some last =>
      if after_enter_wm e.(ev_seqcode) last then
        js <| branch_tag_seqcode := None |> <| deep_resubmit_seqcode := None |>
           <| last_branch_seqcode := None |>
      else js
    | None => js
    end.

(** The values of [res] and [fine_res] before the [switch]. *)
Definition glite_order `{Stack} (js : intJobStat) (e : Event) (res0 : Z) : Z * Z :=
  let seq := e.(ev_seqcode) in
  let older c := match c with Some last => edg_wll_compare_seq seq last <? 0 | None => false end in
  if match js.(deep_resubmit_seqcode) with
     | Some deep => before_deep_resubmission seq deep
     | None => false
     end then (RET_LATE, RET_TOOOLD)
  else
    match js.(branch_tag_seqcode) with
    | Some tag =>
      if same_branch seq tag then
        (if older js.(last_branch_seqcode) then RET_LATE else res0, RET_GOODBRANCH)
      else (RET_LATE, RET_BADBRANCH)
    | None => (if older js.(last_seqcode) then RET_LATE else res0, RET_OK)
    end.

(** The local variables and the job status when the [switch] is entered. *)
Definition glite_prologue `{Stack} (js : intJobStat) (e : Event) : locals * intJobStat :=
  let old := js.(pub).(state) in
  let res0 := if glite_old_late js e then RET_LATE else RET_OK in
  let js := glite_forget_branches js e in
  let '(r, f) := glite_order js e res0 in
  ({| old_state := old; new_state := EDG_WLL_JOB_UNKNOWN; res := r; fine_res := f;
      lm_favour_lrms := false; ignore_seq_code := false |}, js).

(** ** The cases of the [switch]: job transfer *)
Definition set_location (loc : option string) (js : intJobStat) : intJobStat :=
  js <! location := loc !>.

Definition glite_transfer_state (e : Event) (b : TransferEvent) (l : locals)
    (js : intJobStat) : outcome flow :=
  if b.(tr_result) =? EDG_WLL_TRANSFER_OK then
    match e.(ev_source) with
    | EDG_WLL_SOURCE_USER_INTERFACE => move_to EDG_WLL_JOB_WAITING l js
    | EDG_WLL_SOURCE_JOB_SUBMISSION => move_to EDG_WLL_JOB_READY l js
    | EDG_WLL_SOURCE_LOG_MONITOR =>
      let! js :=
        if LRMS_STATE l.(old_state)
        then set_enter_time js EDG_WLL_JOB_SCHEDULED e.(ev_timestamp).(tv_sec)
        else Ret js in
      move_to EDG_WLL_JOB_SCHEDULED ((late_in_lrms l) <| lm_favour_lrms := true |>) js
    | _ => bad_event js
    end
  else if b.(tr_result) =? EDG_WLL_TRANSFER_FAIL then
    match e.(ev_source) with
    | EDG_WLL_SOURCE_USER_INTERFACE => move_to EDG_WLL_JOB_SUBMITTED l js
    | EDG_WLL_SOURCE_JOB_SUBMISSION => move_to EDG_WLL_JOB_READY (late_in_lrms l) js
    | EDG_WLL_SOURCE_LOG_MONITOR => move_to EDG_WLL_JOB_READY (late_in_lrms l) js
    | _ => bad_event js
    end
  else Ret (Break (l <| res := RET_IGNORE |>) js).

Definition glite_transfer (strict : bool) (e : Event) (b : TransferEvent) (l : locals)
    (js : intJobStat) : outcome flow :=
  let* l, js := glite_transfer_state e b l js in
  let js :=
    if USABLE l.(res) strict then
      let js := js <! state := l.(new_state) !> <! reason := b.(tr_reason) !> in
      set_location
        (if b.(tr_result) =? EDG_WLL_TRANSFER_OK
         then location_string_source b.(tr_destination) b.(tr_dest_host) b.(tr_dest_instance)
         else location_string_source e.(ev_source) e.(ev_host) e.(ev_src_instance)) js
    else js in
  if USABLE_DATA l.(res) strict then
    match e.(ev_source) with
    | EDG_WLL_SOURCE_USER_INTERFACE =>
      Ret (Break l (match js.(pub).(jdl) with
                    | None => js <! jdl := b.(tr_job) !>
                    | Some _ => js
                    end))
    | EDG_WLL_SOURCE_JOB_SUBMISSION => Ret (Break l (js <! condor_jdl := b.(tr_job) !>))
    | EDG_WLL_SOURCE_LOG_MONITOR => Ret (Break l (js <! rsl := b.(tr_job) !>))
    | _ => bad_event js
    end
  else Ret (Break l js).

Definition glite_accepted (strict : bool) (e : Event) (b : AcceptedEvent) (l : locals)
    (js : intJobStat) : outcome flow :=
  let* l, js :=
    match e.(ev_source) with
    | EDG_WLL_SOURCE_NETWORK_SERVER => move_to EDG_WLL_JOB_WAITING l js
    | EDG_WLL_SOURCE_LOG_MONITOR =>
      move_to EDG_WLL_JOB_READY ((late_in_lrms l) <| lm_favour_lrms := true |>) js
    | EDG_WLL_SOURCE_LRMS => move_to EDG_WLL_JOB_SCHEDULED l js
    | _ => bad_event js
    end in
  let js :=
    if USABLE l.(res) strict then
      set_location (location_string_source e.(ev_source) e.(ev_host) e.(ev_src_instance))
        (js <! state := l.(new_state) !>)
    else js in
  if USABLE_DATA l.(res) strict then
    match e.(ev_source) with
    | EDG_WLL_SOURCE_NETWORK_SERVER => Ret (Break l (js <! ui_host := b.(ac_from_host) !>))
    | EDG_WLL_SOURCE_LOG_MONITOR => Ret (Break l (js <! condorId := b.(ac_local_jobid) !>))
    | EDG_WLL_SOURCE_LRMS => Ret (Break l (js <! globusId := b.(ac_local_jobid) !>))
    | _ => bad_event js
    end
  else Ret (Break l js).

Definition glite_refused (strict : bool) (e : Event) (b : RefusedEvent) (l : locals)
    (js : intJobStat) : outcome flow :=
  let* l, js :=
    match e.(ev_source) with
    | EDG_WLL_SOURCE_NETWORK_SERVER => move_to EDG_WLL_JOB_SUBMITTED l js
    | EDG_WLL_SOURCE_LOG_MONITOR => move_to EDG_WLL_JOB_READY l js
    | EDG_WLL_SOURCE_LRMS => move_to EDG_WLL_JOB_READY l js
    | _ => bad_event js
    end in
  Ret (Break l
    (if USABLE l.(res) strict then
       set_location (location_string_source b.(rf_from) b.(rf_from_host) b.(rf_from_instance))
         (js <! state := l.(new_state) !> <! reason := b.(rf_reason) !>)
     else js)).

Definition glite_enqueued_state (e : Event) (b : EnQueuedEvent) (l : locals)
    (js : intJobStat) : outcome flow :=
  if b.(eq_result) =? EDG_WLL_ENQUEUED_OK then
    match e.(ev_source) with
    | EDG_WLL_SOURCE_NETWORK_SERVER => move_to EDG_WLL_JOB_WAITING l js
    | EDG_WLL_SOURCE_WORKLOAD_MANAGER =>
      let! bs := update_branch_state e.(ev_seqcode) None None b.(eq_job) js.(branch_states) in
      move_to EDG_WLL_JOB_READY (late_in_lrms l) (js <| branch_states := bs |>)
    | EDG_WLL_SOURCE_LOG_MONITOR => move_to EDG_WLL_JOB_WAITING l js
    | _ => bad_event js
    end
  else if b.(eq_result) =? EDG_WLL_ENQUEUED_FAIL then
    match e.(ev_source) with
    | EDG_WLL_SOURCE_NETWORK_SERVER => move_to EDG_WLL_JOB_WAITING l js
    | EDG_WLL_SOURCE_WORKLOAD_MANAGER => move_to EDG_WLL_JOB_WAITING l js
    | EDG_WLL_SOURCE_LOG_MONITOR => move_to l.(old_state) l js
    | _ => bad_event js
    end
  else Ret (Break (l <| res := RET_IGNORE |>) js).

Definition glite_enqueued (strict : bool) (e : Event) (b : EnQueuedEvent) (l : locals)
    (js : intJobStat) : outcome flow :=
  let* l, js := glite_enqueued_state e b l js in
  let js :=
    if USABLE l.(res) strict then
      let js := js <! state := l.(new_state) !> <! reason := b.(eq_reason) !> in
      if b.(eq_result) =? EDG_WLL_ENQUEUED_OK then
        let js := set_location
          (location_string_queue b.(eq_queue) e.(ev_host) e.(ev_src_instance)) js in
        if decide (e.(ev_source) = EDG_WLL_SOURCE_LOG_MONITOR)
        then js <! resubmitted := 1 !> else js
      else set_location
        (location_string_source e.(ev_source) e.(ev_host) e.(ev_src_instance)) js
    else js in
  if USABLE_DATA l.(res) strict then
    match e.(ev_source) with
    | EDG_WLL_SOURCE_NETWORK_SERVER =>
      let keep := match js.(pub).(jdl) with
                  | Some _ => negb (b.(eq_result) =? EDG_WLL_ENQUEUED_OK)
                  | None => false
                  end in
      Ret (Break l (if keep then js else js <! jdl := b.(eq_job) !>))
    | EDG_WLL_SOURCE_WORKLOAD_MANAGER =>
      Ret (Break l (if USABLE_BRANCH l.(res) then js <! matched_jdl := b.(eq_job) !> else js))
    | EDG_WLL_SOURCE_LOG_MONITOR => Ret (Break l js)
    | _ => bad_event js
    end
  else Ret (Break l js).

Definition glite_dequeued (strict : bool) (e : Event) (l : locals) (js : intJobStat) :
    outcome flow :=
  let* l, js :=
    match e.(ev_source) with
    | EDG_WLL_SOURCE_WORKLOAD_MANAGER => move_to EDG_WLL_JOB_WAITING l js
    | EDG_WLL_SOURCE_JOB_SUBMISSION => move_to EDG_WLL_JOB_READY (late_in_lrms l) js
    | _ => bad_event js
    end in
  Ret (Break l
    (if USABLE l.(res) strict then
       set_location (location_string_source e.(ev_source) e.(ev_host) e.(ev_src_instance))
         (js <! state := l.(new_state) !>)
     else js)).

(** HelperCall and HelperReturn. *)
Definition glite_helper (strict : bool) (loc : option string) (l : locals) (js : intJobStat) :
    outcome flow :=
  Ret (Break l
    (if USABLE l.(res) strict
     then set_location loc (js <! state := EDG_WLL_JOB_WAITING !>) else js)).

(** ** The cases of the [switch]: execution *)
Definition glite_running (strict : bool) (e : Event) (node : option string) (l : locals)
    (js : intJobStat) : outcome flow :=
  let js :=
    if USABLE l.(res) strict then
      set_location (location_string_source EDG_WLL_SOURCE_LRMS (Some "worknode"%string) node)
        (js <! state := EDG_WLL_JOB_RUNNING !> <! jw_status := EDG_WLL_STAT_WRAPPER_RUNNING !>)
    else js in
  if USABLE_DATA l.(res) strict then
    let js := if USABLE_BRANCH l.(fine_res) then js <! ce_node := node !> else js in
    match node with
    | Some n =>
      let! bs := update_branch_state e.(ev_seqcode) None node None js.(branch_states) in
      let js := js <| branch_states := bs |> in
      Ret (Break l
        (js <! possible_ce_nodes := add_stringlist js.(pub).(possible_ce_nodes) n !>))
    | None => Ret (Break l js)
    end
  else Ret (Break l js).

(** ReallyRunning: the tag of the running branch. *)
Definition glite_rr_lrms (e : Event) (l : locals) (js : intJobStat) : intJobStat :=
  let js := js <| branch_tag_seqcode := Some e.(ev_seqcode) |> in
  if l.(res) =? RET_OK
  then js <| last_branch_seqcode := Some e.(ev_seqcode) |> <! state := EDG_WLL_JOB_RUNNING !>
  else js.

Definition glite_rr_lm (wn_seq : option string) (l : locals) (js : intJobStat) : outcome flow :=
  let* l, js :=
    match js.(branch_tag_seqcode) with
    | None =>
      if PARSABLE_SEQCODE wn_seq
      then Ret (Break l (js <| branch_tag_seqcode := wn_seq |>))
      else bad_event js
    | Some _ => Ret (Break l js)
    end in
  match js.(last_branch_seqcode) with
  | None =>
    if PARSABLE_SEQCODE wn_seq then
      Ret (Break l (if l.(res) =? RET_OK
                    then js <| last_branch_seqcode := wn_seq |>
                            <! state := EDG_WLL_JOB_RUNNING !>
                    else js))
    else bad_event js
  | Some _ => Ret (Break l js)
  end.

Definition glite_rr_select (e : Event) (wn_seq : option string) (l : locals)
    (js : intJobStat) : outcome flow :=
  match e.(ev_source) with
  | EDG_WLL_SOURCE_LRMS => Ret (Break l (glite_rr_lrms e l js))
  | EDG_WLL_SOURCE_LOG_MONITOR => glite_rr_lm wn_seq l js
  | _ => Ret (Break l js)
  end.

Definition glite_reallyrunning (e : Event) (wn_seq : option string) (l : locals)
    (js : intJobStat) : outcome flow :=
  if l.(fine_res) =? RET_BADBRANCH then Ret (Break l js)
  else if (l.(res) =? RET_LATE) && (l.(fine_res) =? RET_TOOOLD) then Ret (Break l js)
  else
    let* l, js := glite_rr_select e wn_seq l js in
    let! js :=
      match js.(last_branch_seqcode) with
      | None =>
        if l.(res) =? RET_LATE then
          match js.(last_seqcode), js.(branch_tag_seqcode) with
          | Some last, Some tag =>
            Ret (if same_branch last tag
                 then js <| last_branch_seqcode := js.(last_seqcode) |> else js)
          | _, _ => UB NullDeref
          end
        else Ret js
      | Some _ => Ret js
      end in
    let js := js <! jw_status := EDG_WLL_STAT_PAYLOAD_RUNNING !> <! payload_running := 1 !> in
    let! js := load_branch_state js in
    Ret (Break l js).

(** Suspend and Resume. *)
Definition glite_suspend (strict : bool) (flag : Z) (r : option string) (l : locals)
    (js : intJobStat) : outcome flow :=
  Ret (Break l
    (if USABLE l.(res) strict && (js.(pub).(state) =? EDG_WLL_JOB_RUNNING)
     then js <! suspended := flag !> <! suspend_reason := r !> else js)).

Definition glite_resubmission (strict : bool) (e : Event) (result : Z) (r : option string)
    (l : locals) (js : intJobStat) : outcome flow :=
  let js :=
    if USABLE l.(res) strict && (result =? EDG_WLL_RESUBMISSION_WONTRESUB)
    then js <! reason := r !> else js in
  Ret (Break l
    (if USABLE_DATA l.(res) strict then
       if result =? EDG_WLL_RESUBMISSION_WONTRESUB
       then js <| resubmit_type := EDG_WLL_RESUBMISSION_WONTRESUB |>
       else if (result =? EDG_WLL_RESUBMISSION_WILLRESUB) &&
               bool_decide (e.(ev_source) = EDG_WLL_SOURCE_WORKLOAD_MANAGER)
       then reset_branch js e
       else if result =? EDG_WLL_RESUBMISSION_SHALLOW
       then js <| resubmit_type := EDG_WLL_RESUBMISSION_SHALLOW |>
       else js
     else js)).

(** ** The cases of the [switch]: the end of a job *)

(** A failure reason with the destination, after the ones recorded so far. *)
Definition glue_failure (js : intJobStat) (text : string) : intJobStat :=
  js <! failure_reasons :=
    Some (match js.(pub).(failure_reasons) with
          | Some old => old +:+ String (chr 10) text
          | None => text
          end) !>.

Definition glite_done_state (e : Event) (b : DoneEvent) (l : locals) (js : intJobStat) :
    intJobStat :=
  let js := js <! state := EDG_WLL_JOB_DONE !> <! jw_status := EDG_WLL_STAT_DONE !>
               <! reason := b.(dn_reason) !> in
  let js := if l.(fine_res) =? RET_GOODBRANCH then js <! payload_running := 0 !> else js in
  let code := b.(dn_status_code) in
  let here := location_string_source e.(ev_source) e.(ev_host) e.(ev_src_instance) in
  if code =? EDG_WLL_DONE_CANCELLED then
    set_location (Some "none"%string) (js <! state := EDG_WLL_JOB_CANCELLED !>)
  else if code =? EDG_WLL_DONE_OK then set_location (Some "none"%string) js
  else if code =? EDG_WLL_DONE_FAILED then
    set_location here
      (glue_failure js
         (asprintf "%s [%s]" [PStr b.(dn_reason); PStr js.(pub).(destination)]))
  else set_location here js.

Definition glite_done_data (strict : bool) (b : DoneEvent) (l : locals) (js : intJobStat) :
    outcome flow :=
  let code := b.(dn_status_code) in
  if code =? EDG_WLL_DONE_OK then
    Ret (Break l (js <! exit_code := b.(dn_exit_code) !> <! done_code := EDG_WLL_STAT_OK !>))
  else if code =? EDG_WLL_DONE_CANCELLED then
    Ret (Break l (js <! exit_code := 0 !> <! done_code := EDG_WLL_STAT_CANCELLED !>))
  else if code =? EDG_WLL_DONE_FAILED then
    let js :=
      if USABLE l.(res) strict then js
      else glue_failure js
        (asprintf "%s [delayed event, destination unreliable]" [PStr b.(dn_reason)]) in
    Ret (Break l (js <! exit_code := 0 !> <! done_code := EDG_WLL_STAT_FAILED !>))
  else bad_event js.

Definition glite_done (strict : bool) (e : Event) (b : DoneEvent) (l : locals)
    (js : intJobStat) : outcome flow :=
  if decide (e.(ev_source) = EDG_WLL_SOURCE_LRMS) then
    Ret (Break l
      (if USABLE l.(res) strict
       then js <! jw_status := EDG_WLL_STAT_DONE !> <! payload_running := 0 !> else js))
  else
    let js := if USABLE l.(res) strict then glite_done_state e b l js else js in
    if USABLE_DATA l.(res) strict then glite_done_data strict b l js else Ret (Break l js).

Definition glite_cancel `{Stack} (strict : bool) (e : Event) (status_code : Z)
    (r : option string) (l : locals) (js : intJobStat) : outcome flow :=
  let late :=
    if l.(fine_res) =? RET_BADBRANCH then true
    else match js.(last_cancel_seqcode) with
         | Some last => edg_wll_compare_seq e.(ev_seqcode) last <? 0
         | None => false
         end in
  let l := if late then l <| res := RET_LATE |> else l in
  let js :=
    if USABLE l.(res) strict then
      if status_code =? EDG_WLL_CANCEL_REQ then js <! cancelling := 1 !>
      else if status_code =? EDG_WLL_CANCEL_DONE then
        js <! state := EDG_WLL_JOB_CANCELLED !> <! remove_from_proxy := 1 !>
           <! reason := r !> <| last_seqcode := Some e.(ev_seqcode) |>
           <! location := Some "none"%string !> <! cancelling := 0 !>
      else if status_code =? EDG_WLL_CANCEL_ABORT then js <! cancelling := 0 !>
      else js
    else js in
  Ret (Break l (if USABLE_DATA l.(res) strict then js <! cancelReason := r !> else js)).

Definition glite_abort (strict : bool) (e : Event) (r : option string) (l : locals)
    (js : intJobStat) : outcome flow :=
  let l := if decide (e.(ev_source) = EDG_WLL_SOURCE_WORKLOAD_MANAGER)
           then l <| res := RET_OK |> else l in
  Ret (Break l
    (if USABLE l.(res) strict then
       reset_branch
         (js <! state := EDG_WLL_JOB_ABORTED !> <! remove_from_proxy := 1 !>
             <! reason := r !> <! location := Some "none"%string !>) e
     else js)).

Definition clear_reason_text (code : Z) : option string :=
  if code =? EDG_WLL_CLEAR_USER then Some "user retrieved output sandbox"%string
  else if code =? EDG_WLL_CLEAR_TIMEOUT then Some "timed out, resource purge forced"%string
  else if code =? EDG_WLL_CLEAR_NOOUTPUT then Some "no output was generated"%string
  else None.
Definition clear_sandbox (code : Z) : option Z :=
  if code =? EDG_WLL_CLEAR_USER then Some EDG_WLL_STAT_USER
  else if code =? EDG_WLL_CLEAR_TIMEOUT then Some EDG_WLL_STAT_TIMEOUT
  else if code =? EDG_WLL_CLEAR_NOOUTPUT then Some EDG_WLL_STAT_NOOUTPUT
  else None.

Definition glite_clear (strict : bool) (code : Z) (l : locals) (js : intJobStat) :
    outcome flow :=
  let* l, js :=
    if USABLE l.(res) strict then
      let js := js <! state := EDG_WLL_JOB_CLEARED !> <! remove_from_proxy := 1 !>
                   <! location := Some "none"%string !> in
      match clear_reason_text code with
      | Some t => Ret (Break l (js <! reason := Some t !>))
      | None => bad_event js
      end
    else Ret (Break l js) in
  if USABLE_DATA l.(res) strict then
    match clear_sandbox code with
    | Some s => Ret (Break l (js <! sandbox_retrieved := s !>))
    | None => bad_event js
    end
  else Ret (Break l js).

(** ** The cases of the [switch]: matching and registration *)
Definition wm_location (e : Event) : option string :=
  location_string_source EDG_WLL_SOURCE_WORKLOAD_MANAGER e.(ev_host) e.(ev_src_instance).

Definition glite_match (strict : bool) (e : Event) (dest_id : option string) (l : locals)
    (js : intJobStat) : outcome flow :=
  let js := if USABLE l.(res) strict
            then set_location (wm_location e) (js <! state := EDG_WLL_JOB_WAITING !>) else js in
  if USABLE_DATA l.(res) strict then
    let js := if USABLE_BRANCH l.(fine_res) then js <! destination := dest_id !> else js in
    match dest_id with
    | Some d =>
      let! bs := update_branch_state e.(ev_seqcode) dest_id None None js.(branch_states) in
      let js := js <| branch_states := bs |> in
      Ret (Break l
        (js <! possible_destinations := add_stringlist js.(pub).(possible_destinations) d !>))
    | None => Ret (Break l js)
    end
  else Ret (Break l js).

Definition glite_pending (strict : bool) (e : Event) (r : option string) (l : locals)
    (js : intJobStat) : outcome flow :=
  Ret (Break l
    (if USABLE l.(res) strict
     then set_location (wm_location e)
            (js <! state := EDG_WLL_JOB_WAITING !> <! reason := r !>)
     else js)).

(** [js->pub.children_hist[EDG_WLL_JOB_UNKNOWN+1] = js->pub.children_num;] *)
Definition hist_unknown (js : intJobStat) : outcome intJobStat :=
  let! h := store_int js.(pub).(children_hist) (EDG_WLL_JOB_UNKNOWN + 1)
              js.(pub).(children_num) in
  Ret (js <! children_hist := h !>).

Definition glite_regjob_data (b : RegJobEvent) (js : intJobStat) : outcome intJobStat :=
  let js := js <! jdl := rep_cond js.(pub).(jdl) b.(rj_jdl) !>
               <! parent_job := glite_jobid_dup b.(rj_parent) !>
               <! network_server := b.(rj_ns) !>
               <! children_num := b.(rj_nsubjobs) !> in
  let t := b.(rj_jobtype) in
  let! js :=
    if (t =? EDG_WLL_REGJOB_DAG) || (t =? EDG_WLL_REGJOB_PARTITIONED) then
      hist_unknown (js <! jobtype := EDG_WLL_STAT_DAG !>)
    else if t =? EDG_WLL_REGJOB_COLLECTION then
      hist_unknown (js <! jobtype := EDG_WLL_STAT_COLLECTION !>)
    else if t =? EDG_WLL_REGJOB_FILE_TRANSFER_COLLECTION then
      hist_unknown (js <! jobtype := EDG_WLL_STAT_FILE_TRANSFER_COLLECTION !>)
    else Ret js in
  Ret (js <! seed := b.(rj_seed) !>).

Definition glite_regjob (strict : bool) (b : RegJobEvent) (l : locals) (js : intJobStat) :
    outcome flow :=
  let js := if USABLE l.(res) strict then js <! state := EDG_WLL_JOB_SUBMITTED !> else js in
  if USABLE_DATA l.(res) strict then
    let! js := glite_regjob_data b js in Ret (Break l js)
  else Ret (Break l js).

Definition glite_usertag `{Stack} (strict : bool) (e : Event) (name value : option string)
    (l : locals) (js : intJobStat) : outcome flow :=
  if USABLE_DATA l.(res) strict then
    match name, value with
    | Some n, Some v => let! r := add_taglist n v e.(ev_seqcode) js in Ret (Break l (snd r))
    | _, _ => bad_event js
    end
  else Ret (Break l js).

Definition glite_collectionstate (strict : bool) (b : CollectionStateEvent) (l : locals)
    (js : intJobStat) : outcome flow :=
  match b.(cs_state) with
  | None => UB NullDeref
  | Some name =>
    let st := edg_wll_StringToStat name in
    let l := l <| new_state := st |> in
    Ret (Break l
      (if USABLE l.(res) strict then
         let js := js <! state := st !> in
         if st =? EDG_WLL_JOB_DONE then js <! done_code := b.(cs_done_code) !> else js
       else js))
  end.

Definition glite_sandbox (strict : bool) (b : SandboxEvent) (l : locals) (js : intJobStat) :
    outcome flow :=
  Ret (Break l
    (if USABLE_DATA l.(res) strict then
       match b.(sb_transfer_job) with
       | Some t =>
         let js := if b.(sb_sandbox_type) =? EDG_WLL_SANDBOX_INPUT
                   then js <! isb_transfer := glite_jobid_parse t !> else js in
         if b.(sb_sandbox_type) =? EDG_WLL_SANDBOX_OUTPUT
         then js <! osb_transfer := glite_jobid_parse t !> else js
       | None => js
       end
     else js)).

(** ** The cases of the [switch]: payload ownership *)
Definition glite_grant (payload_owner_ : option string) (l : locals) (js : intJobStat) :
    outcome flow :=
  Ret (Break (l <| ignore_seq_code := true |>)
    (match js.(payload_owner_pending) with
     | Some p =>
       let js := if edg_wll_gss_equal_subj payload_owner_ (Some p)
                 then js <! payload_owner := Some p !> else js in
       js <| payload_owner_pending := None |>
     | None => js <| payload_owner_unconfirmed := payload_owner_ |>
     end)).

Definition glite_take (user : option string) (l : locals) (js : intJobStat) : outcome flow :=
  Ret (Break (l <| ignore_seq_code := true |>)
    (match js.(payload_owner_unconfirmed) with
     | Some u =>
       if edg_wll_gss_equal_subj user (Some u)
       then js <! payload_owner := Some u !> <| payload_owner_unconfirmed := None |>
       else js <| payload_owner_pending := user |>
     | None => js <| payload_owner_pending := user |>
     end)).

(** ** The cases of the [switch]: CREAM events *)
Definition glite_cream_call (strict : bool) (e : Event) (b : CREAMCallEvent) (l : locals)
    (js : intJobStat) : intJobStat :=
  let js :=
    if is_lrms_start e b && USABLE l.(res) strict then
      cream_set_reason b.(cc_reason)
        (js <! state := EDG_WLL_JOB_SCHEDULED !> <! cream_state := EDG_WLL_STAT_CREAM_IDLE !>)
    else js in
  if (b.(cc_command) =? EDG_WLL_CREAMCALL_CMDCANCEL) &&
     (b.(cc_result) =? EDG_WLL_CREAMCALL_OK) && USABLE l.(res) strict then
    cream_set_reason b.(cc_reason) (js <! cream_cancelling := 1 !> <! cancelling := 1 !>)
  else js.

Definition glite_cream (strict : bool) (e : Event) (l : locals) (js : intJobStat) :
    outcome flow :=
  let usable := USABLE l.(res) strict in
  let! js :=
    match e.(ev_body) with
    | CREAMStore b => Ret (if usable then cream_store b js else js)
    | CREAMCall b => Ret (glite_cream_call strict e b l js)
    | CREAMCancel status_code r => Ret (if usable then cream_cancel status_code r js else js)
    | CREAMAbort r => Ret (if usable then cream_abort r js else js)
    | CREAMStatus b => if usable then cream_status b js else Ret js
    | _ => Ret js
    end in
  Ret (Break l js).

(** ** The [switch] *)
Definition glite_switch `{Stack} (strict : bool) (e : Event) (l : locals) (js : intJobStat) :
    outcome flow :=
  match e.(ev_body) with
  | Transfer b => glite_transfer strict e b l js
  | Accepted b => glite_accepted strict e b l js
  | Refused b => glite_refused strict e b l js
  | EnQueued b => glite_enqueued strict e b l js
  | DeQueued _ _ => glite_dequeued strict e l js
  | HelperCall helper_name _ =>
    glite_helper strict (location_string_queue helper_name e.(ev_host) e.(ev_src_instance)) l js
  | HelperReturn _ _ => glite_helper strict (wm_location e) l js
  | Running node => glite_running strict e node l js
  | ReallyRunning wn_seq => glite_reallyrunning e wn_seq l js
  | Suspend r => glite_suspend strict 1 r l js
  | Resume r => glite_suspend strict 0 r l js
  | Resubmission result r _ => glite_resubmission strict e result r l js
  | Done b => glite_done strict e b l js
  | Cancel status_code r => glite_cancel strict e status_code r l js
  | Abort_ r => glite_abort strict e r l js
  | Clear_ code => glite_clear strict code l js
  | Purge => Ret (Break l js)
  | Match dest_id => glite_match strict e dest_id l js
  | Pending r => glite_pending strict e r l js
  | RegJob b => glite_regjob strict b l js
  | UserTag name value => glite_usertag strict e name value l js
  | Listener | CurDescr | Chkpt | ResourceUsage => Ret (Break l js)
  | ChangeACL _ => Ret (Break (l <| ignore_seq_code := true |>) js)
  | CollectionState b => glite_collectionstate strict b l js
  | Sandbox b => glite_sandbox strict b l js
  | GrantPayloadOwnership payload_owner => glite_grant payload_owner l js
  | TakePayloadOwnership => glite_take e.(ev_user) l js
  | CREAMStart | CREAMPurge | CREAMAccepted _ | CREAMStore _ | CREAMCall _ | CREAMCancel _ _
  | CREAMAbort _ | CREAMStatus _ => glite_cream strict e l js
  | _ => bad_event js
  end.

(** ** Recording a usable event *)
Definition glite_record_state (l : locals) (e : Event) (js : intJobStat) : outcome intJobStat :=
  let! js := update_times l.(old_state) e js in
  let st := js.(pub).(state) in
  Ret (if negb (l.(old_state) =? st) &&
          ((st =? EDG_WLL_JOB_WAITING) || (st =? EDG_WLL_JOB_READY) ||
           (st =? EDG_WLL_JOB_SCHEDULED))
       then js <! jw_status := EDG_WLL_STAT_UNKNOWN !> else js).

Definition glite_record_seq (l : locals) (e : Event) (js : intJobStat) : intJobStat :=
  if is_cancel e.(ev_body) then js <| last_cancel_seqcode := Some e.(ev_seqcode) |>
  else if l.(lm_favour_lrms) then
    js <| last_seqcode := set_component_seqcode e.(ev_seqcode) EDG_WLL_SOURCE_LOG_MONITOR 0 |>
  else if negb l.(ignore_seq_code) then js <| last_seqcode := Some e.(ev_seqcode) |>
  else js.

Definition glite_record (l : locals) (e : Event) (js : intJobStat) : outcome intJobStat :=
  let! js := glite_record_state l e js in
  let js := glite_record_seq l e js in
  let js := if js.(pub).(state) =? EDG_WLL_JOB_RUNNING then js
            else js <! suspended := 0 !> <! suspend_reason := None !> in
  Ret (if l.(fine_res) =? RET_GOODBRANCH
       then js <| last_branch_seqcode := Some e.(ev_seqcode) |> else js).

Definition glite_network_server (e : Event) (js : intJobStat) : intJobStat :=
  match js.(pub).(network_server) with
  | None =>
    if decide (e.(ev_source) = EDG_WLL_SOURCE_NETWORK_SERVER) then
      let inst := e.(ev_src_instance) in
      js <! network_server :=
        Some (trio_asprintf "%s%s%s"
          [PStr e.(ev_host);
           PStr (Some (match inst with Some _ => ":" | None => " " end)%string);
           PStr (Some (default ""%string inst))]) !>
    else js
  | Some _ => js
  end.

Definition is_cream_source (s : edg_wll_Source) : bool :=
  match s with
  | EDG_WLL_SOURCE_CREAM_EXECUTOR | EDG_WLL_SOURCE_CREAM_INTERFACE => true
  | _ => false
  end.

Definition processEvent_glite `{Stack} (js : intJobStat) (e : Event) (strict : bool) :
    outcome (Z * intJobStat) :=
  let '(l, js) := glite_prologue js e in
  let! js := if is_cream_source e.(ev_source) then processData_Cream js e else Ret js in
  let! f := glite_switch strict e l js in
  match f with
  | BadEvent js => Ret (RET_SUSPECT, js)
  | Break l js =>
    let! js := if USABLE l.(res) strict then glite_record l e js else Ret js in
    let js := if USABLE_DATA l.(res) strict then glite_network_server e js else js in
    Ret (l.(res), js)
  end.
