(* ===== verification/GliteCases.v ===== *)
(** * Grid jobs: the cases of the state machine

    Every case of the [switch] of [processEvent_glite] runs without a fault and keeps the
    frame [case_ok]: it spoils nothing, and an event that does not count leaves the state
    and the last sequence code alone. *)
From Stdlib Require Import ZArith Lia Ascii.
From stdpp Require Import base option list strings numbers.
From S2P Require Import Prelude CLib JobId LbTypes Events SeqCode StateMachine ProcessCream.
From S2P Require Import Gss ProcessGlite.
#[local] Open Scope Z_scope.

(** ** Properties: the frame of the cases *)

(** The array of branches has its terminator. *)
Definition wf_branches (bs : option (list branch_state)) : Prop :=
  match bs with
  | None => True
  | Some l => ∃ b, b ∈ l ∧ b.(branch) = 0
  end.

(** What no case of the [switch] spoils. *)
Definition keeps (js js' : intJobStat) : Prop :=
  (counted js.(pub).(stateEnterTimes) → counted js'.(pub).(stateEnterTimes)) ∧
  (counted js.(pub).(children_hist) → counted js'.(pub).(children_hist)) ∧
  (wf_taglist js → wf_taglist js') ∧
  (wf_branches js.(branch_states) → wf_branches js'.(branch_states)) ∧
  js'.(pub).(stateEnterTime) = js.(pub).(stateEnterTime) ∧
  js'.(pub).(lastUpdateTime) = js.(pub).(lastUpdateTime).

#[export] Instance keeps_preorder : PreOrder keeps.
Proof.
  split; [intros js; repeat split; auto |].
  intros a b c (?&?&?&?&?&?) (?&?&?&?&?&?). repeat split; auto; congruence.
Qed.

Lemma keeps_refl' js js' :
  js'.(pub).(stateEnterTimes) = js.(pub).(stateEnterTimes) →
  js'.(pub).(children_hist) = js.(pub).(children_hist) →
  js'.(pub).(user_tags) = js.(pub).(user_tags) →
  js'.(tag_seq_codes) = js.(tag_seq_codes) →
  (wf_branches js.(branch_states) → wf_branches js'.(branch_states)) →
  js'.(pub).(stateEnterTime) = js.(pub).(stateEnterTime) →
  js'.(pub).(lastUpdateTime) = js.(pub).(lastUpdateTime) → keeps js js'.
Proof.
  intros E1 E2 E3 E4 Hb ??. unfold keeps. rewrite E1, E2. repeat split; try done.
  unfold wf_taglist. by rewrite E3, E4.
Qed.

Lemma same_core_keeps js js' :
  same_core js js' → keeps js js'.
Proof.
  intros (_ & E1 & E2 & E3 & E4 & Hw & Eb). unfold keeps. rewrite E1, E4, Eb. repeat split; auto.
Qed.

(** An abort that the workload manager reports counts in every case. *)
Definition is_wm_abort (e : Event) : bool :=
  match e.(ev_body) with
  | Abort_ _ => bool_decide (e.(ev_source) = EDG_WLL_SOURCE_WORKLOAD_MANAGER)
  | _ => false
  end.

(** What every case guarantees: nothing is spoilt, an event that does not count in the end
    changes neither the state nor the last sequence code, and an event that did not count
    when the case was entered does not count afterwards. *)
Definition case_ok (strict : bool) (e : Event) (l : locals) (js : intJobStat) (f : flow) : Prop :=
  match f with
  | Break l' js' =>
    keeps js js' ∧ l'.(old_state) = l.(old_state) ∧ l'.(fine_res) = l.(fine_res) ∧
    (l'.(res) = l.(res) ∨ l'.(res) = RET_OK ∨ l'.(res) = RET_LATE ∨ l'.(res) = RET_IGNORE) ∧
    (valid_state js.(pub).(state) → valid_state l.(old_state) → valid_state js'.(pub).(state)) ∧
    (USABLE l'.(res) strict = false →
     js'.(pub).(state) = js.(pub).(state) ∧ js'.(last_seqcode) = js.(last_seqcode)) ∧
    (is_wm_abort e = false → USABLE l.(res) strict = false → USABLE l'.(res) strict = false)
  | BadEvent js' =>
    keeps js js' ∧ js'.(last_seqcode) = js.(last_seqcode) ∧
    (valid_state js.(pub).(state) → valid_state l.(old_state) → valid_state js'.(pub).(state)) ∧
    (USABLE l.(res) strict = false → js'.(pub).(state) = js.(pub).(state))
  end.
Definition case_runs (strict : bool) (e : Event) (l : locals) (js : intJobStat)
    (m : outcome flow) : Prop :=
  ∃ f, m = Ret f ∧ case_ok strict e l js f.

Ltac kept := first [ reflexivity | apply keeps_refl'; try reflexivity; exact (fun H => H) ||
  exact (fun _ => I) ].
Ltac valid := intros; first [ assumption | by vm_compute ].

(** Close [case_ok] on a concrete flow. *)
Ltac flow_done :=
  first
    [ split; [kept |]; split; [reflexivity |]; split; [reflexivity |];
      split; [auto |]; split; [valid |];
      split; [intros ?; first [ split; reflexivity | exfalso; congruence ] | auto]
    | split; [kept |]; split; [reflexivity |]; split; [valid |];
      intros ?; first [ reflexivity | exfalso; congruence ] ].
Ltac case_done := eexists; split; [reflexivity | flow_done].

Lemma case_helper strict e loc l js : case_runs strict e l js (glite_helper strict loc l js).
Proof. unfold glite_helper. destruct (USABLE (res l) strict) eqn:E. case_done. case_done. Qed.

Lemma usable_late strict : USABLE RET_LATE strict = false.
Proof. reflexivity. Qed.

Lemma late_in_lrms_cases l : late_in_lrms l = l ∨ late_in_lrms l = l <| res := RET_LATE |>.
Proof. unfold late_in_lrms. destruct (LRMS_STATE _); auto. Qed.


Lemma set_enter_time_keeps js st t :
  counted js.(pub).(stateEnterTimes) → valid_state st →
  ∃ js', set_enter_time js st t = Ret js' ∧ keeps js js' ∧
    js'.(pub).(state) = js.(pub).(state) ∧ js'.(last_seqcode) = js.(last_seqcode).
Proof.
  intros Hc Hs. destruct (set_enter_time_ok js st t Hc Hs) as (a & -> & Ha).
  eexists. split; [done |]. split; [| done]. repeat split; auto.
Qed.

(** The cases in two phases: the first one determines the new state, the second one stores
    it if the event is usable. *)
Definition phase1_ok (strict : bool) (l : locals) (js : intJobStat) (f : flow) : Prop :=
  match f with
  | Break l1 js1 =>
    keeps js js1 ∧ js1.(pub).(state) = js.(pub).(state) ∧
    js1.(last_seqcode) = js.(last_seqcode) ∧
    l1.(old_state) = l.(old_state) ∧ l1.(fine_res) = l.(fine_res) ∧
    (l1.(res) = l.(res) ∨ l1.(res) = RET_LATE ∨ l1.(res) = RET_IGNORE) ∧
    (valid_state l.(old_state) → valid_state l.(new_state) → valid_state l1.(new_state))
  | BadEvent js1 => js1 = js
  end.
Definition phase2_ok (strict : bool) (l : locals) (js : intJobStat) (f : flow) : Prop :=
  let quiet js2 :=
    keeps js js2 ∧ js2.(last_seqcode) = js.(last_seqcode) ∧
    js2.(pub).(state) =
      if USABLE l.(res) strict then l.(new_state) else js.(pub).(state) in
  match f with
  | Break l2 js2 => l2 = l ∧ quiet js2
  | BadEvent js2 => quiet js2
  end.

Lemma two_phases strict e l js m k :
  (∃ f, m = Ret f ∧ phase1_ok strict l js f) →
  (∀ l1 js1, wf_branches js1.(branch_states) → ∃ f, k l1 js1 = Ret f ∧ phase2_ok strict l1 js1 f) →
  wf_branches js.(branch_states) → valid_state l.(new_state) →
  case_runs strict e l js (fbind m k).
Proof.
  intros (f & -> & Hf) Hk Hb Hnew. destruct f as [l1 js1|js1]; cbn in Hf.
  2: { subst js1. exists (BadEvent js). split; [done |]. cbn. split; [reflexivity |]. auto. }
  destruct Hf as (Hke & Es & El & Eo & Ef & Er & Hn).
  assert (USABLE (res l) strict = false → USABLE (res l1) strict = false) as Hu.
  { by destruct Er as [->|[->| ->]]. }
  destruct (Hk l1 js1) as (g & E & Hg); [by apply Hke |]. exists g. split; [done |].
  assert (∀ js2, state (pub js2) = (if USABLE (res l1) strict then new_state l1 else state (pub js1))
    → valid_state (state (pub js)) → valid_state (old_state l) → valid_state (state (pub js2)))
    as Hv.
  { intros js2 E1 H1 H2. rewrite E1. destruct (USABLE (res l1) strict); [auto |]. by rewrite Es. }
  destruct g as [l2 js2|js2]; cbn in Hg; cbn.
  - destruct Hg as (-> & Hk2 & El2 & Es2). split; [by etrans |]. do 2 (split; [done |]).
    split; [tauto |]. split; [auto |]. split; [| auto].
    intros Hf. rewrite Hf in Es2. by rewrite Es2, El2.
  - destruct Hg as (Hk2 & El2 & Es2). split; [by etrans |]. split; [congruence |].
    split; [auto |]. intros Hf. rewrite (Hu Hf) in Es2. congruence.
Qed.

Ltac p1 :=
  eexists; split; [reflexivity |]; cbn [phase1_ok];
  first [ reflexivity
        | split; [kept |]; do 4 (split; [reflexivity |]); split; [auto |]; valid ].
Ltac p2 :=
  eexists; split; [reflexivity |]; cbn [phase2_ok];
  repeat match goal with H : USABLE _ _ = _ |- _ => rewrite H; clear H end;
  repeat match goal with
  | |- context [match jdl (pub ?j) with _ => _ end] => destruct (jdl (pub j))
  | |- context [if USABLE_BRANCH ?x then _ else _] => destruct (USABLE_BRANCH x)
  end;
  repeat match goal with
  | |- keeps _ _ => kept
  | |- _ = _ => reflexivity
  | |- _ ∧ _ => split
  end.

Lemma case_transfer strict e b l js :
  counted js.(pub).(stateEnterTimes) → wf_branches js.(branch_states) →
  valid_state l.(new_state) →
  case_runs strict e l js (glite_transfer strict e b l js).
Proof.
  intros Hc Hb Hn. apply two_phases; [| | done ..].
  - unfold glite_transfer_state.
    destruct (late_in_lrms_cases l) as [E|E]; rewrite E;
    destruct (tr_result b =? EDG_WLL_TRANSFER_OK), (tr_result b =? EDG_WLL_TRANSFER_FAIL),
      (ev_source e); try p1.
    all: destruct (LRMS_STATE (old_state l)); cbn [obind]; try p1.
    all: destruct (set_enter_time_keeps js EDG_WLL_JOB_SCHEDULED (tv_sec (ev_timestamp e)) Hc)
      as (js1 & -> & Hk & Hs & Hl); [by vm_compute |]; cbn [obind].
    all: eexists; split; [reflexivity |]; do 3 (split; [done |]);
      do 2 (split; [reflexivity |]); split; [auto |]; valid.
  - intros l1 js1 _.
    destruct (USABLE (res l1) strict) eqn:Eu, (USABLE_DATA (res l1) strict), (ev_source e);
      p2.
Qed.

(** Start of a two phase case. *)
Ltac phase_cases := apply two_phases; [| | assumption ..].

Lemma case_accepted strict e b l js :
  wf_branches js.(branch_states) → valid_state l.(new_state) →
  case_runs strict e l js (glite_accepted strict e b l js).
Proof.
  intros Hb Hn. phase_cases.
  - destruct (late_in_lrms_cases l) as [E|E]; rewrite ?E; destruct (ev_source e); p1.
  - intros l1 js1 _.
    destruct (USABLE (res l1) strict) eqn:Eu, (USABLE_DATA (res l1) strict), (ev_source e); p2.
Qed.

Lemma case_refused strict e b l js :
  wf_branches js.(branch_states) → valid_state l.(new_state) →
  case_runs strict e l js (glite_refused strict e b l js).
Proof.
  intros Hb Hn. phase_cases.
  - destruct (ev_source e); p1.
  - intros l1 js1 _. destruct (USABLE (res l1) strict) eqn:Eu; p2.
Qed.

Lemma case_dequeued strict e l js :
  wf_branches js.(branch_states) → valid_state l.(new_state) →
  case_runs strict e l js (glite_dequeued strict e l js).
Proof.
  intros Hb Hn. phase_cases.
  - destruct (late_in_lrms_cases l) as [E|E]; rewrite ?E; destruct (ev_source e); p1.
  - intros l1 js1 _. destruct (USABLE (res l1) strict) eqn:Eu; p2.
Qed.

(** ** Properties: branches *)
Lemma find_branch_ok bs br k :
  wf_branches (Some bs) →
  ∃ i (found : bool), find_branch bs br k = Ret ((k + i)%nat, found) ∧
    (∀ j x, (j < i)%nat → bs !! j = Some x → x.(branch) ≠ 0 ∧ x.(branch) ≠ br) ∧
    ∃ x, bs !! i = Some x ∧
      if found then x.(branch) = br ∧ br ≠ 0 else x.(branch) = 0.
Proof.
  revert k. induction bs as [|b bs IH]; intros k (t & Ht & Hz); [by apply not_elem_of_nil in Ht |].
  simpl. destruct (branch b =? 0) eqn:E; zbool.
  { exists 0%nat, false. rewrite Nat.add_0_r. split; [done |]. split; [lia |]. by exists b. }
  destruct (br =? branch b) eqn:E2; zbool.
  { exists 0%nat, true. rewrite Nat.add_0_r. split; [done |]. split; [lia |].
    exists b. repeat split; congruence. }
  apply elem_of_cons in Ht as [->|Ht]; [done |].
  destruct (IH (S k)) as (i & found & -> & Hlt & x & Hx & Hf); [by exists t |].
  exists (S i), found. split; [by rewrite Nat.add_succ_r |]. split; [| by exists x].
  intros [|j] y Hj Hy; simpl in Hy; [by injection Hy as <- | apply (Hlt j); [lia | done]].
Qed.

Lemma wf_branches_terminated l x :
  wf_branches (Some (l ++ [x; null_branch])).
Proof. exists null_branch. split; [| done]. apply elem_of_app. right. by do 2 constructor. Qed.

Lemma update_branch_ok b d c j bs :
  wf_branches bs →
  ∃ bs', update_branch_state b d c j bs = Ret bs' ∧ wf_branches bs'.
Proof.
  intros Hb. unfold update_branch_state.
  set (br := component_seqcode b EDG_WLL_SOURCE_WORKLOAD_MANAGER). clearbody br.
  destruct bs as [l|]; cbn [obind default id].
  2: { eexists. split; [done |]. apply (wf_branches_terminated []). }
  destruct (find_branch_ok l br 0 Hb) as (i & found & -> & _ & x & Hx & Hf). cbn [obind].
  destruct found; [| eexists; split; [done | apply wf_branches_terminated]].
  simpl. rewrite Hx. eexists. split; [done |].
  destruct Hb as (t & Ht & Hz). apply list_elem_of_lookup in Ht as [n Hn].
  exists t. split; [| done]. apply list_elem_of_lookup. exists n.
  rewrite list_lookup_insert_ne; [done |]. intros ->. destruct Hf. congruence.
Qed.

Lemma case_enqueued strict e b l js :
  wf_branches js.(branch_states) → valid_state l.(new_state) →
  case_runs strict e l js (glite_enqueued strict e b l js).
Proof.
  intros Hb Hn. phase_cases.
  - unfold glite_enqueued_state.
    destruct (eq_result b =? EDG_WLL_ENQUEUED_OK), (eq_result b =? EDG_WLL_ENQUEUED_FAIL),
      (ev_source e); try p1.
    all: destruct (update_branch_ok (ev_seqcode e) None None (eq_job b) _ Hb) as (bs & -> & Hbs);
      cbn [obind]; destruct (late_in_lrms_cases l) as [E|E]; rewrite ?E; eexists;
      (split; [reflexivity |]); (split; [repeat split; auto |]);
      do 4 (split; [reflexivity |]); (split; [auto |]); valid.
  - intros l1 js1 _.
    destruct (USABLE (res l1) strict) eqn:Eu, (USABLE_DATA (res l1) strict), (ev_source e),
      (eq_result b =? EDG_WLL_ENQUEUED_OK); p2.
Qed.

(** ** Properties: execution *)
Lemma case_running strict e node l js :
  wf_branches js.(branch_states) → case_runs strict e l js (glite_running strict e node l js).
Proof.
  intros Hb. unfold glite_running.
  destruct (USABLE (res l) strict) eqn:Eu, (USABLE_DATA (res l) strict),
    (USABLE_BRANCH (fine_res l)), node as [n|]; try solve [case_done].
  all: match goal with |- context [update_branch_state ?b ?d ?c ?j ?x] =>
    destruct (update_branch_ok b d c j x Hb) as (bs & -> & Hbs) end;
    cbn [obind]; eexists; (split; [reflexivity |]);
    (split; [repeat split; auto |]); do 2 (split; [reflexivity |]);
    (split; [auto |]); (split; [valid |]);
    (split; [intros ?; first [split; reflexivity | exfalso; congruence] | auto]).
Qed.

Lemma count_branches_ok bs :
  wf_branches (Some bs) →
  ∃ n x, count_branches bs = Ret n ∧ bs !! n = Some x ∧ x.(branch) = 0 ∧
    ∀ j y, (j < n)%nat → bs !! j = Some y → y.(branch) ≠ 0.
Proof.
  induction bs as [|b bs IH]; intros (t & Ht & Hz); [by apply not_elem_of_nil in Ht |].
  simpl. destruct (branch b =? 0) eqn:E; zbool.
  { exists 0%nat, b. repeat split; try done. lia. }
  apply elem_of_cons in Ht as [->|Ht]; [done |].
  destruct IH as (n & x & -> & Hx & Hx0 & Hlt); [by exists t |].
  exists (S n), x. repeat split; try done.
  intros [|j] y Hj Hy; simpl in Hy; [by injection Hy as <- | apply (Hlt j); [lia | done]].
Qed.

Lemma copy_branches_frame bs js :
  keeps js (copy_branches bs js) ∧ (copy_branches bs js).(pub).(state) = js.(pub).(state) ∧
  (copy_branches bs js).(last_seqcode) = js.(last_seqcode).
Proof.
  revert js. induction bs as [|b bs IH]; intros js; simpl; [split; [reflexivity | done] |].
  destruct (IH (copy_branch b js)) as (Hk & -> & ->). split; [| done].
  etrans; [| exact Hk]. kept.
Qed.

Lemma load_branch_ok js :
  wf_branches js.(branch_states) →
  ∃ js', load_branch_state js = Ret js' ∧ keeps js js' ∧
    js'.(pub).(state) = js.(pub).(state) ∧ js'.(last_seqcode) = js.(last_seqcode).
Proof.
  intros Hb. unfold load_branch_state.
  destruct (branch_tag_seqcode js) as [tag|]; [| by exists js].
  destruct (branch_states js) as [bs|] eqn:Ebs; [| by exists js]. cbv zeta.
  destruct (count_branches_ok bs Hb) as (n & x & -> & Hx & Hx0 & _). cbn [obind].
  set (bs' := qsort_branches (take n bs) ++ drop n bs).
  assert (wf_branches (Some bs')) as Hb'.
  { exists x. split; [| done]. apply elem_of_app. right. apply list_elem_of_lookup.
    exists 0%nat. by rewrite lookup_drop, Nat.add_0_r. }
  destruct (find_branch_ok bs' (component_seqcode tag EDG_WLL_SOURCE_WORKLOAD_MANAGER) 0 Hb')
    as (i & found & -> & _). cbn [obind].
  eexists. split; [done |].
  match goal with |- context [copy_branches ?l ?j] =>
    destruct (copy_branches_frame l j) as (Hk & -> & ->) end.
  split; [| done]. etrans; [| exact Hk]. rewrite <-Ebs in Hb. repeat split; auto.
Qed.

Definition rr_source (e : Event) : bool :=
  match e.(ev_source) with
  | EDG_WLL_SOURCE_LRMS | EDG_WLL_SOURCE_LOG_MONITOR => true
  | _ => false
  end.

Lemma usable_ok l strict : (l.(res) =? RET_OK) = true → USABLE l.(res) strict = true.
Proof. unfold USABLE. by intros ->. Qed.

Ltac sel_done :=
  first [ exact I
        | refine (conj eq_refl (conj _ (conj eq_refl _)));
          [ simpl; first [ by eexists | eassumption | eexists; eassumption ]
          | simpl; first [ done | intros; congruence ] ] ].

(** The selection of the branch: on success there is a tag. *)
Lemma rr_select_ok strict e w l js :
  rr_source e = true →
  ∃ f, glite_rr_select e w l js = Ret f ∧ case_ok strict e l js f ∧
    match f with
    | Break l1 js1 => l1 = l ∧ is_Some js1.(branch_tag_seqcode) ∧
        js1.(last_seqcode) = js.(last_seqcode) ∧
        (js1.(last_branch_seqcode) = None → js.(last_branch_seqcode) = None)
    | BadEvent _ => True
    end.
Proof.
  unfold rr_source, glite_rr_select, glite_rr_lrms, glite_rr_lm.
  pose proof (usable_ok l strict) as Hu.
  destruct (ev_source e); try discriminate; intros _.
  - (* LogMonitor *)
    destruct (branch_tag_seqcode js) as [t|] eqn:Et, (PARSABLE_SEQCODE w) eqn:Ep,
      (last_branch_seqcode js) as [b|] eqn:El, (res l =? RET_OK) eqn:Er;
      cbn [fbind bad_event];
      try (specialize (Hu eq_refl)); simpl; rewrite ?Et, ?El; simpl; rewrite ?Er;
      (destruct w as [w|]; [| try discriminate Ep]);
      (eexists; split; [reflexivity |]; split; [| sel_done]);
      flow_done.
  - (* LRMS *)
    destruct (res l =? RET_OK) eqn:Er; try specialize (Hu eq_refl);
      (eexists; split; [reflexivity |]; split; [flow_done | sel_done]).
Qed.

(** The step that takes the last sequence code over. *)
Lemma rr_last_branch l js :
  (l.(res) = RET_LATE → js.(last_branch_seqcode) = None → is_Some js.(last_seqcode)) →
  is_Some js.(branch_tag_seqcode) →
  ∃ js',
    match js.(last_branch_seqcode) with
    | None =>
      if l.(res) =? RET_LATE then
        match js.(last_seqcode), js.(branch_tag_seqcode) with
        | Some last, Some tag =>
          Ret (if same_branch last tag
               then js <| last_branch_seqcode := js.(last_seqcode) |> else js)
        | _, _ => UB NullDeref
        end
      else Ret js
    | Some _ => Ret js
    end = Ret js' ∧ keeps js js' ∧ js'.(pub) = js.(pub) ∧
    js'.(last_seqcode) = js.(last_seqcode) ∧ js'.(branch_states) = js.(branch_states).
Proof.
  intros Hl [tag Ht].
  destruct (last_branch_seqcode js) as [b|]; [exists js; split; [done | split; [kept | done]] |].
  destruct (Z.eqb_spec (res l) RET_LATE) as [E|E];
    [| exists js; split; [done | split; [kept | done]]].
  destruct (Hl E eq_refl) as [last Hlast]. rewrite Hlast, Ht.
  destruct (same_branch last tag); eexists; (split; [reflexivity |]; split; [kept | done]).
Qed.

Lemma case_reallyrunning strict e w l js :
  wf_branches js.(branch_states) → rr_source e = true →
  (l.(res) = RET_LATE → USABLE_BRANCH l.(fine_res) = true →
   js.(last_branch_seqcode) = None → is_Some js.(last_seqcode)) →
  case_runs strict e l js (glite_reallyrunning e w l js).
Proof.
  intros Hb Hs Hl. unfold glite_reallyrunning.
  destruct (fine_res l =? RET_BADBRANCH) eqn:Eb; [case_done |].
  destruct ((res l =? RET_LATE) && (fine_res l =? RET_TOOOLD)) eqn:Et; [case_done |].
  destruct (rr_select_ok strict e w l js Hs) as (f & -> & Hf & Hsel).
  destruct f as [l1 js1|js1]; [| by exists (BadEvent js1)]. cbn [fbind].
  destruct Hsel as (-> & Htag & Hls & Hlb). destruct Hf as (Hk & _ & _ & _ & Hv & Hu & Hab).
  destruct (rr_last_branch l js1) as (js2 & -> & Hk2 & Ep2 & El2 & Eb2); [| done |].
  { intros E1 E2. rewrite Hls. apply Hl; auto. unfold USABLE_BRANCH. rewrite Eb.
    rewrite E1, Z.eqb_refl in Et. simpl in Et. by rewrite Et. }
  cbn [obind].
  destruct (load_branch_ok
    (js2 <! jw_status := EDG_WLL_STAT_PAYLOAD_RUNNING !> <! payload_running := 1 !>))
    as (js3 & -> & Hk3 & Es3 & El3); [apply Hk2, Hk, Hb |].
  cbn [obind]. eexists. split; [done |]. simpl in Es3, El3. rewrite Ep2 in Es3.
  split; [etrans; [exact Hk |]; etrans; [exact Hk2 |]; etrans; [| exact Hk3]; kept |].
  do 2 (split; [done |]). split; [auto |]. rewrite Es3, El3, El2. auto.
Qed.

Lemma case_suspend strict e flag r l js :
  case_runs strict e l js (glite_suspend strict flag r l js).
Proof.
  unfold glite_suspend. destruct (USABLE (res l) strict), (state (pub js) =? _); case_done.
Qed.

Lemma case_resubmission strict e result r l js :
  case_runs strict e l js (glite_resubmission strict e result r l js).
Proof.
  unfold glite_resubmission.
  destruct (USABLE (res l) strict), (USABLE_DATA (res l) strict),
    (result =? EDG_WLL_RESUBMISSION_WONTRESUB),
    (result =? EDG_WLL_RESUBMISSION_WILLRESUB),
    (bool_decide (ev_source e = EDG_WLL_SOURCE_WORKLOAD_MANAGER)),
    (result =? EDG_WLL_RESUBMISSION_SHALLOW); case_done.
Qed.

(** ** Properties: the end of a job *)
Lemma case_done_event strict e b l js :
  case_runs strict e l js (glite_done strict e b l js).
Proof.
  unfold glite_done. destruct (decide _).
  - destruct (USABLE (res l) strict) eqn:Eu; case_done.
  - unfold glite_done_state, glite_done_data.
    destruct (USABLE (res l) strict) eqn:Eu, (USABLE_DATA (res l) strict),
      (dn_status_code b =? EDG_WLL_DONE_OK), (dn_status_code b =? EDG_WLL_DONE_CANCELLED),
      (dn_status_code b =? EDG_WLL_DONE_FAILED), (fine_res l =? RET_GOODBRANCH);
      case_done.
Qed.

Lemma case_cancel `{Stack} strict e c r l js :
  e.(ev_body) = Cancel c r → case_runs strict e l js (glite_cancel strict e c r l js).
Proof.
  intros Eb. unfold glite_cancel.
  match goal with |- context [if ?b then l <| res := RET_LATE |> else l] => destruct b end.
  - destruct (USABLE_DATA _ strict); case_done.
  - destruct (USABLE (res l) strict) eqn:Eu, (USABLE_DATA (res l) strict),
      (c =? EDG_WLL_CANCEL_REQ), (c =? EDG_WLL_CANCEL_DONE), (c =? EDG_WLL_CANCEL_ABORT);
      case_done.
Qed.

Lemma case_abort strict e r l js :
  e.(ev_body) = Abort_ r → case_runs strict e l js (glite_abort strict e r l js).
Proof.
  intros Eb. unfold glite_abort.
  assert (is_wm_abort e = bool_decide (ev_source e = EDG_WLL_SOURCE_WORKLOAD_MANAGER)) as Ea
    by (unfold is_wm_abort; by rewrite Eb).
  destruct (decide (ev_source e = EDG_WLL_SOURCE_WORKLOAD_MANAGER)) as [Ew|Ew].
  - rewrite bool_decide_true in Ea by done. cbn [res]. unfold USABLE at 1. simpl.
    eexists. split; [reflexivity |]. split; [apply keeps_refl'; try reflexivity; done |].
    do 2 (split; [reflexivity |]). split; [auto |]. split; [valid |].
    split; [discriminate | congruence].
  - destruct (USABLE (res l) strict) eqn:Eu; [| case_done].
    eexists. split; [reflexivity |]. split; [apply keeps_refl'; try reflexivity; done |].
    do 2 (split; [reflexivity |]). split; [auto |]. split; [valid |].
    split; [congruence | auto].
Qed.

Lemma case_clear strict e c l js : case_runs strict e l js (glite_clear strict c l js).
Proof.
  unfold glite_clear, clear_reason_text, clear_sandbox.
  destruct (USABLE (res l) strict) eqn:Eu;
  destruct (c =? EDG_WLL_CLEAR_USER), (c =? EDG_WLL_CLEAR_TIMEOUT),
    (c =? EDG_WLL_CLEAR_NOOUTPUT); cbn [fbind bad_event];
    destruct (USABLE_DATA (res l) strict); case_done.
Qed.

(** ** Properties: the other cases *)
Lemma case_match strict e d l js :
  wf_branches js.(branch_states) → case_runs strict e l js (glite_match strict e d l js).
Proof.
  intros Hb. unfold glite_match.
  destruct (USABLE (res l) strict) eqn:Eu, (USABLE_DATA (res l) strict),
    (USABLE_BRANCH (fine_res l)), d as [d|]; try solve [case_done].
  all: match goal with |- context [update_branch_state ?b ?d ?c ?j ?x] =>
    destruct (update_branch_ok b d c j x Hb) as (bs & -> & Hbs) end;
    cbn [obind]; eexists; (split; [reflexivity |]);
    (split; [repeat split; auto |]); do 2 (split; [reflexivity |]);
    (split; [auto |]); (split; [valid |]);
    (split; [intros ?; first [split; reflexivity | exfalso; congruence] | auto]).
Qed.

Lemma case_pending strict e r l js : case_runs strict e l js (glite_pending strict e r l js).
Proof. unfold glite_pending. destruct (USABLE (res l) strict) eqn:Eu; case_done. Qed.

Lemma hist_unknown_ok js :
  counted js.(pub).(children_hist) →
  ∃ h, hist_unknown js = Ret (js <! children_hist := h !>) ∧ counted h.
Proof.
  intros Hc. unfold hist_unknown.
  destruct (store_int_counted _ (EDG_WLL_JOB_UNKNOWN + 1) (children_num (pub js)) Hc)
    as (a & -> & Ha & _); [by vm_compute |]. cbn [obind]. eauto.
Qed.

Lemma regjob_data_ok b js :
  counted js.(pub).(children_hist) →
  ∃ js', glite_regjob_data b js = Ret js' ∧ keeps js js' ∧
    js'.(pub).(state) = js.(pub).(state) ∧ js'.(last_seqcode) = js.(last_seqcode).
Proof.
  intros Hc. unfold glite_regjob_data. cbv zeta.
  repeat match goal with |- context [if ?t then _ else _] => destruct t end;
    try match goal with |- context [hist_unknown ?j] =>
      destruct (hist_unknown_ok j Hc) as (h & -> & Hh) end;
    cbn [obind]; eexists; (split; [reflexivity |]); (split; [repeat split; auto | done]).
Qed.

Lemma case_regjob strict e b l js :
  counted js.(pub).(children_hist) → case_runs strict e l js (glite_regjob strict b l js).
Proof.
  intros Hc. unfold glite_regjob.
  destruct (USABLE (res l) strict) eqn:Eu, (USABLE_DATA (res l) strict); try case_done.
  all: match goal with |- context [glite_regjob_data ?r ?j] =>
    destruct (regjob_data_ok r j Hc) as (js1 & -> & Hk & Hs & Hl) end;
    cbn [obind]; eexists; (split; [reflexivity |]);
    (split; [etrans; [| exact Hk]; kept |]); do 2 (split; [done |]); (split; [auto |]);
    rewrite Hs, Hl; (split; [valid |]);
    (split; [intros ?; first [split; reflexivity | exfalso; congruence] | auto]).
Qed.

Lemma usertag_keeps `{Stack} n v s js :
  wf_taglist js →
  ∃ r, add_taglist n v s js = Ret r ∧ keeps js (snd r) ∧
    (snd r).(pub).(state) = js.(pub).(state) ∧ (snd r).(last_seqcode) = js.(last_seqcode).
Proof.
  intros Hw. destruct (add_taglist_entry n v s js Hw) as (js' & E & Hw' & _).
  exists (1, js'). split; [done |]. destruct (add_taglist_frame _ _ _ _ _ E) as (t & c & Ej).
  simpl in *. rewrite Ej in *. split; [repeat split; auto | done].
Qed.

Lemma case_usertag `{Stack} strict e n v l js :
  wf_taglist js → case_runs strict e l js (glite_usertag strict e n v l js).
Proof.
  intros Hw. unfold glite_usertag. destruct (USABLE_DATA _ _); [| case_done].
  destruct n as [n|], v as [v|]; try case_done.
  destruct (usertag_keeps n v (ev_seqcode e) js Hw) as (r & -> & Hk & Hs & Hl). cbn [obind].
  eexists. split; [done |]. split; [done |]. do 2 (split; [done |]). split; [auto |].
  rewrite Hs, Hl. auto.
Qed.

Lemma case_collectionstate strict e b n l js :
  b.(cs_state) = Some n → valid_state (edg_wll_StringToStat n) →
  case_runs strict e l js (glite_collectionstate strict b l js).
Proof.
  intros En Hv. unfold glite_collectionstate. rewrite En.
  cbv zeta. change (res (l <| new_state := edg_wll_StringToStat n |>)) with (res l).
  destruct (USABLE (res l) strict) eqn:Eu, (edg_wll_StringToStat n =? EDG_WLL_JOB_DONE);
    try case_done.
  all: eexists; split; [reflexivity |]; split; [kept |]; do 2 (split; [reflexivity |]);
    split; [auto |]; split; [intros _ _; exact Hv |].
  all: change (res (l <| new_state := edg_wll_StringToStat n |>)) with (res l);
    split; [congruence | auto].
Qed.

Lemma case_sandbox strict e b l js : case_runs strict e l js (glite_sandbox strict b l js).
Proof.
  unfold glite_sandbox. destruct (USABLE_DATA _ _), (sb_transfer_job b); try case_done.
  destruct (_ =? EDG_WLL_SANDBOX_INPUT), (_ =? EDG_WLL_SANDBOX_OUTPUT); case_done.
Qed.

Lemma case_grant strict e p l js : case_runs strict e l js (glite_grant p l js).
Proof.
  unfold glite_grant. destruct (payload_owner_pending js); [destruct (edg_wll_gss_equal_subj _ _)|];
    case_done.
Qed.
Lemma case_take strict e p l js : case_runs strict e l js (glite_take p l js).
Proof.
  unfold glite_take. destruct (payload_owner_unconfirmed js);
    [destruct (edg_wll_gss_equal_subj _ _)|]; case_done.
Qed.

(** The transition of a usable CREAM event, in the terms of [processEvent_Cream]. *)
Lemma cream_usable e js :
  cream_named e = true →
  ∃ js', cream_switch e js = Ret js' ∧ same_core js js' ∧
    (valid_state js.(pub).(state) → valid_state js'.(pub).(state)).
Proof.
  intros Hn. destruct (cream_switch_ok e js Hn) as (js' & E & Hc & Hs).
  exists js'. split; [done |]. split; [done |]. rewrite Hs.
  destruct (cream_target e) eqn:Et; [| done]. intros _. by apply cream_target_valid in Et.
Qed.

Lemma cream_call_grid strict e b l js :
  let js' := glite_cream_call strict e b l js in
  same_core js js' ∧ (valid_state js.(pub).(state) → valid_state js'.(pub).(state)) ∧
  (USABLE l.(res) strict = false → js'.(pub).(state) = js.(pub).(state)).
Proof.
  unfold glite_cream_call.
  destruct (is_lrms_start e b), (cc_command b =? EDG_WLL_CREAMCALL_CMDCANCEL),
    (cc_result b =? EDG_WLL_CREAMCALL_OK), (USABLE (res l) strict);
    (split; [core |]; split; [valid | try discriminate; reflexivity]).
Qed.

Lemma case_cream strict e l js :
  cream_named e = true → case_runs strict e l js (glite_cream strict e l js).
Proof.
  intros Hn. unfold glite_cream.
  match goal with |- case_runs _ _ _ _ (obind ?m _) =>
    assert (∃ js', m = Ret js' ∧ same_core js js' ∧
      (valid_state (state (pub js)) → valid_state (state (pub js'))) ∧
      (USABLE (res l) strict = false → state (pub js') = state (pub js)))
      as (js' & -> & Hc & Hv & Hu) end.
  { pose proof (cream_usable e js Hn) as (js' & E & Hc & Hv). unfold cream_switch in E.
    pose proof (cream_call_grid strict e) as Hcall.
    destruct (USABLE (res l) strict) eqn:Eu; destruct (ev_body e);
      try (exists js; split; [reflexivity |]; split; [core | split; done]);
      try (exists js'; split; [exact E | split; [done | split; [done | discriminate]]]);
      (eexists; split; [reflexivity |]; match goal with b : CREAMCallEvent |- _ =>
        destruct (Hcall b l js) as (H1 & H2 & H3); rewrite Eu in H3; auto end). }
  cbn [obind]. eexists. split; [done |]. split; [by apply same_core_keeps |].
  do 2 (split; [done |]). split; [auto |]. split; [auto |]. split; [| auto].
  intros Hf. split; [auto | apply Hc].
Qed.

