(* ===== verification/GliteProps.v ===== *)
(** * Grid jobs: properties of the state machine *)
From Stdlib Require Import ZArith Lia Ascii.
From stdpp Require Import base option list strings numbers relations.
From S2P Require Import Prelude CLib JobId LbTypes Events SeqCode StateMachine ProcessCream.
From S2P Require Import Gss ProcessGlite GliteCases.
#[local] Open Scope Z_scope.

(** ** The whole [switch] *)

(** The events whose processing is defined: the names of states are there and known, and
    a ReallyRunning event comes from the LRMS or the log monitor. *)
Definition glite_sane (js : intJobStat) (e : Event) : Prop :=
  match e.(ev_body) with
  | CollectionState b => ∃ n, b.(cs_state) = Some n ∧ valid_state (edg_wll_StringToStat n)
  | ReallyRunning _ =>
    rr_source e = true ∧ (glite_old_late js e = true → is_Some js.(last_seqcode))
  | _ => cream_named e = true
  end.

Definition wf_job (js : intJobStat) : Prop := wf_status js ∧ wf_branches js.(branch_states).

Lemma switch_ok `{Stack} strict e l js :
  wf_job js → valid_state l.(new_state) →
  match e.(ev_body) with
  | CollectionState b => ∃ n, b.(cs_state) = Some n ∧ valid_state (edg_wll_StringToStat n)
  | ReallyRunning _ => rr_source e = true ∧
      (l.(res) = RET_LATE → USABLE_BRANCH l.(fine_res) = true →
       js.(last_branch_seqcode) = None → is_Some js.(last_seqcode))
  | _ => cream_named e = true
  end →
  case_runs strict e l js (glite_switch strict e l js).
Proof.
  intros ((Hs & Ht & Hh & Hw) & Hb) Hn Hsane. unfold glite_switch.
  destruct (ev_body e) eqn:Eb;
    first
      [ by apply case_transfer | by apply case_accepted | by apply case_refused
      | by apply case_enqueued | by apply case_dequeued | apply case_helper
      | by apply case_running | by apply case_match | by apply case_regjob
      | by apply case_usertag | apply case_suspend | apply case_resubmission
      | apply case_done_event | by apply (case_cancel strict e) | by apply case_abort
      | apply case_clear | apply case_pending | apply case_sandbox | apply case_grant
      | apply case_take | apply case_cream; unfold cream_named; by rewrite Eb
      | idtac ].
  all: try case_done.
  - destruct Hsane as [? ?]. by apply case_reallyrunning.
  - destruct Hsane as (n & ? & ?). by eapply case_collectionstate.
  - by apply case_cream.
Qed.

(** Fields that the recording of the sequence code and what follows it leave alone. *)
Definition same_status (js js' : intJobStat) : Prop :=
  js'.(pub).(state) = js.(pub).(state) ∧
  js'.(pub).(stateEnterTimes) = js.(pub).(stateEnterTimes) ∧
  js'.(pub).(children_hist) = js.(pub).(children_hist) ∧
  js'.(pub).(user_tags) = js.(pub).(user_tags) ∧
  js'.(tag_seq_codes) = js.(tag_seq_codes) ∧
  js'.(branch_states) = js.(branch_states) ∧
  js'.(pub).(stateEnterTime) = js.(pub).(stateEnterTime) ∧
  js'.(pub).(lastUpdateTime) = js.(pub).(lastUpdateTime).

#[export] Instance same_status_preorder : PreOrder same_status.
Proof.
  split; [intros js; repeat split; auto |].
  intros a b c (?&?&?&?&?&?&?&?) (?&?&?&?&?&?&?&?). repeat split; congruence.
Qed.

Lemma same_status_wf js js' : wf_job js → same_status js js' → wf_job js'.
Proof.
  intros ((H1&H2&H3&H4)&H5) (E1&E2&E3&E4&E5&E6&_&_).
  unfold wf_job, wf_status, wf_taglist in *. rewrite E1, E2, E3, E4, E5, E6. auto.
Qed.

Lemma record_seq_same l e js : same_status js (glite_record_seq l e js).
Proof.
  unfold glite_record_seq. destruct (is_cancel _), (lm_favour_lrms l), (ignore_seq_code l);
    by repeat split.
Qed.

Lemma record_ok l e js :
  wf_job js →
  ∃ js', glite_record l e js = Ret js' ∧ wf_job js' ∧
    js'.(pub).(state) = js.(pub).(state) ∧
    js'.(pub).(lastUpdateTime) = e.(ev_timestamp) ∧
    (js.(pub).(state) ≠ l.(old_state) → js'.(pub).(stateEnterTime) = e.(ev_timestamp)).
Proof.
  intros [Hwf Hb]. unfold glite_record, glite_record_state.
  destruct (update_times_ok (old_state l) e js Hwf) as (js1 & E & Hwf1 & E1 & E2 & E3 & _).
  rewrite E. cbn [obind]. destruct (update_times_branches _ _ _ _ E) as [Eb _].
  match goal with |- context [glite_record_seq l e ?j] => set (js2 := j) end.
  assert (same_status js1 js2) as Hs2
    by (unfold js2; destruct (_ && _); by repeat split).
  eexists. split; [reflexivity |].
  match goal with |- wf_job ?j ∧ _ => assert (same_status js1 j) as Hs end.
  { etrans; [exact Hs2 |]. etrans; [apply record_seq_same |].
    destruct (_ =? EDG_WLL_JOB_RUNNING), (_ =? RET_GOODBRANCH); by repeat split. }
  split; [eapply same_status_wf; [| exact Hs]; split; [done | by rewrite Eb] |].
  destruct Hs as (-> & _ & _ & _ & _ & _ & -> & ->). rewrite E1. auto.
Qed.

Lemma network_server_same e js :
  same_status js (glite_network_server e js) ∧
  (glite_network_server e js).(last_seqcode) = js.(last_seqcode).
Proof.
  unfold glite_network_server. destruct (network_server (pub js)); [by repeat split |].
  destruct (decide _); by repeat split.
Qed.

(** ** The prologue *)
Lemma forget_branches_frame js e :
  let js' := glite_forget_branches js e in
  same_status js js' ∧ js'.(last_seqcode) = js.(last_seqcode).
Proof.
  unfold glite_forget_branches. destruct (is_cancel _); [by repeat split |].
  destruct (last_seqcode js) as [last|] eqn:El; [| by repeat split].
  destruct (after_enter_wm _ _); repeat split; simpl; try done.
Qed.

Lemma glite_order_cases `{Stack} js e r0 :
  let '(r, f) := glite_order js e r0 in
  (r = r0 ∨ r = RET_LATE) ∧
  (r = RET_LATE → USABLE_BRANCH f = true → js.(last_branch_seqcode) = None →
   r0 = RET_LATE ∨ is_Some js.(last_seqcode)).
Proof.
  unfold glite_order.
  destruct (deep_resubmit_seqcode js) as [d|];
    [destruct (before_deep_resubmission _ _); [split; [auto | discriminate] |] |];
    (destruct (branch_tag_seqcode js) as [t|];
     [destruct (same_branch _ _); [| split; [auto | discriminate]];
      destruct (last_branch_seqcode js) as [lb|]; [| split; auto];
      destruct (_ <? 0); split; auto; discriminate |]);
    (destruct (last_seqcode js) as [last|]; [| split; auto]);
    destruct (_ <? 0); split; eauto.
Qed.

Lemma prologue_frame `{Stack} js e l js0 :
  glite_prologue js e = (l, js0) →
  same_status js js0 ∧ js0.(last_seqcode) = js.(last_seqcode) ∧
  l.(old_state) = js.(pub).(state) ∧ l.(new_state) = EDG_WLL_JOB_UNKNOWN ∧
  (l.(res) = RET_OK ∨ l.(res) = RET_LATE) ∧
  (glite_old_late js e = true → l.(res) = RET_LATE) ∧
  (l.(res) = RET_LATE → USABLE_BRANCH l.(fine_res) = true →
   js0.(last_branch_seqcode) = None → glite_old_late js e = true ∨ is_Some js0.(last_seqcode)).
Proof.
  unfold glite_prologue. destruct (forget_branches_frame js e) as [Hs Hl].
  set (j := glite_forget_branches js e) in *.
  pose proof (glite_order_cases j e (if glite_old_late js e then RET_LATE else RET_OK)) as Ho.
  destruct (glite_order j e _) as [r f]. destruct Ho as [Hr Hlate]. intros [= <- <-]. simpl.
  split; [done |]. split; [done |]. split; [done |]. split; [done |].
  split; [destruct (glite_old_late js e); intuition |].
  split; [intros E; rewrite E in Hr; intuition |].
  intros E1 E2 E3. destruct (Hlate E1 E2 E3) as [E4|?]; [| auto].
  destruct (glite_old_late js e); [auto | discriminate].
Qed.

(** ** The processor as a whole *)

(** What can happen: the event is recorded, it is put aside, or it is a bad one. *)
Definition glite_result (js : intJobStat) (e : Event) (unusable : bool) (r : Z)
    (js' : intJobStat) : Prop :=
  (r = RET_OK ∧ unusable = false ∧ js'.(pub).(lastUpdateTime) = e.(ev_timestamp) ∧
   (js'.(pub).(state) ≠ js.(pub).(state) →
    js'.(pub).(stateEnterTime) = e.(ev_timestamp))) ∨
  ((r = RET_LATE ∨ r = RET_IGNORE) ∧ js'.(pub).(state) = js.(pub).(state) ∧
   js'.(last_seqcode) = js.(last_seqcode) ∧
   js'.(pub).(lastUpdateTime) = js.(pub).(lastUpdateTime) ∧
   js'.(pub).(stateEnterTime) = js.(pub).(stateEnterTime)) ∨
  (r = RET_SUSPECT ∧ (unusable = true → js'.(pub).(state) = js.(pub).(state)) ∧
   js'.(last_seqcode) = js.(last_seqcode) ∧
   js'.(pub).(lastUpdateTime) = js.(pub).(lastUpdateTime) ∧
   js'.(pub).(stateEnterTime) = js.(pub).(stateEnterTime)).

Lemma keeps_wf js js' :
  wf_job js → keeps js js' → valid_state js'.(pub).(state) → wf_job js'.
Proof.
  intros ((_&H2&H3&H4)&H5) (K2&K3&K4&K5&_&_) Hv. repeat split; auto; apply Hv.
Qed.

Lemma cream_data_keeps `{Stack} e js :
  wf_job js →
  ∃ js', (if is_cream_source e.(ev_source) then processData_Cream js e else Ret js) = Ret js' ∧
    wf_job js' ∧ keeps js js' ∧ js'.(pub).(state) = js.(pub).(state) ∧
    js'.(last_seqcode) = js.(last_seqcode) ∧
    (is_cream_source e.(ev_source) = false → js' = js).
Proof.
  intros Hwf. destruct (is_cream_source _).
  - destruct (processData_Cream_ok e js) as (js' & -> & Hc & Hs); [apply Hwf |].
    exists js'. split; [done |]. pose proof (same_core_keeps _ _ Hc) as Hk.
    split; [apply (keeps_wf js); [done .. |]; rewrite Hs; apply Hwf |].
    split; [done |]. split; [done |]. split; [apply Hc | discriminate].
  - exists js. by repeat split; try apply Hwf.
Qed.

(** What follows the [switch] after a [break]. *)
Definition glite_epilogue (strict : bool) (e : Event) (l : locals) (js : intJobStat) :
    outcome (Z * intJobStat) :=
  let! js := if USABLE l.(res) strict then glite_record l e js else Ret js in
  let js := if USABLE_DATA l.(res) strict then glite_network_server e js else js in
  Ret (l.(res), js).

Lemma same_status_result js js' e u r js2 :
  same_status js2 js' → js'.(last_seqcode) = js2.(last_seqcode) →
  glite_result js e u r js2 → glite_result js e u r js'.
Proof.
  intros (E1&_&_&_&_&_&E2&E3) E4. unfold glite_result. by rewrite E1, E2, E3, E4.
Qed.

Lemma epilogue_ok strict e l js js2 u :
  wf_job js2 → l.(old_state) = js.(pub).(state) →
  l.(res) = RET_OK ∧ u = false ∨
  (l.(res) = RET_LATE ∨ l.(res) = RET_IGNORE) ∧ glite_result js e u RET_LATE js2 →
  ∃ r js', glite_epilogue strict e l js2 = Ret (r, js') ∧ wf_job js' ∧
    glite_result js e u r js'.
Proof.
  intros Hwf Ho Hr. unfold glite_epilogue.
  assert (∃ js3, (if USABLE (res l) strict then glite_record l e js2 else Ret js2) = Ret js3 ∧
    wf_job js3 ∧ glite_result js e u (res l) js3) as (js3 & -> & Hwf3 & Hres).
  { destruct Hr as [[-> ->]|[Hr Hres]].
    - destruct (record_ok l e js2 Hwf) as (js3 & E & Hwf3 & Es & Et & Ee).
      exists js3. split; [exact E |]. split; [done |]. left. rewrite Ho, <-Es in Ee. auto.
    - exists js2. split; [by destruct Hr as [-> | ->] |]. split; [done |].
      destruct Hres as [[? _]|[(_&Hres)|[? _]]]; [discriminate | | discriminate].
      right. left. auto. }
  cbn [obind]. do 2 eexists. split; [reflexivity |].
  destruct (USABLE_DATA (res l) strict); [| done].
  destruct (network_server_same e js3) as [Hs Hl].
  split; [by apply (same_status_wf js3) | by apply (same_status_result _ _ _ _ _ js3)].
Qed.

Lemma usable_cases l strict :
  l.(res) = RET_OK ∨ l.(res) = RET_LATE ∨ l.(res) = RET_IGNORE →
  (USABLE l.(res) strict = true → l.(res) = RET_OK) ∧
  (USABLE l.(res) strict = false → l.(res) = RET_LATE ∨ l.(res) = RET_IGNORE).
Proof. intros [->|[->| ->]]; (split; [try done; discriminate | auto]); discriminate. Qed.

Lemma glite_core `{Stack} strict js e :
  wf_job js → glite_sane js e →
  ∃ r js', processEvent_glite js e strict = Ret (r, js') ∧ wf_job js' ∧
    glite_result js e
      (negb (USABLE (fst (glite_prologue js e)).(res) strict) && negb (is_wm_abort e)) r js'.
Proof.
  intros Hwf Hsane. unfold processEvent_glite.
  destruct (glite_prologue js e) as [l js0] eqn:Ep. cbn [fst].
  destruct (prologue_frame _ _ _ _ Ep) as (Hs0 & Hl0 & Ho & Hn & Hr & Hlate & Hrr).
  assert (wf_job js0) as Hwf0 by (by apply (same_status_wf js)).
  destruct (cream_data_keeps e js0 Hwf0) as (js1 & -> & Hwf1 & Hk1 & Hs1 & Hl1 & Hid).
  cbn [obind]. destruct (switch_ok strict e l js1 Hwf1) as (f & -> & Hf).
  { rewrite Hn. by vm_compute. }
  { unfold glite_sane in Hsane. destruct (ev_body e); try exact Hsane.
    destruct Hsane as [Hsrc Hold]. split; [done |].
    rewrite Hid by (unfold rr_source in Hsrc; by destruct (ev_source e)).
    intros E1 E2 E3. destruct (Hrr E1 E2 E3) as [E|?]; [| done]. rewrite Hl0. auto. }
  cbn [obind]. destruct Hs0 as (E1 & _ & _ & _ & _ & _ & E2 & E3).
  rewrite E1 in Hs1. rewrite Hl0 in Hl1. pose proof Hwf1 as [[Hv1 _] _].
  assert (valid_state (old_state l)) as Hvo by (rewrite Ho, <-Hs1; exact Hv1).
  destruct f as [l2 js2|js2]; cbn in Hf.
  - destruct Hf as (Hk & Ho2 & _ & Hr2 & Hv & Hu & Hab).
    assert (res l2 = RET_OK ∨ res l2 = RET_LATE ∨ res l2 = RET_IGNORE) as Hr3
      by (clear -Hr Hr2; intuition congruence).
    apply epilogue_ok; [by apply (keeps_wf js1); auto | congruence |].
    pose proof Hk as (_&_&_&_&K1&K2). pose proof Hk1 as (_&_&_&_&K3&K4).
    destruct (USABLE (res l2) strict) eqn:Eu.
    + left. split; [by apply (usable_cases l2 strict) |].
      destruct (is_wm_abort e); [apply andb_false_r |].
      destruct (USABLE (res l) strict); [done | discriminate (Hab eq_refl eq_refl)].
    + destruct (Hu eq_refl) as [Hus Hul]. right. split.
      * by apply (usable_cases l2 strict).
      * right. left. split; [auto |]. repeat split; congruence.
  - destruct Hf as (Hk & Hl2 & Hv & Hu). do 2 eexists. split; [reflexivity |].
    split; [by apply (keeps_wf js1); auto |].
    pose proof Hk as (_&_&_&_&K1&K2). pose proof Hk1 as (_&_&_&_&K3&K4).
    right. right. split; [done |]. split; [| repeat split; congruence].
    intros Hub. apply andb_true_iff in Hub as [Hub _]. apply negb_true_iff in Hub.
    rewrite (Hu Hub). congruence.
Qed.

(** ** The main properties *)

(** processing a grid event is total and safe: on a well formed job status and an event
    that names known states (and, for ReallyRunning, comes from the LRMS or the log
    monitor), [processEvent_glite] returns one of [RET_OK], [RET_LATE], [RET_IGNORE] and
    [RET_SUSPECT] without any fault, and the job status is well formed again: a valid
    state, counted arrays of the right length, parallel tag arrays and a terminated array
    of branches. *)
Theorem glite_total `{Stack} strict js e :
  wf_job js → glite_sane js e →
  ∃ r js', processEvent_glite js e strict = Ret (r, js') ∧ wf_job js' ∧
    (r = RET_OK ∨ r = RET_LATE ∨ r = RET_IGNORE ∨ r = RET_SUSPECT).
Proof.
  intros Hwf Hs. destruct (glite_core strict js e Hwf Hs) as (r & js' & E & Hwf' & Hr).
  exists r, js'. split; [done |]. split; [done |]. unfold glite_result in Hr. tauto.
Qed.


(** The event is late by the rules of the code: the job has ended, or the event is older
    than the deep resubmission, belongs to another branch than the running one, or is
    older than the last event (of the branch that runs, if one does). *)
Definition glite_late `{Stack} (js : intJobStat) (e : Event) : bool :=
  let older c :=
    match c with Some last => edg_wll_compare_seq e.(ev_seqcode) last <? 0 | None => false end in
  let j := glite_forget_branches js e in
  glite_old_late js e ||
  match j.(deep_resubmit_seqcode) with
  | Some deep => before_deep_resubmission e.(ev_seqcode) deep
  | None => false
  end ||
  match j.(branch_tag_seqcode) with
  | Some tag => negb (same_branch e.(ev_seqcode) tag) || older j.(last_branch_seqcode)
  | None => older j.(last_seqcode)
  end.

Lemma glite_late_res `{Stack} js e :
  (fst (glite_prologue js e)).(res) = if glite_late js e then RET_LATE else RET_OK.
Proof.
  unfold glite_prologue, glite_late, glite_order. cbv zeta.
  set (j := glite_forget_branches js e).
  destruct (glite_old_late js e), (deep_resubmit_seqcode j) as [d|];
    try destruct (before_deep_resubmission _ d); simpl; try done;
    destruct (branch_tag_seqcode j) as [t|]; simpl; try destruct (same_branch _ t); simpl;
    try done; repeat case_match; done.
Qed.


(** out of order delivery: while no branch has been selected and no deep resubmission
    happened, an event with an older sequence code than the last one that counted leaves
    the state and the last sequence code as they are. *)
Theorem glite_out_of_order `{Stack} strict js e last :
  wf_job js → glite_sane js e → is_wm_abort e = false →
  js.(branch_tag_seqcode) = None → js.(last_seqcode) = Some last →
  edg_wll_compare_seq e.(ev_seqcode) last < 0 →
  ∃ r js', processEvent_glite js e strict = Ret (r, js') ∧ r ≠ RET_OK ∧
    js'.(pub).(state) = js.(pub).(state) ∧ js'.(last_seqcode) = Some last.
Proof.
  intros Hwf Hs Ha Ht Hl Hc.
  assert (glite_late js e = true) as Hlate.
  { unfold glite_late. cbv zeta. destruct (forget_branches_frame js e) as [_ El].
    assert (branch_tag_seqcode (glite_forget_branches js e) = None) as ->.
    { unfold glite_forget_branches. destruct (is_cancel _); [done |]. rewrite Hl.
      by destruct (after_enter_wm _ _). }
    rewrite El, Hl. apply Z.ltb_lt in Hc. rewrite Hc. apply orb_true_r. }
  destruct (glite_core strict js e Hwf Hs) as (r & js' & E & _ & Hr).
  rewrite glite_late_res, Hlate, Ha in Hr. exists r, js'. split; [done |]. rewrite <-Hl.
  destruct Hr as [(_ & Hd & _)|[([-> | ->] & Hr)|(-> & Hst & Hr)]];
    [discriminate Hd | split; [done | tauto] .. |].
  split; [done |]. split; [by apply Hst | tauto].
Qed.

(** The events of a job one after the other. *)
Inductive glite_step `{Stack} : intJobStat → intJobStat → Prop :=
| GliteStep strict js e r js' :
  glite_sane js e → is_wm_abort e = false →
  processEvent_glite js e strict = Ret (r, js') → glite_step js js'.

(** C5: Cancelled and Cleared are final: whatever events follow, in any number and order,
    as long as the workload manager does not report an abort, the job stays in that
    state. *)
Theorem glite_final `{Stack} js js' :
  wf_job js →
  js.(pub).(state) = EDG_WLL_JOB_CANCELLED ∨ js.(pub).(state) = EDG_WLL_JOB_CLEARED →
  rtc glite_step js js' → js'.(pub).(state) = js.(pub).(state).
Proof.
  intros Hwf Hst Hrtc. revert Hwf Hst.
  induction Hrtc as [js|js js1 js' Hstep _ IH]; intros Hwf Hst; [done |].
  destruct Hstep as [strict js e r js1 Hs Ha E].
  destruct (glite_core strict js e Hwf Hs) as (r' & js2 & E' & Hwf2 & Hr).
  rewrite E in E'. injection E' as <- <-.
  assert (glite_late js e = true) as Hlate.
  { unfold glite_late, glite_old_late. cbv zeta. apply orb_true_iff. left.
    apply orb_true_iff. left. destruct Hst as [-> | ->]; simpl; by rewrite ?orb_true_r. }
  rewrite glite_late_res, Hlate, Ha in Hr.
  assert (state (pub js1) = state (pub js)) as E1.
  { destruct Hr as [(_ & Hd & _)|[(_ & Hr & _)|(_ & Hr & _)]]; [discriminate Hd | done | auto]. }
  rewrite <-E1. apply IH; [done | by rewrite E1].
Qed.

Lemma update_times_frame old e js js' :
  update_times old e js = Ret js' →
  ∃ t a, js' = js <! lastUpdateTime := e.(ev_timestamp) !> <! stateEnterTime := t !>
                  <! stateEnterTimes := a !>.
Proof.
  unfold update_times. cbv zeta. destruct (_ =? _).
  - intros [= <-]. exists (stateEnterTime (pub js)), (stateEnterTimes (pub js)).
    by destruct js as [[]].
  - unfold set_enter_time. intros (a & _ & [= <-])%obind_Ret_inv. eauto.
Qed.

(** C6: an abort reported by the workload manager counts in every case, even if it is late
    or the job has already been cancelled or cleared: the job is Aborted, the branches of
    the shallow resubmission are forgotten and later events have to be newer than the
    abort. *)
Theorem glite_wm_abort `{Stack} strict js e r :
  wf_job js → e.(ev_body) = Abort_ r → e.(ev_source) = EDG_WLL_SOURCE_WORKLOAD_MANAGER →
  ∃ js', processEvent_glite js e strict = Ret (RET_OK, js') ∧
    js'.(pub).(state) = EDG_WLL_JOB_ABORTED ∧ js'.(pub).(reason) = r ∧
    js'.(last_seqcode) = Some e.(ev_seqcode) ∧
    js'.(deep_resubmit_seqcode) = Some e.(ev_seqcode) ∧
    js'.(branch_tag_seqcode) = None ∧ js'.(branch_states) = None.
Proof.
  intros Hwf Eb Es. unfold processEvent_glite.
  destruct (glite_prologue js e) as [l js0] eqn:Ep.
  destruct (prologue_frame _ _ _ _ Ep) as (Hs0 & _ & _).
  assert (lm_favour_lrms l = false ∧ ignore_seq_code l = false) as [Hlm Hig].
  { revert Ep. unfold glite_prologue. destruct (glite_order _ _ _). by intros [= <- _]. }
  rewrite Es. cbn [is_cream_source obind]. unfold glite_switch. rewrite Eb.
  unfold glite_abort. rewrite Es.
  rewrite decide_True by done.
  change (USABLE (res (l <| res := RET_OK |>)) strict) with true. cbn [obind].
  set (js1 := reset_branch _ e).
  assert (wf_status js1) as Hwf1.
  { pose proof (same_status_wf js js0 Hwf Hs0) as [(_&H2&H3&H4) _].
    refine (conj _ (conj H2 (conj H3 H4))). by vm_compute. }
  unfold glite_record, glite_record_state.
  change (old_state (l <| res := RET_OK |>)) with (old_state l).
  destruct (update_times_ok (old_state l) e js1 Hwf1) as (js2 & E2 & _ & Hst & _).
  rewrite E2. destruct (update_times_frame _ _ _ _ E2) as (t & a & ->).
  cbn [obind]. rewrite Hst. change (state (pub js1)) with EDG_WLL_JOB_ABORTED.
  rewrite andb_false_r. unfold glite_record_seq. rewrite Eb. cbn [is_cancel].
  change (lm_favour_lrms (l <| res := RET_OK |>)) with (lm_favour_lrms l).
  change (ignore_seq_code (l <| res := RET_OK |>)) with (ignore_seq_code l).
  rewrite Hlm, Hig. cbn [negb].
  change (USABLE (res (l <| res := RET_OK |>)) strict) with true. cbn [obind].
  match goal with |- context [glite_network_server e ?j] => set (js3 := j) end.
  unfold glite_network_server. rewrite Es.
  eexists. split; [reflexivity |].
  destruct (USABLE_DATA _ _); [destruct (network_server (pub js3)) |];
    subst js3; destruct (_ =? RET_GOODBRANCH); by repeat split.
Qed.

(** The owner of the payload after a grant to [p] and a take by [u] in either order. *)
Definition owner_after (m : outcome flow) : option string :=
  match m with Ret (Break _ js) => js.(pub).(payload_owner) | _ => None end.
Definition grant_take (l : locals) (js : intJobStat) (p u : string) : option string :=
  owner_after (fbind (glite_grant (Some p) l js) (glite_take (Some u))).
Definition take_grant (l : locals) (js : intJobStat) (p u : string) : option string :=
  owner_after (fbind (glite_take (Some u) l js) (glite_grant (Some p))).

(** handing over the payload of a job: whichever of the grant and the take arrives
    first, the ownership changes if and only if both name the same subject, and then the
    new owner is that subject. *)
Theorem payload_handshake l js p u :
  js.(payload_owner_pending) = None → js.(payload_owner_unconfirmed) = None →
  js.(pub).(payload_owner) = None →
  if edg_wll_gss_equal_subj (Some p) (Some u)
  then grant_take l js p u = Some p ∧ take_grant l js p u = Some u
  else grant_take l js p u = None ∧ take_grant l js p u = None.
Proof.
  intros H1 H2 H3. unfold grant_take, take_grant, glite_grant, glite_take.
  rewrite H1, H2. simpl.
  assert (edg_wll_gss_equal_subj (Some u) (Some p) = edg_wll_gss_equal_subj (Some p) (Some u))
    as Hsym by (unfold edg_wll_gss_equal_subj, strcasecmp_eq; apply String.eqb_sym).
  unfold edg_wll_gss_equal_subj in Hsym. rewrite Hsym.
  clear Hsym. destruct (strcasecmp_eq _ _); simpl; rewrite ?H3; auto.
Qed.

(** Nothing is known about the branch that runs. *)
Definition no_branch (js : intJobStat) : Prop :=
  js.(deep_resubmit_seqcode) = None ∧ js.(last_branch_seqcode) = None ∧
  js.(branch_tag_seqcode) = None.

(** a ReallyRunning event is fatal when it arrives late and nothing tells the branch:
    for a job that has ended, if no branch has been selected and the event is from a
    source other than the LRMS and the log monitor, the code compares a NULL sequence
    code. *)
Theorem reallyrunning_null `{Stack} strict js e w :
  e.(ev_body) = ReallyRunning w → glite_old_late js e = true → no_branch js →
  is_cream_source e.(ev_source) = false → rr_source e = false →
  processEvent_glite js e strict = UB NullDeref.
Proof.
  intros Eb Ho (Hd & Hlb & Ht) Hc Hrr. unfold processEvent_glite, glite_prologue, glite_order.
  set (j := glite_forget_branches js e).
  assert (deep_resubmit_seqcode j = None ∧ last_branch_seqcode j = None ∧
          branch_tag_seqcode j = None) as (E1 & E2 & E3).
  { subst j. unfold glite_forget_branches. destruct (is_cancel _), (last_seqcode js);
      try destruct (after_enter_wm _ _); by repeat split. }
  rewrite E1, E3, Ho, Hc. cbn [obind].
  match goal with |- context [glite_switch strict e ?l j] => set (l0 := l) end.
  assert (res l0 = RET_LATE ∧ fine_res l0 = RET_OK) as [Er Ef].
  { subst l0. simpl. by destruct (last_seqcode j); [destruct (_ <? 0) |]. }
  unfold glite_switch. rewrite Eb. unfold glite_reallyrunning. rewrite Ef, Er.
  cbn [Z.eqb RET_OK RET_BADBRANCH RET_TOOOLD RET_LATE andb Pos.eqb].
  unfold glite_rr_select. revert Hrr. unfold rr_source.
  destruct (ev_source e); try discriminate; intros _; cbn [fbind];
    rewrite E2, Er, E3; by destruct (last_seqcode j).
Qed.

(** ** Witnesses *)
Definition OLD_CODE : string :=
  "UI=000002:NS=0000000009:WM=000004:BH=0000000000:JSS=000000:LM=000000:LRMS=000000:APP=000000:LBS=000000".
Definition NEW_CODE : string :=
  "UI=000002:NS=0000000009:WM=000006:BH=0000000000:JSS=000000:LM=000000:LRMS=000000:APP=000000:LBS=000000".
Definition glite_sample (code : string) (src : edg_wll_Source) (b : EventBody) : Event :=
  mkEvent (mkTime 1000 5) (mkTime 1001 0) (Some "host"%string) 0 0 (Some sample_jobid)
    code (Some "user"%string) src None b.
Definition sample_job (st : Z) (last : option string) : intJobStat :=
  init_intJobStat <! state := st !> <| last_seqcode := last |>.

Lemma sample_job_wf st last : valid_state st → wf_job (sample_job st last).
Proof.
  intros Hst. pose proof init_wf_status as (_ & H2 & H3 & H4).
  exact (conj (conj Hst (conj H2 (conj H3 H4))) I).
Qed.

Definition pending_event (code : string) : Event :=
  glite_sample code EDG_WLL_SOURCE_WORKLOAD_MANAGER (Pending (Some "no match"%string)).
Definition abort_event (code : string) : Event :=
  glite_sample code EDG_WLL_SOURCE_WORKLOAD_MANAGER (Abort_ (Some "hopeless"%string)).

Lemma glite_total_witness :
  ∃ r js', @processEvent_glite zero_stack
             (sample_job EDG_WLL_JOB_READY (Some OLD_CODE)) (pending_event NEW_CODE) true =
           Ret (r, js') ∧ wf_job js' ∧
    (r = RET_OK ∨ r = RET_LATE ∨ r = RET_IGNORE ∨ r = RET_SUSPECT).
Proof.
  apply (@glite_total zero_stack true (sample_job EDG_WLL_JOB_READY (Some OLD_CODE))
           (pending_event NEW_CODE)); [by apply sample_job_wf | done].
Defined.



Lemma glite_out_of_order_witness :
  ∃ r js', @processEvent_glite zero_stack
             (sample_job EDG_WLL_JOB_READY (Some NEW_CODE)) (pending_event OLD_CODE) true =
           Ret (r, js') ∧ r ≠ RET_OK ∧ js'.(pub).(state) = EDG_WLL_JOB_READY ∧
    js'.(last_seqcode) = Some NEW_CODE.
Proof.
  apply (@glite_out_of_order zero_stack true
           (sample_job EDG_WLL_JOB_READY (Some NEW_CODE)) (pending_event OLD_CODE) NEW_CODE);
    [by apply sample_job_wf | done | done | done | done | by vm_compute].
Defined.

Lemma glite_final_witness :
  ∃ r js1, @processEvent_glite zero_stack (sample_job EDG_WLL_JOB_CLEARED (Some OLD_CODE))
             (pending_event NEW_CODE) true = Ret (r, js1) ∧
           js1.(pub).(state) = EDG_WLL_JOB_CLEARED.
Proof.
  destruct (@glite_core zero_stack true (sample_job EDG_WLL_JOB_CLEARED (Some OLD_CODE))
              (pending_event NEW_CODE)) as (r & js1 & E & _);
    [by apply sample_job_wf | done |].
  exists r, js1. split; [exact E |].
  apply (@glite_final zero_stack (sample_job EDG_WLL_JOB_CLEARED (Some OLD_CODE)) js1);
    [by apply sample_job_wf | by right |].
  apply rtc_once.
  exact (@GliteStep zero_stack true _ (pending_event NEW_CODE) r js1 eq_refl eq_refl E).
Defined.

Lemma glite_wm_abort_witness :
  ∃ js', @processEvent_glite zero_stack (sample_job EDG_WLL_JOB_CLEARED (Some NEW_CODE))
           (abort_event OLD_CODE) true = Ret (RET_OK, js') ∧
    js'.(pub).(state) = EDG_WLL_JOB_ABORTED ∧ js'.(pub).(reason) = Some "hopeless"%string ∧
    js'.(last_seqcode) = Some OLD_CODE ∧ js'.(deep_resubmit_seqcode) = Some OLD_CODE ∧
    js'.(branch_tag_seqcode) = None ∧ js'.(branch_states) = None.
Proof.
  apply (@glite_wm_abort zero_stack true (sample_job EDG_WLL_JOB_CLEARED (Some NEW_CODE))
           (abort_event OLD_CODE)); [by apply sample_job_wf | done | done].
Defined.

Definition sample_locals : locals :=
  fst (@glite_prologue zero_stack init_intJobStat (pending_event NEW_CODE)).

Lemma payload_handshake_witness :
  grant_take sample_locals init_intJobStat "/CN=Jan" "/CN=Jan/CN=proxy" = Some "/CN=Jan"%string ∧
  take_grant sample_locals init_intJobStat "/CN=Jan" "/CN=Jan/CN=proxy" = Some "/CN=Jan/CN=proxy"%string.
Proof.
  exact (payload_handshake sample_locals init_intJobStat "/CN=Jan"%string "/CN=Jan/CN=proxy"%string
           eq_refl eq_refl eq_refl).
Defined.

Lemma reallyrunning_null_witness :
  @processEvent_glite zero_stack (sample_job EDG_WLL_JOB_CLEARED (Some OLD_CODE))
    (glite_sample NEW_CODE EDG_WLL_SOURCE_APPLICATION (ReallyRunning None)) true =
  UB NullDeref.
Proof.
  by apply (@reallyrunning_null zero_stack true
              (sample_job EDG_WLL_JOB_CLEARED (Some OLD_CODE))
              (glite_sample NEW_CODE EDG_WLL_SOURCE_APPLICATION (ReallyRunning None)) None).
Defined.
