(* ===== verification/ProcessEvent.v ===== *)
(** * The state machine: the dispatcher

    The model of [processEvent] of org.glite.lb.state-machine/src/process_event.c: the
    first registration gives the job its type, and the type selects the processor.  A
    processor is seen through the class [Processor]; the instances at the end of each
    group hand the processors of the other files over to it. *)
From Stdlib Require Import ZArith Lia Ascii.
From stdpp Require Import base option list strings numbers relations.
From S2P Require Import Prelude CLib JobId LbTypes Events SeqCode StateMachine ProcessPBS.
From S2P Require Import ProcessCream ProcessFT ProcessVM ProcessCondor Gss ProcessGlite.
From S2P Require Import GliteCases GliteProps.
#[local] Open Scope Z_scope.

(** The job type that a registration stands for. *)
Definition regjob_jobtype (t : Z) : option Z :=
  if t =? EDG_WLL_REGJOB_SIMPLE then Some EDG_WLL_STAT_SIMPLE
  else if (t =? EDG_WLL_REGJOB_DAG) || (t =? EDG_WLL_REGJOB_PARTITIONABLE) ||
          (t =? EDG_WLL_REGJOB_PARTITIONED) then Some EDG_WLL_STAT_DAG
  else if t =? EDG_WLL_REGJOB_COLLECTION then Some EDG_WLL_STAT_COLLECTION
  else if t =? EDG_WLL_REGJOB_PBS then Some EDG_WLL_STAT_PBS
  else if t =? EDG_WLL_REGJOB_CONDOR then Some EDG_WLL_STAT_CONDOR
  else if t =? EDG_WLL_REGJOB_CREAM then Some EDG_WLL_STAT_CREAM
  else if t =? EDG_WLL_REGJOB_FILE_TRANSFER then Some EDG_WLL_STAT_FILE_TRANSFER
  else if t =? EDG_WLL_REGJOB_FILE_TRANSFER_COLLECTION
       then Some EDG_WLL_STAT_FILE_TRANSFER_COLLECTION
  else if t =? EDG_WLL_REGJOB_VIRTUAL_MACHINE then Some EDG_WLL_STAT_VIRTUAL_MACHINE
  else None.

(** The return code, the job status and [*errstring], [None] if it is not set. *)
Definition answer : Type := Z * intJobStat * option string.

Definition silent (m : outcome (Z * intJobStat)) : outcome answer :=
  let! r := m in Ret (r, None).

(** The first [switch]: the job type after a first registration, or the unknown type. *)
Definition register_jobtype (js : intJobStat) (e : Event) : intJobStat + Z :=
  match e.(ev_body) with
  | RegJob b =>
    if js.(pub).(jobtype) =? -1 then
      match regjob_jobtype b.(rj_jobtype) with
      | Some t => inl (js <! jobtype := t !>)
      | None => inr b.(rj_jobtype)
      end
    else inl js
  | _ => inl js
  end.

(** The second [switch]. *)
Definition dispatch_event `{Stack} (js : intJobStat) (e : Event) (strict : bool) :
    outcome answer :=
  let t := js.(pub).(jobtype) in
  if (t =? EDG_WLL_STAT_SIMPLE) || (t =? EDG_WLL_STAT_DAG) || (t =? EDG_WLL_STAT_COLLECTION)
  then silent (processEvent_glite js e strict)
  else if t =? EDG_WLL_STAT_PBS then silent (processEvent_PBS js e)
  else if t =? EDG_WLL_STAT_CONDOR then silent (processEvent_Condor js e)
  else if t =? EDG_WLL_STAT_CREAM then silent (processEvent_Cream js e)
  else if t =? EDG_WLL_STAT_FILE_TRANSFER then silent (processEvent_FileTransfer js e)
  else if t =? EDG_WLL_STAT_FILE_TRANSFER_COLLECTION
       then silent (processEvent_FileTransferCollection js e)
  else if t =? EDG_WLL_STAT_VIRTUAL_MACHINE then silent (processEvent_VirtualMachine js e)
  else if t =? -1 then Ret (RET_UNREG, js, None)
  else Ret (RET_FAIL, js, Some (trio_asprintf "undefined job type %d" [PInt t])).

Definition processEvent `{Stack} (js : intJobStat) (e : Event) (strict : bool) :
    outcome answer :=
  match register_jobtype js e with
  | inr t =>
    Ret (RET_FAIL, js, Some (trio_asprintf "unknown job type %d in registration" [PInt t]))
  | inl js => dispatch_event js e strict
  end.

(** ** The processors' promise *)

(** On a well formed job status and an event it can cope with, a processor ends without a
    fault, with one of the usual answers and a well formed job status again. *)
Definition usual_answer (r : Z) : Prop :=
  r = RET_OK ∨ r = RET_LATE ∨ r = RET_IGNORE ∨ r = RET_SUSPECT.

Class Processor (run : intJobStat → Event → outcome (Z * intJobStat))
    (sane : intJobStat → Event → Prop) : Prop :=
  processor_ok : ∀ js e, wf_job js → sane js e →
    ∃ r js', run js e = Ret (r, js') ∧ wf_job js' ∧ usual_answer r.

(** A processor that always answers [RET_OK] and does not touch the branches. *)
Lemma plain_processor run (sane : intJobStat → Event → Prop) :
  (∀ js e, wf_status js → sane js e →
    ∃ js', run js e = Ret (RET_OK, js') ∧ wf_status js' ∧
      js'.(branch_states) = js.(branch_states)) →
  Processor run sane.
Proof.
  intros Hrun js e [Hwf Hb] Hs. destruct (Hrun js e Hwf Hs) as (js' & E & Hwf' & Hb').
  exists RET_OK, js'. split; [done |]. split; [split; [done | by rewrite Hb'] | by left].
Qed.

Tactic Notation "plain" uconstr(core) :=
  apply plain_processor; intros js e Hwf Hs;
  destruct (core js e) as (js' & E & Hwf' & Hb & _); try apply Hs; [exact Hwf | by exists js'].

#[export] Instance PBS_processor `{Stack} :
  Processor processEvent_PBS (fun _ e => pbs_sane e = true).
Proof. plain pbs_core. Qed.
#[export] Instance Condor_processor :
  Processor processEvent_Condor (fun js e => condor_comparable js e ∧ condor_readable e).
Proof. plain condor_core. Qed.
#[export] Instance Cream_processor `{Stack} :
  Processor processEvent_Cream (fun _ e => cream_named e = true).
Proof. plain cream_core. Qed.
#[export] Instance FileTransfer_processor :
  Processor processEvent_FileTransfer (fun _ _ => True).
Proof. plain ft_core. Qed.
#[export] Instance FileTransferCollection_processor :
  Processor processEvent_FileTransferCollection (fun _ e => ftc_ok e = true).
Proof. plain ftc_core. Qed.
#[export] Instance VirtualMachine_processor :
  Processor processEvent_VirtualMachine (fun _ _ => True).
Proof. plain vm_core. Qed.
#[export] Instance glite_processor `{Stack} strict :
  Processor (fun js e => processEvent_glite js e strict) glite_sane.
Proof.
  intros js e Hwf Hs. destruct (glite_core strict js e Hwf Hs) as (r & js' & E & Hwf' & Hr).
  exists r, js'. split; [done |]. split; [done |]. unfold glite_result in Hr.
  unfold usual_answer. tauto.
Qed.

(** ** Properties *)

(** The events that the processor of a job's type can cope with. *)
Definition type_sane (t : Z) (js : intJobStat) (e : Event) : Prop :=
  match t with
  | 0 | 1 | 4 => glite_sane js e
  | 5 => pbs_sane e = true
  | 6 => condor_comparable js e ∧ condor_readable e
  | 7 => cream_named e = true
  | 8 => ftc_ok e = true
  | _ => True
  end.
Definition event_sane (js : intJobStat) (e : Event) : Prop :=
  match register_jobtype js e with
  | inl js' => type_sane js'.(pub).(jobtype) js' e
  | inr _ => True
  end.

Lemma silent_ok run sane js e :
  Processor run sane → wf_job js → sane js e →
  ∃ r js', silent (run js e) = Ret (r, js', None) ∧ wf_job js' ∧ usual_answer r.
Proof.
  intros Hp Hwf Hs. destruct (processor_ok js e Hwf Hs) as (r & js' & -> & ? & ?).
  exists r, js'. done.
Qed.

Definition known_jobtypes : list Z := [0; 1; 4; 5; 6; 7; 8; 9; 10].

Lemma dispatch_ok `{Stack} js e strict :
  wf_job js → type_sane js.(pub).(jobtype) js e →
  ∃ r js' err, dispatch_event js e strict = Ret (r, js', err) ∧ wf_job js' ∧
    (r = RET_FAIL ∧ js' = js ∧ is_Some err ∧ js.(pub).(jobtype) ∉ -1 :: known_jobtypes ∨
     r = RET_UNREG ∧ js' = js ∧ err = None ∧ js.(pub).(jobtype) = -1 ∨
     usual_answer r ∧ err = None ∧ js.(pub).(jobtype) ∈ known_jobtypes).
Proof.
  intros Hwf Hs. unfold dispatch_event. cbv zeta.
  assert (∀ run sane, Processor run sane → sane js e →
    jobtype (pub js) ∈ known_jobtypes →
    ∃ r js' err, silent (run js e) = Ret (r, js', err) ∧ wf_job js' ∧
      (r = RET_FAIL ∧ js' = js ∧ is_Some err ∧ js.(pub).(jobtype) ∉ -1 :: known_jobtypes ∨
       r = RET_UNREG ∧ js' = js ∧ err = None ∧ js.(pub).(jobtype) = -1 ∨
       usual_answer r ∧ err = None ∧ js.(pub).(jobtype) ∈ known_jobtypes)) as Hrun.
  { intros run sane Hp Hsane Hk.
    destruct (silent_ok run sane js e Hp Hwf Hsane) as (r & js' & -> & ? & ?).
    exists r, js', None. split; [done |]. split; [done |]. right. right. done. }
  destruct (_ || _ || _) eqn:E0.
  { apply (Hrun (fun js e => processEvent_glite js e strict) _ _);
      apply orb_true_iff in E0 as [[E|E]%orb_true_iff|E]; zbool; rewrite E in *;
      first [exact Hs | by apply (bool_decide_unpack _); vm_compute]. }
  repeat match goal with
  | |- context [if jobtype (pub js) =? ?t then silent (?run js e) else _] =>
    let E := fresh "E" in
    destruct (Z.eqb_spec (jobtype (pub js)) t) as [E|];
    [ apply (Hrun run _ _); rewrite E in *;
      [ exact Hs || exact I | by apply (bool_decide_unpack _); vm_compute] |]
  end.
  destruct (Z.eqb_spec (jobtype (pub js)) (-1));
    [exists RET_UNREG, js, None; split; [done |]; split; [done |]; right; by left |].
  eexists _, _, _. split; [done |]. split; [done |]. left.
  apply orb_false_iff in E0 as [[E1 E2]%orb_false_iff E3]. zbool.
  split; [done |]. split; [done |]. split; [done |]. unfold known_jobtypes.
  rewrite !elem_of_cons, elem_of_nil. tauto.
Qed.

Lemma regjob_jobtype_known t s : regjob_jobtype t = Some s → s ∈ known_jobtypes.
Proof.
  unfold regjob_jobtype. intros Hs. repeat case_match; simplify_eq;
    by apply (bool_decide_unpack _); vm_compute.
Qed.

Lemma register_keeps js e js' :
  register_jobtype js e = inl js' → wf_job js →
  wf_job js' ∧ js'.(pub).(state) = js.(pub).(state).
Proof.
  unfold register_jobtype. intros Hr Hwf.
  destruct (ev_body e); try (by injection Hr as <-).
  destruct (_ =? -1); [| by injection Hr as <-].
  destruct (regjob_jobtype _); [| discriminate]. injection Hr as <-.
  split; [exact Hwf | done].
Qed.

Lemma process_event_core `{Stack} js e strict :
  wf_job js → event_sane js e →
  ∃ r js' err, processEvent js e strict = Ret (r, js', err) ∧ wf_job js' ∧
    (r = RET_FAIL ∧ js' = js ∧ is_Some err ∨
     r = RET_UNREG ∧ js' = js ∧ err = None ∧ js.(pub).(jobtype) = -1 ∨
     usual_answer r ∧ err = None).
Proof.
  intros Hwf Hs. unfold processEvent, event_sane in *.
  destruct (register_jobtype js e) as [j|t] eqn:Er.
  - destruct (register_keeps _ _ _ Er Hwf) as [Hwfj _].
    destruct (dispatch_ok j e strict Hwfj Hs) as (r & js' & err & -> & Hwf' & Hr).
    exists r, js', err. split; [done |]. split; [done |].
    assert (j.(pub).(jobtype) ∈ known_jobtypes ∨ j = js) as Hj.
    { revert Er. unfold register_jobtype. destruct (ev_body e);
        try (intros [= <-]; by right). destruct (_ =? -1); [| intros [= <-]; by right].
      destruct (regjob_jobtype _) eqn:Ek; [| done]. intros [= <-]. left.
      by apply regjob_jobtype_known in Ek. }
    destruct Hr as [(-> & -> & ? & Hk)|[(-> & -> & -> & Ht)|(? & -> & _)]]; [| | tauto].
    + destruct Hj as [Hj| ->]; [| tauto]. destruct Hk. rewrite elem_of_cons. auto.
    + destruct Hj as [Hj| ->]; [| tauto]. rewrite Ht in Hj.
      revert Hj. unfold known_jobtypes. rewrite !elem_of_cons, elem_of_nil. lia.
  - eexists _, _, _. split; [done |]. split; [done |]. left. auto.
Qed.

(** C1: processing an event of any job is total and safe: on a well formed job status and
    an event that the processor of the job's type copes with, [processEvent] ends without
    a fault and leaves the job status well formed; it answers [RET_FAIL] with a message
    or [RET_UNREG] only with the job status as it was, and no processor writes a
    message. *)
Theorem process_event_total `{Stack} js e strict :
  wf_job js → event_sane js e →
  ∃ r js' err, processEvent js e strict = Ret (r, js', err) ∧ wf_job js' ∧
    (r = RET_FAIL ∧ js' = js ∧ is_Some err ∨
     r = RET_UNREG ∧ js' = js ∧ err = None ∧ js.(pub).(jobtype) = -1 ∨
     usual_answer r ∧ err = None).
Proof. apply process_event_core. Qed.

(** The events of a job in the order in which they are processed. *)
Inductive event_step `{Stack} (strict : bool) : intJobStat → intJobStat → Prop :=
| EventStep js e r js' err :
  event_sane js e → processEvent js e strict = Ret (r, js', err) → event_step strict js js'.


(** nothing but a registration starts a job: any other event of a job that is not
    registered is answered with [RET_UNREG] and leaves no trace. *)
Theorem unregistered_event `{Stack} js e strict :
  js.(pub).(jobtype) = -1 → (∀ b, e.(ev_body) ≠ RegJob b) →
  processEvent js e strict = Ret (RET_UNREG, js, None).
Proof.
  intros Ht Hb. unfold processEvent, register_jobtype.
  destruct (ev_body e); try (unfold dispatch_event; by rewrite Ht). by destruct (Hb b).
Qed.

(** A job before its registration ([t] is -1), as its creators set it up. *)
Definition fresh_job (o : option string) (j : option JobId) (t : Z) : intJobStat :=
  init_intJobStat <! owner := o !> <! jobId := j !> <! jobtype := t !>.

(** The registered job in the status [js']. *)
Definition registered (t : Z) (o : option string) (j : option JobId) (e : Event)
    (js' : intJobStat) : Prop :=
  js'.(pub).(state) = EDG_WLL_JOB_SUBMITTED ∧ js'.(pub).(jobtype) = t ∧
  js'.(pub).(owner) = o ∧ js'.(pub).(jobId) = j ∧
  js'.(pub).(lastUpdateTime) = e.(ev_timestamp) ∧
  js'.(pub).(stateEnterTime) = e.(ev_timestamp) ∧
  js'.(pub).(stateEnterTimes) =
    Some (<[2%nat := s32 e.(ev_timestamp).(tv_sec)]> counted_array).

Lemma register_fresh o j e b t :
  e.(ev_body) = RegJob b → regjob_jobtype b.(rj_jobtype) = Some t →
  register_jobtype (fresh_job o j (-1)) e = inl (fresh_job o j t).
Proof. intros Eb Et. unfold register_jobtype. rewrite Eb. simpl. by rewrite Et. Qed.

Lemma prologue_fresh `{Stack} o j t e :
  glite_prologue (fresh_job o j t) e =
  ({| old_state := EDG_WLL_JOB_UNDEF; new_state := EDG_WLL_JOB_UNKNOWN; res := RET_OK;
      fine_res := RET_OK; lm_favour_lrms := false; ignore_seq_code := false |},
   fresh_job o j t).
Proof.
  unfold glite_prologue, glite_forget_branches. by destruct (is_cancel _).
Qed.

Lemma registered_network_server t o j e js :
  registered t o j e js → registered t o j e (glite_network_server e js).
Proof.
  unfold glite_network_server. destruct (network_server (pub js)); [done |].
  by destruct (decide _).
Qed.

Lemma register_glite `{Stack} o j e b t strict :
  e.(ev_body) = RegJob b → regjob_jobtype b.(rj_jobtype) = Some t → t ∈ [0; 1; 4] →
  ∃ js', processEvent_glite (fresh_job o j t) e strict = Ret (RET_OK, js') ∧
    registered t o j e js'.
Proof.
  intros Eb Et Ht. unfold processEvent_glite. rewrite prologue_fresh.
  destruct e as [ts ? ? ? ? ? code ? source ? body], b as []. simpl in Eb, Et.
  subst body. unfold regjob_jobtype in Et. cbn [ev_source].
  rewrite !elem_of_cons, elem_of_nil in Ht.
  repeat case_match; simplify_eq; try (exfalso; lia);
    repeat match goal with
    | E : _ || _ = true |- _ => apply orb_true_iff in E; destruct E
    end; zbool; subst.
  all: eexists; (split; [lazy -[glite_network_server s32]; reflexivity |]);
    apply registered_network_server; by repeat split.
Qed.

(** the registration of a fresh job always counts: for every known job type the job
    is Submitted from the time of the event on, has the type that the registration names
    and keeps its owner and identifier, whatever the source and the sequence code of the
    event are. *)
Theorem registration `{Stack} o j e b t strict :
  e.(ev_body) = RegJob b → regjob_jobtype b.(rj_jobtype) = Some t →
  ∃ js', processEvent (fresh_job o j (-1)) e strict = Ret (RET_OK, js', None) ∧
    registered t o j e js'.
Proof.
  intros Eb Et. unfold processEvent. rewrite (register_fresh o j e b t Eb Et).
  unfold dispatch_event. change (jobtype (pub (fresh_job o j t))) with t. cbv zeta.
  pose proof (regjob_jobtype_known _ _ Et) as Hk. unfold known_jobtypes in Hk.
  rewrite !elem_of_cons, elem_of_nil in Hk.
  destruct Hk as [->|[->|[->|[->|[->|[->|[->|[->|[->|[]]]]]]]]]]; cbn [Z.eqb Pos.eqb orb].
  1-3: destruct (register_glite o j e b _ strict Eb Et) as (js' & -> & Hr);
    [by apply (bool_decide_unpack _); vm_compute |]; by exists js'.
  all: destruct e as [ts ? ? ? ? ? code ? source ? body], b as [];
    simpl in Eb; subst body; eexists;
    (split; [lazy -[s32]; reflexivity |]); by repeat split.
Qed.

(** ** Witnesses *)
Definition sample_registration (t : Z) : Event :=
  glite_sample NEW_CODE EDG_WLL_SOURCE_NETWORK_SERVER
    (RegJob (mkRegJob (Some "[]"%string) None None t 3 None None)).

Lemma process_event_total_witness :
  ∃ r js' err, @processEvent zero_stack init_intJobStat
                 (sample_registration EDG_WLL_REGJOB_COLLECTION) true = Ret (r, js', err) ∧
    wf_job js' ∧
    (r = RET_FAIL ∧ js' = init_intJobStat ∧ is_Some err ∨
     r = RET_UNREG ∧ js' = init_intJobStat ∧ err = None ∧ -1 = -1 ∨
     usual_answer r ∧ err = None).
Proof.
  apply (@process_event_total zero_stack init_intJobStat
           (sample_registration EDG_WLL_REGJOB_COLLECTION) true).
  - split; [exact init_wf_status | exact I].
  - reflexivity.
Defined.


Lemma unregistered_event_witness :
  @processEvent zero_stack init_intJobStat (pending_event NEW_CODE) true =
  Ret (RET_UNREG, init_intJobStat, None).
Proof. by apply (@unregistered_event zero_stack). Defined.

Lemma registration_witness :
  ∃ js', @processEvent zero_stack (fresh_job (Some "me"%string) (Some sample_jobid) (-1))
           (sample_registration EDG_WLL_REGJOB_FILE_TRANSFER_COLLECTION) false =
         Ret (RET_OK, js', None) ∧
    registered EDG_WLL_STAT_FILE_TRANSFER_COLLECTION (Some "me"%string) (Some sample_jobid)
      (sample_registration EDG_WLL_REGJOB_FILE_TRANSFER_COLLECTION) js'.
Proof.
  by apply (@registration zero_stack _ _ _
              (mkRegJob (Some "[]"%string) None None
                 EDG_WLL_REGJOB_FILE_TRANSFER_COLLECTION 3 None None)).
Defined.
