(* ===== verification/IntJobStat.v ===== *)
(** * The stored form of the job status

    The model of org.glite.lb.state-machine/src/intjobstat_supp.c: the job status is
    kept in the data base (and compared by the plug-in of the job provenance) as a text,
    numbers and length-prefixed strings one after the other.

    An encoder appends to [old].  A decoder gets a pointer into a C string, the suffix
    from there, and returns the value and the new pointer, [None] being NULL.  A string
    whose length prefix exceeds the rest of the input is [OutOfBounds]: the code copies
    behind the end of the input.  *)
From Stdlib Require Import ZArith Lia Ascii.
From stdpp Require Import base option list strings numbers.
From S2P Require Import Prelude CLib JobId LbTypes Events SeqCode StateMachine.
#[local] Open Scope Z_scope.
#[local] Arguments fmt_d : simpl never.

(** ** Encoders of the field types *)
Definition enc_string (old : string) (item : option string) : string :=
  match item with
  | None => old +:+ "-1 "
  | Some s => old +:+ (print_int (Z.of_nat (String.length s)) +:+ String " " s)
  end.

Definition enc_int (old : string) (item : Z) : string := old +:+ (print_int item +:+ " ").

(** The numbers [item[0]], ..., [item[itemsNo]] with semicolons between them. *)
Fixpoint array_text (items : list Z) : string :=
  match items with
  | [] => EmptyString
  | [z] => print_int z
  | z :: items => print_int z +:+ String ";" (array_text items)
  end.
(** The text is built in a buffer of [strlen(old)+1] bytes. *)
Definition enc_int_array (old : string) (item : option (list Z)) (itemsNo : nat) :
    outcome string :=
  match item with
  | None => UB NullDeref
  | Some a =>
    if (List.length a <=? itemsNo)%nat then UB OutOfBounds
    else
      let text := array_text (take (S itemsNo) a) in
      if (String.length old <? String.length text)%nat then UB OutOfBounds
      else Ret (old +:+ (text +:+ " "))
  end.

Definition enc_jobid (old : string) (item : option JobId) : string :=
  enc_string old (glite_jobid_unparse item).

(** The head of the list types: [-1] for NULL. *)
Definition enc_head {A} (old : string) (item : option A) (body : string → A → string) : string :=
  match item with
  | None => old +:+ "-1 "
  | Some x => body (old +:+ "1 ") x
  end.

(** The [do] loops include the terminator. *)
Definition enc_strlist (old : string) (item : option (list string)) : string :=
  enc_head old item (fun ret l => enc_string (foldl enc_string ret (Some <$> l)) None).

Definition enc_tag (ret : string) (t : option string * option string) : string :=
  enc_string (enc_string ret t.1) t.2.
Definition enc_taglist (old : string) (item : option (list TagValue)) : string :=
  enc_head old item (fun ret l =>
    enc_tag (foldl enc_tag ret ((fun t => (Some t.(tag), t.(value))) <$> l)) (None, None)).

Definition enc_branch (ret : string) (b : branch_state) : string :=
  enc_string (enc_string (enc_string (enc_int ret b.(branch)) b.(bs_destination))
    b.(bs_ce_node)) b.(bs_jdl).
(** The loop ends after the first branch 0; running over the end of the array is a fault. *)
Fixpoint enc_branches (ret : string) (l : list branch_state) : outcome string :=
  match l with
  | [] => UB OutOfBounds
  | b :: l => if b.(branch) =? 0 then Ret (enc_branch ret b) else enc_branches (enc_branch ret b) l
  end.
Definition enc_branch_states (old : string) (item : option (list branch_state)) :
    outcome string :=
  match item with
  | None => Ret (old +:+ "-1 ")
  | Some l => enc_branches (old +:+ "1 ") l
  end.

(** The number of elements is taken from the array itself. *)
Definition enc_intlist (old : string) (item : option (list Z)) : outcome string :=
  match item with
  | None => Ret (old +:+ "-1 ")
  | Some [] => UB OutOfBounds
  | Some (len :: l) =>
    if Z.of_nat (List.length l) <? len then UB OutOfBounds
    else Ret (foldl enc_int (old +:+ "1 ") (len :: take (Z.to_nat len) l))
  end.

Definition enc_timeval (old : string) (item : timeval) : string :=
  enc_int (enc_int old (s32 item.(tv_sec))) (s32 item.(tv_usec)).

(** ** Decoders of the field types *)
Definition ptr : Type := option string.

(** [strchr(in,' ') ? strchr(in,' ') + 1 : NULL] *)
Definition after_blank (inp : string) : ptr := str_drop 1 <$> strchr inp " ".

Definition dec_string (inp : string) : outcome (option string * ptr) :=
  match sscanf_ld inp with
  | None => Ret (None, None)
  | Some len =>
    if len =? -1 then Ret (None, after_blank inp)
    else
      match after_blank inp with
      | None => UB NullDeref
      | Some inp =>
        if (len <? 0) || (Z.of_nat (String.length inp) <? len) then UB OutOfBounds
        else Ret (Some (str_take (Z.to_nat len) inp), Some (str_drop (Z.to_nat len) inp))
      end
  end.

Definition dec_int (inp : string) : outcome (Z * ptr) :=
  match sscanf_d inp with
  | Some n => Ret (n, after_blank inp)
  | None => Ret (0, Some inp)
  end.

(** Decoding from a pointer that the code does not test. *)
Definition at_ptr {A} (p : ptr) (dec : string → outcome A) : outcome A :=
  match p with Some inp => dec inp | None => UB NullDeref end.

(** The semicolon separated items before the end of the field. *)
Fixpoint split_items (s cur : string) : list string * string :=
  match s with
  | EmptyString => ([], cur)
  | String c s =>
    if Ascii.eqb c ";" then let '(l, last) := split_items s EmptyString in (cur :: l, last)
    else split_items s (cur +:+ String c "")
  end.
(** [out[0] = ...; out[1] = ...; ...] *)
Fixpoint store_items (out : list Z) (i : nat) (l : list string) : outcome (list Z) :=
  match l with
  | [] => Ret out
  | s :: l =>
    if (i <? List.length out)%nat then store_items (<[i := atoi s]> out) (S i) l
    else UB OutOfBounds
  end.
(** The item before the blank is not stored, only one before the end of the input. *)
Definition dec_int_array (inp : string) (out : list Z) : outcome (list Z * ptr) :=
  let '(field, rest) := str_span (fun c => Ascii.eqb c " ") inp in
  let '(items, last) := split_items field EmptyString in
  match rest with
  | EmptyString =>
    let! out := store_items out 0 (items ++ [last]) in
    UB OutOfBounds (* [*rest] points behind the end *)
  | String _ rest => let! out := store_items out 0 items in Ret (out, Some rest)
  end.

(** A text that is no identifier gives NULL. *)
Definition dec_jobid (inp : string) : outcome (option JobId * ptr) :=
  let! r := dec_string inp in
  match r with
  | (None, p) => Ret (None, p)
  | (Some s, p) => Ret (glite_jobid_parse s, p)
  end.

(** The head of the list types.  [body] gets the input behind the head. *)
Definition dec_head {A} (inp : string) (body : string → outcome (option A * ptr)) :
    outcome (option A * ptr) :=
  match sscanf_d inp with
  | None => Ret (None, None)
  | Some len =>
    if len =? -1 then Ret (None, after_blank inp) else at_ptr (after_blank inp) body
  end.

(** *** Lists

    The code walks over the items twice, to count them and to store them; both walks
    see the same input.  [dec_list] is the walk: [dec] returns the item (or that it is
    the last one) and the pointer behind it; the fuel is the length of the input, which
    every item but the last one shortens. *)
Fixpoint dec_list {A} (dec : string → outcome (A * bool * ptr)) (fuel : nat) (inp : string) :
    outcome (list A * ptr) :=
  match fuel with
  | O => UB OutOfBounds
  | S fuel =>
    let! r := dec inp in
    match r with
    | (a, true, p) => Ret ([a], p)
    | (a, false, p) =>
      let! r := at_ptr p (dec_list dec fuel) in
      Ret (a :: r.1, r.2)
    end
  end.
Definition dec_items {A} (dec : string → outcome (A * bool * ptr)) (inp : string) :
    outcome (list A * ptr) :=
  dec_list dec (S (String.length inp)) inp.

Definition dec_str_item (inp : string) : outcome (option string * bool * ptr) :=
  let! r := dec_string inp in
  Ret (r.1, match r.1 with None => true | Some _ => false end, r.2).

(** The items before the terminator. *)
Definition somes {A} (l : list (option A)) : list A := omap id l.

Definition dec_strlist (inp : string) : outcome (option (list string) * ptr) :=
  dec_head inp (fun inp =>
    let! r := dec_items dec_str_item inp in Ret (Some (somes r.1), r.2)).

(** An element of a branch or tag list: [None] if the pointer becomes NULL, where the
    first walk gives up. *)
Definition giveup : Type := unit.
Definition dec_branch (inp : string) : outcome ((giveup + branch_state) * bool * ptr) :=
  let! b := dec_int inp in
  let! d := at_ptr b.2 dec_string in
  match d.2 with
  | None => Ret (inl tt, true, None)
  | Some inp =>
    let! c := dec_string inp in
    match c.2 with
    | None => Ret (inl tt, true, None)
    | Some inp =>
      let! j := dec_string inp in
      match j.2 with
      | None => Ret (inl tt, true, None)
      | Some inp => Ret (inr (mkBranch b.1 d.1 c.1 j.1), b.1 =? 0, Some inp)
      end
    end
  end.
Definition gave_up {A} (l : list (giveup + A)) : bool :=
  existsb (fun x => match x with inl _ => true | inr _ => false end) l.
Definition kept {A} (l : list (giveup + A)) : list A :=
  omap (fun x => match x with inl _ => None | inr a => Some a end) l.

(** The array has one element more than was read, filled with zeros. *)
Definition dec_branch_states (inp : string) : outcome (option (list branch_state) * ptr) :=
  dec_head inp (fun inp =>
    let! r := dec_items dec_branch inp in
    if gave_up r.1 then Ret (None, None) else Ret (Some (kept r.1 ++ [null_branch]), r.2)).

Definition dec_tag (inp : string) :
    outcome ((giveup + (option string * option string)) * bool * ptr) :=
  let! t := dec_string inp in
  match t.2 with
  | None => Ret (inl tt, true, None)
  | Some inp =>
    let! v := dec_string inp in
    match v.2 with
    | None => Ret (inl tt, true, None)
    | Some inp =>
      Ret (inr (t.1, v.1), match t.1 with None => true | Some _ => false end, Some inp)
    end
  end.
Definition dec_taglist (inp : string) : outcome (option (list TagValue) * ptr) :=
  dec_head inp (fun inp =>
    let! r := dec_items dec_tag inp in
    if gave_up r.1 then Ret (None, None)
    else Ret (Some (omap (fun tv => t ← tv.1; Some (mkTag t tv.2)) (kept r.1)), r.2)).

(** [while (len) { *ptr = dec_int(tmp_in,&tmp_in); len--; ptr++; }] *)
Fixpoint dec_ints (n : nat) (p : ptr) : outcome (list Z * ptr) :=
  match n with
  | O => Ret ([], p)
  | S n =>
    let! z := at_ptr p dec_int in
    let! r := dec_ints n z.2 in
    Ret (z.1 :: r.1, r.2)
  end.
Definition dec_intlist (inp : string) : outcome (option (list Z) * ptr) :=
  match sscanf_d inp with
  | None => Ret (None, None)
  | Some len =>
    match after_blank inp with
    | None => Ret (None, None)
    | Some inp' =>
      if len =? -1 then Ret (None, Some inp')
      else
        let! r := dec_int inp' in
        let '(len, p) := r in
        if len =? INT_MAX then UB SignedOverflow
        else if len =? -1 then UB OutOfBounds   (* [malloc(0)] and [*out = len;] *)
        else if len <? 0 then Ret (None, p)     (* [malloc] fails *)
        else let! r := dec_ints (Z.to_nat len) p in Ret (Some (len :: r.1), r.2)
    end
  end.

Definition dec_timeval (inp : string) : outcome (timeval * ptr) :=
  let! s := dec_int inp in
  match s.2 with
  | None => Ret (mkTime s.1 0, None)
  | Some inp => let! u := dec_int inp in Ret (mkTime s.1 u.1, u.2)
  end.

(** ** The job status

    The calls of [enc_JobStat] and [enc_intJobStat], and of the decoders, in the order of
    the code: which field is written or read and as what. *)
Inductive item :=
| IInt (z : Z)
| IString (s : option string)
| IJobid (j : option JobId)
| IIntArray (a : option (list Z))
| IStrlist (l : option (list string))
| ITaglist (l : option (list TagValue))
| ITimeval (t : timeval)
| IIntlist (a : option (list Z))
| IBranches (l : option (list branch_state)).

Definition enc_item (old : string) (i : item) : outcome string :=
  match i with
  | IInt z => Ret (enc_int old z)
  | IString s => Ret (enc_string old s)
  | IJobid j => Ret (enc_jobid old j)
  | IIntArray a => enc_int_array old a (Z.to_nat EDG_WLL_NUMBER_OF_STATCODES)
  | IStrlist l => Ret (enc_strlist old l)
  | ITaglist l => Ret (enc_taglist old l)
  | ITimeval t => Ret (enc_timeval old t)
  | IIntlist a => enc_intlist old a
  | IBranches l => enc_branch_states old l
  end.
Fixpoint enc_item_list (old : string) (l : list item) : outcome string :=
  match l with
  | [] => Ret old
  | i :: l => let! ret := enc_item old i in enc_item_list ret l
  end.

Inductive target (R : Type) :=
| TInt (set : Z → R → R)
| TString (set : option string → R → R)
| TJobid (set : option JobId → R → R)
| TIntArray (set : option (list Z) → R → R)
| TStrlist (set : option (list string) → R → R)
| TTaglist (set : option (list TagValue) → R → R)
| TTimeval (set : timeval → R → R)
| TIntlist (set : option (list Z) → R → R)
| TBranches (set : option (list branch_state) → R → R).
Arguments TInt {R} set.
Arguments TString {R} set.
Arguments TJobid {R} set.
Arguments TIntArray {R} set.
Arguments TStrlist {R} set.
Arguments TTaglist {R} set.
Arguments TTimeval {R} set.
Arguments TIntlist {R} set.
Arguments TBranches {R} set.

(** [calloc(EDG_WLL_NUMBER_OF_STATCODES+1, sizeof(int))] *)
Definition zero_array : list Z := replicate (S (Z.to_nat EDG_WLL_NUMBER_OF_STATCODES)) 0.

Definition assign {R A} (set : A → R → R) (r : R) (m : outcome (A * ptr)) : outcome (R * ptr) :=
  let! a := m in Ret (set a.1 r, a.2).

Definition dec_target {R} (t : target R) (r : R) (inp : string) : outcome (R * ptr) :=
  match t with
  | TInt set => assign set r (dec_int inp)
  | TString set => assign set r (dec_string inp)
  | TJobid set => assign set r (dec_jobid inp)
  | TIntArray set =>
    let! a := dec_int_array inp zero_array in Ret (set (Some a.1) r, a.2)
  | TStrlist set => assign set r (dec_strlist inp)
  | TTaglist set => assign set r (dec_taglist inp)
  | TTimeval set => assign set r (dec_timeval inp)
  | TIntlist set => assign set r (dec_intlist inp)
  | TBranches set => assign set r (dec_branch_states inp)
  end.
(** [if (tmp_in != NULL) stat->... = dec_...(tmp_in,&tmp_in);] *)
Fixpoint dec_target_list {R} (l : list (target R)) (r : R) (p : ptr) : outcome (R * ptr) :=
  match l, p with
  | t :: l, Some inp => let! s := dec_target t r inp in dec_target_list l s.1 s.2
  | _, _ => Ret (r, p)
  end.

Definition JobStat_items (stat : JobStat) : list item :=
  [IInt stat.(state); IJobid stat.(jobId); IString stat.(owner); IInt stat.(jobtype);
   IJobid stat.(parent_job); IString stat.(seed); IInt stat.(children_num);
   IIntArray stat.(children_hist); IString stat.(condorId); IString stat.(globusId);
   IString stat.(localId); IString stat.(jdl); IString stat.(matched_jdl);
   IString stat.(destination); IString stat.(condor_jdl); IString stat.(rsl);
   IString stat.(reason); IString stat.(location); IString stat.(ce_node);
   IString stat.(network_server); IInt stat.(subjob_failed); IInt stat.(done_code);
   IInt stat.(exit_code); IInt stat.(resubmitted); IInt stat.(cancelling);
   IString stat.(cancelReason); IInt stat.(cpuTime); ITaglist stat.(user_tags);
   ITimeval stat.(stateEnterTime); ITimeval stat.(lastUpdateTime);
   IIntlist stat.(stateEnterTimes); IInt stat.(expectUpdate); IString stat.(expectFrom);
   IString stat.(acl); IInt stat.(payload_running); IStrlist stat.(possible_destinations);
   IStrlist stat.(possible_ce_nodes); IInt stat.(suspended); IString stat.(suspend_reason);
   IString stat.(failure_reasons); IInt stat.(remove_from_proxy); IString stat.(ui_host);
   IStrlist stat.(user_fqans); IInt stat.(sandbox_retrieved); IInt stat.(jw_status);
   IJobid stat.(isb_transfer); IJobid stat.(osb_transfer); IString stat.(payload_owner);
   IString stat.(pbs_state); IString stat.(pbs_queue); IString stat.(pbs_owner);
   IString stat.(pbs_name); IString stat.(pbs_reason); IString stat.(pbs_scheduler);
   IString stat.(pbs_dest_host); IInt stat.(pbs_pid);
   ITaglist stat.(pbs_resource_requested); ITaglist stat.(pbs_resource_usage);
   IInt stat.(pbs_exit_status); IString stat.(pbs_error_desc); IString stat.(condor_status);
   IString stat.(condor_universe); IString stat.(condor_owner);
   IString stat.(condor_preempting); IInt stat.(condor_shadow_pid);
   IInt stat.(condor_shadow_exit_status); IInt stat.(condor_starter_pid);
   IInt stat.(condor_starter_exit_status); IInt stat.(condor_job_pid);
   IInt stat.(condor_job_exit_status); IString stat.(condor_dest_host);
   IString stat.(condor_reason); IString stat.(condor_error_desc); IInt stat.(cream_state);
   IString stat.(cream_id); IString stat.(cream_owner); IString stat.(cream_endpoint);
   IString stat.(cream_jdl); IString stat.(cream_reason);
   IString stat.(cream_failure_reason); IString stat.(cream_lrms_id);
   IString stat.(cream_node); IInt stat.(cream_done_code); IInt stat.(cream_exit_code);
   IInt stat.(cream_cancelling); IInt stat.(cream_cpu_time); IInt stat.(cream_jw_status);
   IJobid stat.(ft_compute_job); IInt stat.(ft_sandbox_type); IString stat.(ft_src);
   IString stat.(ft_dest); IInt stat.(vm_state); IString stat.(vm_image);
   IString stat.(vm_require); IString stat.(vm_usage); IString stat.(vm_hostname);
   IString stat.(vm_machine); IString stat.(vm_id); IString stat.(vm_name);
   IString stat.(vm_phy_hostname)].
Definition JobStat_targets : list (target JobStat) :=
  [TInt (setter state); TJobid (setter jobId); TString (setter owner);
   TInt (setter jobtype); TJobid (setter parent_job); TString (setter seed);
   TInt (setter children_num); TIntArray (setter children_hist); TString (setter condorId);
   TString (setter globusId); TString (setter localId); TString (setter jdl);
   TString (setter matched_jdl); TString (setter destination); TString (setter condor_jdl);
   TString (setter rsl); TString (setter reason); TString (setter location);
   TString (setter ce_node); TString (setter network_server); TInt (setter subjob_failed);
   TInt (setter done_code); TInt (setter exit_code); TInt (setter resubmitted);
   TInt (setter cancelling); TString (setter cancelReason); TInt (setter cpuTime);
   TTaglist (setter user_tags); TTimeval (setter stateEnterTime);
   TTimeval (setter lastUpdateTime); TIntlist (setter stateEnterTimes);
   TInt (setter expectUpdate); TString (setter expectFrom); TString (setter acl);
   TInt (setter payload_running); TStrlist (setter possible_destinations);
   TStrlist (setter possible_ce_nodes); TInt (setter suspended);
   TString (setter suspend_reason); TString (setter failure_reasons);
   TInt (setter remove_from_proxy); TString (setter ui_host); TStrlist (setter user_fqans);
   TInt (setter sandbox_retrieved); TInt (setter jw_status); TJobid (setter isb_transfer);
   TJobid (setter osb_transfer); TString (setter payload_owner); TString (setter pbs_state);
   TString (setter pbs_queue); TString (setter pbs_owner); TString (setter pbs_name);
   TString (setter pbs_reason); TString (setter pbs_scheduler);
   TString (setter pbs_dest_host); TInt (setter pbs_pid);
   TTaglist (setter pbs_resource_requested); TTaglist (setter pbs_resource_usage);
   TInt (setter pbs_exit_status); TString (setter pbs_error_desc);
   TString (setter condor_status); TString (setter condor_universe);
   TString (setter condor_owner); TString (setter condor_preempting);
   TInt (setter condor_shadow_pid); TInt (setter condor_shadow_exit_status);
   TInt (setter condor_starter_pid); TInt (setter condor_starter_exit_status);
   TInt (setter condor_job_pid); TInt (setter condor_job_exit_status);
   TString (setter condor_dest_host); TString (setter condor_reason);
   TString (setter condor_error_desc); TInt (setter cream_state); TString (setter cream_id);
   TString (setter cream_owner); TString (setter cream_endpoint);
   TString (setter cream_jdl); TString (setter cream_reason);
   TString (setter cream_failure_reason); TString (setter cream_lrms_id);
   TString (setter cream_node); TInt (setter cream_done_code);
   TInt (setter cream_exit_code); TInt (setter cream_cancelling);
   TInt (setter cream_cpu_time); TInt (setter cream_jw_status);
   TJobid (setter ft_compute_job); TInt (setter ft_sandbox_type); TString (setter ft_src);
   TString (setter ft_dest); TInt (setter vm_state); TString (setter vm_image);
   TString (setter vm_require); TString (setter vm_usage); TString (setter vm_hostname);
   TString (setter vm_machine); TString (setter vm_id); TString (setter vm_name);
   TString (setter vm_phy_hostname)].

Definition intJobStat_items (stat : intJobStat) : list item :=
  [IInt stat.(resubmit_type); IString stat.(last_seqcode);
   IString stat.(last_cancel_seqcode); IString stat.(branch_tag_seqcode);
   IString stat.(last_branch_seqcode); IString stat.(deep_resubmit_seqcode);
   IBranches stat.(branch_states); ITimeval stat.(last_pbs_event_timestamp);
   IInt stat.(pbs_reruning); IStrlist stat.(tag_seq_codes);
   IString stat.(payload_owner_pending); IString stat.(payload_owner_unconfirmed)].
Definition intJobStat_targets : list (target intJobStat) :=
  [TInt (setter resubmit_type); TString (setter last_seqcode);
   TString (setter last_cancel_seqcode); TString (setter branch_tag_seqcode);
   TString (setter last_branch_seqcode); TString (setter deep_resubmit_seqcode);
   TBranches (setter branch_states); TTimeval (setter last_pbs_event_timestamp);
   TInt (setter pbs_reruning); TStrlist (setter tag_seq_codes);
   TString (setter payload_owner_pending); TString (setter payload_owner_unconfirmed)].

(** [calloc(1,sizeof(edg_wll_JobStat))] and [calloc(1,sizeof(intJobStat))] *)
Definition zero_JobStat : JobStat := {|
  state := 0; jobId := None; owner := None; jobtype := 0; parent_job := None; seed := None;
  children_num := 0; children := None; children_hist := None; condorId := None;
  globusId := None; localId := None; jdl := None; matched_jdl := None; destination := None;
  condor_jdl := None; rsl := None; reason := None; location := None; ce_node := None;
  network_server := None; subjob_failed := 0; done_code := 0; exit_code := 0;
  resubmitted := 0; cancelling := 0; cancelReason := None; cpuTime := 0; user_tags := None;
  stateEnterTime := null_timeval; lastUpdateTime := null_timeval; stateEnterTimes := None;
  expectUpdate := 0; expectFrom := None; acl := None; payload_running := 0;
  possible_destinations := None; possible_ce_nodes := None; suspended := 0;
  suspend_reason := None; failure_reasons := None; remove_from_proxy := 0; ui_host := None;
  user_fqans := None; sandbox_retrieved := 0; jw_status := 0; isb_transfer := None;
  osb_transfer := None; payload_owner := None; access_rights := None; history := None;
  pbs_state := None; pbs_substate := 0; pbs_queue := None; pbs_owner := None;
  pbs_name := None; pbs_reason := None; pbs_scheduler := None; pbs_dest_host := None;
  pbs_pid := 0; pbs_resource_requested := None; pbs_resource_usage := None;
  pbs_exit_status := 0; pbs_error_desc := None; condor_status := None;
  condor_universe := None; condor_owner := None; condor_preempting := None;
  condor_shadow_pid := 0; condor_shadow_exit_status := 0; condor_starter_pid := 0;
  condor_starter_exit_status := 0; condor_job_pid := 0; condor_job_exit_status := 0;
  condor_dest_host := None; condor_reason := None; condor_error_desc := None;
  cream_state := 0; cream_id := None; cream_owner := None; cream_endpoint := None;
  cream_jdl := None; cream_reason := None; cream_failure_reason := None;
  cream_lrms_id := None; cream_node := None; cream_done_code := 0; cream_exit_code := 0;
  cream_cancelling := 0; cream_cpu_time := 0; cream_jw_status := 0; ft_compute_job := None;
  ft_sandbox_type := 0; ft_src := None; ft_dest := None; vm_state := 0; vm_image := None;
  vm_require := None; vm_usage := None; vm_hostname := None; vm_machine := None;
  vm_id := None; vm_name := None; vm_phy_hostname := None; vm_system_halting := 0;
  vm_manager := None
|}.
Definition zero_intJobStat (p : JobStat) : intJobStat := {|
  pub := p; resubmit_type := 0; last_seqcode := None; last_cancel_seqcode := None;
  branch_tag_seqcode := None; last_branch_seqcode := None; deep_resubmit_seqcode := None;
  branch_states := None; last_pbs_event_timestamp := null_timeval; pbs_reruning := 0;
  tag_seq_codes := None; payload_owner_pending := None; payload_owner_unconfirmed := None
|}.

Definition enc_JobStat (old : string) (stat : JobStat) : outcome string :=
  enc_item_list old (JobStat_items stat).
Definition dec_JobStat (inp : string) : outcome (JobStat * ptr) :=
  dec_target_list JobStat_targets zero_JobStat (Some inp).

Definition enc_intJobStat (old : string) (stat : intJobStat) : outcome string :=
  let! ret := enc_JobStat old stat.(pub) in
  enc_item_list ret (intJobStat_items stat).
(** [None] is NULL: the public part used up the input. *)
Definition dec_intJobStat (inp : string) : outcome (option intJobStat * ptr) :=
  let! r := dec_JobStat inp in
  match r.2 with
  | None => Ret (None, None)
  | Some _ =>
    let! s := dec_target_list intJobStat_targets (zero_intJobStat r.1) r.2 in
    Ret (Some s.1, s.2)
  end.

(** ** Lemmas: the text of a field *)
Definition int_text (z : Z) : string := print_int z +:+ " ".
Definition str_text (s : option string) : string :=
  match s with
  | None => "-1 "
  | Some s => print_int (Z.of_nat (String.length s)) +:+ String " " s
  end.
Definition texts {B} (txt : B → string) (l : list B) : string :=
  foldr (fun b s => txt b +:+ s) EmptyString l.
Definition head_text {A} (body : A → string) (o : option A) : string :=
  match o with None => "-1 " | Some x => "1 " +:+ body x end.

Lemma enc_string_text old s : enc_string old s = old +:+ str_text s.
Proof. by destruct s. Qed.

Lemma foldl_text {B} (enc : string → B → string) txt l old :
  (∀ o b, enc o b = o +:+ txt b) → foldl enc old l = old +:+ texts txt l.
Proof.
  intros He. revert old. induction l as [|b l IH]; intros old; simpl.
  - by rewrite app_nil_r_str.
  - by rewrite IH, He, app_assoc_str.
Qed.

Lemma texts_cons {B} (txt : B → string) b l : texts txt (b :: l) = txt b +:+ texts txt l.
Proof. reflexivity. Qed.
Lemma texts_app {B} (txt : B → string) l k : texts txt (l ++ k) = texts txt l +:+ texts txt k.
Proof. induction l as [|b l IH]; simpl; [done |]. by rewrite IH, app_assoc_str. Qed.

Lemma isdigit_not_blank c : isdigit c = true → negb (Ascii.eqb c " ") = true.
Proof. destruct (Ascii.eqb_spec c " ") as [->|]; done. Qed.
Lemma print_int_no_blank z : str_forall (fun c => negb (Ascii.eqb c " ")) (print_int z) = true.
Proof.
  unfold fmt_d. rewrite Nat.sub_0_l. cbn [str_repeat String.append].
  rewrite str_forall_app.
  rewrite (str_forall_impl isdigit _ (print_nonneg (Z.abs z)) isdigit_not_blank)
    by (apply print_nonneg_digits; lia).
  by destruct (z <? 0).
Qed.

Lemma after_blank_print z t : after_blank (print_int z +:+ String " " t) = Some t.
Proof. unfold after_blank. by rewrite strchr_sep by apply print_int_no_blank. Qed.

Lemma dec_int_text z rest : is_int z → dec_int (int_text z +:+ rest) = Ret (z, Some rest).
Proof.
  intros Hz. unfold dec_int, int_text. rewrite app_assoc_str.
  change (" " +:+ rest) with (String " " rest).
  rewrite sscanf_d_print by done. by rewrite after_blank_print.
Qed.

Definition str_ok (s : option string) : Prop :=
  match s with Some s => Z.of_nat (String.length s) ≤ LONG_MAX | None => True end.

Lemma dec_string_text s rest : str_ok s → dec_string (str_text s +:+ rest) = Ret (s, Some rest).
Proof.
  intros Hs. unfold dec_string. destruct s as [s|]; unfold str_text.
  - rewrite app_assoc_str.
    change (String " " s +:+ rest) with (String " " (s +:+ rest)). unfold str_ok in Hs.
    assert (is_long (Z.of_nat (String.length s))) as Hl by (unfold_int; lia).
    rewrite sscanf_ld_print by done. rewrite after_blank_print.
    replace (_ =? -1) with false by (symmetry; apply Z.eqb_neq; lia).
    replace (_ <? 0) with false by (symmetry; apply Z.ltb_ge; lia).
    rewrite length_app_str, Nat2Z.inj_add.
    replace (_ <? _) with false by (symmetry; apply Z.ltb_ge; lia).
    simpl. by rewrite Nat2Z.id, str_take_app, str_drop_app.
  - change ("-1 " +:+ rest) with (print_int (-1) +:+ String " " rest).
    rewrite sscanf_ld_print by (done || by vm_compute). by rewrite after_blank_print.
Qed.

(** A walk over items that are read back one by one. *)
Lemma dec_items_ok {A B} (dec : string → outcome (A * bool * ptr)) (txt : B → string)
    (itm : B → A) l last rest :
  (∀ b r, b ∈ l → dec (txt b +:+ r) = Ret (itm b, false, Some r)) →
  (∀ b, b ∈ l → txt b ≠ EmptyString) →
  (∀ r, dec (txt last +:+ r) = Ret (itm last, true, Some r)) →
  dec_items dec (texts txt l +:+ (txt last +:+ rest)) = Ret ((itm <$> l) ++ [itm last], Some rest).
Proof.
  intros Hd Hne Hlast. unfold dec_items.
  assert (∀ fuel, (List.length l < fuel)%nat →
    dec_list dec fuel (texts txt l +:+ (txt last +:+ rest)) =
    Ret ((itm <$> l) ++ [itm last], Some rest)) as H.
  { induction l as [|b l IH]; intros [|fuel] Hf; simpl in Hf; try lia.
    - simpl. by rewrite Hlast.
    - cbn [texts foldr]. rewrite app_assoc_str. cbn [dec_list].
      rewrite Hd by apply list_elem_of_here. cbn [obind at_ptr].
      rewrite IH; [done | | | lia]; intros; [apply Hd | apply Hne]; by apply list_elem_of_further. }
  apply H. clear H Hd Hlast. rewrite !length_app_str.
  enough (List.length l ≤ String.length (texts txt l))%nat by lia.
  induction l as [|b l IH]; [done |]. cbn [texts foldr List.length]. rewrite length_app_str.
  assert (txt b ≠ EmptyString) as Hb by (apply Hne, list_elem_of_here).
  specialize (IH (fun c Hc => Hne c (list_elem_of_further _ _ _ Hc))).
  destruct (txt b); [done |]. simpl. unfold texts in IH. lia.
Qed.

Lemma dec_head_text {A} (body : A → string) x rest (dec : string → outcome (option A * ptr)) :
  dec_head (head_text body x +:+ rest) dec =
  match x with
  | None => Ret (None, Some rest)
  | Some x => dec (body x +:+ rest)
  end.
Proof.
  unfold dec_head. destruct x as [x|]; unfold head_text.
  - change ("1 " +:+ body x) with (print_int 1 +:+ String " " (body x)).
    rewrite app_assoc_str. change (String " " (body x) +:+ rest) with (String " " (body x +:+ rest)).
    rewrite sscanf_d_print by (done || by vm_compute). by rewrite after_blank_print.
  - change ("-1 " +:+ rest) with (print_int (-1) +:+ String " " rest).
    rewrite sscanf_d_print by (done || by vm_compute). by rewrite after_blank_print.
Qed.

(** ** Lemmas: the items *)
Definition tag_text (t : option string * option string) : string := str_text t.1 +:+ str_text t.2.
Definition tag_pair (t : TagValue) : option string * option string := (Some t.(tag), t.(value)).
Definition branch_text (b : branch_state) : string :=
  int_text b.(branch) +:+ (str_text b.(bs_destination) +:+
    (str_text b.(bs_ce_node) +:+ str_text b.(bs_jdl))).

(** The branches up to the first branch 0. *)
Fixpoint upto_zero (l : list branch_state) : list branch_state :=
  match l with
  | [] => []
  | b :: l => if b.(branch) =? 0 then [b] else b :: upto_zero l
  end.

Definition item_text (i : item) : string :=
  match i with
  | IInt z => int_text z
  | IString s => str_text s
  | IJobid j => str_text (glite_jobid_unparse j)
  | IIntArray a =>
    array_text (take (S (Z.to_nat EDG_WLL_NUMBER_OF_STATCODES)) (default [] a)) +:+ " "
  | IStrlist l => head_text (fun l => texts str_text (Some <$> l) +:+ str_text None) l
  | ITaglist l => head_text (fun l => texts tag_text (tag_pair <$> l) +:+ tag_text (None, None)) l
  | ITimeval t => int_text (s32 t.(tv_sec)) +:+ int_text (s32 t.(tv_usec))
  | IIntlist a => head_text (texts int_text) a
  | IBranches l => head_text (fun l => texts branch_text (upto_zero l)) l
  end.

(** The values that a text stands for: numbers in their type, lengths and counts that are
    right, arrays with their terminator. *)
Definition tag_ok (t : TagValue) : Prop := str_ok (Some t.(tag)) ∧ str_ok t.(value).
Definition branch_ok (b : branch_state) : Prop :=
  is_int b.(branch) ∧ str_ok b.(bs_destination) ∧ str_ok b.(bs_ce_node) ∧ str_ok b.(bs_jdl).
Definition time_ok (t : timeval) : Prop := is_int t.(tv_sec) ∧ is_int t.(tv_usec).
Definition opt_ok {A} (P : A → Prop) (o : option A) : Prop :=
  match o with Some a => P a | None => True end.
Definition item_ok (i : item) : Prop :=
  match i with
  | IInt z => is_int z
  | IString s => str_ok s
  | IJobid j => opt_ok wf_jobid j ∧ str_ok (glite_jobid_unparse j)
  | IIntArray a =>
    ∃ l, a = Some l ∧ Forall is_int l ∧
      List.length l = S (Z.to_nat EDG_WLL_NUMBER_OF_STATCODES)
  | IStrlist l => opt_ok (Forall (fun s => str_ok (Some s))) l
  | ITaglist l => opt_ok (Forall tag_ok) l
  | ITimeval t => time_ok t
  | IIntlist a =>
    opt_ok (fun a => ∃ l, a = Z.of_nat (List.length l) :: l ∧ Forall is_int a ∧
                     Z.of_nat (List.length l) < INT_MAX) a
  | IBranches l =>
    opt_ok (fun l => Forall branch_ok l ∧
      ∃ bs t more, l = bs ++ t :: more ∧ t.(branch) = 0 ∧
        Forall (fun b => b.(branch) ≠ 0) bs) l
  end.

Lemma enc_int_text old z : enc_int old z = old +:+ int_text z.
Proof. reflexivity. Qed.
Lemma enc_tag_text old t : enc_tag old t = old +:+ tag_text t.
Proof. unfold enc_tag, tag_text. by rewrite !enc_string_text, app_assoc_str. Qed.
Lemma enc_branch_text old b : enc_branch old b = old +:+ branch_text b.
Proof.
  unfold enc_branch, branch_text. by rewrite !enc_string_text, enc_int_text, !app_assoc_str.
Qed.

Lemma enc_head_text {A} (enc : string → A → string) body old o :
  (∀ ret x, enc ret x = ret +:+ body x) → enc_head old o enc = old +:+ head_text body o.
Proof.
  intros He. destruct o as [x|]; simpl; [| done]. by rewrite He, app_assoc_str.
Qed.

Lemma upto_zero_app bs t more :
  t.(branch) = 0 → Forall (fun b => b.(branch) ≠ 0) bs → upto_zero (bs ++ t :: more) = bs ++ [t].
Proof.
  intros Ht. induction 1 as [|b bs Hb Hbs IH]; simpl; [by rewrite Ht |].
  replace (branch b =? 0) with false by (symmetry; by apply Z.eqb_neq). by rewrite IH.
Qed.

Lemma enc_branches_text ret bs t more :
  t.(branch) = 0 → Forall (fun b => b.(branch) ≠ 0) bs →
  enc_branches ret (bs ++ t :: more) = Ret (ret +:+ texts branch_text (bs ++ [t])).
Proof.
  intros Ht Hbs. revert ret. induction Hbs as [|b bs Hb Hbs IH]; intros ret; simpl.
  - by rewrite Ht, enc_branch_text, app_nil_r_str.
  - replace (branch b =? 0) with false by (symmetry; by apply Z.eqb_neq).
    rewrite IH. by rewrite enc_branch_text, app_assoc_str.
Qed.

(** What is written, unless the number array does not fit its buffer. *)
Lemma enc_item_text old i :
  item_ok i →
  match i with
  | IIntArray a => (String.length (array_text (default [] a)) ≤ String.length old)%nat
  | _ => True
  end →
  enc_item old i = Ret (old +:+ item_text i).
Proof.
  intros Hi Hfit. destruct i; simpl enc_item; unfold item_text.
  - done.
  - by rewrite enc_string_text.
  - unfold enc_jobid. by rewrite enc_string_text.
  - destruct Hi as (l & -> & _ & Hl). unfold enc_int_array. rewrite Hl. simpl default in *.
    rewrite (proj2 (Nat.leb_gt _ _)) by lia. rewrite take_ge by lia.
    by rewrite (proj2 (Nat.ltb_ge _ _)).
  - unfold enc_strlist. rewrite (enc_head_text _
      (fun l => texts str_text (Some <$> l) +:+ str_text None)); [done |].
    intros ret x. rewrite enc_string_text, (foldl_text _ str_text) by apply enc_string_text.
    by rewrite app_assoc_str.
  - unfold enc_taglist. rewrite (enc_head_text _
      (fun l => texts tag_text (tag_pair <$> l) +:+ tag_text (None, None))); [done |].
    intros ret x. rewrite enc_tag_text, (foldl_text _ tag_text) by apply enc_tag_text.
    by rewrite app_assoc_str.
  - unfold enc_timeval. by rewrite !enc_int_text, app_assoc_str.
  - destruct a as [a|]; [| done]. destruct Hi as (l & -> & _ & _).
    unfold enc_intlist. rewrite Z.ltb_irrefl, Nat2Z.id, firstn_all.
    rewrite (foldl_text _ int_text) by apply enc_int_text. by rewrite app_assoc_str.
  - destruct l as [l|]; [| done]. destruct Hi as (_ & bs & t & more & -> & Ht & Hbs).
    unfold enc_branch_states, head_text. rewrite enc_branches_text, upto_zero_app by done.
    by rewrite app_assoc_str.
Qed.

(** The array of numbers loses its last element, the array of branches gets one more. *)
Definition without_last (a : list Z) : list Z :=
  take (Z.to_nat EDG_WLL_NUMBER_OF_STATCODES) a ++ [0].
Definition with_zero (l : list branch_state) : list branch_state :=
  upto_zero l ++ [null_branch].

(** The effect of reading the item [i] into [t], if the types agree. *)
Definition store_item {R} (t : target R) (i : item) (r : R) : option R :=
  match t, i with
  | TInt set, IInt z => Some (set z r)
  | TString set, IString s => Some (set s r)
  | TJobid set, IJobid j => Some (set j r)
  | TIntArray set, IIntArray a => Some (set (without_last <$> a) r)
  | TStrlist set, IStrlist l => Some (set l r)
  | TTaglist set, ITaglist l => Some (set l r)
  | TTimeval set, ITimeval t => Some (set t r)
  | TIntlist set, IIntlist a => Some (set a r)
  | TBranches set, IBranches l => Some (set (with_zero <$> l) r)
  | _, _ => None
  end.

Lemma dec_jobid_text j rest :
  opt_ok wf_jobid j → str_ok (glite_jobid_unparse j) →
  dec_jobid (str_text (glite_jobid_unparse j) +:+ rest) = Ret (j, Some rest).
Proof.
  intros Hj Hs. unfold dec_jobid. rewrite dec_string_text by done. cbn [obind].
  destruct j as [j|]; [| done].
  destruct (parse_unparse_wf j Hj) as (s & E & Hp). by rewrite E, Hp.
Qed.

Lemma dec_str_item_text s r :
  str_ok s →
  dec_str_item (str_text s +:+ r) =
  Ret (s, match s with None => true | Some _ => false end, Some r).
Proof. intros Hs. unfold dec_str_item. by rewrite dec_string_text. Qed.

Lemma print_nonneg_nonempty n : 0 ≤ n → print_nonneg n ≠ EmptyString.
Proof. intros Hn E. pose proof (print_nonneg_starts n "" Hn) as H. by rewrite E in H. Qed.
Lemma print_int_cons z t : print_int z +:+ t ≠ EmptyString.
Proof.
  unfold fmt_d. rewrite Nat.sub_0_l. cbn [str_repeat String.append].
  destruct (z <? 0); [done |]. cbn [String.append].
  pose proof (print_nonneg_nonempty (Z.abs z) ltac:(lia)). by destruct (print_nonneg _).
Qed.
Lemma str_text_nonempty s t : str_text s +:+ t ≠ EmptyString.
Proof.
  destruct s as [s|]; unfold str_text; [| done]. rewrite app_assoc_str. apply print_int_cons.
Qed.

Lemma somes_fmap {A} (l : list A) : somes ((Some <$> l) ++ [None]) = l.
Proof.
  unfold somes. induction l as [|a l IH]; [done |]. simpl. f_equal. exact IH.
Qed.

Lemma dec_strlist_text l rest :
  opt_ok (Forall (fun s => str_ok (Some s))) l →
  dec_strlist (head_text (fun l => texts str_text (Some <$> l) +:+ str_text None) l +:+ rest) =
  Ret (l, Some rest).
Proof.
  intros Hl. unfold dec_strlist. rewrite dec_head_text. destruct l as [l|]; [| done].
  rewrite app_assoc_str.
  rewrite (dec_items_ok _ str_text id (Some <$> l) None).
  - cbn [obind fst snd]. rewrite list_fmap_id. unfold id at 1. by rewrite somes_fmap.
  - intros b r (s & -> & Hs)%list_elem_of_fmap.
    rewrite dec_str_item_text; [done |].
    simpl in Hl. by eapply list.Forall_forall in Hl.
  - intros b _. rewrite <-(app_nil_r_str (str_text b)). apply str_text_nonempty.
  - intros r. by rewrite dec_str_item_text.
Qed.

Lemma dec_tag_text t r :
  str_ok t.1 → str_ok t.2 →
  dec_tag (tag_text t +:+ r) =
  Ret (inr t, match t.1 with None => true | Some _ => false end, Some r).
Proof.
  intros H1 H2. unfold dec_tag, tag_text. rewrite app_assoc_str.
  rewrite dec_string_text by done. cbn [obind fst snd].
  rewrite dec_string_text by done. by destruct t.
Qed.

Lemma kept_inr {A} (l : list A) : kept (inr <$> l) = l.
Proof. unfold kept. induction l as [|a l IH]; [done |]. simpl. f_equal. exact IH. Qed.
Lemma gave_up_inr {A} (l : list A) : gave_up (inr <$> l) = false.
Proof. unfold gave_up. induction l as [|a l IH]; done. Qed.
Lemma fmap_snoc {A B} (f : A → B) l a : (f <$> l) ++ [f a] = f <$> (l ++ [a]).
Proof. by rewrite fmap_app. Qed.

Lemma tags_back l :
  omap (fun tv : option string * option string => t ← tv.1; Some (mkTag t tv.2))
    ((tag_pair <$> l) ++ [(None, None)]) = l.
Proof. induction l as [|[t v] l IH]; [done |]. simpl. f_equal. exact IH. Qed.

Lemma dec_taglist_text l rest :
  opt_ok (Forall tag_ok) l →
  dec_taglist
    (head_text (fun l => texts tag_text (tag_pair <$> l) +:+ tag_text (None, None)) l +:+ rest) =
  Ret (l, Some rest).
Proof.
  intros Hl. unfold dec_taglist. rewrite dec_head_text. destruct l as [l|]; [| done].
  rewrite app_assoc_str.
  rewrite (dec_items_ok _ tag_text inr (tag_pair <$> l) (None, None)).
  - cbn [obind fst snd]. by rewrite fmap_snoc, gave_up_inr, kept_inr, tags_back.
  - intros b r (t & -> & Ht)%list_elem_of_fmap. simpl in Hl.
    eapply list.Forall_forall in Hl; [| exact Ht].
    rewrite dec_tag_text; [done | apply Hl | apply Hl].
  - intros b _. apply str_text_nonempty.
  - intros r. by rewrite dec_tag_text.
Qed.

(** *** Arrays of numbers *)
Lemma print_int_no_sep z : str_forall (fun c => negb (Ascii.eqb c ";")) (print_int z) = true.
Proof. by apply fmt_d_other. Qed.

Lemma split_items_sep s t cur :
  str_forall (fun c => negb (Ascii.eqb c ";")) s = true →
  split_items (s +:+ String ";" t) cur =
  let '(l, last) := split_items t EmptyString in ((cur +:+ s) :: l, last).
Proof.
  revert cur. induction s as [|c s IH]; intros cur Hs.
  - simpl. by rewrite app_nil_r_str.
  - simpl in Hs. apply andb_true_iff in Hs as [Hc%negb_true_iff Hs].
    cbn [String.append split_items]. rewrite Hc, IH by done. by rewrite app_assoc_str.
Qed.
Lemma split_items_last s cur :
  str_forall (fun c => negb (Ascii.eqb c ";")) s = true → split_items s cur = ([], cur +:+ s).
Proof.
  revert cur. induction s as [|c s IH]; intros cur Hs.
  - simpl. by rewrite app_nil_r_str.
  - simpl in Hs. apply andb_true_iff in Hs as [Hc%negb_true_iff Hs].
    cbn [split_items]. rewrite Hc, IH by done. by rewrite app_assoc_str.
Qed.

Lemma split_array_text l z :
  split_items (array_text (l ++ [z])) EmptyString = ((fun z => print_int z) <$> l, print_int z).
Proof.
  induction l as [|y l IH].
  - cbn [app array_text]. by rewrite split_items_last by apply print_int_no_sep.
  - assert (array_text ((y :: l) ++ [z]) = print_int y +:+ String ";" (array_text (l ++ [z])))
      as -> by (by destruct l).
    rewrite split_items_sep by apply print_int_no_sep. by rewrite IH.
Qed.

Lemma array_text_no_blank l : str_forall (fun c => negb (Ascii.eqb c " ")) (array_text l) = true.
Proof.
  induction l as [|z l IH]; [done |]. destruct l as [|y l].
  - apply print_int_no_blank.
  - change (array_text (z :: y :: l)) with (print_int z +:+ String ";" (array_text (y :: l))).
    by rewrite str_forall_app, print_int_no_blank.
Qed.

Lemma store_items_ok out i l :
  Forall is_int l → (i + List.length l ≤ List.length out)%nat →
  store_items out i ((fun z => print_int z) <$> l) =
  Ret (take i out ++ l ++ drop (i + List.length l) out).
Proof.
  intros Hl. revert out i. induction Hl as [|z l Hz Hl IH]; intros out i Hlen; simpl in *.
  - rewrite Nat.add_0_r. by rewrite take_drop.
  - rewrite (proj2 (Nat.ltb_lt _ _)) by lia. rewrite IH by (rewrite length_insert; lia).
    rewrite atoi_print by done. f_equal.
    rewrite (take_S_r _ i z) by (apply list_lookup_insert_eq; lia).
    rewrite take_insert_ge by lia. rewrite drop_insert_lt by lia.
    rewrite <-app_assoc. do 2 f_equal. simpl. f_equal. f_equal. lia.
Qed.

Lemma dec_int_array_text l rest :
  Forall is_int l → List.length l = S (Z.to_nat EDG_WLL_NUMBER_OF_STATCODES) →
  dec_int_array ((array_text l +:+ " ") +:+ rest) zero_array = Ret (without_last l, Some rest).
Proof.
  intros Hl Hlen. unfold dec_int_array. rewrite app_assoc_str.
  rewrite str_span_app by first [apply array_text_no_blank | left; by eexists _, _].
  destruct (exists_last (l := l)) as (l' & z & ->); [by destruct l |].
  rewrite split_array_text. cbn [String.append].
  rewrite length_app in Hlen. simpl in Hlen. apply Forall_app in Hl as [Hl _].
  assert (List.length l' = 12%nat) as H12 by (change (Z.to_nat EDG_WLL_NUMBER_OF_STATCODES) with 12%nat in Hlen; lia).
  rewrite store_items_ok; [| done | rewrite H12; vm_compute; lia].
  rewrite H12. unfold without_last. change (Z.to_nat EDG_WLL_NUMBER_OF_STATCODES) with 12%nat.
  rewrite <-H12 at 2. rewrite take_app_length. reflexivity.
Qed.

Lemma dec_ints_text l rest :
  Forall is_int l →
  dec_ints (List.length l) (Some (texts int_text l +:+ rest)) = Ret (l, Some rest).
Proof.
  induction 1 as [|z l Hz Hl IH]; [done |].
  cbn [List.length dec_ints at_ptr]. rewrite texts_cons, app_assoc_str.
  rewrite dec_int_text by done. cbn [obind fst snd]. by rewrite IH.
Qed.

Lemma dec_intlist_text a rest :
  item_ok (IIntlist a) →
  dec_intlist (head_text (texts int_text) a +:+ rest) = Ret (a, Some rest).
Proof.
  intros Ha. unfold dec_intlist. destruct a as [a|]; unfold head_text.
  - destruct Ha as (l & -> & Hl & Hlen). apply list.Forall_cons in Hl as [Hn Hl].
    set (body := texts int_text _).
    change ("1 " +:+ body) with (print_int 1 +:+ String " " body).
    rewrite app_assoc_str. change (String " " body +:+ rest) with (String " " (body +:+ rest)).
    rewrite sscanf_d_print by (done || by vm_compute). rewrite after_blank_print.
    change (1 =? -1) with false. cbn iota.
    unfold body. rewrite texts_cons, app_assoc_str, dec_int_text by done. cbn [obind].
    replace (_ =? INT_MAX) with false by (symmetry; apply Z.eqb_neq; lia).
    replace (_ =? -1) with false by (symmetry; apply Z.eqb_neq; lia).
    replace (_ <? 0) with false by (symmetry; apply Z.ltb_ge; lia).
    rewrite Nat2Z.id. by rewrite dec_ints_text.
  - change ("-1 " +:+ rest) with (print_int (-1) +:+ String " " rest).
    rewrite sscanf_d_print by (done || by vm_compute). by rewrite after_blank_print.
Qed.

Lemma dec_timeval_text t rest :
  time_ok t →
  dec_timeval ((int_text (s32 t.(tv_sec)) +:+ int_text (s32 t.(tv_usec))) +:+ rest) =
  Ret (t, Some rest).
Proof.
  intros [H1 H2]. rewrite !s32_id by done. unfold dec_timeval. rewrite app_assoc_str.
  rewrite dec_int_text by done. cbn [obind fst snd].
  rewrite dec_int_text by done. by destruct t.
Qed.

Lemma dec_branch_text b r :
  branch_ok b → dec_branch (branch_text b +:+ r) = Ret (inr b, b.(branch) =? 0, Some r).
Proof.
  intros (H1 & H2 & H3 & H4). unfold dec_branch, branch_text. rewrite !app_assoc_str.
  rewrite dec_int_text by done. cbn [obind fst snd at_ptr].
  rewrite dec_string_text by done. cbn [obind fst snd].
  rewrite dec_string_text by done. cbn [obind fst snd].
  rewrite dec_string_text by done. by destruct b.
Qed.

Lemma dec_branch_states_text l rest :
  item_ok (IBranches l) →
  dec_branch_states (head_text (fun l => texts branch_text (upto_zero l)) l +:+ rest) =
  Ret (with_zero <$> l, Some rest).
Proof.
  intros Hl. unfold dec_branch_states. rewrite dec_head_text. destruct l as [l|]; [| done].
  destruct Hl as (Hok & bs & t & more & -> & Ht & Hbs). apply Forall_app in Hok as [Hok Hokt].
  assert (branch_ok t) as Ht0 by (by inversion Hokt). clear Hokt.
  unfold with_zero. cbn [fmap option_fmap option_map].
  rewrite upto_zero_app, texts_app by done. cbn [texts foldr]. rewrite app_nil_r_str, app_assoc_str.
  rewrite (dec_items_ok _ branch_text inr bs t).
  - cbn [obind fst snd]. by rewrite fmap_snoc, gave_up_inr, kept_inr.
  - intros b r Hb. rewrite dec_branch_text by (by eapply list.Forall_forall in Hok).
    eapply list.Forall_forall in Hbs; [| exact Hb]. simpl in Hbs.
    by rewrite (proj2 (Z.eqb_neq _ _) Hbs).
  - intros b _. unfold branch_text, int_text. rewrite app_assoc_str. apply print_int_cons.
  - intros r. rewrite dec_branch_text by done. by rewrite Ht.
Qed.

(** *** Any item *)
Lemma item_roundtrip {R} (t : target R) i r r' rest :
  item_ok i → store_item t i r = Some r' →
  dec_target t r (item_text i +:+ rest) = Ret (r', Some rest).
Proof.
  intros Hi Hs. destruct t, i; try discriminate Hs; injection Hs as <-;
    unfold dec_target, item_text, assign.
  - by rewrite dec_int_text.
  - by rewrite dec_string_text.
  - destruct Hi. by rewrite dec_jobid_text.
  - destruct Hi as (l & -> & Hl & Hlen). simpl default.
    rewrite take_ge by lia. by rewrite dec_int_array_text.
  - by rewrite dec_strlist_text.
  - by rewrite dec_taglist_text.
  - by rewrite dec_timeval_text.
  - by rewrite dec_intlist_text.
  - by rewrite dec_branch_states_text.
Qed.

(** The effect of reading all items. *)
Fixpoint store_items_in {R} (ts : list (target R)) (items : list item) (r : R) : option R :=
  match ts, items with
  | [], [] => Some r
  | t :: ts, i :: items => r ← store_item t i r; store_items_in ts items r
  | _, _ => None
  end.

Lemma items_roundtrip {R} (ts : list (target R)) items r r' rest :
  Forall item_ok items → store_items_in ts items r = Some r' →
  dec_target_list ts r (Some (texts item_text items +:+ rest)) = Ret (r', Some rest).
Proof.
  intros Hi. revert ts r. induction Hi as [|i items Hi Hok IH]; intros [|t ts] r Hs;
    try discriminate Hs; [by injection Hs as -> |].
  cbn [store_items_in] in Hs. apply bind_Some in Hs as (r1 & H1 & Hs).
  cbn [dec_target_list]. rewrite texts_cons, app_assoc_str.
  rewrite (item_roundtrip _ _ _ _ _ Hi H1). cbn [obind fst snd]. by apply IH.
Qed.

Lemma enc_item_list_app old l k :
  enc_item_list old (l ++ k) = obind (enc_item_list old l) (fun ret => enc_item_list ret k).
Proof.
  revert old. induction l as [|i l IH]; intros old; [done |]. simpl.
  destruct (enc_item old i); [| done]. apply IH.
Qed.

Definition is_array (i : item) : bool := match i with IIntArray _ => true | _ => false end.

Lemma enc_items_text old l :
  Forall item_ok l → forallb (fun i => negb (is_array i)) l = true →
  enc_item_list old l = Ret (old +:+ texts item_text l).
Proof.
  intros Hl. revert old. induction Hl as [|i l Hi Hl IH]; intros old Ha; simpl in *.
  - by rewrite app_nil_r_str.
  - apply andb_true_iff in Ha as [Hi' Ha].
    rewrite enc_item_text by (done || by destruct i). cbn [obind].
    rewrite IH by done. by rewrite app_assoc_str.
Qed.

(** ** Properties *)

(** What comes back from the data base: the children, the history, the access rights and
    three fields more are not stored, the number of purged children is lost. *)
Definition stored (js : intJobStat) : intJobStat :=
  js <! children := None !> <! history := None !> <! access_rights := None !>
     <! pbs_substate := 0 !> <! vm_system_halting := 0 !> <! vm_manager := None !>
     <! children_hist := without_last <$> js.(pub).(children_hist) !>
     <| branch_states := with_zero <$> js.(branch_states) |>.

Definition storable (js : intJobStat) : Prop :=
  Forall item_ok (JobStat_items js.(pub)) ∧ Forall item_ok (intJobStat_items js).

(** The histogram of the children is written into a buffer that is as long as what is
    written before it. *)
Definition hist_fits (js : intJobStat) : Prop :=
  (String.length (array_text (default [] js.(pub).(children_hist))) ≤
   String.length (texts item_text (take 7 (JobStat_items js.(pub)))))%nat.

Lemma JobStat_items_split p :
  JobStat_items p =
  take 7 (JobStat_items p) ++ IIntArray p.(children_hist) :: drop 8 (JobStat_items p).
Proof. reflexivity. Qed.

Lemma store_JobStat js :
  store_items_in JobStat_targets (JobStat_items js.(pub)) zero_JobStat = Some (stored js).(pub).
Proof. reflexivity. Qed.
Lemma store_intJobStat js :
  store_items_in intJobStat_targets (intJobStat_items js) (zero_intJobStat (stored js).(pub)) =
  Some (stored js).
Proof. reflexivity. Qed.

Lemma enc_JobStat_text p old :
  Forall item_ok (JobStat_items p) →
  enc_JobStat old p =
  if (String.length (array_text (default [] p.(children_hist))) <=?
      String.length (old +:+ texts item_text (take 7 (JobStat_items p))))%nat
  then Ret (old +:+ texts item_text (JobStat_items p)) else UB OutOfBounds.
Proof.
  intros Hok. unfold enc_JobStat. rewrite (JobStat_items_split p) in Hok |- * at 1.
  apply Forall_app in Hok as [H1 Hok]. apply list.Forall_cons in Hok as [H2 H3].
  rewrite enc_item_list_app, enc_items_text by (done || reflexivity). cbn [obind].
  set (ret := old +:+ _). cbn [enc_item_list].
  destruct (_ <=? _)%nat eqn:E.
  - apply Nat.leb_le in E. rewrite enc_item_text by done. cbn [obind].
    rewrite enc_items_text by (done || reflexivity).
    change (texts item_text (JobStat_items p)) with
      (texts item_text (take 7 (JobStat_items p) ++
         IIntArray p.(children_hist) :: drop 8 (JobStat_items p))).
    unfold ret. by rewrite texts_app, texts_cons, !app_assoc_str.
  - destruct H2 as (l & El & _ & Hl). rewrite El in *. simpl default in E.
    unfold enc_item, enc_int_array. rewrite Hl, (proj2 (Nat.leb_gt _ _)) by lia.
    rewrite take_ge by lia. apply Nat.leb_gt in E.
    by rewrite (proj2 (Nat.ltb_lt _ _) E).
Qed.

(** storing the job status is safe exactly when the histogram of the children fits: for
    a status whose numbers and lengths fit their types, [enc_intJobStat] stays within its
    buffers if and only if the text of the histogram is not longer than the text of the
    seven fields before it. *)
Theorem enc_defined js :
  storable js → (defined (enc_intJobStat "" js) ↔ hist_fits js).
Proof.
  intros [H1 H2]. unfold enc_intJobStat, hist_fits.
  rewrite enc_JobStat_text by done. cbn [String.append].
  rewrite <-Nat.leb_le. destruct (_ <=? _)%nat; cbn [obind]; [| done].
  by rewrite enc_items_text by (done || reflexivity).
Qed.

Lemma store_load js :
  storable js → hist_fits js →
  ∃ text, enc_intJobStat "" js = Ret text ∧
    ∀ rest, dec_intJobStat (text +:+ rest) = Ret (Some (stored js), Some rest).
Proof.
  intros [H1 H2] Hfit. unfold enc_intJobStat.
  rewrite enc_JobStat_text by done. cbn [String.append].
  rewrite (proj2 (Nat.leb_le _ _)) by exact Hfit. cbn [obind].
  rewrite enc_items_text by (done || reflexivity).
  eexists. split; [reflexivity |]. intros rest. rewrite app_assoc_str.
  unfold dec_intJobStat, dec_JobStat.
  rewrite (items_roundtrip _ _ _ _ _ H1 (store_JobStat js)). cbn [obind fst snd].
  rewrite (items_roundtrip _ _ _ _ _ H2 (store_intJobStat js)). done.
Qed.

(** C25: the job status survives the data base, but for the fields that are not stored and
    the last number of the histogram: the text that [enc_intJobStat] builds is read back
    by [dec_intJobStat] as the same status without them, whatever bytes the strings
    contain and whatever follows the text. *)
Theorem stored_roundtrip js :
  storable js → hist_fits js →
  ∃ text, enc_intJobStat "" js = Ret text ∧
    ∀ rest, dec_intJobStat (text +:+ rest) = Ret (Some (stored js), Some rest).
Proof. apply store_load. Qed.

(** ** Witnesses *)
Definition stored_sample : intJobStat :=
  init_intJobStat
    <! state := EDG_WLL_JOB_RUNNING !> <! jobId := Some sample_jobid !>
    <! owner := Some "/CN=some body"%string !>
    <! reason := Some "12 x"%string !> <! user_tags := Some [mkTag "a" (Some " "%string)] !>
    <! possible_ce_nodes := Some ["n1"; ""]%string !>
    <! children_hist := Some [12; 0; 1; 2; 3; 4; 5; 6; 7; 8; 9; 10; 11] !>
    <| branch_states := Some [mkBranch 7 None (Some "n1"%string) None; null_branch] |>
    <| tag_seq_codes := Some ["x"%string] |>.

Ltac ok_item :=
  lazymatch goal with
  | |- item_ok (IInt _) => apply (bool_decide_unpack _); by vm_compute
  | |- item_ok (IString _) => vm_compute; first [exact I | discriminate]
  | |- item_ok (IJobid None) => by split
  | |- item_ok (IJobid (Some _)) => split; [by vm_compute | vm_compute; discriminate]
  | |- item_ok (ITimeval _) => split; apply (bool_decide_unpack _); by vm_compute
  | |- item_ok (IIntArray (Some ?a)) =>
    exists a; split; [done |]; split; [| done];
    repeat constructor; vm_compute; discriminate
  | |- item_ok (IStrlist _) =>
    cbn [item_ok opt_ok]; first [exact I | repeat constructor; vm_compute; discriminate]
  | |- item_ok (ITaglist _) =>
    cbn [item_ok opt_ok]; first [exact I | repeat constructor; vm_compute; discriminate]
  end.

Ltac ok_list :=
  lazymatch goal with
  | |- Forall item_ok [] => apply list.Forall_nil_2
  | |- Forall item_ok (_ :: _) => apply list.Forall_cons_2; [try ok_item | ok_list]
  end.
Ltac ok_items :=
  split;
  match goal with |- Forall item_ok ?l =>
    let v := eval vm_compute in l in change (Forall item_ok v)
  end; ok_list.

Lemma stored_sample_ok : storable stored_sample.
Proof.
  ok_items.
  - exists (replicate 12 0). split; [done |].
    split; [repeat constructor; vm_compute; discriminate | by vm_compute].
  - split; [repeat constructor; vm_compute; discriminate |].
    exists [mkBranch 7 None (Some "n1"%string) None], null_branch, [].
    split; [done |]. split; [done |]. by repeat constructor.
Qed.

Lemma enc_defined_witness :
  storable init_intJobStat ∧ ¬ defined (enc_intJobStat "" init_intJobStat).
Proof.
  assert (storable init_intJobStat) as H.
  { ok_items; [| exact I].
    exists (replicate 12 0). split; [done |].
    split; [repeat constructor; vm_compute; discriminate | by vm_compute]. }
  split; [exact H |]. intros Hd%(proj1 (enc_defined init_intJobStat H)).
  apply Nat.leb_le in Hd. vm_compute in Hd. discriminate Hd.
Defined.

Lemma stored_roundtrip_witness :
  ∃ text, enc_intJobStat "" stored_sample = Ret text ∧
    ∀ rest, dec_intJobStat (text +:+ rest) = Ret (Some (stored stored_sample), Some rest).
Proof.
  apply (stored_roundtrip stored_sample stored_sample_ok).
  apply Nat.leb_le. by vm_compute.
Defined.
