(* ===== verification/Authz.v ===== *)
(** * Authorisation of the server

    The policy of the server (org.glite.lb.server/src/authz_policy.c, its construction in
    org.glite.lb.common/src/context.c), who may see the status of a job and log events
    ([check_jobstat_authz], [check_store_authz] of org.glite.lb.server/src/lb_authz.c), and
    what a monitoring client gets to see of a status ([blacken_fields]).  The class-ad library
    and the evaluation of ACLs (GridSite) are parameters. *)
From Stdlib Require Import ZArith Lia Ascii.
From stdpp Require Import base option list strings numbers.
From S2P Require Import Prelude CLib JobId LbTypes Events Gss.
#[local] Open Scope Z_scope.

(** ** The policy *)

(** [authz_action]; [ADMIN_ACCESS] is [~0]. *)
Definition ACTION_UNDEF : Z := 0.
Definition ADMIN_ACCESS : Z := -1.
Definition STATUS_FOR_MONITORING : Z := 2.
Definition LOG_WMS_EVENTS : Z := 4.
Definition LOG_CE_EVENTS : Z := 8.
Definition LOG_GENERAL_EVENTS : Z := 16.
Definition GET_STATISTICS : Z := 32.
Definition REGISTER_JOBS : Z := 64.
Definition READ_ALL : Z := 128.
Definition PURGE : Z := 256.
Definition GRANT_OWNERSHIP : Z := 512.
Definition READ_ANONYMIZED : Z := 1024.
Definition REGISTER_FOREIGN : Z := 2048.

Definition action_names : list (Z * string) :=
  [(ADMIN_ACCESS, "ADMIN_ACCESS"); (STATUS_FOR_MONITORING, "STATUS_FOR_MONITORING");
   (LOG_WMS_EVENTS, "LOG_WMS_EVENTS"); (LOG_CE_EVENTS, "LOG_CE_EVENTS");
   (LOG_GENERAL_EVENTS, "LOG_GENERAL_EVENTS"); (GET_STATISTICS, "GET_STATISTICS");
   (REGISTER_JOBS, "REGISTER_JOBS"); (READ_ALL, "READ_ALL"); (PURGE, "PURGE");
   (GRANT_OWNERSHIP, "GRANT_OWNERSHIP"); (READ_ANONYMIZED, "READ_ANONYMIZED");
   (REGISTER_FOREIGN, "REGISTER_FOREIGN")].

Definition ATTR_UNDEF : Z := 0.
Definition ATTR_SUBJECT : Z := 1.
Definition ATTR_FQAN : Z := 2.
Definition attr_id_names : list (Z * string) := [(ATTR_SUBJECT, "subject"); (ATTR_FQAN, "fqan")].

Definition find_authz_action (name : string) : Z :=
  match find (λ a, String.eqb a.2 name) action_names with Some (a, _) => a | None => ACTION_UNDEF end.
Definition action2name (a : Z) : option string := snd <$> find (λ n, n.1 =? a) action_names.
Definition find_authz_attr (name : string) : Z :=
  match find (λ a, String.eqb a.2 name) attr_id_names with Some (a, _) => a | None => ATTR_UNDEF end.

(** An attribute, a rule (all of its attributes) and the rules of an action (one of them). *)
Abbreviation authz_attr := (Z * string)%type.
Abbreviation authz_rule := (list authz_attr).
Record authz_actions := { act_id : Z; act_rules : list authz_rule }.
#[export] Instance eta_authz_actions : Eta authz_actions :=
  fun x => {| act_id := act_id x; act_rules := act_rules x |}.
Abbreviation authz_policy := (list authz_actions).

Record GssPrincipal := { princ_name : option string; princ_fqans : list string }.

Definition edg_wll_add_authz_attr (rule : authz_rule) (id : Z) (value : string) : authz_rule :=
  rule ++ [(id, value)].

Fixpoint edg_wll_add_authz_rule (policy : authz_policy) (action : Z) (rule : authz_rule) :
    authz_policy :=
  let copy := fold_left (λ r a, edg_wll_add_authz_attr r a.1 a.2) rule [] in
  match policy with
  | [] => [{| act_id := action; act_rules := [copy] |}]
  | a :: policy =>
    if act_id a =? action then a <| act_rules := act_rules a ++ [copy] |> :: policy
    else a :: edg_wll_add_authz_rule policy action rule
  end.

Definition check_attr (principal : GssPrincipal) (a : authz_attr) : bool :=
  if String.eqb a.2 ".*" then true
  else if a.1 =? ATTR_SUBJECT then edg_wll_gss_equal_subj (Some a.2) principal.(princ_name)
  else if a.1 =? ATTR_FQAN then existsb (String.eqb a.2) principal.(princ_fqans)
  else false.
Definition check_rule (principal : GssPrincipal) (rule : authz_rule) : bool :=
  match rule with [] => false | _ => forallb (check_attr principal) rule end.

Definition check_authz_policy (policy : option authz_policy) (principal : GssPrincipal) (action : Z) :
    bool :=
  match policy with
  | None => false
  | Some policy =>
    match find (λ a, act_id a =? action) policy with
    | None => false
    | Some a => existsb (check_rule principal) (act_rules a)
    end
  end.

Definition edg_wll_amIroot (subj : option string) (fqans : list string) (policy : option authz_policy) :
    bool :=
  check_authz_policy policy {| princ_name := subj; princ_fqans := fqans |} ADMIN_ACCESS.

(** ** The status of a job *)
Definition EDG_WLL_NOTIF_ANONYMIZE : Z := 32.

Abbreviation id_mapping := (list (string * string)).
Definition equal_mapped (a b : option string) (mapping : id_mapping) : bool :=
  existsb (λ r,
    (edg_wll_gss_equal_subj a (Some r.1) && edg_wll_gss_equal_subj b (Some r.2)) ||
    (edg_wll_gss_equal_subj a (Some r.2) && edg_wll_gss_equal_subj b (Some r.1))) mapping.

(** What the code reads of the context. *)
Record authz_ctx := {
  az_noAuth : bool;
  az_policy : option authz_policy;
  az_mapping : id_mapping
}.

(** [check_jobstat_authz]: whether, and the flags.  [acl_read]: [edg_wll_CheckACL_princ]
    grants the reading; [None] if there is no ACL. *)
Definition check_jobstat_authz (ctx : authz_ctx) (stat : JobStat) (job_flags : Z)
    (acl_read : option (GssPrincipal → bool)) (peer : option GssPrincipal) : bool * Z :=
  let flags := if Z.land job_flags EDG_WLL_NOTIF_ANONYMIZE =? 0 then 0 else READ_ANONYMIZED in
  if ctx.(az_noAuth) then (true, flags) else
  match peer with
  | None => (false, flags)
  | Some peer =>
    match peer.(princ_name) with
    | None => (false, flags)
    | Some _ =>
      if edg_wll_gss_equal_subj peer.(princ_name) stat.(owner) then (true, flags) else
      if equal_mapped peer.(princ_name) stat.(owner) ctx.(az_mapping) then (true, flags) else
      if edg_wll_gss_equal_subj peer.(princ_name) stat.(payload_owner) then (true, flags) else
      if edg_wll_amIroot peer.(princ_name) peer.(princ_fqans) ctx.(az_policy) then (true, flags) else
      if match acl_read with Some f => f peer | None => false end then (true, flags) else
      if check_authz_policy ctx.(az_policy) peer READ_ALL then (true, flags) else
      if (Z.land flags READ_ANONYMIZED =? 0) && check_authz_policy ctx.(az_policy) peer READ_ANONYMIZED
      then (true, Z.lor flags READ_ANONYMIZED) else
      if check_authz_policy ctx.(az_policy) peer STATUS_FOR_MONITORING
      then (true, Z.lor flags STATUS_FOR_MONITORING) else
      (false, flags)
    end
  end.

(** ** Logging *)
Definition store_action (type : EventBody) : Z :=
  match type with
  | RegJob _ => REGISTER_JOBS
  | GrantPayloadOwnership _ => GRANT_OWNERSHIP
  | CurDescr | UserTag _ _ | ChangeACL _ => LOG_GENERAL_EVENTS
  | Running _ | ReallyRunning _ | Done _ => LOG_CE_EVENTS
  | _ => LOG_WMS_EVENTS
  end.

(** [check_store_authz] without LCAS: 0 or EPERM.  [policy_file]: one was configured. *)
Definition check_store_authz (policy_file : bool) (policy : option authz_policy) (peer : GssPrincipal)
    (type : EventBody) : Z :=
  if negb policy_file then 0 else
  if check_authz_policy policy peer (store_action type) then 0 else 1.

(** ** What a monitoring client sees *)
Definition allowed_jdl_fields : list string := ["VirtualOrganisation"; "JobType"; "Type"].

Section Blacken.
(** [cclassad_create] succeeds; [cclassad_evaluate_to_string]; [cclassad_unparse] of an ad with
    the given attributes. *)
Context (ad_ok : string → bool) (ad_get : string → string → option string)
  (ad_unparse : list (string * string) → option string).

Definition copy_counted (l : list Z) : outcome (list Z) :=
  match l with
  | [] => UB OutOfBounds
  | n :: _ => if (n <? 0) || (Z.of_nat (length l) <? 1 + n) then UB OutOfBounds
              else Ret (take (Z.to_nat (1 + n)) l)
  end.

Definition public_jdl (jdl : option string) : option string :=
  match jdl with
  | None => None
  | Some text =>
    if ad_ok text
    then ad_unparse (omap (λ f, (λ v, (f, v)) <$> ad_get text f) allowed_jdl_fields)
    else None
  end.

Definition blacken_fields (stat : JobStat) (flags : Z) : outcome JobStat :=
  if Z.land flags STATUS_FOR_MONITORING =? 0 then Ret edg_wll_InitStatus else
  let! times := match stat.(stateEnterTimes) with
                | None => Ret None
                | Some l => let! l := copy_counted l in Ret (Some l)
                end in
  Ret (edg_wll_InitStatus
         <| state := stat.(state) |> <| jobId := stat.(jobId) |>
         <| jdl := public_jdl stat.(jdl) |> <| jobtype := stat.(jobtype) |>
         <| destination := stat.(destination) |> <| network_server := stat.(network_server) |>
         <| stateEnterTime := stat.(stateEnterTime) |> <| lastUpdateTime := stat.(lastUpdateTime) |>
         <| stateEnterTimes := times |> <| ui_host := stat.(ui_host) |>).

(** ** Hashed identities *)

(** SHA-256 in hexadecimal, and the salt of the server (an error otherwise). *)
Context (sha256_hex : string → string) (server_salt : Z + string).

Definition sha256_salt (s : option string) (salt : string) : string :=
  sha256_hex (asprintf "%s%s" [PStr s; PStr (Some salt)]).

(** The error and the status. *)
Definition anonymize_stat (stat : JobStat) : Z * JobStat :=
  match server_salt with
  | inl err => (err, stat)
  | inr salt =>
    (0, stat <| owner := Some (sha256_salt stat.(owner) salt) |>
             <| payload_owner := match stat.(payload_owner) with
                                 | Some p => Some (sha256_salt (Some p) salt)
                                 | None => None
                                 end |>)
  end.

(** The ACL of a job: its text, its printed form, and whether it lets a client read. *)
Record job_acl := { acl_string : string; acl_printed : option string; acl_reads : GssPrincipal → bool }.

(** What [edg_wll_JobStatusServer] does with the status of a job for a client: EPERM, or the
    error and the status. *)
Definition client_status (ctx : authz_ctx) (stat : JobStat) (job_flags : Z)
    (job_acl : option job_acl) (peer : option GssPrincipal) : outcome (Z + Z * JobStat) :=
  let '(ok, flags) := check_jobstat_authz ctx stat job_flags (acl_reads <$> job_acl) peer in
  if negb ok then Ret (inl 1) else
  let stat := match job_acl with
              | Some a => stat <| access_rights := a.(acl_printed) |> <| acl := Some a.(acl_string) |>
              | None => stat
              end in
  let stat := if Z.land job_flags 1 =? 0
              then stat <| jdl := None |> <| matched_jdl := None |> <| condor_jdl := None |>
                        <| rsl := None |>
              else stat in
  let! stat := if Z.land flags STATUS_FOR_MONITORING =? 0 then Ret stat
               else blacken_fields stat flags in
  Ret (inr (if Z.land flags READ_ANONYMIZED =? 0 then (0, stat) else anonymize_stat stat)).
End Blacken.

(** ** The policy as a list of grants *)

(** What a client has to have for an attribute of a rule. *)
Inductive satisfies (p : GssPrincipal) : authz_attr → Prop :=
| any_value id : satisfies p (id, ".*"%string)
| has_subject v : edg_wll_gss_equal_subj (Some v) (princ_name p) = true →
    satisfies p (ATTR_SUBJECT, v)
| has_fqan v : In v (princ_fqans p) → satisfies p (ATTR_FQAN, v).

Lemma copied_rule rule : ∀ r, fold_left (λ r a, edg_wll_add_authz_attr r a.1 a.2) rule r = r ++ rule.
Proof.
  induction rule as [|[id v] rule IH]; intros r; simpl; [by rewrite app_nil_r|].
  unfold edg_wll_add_authz_attr at 2. by rewrite IH, <- app_assoc.
Qed.

Lemma add_rule_grants policy action rule principal a :
  check_authz_policy (Some (edg_wll_add_authz_rule policy action rule)) principal a =
  check_authz_policy (Some policy) principal a || ((action =? a) && check_rule principal rule).
Proof.
  unfold check_authz_policy. induction policy as [|x policy IH].
  - simpl. rewrite copied_rule. simpl. destruct (action =? a); [|done]. simpl. by rewrite orb_false_r.
  - cbn [edg_wll_add_authz_rule]. rewrite copied_rule.
    destruct (Z.eqb_spec (act_id x) action) as [E|E]; cbn [find].
    + change (act_id (x <| act_rules := act_rules x ++ [[] ++ rule] |>)) with (act_id x).
      rewrite E. destruct (action =? a) eqn:X.
      * cbn [setter act_rules app]. rewrite existsb_app. simpl. by rewrite orb_false_r.
      * by rewrite orb_false_r.
    + destruct (Z.eqb_spec (act_id x) a) as [F|F]; [|exact IH].
      assert ((action =? a) = false) as -> by (apply Z.eqb_neq; lia). by rewrite orb_false_r.
Qed.

Lemma policy_exists grants principal action : ∀ p,
  check_authz_policy (Some (fold_left (λ p g, edg_wll_add_authz_rule p g.1 g.2) grants p))
    principal action =
  check_authz_policy (Some p) principal action ||
  existsb (λ g, (g.1 =? action) && check_rule principal g.2) grants.
Proof.
  induction grants as [|[a r] grants IH]; intros p; cbn [fold_left existsb fst snd].
  { by rewrite orb_false_r. }
  by rewrite IH, add_rule_grants, orb_assoc.
Qed.

Lemma check_attr_spec principal a : check_attr principal a = true ↔ satisfies principal a.
Proof.
  destruct a as [id v]. unfold check_attr. cbn [fst snd]. split.
  - destruct (String.eqb_spec v ".*") as [->|]; [constructor|].
    destruct (Z.eqb_spec id ATTR_SUBJECT) as [->|]; [by constructor|].
    destruct (Z.eqb_spec id ATTR_FQAN) as [->|]; [|done].
    intros (f & F & ->%String.eqb_eq)%existsb_exists. by constructor.
  - intros S. inversion S as [|? E|? E]; subst; [done| |]; destruct (String.eqb v ".*"); try done.
    apply existsb_exists. exists v. by rewrite String.eqb_refl.
Qed.

Lemma check_rule_spec principal rule :
  check_rule principal rule = true ↔ rule ≠ [] ∧ Forall (satisfies principal) rule.
Proof.
  unfold check_rule. destruct rule as [|a rule]; [naive_solver|].
  rewrite forallb_forall, Forall_forall. setoid_rewrite check_attr_spec. naive_solver.
Qed.

(** A policy built by adding rules in any order grants an action to a client exactly if
    some rule that was added for this action has attributes and the client has all of them:
    the subject, the FQAN or, for the value ".*", anything. What is not granted is denied. *)
Theorem policy_grants grants principal action :
  check_authz_policy (Some (fold_left (λ p g, edg_wll_add_authz_rule p g.1 g.2) grants []))
    principal action = true ↔
  ∃ rule, In (action, rule) grants ∧ rule ≠ [] ∧ Forall (satisfies principal) rule.
Proof.
  rewrite policy_exists. cbn [check_authz_policy find orb]. rewrite existsb_exists.
  setoid_rewrite andb_true_iff. setoid_rewrite Z.eqb_eq. setoid_rewrite check_rule_spec.
  split; [intros ([a r] & ? & <- & ?); eauto | intros (r & ? & ?); by exists (action, r)].
Qed.

(** ** Who may see a status *)

(** Full access: the owner under any of its names, the owner of the payload, an administrator,
    a client of the ACL or one that may read everything. *)
Definition full_access (ctx : authz_ctx) (stat : JobStat) (acl_read : option (GssPrincipal → bool))
    (p : GssPrincipal) : bool :=
  edg_wll_gss_equal_subj (princ_name p) stat.(owner) ||
  equal_mapped (princ_name p) stat.(owner) ctx.(az_mapping) ||
  edg_wll_gss_equal_subj (princ_name p) stat.(payload_owner) ||
  check_authz_policy ctx.(az_policy) p ADMIN_ACCESS ||
  match acl_read with Some f => f p | None => false end ||
  check_authz_policy ctx.(az_policy) p READ_ALL.

(** The status is shown exactly to clients with full access, and, restricted, to those
    that the policy allows anonymised reading or monitoring; a client without a name sees
    nothing.  The restriction is exactly the one the right implies: identities are hashed if
    the client asked for it or has no more than the right to anonymised reading, the fields
    are removed if it has the right to monitoring only. *)
Theorem status_access ctx stat job_flags acl_read p name
    (N : princ_name p = Some name) (O : az_noAuth ctx = false) :
  let anon := negb (Z.land job_flags EDG_WLL_NOTIF_ANONYMIZE =? 0) in
  let policy := check_authz_policy (az_policy ctx) p in
  check_jobstat_authz ctx stat job_flags acl_read (Some p) =
  if full_access ctx stat acl_read p then (true, if anon then READ_ANONYMIZED else 0)
  else if negb anon && policy READ_ANONYMIZED then (true, READ_ANONYMIZED)
  else if policy STATUS_FOR_MONITORING
  then (true, STATUS_FOR_MONITORING + if anon then READ_ANONYMIZED else 0)
  else (false, if anon then READ_ANONYMIZED else 0).
Proof.
  unfold check_jobstat_authz, full_access, edg_wll_amIroot. rewrite O, N.
  assert ({| princ_name := Some name; princ_fqans := princ_fqans p |} = p) as ->
    by (destruct p; simpl in *; by subst).
  destruct (Z.land job_flags EDG_WLL_NOTIF_ANONYMIZE =? 0); cbn [negb andb];
  destruct (edg_wll_gss_equal_subj (Some name) (owner stat)); cbn [orb]; try done;
  destruct (equal_mapped (Some name) (owner stat) (az_mapping ctx)); cbn [orb]; try done;
  destruct (edg_wll_gss_equal_subj (Some name) (payload_owner stat)); cbn [orb]; try done;
  destruct (check_authz_policy (az_policy ctx) p ADMIN_ACCESS); cbn [orb]; try done;
  destruct (match acl_read with Some f => f p | None => false end); cbn [orb]; try done;
  destruct (check_authz_policy (az_policy ctx) p READ_ALL); cbn [orb]; try done;
  destruct (check_authz_policy (az_policy ctx) p READ_ANONYMIZED); try done;
  by destruct (check_authz_policy (az_policy ctx) p STATUS_FOR_MONITORING).
Qed.

(** A client that may read anonymised states and asks for them is refused. *)
Theorem anonymized_reader_refused ctx stat job_flags acl_read p name :
  princ_name p = Some name → az_noAuth ctx = false →
  full_access ctx stat acl_read p = false →
  check_authz_policy (az_policy ctx) p READ_ANONYMIZED = true →
  check_authz_policy (az_policy ctx) p STATUS_FOR_MONITORING = false →
  (check_jobstat_authz ctx stat job_flags acl_read (Some p)).1 =
  (Z.land job_flags EDG_WLL_NOTIF_ANONYMIZE =? 0).
Proof.
  intros N O F A M. unfold check_jobstat_authz, edg_wll_amIroot. unfold full_access in F.
  rewrite O, N in *. repeat (apply orb_false_iff in F as [F ?]).
  assert ({| princ_name := Some name; princ_fqans := princ_fqans p |} = p) as ->
    by (destruct p; simpl in *; by subst).
  rewrite F. repeat match goal with H : _ = false |- _ => rewrite H end. rewrite A.
  by destruct (Z.land job_flags EDG_WLL_NOTIF_ANONYMIZE =? 0).
Qed.

(** ** What monitoring reveals *)
Section Monitoring.
Context (ad_ok : string → bool) (ad_get : string → string → option string)
  (ad_unparse : list (string * string) → option string)
  (sha256_hex : string → string) (server_salt : Z + string).

(** The part of a status that is open to monitoring. *)
Record same_public (s t : JobStat) : Prop := {
  sp_state : s.(state) = t.(state);
  sp_jobId : s.(jobId) = t.(jobId);
  sp_jobtype : s.(jobtype) = t.(jobtype);
  sp_destination : s.(destination) = t.(destination);
  sp_network_server : s.(network_server) = t.(network_server);
  sp_enter : s.(stateEnterTime) = t.(stateEnterTime);
  sp_update : s.(lastUpdateTime) = t.(lastUpdateTime);
  sp_times : s.(stateEnterTimes) = t.(stateEnterTimes);
  sp_ui : s.(ui_host) = t.(ui_host);
  sp_jdl : public_jdl ad_ok ad_get ad_unparse s.(jdl) = public_jdl ad_ok ad_get ad_unparse t.(jdl)
}.
#[export] Instance same_public_equivalence : Equivalence same_public.
Proof.
  split.
  - by constructor.
  - intros s t []. by constructor.
  - intros s t u [] []. constructor; congruence.
Qed.

Lemma same_public_blackened s t flags : same_public s t → Z.land flags STATUS_FOR_MONITORING ≠ 0 →
  blacken_fields ad_ok ad_get ad_unparse s flags = blacken_fields ad_ok ad_get ad_unparse t flags.
Proof.
  intros [] F. unfold blacken_fields. rewrite (proj2 (Z.eqb_neq _ _) F).
  rewrite sp_state0, sp_jobId0, sp_jobtype0, sp_destination0, sp_network_server0, sp_enter0,
    sp_update0, sp_times0, sp_ui0, sp_jdl0. reflexivity.
Qed.

#[local] Abbreviation view := (client_status ad_ok ad_get ad_unparse sha256_hex server_salt).

Lemma same_public_acl a b s t : same_public s t →
  same_public (match a with
               | Some a => s <| access_rights := acl_printed a |> <| acl := Some (acl_string a) |>
               | None => s
               end)
              (match b with
               | Some b => t <| access_rights := acl_printed b |> <| acl := Some (acl_string b) |>
               | None => t
               end).
Proof. intros []. destruct a, b; by constructor. Qed.

Lemma same_public_jdl (b : bool) s t : same_public s t →
  same_public (if b then s <| jdl := None |> <| matched_jdl := None |> <| condor_jdl := None |>
                           <| rsl := None |> else s)
              (if b then t <| jdl := None |> <| matched_jdl := None |> <| condor_jdl := None |>
                           <| rsl := None |> else t).
Proof. intros []. destruct b; by constructor. Qed.

(** C34: A client that has only the right to monitoring cannot tell apart two jobs that agree
    in their state, type, times, destination, servers and the public attributes of their
    description, whatever their owners, ACLs and other fields are. *)
Theorem monitoring_noninterference ctx s t job_flags acl_s acl_t peer fl
    (P : same_public s t)
    (As : check_jobstat_authz ctx s job_flags (acl_reads <$> acl_s) peer = (true, fl))
    (At : check_jobstat_authz ctx t job_flags (acl_reads <$> acl_t) peer = (true, fl))
    (M : Z.land fl STATUS_FOR_MONITORING ≠ 0) :
  view ctx s job_flags acl_s peer = view ctx t job_flags acl_t peer.
Proof.
  unfold client_status. rewrite As, At. cbn [negb]. cbv zeta.
  rewrite (proj2 (Z.eqb_neq _ _) M).
  erewrite same_public_blackened; [reflexivity| |done].
  by apply same_public_jdl, same_public_acl.
Qed.
End Monitoring.

(** ** Witnesses *)
Definition demo_princ : GssPrincipal := {| princ_name := Some "/CN=nagios"; princ_fqans := ["/vo"] |}.
Definition demo_authz : authz_ctx := {|
  az_noAuth := false;
  az_policy := Some [{| act_id := STATUS_FOR_MONITORING;
                        act_rules := [[(ATTR_SUBJECT, "/CN=nagios"); (ATTR_FQAN, "/vo")]] |}];
  az_mapping := [] |}.

Lemma status_access_witness :
  check_jobstat_authz demo_authz (edg_wll_InitStatus <| owner := Some "/CN=alice" |>) 0 None
    (Some demo_princ) = (true, STATUS_FOR_MONITORING).
Proof.
  rewrite (status_access demo_authz _ _ _ demo_princ "/CN=nagios"); vm_compute; reflexivity.
Defined.

Lemma monitoring_noninterference_witness :
  let s o := edg_wll_InitStatus <| owner := Some o |> <| location := Some o |> in
  let view := client_status (λ _, false) (λ _ _, None) (λ _, None) (λ s, s) (inl 2) in
  view demo_authz (s "/CN=alice") 0 None (Some demo_princ) =
  view demo_authz (s "/CN=bob") 0 None (Some demo_princ).
Proof.
  cbv zeta. apply (monitoring_noninterference _ _ _ _ _ demo_authz _ _ _ None None _
    STATUS_FOR_MONITORING); [by constructor|vm_compute; reflexivity..|vm_compute; discriminate].
Defined.
