(* ===== verification/Acl.v ===== *)
(** * Access control lists of jobs

    The entries of an ACL and their storage with reference counts in the tables [jobs] and
    [acls]: org.glite.lb.server/src/lb_authz.c.  GridSite's GACL library (adding an entry,
    saving and parsing a list) and MD5 are parameters; a statement of SQL is the function it
    has on the two tables. *)
From Stdlib Require Import ZArith Lia Ascii.
From stdpp Require Import base option list strings gmap numbers.
From S2P Require Import Prelude CLib.
#[local] Open Scope Z_scope.

Definition EINVAL : Z := 22.
Definition EEXIST : Z := 17.

(** ** Entries *)

(** The credential and the permissions. *)
Record GRSTgaclEntry := { e_auri : string; e_allowed : Z; e_denied : Z }.
#[export] Instance entry_eq_dec : EqDecision GRSTgaclEntry.
Proof. solve_decision. Defined.

Inductive acl_permission := EDG_WLL_CHANGEACL_READ | EDG_WLL_CHANGEACL_TAG | PERM_OTHER.
Inductive acl_perm_type := EDG_WLL_CHANGEACL_ALLOW | EDG_WLL_CHANGEACL_DENY | PERM_TYPE_OTHER.
Inductive acl_operation := EDG_WLL_CHANGEACL_ADD | EDG_WLL_CHANGEACL_REMOVE | OP_OTHER.

(** [cmp_gacl_creds] and the permissions *)
Definition same_entry (a b : GRSTgaclEntry) : bool :=
  String.eqb a.(e_auri) b.(e_auri) && (a.(e_allowed) =? b.(e_allowed)) &&
  (a.(e_denied) =? b.(e_denied)).

Section Acl.
(** Constants of GridSite. *)
Context (GRST_PERM_NONE GRST_PERM_READ GRST_PERM_WRITE : Z).
(** [GRSTgaclAclAddEntry] on success. *)
Context (gacl_add : list GRSTgaclEntry → GRSTgaclEntry → list GRSTgaclEntry).
(** [edg_wll_EncodeACL], [edg_wll_DecodeACL], [strmd5]. *)
Context (encode : list GRSTgaclEntry → string) (decode : string → option (list GRSTgaclEntry))
  (strmd5 : string → string).

Definition perm_lb2gacl (p : acl_permission) : Z :=
  match p with
  | EDG_WLL_CHANGEACL_READ => GRST_PERM_READ
  | EDG_WLL_CHANGEACL_TAG => GRST_PERM_WRITE
  | PERM_OTHER => GRST_PERM_NONE
  end.

(** The error, or the new list. *)
Definition addEntry (acl : list GRSTgaclEntry) (entry : GRSTgaclEntry) : Z + list GRSTgaclEntry :=
  if existsb (λ cur, same_entry cur entry) acl then inl EEXIST else inr (gacl_add acl entry).

Fixpoint del_loop (acl : list GRSTgaclEntry) (entry : GRSTgaclEntry) : option (list GRSTgaclEntry) :=
  match acl with
  | [] => None
  | cur :: acl => if same_entry cur entry then Some acl else cons cur <$> del_loop acl entry
  end.
Definition delEntry (acl : list GRSTgaclEntry) (entry : GRSTgaclEntry) : Z + list GRSTgaclEntry :=
  match del_loop acl entry with Some l => inr l | None => inl EINVAL end.

Definition change_acl (acl : list GRSTgaclEntry) (entry : GRSTgaclEntry) (op : acl_operation) :
    Z + list GRSTgaclEntry :=
  match op with
  | EDG_WLL_CHANGEACL_ADD => addEntry acl entry
  | EDG_WLL_CHANGEACL_REMOVE => delEntry acl entry
  | OP_OTHER => inl EINVAL
  end.

(** [edg_wll_change_acl], the credential being made: the entry, if there is one. *)
Definition make_entry (auri : string) (perm : acl_permission) (ty : acl_perm_type) :
    Z + GRSTgaclEntry :=
  let p := perm_lb2gacl perm in
  if p =? GRST_PERM_NONE then inl EINVAL else
  match ty with
  | EDG_WLL_CHANGEACL_ALLOW => inr {| e_auri := auri; e_allowed := p; e_denied := 0 |}
  | EDG_WLL_CHANGEACL_DENY => inr {| e_auri := auri; e_allowed := 0; e_denied := p |}
  | PERM_TYPE_OTHER => inl EINVAL
  end.

Definition edg_wll_change_acl (acl : list GRSTgaclEntry) (auri : string) (perm : acl_permission)
    (ty : acl_perm_type) (op : acl_operation) : Z + list GRSTgaclEntry :=
  match make_entry auri perm ty with
  | inl e => inl e
  | inr entry => change_acl acl entry op
  end.

(** ** The tables *)

(** The ACL of every job (or NULL), the text and the reference count of every ACL. *)
Record tables := {
  jobs : gmap string (option string);
  acls : gmap string (string * Z)
}.
#[export] Instance eta_tables : Eta tables := fun x => {| jobs := jobs x; acls := acls x |}.

(** [edg_wll_HandleCounterACL] with a positive increment: INSERT, or UPDATE of the row that is
    there already. *)
Definition counter_add (db : tables) (aclid value : string) (incr : Z) : tables :=
  match acls db !! aclid with
  | None => db <| acls := <[aclid := (value, incr)]> (acls db) |>
  | Some (v, c) => db <| acls := <[aclid := (v, c + incr)]> (acls db) |>
  end.
(** With a negative one: UPDATE, and DELETE of a row that has got to zero; the identifier NULL is
    printed as text. *)
Definition counter_sub (db : tables) (aclid : option string) (decr : Z) : tables :=
  let aclid := default "(nil)" aclid in
  match acls db !! aclid with
  | Some (v, c) =>
    if decr <=? c then
      if c - decr =? 0 then db <| acls := delete aclid (acls db) |>
      else db <| acls := <[aclid := (v, c - decr)]> (acls db) |>
    else db
  | None => db
  end.

(** [edg_wll_GetACL]: the error, or the text and the entries of the ACL (or none). *)
Definition edg_wll_GetACL (db : tables) (job : string) :
    outcome (Z + option (string * list GRSTgaclEntry)) :=
  match jobs db !! job with
  | None | Some None => Ret (inr None)
  | Some (Some aclid) =>
    if String.eqb aclid "" then Ret (inr None) else
    match acls db !! aclid with
    | None => UB NullDeref                  (* [strlen] of the NULL text *)
    | Some (v, _) =>
      match decode v with
      | None => Ret (inl EINVAL)
      | Some l => Ret (inr (Some (v, l)))
      end
    end
  end.

(** "update jobs set aclid=... where jobid=... and aclid=... (or ISNULL(aclid))": whether a row
    was found (the connection is opened with CLIENT_FOUND_ROWS). *)
Definition swap_acl (db : tables) (job new : string) (old : option string) : bool * tables :=
  match jobs db !! job with
  | Some cur => if bool_decide (cur = old)
                then (true, db <| jobs := <[job := Some new]> (jobs db) |>) else (false, db)
  | None => (false, db)
  end.

(** One turn of [edg_wll_UpdateACL]: done with a code, or once more. *)
Definition update_turn (db : tables) (job auri : string) (perm : acl_permission)
    (ty : acl_perm_type) (op : acl_operation) : outcome (option Z * tables) :=
  let! g := edg_wll_GetACL db job in
  match g with
  | inl e => Ret (Some e, db)
  | inr acl =>
    let old_aclid := strmd5 ∘ fst <$> acl in
    match edg_wll_change_acl (default [] (snd <$> acl)) auri perm ty op with
    | inl e => Ret (Some (if e =? EEXIST then 0 else e), db)
    | inr entries =>
      let text := encode entries in
      let new_aclid := strmd5 text in
      let db := counter_add db new_aclid text 1 in
      let '(updated, db) := swap_acl db job new_aclid old_aclid in
      if updated then Ret (Some 0, counter_sub db old_aclid 1)
      else Ret (None, counter_sub db (Some new_aclid) 1)
    end
  end.

Fixpoint edg_wll_UpdateACL (fuel : nat) (db : tables) (job auri : string) (perm : acl_permission)
    (ty : acl_perm_type) (op : acl_operation) : outcome (Z * tables) :=
  match fuel with
  | O => UB NoFuel
  | S fuel =>
    let! '(r, db) := update_turn db job auri perm ty op in
    match r with Some e => Ret (e, db) | None => edg_wll_UpdateACL fuel db job auri perm ty op end
  end.
End Acl.

(** ** The text of an ACL *)

(** [edg_wll_EncodeACL] after GridSite has saved the list to a file: the lines of the file (at
    most 4095 bytes, without their ends) are put together in a buffer; [buf] is its text,
    [buf_len] its size. *)
Fixpoint encode_lines (buf : string) (buf_len : nat) (lines : list string) : outcome string :=
  match lines with
  | [] => Ret buf
  | line :: lines =>
    let n := (String.length buf + String.length line)%nat in
    let buf_len := if (buf_len <? n)%nat then (buf_len + 1024)%nat else buf_len in
    if (n + 1 <=? buf_len)%nat                                 (* [strcat] with its NUL *)
    then encode_lines (buf +:+ line) buf_len lines else UB OutOfBounds
  end.
Definition edg_wll_EncodeACL (file : list string) : outcome string := encode_lines "" 1024 file.

(** ** Reference counts *)

(** Whether a job has the ACL. *)
Definition one_if (P : Prop) `{Decision P} : Z := if decide P then 1 else 0.
(** The number of jobs that have an ACL. *)
Definition users_of (id : string) (jobs : gmap string (option string)) : Z :=
  map_fold (λ _ x n, one_if (x = Some id) + n) 0 jobs.

Section Counts.
Context (none read write : Z) (gacl_add : list GRSTgaclEntry → GRSTgaclEntry → list GRSTgaclEntry)
  (encode : list GRSTgaclEntry → string) (decode : string → option (list GRSTgaclEntry))
  (strmd5 : string → string).

(** The number of references an ACL is stored with. *)
Definition refcnt (db : tables) (id : string) : Z := default 0 (snd <$> acls db !! id).

(** Every ACL is stored under its digest, with a positive count, and can be parsed. *)
Definition rows_ok (db : tables) : Prop :=
  ∀ id v c, acls db !! id = Some (v, c) → 0 < c ∧ id = strmd5 v ∧ is_Some (decode v).
(** And it is counted as often as jobs have it; so ACLs without a job are not stored. *)
Definition counts_ok (db : tables) : Prop :=
  rows_ok db ∧ ∀ id, refcnt db id = users_of id (jobs db).

(** The text of the ACL of a job. *)
Definition acl_of (db : tables) (job : string) : option string :=
  id ← jobs db !! job; id ← id; fst <$> acls db !! id.

(** The list the job has. *)
Definition entries_of (db : tables) (job : string) : list GRSTgaclEntry :=
  default [] (acl_of db job ≫= decode).

(** The documented behaviour of the parameters: what was saved can be parsed; a digest is not
    one of two particular texts. *)
Record acl_library : Prop := {
  saved_parsed : ∀ l, is_Some (decode (encode l));
  digest_nonempty : ∀ s, strmd5 s ≠ ""%string;
  digest_not_nil : ∀ s, strmd5 s ≠ "(nil)"%string
}.
Lemma tables_ext a b : jobs a = jobs b → acls a = acls b → a = b.
Proof. destruct a, b. cbn. congruence. Qed.

Lemma users_fresh id job x m : m !! job = None →
  users_of id (<[job := x]> m) = one_if (x = Some id) + users_of id m.
Proof. intros N. unfold users_of. rewrite map_fold_insert_L; [done| |done]. lia. Qed.

Lemma users_insert id job cur x m : m !! job = Some cur →
  users_of id (<[job := x]> m) = users_of id m - one_if (cur = Some id) + one_if (x = Some id).
Proof.
  intros S. rewrite <- (insert_delete_id m job cur S) at 2.
  rewrite <- (insert_delete_eq m job x).
  rewrite (users_fresh id job x), (users_fresh id job cur) by apply lookup_delete_eq. lia.
Qed.

Lemma users_nonneg id m : 0 ≤ users_of id m.
Proof.
  induction m as [|job x m N IH] using map_ind; [done|].
  rewrite users_fresh by done. unfold one_if. case_decide; lia.
Qed.

Lemma users_positive id job m : m !! job = Some (Some id) → 0 < users_of id m.
Proof.
  intros S. rewrite <- (insert_delete_id m job (Some id) S).
  rewrite users_fresh by apply lookup_delete_eq. unfold one_if. rewrite decide_True by done.
  pose proof (users_nonneg id (delete job m)). lia.
Qed.

Lemma add_lookup db id v n id' :
  acls (counter_add db id v n) !! id' =
  if decide (id' = id)
  then Some (match acls db !! id with Some (w, c) => (w, c + n) | None => (v, n) end)
  else acls db !! id'.
Proof.
  unfold counter_add. destruct (acls db !! id) as [[w c]|] eqn:E; cbn;
  case_decide as D; subst; rewrite ?lookup_insert_eq, ?lookup_insert_ne by done; done.
Qed.

Lemma sub_lookup db id n w c id' : acls db !! id = Some (w, c) → n ≤ c →
  acls (counter_sub db (Some id) n) !! id' =
  if decide (id' = id) then (if decide (c = n) then None else Some (w, c - n)) else acls db !! id'.
Proof.
  intros E L. unfold counter_sub. cbn. rewrite E, (proj2 (Z.leb_le _ _) L).
  destruct (Z.eqb_spec (c - n) 0) as [Z|Z]; cbn; (case_decide as D; [subst id'|]);
  rewrite ?lookup_insert_eq, ?lookup_insert_ne, ?lookup_delete_eq, ?lookup_delete_ne by done;
  try done; by rewrite ?decide_True, ?decide_False by lia.
Qed.

Lemma sub_none db n : acls db !! "(nil)"%string = None → counter_sub db None n = db.
Proof. intros N. unfold counter_sub. cbn. by rewrite N. Qed.

Lemma add_jobs db id v n : jobs (counter_add db id v n) = jobs db.
Proof. unfold counter_add. by destruct (acls db !! id) as [[w c]|]. Qed.
Lemma sub_jobs db id n : jobs (counter_sub db id n) = jobs db.
Proof.
  unfold counter_sub. cbv zeta. destruct (acls db !! default _ id) as [[w c]|]; [|done].
  by destruct (n <=? c), (c - n =? 0).
Qed.

Lemma add_refcnt db id v n id' :
  refcnt (counter_add db id v n) id' = refcnt db id' + (if decide (id' = id) then n else 0).
Proof.
  unfold refcnt. rewrite add_lookup. case_decide as D; subst; [|cbn; lia].
  by destruct (acls db !! id) as [[w c]|].
Qed.

Lemma sub_refcnt db id n id' : 0 < n ≤ refcnt db id →
  refcnt (counter_sub db (Some id) n) id' = refcnt db id' - (if decide (id' = id) then n else 0).
Proof.
  unfold refcnt. intros L. destruct (acls db !! id) as [[w c]|] eqn:E; cbn in L; [|lia].
  rewrite (sub_lookup db id n w c) by (done || lia).
  case_decide as D; [subst id'; rewrite E; case_decide; cbn; lia | cbn; lia].
Qed.

Lemma add_rows db v n : rows_ok db → is_Some (decode v) → 0 < n →
  rows_ok (counter_add db (strmd5 v) v n).
Proof.
  intros R V N id w c. rewrite add_lookup. case_decide as D; [|by apply R].
  destruct (acls db !! strmd5 v) as [[w' c']|] eqn:E; intros [= <- <-]; subst.
  - destruct (R _ _ _ E) as (? & ? & ?). split_and!; [lia|done..].
  - by split_and!.
Qed.

Lemma sub_rows db id n : 0 < n ≤ refcnt db id → rows_ok db → rows_ok (counter_sub db (Some id) n).
Proof.
  unfold refcnt. intros L R id' w' c'. destruct (acls db !! id) as [[w c]|] eqn:E; cbn in L; [|lia].
  rewrite (sub_lookup db id n w c) by (done || lia). case_decide as D; [subst|by apply R].
  case_decide; [done|]. intros [= <- <-]. destruct (R _ _ _ E) as (? & ? & ?). split_and!; [lia|done..].
Qed.

(** ** Changing an ACL *)

Context (L : acl_library).

Lemma add_sub_id db v n : rows_ok db → 0 < n →
  counter_sub (counter_add db (strmd5 v) v n) (Some (strmd5 v)) n = db.
Proof.
  intros R N. apply tables_ext; [by rewrite sub_jobs, add_jobs|]. apply map_eq. intros i.
  assert (E : acls (counter_add db (strmd5 v) v n) !! strmd5 v =
              Some (match acls db !! strmd5 v with Some (w, c) => (w, c + n) | None => (v, n) end))
    by (by rewrite add_lookup, decide_True).
  destruct (acls db !! strmd5 v) as [[w c]|] eqn:D;
    [destruct (R _ _ _ D) as (? & _); rewrite (sub_lookup _ _ n _ _ i E) by lia
    |rewrite (sub_lookup _ _ n _ _ i E) by lia];
    rewrite add_lookup; (case_decide; [subst; rewrite D|done]); case_decide; try lia; [|done].
  by replace (c + n - n) with c by lia.
Qed.

Lemma job_acl db job id : counts_ok db → jobs db !! job = Some (Some id) →
  ∃ v c, acls db !! id = Some (v, c) ∧ id = strmd5 v ∧ is_Some (decode v).
Proof.
  intros [R C] J. pose proof (users_positive id job _ J) as P. rewrite <- (C id) in P.
  unfold refcnt in P. destruct (acls db !! id) as [[v c]|] eqn:E; cbn in P; [|lia].
  destruct (R _ _ _ E) as (? & ? & ?). eauto.
Qed.

Lemma get_acl db job : counts_ok db →
  edg_wll_GetACL decode db job =
  Ret (inr (v ← acl_of db job; l ← decode v; Some (v, l))) ∧
  (acl_of db job = None → jobs db !! job = None ∨ jobs db !! job = Some None) ∧
  (∀ v, acl_of db job = Some v → jobs db !! job = Some (Some (strmd5 v)) ∧ is_Some (decode v)).
Proof.
  intros C. unfold edg_wll_GetACL, acl_of.
  destruct (jobs db !! job) as [[id|]|] eqn:J; cbn; [|naive_solver..].
  destruct (job_acl db job id C J) as (v & c & E & -> & [l D]).
  rewrite (proj2 (String.eqb_neq _ _) (digest_nonempty L v)), E. cbn. rewrite D. cbn.
  split; [done|]. split; [done|]. intros ? [= <-]. eauto.
Qed.

(** What the second half of a turn does: the new ACL is counted, given to the job and the old
    one is counted down. *)
Lemma turn_swapped db job cur new : counts_ok db → jobs db !! job = Some cur →
  is_Some (decode new) →
  let db1 := counter_add db (strmd5 new) new 1 in
  let db2 := counter_sub (db1 <| jobs := <[job := Some (strmd5 new)]> (jobs db1) |>)
               (strmd5 <$> acl_of db job) 1 in
  swap_acl db1 job (strmd5 new) (strmd5 <$> acl_of db job) =
    (true, db1 <| jobs := <[job := Some (strmd5 new)]> (jobs db1) |>) ∧
  counts_ok db2 ∧ jobs db2 = <[job := Some (strmd5 new)]> (jobs db).
Proof.
  intros C J N. cbv zeta. destruct C as [R C]. pose proof (conj R C : counts_ok db) as C'.
  assert (O : cur = strmd5 <$> acl_of db job).
  { destruct (get_acl db job C') as (_ & A & B). destruct (acl_of db job) as [v|].
    - destruct (B v eq_refl) as [B' _]. cbn. congruence.
    - destruct (A eq_refl); cbn; congruence. }
  unfold swap_acl. rewrite add_jobs, J, bool_decide_eq_true_2 by done. split; [done|].
  pose proof (add_rows db new 1 R N ltac:(lia)) as R1.
  set (db1 := _ <| jobs := _ |>).
  assert (R2 : rows_ok db1) by exact R1.
  assert (U : ∀ i, refcnt db1 i = users_of i (jobs db) + one_if (i = strmd5 new)).
  { intros i. change (refcnt db1 i) with (refcnt (counter_add db (strmd5 new) new 1) i).
    rewrite add_refcnt, C. unfold one_if. by repeat case_decide. }
  assert (V : ∀ i, users_of i (jobs db1) =
    users_of i (jobs db) - one_if (cur = Some i) + one_if (i = strmd5 new)).
  { intros i. unfold db1. cbn. rewrite (users_insert i job cur _ _ J).
    unfold one_if. repeat case_decide; simplify_eq; lia. }
  rewrite sub_jobs. split; [|done].
  rewrite <- O. destruct cur as [id|].
  - assert (P : 0 < 1 ≤ refcnt db1 id).
    { rewrite U. pose proof (users_positive id job _ J). unfold one_if. case_decide; lia. }
    split; [by apply sub_rows|]. intros i. rewrite sub_refcnt, sub_jobs, U, V by done.
    unfold one_if. repeat case_decide; simplify_eq; lia.
  - assert (E : acls db1 !! "(nil)"%string = None).
    { destruct (acls db1 !! "(nil)"%string) as [[w c]|] eqn:E; [|done].
      destruct (R2 _ _ _ E) as (_ & D & _). by destruct (digest_not_nil L w). }
    rewrite sub_none by done. split; [done|]. intros i. rewrite U, V.
    unfold one_if. repeat case_decide; simplify_eq; lia.
Qed.

Lemma turn_spec db job auri perm ty op : counts_ok db →
  update_turn none read write gacl_add encode decode strmd5 db job auri perm ty op =
  match edg_wll_change_acl none read write gacl_add (entries_of db job) auri perm ty op with
  | inl e => Ret (Some (if e =? EEXIST then 0 else e), db)
  | inr l =>
    let new := strmd5 (encode l) in
    let db1 := counter_add db new (encode l) 1 in
    let '(updated, db2) := swap_acl db1 job new (strmd5 <$> acl_of db job) in
    if updated then Ret (Some 0, counter_sub db2 (strmd5 <$> acl_of db job) 1)
    else Ret (None, counter_sub db2 (Some new) 1)
  end.
Proof.
  intros C. unfold update_turn, entries_of. destruct (get_acl db job C) as (-> & A & B). cbn.
  destruct (acl_of db job) as [v|]; cbn.
  - destruct (B v eq_refl) as [_ [l ->]]. cbn. by destruct (edg_wll_change_acl _ _ _ _ l).
  - by destruct (edg_wll_change_acl _ _ _ _ []).
Qed.

(** A job that is not in the table: the turn leaves the tables as they were and asks for
    another one. *)
Lemma turn_unknown db job auri perm ty op l : counts_ok db → jobs db !! job = None →
  edg_wll_change_acl none read write gacl_add [] auri perm ty op = inr l →
  update_turn none read write gacl_add encode decode strmd5 db job auri perm ty op = Ret (None, db).
Proof.
  intros C J E. rewrite (turn_spec db job auri perm ty op C).
  assert (A : acl_of db job = None) by (unfold acl_of; by rewrite J).
  unfold entries_of. rewrite A. cbn. rewrite E. cbv zeta. unfold swap_acl. rewrite add_jobs, J.
  by rewrite (add_sub_id db (encode l) 1 (proj1 C)) by lia.
Qed.

(** So [edg_wll_UpdateACL] never returns for it. *)
Lemma update_acl_diverges fuel db job auri perm ty op l : counts_ok db → jobs db !! job = None →
  edg_wll_change_acl none read write gacl_add [] auri perm ty op = inr l →
  edg_wll_UpdateACL none read write gacl_add encode decode strmd5 fuel db job auri perm ty op =
  UB NoFuel.
Proof.
  intros C J E. induction fuel as [|fuel IH]; [done|]. cbn [edg_wll_UpdateACL].
  by rewrite (turn_unknown db job auri perm ty op l C J E).
Qed.

Lemma sub_text db id n i w c : acls (counter_sub db id n) !! i = Some (w, c) →
  fst <$> acls db !! i = Some w.
Proof.
  unfold counter_sub. cbv zeta. set (k := default _ id).
  destruct (acls db !! k) as [[v m]|] eqn:E; [|by intros ->].
  destruct (n <=? m); [|by intros ->]. destruct (m - n =? 0); cbn; intros F.
  - apply lookup_delete_Some in F as [_ ->]. done.
  - destruct (decide (i = k)) as [->|D]; [|rewrite lookup_insert_ne in F by done; by rewrite F].
    rewrite lookup_insert_eq in F. rewrite E. cbn. congruence.
Qed.

(** The texts of the jobs after a swap: the new one for the job, the others' as before. *)
Lemma swapped_texts db job cur new db2 : counts_ok db → counts_ok db2 →
  jobs db !! job = Some cur → jobs db2 = <[job := Some (strmd5 new)]> (jobs db) →
  (∀ w c, acls db !! strmd5 new = Some (w, c) → w = new) →
  (∀ i w c, acls db2 !! i = Some (w, c) →
     fst <$> acls (counter_add db (strmd5 new) new 1) !! i = Some w) →
  acl_of db2 job = Some new ∧ ∀ other, other ≠ job → acl_of db2 other = acl_of db other.
Proof.
  intros C C2 J J2 F T.
  assert (G : ∀ o i, jobs db2 !! o = Some (Some i) → acl_of db2 o =
                     fst <$> acls (counter_add db (strmd5 new) new 1) !! i).
  { intros o i O. destruct (job_acl db2 o i C2 O) as (v & c & E & _).
    unfold acl_of. rewrite O. cbn. rewrite E. cbn. by rewrite (T _ _ _ E). }
  split.
  - rewrite (G job (strmd5 new)) by (rewrite J2; apply lookup_insert_eq).
    rewrite add_lookup, decide_True by done. destruct (acls db !! strmd5 new) as [[w c]|] eqn:E; cbn.
    + by rewrite (F _ _ eq_refl).
    + done.
  - intros o D. destruct (jobs db !! o) as [[i|]|] eqn:O.
    + rewrite (G o i) by (rewrite J2; by rewrite lookup_insert_ne).
      destruct (job_acl db o i C O) as (v & c & E & _). unfold acl_of. rewrite O. cbn.
      rewrite add_lookup. case_decide as K; [subst i|done].
      by rewrite E.
    + unfold acl_of. rewrite J2, lookup_insert_ne by done. by rewrite O.
    + unfold acl_of. rewrite J2, lookup_insert_ne by done. by rewrite O.
Qed.
End Counts.

Lemma concat_cons s l : String.concat "" (s :: l) = s +:+ String.concat "" l.
Proof. destruct l; [by rewrite app_nil_r_str|done]. Qed.

(** As long as the buffer is large enough it is not touched. *)
Lemma encode_small n lines buf :
  (String.length buf + String.length (String.concat "" lines) < n)%nat →
  encode_lines buf n lines = Ret (buf +:+ String.concat "" lines).
Proof.
  revert buf. induction lines as [|s l IH]; intros buf S; cbn [encode_lines].
  - cbn. by rewrite app_nil_r_str.
  - rewrite concat_cons, length_app_str in S.
    rewrite (proj2 (Nat.ltb_ge _ _)), (proj2 (Nat.leb_le _ _)) by lia.
    rewrite IH by (rewrite length_app_str; lia). by rewrite concat_cons, app_assoc_str.
Qed.

Lemma encode_exact n pre s post buf : s ≠ ""%string →
  (String.length buf + String.length (String.concat "" pre) + String.length s = n)%nat →
  encode_lines buf n (pre ++ s :: post) = UB OutOfBounds.
Proof.
  intros N. revert buf. induction pre as [|t l IH]; intros buf S; cbn [encode_lines app].
  - cbn in S. by rewrite (proj2 (Nat.ltb_ge _ _)), (proj2 (Nat.leb_gt _ _)) by lia.
  - rewrite concat_cons, length_app_str in S.
    assert (0 < String.length s)%nat by (destruct s; cbn; [done|lia]).
    rewrite (proj2 (Nat.ltb_ge _ _)), (proj2 (Nat.leb_le _ _)) by lia.
    apply IH. rewrite length_app_str. lia.
Qed.

(** an access control list whose text has less than 1024 bytes is encoded as its lines one
    after the other; when some of its lines have exactly 1024 bytes together, the terminating
    NUL is written behind the end of the buffer. *)
Theorem acl_encode_bounds :
  (∀ file, (String.length (String.concat "" file) < 1024)%nat →
     edg_wll_EncodeACL file = Ret (String.concat "" file)) ∧
  (∀ lines line rest, line ≠ ""%string →
     (String.length (String.concat "" lines) + String.length line = 1024)%nat →
     edg_wll_EncodeACL (lines ++ line :: rest) = UB OutOfBounds).
Proof.
  split.
  - intros file S. apply (encode_small 1024 file ""). exact S.
  - intros lines line rest N S. apply encode_exact; [done|exact S].
Qed.

(** C37: changing the access control list of a registered job takes one turn of the loop, keeps
    every reference count equal to the number of jobs with that list, gives the job exactly the
    changed list and leaves the lists of the other jobs alone; a change that cannot be made (an
    unknown operation or permission, an entry that is not there) changes nothing, and an entry
    that is there already is success. *)
Theorem acl_updated none read write gacl_add encode decode strmd5 db job cur auri perm ty op fuel
    (L : acl_library encode decode strmd5) (C : counts_ok decode strmd5 db)
    (J : jobs db !! job = Some cur)
    (F : ∀ l w c, acls db !! strmd5 (encode l) = Some (w, c) → w = encode l) :
  let update := edg_wll_UpdateACL none read write gacl_add encode decode strmd5 (S fuel)
                  db job auri perm ty op in
  match edg_wll_change_acl none read write gacl_add (entries_of decode db job) auri perm ty op with
  | inl e => update = Ret (if e =? EEXIST then 0 else e, db)
  | inr l => ∃ db', update = Ret (0, db') ∧ counts_ok decode strmd5 db' ∧
      acl_of db' job = Some (encode l) ∧ ∀ other, other ≠ job → acl_of db' other = acl_of db other
  end.
Proof.
  cbv zeta. cbn [edg_wll_UpdateACL].
  rewrite (turn_spec none read write gacl_add encode decode strmd5 L db job auri perm ty op C).
  destruct (edg_wll_change_acl _ _ _ _ _ _ _ _ _) as [e|l] eqn:E; [done|]. cbv zeta.
  destruct (turn_swapped encode decode strmd5 L db job cur (encode l) C J (saved_parsed _ _ _ L l))
    as (-> & C2 & J2).
  eexists. split; [done|]. split; [done|].
  eapply (swapped_texts decode strmd5 db job cur); [done..| | ].
  - intros w c. apply F.
  - intros i w c T. apply sub_text in T. exact T.
Qed.

Lemma acl_updated_witness :
  let digest s := String "x" s in
  let encode := λ l, match l with [] => "."%string | e :: _ => e_auri e end in
  let decode := λ s, Some [{| e_auri := s; e_allowed := 1; e_denied := 0 |}] in
  let db := {| jobs := <["j"%string := Some "xa"%string]> (<["k"%string := None]> ∅);
               acls := {["xa"%string := ("a"%string, 1)]} |} in
  ∃ db', edg_wll_UpdateACL 0 1 8 (λ l e, e :: l) encode decode digest 1
           db "k" "b" EDG_WLL_CHANGEACL_READ EDG_WLL_CHANGEACL_ALLOW EDG_WLL_CHANGEACL_ADD =
         Ret (0, db') ∧ counts_ok decode digest db' ∧ acl_of db' "k" = Some "b"%string.
Proof.
  intros digest encode decode db.
  destruct (acl_updated 0 1 8 (λ l e, e :: l) encode decode digest db "k" None "b"
    EDG_WLL_CHANGEACL_READ EDG_WLL_CHANGEACL_ALLOW EDG_WLL_CHANGEACL_ADD 0)
    as (db' & E & C & A & _).
  - split; [intros; eexists; reflexivity|discriminate|discriminate].
  - split.
    + intros i v c E. unfold db in E. cbn in E. apply lookup_singleton_Some in E as [<- [= <- <-]].
      split_and!; [lia|reflexivity|eexists; reflexivity].
    + intros i. destruct (decide (i = "xa"%string)) as [->|N]; [vm_compute; reflexivity|].
      unfold refcnt, db. cbn [acls jobs]. rewrite lookup_singleton_ne by congruence. cbn.
      rewrite (users_fresh i "j"), (users_fresh i "k") by reflexivity.
      unfold one_if. rewrite !decide_False by congruence. reflexivity.
  - reflexivity.
  - intros l w c E. unfold db, digest in E. cbn in E.
    apply lookup_singleton_Some in E as [[= <-] [= <- _]]. reflexivity.
  - exists db'. split_and!; assumption.
Defined.
