(* ===== verification/StoreEvent.v ===== *)
(** * The data base of the server and the storing of events

    org.glite.lb.server/src/store.c.T on tables that are finite maps, keyed by their primary keys
    (config/glite-lb-dbsetup.sql): a statement of SQL is the function it has on the tables, its
    only failure being a key that is there already.  The events are stored as a blob
    (LB_EVENTS_BLOB in the Makefile).  GridSite and MD5 are parameters, as is the generated
    [edg_wll_UnparseEvent]. *)
From Stdlib Require Import ZArith Lia Ascii.
From stdpp Require Import base option list strings numbers gmap.
From S2P Require Import Prelude Acl CLib JobId LbTypes Events Gss Authz SeqCode Context.
#[local] Open Scope Z_scope.

(** ** The tables *)
Definition EPERM : Z := 1.
Definition ENOENT : Z := 2.
Definition EDG_WLL_LOG_USER_DEFAULT : string := "anonymous".
Definition EDG_WLL_LOGLFLAG_EXCL : Z := 64.

(** [states]; [row_index] are the columns of the job indices. *)
Record state_row := mkStateRow {
  row_status : Z;
  row_seq : Z;
  row_int_status : string;
  row_version : string;
  row_parent_job : string;
  row_index : list string
}.
#[export] Instance state_row_eta : Eta state_row := fun r =>
  mkStateRow r.(row_status) r.(row_seq) r.(row_int_status) r.(row_version)
    r.(row_parent_job) r.(row_index).

Record job_row := mkJobRow {
  jr_dg_jobid : string;
  jr_userid : string;
  jr_aclid : option string;
  jr_proxy : Z;
  jr_server : Z;
  jr_grey : Z;
  jr_nevents : Z
}.
#[export] Instance job_row_eta : Eta job_row := fun r =>
  mkJobRow r.(jr_dg_jobid) r.(jr_userid) r.(jr_aclid) r.(jr_proxy) r.(jr_server) r.(jr_grey)
    r.(jr_nevents).

(** [events], the key being the job and the number of the event; times in seconds. *)
Record event_row := mkEventRow {
  er_code : Z;
  er_prog : option string;
  er_host : option string;
  er_time : Z;
  er_usec : Z;
  er_arrived : Z;
  er_level : Z;
  er_userid : string;
  er_seqcode : string
}.

Record database := mkDatabase {
  db_jobs : gmap string job_row;
  db_users : gmap string string;
  db_acls : gmap string (string * Z);
  db_events : gmap (string * Z) event_row;
  db_flesh : gmap (string * Z) string;
  db_connections : gmap (string * string) (Z * Z);
  db_zombies : gset string
}.
#[export] Instance database_eta : Eta database := fun d =>
  mkDatabase d.(db_jobs) d.(db_users) d.(db_acls) d.(db_events) d.(db_flesh) d.(db_connections)
    d.(db_zombies).

(** What the code reads of the configuration and of the connection in [ctx]; [cf_srvName] is
    never NULL in a server. *)
Record config := mkConfig {
  isProxy : bool;
  serverRunning : bool;
  cf_srvName : string;
  cf_srvPort : Z;
  cf_noAuth : bool;
  greyjobs : bool;
  async_registrations : bool;
  exclusive_zombies : bool;
  event_load : bool;
  cf_peer : GssPrincipal;
  cf_policy : option authz_policy
}.

Record server := mkServer {
  sv_ctx : Context;
  serverIdentity : option string;
  p_host : option string;
  p_level : Z;
  states : gmap string state_row;
  status_tags : gmap (string * Z * string) (option string);
  sv_db : database;
  sv_conf : config
}.
#[export] Instance server_eta : Eta server := fun r =>
  mkServer r.(sv_ctx) r.(serverIdentity) r.(p_host) r.(p_level) r.(states) r.(status_tags)
    r.(sv_db) r.(sv_conf).

Definition reset_error (sv : server) : server :=
  sv <| sv_ctx := edg_wll_ResetError sv.(sv_ctx) |>.
(** [edg_wll_SetError] with a code that is not 0. *)
Definition set_error (sv : server) (code : Z) (desc : option string) : server :=
  sv <| sv_ctx := sv.(sv_ctx) <| errCode := code |> <| errDesc := desc |> |>.
Definition error_of (sv : server) : Z := sv.(sv_ctx).(errCode).

(** A job identifier in an SQL statement: a NULL is printed as [(nil)]. *)
Definition job_key (j : option JobId) : string := default "(nil)"%string (glite_jobid_getUnique j).

Definition sv_jobs (sv : server) : gmap string job_row := sv.(sv_db).(db_jobs).
Definition set_jobs (sv : server) (m : gmap string job_row) : server :=
  sv <| sv_db := sv.(sv_db) <| db_jobs := m |> |>.

(** "select u.cert_subj from jobs j, users u where j.jobid=... and u.userid=j.userid" *)
Definition job_owner (db : database) (key : string) : option string :=
  r ← db.(db_jobs) !! key; db.(db_users) !! r.(jr_userid).

(** What the code takes from outside: the permissions and the lists of GridSite (adding an entry,
    the text of a list, a credential of a kind with values, the permissions of a user), MD5, and
    the generated printing of events. *)
Class StoreLib := {
  GRST_PERM_NONE : Z;
  GRST_PERM_READ : Z;
  GRST_PERM_WRITE : Z;
  gacl_add : list GRSTgaclEntry → GRSTgaclEntry → list GRSTgaclEntry;
  encode_acl : list GRSTgaclEntry → string;
  decode_acl : string → option (list GRSTgaclEntry);
  gacl_cred : string → list (string * string) → option string;
  gacl_test : list GRSTgaclEntry → GssPrincipal → Z;
  strmd5 : string → string;
  edg_wll_UnparseEvent : Event → string
}.

Section Store.
Context `{StoreLib}.

(** ** ACLs *)
Definition acl_tables (db : database) : tables :=
  {| jobs := jr_aclid <$> db.(db_jobs); acls := db.(db_acls) |}.
Definition set_acl_tables (db : database) (t : tables) : database :=
  db <| db_jobs := map_imap (λ j r, Some (r <| jr_aclid := default r.(jr_aclid) (jobs t !! j) |>))
                     db.(db_jobs) |>
     <| db_acls := acls t |>.

Definition permission_of (p : Z) : acl_permission :=
  if p =? 1 then EDG_WLL_CHANGEACL_READ else if p =? 2 then EDG_WLL_CHANGEACL_TAG else PERM_OTHER.
Definition perm_type_of (t : Z) : acl_perm_type :=
  if t =? 0 then EDG_WLL_CHANGEACL_ALLOW else if t =? 1 then EDG_WLL_CHANGEACL_DENY else PERM_TYPE_OTHER.
Definition operation_of (o : Z) : acl_operation :=
  if o =? 0 then EDG_WLL_CHANGEACL_ADD else if o =? 1 then EDG_WLL_CHANGEACL_REMOVE else OP_OTHER.

Definition EDG_WLL_CHANGEACL_DN : Z := 0.
Definition EDG_WLL_CHANGEACL_GROUP : Z := 1.
Definition EDG_WLL_CHANGEACL_FQAN : Z := 2.

(** The credential, or the code that is returned and whether it is recorded in the context. *)
Definition create_cred (userid : string) (user_type : Z) : (Z * bool) + string :=
  let made c := match c with Some u => inr u | None => inl (-1, false) end in
  if user_type =? EDG_WLL_CHANGEACL_DN then made (gacl_cred "person" [("dn", userid)])
  else if user_type =? EDG_WLL_CHANGEACL_GROUP then
    match strchr userid ":" with
    | None => inl (EINVAL, false)
    | Some group => made (gacl_cred "voms-cred" [("vo", before userid group); ("group", tail1 group)])
    end
  else if user_type =? EDG_WLL_CHANGEACL_FQAN then made (gacl_cred "voms" [("fqan", userid)])
  else inl (EINVAL, true).

(** [edg_wll_UpdateACL] with the error it leaves in the context: that of [delEntry] on an empty
    list is not recorded. *)
Definition update_acl (sv : server) (job : option JobId) (user_id : string)
    (user_id_type permission perm_type operation : Z) : outcome (Z * server) :=
  let sv := reset_error sv in
  let key := job_key job in
  let t := acl_tables sv.(sv_db) in
  let! g := edg_wll_GetACL decode_acl t key in
  match g with
  | inl e => Ret (e, set_error sv e None)
  | inr acl =>
    match create_cred user_id user_id_type with
    | inl (e, recorded) => Ret (e, if recorded : bool then set_error sv e None else sv)
    | inr auri =>
      let! '(ret, t) := edg_wll_UpdateACL GRST_PERM_NONE GRST_PERM_READ GRST_PERM_WRITE gacl_add
        encode_acl decode_acl strmd5 1 t key auri (permission_of permission) (perm_type_of perm_type)
        (operation_of operation) in
      let sv := sv <| sv_db := set_acl_tables sv.(sv_db) t |> in
      let unrecorded := match operation_of operation, acl with
                        | EDG_WLL_CHANGEACL_REMOVE, (None | Some (_, [])) =>
                          match make_entry GRST_PERM_NONE GRST_PERM_READ GRST_PERM_WRITE auri
                                  (permission_of permission) (perm_type_of perm_type) with
                          | inl _ => false
                          | inr _ => true
                          end
                        | _, _ => false
                        end in
      Ret (ret, if (ret =? 0) || unrecorded then sv else set_error sv ret None)
    end
  end.

Definition check_acl (db : database) (e : Event) (p : acl_permission) : outcome bool :=
  let! g := edg_wll_GetACL decode_acl (acl_tables db) (job_key e.(ev_jobId)) in
  match g with
  | inl _ | inr None => Ret false
  | inr (Some (_, l)) =>
    match e.(ev_user) with
    | None => Ret false
    | Some u =>
      let perm := gacl_test l {| princ_name := Some u; princ_fqans := [] |} in
      let p := perm_lb2gacl GRST_PERM_NONE GRST_PERM_READ GRST_PERM_WRITE p in
      Ret (negb (Z.land perm p =? 0))
    end
  end.

(** ** Who may log an event: 0, ENOENT or EPERM *)
Definition is_anonymous (user : option string) : outcome bool :=
  match user with
  | None => UB NullDeref
  | Some u => Ret (String.eqb u EDG_WLL_LOG_USER_DEFAULT)
  end.
Definition by_user (s : edg_wll_Source) : bool :=
  match s with
  | EDG_WLL_SOURCE_USER_INTERFACE | EDG_WLL_SOURCE_LRMS | EDG_WLL_SOURCE_APPLICATION => true
  | _ => false
  end.

Definition check_auth (sv : server) (e : Event) : outcome Z :=
  let db := sv.(sv_db) in
  if negb sv.(sv_conf).(isProxy) && bool_decide (princ_name sv.(sv_conf).(cf_peer) = None)
  then Ret EPERM else
  match job_owner db (job_key e.(ev_jobId)) with
  | None => Ret ENOENT
  | Some owner =>
    if by_user e.(ev_source) then
      if edg_wll_gss_equal_subj (Some owner) e.(ev_user) then Ret 0 else
      let! ok := match e.(ev_body) with
                 | UserTag _ _ => check_acl db e EDG_WLL_CHANGEACL_TAG
                 | TakePayloadOwnership => let! a := is_anonymous e.(ev_user) in Ret (negb a)
                 | _ => Ret false
                 end in
      Ret (if ok : bool then 0 else EPERM)
    else
      let! a := is_anonymous e.(ev_user) in Ret (if a : bool then EPERM else 0)
  end.

(** ** Storing an event *)
Definition lowercase_usertag (e : Event) : outcome Event :=
  match e.(ev_body) with
  | UserTag None _ => UB NullDeref
  | UserTag (Some name) value => Ret (e <| ev_body := UserTag (Some (str_map tolower name)) value |>)
  | _ => Ret e
  end.

(** The row of an event, but for its times of arrival. *)
Definition same_event (userid : string) (e : Event) (r : event_row) : bool :=
  (r.(er_code) =? event_code e.(ev_body)) &&
  bool_decide (r.(er_prog) = edg_wll_SourceToString e.(ev_source)) &&
  bool_decide (r.(er_host) = e.(ev_host)) &&
  (r.(er_time) =? e.(ev_timestamp).(tv_sec)) && (r.(er_usec) =? e.(ev_timestamp).(tv_usec)) &&
  (r.(er_level) =? e.(ev_level)) && String.eqb r.(er_userid) userid &&
  String.eqb r.(er_seqcode) e.(ev_seqcode).
Definition row_of (userid : string) (arrived : Z) (e : Event) : event_row :=
  mkEventRow (event_code e.(ev_body)) (edg_wll_SourceToString e.(ev_source)) e.(ev_host)
    e.(ev_timestamp).(tv_sec) e.(ev_timestamp).(tv_usec) arrived e.(ev_level) userid e.(ev_seqcode).
(** Whether an event of the job has the row already. *)
Definition stored_already (db : database) (key userid : string) (e : Event) : bool :=
  bool_decide (filter (λ '(j, _, r), j = key ∧ same_event userid e r = true) db.(db_events) ≠ ∅).

(** [edg_wll_StoreEvent] at the time [now]: the error, the number of the event, and the event
    with its tag in small letters. *)
Definition edg_wll_StoreEvent (now : Z) (sv : server) (e : Event) (ulm : option string) :
    outcome (Z * Z * server * Event) :=
  let! e := lowercase_usertag e in
  let key := job_key e.(ev_jobId) in
  let sv := reset_error sv in
  let fails code desc := Ret (code, 0, set_error sv code (Some desc), e) in
  let! auth := check_auth sv e in
  if negb (auth =? 0) && negb ((auth =? EPERM) && sv.(sv_conf).(cf_noAuth))
  then fails auth (if auth =? EPERM then "check_auth()"%string else "job not registered"%string) else
  let db := sv.(sv_db) in
  let row := db.(db_jobs) !! key in
  let userid := default "(nil)"%string (jr_userid <$> row) in
  if stored_already db key userid e then fails EEXIST "duplicate event"%string else
  let next := default 0 (jr_nevents <$> row) in
  let arrived := if sv.(sv_conf).(event_load) then e.(ev_arrived).(tv_sec) else now in
  if bool_decide (is_Some (db.(db_events) !! (key, next))) then fails EEXIST ""%string else
  let! nevents := add_int next 1 in
  let db := db <| db_events := <[(key, next) := row_of userid arrived e]> db.(db_events) |>
               <| db_jobs := alter (λ r, r <| jr_nevents := nevents |>) key db.(db_jobs) |> in
  let sv := sv <| sv_db := db |> in
  if bool_decide (is_Some (db.(db_flesh) !! (key, next)))
  then Ret (EEXIST, 0, set_error sv EEXIST (Some ""%string), e) else
  let ulm := default (edg_wll_UnparseEvent e) ulm in
  Ret (0, next, sv <| sv_db := db <| db_flesh := <[(key, next) := ulm]> db.(db_flesh) |> |>, e).

(** ** Registering jobs *)
Definition b2z (b : bool) : Z := if b then 1 else 0.

(** Both columns of [users] are unique; a row that is there already is no error. *)
Definition store_user (db : database) (userid subj : string) : database :=
  if bool_decide (is_Some (db.(db_users) !! userid) ∨ map_Exists (λ _ s, s = subj) db.(db_users))
  then db else db <| db_users := <[userid := subj]> db.(db_users) |>.

(** Whether the job belongs to the server itself. *)
Definition own_job (conf : config) (job : JobId) : bool :=
  conf.(serverRunning) && (conf.(cf_srvPort) =? port_of job) && String.eqb job.(BShost) conf.(cf_srvName).
Definition is_job_local (conf : config) (job : option JobId) : bool :=
  match job with Some j => own_job conf j | None => false end.

Definition store_job (conf : config) (db : database) (job : option JobId) (userid : string)
    (proxy server grey : Z) (update : bool) : Z * database :=
  match job with
  | None => (EINVAL, db)
  | Some j =>
    let '(proxy, server) :=
      if conf.(isProxy) then (1, if own_job conf j then 1 else server) else (proxy, 1) in
    let key := j.(jid_id) in
    if update then
      (0, db <| db_jobs := alter (λ r, r <| jr_userid := userid |> <| jr_proxy := proxy |>
                                         <| jr_server := server |> <| jr_grey := grey |>)
                             key db.(db_jobs) |>)
    else
      let dg_jobid := default ""%string (glite_jobid_unparse job) in
      if bool_decide (is_Some (db.(db_jobs) !! key) ∨
                      map_Exists (λ _ r, r.(jr_dg_jobid) = dg_jobid) db.(db_jobs))
      then (0, db)
      else (0, db <| db_jobs := <[key := mkJobRow dg_jobid userid None proxy server grey 0]>
                                  db.(db_jobs) |>)
  end.

(** The names that end in a newline get the right to read the job. *)
Fixpoint wms_names (fuel : nat) (names : string) : list string :=
  match fuel with
  | O => []
  | S fuel =>
    match strchr names (chr 10) with
    | None => []
    | Some p => before names p :: wms_names fuel (tail1 p)
    end
  end.
Fixpoint allow_names (sv : server) (job : option JobId) (names : list string) : outcome (Z * server) :=
  match names with
  | [] => Ret (0, sv)
  | name :: names =>
    let! '(ret, sv) := update_acl sv job name EDG_WLL_CHANGEACL_DN 1 0 0 in
    if ret =? 0 then allow_names sv job names else Ret (ret, sv)
  end.

(** Whether a job that is not stored may come into being by an event: the error, or whether it
    is a grey job and whether it belongs to the logging component. *)
Definition may_create (sv : server) (e : Event) (key : string) : Z * string + bool * bool :=
  let conf := sv.(sv_conf) in
  let foreign := check_authz_policy conf.(cf_policy) conf.(cf_peer) REGISTER_FOREIGN in
  match e.(ev_body) with
  | RegJob _ =>
    let direct := conf.(isProxy) || edg_wll_gss_equal_subj e.(ev_user) (princ_name conf.(cf_peer)) ||
                  conf.(greyjobs) in
    if negb direct && conf.(async_registrations) && foreign
    then inl (EPERM, "not allowed to register jobs as different user"%string)
    else if negb direct && negb conf.(async_registrations)
    then inl (EPERM, "job registration must go directly"%string)
    else if negb (Z.land e.(ev_priority) EDG_WLL_LOGLFLAG_EXCL =? 0) && conf.(exclusive_zombies) &&
            bool_decide (key ∈ sv.(sv_db).(db_zombies))
    then inl (EEXIST, "Zombie job with given jobid already exists. Rejecting event."%string)
    else inr (false, false)
  | _ =>
    if conf.(greyjobs) then inr (true, false)
    else if conf.(async_registrations) then
      if foreign then inl (EPERM, "not allowed to log events to unregistered job"%string)
      else inr (false, true)
    else inl (ENOENT, "job not registered"%string)
  end.

Definition normalized (subj : option string) : outcome string :=
  match subj with
  | None => UB NullDeref                                     (* [strmd5] of NULL *)
  | Some s => Ret (edg_wll_gss_normalize_subj s)
  end.

Definition REG_JOB_TO_JP : Z := 1.
Definition REG_SUBJOBS_TO_JP : Z := 2.

(** [store_job_server_proxy]: the flags of the registration to the job provenance, and the server
    with its error. *)
Definition create_job (sv : server) (e : Event) (grey async : bool) : outcome (Z * server) :=
  let conf := sv.(sv_conf) in
  let local_job := is_job_local conf e.(ev_jobId) in
  let! name := if grey then Ret "GREY JOB"%string
               else normalized (if async then princ_name conf.(cf_peer) else e.(ev_user)) in
  let userid := strmd5 name in
  let db := store_user sv.(sv_db) userid name in
  let '(err, db) := store_job conf db e.(ev_jobId) userid (b2z conf.(isProxy)) (b2z local_job)
                      (b2z (grey || async)) false in
  let sv := reset_error sv <| sv_db := db |> in
  if negb (err =? 0) then Ret (0, set_error sv err (Some "store_job()"%string)) else
  let! '(ret, sv) :=
    match e.(ev_body) with
    | RegJob b => match b.(rj_wms_dn) with
                  | Some names => allow_names sv e.(ev_jobId) (wms_names (S (String.length names)) names)
                  | None => Ret (0, sv)
                  end
    | _ => Ret (0, sv)
    end in
  Ret (if negb (ret =? 0) then 0 else if local_job then REG_JOB_TO_JP else 0, sv).

Definition late_registration (conf : config) (r : job_row) (e : Event) : bool :=
  (conf.(greyjobs) || conf.(async_registrations)) && (r.(jr_grey) =? 1) &&
  match e.(ev_body) with RegJob _ => true | _ => false end.

Definition existing_job (sv : server) (e : Event) (key : string) (r : job_row) : outcome server :=
  let conf := sv.(sv_conf) in
  if late_registration conf r e then
    let! name := normalized e.(ev_user) in
    let userid := strmd5 name in
    let local := is_job_local conf e.(ev_jobId) in
    let '(err, db) := store_job conf (store_user sv.(sv_db) userid name) e.(ev_jobId) userid
                        (b2z (conf.(isProxy) || (r.(jr_proxy) =? 1)))
                        (b2z ((r.(jr_server) =? 1) || (local && conf.(serverRunning)))) 0 true in
    let sv := reset_error sv <| sv_db := db |> in
    Ret (if err =? 0 then sv else set_error sv err (Some "store_job()"%string))
  else
    let clash :=
      match e.(ev_body) with
      | RegJob _ =>
        if negb (edg_wll_gss_equal_subj e.(ev_user) (job_owner sv.(sv_db) key))
        then Some (EPERM, "Job already registered with different owner. Rejecting event."%string)
        else if negb (Z.land e.(ev_priority) EDG_WLL_LOGLFLAG_EXCL =? 0)
        then Some (EEXIST, "Job with given jobid already exists. Rejecting event."%string)
        else None
      | _ => None
      end in
    match clash with
    | Some (err, desc) => Ret (set_error sv err (Some desc))
    | None =>
      if ((r.(jr_proxy) =? 0) && conf.(isProxy)) || ((r.(jr_server) =? 0) && negb conf.(isProxy))
      then Ret (set_jobs sv (alter (λ r, r <| jr_server := 1 |> <| jr_proxy := 1 |>) key (sv_jobs sv)))
      else Ret sv
    end.

Definition store_job_server_proxy (sv : server) (e : Event) : outcome (Z * server) :=
  let conf := sv.(sv_conf) in
  let key := job_key e.(ev_jobId) in
  if negb conf.(isProxy) && bool_decide (princ_name conf.(cf_peer) = None)
  then Ret (0, set_error sv EPERM
                 (Some "LB server can't store using unauthenticated connection"%string))
  else if conf.(isProxy) && match e.(ev_user) with
                            | None => true
                            | Some u => String.eqb u EDG_WLL_LOG_USER_DEFAULT
                            end
  then Ret (0, set_error sv EPERM
                 (Some "LB proxy can't store using unauthenticated connection"%string))
  else
    match sv_jobs sv !! key with
    | None =>
      match may_create sv e key with
      | inl (err, desc) => Ret (0, set_error sv err (Some desc))
      | inr (grey, async) => create_job sv e grey async
      end
    | Some r => let! sv := existing_job sv e key r in Ret (0, sv)
    end.

(** ** Connections of jobs *)
Definition EDG_WLL_JOBCONNECTION_ACTIVE : Z := 1.
Definition EDG_WLL_JOBCONNECTION_INACTIVE : Z := 2.
Definition EDG_WLL_JOBCONNECTION_CANCELLED : Z := 3.

Definition edg_wll_jobsconnection_create (db : database) (from to : string) (jobtype connection : Z) :
    database :=
  db <| db_connections := <[(from, to) := (jobtype, connection)]> (delete (from, to) db.(db_connections)) |>.
Definition edg_wll_jobsconnection_modify (db : database) (from to : string) (connection : Z) : database :=
  db <| db_connections := alter (λ c, (c.1, connection)) (from, to) db.(db_connections) |>.
Definition edg_wll_jobsconnection_modifyall (db : database) (job : string) (old new : Z) : database :=
  db <| db_connections := map_imap (λ '(from, to) c,
          Some (if (c.2 =? old) && (String.eqb from job || String.eqb to job) then (c.1, new) else c))
        db.(db_connections) |>.
Definition edg_wll_jobsconnection_purgeall (db : database) (job : string) : database :=
  db <| db_connections := filter (λ '((from, to), _), ¬ (from = job ∨ to = job)) db.(db_connections) |>.
End Store.
