(* ===== verification/StoreEventProps.v ===== *)
(** * The log of a job

    The events of a job are numbered from 0 without gaps ([numbered]); [edg_wll_StoreEvent]
    appends an event to the log of its job exactly if the client may log it and no event with
    its row is there, and changes nothing otherwise. *)
From Stdlib Require Import ZArith Lia Ascii.
From stdpp Require Import base option list strings numbers gmap.
From S2P Require Import Prelude Acl CLib JobId LbTypes Events Gss Authz SeqCode Context StoreEvent.
#[local] Open Scope Z_scope.

(** Number [n] is that of an event of the job. *)
Definition in_log (db : database) (j : string) (n : Z) : Prop :=
  ∃ r, db.(db_jobs) !! j = Some r ∧ 0 ≤ n < r.(jr_nevents).
Definition numbered (db : database) : Prop :=
  ∀ j n, (is_Some (db.(db_events) !! (j, n)) ↔ in_log db j n) ∧
         (is_Some (db.(db_flesh) !! (j, n)) ↔ in_log db j n).

(** The events of a job with their texts, in the order in which they have arrived. *)
Definition job_log (db : database) (j : string) : list (event_row * string) :=
  match db.(db_jobs) !! j with
  | None => []
  | Some r => omap (λ n, r ← db.(db_events) !! (j, n); (λ t, (r, t)) <$> db.(db_flesh) !! (j, n))
                   (seqZ 0 r.(jr_nevents))
  end.

(** What an accepted event does to the tables. *)
Definition log_event (db : database) (j : string) (n : Z) (row : event_row) (text : string) : database :=
  db <| db_events := <[(j, n) := row]> db.(db_events) |>
     <| db_jobs := alter (λ r, r <| jr_nevents := n + 1 |>) j db.(db_jobs) |>
     <| db_flesh := <[(j, n) := text]> db.(db_flesh) |>.

(** The event as it is stored: the name of a tag in small letters. *)
Definition stored_form (e : Event) : Event :=
  match e.(ev_body) with
  | UserTag (Some name) value => e <| ev_body := UserTag (Some (str_map tolower name)) value |>
  | _ => e
  end.
(** The fields that the code uses without a test are there. *)
Definition complete (e : Event) : Prop :=
  is_Some e.(ev_user) ∧ match e.(ev_body) with UserTag name _ => is_Some name | _ => True end.

Section Log.
Context `{StoreLib}.

Lemma lowercase_stored e : complete e → lowercase_usertag e = Ret (stored_form e).
Proof.
  intros [_ N]. unfold lowercase_usertag, stored_form. destruct (ev_body e); try done.
  by destruct N as [n ->].
Qed.

Lemma stored_already_log db j r userid e : numbered db → db_jobs db !! j = Some r →
  stored_already db j userid e = existsb (λ x, same_event userid e x.1) (job_log db j).
Proof.
  intros N J. apply eq_true_iff_eq. unfold stored_already. rewrite bool_decide_eq_true, existsb_exists.
  assert (E : ∀ n x, db_events db !! (j, n) = Some x →
    ∃ t, (x, t) ∈ job_log db j).
  { intros n x X. destruct (N j n) as [[I _] [_ F]]. specialize (I ltac:(eauto)).
    destruct (F I) as [t T]. exists t. unfold job_log. rewrite J. apply list_elem_of_omap.
    destruct I as (r' & J' & L). exists n. split; [apply elem_of_seqZ; simplify_eq; lia|].
    rewrite X. cbn. by rewrite T. }
  split.
  - intros X. apply map_choose in X as ([j' n] & x & F). apply map_lookup_filter_Some in F as [L [-> S]].
    destruct (E _ _ L) as [t T]. exists (x, t). split; [by apply list_elem_of_In|done].
  - intros ([x t] & I & S). apply list_elem_of_In in I. unfold job_log in I. rewrite J in I.
    apply list_elem_of_omap in I as (n & _ & M). destruct (db_events db !! (j, n)) as [x'|] eqn:X; [|done].
    cbn in M. destruct (db_flesh db !! (j, n)); [|done]. injection M as -> ->.
    intros Z. assert (filter (λ '(j', _, r), j' = j ∧ same_event userid e r = true) (db_events db) !! (j, n)
      = Some x) as Y by (by apply map_lookup_filter_Some). rewrite Z in Y. done.
Qed.

End Log.

Lemma omap_ext_elem {A B} (f g : A → option B) (l : list A) : (∀ x, x ∈ l → f x = g x) → omap f l = omap g l.
Proof.
  intros E. apply list_omap_ext, Forall_Forall2_diag, Forall_forall. by intros x I; apply E.
Qed.

(** The log is appended to, no other one changes, and the numbering stays without gaps. *)
Lemma log_event_log db j r row text : db_jobs db !! j = Some r → 0 ≤ jr_nevents r →
  job_log (log_event db j (jr_nevents r) row text) j = job_log db j ++ [(row, text)].
Proof.
  intros J L. unfold job_log, log_event. cbn. rewrite lookup_alter_eq, J. cbn.
  replace (jr_nevents r + 1) with (Z.of_nat (S (Z.to_nat (jr_nevents r)))) by lia.
  rewrite seqZ_S, omap_app, Z2Nat.id by done. f_equal.
  - apply omap_ext_elem. intros n I. apply elem_of_seqZ in I.
    rewrite !lookup_insert_ne by (intros [=]; lia). done.
  - cbn. by rewrite !lookup_insert_eq.
Qed.
Lemma log_event_other db j n row text k : k ≠ j → job_log (log_event db j n row text) k = job_log db k.
Proof.
  intros N. unfold job_log, log_event. cbn. rewrite lookup_alter_ne by done.
  destruct (db_jobs db !! k); [|done]. apply omap_ext_elem. intros m _.
  rewrite !lookup_insert_ne by congruence. done.
Qed.
Lemma log_event_in db j r row text k n : db_jobs db !! j = Some r → 0 ≤ jr_nevents r →
  in_log (log_event db j (jr_nevents r) row text) k n ↔ (k, n) = (j, jr_nevents r) ∨ in_log db k n.
Proof.
  intros J L. unfold in_log, log_event. cbn. destruct (decide (k = j)) as [->|D].
  - rewrite lookup_alter_eq, J. cbn. split.
    + intros (r' & [= <-] & I). cbn in I. destruct (decide (n = jr_nevents r)) as [->|]; [by left|].
      right. exists r. split; [done|lia].
    + intros [[= ->]|(r' & [= <-] & I)]; eexists; (split; [done|]); cbn; lia.
  - rewrite lookup_alter_ne by done. split; [by right|]. intros [[=]|]; done.
Qed.
Lemma log_event_numbered db j r row text : numbered db → db_jobs db !! j = Some r → 0 ≤ jr_nevents r →
  numbered (log_event db j (jr_nevents r) row text).
Proof.
  intros N J L k n. rewrite (log_event_in _ _ r) by done. destruct (N k n) as [N1 N2].
  unfold log_event. cbn. destruct (decide ((k, n) = (j, jr_nevents r))) as [E|E].
  - rewrite <- E, !lookup_insert_eq. split; split; eauto.
  - rewrite !lookup_insert_ne by done. rewrite N1, N2. tauto.
Qed.
Lemma numbered_free db j r : numbered db → db_jobs db !! j = Some r →
  db_events db !! (j, jr_nevents r) = None ∧ db_flesh db !! (j, jr_nevents r) = None.
Proof.
  intros N J. destruct (N j (jr_nevents r)) as [N1 N2].
  assert (¬ in_log db j (jr_nevents r)) as F by (intros (r' & J' & L); simplify_eq; lia).
  rewrite !eq_None_not_Some, N1, N2. done.
Qed.

(** ** The verdict on an event *)
Section Verdict.
Context `{StoreLib}.

(** Rejected by [check_auth]. *)
Definition rejected (sv : server) (a : Z) : bool :=
  negb (a =? 0) && negb ((a =? EPERM) && sv.(sv_conf).(cf_noAuth)).
Definition verdict (sv : server) (e : Event) (userid : string) (a : Z) : Z :=
  if rejected sv a then a
  else if existsb (λ x, same_event userid e x.1) (job_log sv.(sv_db) (job_key e.(ev_jobId)))
  then EEXIST else 0.

Lemma check_auth_complete sv e : complete e → ∀ w, check_auth sv e = UB w → w = NullDeref ∧
  check_acl (sv_db sv) e EDG_WLL_CHANGEACL_TAG = UB w.
Proof.
  intros [[u U] _] w. unfold check_auth, is_anonymous. rewrite U.
  destruct (negb _ && _); [done|]. destruct (job_owner _ _); [|done]. destruct (by_user _); [|done].
  destruct (edg_wll_gss_equal_subj _ _); [done|]. destruct (ev_body e); cbn [obind]; try done.
  unfold check_acl, edg_wll_GetACL.
  destruct (jobs _ !! _) as [[aclid|]|]; cbn [obind]; try done.
  destruct (String.eqb aclid ""); cbn [obind]; [done|].
  destruct (acls _ !! _) as [[v c]|]; cbn [obind].
  - destruct (decode_acl v); cbn [obind]; [|done]. by rewrite U.
  - intros [= <-]. done.
Qed.

Lemma store_event_spec now sv e ulm r a : numbered (sv_db sv) → complete e →
  db_jobs (sv_db sv) !! job_key (ev_jobId e) = Some r → 0 ≤ jr_nevents r < INT_MAX →
  check_auth sv (stored_form e) = Ret a →
  let err := verdict sv (stored_form e) (jr_userid r) a in
  ∃ sv', edg_wll_StoreEvent now sv e ulm =
    Ret (err, if err =? 0 then jr_nevents r else 0, sv', stored_form e) ∧ error_of sv' = err ∧
    (err ≠ 0 → ∃ desc, sv' = set_error (reset_error sv) err desc) ∧
    (err = 0 → sv' = reset_error sv <| sv_db := log_event (sv_db sv) (job_key (ev_jobId e)) (jr_nevents r)
       (row_of (jr_userid r)
          (if event_load (sv_conf sv) then tv_sec (ev_arrived e) else now) (stored_form e))
       (default (edg_wll_UnparseEvent (stored_form e)) ulm) |>).
Proof.
  intros N C J L A err. unfold edg_wll_StoreEvent. rewrite lowercase_stored by done. cbn [obind].
  assert (K : ev_jobId (stored_form e) = ev_jobId e).
  { unfold stored_form. destruct (ev_body e) as []; try done. by destruct name. }
  assert (Ar : ev_arrived (stored_form e) = ev_arrived e).
  { unfold stored_form. destruct (ev_body e) as []; try done. by destruct name. }
  assert (AR : check_auth (reset_error sv) (stored_form e) = Ret a) by exact A.
  rewrite AR, K. cbn [obind].
  change (sv_db (reset_error sv)) with (sv_db sv). change (sv_conf (reset_error sv)) with (sv_conf sv).
  subst err. unfold verdict, rejected. rewrite K.
  destruct (negb (a =? 0) && negb ((a =? EPERM) && cf_noAuth (sv_conf sv))) eqn:R.
  { assert (a ≠ 0) as NA by (intros ->; done). rewrite (proj2 (Z.eqb_neq a 0)) by done.
    eexists. split; [reflexivity|]. split; [reflexivity|]. split; [by eexists|done]. }
  rewrite J. cbn [fmap option_fmap option_map default]. change (from_option id _ (Some ?x)) with x.
  rewrite (stored_already_log _ _ r) by done.
  destruct (existsb _ (job_log (sv_db sv) (job_key (ev_jobId e)))) eqn:X.
  { eexists. split; [reflexivity|]. split; [reflexivity|]. split; [by eexists|done]. }
  destruct (numbered_free _ _ _ N J) as [F1 F2]. cbn [default]. change (id (jr_nevents r)) with (jr_nevents r).
  rewrite F1, bool_decide_eq_false_2 by (by intros [? [=]]). 
  unfold add_int. rewrite decide_True by (revert L; unfold is_int, INT_MIN, INT_MAX; lia). cbn [obind].
  match goal with |- context [bool_decide (is_Some (db_flesh ?d !! ?k))] =>
    change (db_flesh d) with (db_flesh (sv_db sv)) end.
  rewrite F2, bool_decide_eq_false_2 by (by intros [? [=]]). rewrite Ar.
  eexists. split; [reflexivity|]. split; [reflexivity|]. split; [done|]. intros _. reflexivity.
Qed.
End Verdict.

(** C9: an event that comes for a registered job is appended to the log of the job, under the next
    number, exactly if the client may log it and no event with the same type, source, host, time,
    level, user and sequence code is there; otherwise no log changes and the error is that of the
    check, or EEXIST.  The events stay numbered without gaps. *)
Theorem event_logged `{StoreLib} now sv e ulm r a (N : numbered (sv_db sv)) (C : complete e)
    (J : db_jobs (sv_db sv) !! job_key (ev_jobId e) = Some r) (L : 0 ≤ jr_nevents r < INT_MAX)
    (A : check_auth sv (stored_form e) = Ret a) :
  let key := job_key (ev_jobId e) in
  let err := verdict sv (stored_form e) (jr_userid r) a in
  ∃ sv', edg_wll_StoreEvent now sv e ulm =
      Ret (err, if err =? 0 then jr_nevents r else 0, sv', stored_form e) ∧
    error_of sv' = err ∧ numbered (sv_db sv') ∧
    job_log (sv_db sv') key = job_log (sv_db sv) key ++
      (if err =? 0
       then [(row_of (jr_userid r)
               (if event_load (sv_conf sv) then tv_sec (ev_arrived e) else now) (stored_form e),
              default (edg_wll_UnparseEvent (stored_form e)) ulm)]
       else []) ∧
    ∀ k, k ≠ key → job_log (sv_db sv') k = job_log (sv_db sv) k.
Proof.
  intros key err. destruct (store_event_spec now sv e ulm r a N C J L A) as (sv' & E & Er & F & T).
  fold err in E, Er, F, T. exists sv'. split; [exact E|]. split; [exact Er|].
  destruct (Z.eqb_spec err 0) as [Z0|Z0].
  - rewrite (T Z0). split; [apply (log_event_numbered _ _ r); [done..|lia]|].
    split; [apply (log_event_log _ _ r); [done|lia]|]. intros k K. by apply log_event_other.
  - destruct (F Z0) as [desc ->]. split; [done|]. split; [by rewrite app_nil_r|done].
Qed.

(** ** Witness: a tag that the owner of a job gives it *)
Definition log_lib : StoreLib := {|
  GRST_PERM_NONE := 0; GRST_PERM_READ := 1; GRST_PERM_WRITE := 4;
  gacl_add l e := app l [e]; encode_acl _ := "<gacl/>"%string; decode_acl _ := Some [];
  gacl_cred kind values := Some (kind +:+ ":" +:+ String.concat "," (snd <$> values))%string;
  gacl_test _ _ := 0; strmd5 s := ("#" +:+ s)%string; edg_wll_UnparseEvent e := ev_seqcode e |}.
Definition log_server : server :=
  mkServer (mkContext (mkSeqCode EDG_WLL_SEQ_NORMAL (replicate EDG_WLL_SOURCE__LAST 0) "")
              EDG_WLL_SOURCE_LB_SERVER 0 None) None (Some "lb"%string) 0 ∅ ∅
    (mkDatabase {["job"%string := mkJobRow "https://lb:9000/job" "#/CN=owner" None 0 1 0 0]}
       {["#/CN=owner"%string := "/CN=owner"%string]} ∅ ∅ ∅ ∅ ∅)
    (mkConfig false true "lb" 9000 false false false false false
       {| princ_name := Some "/CN=owner"%string; princ_fqans := [] |} None).
Definition log_tag : Event :=
  mkEvent (mkTime 1000 5) (mkTime 1001 0) (Some "host"%string) 0 0
    (Some (mkJobId "job" "lb" 9000 None)) "code" (Some "/CN=owner"%string)
    EDG_WLL_SOURCE_USER_INTERFACE None (UserTag (Some "Colour"%string) (Some "red"%string)).

Lemma event_logged_witness :
  let key := "job"%string in
  ∃ sv', @edg_wll_StoreEvent log_lib 2000 log_server log_tag (Some "text"%string) =
      Ret (0, 0, sv', log_tag <| ev_body := UserTag (Some "colour"%string) (Some "red"%string) |>) ∧
    error_of sv' = 0 ∧ numbered (sv_db sv') ∧ length (job_log (sv_db sv') key) = 1%nat ∧
    ∀ k, k ≠ key → job_log (sv_db sv') k = job_log (sv_db log_server) k.
Proof.
  destruct (@event_logged log_lib 2000 log_server log_tag (Some "text"%string)
    (mkJobRow "https://lb:9000/job" "#/CN=owner" None 0 1 0 0) 0) as (sv' & E & Er & N & Lg & O).
  - intros j n. unfold in_log. split; (split; [by intros [x X]|]);
      intros (r & R & L); cbn in R; apply lookup_singleton_Some in R as [_ <-]; cbn in L; lia.
  - split; by eexists.
  - reflexivity.
  - cbn. unfold INT_MAX. lia.
  - vm_compute. reflexivity.
  - exists sv'. split; [exact E|]. split; [exact Er|]. split; [exact N|]. split; [|exact O].
    change (job_log (sv_db sv') "job") with (job_log (sv_db sv') (job_key (ev_jobId log_tag))).
    rewrite Lg. vm_compute. reflexivity.
Defined.
