(* ===== verification/ParentStatus.v ===== *)
(** * The stored status of jobs and of their parents

    The model of the status keeping of org.glite.lb.server/src/jobstat.c and db_store.c:
    the status is loaded from the table [states], stepped by the state machine and stored
    again; a change of a subjob is carried over to the histogram of its parent, and a
    parent whose histogram calls for another state gets a CollectionState event of its
    own.

    The tables [states] and [status_tags] are finite maps; the SQL statements of the code
    become their lookups and updates, and do not fail.  Statistics, notifications and the
    R-GMA export are left out.  The columns of the configured indices are a parameter. *)
From Stdlib Require Import ZArith Lia Ascii.
From stdpp Require Import base option list strings numbers gmap.
From S2P Require Import Prelude Authz StoreEvent CLib JobId LbTypes Events SeqCode Context StateMachine.
From S2P Require Import ProcessCream ProcessFT Gss ProcessGlite GliteCases GliteProps.
From S2P Require Import ProcessEvent IntJobStat.
#[local] Open Scope Z_scope.

Definition EDG_WLL_ERROR_DB_CALL : Z := 1411.
Definition EDG_WLL_LOGFLAG_INTERNAL : Z := 32.
Definition INTSTAT_VERSION : string := "revision 2.11 - payload owner".

(** ** The table of states *)

(** [*stat] is [None] where the code leaves it alone. *)
Definition edg_wll_LoadIntState (sv : server) (jobid : option JobId) (seq : Z) :
    outcome (Z * option intJobStat * server) :=
  let sv := reset_error sv in
  let row :=
    match sv.(states) !! job_key jobid with
    | Some r =>
      if ((seq =? -1) || (r.(row_seq) =? seq)) && String.eqb r.(row_version) INTSTAT_VERSION
      then Some r else None
    | None => None
    end in
  match row with
  | None =>
    let sv := set_error sv ENOENT (Some "no state in DB"%string) in Ret (error_of sv, None, sv)
  | Some r =>
    let! '(stat, rest) := dec_intJobStat r.(row_int_status) in
    let sv := match rest with
              | None => set_error sv EDG_WLL_ERROR_DB_CALL
                          (Some "error decoding DB intJobStatus"%string)
              | Some _ => sv
              end in
    Ret (error_of sv, stat, sv)
  end.

(** Inserting the tags; one that is there already ([EEXIST]) is skipped. *)
Fixpoint insert_tags (sv : server) (jobid : string) (seq : Z) (l : list TagValue) : server :=
  match l with
  | [] => sv
  | t :: l =>
    let key := (jobid, seq, t.(tag)) in
    let sv := match sv.(status_tags) !! key with
              | Some _ => reset_error sv
              | None => sv <| status_tags := <[key := t.(value)]> sv.(status_tags) |>
              end in
    insert_tags sv jobid seq l
  end.

Section Server.
Context `{Stack}.
Context (index_columns : JobStat → list string).
Context `{StoreLib}.

Definition edg_wll_StoreIntState (sv : server) (stat : intJobStat) (seq : Z) :
    outcome (Z * server) :=
  let update := 0 <? seq in
  let jobid := job_key stat.(pub).(jobId) in
  let! stat_enc := enc_intJobStat "" stat in
  let sv := match stat.(pub).(user_tags) with
            | Some l => insert_tags sv jobid seq l
            | None => sv
            end in
  let parent := default "*no parent job*"%string
                  (glite_jobid_getUnique stat.(pub).(parent_job)) in
  let row := mkStateRow stat.(pub).(state) seq stat_enc INTSTAT_VERSION parent
               (index_columns stat.(pub)) in
  let rows := <[jobid := row]> sv.(states) in
  let rows := if update
              then filter (fun '(j, r) => ¬ (j = jobid ∧
                     (r.(row_seq) < seq ∨ r.(row_version) ≠ INTSTAT_VERSION))) rows
              else rows in
  let tags := if update
              then filter (fun '((j, s, _), _) => ¬ (j = jobid ∧ s < seq)) sv.(status_tags)
              else sv.(status_tags) in
  let sv := sv <| states := rows |> <| status_tags := tags |> in
  Ret (error_of sv, sv).

(** The row has to be there. *)
Definition edg_wll_StoreSubjobHistogram (sv : server) (parent_jobid : option JobId)
    (ijs : intJobStat) : outcome (Z * server) :=
  let! stat_enc := enc_intJobStat "" ijs in
  match sv.(states) !! job_key parent_jobid with
  | None => UB AssertFailed
  | Some r =>
    let r := r <| row_status := ijs.(pub).(state) |> <| row_int_status := stat_enc |>
               <| row_version := INTSTAT_VERSION |> in
    let sv := sv <| states := <[job_key parent_jobid := r]> sv.(states) |> in
    Ret (error_of sv, sv)
  end.

(** [hist_to_string]: the loop from the state [i] on, [n] states being left. *)
Fixpoint hist_text (hist : list Z) (i : Z) (n : nat) (s : string) : outcome string :=
  match n with
  | O => Ret s
  | S n =>
    match hist !! Z.to_nat (i + 1) with
    | None => UB OutOfBounds
    | Some v =>
      hist_text hist (i + 1) n
        (asprintf "%s, %s=%d" [PStr (Some s); PStr (edg_wll_StatToString i); PInt v])
    end
  end.
Definition hist_to_string (hist : option (list Z)) : outcome string :=
  match hist with
  | None => UB NullDeref
  | Some h =>
    match h !! 0%nat with
    | None => UB OutOfBounds
    | Some n =>
      if n =? EDG_WLL_NUMBER_OF_STATCODES then
        match h !! 2%nat with
        | None => UB OutOfBounds
        | Some v =>
          hist_text h 2 (Z.to_nat (n - 2))
            (asprintf "%s=%d" [PStr (edg_wll_StatToString 1); PInt v])
        end
      else UB AssertFailed
    end
  end.

(** ** Stepping the status of a parent *)
Definition edg_wll_StepIntStateParent (sv : server) (e : Event) (seq : Z) (ijsp : intJobStat) :
    outcome (Z * server * intJobStat) :=
  let! '(res, ijsp, errstring) := processEvent ijsp e false in
  if (res =? RET_FATAL) || (res =? RET_INTERNAL) then
    let sv := set_error sv EINVAL errstring in Ret (error_of sv, sv, ijsp)
  else
    let! '(_, sv) := edg_wll_StoreIntState sv ijsp seq in
    Ret (error_of sv, sv, ijsp).

Definition db_parent_store (now : Z) (sv : server) (ev : Event) (pis : intJobStat) :
    outcome (Z * server * intJobStat) :=
  let sv := reset_error sv in
  match ev.(ev_user) with
  | None => UB AssertFailed
  | Some _ =>
    let! '(err, seq, sv, ev) := edg_wll_StoreEvent now sv ev None in
    if negb (err =? 0) then Ret (error_of sv, sv, pis)
    else edg_wll_StepIntStateParent sv ev seq pis
  end.

(** [now] is what [gettimeofday] returns. *)
Definition collectionState_event (sv : server) (now : timeval) (code histogram : string)
    (st done : Z) (cis pis : intJobStat) (ce : Event) : Event :=
  {| ev_timestamp := now; ev_arrived := null_timeval; ev_host := sv.(p_host);
     ev_level := sv.(p_level); ev_priority := EDG_WLL_LOGFLAG_INTERNAL;
     ev_jobId := glite_jobid_dup pis.(pub).(jobId); ev_seqcode := code;
     ev_user := Some (default "LBProxy"%string sv.(serverIdentity));
     ev_source := EDG_WLL_SOURCE_LB_SERVER; ev_src_instance := None;
     ev_body := CollectionState
       {| cs_state := edg_wll_StatToString st; cs_done_code := done;
          cs_histogram := Some histogram; cs_child := glite_jobid_dup cis.(pub).(jobId);
          cs_child_event := edg_wll_EventToString (event_code ce.(ev_body)) |} |}.

(** The sequence code of the event: one more than the parent's last one. *)
Definition collection_seqcode (now : timeval) (pis : intJobStat) (ctx : Context) :
    outcome (option string * Context) :=
  let '(err, ctx) :=
    edg_wll_SetSequenceCode now.(tv_sec) ctx pis.(last_seqcode) EDG_WLL_SEQ_NORMAL in
  let ctx := if err =? 0
             then snd (edg_wll_IncSequenceCode (ctx <| p_source := EDG_WLL_SOURCE_LB_SERVER |>))
             else ctx in
  edg_wll_GetSequenceCode ctx.

Definition log_collectionState_event (now : timeval) (st done : Z) (cis pis : intJobStat)
    (ce : Event) (sv : server) : outcome (Z * server * intJobStat) :=
  let! '(code, ctx) := collection_seqcode now pis sv.(sv_ctx) in
  let sv := sv <| sv_ctx := ctx |> in
  let! histogram := hist_to_string pis.(pub).(children_hist) in
  match code with
  | None => UB NullDeref
  | Some code =>
    db_parent_store now.(tv_sec) sv (collectionState_event sv now code histogram st done cis pis ce) pis
  end.

(** ** Subjob classes and histograms *)
Inductive subjobClassCodes :=
| SUBJOB_CLASS_RUNNING
| SUBJOB_CLASS_DONE
| SUBJOB_CLASS_ABORTED
| SUBJOB_CLASS_CLEARED
| SUBJOB_CLASS_REST.

(** [class] *)
Definition subjob_class (stat : JobStat) : subjobClassCodes :=
  let st := stat.(state) in
  if st =? EDG_WLL_JOB_RUNNING then SUBJOB_CLASS_RUNNING
  else if st =? EDG_WLL_JOB_DONE then
    if stat.(done_code) =? EDG_WLL_STAT_OK then SUBJOB_CLASS_DONE else SUBJOB_CLASS_REST
  else if st =? EDG_WLL_JOB_CANCELLED then SUBJOB_CLASS_CLEARED
  else if st =? EDG_WLL_JOB_ABORTED then SUBJOB_CLASS_ABORTED
  else if st =? EDG_WLL_JOB_CLEARED then SUBJOB_CLASS_CLEARED
  else SUBJOB_CLASS_REST.

Definition class_to_statCode (code : subjobClassCodes) : Z :=
  match code with
  | SUBJOB_CLASS_RUNNING => EDG_WLL_JOB_RUNNING
  | SUBJOB_CLASS_DONE => EDG_WLL_JOB_DONE
  | SUBJOB_CLASS_ABORTED => EDG_WLL_JOB_ABORTED
  | SUBJOB_CLASS_CLEARED => EDG_WLL_JOB_CLEARED
  | SUBJOB_CLASS_REST => EDG_WLL_JOB_UNKNOWN
  end.

(** [children_hist[class_to_statCode(code)+1]] *)
Definition class_count (pis : intJobStat) (code : subjobClassCodes) : outcome Z :=
  match pis.(pub).(children_hist) with
  | None => UB NullDeref
  | Some h =>
    match h !! Z.to_nat (class_to_statCode code + 1) with
    | Some v => Ret v
    | None => UB OutOfBounds
    end
  end.
(** [children_hist[class_to_statCode(code)+1] += d], for [++] and [--]. *)
Definition count_class (code : subjobClassCodes) (d : Z) (pis : intJobStat) :
    outcome intJobStat :=
  let! n := class_count pis code in
  let! n := add_int n d in
  let! h := store_int pis.(pub).(children_hist) (class_to_statCode code + 1) n in
  Ret (pis <! children_hist := h !>).

Definition process_Histogram (pis : intJobStat) : outcome Z :=
  let num := pis.(pub).(children_num) in
  let! running := class_count pis SUBJOB_CLASS_RUNNING in
  if 0 <? running then Ret EDG_WLL_JOB_RUNNING else
  let! cleared := class_count pis SUBJOB_CLASS_CLEARED in
  if cleared =? num then Ret EDG_WLL_JOB_CLEARED else
  let! done := class_count pis SUBJOB_CLASS_DONE in
  let! ended := add_int done cleared in
  if ended =? num then Ret EDG_WLL_JOB_DONE else
  let! aborted := class_count pis SUBJOB_CLASS_ABORTED in
  let! ended := add_int aborted done in
  let! ended := add_int ended cleared in
  if ended =? num then Ret EDG_WLL_JOB_ABORTED else Ret EDG_WLL_JOB_WAITING.

Definition process_FT_Histogram (pis : intJobStat) : outcome Z :=
  let num := pis.(pub).(children_num) in
  let! running := class_count pis SUBJOB_CLASS_RUNNING in
  if 0 <? running then Ret EDG_WLL_JOB_RUNNING else
  let! done := class_count pis SUBJOB_CLASS_DONE in
  if done =? num then Ret EDG_WLL_JOB_DONE else
  let! aborted := class_count pis SUBJOB_CLASS_ABORTED in
  let! ended := add_int done aborted in
  if ended =? num then Ret EDG_WLL_JOB_ABORTED else Ret EDG_WLL_JOB_WAITING.

(** ** Carrying a change of a subjob over to its parent *)
#[export] Instance subjobClassCodes_eq_dec : EqDecision subjobClassCodes.
Proof. solve_decision. Defined.

(** The parent is moved if its histogram calls for another state. *)
Definition move_parent (now : timeval) (st : Z) (cis pis : intJobStat) (ce : Event)
    (sv : server) : outcome (server * intJobStat) :=
  if pis.(pub).(state) =? st then Ret (sv, pis)
  else
    let! '(_, sv, pis) := log_collectionState_event now st EDG_WLL_STAT_OK cis pis ce sv in
    Ret (sv, pis).

(** Returns the status of the parent, too, if it was loaded. *)
Definition update_parent_status (now : timeval) (sv : server) (subjob_stat_old : JobStat)
    (cis : intJobStat) (ce : Event) : outcome (Z * server * option intJobStat) :=
  let new := subjob_class cis.(pub) in
  let old := subjob_class subjob_stat_old in
  if decide (old = new) then Ret (error_of sv, sv, None)
  else
    let! '(err, pis, sv) := edg_wll_LoadIntState sv cis.(pub).(parent_job) (-1) in
    if negb (err =? 0) then Ret (error_of sv, sv, pis)
    else
      match pis with
      | None => UB AssertFailed
      | Some pis =>
        let! pis := count_class new 1 pis in
        let! pis := count_class old (-1) pis in
        let! '(_, sv) := edg_wll_StoreSubjobHistogram sv cis.(pub).(parent_job) pis in
        let t := pis.(pub).(jobtype) in
        let! '(sv, pis) :=
          if t =? EDG_WLL_STAT_COLLECTION then
            let! st := process_Histogram pis in move_parent now st cis pis ce sv
          else if t =? EDG_WLL_STAT_FILE_TRANSFER_COLLECTION then
            let! st := process_FT_Histogram pis in move_parent now st cis pis ce sv
          else Ret (sv, pis) in
        Ret (error_of sv, sv, Some pis)
      end.

(** ** Stepping the status of a job *)

(** What becomes of the job: its status is stepped (with the status before), the event is
    refused, or the status cannot be loaded and is computed from all events, by
    [edg_wll_intJobStatus] of the file DbStore. *)
Inductive step_result :=
| Stepped (sv : server) (old new : intJobStat)
| Refused_event (sv : server)
| Recomputed (sv : server).

Definition edg_wll_StepIntState (now : timeval) (sv : server) (job : option JobId) (e : Event)
    (seq : Z) : outcome step_result :=
  let! '(err, ijsp, sv) := edg_wll_LoadIntState sv job (seq - 1) in
  if negb (err =? 0) then Ret (Recomputed sv)
  else
    match ijsp with
    | None => UB NullDeref
    | Some old =>
      let! '(res, new, errstring) := processEvent old e false in
      if (res =? RET_FATAL) || (res =? RET_INTERNAL)
      then Ret (Refused_event (set_error sv EINVAL errstring))
      else
        let! '(_, sv) := edg_wll_StoreIntState sv new seq in
        match new.(pub).(parent_job) with
        | Some _ =>
          if old.(pub).(state) =? new.(pub).(state) then Ret (Stepped sv old new)
          else
            let! '(err, sv, _) := update_parent_status now sv old.(pub) new e in
            if err =? 0 then Ret (Stepped sv old new)
            else Ret (Refused_event (set_error sv EINVAL (Some "update_parent_status()"%string)))
        | None => Ret (Stepped sv old new)
        end
    end.
End Server.
