(* ===== verification/ParentProps.v ===== *)
(** * The stored status of parents: properties

    The histogram of a parent counts its children by class, the state that the histogram
    calls for is a function of the children's states, and a change of a child moves the
    stored parent there. *)
From Stdlib Require Import ZArith Lia Ascii.
From stdpp Require Import base option list strings numbers gmap.
From S2P Require Import Prelude CLib JobId LbTypes Events SeqCode Context StateMachine.
From S2P Require Import ProcessCream ProcessFT Gss ProcessGlite GliteCases GliteProps.
From S2P Require Import ProcessEvent IntJobStat ParentStatus.
#[local] Open Scope Z_scope.

(** ** The abstract view: a parent and the list of its children *)

(** The children of a class. *)
Fixpoint count (c : subjobClassCodes) (kids : list JobStat) : Z :=
  match kids with
  | [] => 0
  | k :: kids => (if decide (subjob_class k = c) then 1 else 0) + count c kids
  end.

(** The histogram counts the children. *)
Definition counts (kids : list JobStat) (pis : intJobStat) : Prop :=
  pis.(pub).(children_num) = Z.of_nat (List.length kids) ∧
  ∃ h, pis.(pub).(children_hist) = Some h ∧
    ∀ c, h !! Z.to_nat (class_to_statCode c + 1) = Some (count c kids).

(** All children are in the classes of [l]. *)
Definition all_in (l : list subjobClassCodes) (kids : list JobStat) : bool :=
  forallb (fun k => bool_decide (subjob_class k ∈ l)) kids.

(** The state of a collection as its children determine it. *)
Definition collection_state (kids : list JobStat) : Z :=
  if existsb (fun k => bool_decide (subjob_class k = SUBJOB_CLASS_RUNNING)) kids
  then EDG_WLL_JOB_RUNNING
  else if all_in [SUBJOB_CLASS_CLEARED] kids then EDG_WLL_JOB_CLEARED
  else if all_in [SUBJOB_CLASS_DONE; SUBJOB_CLASS_CLEARED] kids then EDG_WLL_JOB_DONE
  else if all_in [SUBJOB_CLASS_ABORTED; SUBJOB_CLASS_DONE; SUBJOB_CLASS_CLEARED] kids
       then EDG_WLL_JOB_ABORTED
  else EDG_WLL_JOB_WAITING.

Definition ft_collection_state (kids : list JobStat) : Z :=
  if existsb (fun k => bool_decide (subjob_class k = SUBJOB_CLASS_RUNNING)) kids
  then EDG_WLL_JOB_RUNNING
  else if all_in [SUBJOB_CLASS_DONE] kids then EDG_WLL_JOB_DONE
  else if all_in [SUBJOB_CLASS_DONE; SUBJOB_CLASS_ABORTED] kids then EDG_WLL_JOB_ABORTED
  else EDG_WLL_JOB_WAITING.

Lemma count_range c kids : 0 ≤ count c kids ≤ Z.of_nat (List.length kids).
Proof. induction kids as [|k kids IH]; simpl; [lia |]. destruct (decide _); lia. Qed.

(** The sum of the counts of different classes. *)
Fixpoint count_in (l : list subjobClassCodes) (kids : list JobStat) : Z :=
  match l with [] => 0 | c :: l => count c kids + count_in l kids end.

Lemma count_in_cons l k kids :
  NoDup l →
  count_in l (k :: kids) = (if decide (subjob_class k ∈ l) then 1 else 0) + count_in l kids.
Proof.
  induction 1 as [|c l Hc Hl IH]; [done |]. cbn [count_in count]. rewrite IH.
  destruct (decide (subjob_class k = c)) as [->|Hk].
  - rewrite decide_False by done. rewrite decide_True by apply list_elem_of_here. lia.
  - destruct (decide (subjob_class k ∈ l)) as [Hin|Hin].
    + rewrite decide_True by (by apply list_elem_of_further). lia.
    + rewrite decide_False by (by intros [?|?]%elem_of_cons). lia.
Qed.

Lemma count_in_all l kids :
  NoDup l →
  0 ≤ count_in l kids ≤ Z.of_nat (List.length kids) ∧
  (count_in l kids =? Z.of_nat (List.length kids)) = all_in l kids.
Proof.
  intros Hl. unfold all_in. induction kids as [|k kids [IH1 IH2]].
  - assert (count_in l [] = 0) as -> by (clear Hl; induction l; simpl; lia). simpl. lia.
  - rewrite count_in_cons by done. cbn [forallb List.length]. rewrite <-IH2.
    case_decide as Hd; [rewrite bool_decide_true by done | rewrite bool_decide_false by done];
      simpl; (split; [lia |]).
    + apply eq_true_iff_eq. rewrite !Z.eqb_eq. lia.
    + apply Z.eqb_neq. lia.
Qed.

Lemma count_exists c kids :
  (0 <? count c kids) = existsb (fun k => bool_decide (subjob_class k = c)) kids.
Proof.
  induction kids as [|k kids IH]; [done |]. cbn [count existsb]. rewrite <-IH.
  pose proof (count_range c kids).
  case_decide as Hd; [rewrite bool_decide_true by done | rewrite bool_decide_false by done];
    simpl; [apply Z.ltb_lt; lia | done].
Qed.

Lemma class_count_counts kids pis c : counts kids pis → class_count pis c = Ret (count c kids).
Proof. intros (_ & h & Eh & Hh). unfold class_count. by rewrite Eh, Hh. Qed.

Lemma add_int_ok a b : is_int (a + b) → add_int a b = Ret (a + b).
Proof. intros. unfold add_int. by rewrite decide_True. Qed.

(** ** The state that a histogram calls for *)
Lemma count_in_flat l kids : count_in l kids = foldr (fun c n => count c kids + n) 0 l.
Proof. induction l as [|c l IH]; simpl; congruence. Qed.

Ltac all_classes l kids :=
  let H := fresh in
  assert (NoDup l) as H by (apply (bool_decide_unpack _); by vm_compute);
  pose proof (count_in_all l kids H) as [? ?]; clear H.

Lemma process_Histogram_ok kids pis :
  counts kids pis → is_int (Z.of_nat (List.length kids)) →
  process_Histogram pis = Ret (collection_state kids).
Proof.
  intros Hc Hn. unfold process_Histogram, collection_state.
  rewrite !(class_count_counts kids) by done. destruct Hc as [-> _]. cbn [obind].
  rewrite count_exists. destruct (existsb _ kids); [done |].
  all_classes [SUBJOB_CLASS_CLEARED] kids.
  all_classes [SUBJOB_CLASS_DONE; SUBJOB_CLASS_CLEARED] kids.
  all_classes [SUBJOB_CLASS_ABORTED; SUBJOB_CLASS_DONE; SUBJOB_CLASS_CLEARED] kids.
  pose proof (fun c => count_range c kids) as Hr. cbn [count_in] in *.
  rewrite !Z.add_0_r in *. rewrite Z.add_assoc in *.
  pose proof (Hr SUBJOB_CLASS_ABORTED). pose proof (Hr SUBJOB_CLASS_CLEARED).
  pose proof (Hr SUBJOB_CLASS_DONE).
  assert (∀ z, 0 ≤ z ≤ Z.of_nat (List.length kids) → is_int z) as Hi by (unfold_int; lia).
  rewrite !add_int_ok by (apply Hi; lia). cbn [obind].
  rewrite add_int_ok by (apply Hi; lia). cbn [obind].
  repeat match goal with E : (_ =? _) = all_in _ _ |- _ => rewrite E; clear E end.
  by repeat case_match.
Qed.

(** C11: the histogram determines the state of a collection: for a histogram that counts
    the children, [process_Histogram] computes the state that the definition by the
    children gives: Running if a child runs, Cleared if all are cleared or cancelled, Done
    if the others are done well, Aborted if the others are done or aborted, and Waiting
    otherwise; no sum leaves the range of an [int]. *)
Theorem process_Histogram_spec kids pis :
  counts kids pis → is_int (Z.of_nat (List.length kids)) →
  process_Histogram pis = Ret (collection_state kids).
Proof. apply process_Histogram_ok. Qed.

Lemma process_FT_Histogram_ok kids pis :
  counts kids pis → is_int (Z.of_nat (List.length kids)) →
  process_FT_Histogram pis = Ret (ft_collection_state kids).
Proof.
  intros Hc Hn. unfold process_FT_Histogram, ft_collection_state.
  rewrite !(class_count_counts kids) by done. destruct Hc as [-> _]. cbn [obind].
  rewrite count_exists. destruct (existsb _ kids); [done |].
  all_classes [SUBJOB_CLASS_DONE] kids.
  all_classes [SUBJOB_CLASS_DONE; SUBJOB_CLASS_ABORTED] kids.
  cbn [count_in] in *. rewrite !Z.add_0_r in *.
  rewrite !add_int_ok by (unfold_int; lia). cbn [obind].
  repeat match goal with E : (_ =? _) = all_in _ _ |- _ => rewrite E; clear E end.
  by repeat case_match.
Qed.

(** ** Moving a child from one class to another *)
Lemma count_insert c kids i old new :
  kids !! i = Some old →
  count c (<[i := new]> kids) =
  count c kids - (if decide (subjob_class old = c) then 1 else 0)
               + (if decide (subjob_class new = c) then 1 else 0).
Proof.
  revert i. induction kids as [|k kids IH]; intros [|i]; simpl; try done.
  - intros [= ->]. lia.
  - intros H. rewrite (IH i H). lia.
Qed.

Lemma count_pos c kids i k : kids !! i = Some k → subjob_class k = c → 1 ≤ count c kids.
Proof.
  revert i. induction kids as [|x kids IH]; intros [|i]; simpl; try done.
  - intros [= ->] ->. pose proof (count_range c kids). rewrite decide_True by done. lia.
  - intros H1 H2. specialize (IH i H1 H2). destruct (decide _); lia.
Qed.

Lemma count_room c kids i k :
  kids !! i = Some k → subjob_class k ≠ c → count c kids + 1 ≤ Z.of_nat (List.length kids).
Proof.
  intros Hi Hc. revert i Hi. induction kids as [|x kids IH]; intros [|i]; simpl; try done.
  - intros [= ->]. pose proof (count_range c kids). rewrite decide_False by done. lia.
  - intros H. specialize (IH i H). destruct (decide _); lia.
Qed.

Definition class_index (c : subjobClassCodes) : nat := Z.to_nat (class_to_statCode c + 1).

Lemma class_index_inj c d : class_index c = class_index d → c = d.
Proof. by destruct c, d. Qed.
Lemma class_index_range c : (1 ≤ class_index c ≤ 11)%nat.
Proof. destruct c; split; apply Nat.leb_le; by vm_compute. Qed.

Lemma count_class_ok c d pis h v :
  pis.(pub).(children_hist) = Some h → h !! class_index c = Some v → is_int (v + d) →
  count_class c d pis = Ret (pis <! children_hist := Some (<[class_index c := v + d]> h) !>).
Proof.
  intros Eh Ev Hi. unfold count_class, class_count. rewrite Eh.
  change (Z.to_nat (class_to_statCode c + 1)) with (class_index c). rewrite Ev. cbn [obind].
  rewrite add_int_ok by done. cbn [obind]. unfold store_int.
  apply lookup_lt_Some in Ev as Hl. unfold class_index in *.
  assert (0 ≤ class_to_statCode c) by (by destruct c).
  rewrite (proj2 (Z.leb_le _ _)), (proj2 (Z.ltb_lt _ _)) by lia.
  done.
Qed.

(** The histogram after a child's change, and that it counts the children again. *)
Lemma counts_change kids i old new pis :
  counts kids pis → is_int (Z.of_nat (List.length kids)) → kids !! i = Some old →
  subjob_class old ≠ subjob_class new →
  ∃ h, (let! pis := count_class (subjob_class new) 1 pis in
        count_class (subjob_class old) (-1) pis) = Ret (pis <! children_hist := Some h !>) ∧
    counts (<[i := new]> kids) (pis <! children_hist := Some h !>) ∧
    (counted pis.(pub).(children_hist) → counted (Some h)) ∧
    (opt_ok (Forall is_int) pis.(pub).(children_hist) → Forall is_int h).
Proof.
  intros (Hn & h & Eh & Hh) Hi Hk Hne.
  pose proof (count_room _ _ _ _ Hk Hne) as Hroom.
  pose proof (count_range (subjob_class new) kids) as Hr1.
  pose proof (count_range (subjob_class old) kids) as Hr2.
  pose proof (count_pos _ _ _ _ Hk eq_refl) as Hpos.
  set (h1 := <[class_index (subjob_class new) := count (subjob_class new) kids + 1]> h).
  assert (h1 !! class_index (subjob_class old) = Some (count (subjob_class old) kids)) as E1.
  { unfold h1. rewrite list_lookup_insert_ne; [apply Hh |].
    intros E%class_index_inj. by apply Hne. }
  exists (<[class_index (subjob_class old) := count (subjob_class old) kids + -1]> h1).
  split; [| split; [split |]].
  - rewrite (count_class_ok _ _ _ h (count (subjob_class new) kids));
      [| done | apply Hh | unfold_int; lia].
    cbn [obind].
    rewrite (count_class_ok _ _ _ h1 (count (subjob_class old) kids));
      [| done | done | unfold_int; lia].
    done.
  - by rewrite length_insert.
  - eexists. split; [reflexivity |]. intros c.
    change (Z.to_nat (class_to_statCode c + 1)) with (class_index c).
    rewrite (count_insert _ _ _ _ _ Hk).
    assert (class_index c < List.length h)%nat as Hl
      by (eapply lookup_lt_Some, Hh).
    assert (class_index c < List.length h1)%nat as Hl1 by (unfold h1; by rewrite length_insert).
    destruct (decide (subjob_class old = c)) as [<-|Hc1].
    { rewrite list_lookup_insert_eq by done. f_equal. rewrite decide_False by congruence. lia. }
    rewrite list_lookup_insert_ne by (intros E%class_index_inj; done).
    unfold h1. destruct (decide (subjob_class new = c)) as [<-|Hc2].
    { rewrite list_lookup_insert_eq by done. f_equal. lia. }
    rewrite list_lookup_insert_ne by (intros E%class_index_inj; done).
    transitivity (Some (count c kids)); [apply Hh | f_equal; lia].
  - rewrite Eh. split.
    + intros (l & [= El] & Hl). unfold h1. rewrite El.
      pose proof (class_index_range (subjob_class old)).
      pose proof (class_index_range (subjob_class new)).
      destruct (class_index (subjob_class old)) as [|a]; [lia |].
      destruct (class_index (subjob_class new)) as [|b]; [lia |]. simpl.
      eexists. split; [reflexivity |]. by rewrite !length_insert.
    + simpl. intros Hf. unfold h1.
      apply list.Forall_insert; [apply list.Forall_insert; [done |] |]; unfold_int; lia.
Qed.

(** ** What a CollectionState event makes of the parent *)
Lemma stat_name st :
  valid_state st → ∃ n, edg_wll_StatToString st = Some n ∧ edg_wll_StringToStat n = st.
Proof.
  unfold valid_state, EDG_WLL_JOB_UNDEF, EDG_WLL_NUMBER_OF_STATCODES. intros H.
  assert (st = 0 ∨ st = 1 ∨ st = 2 ∨ st = 3 ∨ st = 4 ∨ st = 5 ∨ st = 6 ∨ st = 7 ∨ st = 8 ∨
          st = 9 ∨ st = 10 ∨ st = 11) as Hst by lia.
  repeat (destruct Hst as [->|Hst]; [eexists; by split |]). subst. eexists. by split.
Qed.

(** The parent after the event [e] moved it to [st]. *)
Definition entered (pis : intJobStat) (st : Z) (e : Event) : intJobStat :=
  pis <! state := st !>
      <! done_code := if st =? EDG_WLL_JOB_DONE then EDG_WLL_STAT_OK
                      else pis.(pub).(done_code) !>
      <! lastUpdateTime := e.(ev_timestamp) !> <! stateEnterTime := e.(ev_timestamp) !>
      <! stateEnterTimes :=
           (fun l => <[Z.to_nat (1 + st) := s32 e.(ev_timestamp).(tv_sec)]> l)
             <$> pis.(pub).(stateEnterTimes) !>
      <| last_seqcode := Some e.(ev_seqcode) |>.
Definition moved_glite (pis : intJobStat) (st : Z) (e : Event) : intJobStat :=
  (entered pis st e)
    <! jw_status := if (st =? EDG_WLL_JOB_WAITING) || (st =? EDG_WLL_JOB_READY) ||
                       (st =? EDG_WLL_JOB_SCHEDULED) then EDG_WLL_STAT_UNKNOWN
                    else pis.(pub).(jw_status) !>
    <! suspended := if st =? EDG_WLL_JOB_RUNNING then pis.(pub).(suspended) else 0 !>
    <! suspend_reason := if st =? EDG_WLL_JOB_RUNNING then pis.(pub).(suspend_reason)
                         else None !>.
Definition moved_ft (pis : intJobStat) (st : Z) (e : Event) : intJobStat :=
  (entered pis st e)
    <! location := Some (default "this is FILE TRANSFER"%string
                           pis.(pub).(location)) !>.

(** The CollectionState events of the server. *)
Definition is_collection_event (e : Event) (st : Z) : Prop :=
  e.(ev_source) = EDG_WLL_SOURCE_LB_SERVER ∧
  ∃ b, e.(ev_body) = CollectionState b ∧ b.(cs_state) = edg_wll_StatToString st ∧
       b.(cs_done_code) = EDG_WLL_STAT_OK.

(** Collections have no resubmissions. *)
Definition no_loops (js : intJobStat) : Prop :=
  js.(deep_resubmit_seqcode) = None ∧ js.(branch_tag_seqcode) = None ∧
  js.(last_branch_seqcode) = None.

Definition not_older `{Stack} (e : Event) (js : intJobStat) : Prop :=
  match js.(last_seqcode) with
  | Some last => 0 ≤ edg_wll_compare_seq e.(ev_seqcode) last
  | None => True
  end.

Lemma update_times_entered old e js st :
  js.(pub).(state) = st → valid_state st → old ≠ st → counted js.(pub).(stateEnterTimes) →
  update_times old e js =
  Ret (js <! lastUpdateTime := e.(ev_timestamp) !> <! stateEnterTime := e.(ev_timestamp) !>
          <! stateEnterTimes :=
               (fun l => <[Z.to_nat (1 + st) := s32 e.(ev_timestamp).(tv_sec)]> l)
                 <$> js.(pub).(stateEnterTimes) !>).
Proof.
  intros Es Hv Hne Ht. unfold update_times. cbv zeta.
  change (state (pub (js <! lastUpdateTime := ev_timestamp e !>))) with (state (pub js)).
  rewrite Es, (proj2 (Z.eqb_neq _ _) Hne). unfold set_enter_time.
  match goal with |- context [store_int ?a ?i ?v] =>
    destruct (store_int_counted a i v) as (a' & -> & _ & ->) end; [exact Ht | | done].
  unfold valid_state, EDG_WLL_JOB_UNDEF, EDG_WLL_NUMBER_OF_STATCODES in *. lia.
Qed.

(** Two answers with job statuses that differ in the order of the updates of [js]. *)
Ltac same_records js :=
  match goal with |- Ret (_, ?a) = Ret (_, ?b) => enough (a = b) as -> by done end;
  let p := fresh in
  destruct js as [p]; destruct p; cbv -[fmap option_fmap Z.eqb orb]; reflexivity.

(** Conditional updates as updates with conditional values. *)
Lemma if_jw_status (c : bool) v js :
  (if c then js <! jw_status := v !> else js) =
  js <! jw_status := if c then v else js.(pub).(jw_status) !>.
Proof. destruct c; [done |]. destruct js as [p]. destruct p. reflexivity. Qed.
Lemma if_suspended (c : bool) js :
  (if c then js else js <! suspended := 0 !> <! suspend_reason := None !>) =
  js <! suspended := if c then js.(pub).(suspended) else 0 !>
     <! suspend_reason := if c then js.(pub).(suspend_reason) else None !>.
Proof. destruct c; [| done]. destruct js as [p]. destruct p. reflexivity. Qed.

(** Recording a state that the event entered. *)
Lemma glite_record_entered l e js st :
  js.(pub).(state) = st → valid_state st → l.(old_state) ≠ st →
  counted js.(pub).(stateEnterTimes) → is_cancel e.(ev_body) = false →
  l.(lm_favour_lrms) = false → l.(ignore_seq_code) = false → l.(fine_res) = RET_OK →
  let js1 := js <! lastUpdateTime := e.(ev_timestamp) !> <! stateEnterTime := e.(ev_timestamp) !>
                <! stateEnterTimes :=
                     (fun l => <[Z.to_nat (1 + st) := s32 e.(ev_timestamp).(tv_sec)]> l)
                       <$> js.(pub).(stateEnterTimes) !> in
  let js2 := js1 <! jw_status := if (st =? EDG_WLL_JOB_WAITING) || (st =? EDG_WLL_JOB_READY) ||
                                    (st =? EDG_WLL_JOB_SCHEDULED) then EDG_WLL_STAT_UNKNOWN
                                 else js1.(pub).(jw_status) !>
                 <| last_seqcode := Some e.(ev_seqcode) |> in
  glite_record l e js =
  Ret (js2 <! suspended := if st =? EDG_WLL_JOB_RUNNING then js2.(pub).(suspended) else 0 !>
           <! suspend_reason := if st =? EDG_WLL_JOB_RUNNING then js2.(pub).(suspend_reason)
                                else None !>).
Proof.
  intros Es Hv Hne Ht Hc Hl Hi Hf js1 js2. unfold glite_record, glite_record_state.
  rewrite (update_times_entered _ _ _ st) by done. cbn [obind]. fold js1.
  assert (state (pub js1) = st) as -> by exact Es. rewrite (proj2 (Z.eqb_neq _ _) Hne).
  cbn [negb andb]. rewrite if_jw_status.
  unfold glite_record_seq. rewrite Hc, Hl, Hi, Hf. cbn [negb].
  change (RET_OK =? RET_GOODBRANCH) with false. cbn iota. fold js2.
  assert (state (pub js2) = st) as -> by exact Es. by rewrite if_suspended.
Qed.

Lemma network_server_other e js :
  e.(ev_source) ≠ EDG_WLL_SOURCE_NETWORK_SERVER → glite_network_server e js = js.
Proof.
  intros. unfold glite_network_server. destruct (network_server _); [done |].
  by destruct (decide _).
Qed.

Lemma collection_event_prologue `{Stack} pis e st :
  is_collection_event e st → no_loops pis → not_older e pis →
  pis.(pub).(state) ≠ EDG_WLL_JOB_CANCELLED → pis.(pub).(state) ≠ EDG_WLL_JOB_CLEARED →
  glite_prologue pis e =
    ({| old_state := pis.(pub).(state); new_state := EDG_WLL_JOB_UNKNOWN; res := RET_OK;
        fine_res := RET_OK; lm_favour_lrms := false; ignore_seq_code := false |}, pis).
Proof.
  intros (Esrc & b & Eb & _) (L1 & L2 & L3) Hold Hn1 Hn2. unfold glite_prologue.
  replace (glite_forget_branches pis e) with pis.
  - unfold glite_order, glite_old_late. rewrite L1, L2, Eb. simpl.
    rewrite andb_false_r, (proj2 (Z.eqb_neq _ _) Hn1), (proj2 (Z.eqb_neq _ _) Hn2). simpl.
    unfold not_older in Hold. destruct (last_seqcode pis); [| done].
    by rewrite (proj2 (Z.ltb_ge _ _) Hold).
  - unfold glite_forget_branches. rewrite Eb. cbn [is_cancel].
    destruct (last_seqcode pis); [| done]. destruct (after_enter_wm _ _); [| done].
    destruct pis. cbn in L1, L2, L3. subst. reflexivity.
Qed.

Lemma collection_event_glite `{Stack} pis e st :
  wf_job pis → is_collection_event e st → valid_state st → no_loops pis → not_older e pis →
  pis.(pub).(state) ≠ EDG_WLL_JOB_CANCELLED → pis.(pub).(state) ≠ EDG_WLL_JOB_CLEARED →
  pis.(pub).(state) ≠ st →
  processEvent_glite pis e false = Ret (RET_OK, moved_glite pis st e).
Proof.
  intros Hwf Hev Hv Hl Hold Hn1 Hn2 Hne.
  pose proof (collection_event_prologue pis e st Hev Hl Hold Hn1 Hn2) as Ep.
  destruct Hev as (Esrc & b & Eb & Est & Edc).
  unfold processEvent_glite. rewrite Ep, Esrc. cbn [is_cream_source obind].
  unfold glite_switch. rewrite Eb. unfold glite_collectionstate.
  destruct (stat_name st Hv) as (n & En & Est'). rewrite Est, En. cbv zeta. rewrite Est'.
  rewrite Edc. cbn [obind]. change (USABLE _ false) with true.
  change (USABLE_DATA _ false) with true. cbn iota.
  replace (if st =? EDG_WLL_JOB_DONE then _ else _) with
    (pis <! state := st !> <! done_code := if st =? EDG_WLL_JOB_DONE then EDG_WLL_STAT_OK
                                           else pis.(pub).(done_code) !>)
    by (destruct pis as [[]], (st =? EDG_WLL_JOB_DONE); reflexivity).
  rewrite (glite_record_entered _ _ _ st) by (done || apply Hwf || by rewrite Eb).
  cbn [obind]. rewrite network_server_other by congruence. unfold moved_glite, entered.
  generalize (if st =? EDG_WLL_JOB_DONE then EDG_WLL_STAT_OK else done_code (pub pis)).
  generalize (fun l : list Z => <[Z.to_nat (1 + st) := s32 (tv_sec (ev_timestamp e))]> l).
  intros f d. clear. same_records pis.
Qed.

Lemma default_location_set text js :
  default_location text js = js <! location := Some (default text js.(pub).(location)) !>.
Proof.
  unfold default_location. destruct (location (pub js)) as [s|] eqn:E; [| done].
  destruct js as [p]. destruct p. cbn in E. subst. reflexivity.
Qed.

Lemma collection_event_ft pis e st :
  wf_job pis → is_collection_event e st → valid_state st → pis.(pub).(state) ≠ st →
  processEvent_FileTransferCollection pis e = Ret (RET_OK, moved_ft pis st e).
Proof.
  intros Hwf (Esrc & b & Eb & Est & Edc) Hv Hne.
  unfold processEvent_FileTransferCollection, ftc_switch. rewrite Eb, Est.
  destruct (stat_name st Hv) as (n & En & Est'). rewrite En. cbv zeta. rewrite Est', Edc.
  cbn [obind].
  replace (if st =? EDG_WLL_JOB_DONE then _ else _) with
    (pis <! state := st !> <! done_code := if st =? EDG_WLL_JOB_DONE then EDG_WLL_STAT_OK
                                           else pis.(pub).(done_code) !>)
    by (destruct pis as [[]], (st =? EDG_WLL_JOB_DONE); reflexivity).
  rewrite (update_times_entered _ _ _ st) by (done || apply Hwf).
  cbn [obind]. rewrite default_location_set. unfold moved_ft, entered.
  generalize (if st =? EDG_WLL_JOB_DONE then EDG_WLL_STAT_OK else done_code (pub pis)).
  generalize (fun l : list Z => <[Z.to_nat (1 + st) := s32 (tv_sec (ev_timestamp e))]> l).
  intros f d. clear. same_records pis.
Qed.

(** ** Witnesses *)
Definition sample_job (u : string) : option JobId := Some (mkJobId u "lb.example.org" 9000 None).

Definition sample_parent : intJobStat :=
  init_intJobStat
    <! state := EDG_WLL_JOB_SUBMITTED !> <! jobId := sample_job "parent" !>
    <! owner := Some "/C=XX/O=Org/CN=user"%string !> <! jobtype := EDG_WLL_STAT_COLLECTION !>
    <! children_num := 2 !> <! children_hist := Some [12; 0; 0; 0; 0; 0; 0; 0; 0; 0; 0; 2; 0] !>
    <| last_seqcode := Some (sample_code 1 1) |>.
Definition sample_child (st : Z) : intJobStat :=
  init_intJobStat <! state := st !> <! parent_job := sample_job "parent" !>.

Lemma process_Histogram_spec_witness :
  process_Histogram sample_parent = Ret EDG_WLL_JOB_WAITING.
Proof.
  apply (process_Histogram_spec
    [pub (sample_child EDG_WLL_JOB_SUBMITTED); pub (sample_child EDG_WLL_JOB_SUBMITTED)]).
  - split; [done |]. eexists. split; [reflexivity |]. by intros [].
  - by apply (bool_decide_unpack _); vm_compute.
Defined.
