(* ===== verification/ParentInv.v ===== *)
(** * The stored status of parents: the invariant

    What is kept in the data base about a collection and its children, and that every
    change of a child keeps it: the stored histogram counts the children, and the stored
    state is the one that the children determine. *)
From Stdlib Require Import ZArith Lia Ascii.
From stdpp Require Import base option list strings numbers gmap.
From S2P Require Import Prelude Authz StoreEvent StoreEventProps CLib JobId LbTypes Events SeqCode Context StateMachine.
From S2P Require Import ProcessCream ProcessFT Gss ProcessGlite GliteCases GliteProps.
From S2P Require Import ProcessEvent IntJobStat ParentStatus ParentProps.
#[local] Open Scope Z_scope.

(** ** What is storable *)

(** The text of the histogram fits, however short the number of the state is. *)
Definition hist_roomy (js : intJobStat) : Prop :=
  (String.length (array_text (default [] js.(pub).(children_hist))) ≤
   2 + String.length (texts item_text (drop 1 (take 7 (JobStat_items js.(pub))))))%nat.

Lemma print_nonneg_length n : 0 ≤ n → (1 ≤ String.length (print_nonneg n))%nat.
Proof.
  intros H. pose proof (print_nonneg_nonempty n H). destruct (print_nonneg n); [done | simpl; lia].
Qed.
Lemma print_int_length z : (1 ≤ String.length (print_int z))%nat.
Proof.
  pose proof (print_int_cons z "") as H. destruct (print_int z); [done | simpl; lia].
Qed.

Lemma hist_roomy_fits js : hist_roomy js → hist_fits js.
Proof.
  unfold hist_roomy, hist_fits. set (rest := drop 1 _). intros H.
  assert (take 7 (JobStat_items (pub js)) = IInt (state (pub js)) :: rest) as -> by reflexivity.
  rewrite texts_cons. cbn [item_text]. unfold int_text. rewrite !length_app_str.
  pose proof (print_int_length (state (pub js))). change (String.length " ") with 1%nat. lia.
Qed.

(** One field of the public part is changed. *)
Lemma storable_set js p' k i :
  storable js → JobStat_items p' = <[k := i]> (JobStat_items js.(pub)) → item_ok i →
  storable (js <| pub := p' |>).
Proof.
  intros [H1 H2] E Hi. split; [| exact H2].
  change (pub (js <| pub := p' |>)) with p'. rewrite E. by apply list.Forall_insert.
Qed.
Lemma storable_last_seqcode js c :
  storable js → str_ok c → storable (js <| last_seqcode := c |>).
Proof.
  intros [H1 H2] Hc. split; [exact H1 |].
  change (intJobStat_items (js <| last_seqcode := c |>)) with
    (<[1%nat := IString c]> (intJobStat_items js)).
  by apply list.Forall_insert.
Qed.
Ltac field k i := intros Hs Hi; refine (storable_set _ _ k i Hs _ Hi); reflexivity.
Lemma storable_state js v : storable js → is_int v → storable (js <! state := v !>).
Proof. field 0%nat (IInt v). Qed.
Lemma storable_children_hist js v : storable js → item_ok (IIntArray v) → storable (js <! children_hist := v !>).
Proof. field 7%nat (IIntArray v). Qed.
Lemma storable_location js v : storable js → str_ok v → storable (js <! location := v !>).
Proof. field 17%nat (IString v). Qed.
Lemma storable_done_code js v : storable js → is_int v → storable (js <! done_code := v !>).
Proof. field 21%nat (IInt v). Qed.
Lemma storable_stateEnterTime js v : storable js → time_ok v → storable (js <! stateEnterTime := v !>).
Proof. field 28%nat (ITimeval v). Qed.
Lemma storable_lastUpdateTime js v : storable js → time_ok v → storable (js <! lastUpdateTime := v !>).
Proof. field 29%nat (ITimeval v). Qed.
Lemma storable_stateEnterTimes js v : storable js → item_ok (IIntlist v) → storable (js <! stateEnterTimes := v !>).
Proof. field 30%nat (IIntlist v). Qed.
Lemma storable_suspended js v : storable js → is_int v → storable (js <! suspended := v !>).
Proof. field 37%nat (IInt v). Qed.
Lemma storable_suspend_reason js v : storable js → str_ok v → storable (js <! suspend_reason := v !>).
Proof. field 38%nat (IString v). Qed.
Lemma storable_jw_status js v : storable js → is_int v → storable (js <! jw_status := v !>).
Proof. field 44%nat (IInt v). Qed.

(** The values of the fields. *)
Lemma storable_at js k i :
  storable js → JobStat_items js.(pub) !! k = Some i → item_ok i.
Proof. intros [H _] E. by eapply (proj1 (Forall_lookup _ _) H). Qed.

Lemma enter_time_storable a st v :
  item_ok (IIntlist a) → counted a → valid_state st → is_int v →
  item_ok (IIntlist ((fun l => <[Z.to_nat (1 + st) := v]> l) <$> a)).
Proof.
  intros Hok (l & -> & Hl) Hv Hi. cbn in Hok |- *.
  destruct Hok as (l' & [= E ->] & Hf & Hlt).
  unfold valid_state, EDG_WLL_JOB_UNDEF, EDG_WLL_NUMBER_OF_STATCODES in *.
  destruct (Z.to_nat (1 + st)) as [|k] eqn:Ek; [lia |]. simpl.
  exists (<[k := v]> l'). rewrite length_insert. split; [by rewrite E |]. split; [| done].
  inversion Hf; subst. constructor; [done |]. by apply list.Forall_insert.
Qed.

Lemma valid_state_int st : valid_state st → is_int st.
Proof. unfold valid_state, EDG_WLL_JOB_UNDEF, EDG_WLL_NUMBER_OF_STATCODES. unfold_int. lia. Qed.

Lemma entered_storable pis st e :
  storable pis → counted pis.(pub).(stateEnterTimes) → valid_state st →
  time_ok e.(ev_timestamp) → str_ok (Some e.(ev_seqcode)) → storable (entered pis st e).
Proof.
  intros Hs Hc Hv Ht Hq. unfold entered. apply storable_last_seqcode; [| done].
  apply storable_stateEnterTimes.
  - apply storable_stateEnterTime; [| done]. apply storable_lastUpdateTime; [| done].
    apply storable_done_code; [apply storable_state; [done | by apply valid_state_int] |].
    destruct (_ =? _); [by apply (bool_decide_unpack _); vm_compute |].
    exact (storable_at pis 21 (IInt _) Hs eq_refl).
  - apply enter_time_storable; [| exact Hc | done | apply s32_is_int].
    exact (storable_at pis 30 (IIntlist _) Hs eq_refl).
Qed.

Lemma moved_glite_storable pis st e :
  storable pis → counted pis.(pub).(stateEnterTimes) → valid_state st →
  time_ok e.(ev_timestamp) → str_ok (Some e.(ev_seqcode)) → storable (moved_glite pis st e).
Proof.
  intros Hs Hc Hv Ht Hq. unfold moved_glite. apply storable_suspend_reason.
  - apply storable_suspended; [apply storable_jw_status; [by apply entered_storable |] |].
    + destruct (_ || _); [by apply (bool_decide_unpack _); vm_compute |].
      exact (storable_at pis 44 (IInt _) Hs eq_refl).
    + destruct (_ =? _); [| by apply (bool_decide_unpack _); vm_compute].
      exact (storable_at pis 37 (IInt _) Hs eq_refl).
  - destruct (_ =? _); [| exact I]. exact (storable_at pis 38 (IString _) Hs eq_refl).
Qed.

Lemma moved_ft_storable pis st e :
  storable pis → counted pis.(pub).(stateEnterTimes) → valid_state st →
  time_ok e.(ev_timestamp) → str_ok (Some e.(ev_seqcode)) → storable (moved_ft pis st e).
Proof.
  intros Hs Hc Hv Ht Hq. unfold moved_ft. apply storable_location; [by apply entered_storable |].
  pose proof (storable_at pis 17 (IString _) Hs eq_refl) as H. cbn in H.
  destruct (location (pub pis)); [exact H | by vm_compute].
Qed.

(** ** What comes back *)
Lemma upto_zero_shape l bs t more :
  l = bs ++ t :: more → t.(branch) = 0 → Forall (fun b => b.(branch) ≠ 0) bs →
  upto_zero l = bs ++ [t].
Proof.
  intros -> Ht. induction 1 as [|b bs Hb Hbs IH]; simpl.
  - by rewrite (proj2 (Z.eqb_eq _ _) Ht).
  - rewrite (proj2 (Z.eqb_neq _ _) Hb). by rewrite IH.
Qed.

Lemma branches_stored b :
  item_ok (IBranches b) → item_ok (IBranches (with_zero <$> b)).
Proof.
  destruct b as [l|]; [| done]. cbn. intros (Hf & bs & t & more & El & Ht & Hbs).
  unfold with_zero. rewrite (upto_zero_shape l bs t more) by done. subst l.
  apply Forall_app in Hf as [Hf1 Hf2]. inversion Hf2; subst. split.
  - rewrite !Forall_app. split; [split; [done | by constructor] |].
    constructor; [| done]. split; [by apply (bool_decide_unpack _); vm_compute | by vm_compute].
  - exists bs, t, [null_branch]. by rewrite <-app_assoc.
Qed.

Lemma hist_stored h :
  item_ok (IIntArray h) → item_ok (IIntArray (without_last <$> h)).
Proof.
  intros (l & -> & Hf & Hl). cbn. exists (without_last l). split; [done |]. unfold without_last.
  split.
  - rewrite Forall_app. split; [by apply Forall_take |].
    constructor; [by apply (bool_decide_unpack _); vm_compute | done].
  - rewrite length_app, length_take, Hl. vm_compute. lia.
Qed.

Lemma stored_storable js : storable js → storable (stored js).
Proof.
  intros [H1 H2].
  assert (item_ok (IIntArray (children_hist (pub js)))) as Hh
    by (by eapply (proj1 (Forall_lookup _ _) H1 7%nat)).
  assert (item_ok (IBranches (branch_states js))) as Hb
    by (by eapply (proj1 (Forall_lookup _ _) H2 6%nat)).
  split.
  - change (JobStat_items (pub (stored js))) with
      (<[7%nat := IIntArray (without_last <$> children_hist (pub js))]> (JobStat_items (pub js))).
    apply list.Forall_insert; [done | by apply hist_stored].
  - change (intJobStat_items (stored js)) with
      (<[6%nat := IBranches (with_zero <$> branch_states js)]> (intJobStat_items js)).
    apply list.Forall_insert; [done | by apply branches_stored].
Qed.

Lemma stored_wf js : wf_job js → storable js → wf_job (stored js).
Proof.
  intros ((Hv & Ht & (l & Eh & Hl) & Hw) & Hb) Hs. split; [split; [exact Hv |] |].
  - split; [exact Ht |]. split; [| exact Hw].
    exists (take 11 l ++ [0]).
    change (children_hist (pub (stored js))) with (without_last <$> children_hist (pub js)).
    rewrite Eh. unfold EDG_WLL_NUMBER_OF_STATCODES in Hl. split; [done |].
    rewrite length_app, length_take. change EDG_WLL_NUMBER_OF_STATCODES with 12.
    cbn [List.length]. lia.
  - change (branch_states (stored js)) with (with_zero <$> branch_states js).
    destruct (branch_states js) as [bs|]; [| done]. cbn. exists null_branch. split; [| done].
    unfold with_zero. apply elem_of_app. right. apply list_elem_of_here.
Qed.

Lemma stored_counts kids js : counts kids js → counts kids (stored js).
Proof.
  intros (Hn & h & Eh & Hh). split; [exact Hn |].
  change (children_hist (pub (stored js))) with (without_last <$> children_hist (pub js)).
  rewrite Eh. eexists. split; [reflexivity |]. intros c. unfold without_last.
  pose proof (class_index_range c) as Hr. unfold class_index in Hr.
  pose proof (Hh c) as Hc. pose proof (lookup_lt_Some _ _ _ Hc).
  rewrite lookup_app_l.
  - rewrite lookup_take_lt; [done |]. change (Z.to_nat EDG_WLL_NUMBER_OF_STATCODES) with 12%nat. lia.
  - rewrite length_take. change (Z.to_nat EDG_WLL_NUMBER_OF_STATCODES) with 12%nat. lia.
Qed.

(** ** The operations on the tables *)

(** A row that holds the status [js]. *)
Definition row_holds (r : state_row) (js : intJobStat) : Prop :=
  r.(row_version) = INTSTAT_VERSION ∧ r.(row_status) = js.(pub).(state) ∧
  dec_intJobStat r.(row_int_status) = Ret (Some js, Some EmptyString).

Lemma load_row sv j r js :
  sv.(states) !! job_key j = Some r → row_holds r js →
  edg_wll_LoadIntState sv j (-1) = Ret (0, Some js, reset_error sv).
Proof.
  intros Er (Ev & _ & Ed). unfold edg_wll_LoadIntState. cbv zeta.
  change (states (reset_error sv)) with (states sv). rewrite Er, Ev, String.eqb_refl.
  cbn [Z.eqb Pos.eqb orb andb]. by rewrite Ed.
Qed.

Lemma enc_holds js :
  storable js → hist_roomy js →
  ∃ text, enc_intJobStat "" js = Ret text ∧
    dec_intJobStat text = Ret (Some (stored js), Some EmptyString).
Proof.
  intros Hs Hr. destruct (store_load js Hs (hist_roomy_fits js Hr)) as (text & E & Hd).
  exists text. split; [done |]. rewrite <-(app_nil_r_str text). apply Hd.
Qed.

Lemma store_histogram sv j r js :
  sv.(states) !! job_key j = Some r → storable js → hist_roomy js →
  ∃ r', edg_wll_StoreSubjobHistogram sv j js =
    Ret (error_of sv, sv <| states := <[job_key j := r']> sv.(states) |>) ∧
    row_holds r' (stored js).
Proof.
  intros Er Hs Hr. destruct (enc_holds js Hs Hr) as (text & E & Hd).
  unfold edg_wll_StoreSubjobHistogram. rewrite E. cbn [obind]. rewrite Er.
  eexists. split; [reflexivity |]. by split.
Qed.

(** The tables of jobs and events, the configuration and the identity are the same. *)
Definition same_db (sv sv' : server) : Prop :=
  sv_db sv' = sv_db sv ∧ sv_conf sv' = sv_conf sv ∧ serverIdentity sv' = serverIdentity sv.

(** What the inserting of tags keeps. *)
Lemma insert_tags_frame sv j seq l :
  error_of sv = 0 →
  let sv' := insert_tags sv j seq l in
  error_of sv' = 0 ∧ states sv' = states sv ∧ p_seqcode (sv_ctx sv') = p_seqcode (sv_ctx sv) ∧
  same_db sv sv'.
Proof.
  revert sv. induction l as [|t l IH]; intros sv He; [done |]. cbn [insert_tags].
  destruct (status_tags sv !! _).
  - destruct (IH (reset_error sv) eq_refl) as (? & ? & ? & ?). done.
  - match goal with |- context [insert_tags ?s] => destruct (IH s He) as (? & ? & ? & ?) end. done.
Qed.

Lemma store_state index sv js seq :
  error_of sv = 0 → storable js → hist_roomy js →
  ∃ sv', edg_wll_StoreIntState index sv js seq = Ret (0, sv') ∧ error_of sv' = 0 ∧
    p_seqcode (sv_ctx sv') = p_seqcode (sv_ctx sv) ∧ same_db sv sv' ∧
    (∃ r, states sv' !! job_key js.(pub).(jobId) = Some r ∧ row_holds r (stored js)) ∧
    ∀ k, k ≠ job_key js.(pub).(jobId) → states sv' !! k = states sv !! k.
Proof.
  intros He Hs Hr. destruct (enc_holds js Hs Hr) as (text & E & Hd).
  unfold edg_wll_StoreIntState. cbv zeta. rewrite E. cbn [obind].
  set (sv1 := match user_tags (pub js) with Some l => _ | None => sv end).
  assert (error_of sv1 = 0 ∧ states sv1 = states sv ∧
          p_seqcode (sv_ctx sv1) = p_seqcode (sv_ctx sv) ∧ same_db sv sv1) as (E1 & E2 & E3 & E4)
    by (unfold sv1; destruct (user_tags (pub js)); [by apply insert_tags_frame | done]).
  clearbody sv1. eexists. rewrite E2. split; [f_equal; f_equal; exact E1 |].
  split; [exact E1 |]. split; [exact E3 |]. split; [exact E4 |]. clear E1 E3 E4.
  set (row := mkStateRow _ _ _ _ _ _). set (key := job_key _).
  match goal with |- context [states (setter status_tags ?t (setter states ?m sv1))] =>
    change (states (setter status_tags t (setter states m sv1))) with m end.
  split.
  - exists row. split; [| by split]. destruct (0 <? seq); [| by rewrite lookup_insert_eq].
    apply map_lookup_filter_Some. split; [by rewrite lookup_insert_eq |].
    cbn. intros [_ [H|H]]; [lia | done].
  - intros k Hk. destruct (0 <? seq); [| by rewrite lookup_insert_ne].
    apply option_eq. intros r. rewrite map_lookup_filter_Some, lookup_insert_ne by done.
    split; [by intros [? _] | intros Er; split; [done | by intros [? _]]].
Qed.

(** ** The event that moves the parent *)
Definition is_collection (js : intJobStat) : Prop :=
  js.(pub).(jobtype) = EDG_WLL_STAT_COLLECTION ∨
  js.(pub).(jobtype) = EDG_WLL_STAT_FILE_TRANSFER_COLLECTION.
Definition moved (pis : intJobStat) (st : Z) (e : Event) : intJobStat :=
  if pis.(pub).(jobtype) =? EDG_WLL_STAT_COLLECTION
  then moved_glite pis st e else moved_ft pis st e.

Lemma collection_event `{Stack} pis e st :
  is_collection pis → wf_job pis → is_collection_event e st → valid_state st → no_loops pis →
  not_older e pis → pis.(pub).(state) ≠ EDG_WLL_JOB_CANCELLED →
  pis.(pub).(state) ≠ EDG_WLL_JOB_CLEARED → pis.(pub).(state) ≠ st →
  processEvent pis e false = Ret (RET_OK, moved pis st e, None).
Proof.
  intros Ht Hwf He Hv Hl Ho H1 H2 H3. unfold processEvent.
  assert (register_jobtype pis e = inl pis) as ->
    by (destruct He as (_ & b & Eb & _); unfold register_jobtype; by rewrite Eb).
  unfold dispatch_event, moved. cbv zeta. destruct Ht as [-> | ->]; cbn [Z.eqb Pos.eqb orb].
  - by rewrite (collection_event_glite pis e st).
  - by rewrite (collection_event_ft pis e st).
Qed.

Lemma entered_counted a st v :
  counted a → valid_state st → counted ((fun l => <[Z.to_nat (1 + st) := v]> l) <$> a).
Proof.
  intros Ha Hv. destruct (store_int_counted a (1 + st) v Ha) as (a' & _ & Ha' & E).
  { unfold valid_state, EDG_WLL_JOB_UNDEF, EDG_WLL_NUMBER_OF_STATCODES in *. lia. }
  by rewrite E in Ha'.
Qed.

(** What the move changes, and what it keeps. *)
Record moves (pis : intJobStat) (st : Z) (e : Event) (js : intJobStat) : Prop := {
  moves_state : js.(pub).(state) = st;
  moves_seqcode : js.(last_seqcode) = Some e.(ev_seqcode);
  moves_jobId : js.(pub).(jobId) = pis.(pub).(jobId);
  moves_jobtype : js.(pub).(jobtype) = pis.(pub).(jobtype);
  moves_num : js.(pub).(children_num) = pis.(pub).(children_num);
  moves_hist : js.(pub).(children_hist) = pis.(pub).(children_hist);
  moves_loops : no_loops pis → no_loops js;
  moves_roomy : hist_roomy pis → hist_roomy js;
  moves_wf : wf_job pis → valid_state st → wf_job js;
  moves_storable : wf_job pis → valid_state st → storable pis → time_ok e.(ev_timestamp) →
    str_ok (Some e.(ev_seqcode)) → storable js
}.

Lemma moved_moves pis st e : moves pis st e (moved pis st e).
Proof.
  unfold moved. destruct (_ =? _); constructor; try reflexivity; try (by intros H; exact H).
  - intros ((Hs & Ht & Hc & Hw) & Hb) Hv. split; [| exact Hb].
    split; [exact Hv |]. split; [exact (entered_counted _ st _ Ht Hv) |]. by split.
  - intros ((_ & Ht & _) & _) Hv Hs Htm Hq. by apply moved_glite_storable.
  - intros ((Hs & Ht & Hc & Hw) & Hb) Hv. split; [| exact Hb].
    split; [exact Hv |]. split; [exact (entered_counted _ st _ Ht Hv) |]. by split.
  - intros ((_ & Ht & _) & _) Hv Hs Htm Hq. by apply moved_ft_storable.
Qed.

(** ** The sequence code of the event *)
Definition LBS_POS : nat := 8.
Definition next_code (c : list Z) : list Z := <[LBS_POS := default 0 (c !! LBS_POS) + 1]> c.

Lemma collection_seqcode_ok now pis ctx c :
  pis.(last_seqcode) = Some (seq_text c) → wf_components c → wf_components (next_code c) →
  List.length ctx.(p_seqcode).(sq_c) = EDG_WLL_SOURCE__LAST →
  ∃ ctx', collection_seqcode now pis ctx = Ret (Some (seq_text (next_code c)), ctx') ∧
    List.length ctx'.(p_seqcode).(sq_c) = EDG_WLL_SOURCE__LAST.
Proof.
  intros Ec Hc Hc' Hl. unfold collection_seqcode, edg_wll_SetSequenceCode. rewrite Ec.
  cbv zeta. change ((EDG_WLL_SEQ_NORMAL =? EDG_WLL_SEQ_CREAM) || _ || _) with true. cbn iota.
  rewrite sscanf_uints_text by done.
  pose proof (Forall2_length _ _ _ Hc) as Hn. change (List.length seq_widths) with 9%nat in Hn.
  rewrite Hn. change (9 =? source_index EDG_WLL_SOURCE_LB_SERVER - 1)%nat with false.
  cbn [negb andb].
  change (negb (9 =? EDG_WLL_SEQ_FORMAT_NUMBER)%nat) with false.
  change (EDG_WLL_SEQ_NORMAL =? EDG_WLL_SEQ_DUPLICATE) with false. cbn iota.
  match goal with |- context [store_values ?x seq_sources c] => set (old := x) end.
  destruct (store_values_vector old c) as [Hv Hvl]; [exact Hl | exact Hn |].
  match goal with |- context [edg_wll_IncSequenceCode ?x] => set (ctx1 := x) end.
  assert (sq_c (p_seqcode ctx1) = store_values old seq_sources c) as E1 by done.
  destruct (inc_vector ctx1 LBS_POS) as [Hi Hat]; [by rewrite E1 | done |].
  assert (seq_vector ctx1 = c) as Evec by (unfold seq_vector; by rewrite E1).
  match goal with |- context [if ?e =? 0 then _ else _] => change (e =? 0) with true end.
  cbn iota. rewrite inc_grid by done. cbn [snd].
  rewrite get_seq_text by done. exists (inc_ctx ctx1). split.
  2: { change (List.length (c_set (sq_c (p_seqcode ctx1)) (p_source ctx1)
                 (u32 (c_at (sq_c (p_seqcode ctx1)) (p_source ctx1) + 1))) = EDG_WLL_SOURCE__LAST).
       unfold c_set. by rewrite length_insert, E1. }
  enough (seq_vector (inc_ctx ctx1) = next_code c) as -> by done.
  rewrite Hi, Evec. unfold next_code. rewrite Evec in Hat. rewrite Hat. f_equal. cbn [default]. unfold id.
  apply u32_id. apply (Forall2_lookup_l _ _ _ LBS_POS (c_at (sq_c (p_seqcode ctx1)) (p_source ctx1) + 1)) in Hc'.
  - destruct Hc' as (w & _ & [[? _] Hint]). unfold_int. lia.
  - unfold next_code. rewrite Hat. apply list_lookup_insert_eq. by eapply lookup_lt_Some.
Qed.

Lemma hist_text_ok h i n s :
  (Z.to_nat (i + 1) + n ≤ List.length h)%nat → 0 ≤ i → defined (hist_text h i n s).
Proof.
  revert i s. induction n as [|n IH]; intros i s Hl Hi; [done |]. cbn [hist_text].
  destruct (lookup_lt_is_Some_2 h (Z.to_nat (i + 1))) as [v ->]; [lia |]. apply IH; lia.
Qed.
Lemma hist_to_string_ok a : counted a → ∃ s, hist_to_string a = Ret s.
Proof.
  intros (l & -> & Hl). unfold hist_to_string. cbn [lookup list_lookup].
  rewrite Z.eqb_refl. unfold EDG_WLL_NUMBER_OF_STATCODES in Hl.
  destruct l as [|x [|y l]]; cbn [List.length] in Hl; [lia | lia |]. cbn [lookup list_lookup].
  match goal with |- ∃ s, hist_text ?h ?i ?n ?t = Ret s =>
    pose proof (hist_text_ok h i n t) as Hd; destruct (hist_text h i n t) as [s|w] end;
    [by exists s |]. destruct Hd; [| lia].
  change (Z.to_nat (EDG_WLL_NUMBER_OF_STATCODES - 2)) with 10%nat.
  change (Z.to_nat (2 + 1)) with 3%nat. cbn [List.length]. lia.
Qed.

(** ** The invariant *)

(** The log of the collection [j] takes the events of the server: its owner is known, the events
    are numbered, and none has a later count of the server than the code [c]. *)
Definition count_of_server (c : list Z) : Z := default 0 (c !! LBS_POS).
Record logged (sv : server) (j : option JobId) (c : list Z) : Prop := {
  lg_numbered : numbered (sv_db sv);
  lg_row : ∃ r, db_jobs (sv_db sv) !! job_key j = Some r ∧ 0 ≤ jr_nevents r ∧
             is_Some (db_users (sv_db sv) !! jr_userid r);
  lg_codes : ∀ x d, x ∈ job_log (sv_db sv) (job_key j) → er_seqcode x.1 = seq_text d →
               wf_components d → count_of_server d ≤ count_of_server c;
  lg_peer : isProxy (sv_conf sv) = true ∨ princ_name (cf_peer (sv_conf sv)) ≠ None;
  lg_identity : serverIdentity sv ≠ Some EDG_WLL_LOG_USER_DEFAULT
}.
Lemma logged_same sv sv' j c : same_db sv sv' → logged sv j c → logged sv' j c.
Proof. intros (E1 & E2 & E3) []. constructor; rewrite ?E1, ?E2, ?E3; done. Qed.
(** One more event can be numbered. *)
Definition log_room (sv : server) (j : option JobId) : Prop :=
  ∀ r, db_jobs (sv_db sv) !! job_key j = Some r → jr_nevents r < INT_MAX.

(** The data base holds the status [pis] of the collection [j], which agrees with its
    children; [c] are the components of its last sequence code. *)
Record parent_inv (kids : list JobStat) (sv : server) (j : option JobId) (pis : intJobStat)
    (c : list Z) : Prop := {
  inv_row : ∃ r, sv.(states) !! job_key j = Some r ∧ row_holds r pis;
  inv_id : job_key pis.(pub).(jobId) = job_key j;
  inv_type : is_collection pis;
  inv_wf : wf_job pis;
  inv_storable : storable pis;
  inv_counts : counts kids pis;
  inv_loops : no_loops pis;
  inv_code : pis.(last_seqcode) = Some (seq_text c);
  inv_components : wf_components c;
  inv_ctx : List.length sv.(sv_ctx).(p_seqcode).(sq_c) = EDG_WLL_SOURCE__LAST;
  inv_log : logged sv j c
}.

(** The same about a status in memory, before it goes through the data base. *)
Record memory_inv (kids : list JobStat) (j : option JobId) (pis : intJobStat) (c : list Z) :
    Prop := {
  mem_id : job_key pis.(pub).(jobId) = job_key j;
  mem_type : is_collection pis;
  mem_wf : wf_job pis;
  mem_storable : storable pis;
  mem_roomy : hist_roomy pis;
  mem_counts : counts kids pis;
  mem_loops : no_loops pis;
  mem_code : pis.(last_seqcode) = Some (seq_text c);
  mem_components : wf_components c
}.

(** The data base holds what is left of the status. *)
Definition holds_at (sv : server) (j : option JobId) (pis : intJobStat) : Prop :=
  ∃ r, sv.(states) !! job_key j = Some r ∧ row_holds r (stored pis).

Lemma memory_parent kids sv j pis c :
  memory_inv kids j pis c → holds_at sv j pis →
  List.length sv.(sv_ctx).(p_seqcode).(sq_c) = EDG_WLL_SOURCE__LAST → logged sv j c →
  parent_inv kids sv j (stored pis) c.
Proof.
  intros [] Hr Hl Hg. constructor; try done.
  - by apply stored_wf.
  - by apply stored_storable.
  - by apply stored_counts.
Qed.

Section Invariant.
Context `{Stack}.
Context (index_columns : JobStat → list string).
Context `{StoreLib}.
#[local] Abbreviation move := (move_parent index_columns).
#[local] Abbreviation update := (update_parent_status index_columns).

Lemma next_count c : wf_components c → count_of_server (next_code c) = count_of_server c + 1.
Proof.
  intros W. apply wf_components_9 in W as (?&?&?&?&?&?&?&?&?&->). done.
Qed.

Lemma seq_text_inj c d : wf_components c → wf_components d → seq_text c = seq_text d → c = d.
Proof.
  intros C D E. pose proof (parse_seq_text c C) as P. rewrite E, parse_seq_text in P by done. congruence.
Qed.

(** An event of the server for the collection is stored. *)
Lemma server_event_stored now sv j c e :
  logged sv j c → log_room sv j → wf_components c → wf_components (next_code c) →
  job_key (ev_jobId e) = job_key j → ev_source e = EDG_WLL_SOURCE_LB_SERVER →
  ev_user e = Some (default "LBProxy"%string (serverIdentity sv)) → (∃ b, ev_body e = CollectionState b) →
  ev_seqcode e = seq_text (next_code c) →
  ∃ seq sv', edg_wll_StoreEvent now sv e None = Ret (0, seq, sv', e) ∧ error_of sv' = 0 ∧
    states sv' = states sv ∧ sv_ctx sv' = sv_ctx (reset_error sv) ∧ logged sv' j (next_code c).
Proof.
  intros [N (r & J & L0 & [owner O]) Cd P I] Rm W W' Kj So U [b B] Sq.
  assert (complete e) as Ce by (split; [by rewrite U | by rewrite B]).
  assert (stored_form e = e) as St by (unfold stored_form; by rewrite B).
  assert (check_auth sv (stored_form e) = Ret 0) as A.
  { rewrite St. unfold check_auth, job_owner, is_anonymous. rewrite Kj, J, So, U. cbn [mbind option_bind].
    rewrite O. rewrite (proj2 (String.eqb_neq _ _)); [|destruct (serverIdentity sv); cbn; [congruence|done]].
    destruct P as [-> | P]; [done|]. by rewrite bool_decide_eq_false_2, andb_false_r. }
  assert (existsb (λ x, same_event (jr_userid r) e x.1) (job_log (sv_db sv) (job_key j)) = false) as X.
  { apply not_true_is_false. rewrite existsb_exists. intros (x & M & S). apply list_elem_of_In in M.
    unfold same_event in S. apply andb_prop in S as [_ S]. apply String.eqb_eq in S. rewrite Sq in S.
    pose proof (Cd x _ M S W'). pose proof (next_count c W). lia. }
  destruct (store_event_spec now sv e None r 0 N Ce) as (sv' & E & Er & _ & T).
  { by rewrite Kj. } { split; [done|by apply Rm]. } { done. }
  assert (verdict sv (stored_form e) (jr_userid r) 0 = 0) as V.
  { unfold verdict, rejected. rewrite St, Kj, X. done. }
  rewrite V in *. rewrite St in *. specialize (T eq_refl). rewrite Kj in T.
  exists (jr_nevents r), sv'. split; [exact E|]. split; [done|]. rewrite T. split; [done|]. split; [done|].
  constructor; [| | |exact P|exact I].
  - apply (log_event_numbered _ _ r); done.
  - cbn. rewrite lookup_alter_eq, J. cbn. eexists. split; [done|]. cbn. split; [lia|]. by exists owner.
  - cbn [sv_db]. intros x d M. rewrite next_count by done.
    assert (x ∈ job_log (sv_db sv) (job_key j) ∨ x.1.(er_seqcode) = ev_seqcode e) as [M'|M'].
    { revert M. cbn -[job_log]. rewrite (log_event_log _ _ r) by done. rewrite elem_of_app.
      intros [|M]; [by left|]. apply list_elem_of_singleton in M as ->. by right. }
    + intros Ed D. pose proof (Cd x d M' Ed D). lia.
    + rewrite M', Sq. intros Ed D. apply seq_text_inj in Ed; [|done..]. subst d. rewrite next_count by done. lia.
Qed.

Lemma seq_text_ok c : wf_components c → str_ok (Some (seq_text c)).
Proof.
  intros Hc. unfold str_ok. rewrite (seq_text_length c Hc). vm_compute. discriminate.
Qed.

Lemma moves_memory kids j c pis st e js :
  moves pis st e js → memory_inv kids j pis c → e.(ev_seqcode) = seq_text (next_code c) →
  wf_components (next_code c) → valid_state st → time_ok e.(ev_timestamp) →
  memory_inv kids j js (next_code c).
Proof.
  intros [M1 M2 M3 M4 M5 M6 M7 M8 M9 M10] [I1 I2 I3 I4 I5 I6 I7 I8 I9] Ee Hn Hv Ht.
  constructor.
  - by rewrite M3.
  - unfold is_collection. by rewrite M4.
  - by apply M9.
  - apply M10; [done .. |]. rewrite Ee. by apply seq_text_ok.
  - by apply M8.
  - unfold counts. by rewrite M5, M6.
  - by apply M7.
  - by rewrite M2, Ee.
  - done.
Qed.

(** Storing the event's effect. *)
Lemma log_event_ok kids now st cis pis ce sv j c :
  memory_inv kids j pis c → wf_components (next_code c) →
  List.length sv.(sv_ctx).(p_seqcode).(sq_c) = EDG_WLL_SOURCE__LAST →
  valid_state st → pis.(pub).(state) ≠ EDG_WLL_JOB_CANCELLED →
  pis.(pub).(state) ≠ EDG_WLL_JOB_CLEARED → pis.(pub).(state) ≠ st → time_ok now →
  logged sv j c → log_room sv j →
  ∃ sv' pis', log_collectionState_event index_columns now st EDG_WLL_STAT_OK cis pis ce sv =
      Ret (0, sv', pis') ∧
    error_of sv' = 0 ∧ memory_inv kids j pis' (next_code c) ∧ holds_at sv' j pis' ∧
    logged sv' j (next_code c) ∧ pis'.(pub).(state) = st ∧
    List.length sv'.(sv_ctx).(p_seqcode).(sq_c) = EDG_WLL_SOURCE__LAST ∧
    ∀ k, k ≠ job_key j → states sv' !! k = states sv !! k.
Proof.
  intros Hmem Hnext Hctx Hv H1 H2 H3 Htime Hlog Hroom.
  pose proof Hmem as [Hid Ht Hwf Hs Hr Hc Hl Hcode Hcomp].
  unfold log_collectionState_event.
  destruct (collection_seqcode_ok now pis (sv_ctx sv) c Hcode Hcomp Hnext Hctx)
    as (ctx & -> & Hctx'). cbn [obind].
  destruct (hist_to_string_ok (children_hist (pub pis))) as [hist ->]; [apply Hwf |].
  cbn [obind]. set (sv1 := sv <| sv_ctx := ctx |>).
  set (e := collectionState_event _ _ _ _ _ _ _ _ _).
  unfold db_parent_store. change (ev_user e) with (Some (default "LBProxy"%string (serverIdentity sv1))).
  cbn iota. destruct (server_event_stored (tv_sec now) (reset_error sv1) j c e)
    as (seq & sv3 & -> & He3 & Hst3 & Hcx3 & Hlog3);
    [by destruct Hlog | exact Hroom | done | done | | done | done | by eexists | done |].
  { change (ev_jobId e) with (glite_jobid_dup (jobId (pub pis))). rewrite <-Hid.
    by destruct (jobId (pub pis)) as [[]|]. }
  cbn [obind]. change (negb (0 =? 0)) with false. cbn iota. unfold edg_wll_StepIntStateParent.
  rewrite (collection_event pis e st); try done.
  - cbn [obind]. change ((RET_OK =? RET_FATAL) || _) with false. cbn iota.
    pose proof (moved_moves pis st e) as Hmv. revert Hmv. generalize (moved pis st e) as js.
    intros js Hmv. pose proof (moves_memory kids j c pis st e js) as Hm.
    destruct (store_state index_columns sv3 js seq)
      as (sv2 & -> & He & Hp & Hdb & Hrow & Hother); [done | apply Hm; done .. |].
    cbn [obind]. exists sv2, js.
    assert (job_key (jobId (pub js)) = job_key j) as Ek by (by rewrite (moves_jobId _ _ _ _ Hmv)).
    rewrite Ek in Hrow, Hother. rewrite He. split; [done |]. split; [done |].
    split; [by apply Hm |]. split; [done |]. split; [by apply (logged_same sv3) |].
    split; [by apply (moves_state _ _ _ _ Hmv) |].
    split; [by rewrite Hp, Hcx3 |]. intros k Hk. by rewrite (Hother k Hk), Hst3.
  - split; [done |]. eexists. by repeat split.
  - unfold not_older. rewrite Hcode. change (ev_seqcode e) with (seq_text (next_code c)).
    destruct (compare_seq_ok (seq_text (next_code c)) (seq_text c))
      as (x & y & Ex & Ey & _ & ->); [by apply seq_ok_text .. |].
    rewrite parse_seq_text in Ex, Ey by done. simplify_eq.
    destruct (y !! LBS_POS) as [v|] eqn:Ev.
    + unfold next_code. rewrite Ev. cbn [default].
      erewrite compare_components_incr; [done | done | unfold id; lia].
    + unfold next_code. rewrite list_insert_ge by (by apply lookup_ge_None).
      by rewrite compare_components_refl.
Qed.

(** The state that the children call for. *)
Definition called_state (kids : list JobStat) (pis : intJobStat) : Z :=
  if pis.(pub).(jobtype) =? EDG_WLL_STAT_COLLECTION
  then collection_state kids else ft_collection_state kids.

Lemma called_state_valid kids pis : valid_state (called_state kids pis).
Proof.
  unfold called_state, collection_state, ft_collection_state.
  repeat case_match; apply (bool_decide_unpack _); by vm_compute.
Qed.

Lemma move_parent_ok kids now st cis pis ce sv j c :
  memory_inv kids j pis c → wf_components (next_code c) → holds_at sv j pis →
  List.length sv.(sv_ctx).(p_seqcode).(sq_c) = EDG_WLL_SOURCE__LAST → error_of sv = 0 →
  valid_state st → pis.(pub).(state) ≠ EDG_WLL_JOB_CANCELLED →
  pis.(pub).(state) ≠ EDG_WLL_JOB_CLEARED → time_ok now → logged sv j c → log_room sv j →
  ∃ sv' pis' c', move now st cis pis ce sv = Ret (sv', pis') ∧ error_of sv' = 0 ∧
    memory_inv kids j pis' c' ∧ holds_at sv' j pis' ∧ logged sv' j c' ∧ pis'.(pub).(state) = st ∧
    List.length sv'.(sv_ctx).(p_seqcode).(sq_c) = EDG_WLL_SOURCE__LAST ∧
    ∀ k, k ≠ job_key j → states sv' !! k = states sv !! k.
Proof.
  intros Hm Hn Hh Hctx He Hv H1 H2 Ht Hlog Hroom. unfold move_parent.
  destruct (Z.eqb_spec (state (pub pis)) st) as [Es|Es].
  - exists sv, pis, c. done.
  - destruct (log_event_ok kids now st cis pis ce sv j c)
      as (sv' & pis' & -> & He' & Hm' & Hh' & Hlog' & Hs' & Hctx' & Ho); try done.
    cbn [obind]. by exists sv', pis', (next_code c).
Qed.

(** The histogram after the change of one child. *)
Definition changed (old new : JobStat) (pis : intJobStat) : outcome intJobStat :=
  let! pis := count_class (subjob_class new) 1 pis in
  count_class (subjob_class old) (-1) pis.

Lemma changed_memory kids sv j pis c i old new pis1 :
  parent_inv kids sv j pis c → is_int (Z.of_nat (List.length kids)) → kids !! i = Some old →
  subjob_class old ≠ subjob_class new → changed old new pis = Ret pis1 → hist_roomy pis1 →
  memory_inv (<[i := new]> kids) j pis1 c ∧ pis1.(pub).(state) = pis.(pub).(state) ∧
  pis1.(pub).(jobtype) = pis.(pub).(jobtype).
Proof.
  intros [Hrow Hid Ht Hwf Hs Hc Hl Hcode Hcomp Hctx _] Hn Hk Hne E Hr.
  destruct (counts_change kids i old new pis Hc Hn Hk Hne) as (h & E' & Hc' & Hcnt & Hint).
  unfold changed in E. rewrite E' in E. injection E as <-.
  assert (item_ok (IIntArray (children_hist (pub pis)))) as Hh
    by exact (storable_at pis 7 (IIntArray _) Hs eq_refl).
  destruct Hh as (l & El & Hl1 & Hl2).
  split; [| done]. constructor; try done.
  - destruct Hwf as ((H1 & H2 & H3 & H4) & H5). split; [| exact H5].
    split; [exact H1 |]. split; [exact H2 |]. split; [exact (Hcnt H3) | exact H4].
  - apply storable_children_hist; [done |]. exists h. split; [done |].
    split; [apply Hint; by rewrite El |].
    destruct Hwf as ((_ & _ & H3 & _) & _). destruct (Hcnt H3) as (l' & [= ->] & Hl').
    unfold EDG_WLL_NUMBER_OF_STATCODES in Hl'.
    change (S (Z.to_nat EDG_WLL_NUMBER_OF_STATCODES)) with 13%nat. cbn [List.length]. lia.
Qed.

End Invariant.

(** ** Witnesses *)
Definition encoded (js : intJobStat) : string :=
  match enc_intJobStat "" js with Ret text => text | UB _ => EmptyString end.
Definition sample_lib : StoreLib := {|
  GRST_PERM_NONE := 0; GRST_PERM_READ := 1; GRST_PERM_WRITE := 4;
  gacl_add l e := app l [e]; encode_acl _ := "<gacl/>"%string; decode_acl _ := Some [];
  gacl_cred kind values := Some (kind +:+ ":" +:+ String.concat "," (snd <$> values))%string;
  gacl_test _ _ := 0; strmd5 s := ("#" +:+ s)%string; edg_wll_UnparseEvent e := ev_seqcode e |}.
Definition sample_config : config :=
  mkConfig false true "lb" 9000 false false false false false
    {| princ_name := Some "/CN=server"%string; princ_fqans := [] |} None.
Definition sample_db : database :=
  mkDatabase {["parent"%string := mkJobRow "https://lb:9000/parent" "#owner" None 0 1 0 0]}
    {["#owner"%string := "/CN=owner"%string]} ∅ ∅ ∅ ∅ ∅.
Definition sample_server : server :=
  mkServer (mkContext (mkSeqCode EDG_WLL_SEQ_NORMAL (replicate EDG_WLL_SOURCE__LAST 0) "")
              EDG_WLL_SOURCE_LB_SERVER 0 None) None (Some "lb"%string) 0
    {["parent"%string := mkStateRow EDG_WLL_JOB_SUBMITTED 0 (encoded sample_parent)
                           INTSTAT_VERSION "*no parent job*" []]} ∅ sample_db sample_config.

Lemma sample_parent_inv :
  parent_inv [pub (sample_child EDG_WLL_JOB_SUBMITTED); pub (sample_child EDG_WLL_JOB_SUBMITTED)]
    sample_server (sample_job "parent") sample_parent [2; 9; 1; 0; 1; 0; 0; 0; 0].
Proof.
  constructor; try reflexivity.
  - eexists. split; [reflexivity |]. split; [reflexivity |]. split; [reflexivity |].
    vm_compute. reflexivity.
  - by left.
  - split; [| done]. split; [by vm_compute |]. split; [by exists (replicate 12 0) |].
    split; [| done]. eexists. by split.
  - ok_items; [| exact I]. exists (replicate 12 0). split; [done |].
    split; [repeat constructor; vm_compute; discriminate | by vm_compute].
  - split; [done |]. eexists. split; [reflexivity |]. by intros [].
  - by split.
  - apply (bool_decide_unpack _). by vm_compute.
  - constructor; try done.
    + intros j n. unfold in_log. split; (split; [by intros [x X]|]);
      intros (r & R & L); cbn [sample_server sv_db sample_db db_jobs] in R;
      apply lookup_singleton_Some in R as [_ <-]; cbn in L; lia.
    + eexists. split; [reflexivity|]. split; [done|]. by eexists.
    + intros x d M. vm_compute in M. by apply elem_of_nil in M.
    + by right.
Qed.

Lemma sample_roomy pis1 :
  changed (pub (sample_child EDG_WLL_JOB_SUBMITTED)) (pub (sample_child EDG_WLL_JOB_RUNNING))
    sample_parent = Ret pis1 → hist_roomy pis1.
Proof.
  intros E. unfold hist_roomy.
  assert (pis1 = match changed (pub (sample_child EDG_WLL_JOB_SUBMITTED))
    (pub (sample_child EDG_WLL_JOB_RUNNING)) sample_parent with Ret j => j | UB _ => sample_parent end)
    as -> by (by rewrite E).
  apply Nat.leb_le. by vm_compute.
Qed.


(** ** A change of the done code is missed *)

(** The server after an event for a job of the sample, as [edg_wll_StepIntState] leaves it. *)
Definition sample_step (sv : server) (u : string) (e : Event) : server :=
  match @edg_wll_StepIntState zero_stack (fun _ => []) sample_lib
          (mkTime 5000 0) sv (sample_job u) e 0 with
  | Ret (Stepped sv _ _) => sv
  | _ => sv
  end.
Definition sample_add (sv : server) (js : intJobStat) : server :=
  match edg_wll_StoreIntState (fun _ => []) sv js 0 with Ret (_, sv) => sv | UB _ => sv end.
Definition sample_done (u : string) (n code : Z) : Event :=
  mkEvent (mkTime (1000 + n) 0) (mkTime (1000 + n) 0) (Some "host"%string) 0 0 (sample_job u)
    (sample_code 3 n) (Some "/CN=user"%string) EDG_WLL_SOURCE_LOG_MONITOR None
    (Done (mkDone code None 0)).
Definition sample_kid (u : string) : intJobStat :=
  (sample_child EDG_WLL_JOB_RUNNING)
    <! jobId := sample_job u !> <! owner := Some "/C=XX/O=Org/CN=user"%string !>
    <! jobtype := EDG_WLL_STAT_SIMPLE !> <| last_seqcode := Some (sample_code 2 1) |>.
(** Two running children of a collection. *)
Definition sample_running : server :=
  let sv := sample_add sample_server (sample_kid "k1") in
  let sv := sample_add sv (sample_kid "k2") in
  sample_add sv (sample_parent <! state := EDG_WLL_JOB_RUNNING !>
    <! children_hist := Some [12; 0; 0; 0; 0; 0; 2; 0; 0; 0; 0; 0; 0] !>).
Definition status_of (sv : server) (u : string) : option JobStat :=
  match edg_wll_LoadIntState sv (sample_job u) (-1) with
  | Ret (_, Some js, _) => Some js.(pub)
  | _ => None
  end.

(** a subjob that is reported as failed and then as done well stays Done, and
    [edg_wll_StepIntState] tells the parent about changes of the state only: with both
    children done well, the collection is still Waiting, and its histogram counts only one
    of them. *)
Theorem done_ok_missed :
  let sv := sample_step sample_running "k1" (sample_done "k1" 2 EDG_WLL_DONE_FAILED) in
  let sv := sample_step sv "k1" (sample_done "k1" 3 EDG_WLL_DONE_OK) in
  let sv := sample_step sv "k2" (sample_done "k2" 2 EDG_WLL_DONE_OK) in
  ∃ k1 k2 p, status_of sv "k1" = Some k1 ∧ status_of sv "k2" = Some k2 ∧
    status_of sv "parent" = Some p ∧
    subjob_class k1 = SUBJOB_CLASS_DONE ∧ subjob_class k2 = SUBJOB_CLASS_DONE ∧
    collection_state [k1; k2] = EDG_WLL_JOB_DONE ∧ p.(state) = EDG_WLL_JOB_WAITING ∧
    p.(children_hist) = Some [12; 0; 0; 0; 0; 0; 0; 1; 0; 0; 0; 1; 0].
Proof.
  match goal with |- let sv := ?a in _ => set (sv1 := a) end. cbv zeta.
  vm_compute sv1.
  do 3 eexists. split; [vm_compute; reflexivity |]. split; [vm_compute; reflexivity |].
  split; [vm_compute; reflexivity |]. repeat split.
Qed.
