(* ===== verification/IlMsg.v ===== *)
(** * Messages of the interlogger

    The model of il_int.c, il_string.c and il_msg.c of org.glite.lb.common/src: the
    encoding of numbers and octet strings, the framed messages and replies that the
    logging daemons exchange, and the reading of a frame.

    A pointer into a buffer is the bytes from it to the end of the buffer, which may
    include NUL bytes; reading behind the end is [OutOfBounds].  Writing is modelled by the
    bytes written; the buffers are allocated with a computed length, and a message that
    does not fit is [OutOfBounds].  [malloc] is taken to fail exactly for the sizes that
    [size_t] arguments above [PTRDIFF_MAX] stand for. *)
From Stdlib Require Import ZArith Lia Ascii.
From stdpp Require Import base option list strings numbers.
From S2P Require Import Prelude CLib.
#[local] Open Scope Z_scope.

Definition NL : ascii := chr 10.
Definition NUL : ascii := chr 0.

(** ** Numbers and octet strings: writing *)
Definition put_int_ (d : Z) : string := print_int d.
Definition put_int (d : Z) : string := put_int_ d +:+ String NL "".
Definition len_int (d : Z) : Z := Z.of_nat (String.length (put_int d)).

(** An [il_octet_string_t] is the bytes that [data] points to, [len] of them. *)
Definition os_len (s : string) : Z := Z.of_nat (String.length s).
Definition put_string (s : string) : string :=
  put_int_ (os_len s) +:+ String " " (s +:+ String NL "").
Definition len_string (s : string) : Z := len_int (os_len s) + os_len s + 1.

(** ** Numbers and octet strings: reading *)

(** [*p] *)
Definition deref (p : string) : outcome ascii :=
  match p with String c _ => Ret c | EmptyString => UB OutOfBounds end.

Definition skip_sign (s : string) : string :=
  match s with
  | String "-" r => r
  | String "+" r => r
  | _ => s
  end.

(** [strtol(p,&end,10)] looks at the bytes up to the first one that is not a part of the
    number; this one has to be in the buffer. *)
Definition mem_strtol (p : string) : outcome (Z * string) :=
  let stop := match scan_num p with
              | Some (_, t) => t
              | None => skip_sign (skip_space p)
              end in
  let! _ := deref stop in Ret (strtol p).

(** [_get_int]: the value and the end. *)
Definition get_int_ (p : string) : outcome (Z * string) :=
  let! r := mem_strtol p in Ret (s32 (fst r), snd r).

(** [get_int]: [None] is NULL. *)
Definition get_int (p : string) : outcome (Z * option string) :=
  let! r := get_int_ p in
  let! c := deref (snd r) in
  Ret (fst r, if Ascii.eqb c NL then Some (str_drop 1 (snd r)) else None).

(** [malloc(len+1)] and [memcpy(data,p,len)] for an [int] [len]: [None] is NULL. *)
Definition malloc_copy (len : Z) (p : string) : outcome (option string) :=
  if len =? INT_MAX then UB SignedOverflow
  else if len + 1 <? 0 then Ret None
  else if (len <? 0) || (os_len p <? len) then UB OutOfBounds
  else Ret (Some (str_take (Z.to_nat len) p)).

(** [get_string]: the pointer behind the string and [s->data]; [s->len] is not set. *)
Definition get_string (p : string) : outcome (option string * option string) :=
  let! r := get_int_ p in
  let '(len, p) := r in
  let! c := deref p in
  if negb (Ascii.eqb c " ") then Ret (None, None)
  else
    let p := str_drop 1 p in
    let! data := malloc_copy len p in
    match data with
    | None => Ret (None, None)
    | Some d =>
      let p := str_drop (Z.to_nat len) p in
      let! c := deref p in
      Ret (if Ascii.eqb c NL then Some (str_drop 1 p) else None, Some d)
    end.

(** ** Messages *)
Definition IL_PROTOCOL_MAGIC_WORD : string := "michal".

(** [sprintf(p,"%16d\n",len-17)], without the terminating NUL. *)
Definition il_header (len : Z) : string := fmt_d false 16 (len - 17) +:+ String NL "".

(** A buffer of [len] bytes that [text] is written to after a header, which itself is
    followed by a NUL: the buffer and the number of bytes written. *)
Definition il_buffer (len : Z) (text : string) : outcome (string * Z) :=
  let buf := il_header len +:+ text in
  if INT_MAX <? len then UB SignedOverflow
  else if (os_len (il_header len) + 1 <=? len) && (os_len buf <=? len) then Ret (buf, os_len buf)
  else UB OutOfBounds.

Definition encode_il_msg (event : string) : outcome (string * Z) :=
  let len := 17 + len_string IL_PROTOCOL_MAGIC_WORD + len_string event in
  il_buffer len (put_string IL_PROTOCOL_MAGIC_WORD +:+ put_string event).

Definition encode_il_reply (err_code err_code_min : Z) (err_msg : string) :
    outcome (string * Z) :=
  let len := 17 + len_int err_code + len_int err_code_min + len_string err_msg in
  il_buffer len (put_int err_code +:+ (put_int err_code_min +:+ put_string err_msg)).

(** The C string at the beginning of some bytes. *)
Definition c_string (data : string) : string := fst (str_span (Ascii.eqb NUL) data).

(** [decode_il_msg]: the event's data and the number of bytes consumed, or -1. *)
Definition decode_il_msg (buf : string) : outcome (option string * Z) :=
  let! r := get_string buf in
  let '(p, word) := r in
  let failed := match word with
                | Some w => negb (strcmp (c_string w) IL_PROTOCOL_MAGIC_WORD =? 0)
                | None => false
                end in
  if failed then Ret (None, -1)
  else
    match p with
    | None => UB AssertFailed
    | Some p =>
      let! r := get_string p in
      match r with
      | (None, _) => Ret (None, -1)
      | (Some p, data) => Ret (data, os_len buf - os_len p)
      end
    end.

(** [decode_il_reply]: the two codes, the message and the number of bytes consumed. *)
Definition decode_il_reply (buf : string) : outcome (option (Z * Z * option string * Z)) :=
  let! r := get_int buf in
  match r with
  | (maj, Some p) =>
    let! r := get_int p in
    match r with
    | (min, Some p) =>
      let! r := get_string p in
      match r with
      | (Some p, err) => Ret (Some (maj, min, err, os_len buf - os_len p))
      | (None, _) => Ret None
      end
    | (_, None) => Ret None
    end
  | (_, None) => Ret None
  end.

(** ** Reading a frame *)
Section Reader.
Context {U : Type}.
(** [reader(user_data,buffer,n)]: a negative result or the bytes it puts into [buffer]. *)
Context (reader : U → Z → (Z + string) * U).

(** The [for] loops over the header and the test that follows them. *)
Definition header_ok (buf : string) : bool :=
  let '(_, p) := str_span (fun c => negb (Ascii.eqb c " ")) buf in
  let '(_, p) := str_span (fun c => negb (isdigit c)) p in
  match p with EmptyString => true | String c _ => Ascii.eqb c NUL end.

(** The length or a negative number, and the buffer. *)
Definition read_il_data (u : U) : outcome (Z * option string * U) :=
  match reader u 17 with
  | (inl err, u) => Ret (err, None, u)
  | (inr buf, u) =>
    match String.get 16 buf with
    | None => UB OutOfBounds
    | Some c =>
      if negb (Ascii.eqb c NL) then Ret (-1, None, u)
      else
        let head := c_string (str_take 16 buf) in
        if negb (header_ok head) then Ret (-1, None, u)
        else
          let len := atoi head in
          if len <=? 0 then Ret (-1, None, u)
          else if len =? INT_MAX then UB SignedOverflow
          else
            match reader u len with
            | (inl err, u) => Ret (err, None, u)
            | (inr body, u) =>
              Ret (len, Some (str_take (Z.to_nat len) body +:+ String NUL ""), u)
            end
    end
  end.
End Reader.

(** ** Lemmas *)
Lemma os_len_app s t : os_len (s +:+ t) = os_len s + os_len t.
Proof. unfold os_len. rewrite length_app_str. lia. Qed.
Lemma os_len_nonneg s : 0 ≤ os_len s.
Proof. unfold os_len. lia. Qed.
Lemma to_nat_os_len s : Z.to_nat (os_len s) = String.length s.
Proof. unfold os_len. lia. Qed.

Lemma mem_strtol_print w d c t :
  is_int d → isdigit c = false →
  mem_strtol (fmt_d false w d +:+ String c t) = Ret (d, String c t).
Proof.
  intros Hd Hc. assert (starts_digit (String c t) = false) as Hs.
  { unfold starts_digit. unfold isdigit in Hc. by destruct (digit_val c). }
  unfold mem_strtol, strtol. rewrite scan_num_fmt_d by done. cbn [deref obind].
  do 2 f_equal. unfold clamp. apply int_is_long in Hd. unfold_int. lia.
Qed.

Lemma get_int_print w d c t :
  is_int d → isdigit c = false →
  get_int_ (fmt_d false w d +:+ String c t) = Ret (d, String c t).
Proof.
  intros Hd Hc. unfold get_int_. rewrite mem_strtol_print by done. simpl.
  by rewrite s32_id.
Qed.

Lemma get_put_int d t : is_int d → get_int (put_int d +:+ t) = Ret (d, Some t).
Proof.
  intros Hd. unfold get_int, put_int, put_int_. rewrite app_assoc_str. cbn [String.append].
  rewrite get_int_print by done. done.
Qed.

Lemma malloc_copy_app s t :
  os_len s < INT_MAX → malloc_copy (os_len s) (s +:+ t) = Ret (Some s).
Proof.
  intros Hs. unfold malloc_copy. pose proof (os_len_nonneg s). pose proof (os_len_nonneg t).
  rewrite os_len_app.
  replace (os_len s =? INT_MAX) with false by (symmetry; apply Z.eqb_neq; lia).
  replace (os_len s + 1 <? 0) with false by (symmetry; apply Z.ltb_ge; lia).
  replace (os_len s <? 0) with false by (symmetry; apply Z.ltb_ge; lia).
  replace (os_len s + os_len t <? os_len s) with false by (symmetry; apply Z.ltb_ge; lia).
  by rewrite to_nat_os_len, str_take_app.
Qed.

Lemma get_put_string s t :
  os_len s < INT_MAX → get_string (put_string s +:+ t) = Ret (Some t, Some s).
Proof.
  intros Hs. pose proof (os_len_nonneg s).
  unfold get_string, put_string, put_int_. rewrite app_assoc_str. cbn [String.append].
  rewrite get_int_print by (done || unfold_int; lia). cbn [obind deref].
  change (Ascii.eqb " " " ") with true. cbn [negb str_drop].
  rewrite app_assoc_str. cbn [String.append].
  rewrite malloc_copy_app by done. cbn [obind].
  by rewrite to_nat_os_len, str_drop_app.
Qed.

(** What is written is as long as what is allocated. *)
Lemma os_len_put_int d : os_len (put_int d) = len_int d.
Proof. reflexivity. Qed.
Lemma os_len_put_string s : os_len (put_string s) = len_string s.
Proof.
  unfold put_string, len_string, len_int, put_int, os_len.
  rewrite !length_app_str. cbn [String.length]. rewrite !length_app_str. cbn [String.length].
  lia.
Qed.

Lemma len_int_pos d : 0 < len_int d.
Proof. unfold len_int, put_int. rewrite length_app_str. simpl. lia. Qed.
Lemma len_string_pos s : 0 < len_string s.
Proof.
  unfold len_string. pose proof (len_int_pos (os_len s)). pose proof (os_len_nonneg s). lia.
Qed.

Lemma length_fmt_d_blank w d :
  0 ≤ d < 10 ^ Z.of_nat w → (0 < w)%nat → String.length (fmt_d false w d) = w.
Proof.
  intros Hd Hw. unfold fmt_d. replace (d <? 0) with false by (symmetry; apply Z.ltb_ge; lia).
  rewrite Z.abs_eq by lia. rewrite !length_app_str, length_str_repeat.
  pose proof (length_digits_aux (digits_fuel d) d "" w Hd Hw) as Hl.
  unfold print_nonneg. simpl in *. lia.
Qed.

Lemma il_header_length len : 17 ≤ len ≤ INT_MAX → os_len (il_header len) = 17.
Proof.
  intros Hl. unfold il_header. rewrite os_len_app. unfold os_len at 1.
  rewrite length_fmt_d_blank; [done | | lia].
  change (10 ^ Z.of_nat 16) with 10000000000000000. unfold_int. lia.
Qed.

Lemma il_buffer_ok text :
  0 < os_len text → 17 + os_len text ≤ INT_MAX →
  il_buffer (17 + os_len text) text =
  Ret (il_header (17 + os_len text) +:+ text, 17 + os_len text).
Proof.
  intros H0 Hl. unfold il_buffer. rewrite os_len_app, il_header_length by lia.
  replace (INT_MAX <? 17 + os_len text) with false by (symmetry; apply Z.ltb_ge; lia).
  replace (17 + 1 <=? 17 + os_len text) with true by (symmetry; apply Z.leb_le; lia).
  by rewrite Z.leb_refl.
Qed.

Lemma get_app_mid s c t : String.get (String.length s) (s +:+ String c t) = Some c.
Proof. induction s; simpl; done. Qed.
Lemma str_span_all p s : str_forall (fun c => negb (p c)) s = true → str_span p s = (s, EmptyString).
Proof.
  intros Hs. rewrite <-(app_nil_r_str s) at 1. apply str_span_app; [done | by right].
Qed.

Lemma header_ok_print w n : 0 ≤ n → header_ok (fmt_d false w n) = true.
Proof.
  intros Hn. unfold fmt_d. replace (n <? 0) with false by (symmetry; apply Z.ltb_ge; lia).
  set (pad := (w - _)%nat). clearbody pad. rewrite Z.abs_eq by lia. cbn [String.append].
  unfold header_ok.
  rewrite (str_span_app (fun c => negb (Ascii.eqb c " ")) (str_repeat " " pad)).
  - rewrite str_span_all; [done |].
    eapply str_forall_impl; [| by apply print_nonneg_digits].
    intros c Hc. by rewrite negb_involutive.
  - by apply str_forall_repeat.
  - left. pose proof (print_nonneg_starts n "" Hn) as Hs. rewrite app_nil_r_str in Hs.
    destruct (print_nonneg n) as [|c r]; [discriminate |]. exists c, r. split; [done |].
    destruct (Ascii.eqb_spec c " ") as [->|]; [discriminate | done].
Qed.

Lemma c_string_id s : str_forall (fun c => negb (Ascii.eqb NUL c)) s = true → c_string s = s.
Proof. intros Hs. unfold c_string. by rewrite str_span_all. Qed.

(** A reader that delivers the bytes of a stream: [rest u] are the ones to come. *)
Class StreamReader {U} (reader : U → Z → (Z + string) * U) (rest : U → string) : Prop :=
  stream_read : ∀ u n, 0 ≤ n ≤ os_len (rest u) →
    ∃ u', reader u n = (inr (str_take (Z.to_nat n) (rest u)), u') ∧
          rest u' = str_drop (Z.to_nat n) (rest u).

Lemma stream_read_app {U} (reader : U → Z → (Z + string) * U) rest u s t :
  StreamReader reader rest → rest u = s +:+ t →
  ∃ u', reader u (os_len s) = (inr s, u') ∧ rest u' = t.
Proof.
  intros Hr Hu. destruct (stream_read u (os_len s)) as (u' & E & Hu').
  - rewrite Hu, os_len_app. pose proof (os_len_nonneg s). pose proof (os_len_nonneg t). lia.
  - exists u'. rewrite E, Hu', Hu, to_nat_os_len, str_take_app, str_drop_app. done.
Qed.

Lemma read_frame {U} (reader : U → Z → (Z + string) * U) rest u text tail :
  StreamReader reader rest → 0 < os_len text → 17 + os_len text ≤ INT_MAX →
  rest u = il_header (17 + os_len text) +:+ (text +:+ tail) →
  ∃ u', read_il_data reader u = Ret (os_len text, Some (text +:+ String NUL ""), u') ∧
        rest u' = tail.
Proof.
  intros Hr H0 Hl Hu.
  destruct (stream_read_app _ _ _ _ _ Hr Hu) as (u1 & E1 & Hu1).
  rewrite il_header_length in E1 by lia.
  destruct (stream_read_app _ _ _ _ _ Hr Hu1) as (u2 & E2 & Hu2).
  exists u2. split; [| done]. unfold read_il_data. rewrite E1. clear E1 Hu1 Hu.
  unfold il_header. replace (17 + os_len text - 17) with (os_len text) by lia.
  set (h := fmt_d false 16 (os_len text)).
  assert (String.length h = 16%nat) as Hh.
  { apply length_fmt_d_blank; [| lia]. change (10 ^ Z.of_nat 16) with 10000000000000000.
    unfold_int. lia. }
  assert (String.get 16 (h +:+ String NL "") = Some NL) as -> by (rewrite <-Hh; apply get_app_mid). change (negb (Ascii.eqb NL NL)) with false. cbn iota.
  assert (str_take 16 (h +:+ String NL "") = h) as -> by (rewrite <-Hh; apply str_take_app).
  rewrite c_string_id by (by apply fmt_d_other).
  subst h. rewrite header_ok_print, atoi_print by (unfold_int; lia). cbn [negb].
  replace (os_len text <=? 0) with false by (symmetry; apply Z.leb_gt; lia).
  replace (os_len text =? INT_MAX) with false by (symmetry; apply Z.eqb_neq; lia).
  rewrite E2, to_nat_os_len. by rewrite str_take_all by done.
Qed.

(** The bytes of a message. *)
Definition il_body (event : string) : string :=
  put_string IL_PROTOCOL_MAGIC_WORD +:+ put_string event.
Definition il_small (event : string) : Prop := 17 + os_len (il_body event) ≤ INT_MAX.
#[export] Instance il_small_dec event : Decision (il_small event).
Proof. unfold il_small. apply _. Defined.

Lemma il_body_length event :
  os_len (il_body event) = len_string IL_PROTOCOL_MAGIC_WORD + len_string event.
Proof. unfold il_body. by rewrite os_len_app, !os_len_put_string. Qed.

Lemma encode_il_msg_ok event :
  il_small event →
  encode_il_msg event =
  Ret (il_header (17 + os_len (il_body event)) +:+ il_body event, 17 + os_len (il_body event)).
Proof.
  intros Hs. unfold encode_il_msg. rewrite <-Z.add_assoc, <-il_body_length.
  apply il_buffer_ok; [| done]. rewrite il_body_length.
  pose proof (len_string_pos IL_PROTOCOL_MAGIC_WORD). pose proof (len_string_pos event). lia.
Qed.

Lemma decode_il_body event tail :
  il_small event →
  decode_il_msg (il_body event +:+ tail) = Ret (Some event, os_len (il_body event)).
Proof.
  intros Hs. unfold il_small in Hs. rewrite il_body_length in Hs.
  pose proof (len_string_pos IL_PROTOCOL_MAGIC_WORD). pose proof (len_string_pos event).
  unfold decode_il_msg, il_body. rewrite app_assoc_str, get_put_string by done.
  cbn [obind]. change (c_string IL_PROTOCOL_MAGIC_WORD) with IL_PROTOCOL_MAGIC_WORD.
  change (negb (strcmp IL_PROTOCOL_MAGIC_WORD IL_PROTOCOL_MAGIC_WORD =? 0)) with false. cbn iota.
  rewrite get_put_string.
  - cbn [obind]. do 2 f_equal. rewrite !os_len_app. lia.
  - unfold len_string in *. pose proof (len_int_pos (os_len event)). lia.
Qed.

(** ** Properties *)

(** What a daemon does with [n] messages of its peer: it reads a frame and decodes it. *)
Fixpoint receive {U} (reader : U → Z → (Z + string) * U) (n : nat) (u : U) :
    outcome (list (option string) * U) :=
  match n with
  | O => Ret ([], u)
  | S n =>
    let! r := read_il_data reader u in
    match r with
    | (_, Some buf, u) =>
      let! e := decode_il_msg buf in
      let! es := receive reader n u in
      Ret (fst e :: fst es, snd es)
    | (_, None, u) => Ret ([], u)
    end
  end.
Fixpoint send (events : list string) : outcome string :=
  match events with
  | [] => Ret EmptyString
  | e :: events =>
    let! r := encode_il_msg e in
    let! s := send events in
    Ret (fst r +:+ s)
  end.

(** The bytes of some messages. *)
Definition il_messages (events : list string) : string :=
  foldr (fun e s => (il_header (17 + os_len (il_body e)) +:+ il_body e) +:+ s) EmptyString events.

Lemma send_ok events : Forall il_small events → send events = Ret (il_messages events).
Proof.
  induction 1 as [|e events He Hs IH]; [done |]. cbn [send].
  rewrite encode_il_msg_ok by done. cbn [obind fst]. by rewrite IH.
Qed.

Lemma receive_ok {U} (reader : U → Z → (Z + string) * U) rest u events tail :
  StreamReader reader rest → Forall il_small events →
  rest u = il_messages events +:+ tail →
  ∃ u', receive reader (List.length events) u = Ret (Some <$> events, u') ∧ rest u' = tail.
Proof.
  intros Hr Hs. revert u. induction Hs as [|e events He Hs IH]; intros u Hu.
  - by exists u.
  - cbn [il_messages foldr] in Hu. rewrite !app_assoc_str in Hu.
    destruct (read_frame reader rest u (il_body e) (il_messages events +:+ tail) Hr)
      as (u1 & E1 & Hu1); [| exact He | exact Hu |].
    { rewrite il_body_length. pose proof (len_string_pos IL_PROTOCOL_MAGIC_WORD).
      pose proof (len_string_pos e). lia. }
    destruct (IH u1 Hu1) as (u2 & E2 & Hu2). exists u2. split; [| done].
    cbn [receive List.length]. rewrite E1. cbn [obind].
    rewrite decode_il_body by done. cbn [obind fst]. by rewrite E2.
Qed.

(** C28: the framing is transparent: whatever octet strings are sent one after the other,
    each encoded without leaving the allocated buffer, the peer that reads the stream gets
    exactly these strings in this order, whatever bytes they consist of, and what follows
    them stays in the stream. *)
Theorem il_stream {U} (reader : U → Z → (Z + string) * U) rest events :
  StreamReader reader rest → Forall il_small events →
  ∃ bytes, send events = Ret bytes ∧
    ∀ u tail, rest u = bytes +:+ tail →
    ∃ u', receive reader (List.length events) u = Ret (Some <$> events, u') ∧ rest u' = tail.
Proof.
  intros Hr Hs. exists (il_messages events). split; [by apply send_ok |].
  intros u tail. by apply receive_ok.
Qed.

(** a reply comes through: two codes and a message that are encoded are found in the
    frame that is read, the buffer that is allocated for them is exactly filled. *)
Theorem il_reply_roundtrip {U} (reader : U → Z → (Z + string) * U) rest maj min msg :
  StreamReader reader rest → is_int maj → is_int min →
  17 + len_int maj + len_int min + len_string msg ≤ INT_MAX →
  ∃ bytes len, encode_il_reply maj min msg = Ret (bytes, len) ∧ os_len bytes = len ∧
    ∀ u tail, rest u = bytes +:+ tail →
    ∃ buf u', read_il_data reader u = Ret (len - 17, Some buf, u') ∧ rest u' = tail ∧
      decode_il_reply buf = Ret (Some (maj, min, Some msg, len - 17)).
Proof.
  intros Hr Hmaj Hmin Hl. unfold encode_il_reply.
  set (text := put_int maj +:+ (put_int min +:+ put_string msg)).
  assert (os_len text = len_int maj + len_int min + len_string msg) as Et.
  { unfold text. rewrite !os_len_app, os_len_put_string. unfold os_len, len_int. lia. }
  pose proof (len_int_pos maj). pose proof (len_int_pos min). pose proof (len_string_pos msg).
  replace (17 + len_int maj + len_int min + len_string msg) with (17 + os_len text) by lia.
  rewrite il_buffer_ok by lia. eexists _, _. split; [reflexivity |].
  split; [rewrite os_len_app, il_header_length; lia |].
  intros u tail Hu. rewrite app_assoc_str in Hu.
  destruct (read_frame reader rest u text tail Hr) as (u1 & E1 & Hu1); [lia .. | exact Hu |].
  eexists _, u1. replace (17 + os_len text - 17) with (os_len text) by lia.
  split; [exact E1 |]. split; [done |].
  unfold decode_il_reply. unfold text at 1. rewrite !app_assoc_str.
  rewrite get_put_int by done. cbn [obind].
  rewrite get_put_int by done. cbn [obind].
  rewrite get_put_string.
  - cbn [obind]. do 3 f_equal. rewrite os_len_app. lia.
  - unfold len_string in *. pose proof (len_int_pos (os_len msg)). lia.
Qed.

(** a message that does not begin with the length of the magic word and a blank is not
    refused: [decode_il_msg] goes on with the NULL that [get_string] returned and its
    [assert] aborts the daemon. *)
Theorem decode_il_msg_aborts buf n c t :
  get_int_ buf = Ret (n, String c t) → c ≠ " "%char →
  decode_il_msg buf = UB AssertFailed.
Proof.
  intros Hb Hc. unfold decode_il_msg, get_string. rewrite Hb. cbn [obind deref].
  destruct (Ascii.eqb_spec c " ") as [|_]; [done |]. done.
Qed.

(** ** Witnesses *)

(** A stream that is a string. *)
Definition string_reader (u : string) (n : Z) : (Z + string) * string :=
  if (0 <=? n) && (n <=? os_len u)
  then (inr (str_take (Z.to_nat n) u), str_drop (Z.to_nat n) u) else (inl (-1), u).
#[export] Instance string_stream : StreamReader string_reader id.
Proof.
  intros u n [H1%Z.leb_le H2%Z.leb_le]. exists (str_drop (Z.to_nat n) u).
  unfold string_reader. change (id u) with u in *. by rewrite H1, H2.
Qed.

Lemma il_stream_witness :
  ∃ bytes, send ["event"; ""]%string = Ret bytes ∧
    ∀ u tail, u = bytes +:+ tail →
    ∃ u', receive string_reader 2 u = Ret ([Some "event"; Some ""]%string, u') ∧ u' = tail.
Proof.
  apply (il_stream string_reader id ["event"; ""]%string string_stream).
  repeat constructor; apply (bool_decide_unpack _); by vm_compute.
Defined.

Lemma il_reply_roundtrip_witness :
  ∃ bytes len, encode_il_reply 500 (-1) "no"%string = Ret (bytes, len) ∧ os_len bytes = len ∧
    ∀ u tail, u = bytes +:+ tail →
    ∃ buf u', read_il_data string_reader u = Ret (len - 17, Some buf, u') ∧ u' = tail ∧
      decode_il_reply buf = Ret (Some (500, -1, Some "no"%string, len - 17)).
Proof.
  apply (il_reply_roundtrip string_reader id 500 (-1) "no"%string string_stream);
    apply (bool_decide_unpack _); by vm_compute.
Defined.

Lemma decode_il_msg_aborts_witness :
  decode_il_msg (String "x" (String NUL "")) = UB AssertFailed.
Proof.
  by apply (decode_il_msg_aborts _ 0 "x"%char (String NUL "")).
Defined.
