(* ===== verification/EventQueue.v ===== *)
(** * The event queues of the interlogger

    The model of event_queue.c and of the life of a message in server_msg.c, both of
    org.glite.lb.logger/src, with the structures of interface/interlogd.h, and of
    event_store_commit of event_store.c, which the discarding of a message calls.

    Queue elements, messages and event stores are objects of a heap, one finite map for
    each type of object.  [malloc] chooses an address that is not in use (an address that
    was freed may be chosen again), [free] removes the object, and every use of an object
    that is not in the heap is the fault [DanglingPtr].  Allocations are taken to succeed.

    A queue is a ring of elements: [prev] leads from an element to the one to be sent
    after it, [next] back.  Each function is a step of one thread under the lock of its
    queue; the threads of a queue are numbered, [me] being a number.  The fields of a
    message that only the notification interlogger uses, the locks, conditions and
    sockets are left out. *)
From Stdlib Require Import ZArith Lia Ascii.
From stdpp Require Import base option list strings numbers gmap.
From S2P Require Import Prelude CLib JobId.
#[local] Open Scope Z_scope.

(** ** Objects *)
Definition addr := nat.

Record event_store := mkEventStore {
  es_event_file : string;        (* event_file_name *)
  es_control_file : string;      (* control_file_name *)
  es_job_id_s : string;
  last_committed_bs : Z;
  last_committed_ls : Z;
  es_offset : Z;
  last_modified : Z;
  es_generation : Z;
  rotate_index : Z
}.
#[export] Instance eta_event_store : Eta event_store := λ r,
  mkEventStore r.(es_event_file) r.(es_control_file) r.(es_job_id_s)
    r.(last_committed_bs) r.(last_committed_ls) r.(es_offset) r.(last_modified)
    r.(es_generation) r.(rotate_index).

Record server_msg := mkServerMsg {
  job_id_s : option string;
  msg_offset : Z;
  msg_data : string;             (* the [len] bytes of [msg] *)
  ev_len : Z;
  msg_es : addr;
  generation : Z;
  receipt_to : Z;
  expires : Z;
  use_count : Z
}.
#[export] Instance eta_server_msg : Eta server_msg := λ r,
  mkServerMsg r.(job_id_s) r.(msg_offset) r.(msg_data) r.(ev_len) r.(msg_es)
    r.(generation) r.(receipt_to) r.(expires) r.(use_count).

Record event_queue_msg := mkEventQueueMsg {
  el_msg : addr;
  el_prev : addr;
  el_next : addr;
  el_eq : addr
}.
#[export] Instance eta_event_queue_msg : Eta event_queue_msg := λ r,
  mkEventQueueMsg r.(el_msg) r.(el_prev) r.(el_next) r.(el_eq).

(** [jobid] points to the [job_id_s] of a message: it is the address of the message. *)
Record queue_thread := mkQueueThread {
  jobid : option addr;
  current : option addr
}.
#[export] Instance eta_queue_thread : Eta queue_thread := λ r,
  mkQueueThread r.(jobid) r.(current).

Record event_queue := mkEventQueue {
  dest : string;
  dest_name : string;
  dest_port : Z;
  head : option addr;
  tail_ems : option addr;
  thread : list queue_thread;    (* num_threads of them *)
  times_empty : Z;
  max_len : Z;
  cur_len : Z;
  throttling : bool
}.
#[export] Instance eta_event_queue : Eta event_queue := λ r,
  mkEventQueue r.(dest) r.(dest_name) r.(dest_port) r.(head) r.(tail_ems) r.(thread) r.(times_empty) r.(max_len)
    r.(cur_len) r.(throttling).

Record il := mkIl {
  elements : gmap addr event_queue_msg;
  msgs : gmap addr server_msg;
  queues : gmap addr event_queue;
  queue_list : list (string * addr);   (* the queues of the servers, by destination *)
  stores : gmap addr event_store;
  files : gmap string string     (* the event files and the control files *)
}.
#[export] Instance eta_il : Eta il := λ r,
  mkIl r.(elements) r.(msgs) r.(queues) r.(queue_list) r.(stores)
    r.(files).

(** The variables set by the options of the daemon, and the answers of the file system
    to the writing of a control file. *)
Record il_config := mkConfig {
  queue_size_low : Z;
  queue_size_high : Z;
  bs_only : bool;
  log_queue : option addr;
  ctl_writable : string → bool
}.

(** ** The heap *)
Class Malloc := {
  malloc : gset addr → addr;
  malloc_fresh X : malloc X ∉ X
}.
#[export] Instance malloc_least : Malloc := {| malloc X := fresh X; malloc_fresh := is_fresh |}.

Definition load {V} (h : gmap addr V) (p : addr) : outcome V :=
  match h !! p with Some v => Ret v | None => UB DanglingPtr end.
Definition notnull {A} (p : option A) : outcome A :=
  match p with Some a => Ret a | None => UB NullDeref end.

Abbreviation elements_map := (gmap addr event_queue_msg).
Definition set_prev (p v : addr) (h : elements_map) : outcome elements_map :=
  let! n := load h p in Ret (<[p := n <| el_prev := v |>]> h).
Definition set_next (p v : addr) (h : elements_map) : outcome elements_map :=
  let! n := load h p in Ret (<[p := n <| el_next := v |>]> h).

Definition set_queue (q : addr) (eq : event_queue) (w : il) : il :=
  w <| queues := <[q := eq]> w.(queues) |>.
Definition set_msg (p : addr) (m : server_msg) (w : il) : il :=
  w <| msgs := <[p := m]> w.(msgs) |>.

(** ** Messages *)

(** [strdup(job_id_s)] is not defined for NULL. *)
Definition server_msg_copy (src : server_msg) : outcome server_msg :=
  let! j := notnull src.(job_id_s) in
  Ret (src <| job_id_s := Some j |> <| use_count := 0 |>).

Definition server_msg_is_priority (m : server_msg) : bool := negb (m.(receipt_to) =? 0).

Definition server_msg_use (p : addr) (w : il) : outcome il :=
  let! m := load w.(msgs) p in
  let! n := add_int m.(use_count) 1 in
  Ret (set_msg p (m <| use_count := n |>) w).

Definition server_msg_release (p : addr) (w : il) : outcome (Z * il) :=
  let! m := load w.(msgs) p in
  let! n := add_int m.(use_count) (-1) in
  Ret (n, set_msg p (m <| use_count := n |>) w).

Definition server_msg_free (p : addr) (w : il) : outcome il :=
  let! '(n, w) := server_msg_release p w in
  Ret (if n <=? 0 then w <| msgs := delete p w.(msgs) |> else w).

(** ** Committing delivered events *)
Definition NEWLINE : string := String (chr 10) "".

(** [fprintf(ctl,"%s\n%ld\n%ld\n",...)] *)
Definition ctl_text (es : event_store) : string :=
  es.(es_job_id_s) +:+ NEWLINE +:+ (print_int es.(last_committed_ls) +:+ NEWLINE +:+
    (print_int es.(last_committed_bs) +:+ NEWLINE)).

Definition event_store_write_ctl (cfg : il_config) (es : event_store) (w : il) : Z * il :=
  if cfg.(ctl_writable) es.(es_control_file)
  then (0, w <| files := <[es.(es_control_file) := ctl_text es]> w.(files) |>)
  else (-1, w).

Definition event_store_commit (cfg : il_config) (p : addr) (len : Z) (ls : bool)
    (gen : Z) (w : il) : outcome (Z * il) :=
  let! es := load w.(stores) p in
  if negb (gen =? es.(es_generation)) then Ret (0, w) else
  let! es :=
    if ls then
      let! n := add_long es.(last_committed_ls) len in
      Ret (es <| last_committed_ls := n |>)
    else
      let! n := add_long es.(last_committed_bs) len in
      let es := es <| last_committed_bs := n |> in
      if cfg.(bs_only) then
        let! n := add_long es.(last_committed_ls) len in
        Ret (es <| last_committed_ls := n |>)
      else Ret es in
  let w := w <| stores := <[p := es]> w.(stores) |> in
  Ret (event_store_write_ctl cfg es w).

(** [eq == queue_list_get(NULL)] *)
Definition queue_list_is_log (cfg : il_config) (q : addr) : bool :=
  bool_decide (cfg.(log_queue) = Some q).

(** ** Operations of a queue *)
(** The destination without its scheme is split at the last colon or, if there is none,
    at the first slash; what follows a colon is the port.  [notifications] is the variant
    for notifications. *)
Definition split_dest (s : string) : string * option string :=
  match strrchr s ":"%char with
  | Some p => (str_take (String.length s - String.length p) s, Some (str_drop 1 p))
  | None =>
    match strchr s "/"%char with
    | Some p => (str_take (String.length s - String.length p) s, None)
    | None => (s, None)
    end
  end.

Definition event_queue_create (notifications : bool) (server_name : string) :
    outcome event_queue :=
  let s := match strstr server_name "://" with
           | Some s => str_drop 3 s | None => server_name end in
  let '(name, port) := split_dest s in
  let! port :=
    if notifications then Ret (match port with Some p => atoi p | None => 0 end)
    else match port with
         | Some p => add_int (atoi p) 1
         | None => Ret (GLITE_JOBID_DEFAULT_PORT + 1) end in
  Ret (mkEventQueue server_name name port None None [] 0 0 0 false).

(** [calloc] of the threads, once. *)
Definition event_queue_create_thread (num_threads : nat) (eq : event_queue) : event_queue :=
  match eq.(thread) with
  | [] => eq <| thread := replicate num_threads (mkQueueThread None None) |>
  | _ => eq
  end.

Definition event_queue_empty (q : addr) (w : il) : outcome bool :=
  let! eq := load w.(queues) q in
  Ret (bool_decide (eq.(head) = None)).

(** The new element [el] is linked into the ring: the new ring, [head] and [tail_ems]. *)
Definition insert_element (el mp q : addr) (prio : bool) (eq : event_queue)
    (h : elements_map) : outcome (elements_map * option addr * option addr) :=
  match eq.(head) with
  | None => Ret (<[el := mkEventQueueMsg mp el el q]> h, Some el, Some el)
  | Some hd =>
    let! at_ := if prio then notnull eq.(tail_ems) else Ret hd in
    let! n := load h at_ in
    let h := <[el := mkEventQueueMsg mp at_ n.(el_next) q]> h in
    let! h := set_prev n.(el_next) el h in
    let! h := set_next at_ el h in
    Ret (h, if prio && bool_decide (eq.(head) = eq.(tail_ems)) then Some el else Some hd,
         eq.(tail_ems))
  end.

(** [++eq->cur_len > eq->max_len] *)
Definition count_insert (eq : event_queue) : outcome event_queue :=
  let! n := add_int eq.(cur_len) 1 in
  Ret (eq <| cur_len := n |> <| max_len := Z.max eq.(max_len) n |>).

Section queue.
Context `{Malloc} (cfg : il_config).

Definition queue_is_full (eq : event_queue) : bool :=
  (0 <? cfg.(queue_size_high))
  && ((cfg.(queue_size_high) <=? eq.(cur_len)) || eq.(throttling)).

Definition event_queue_insert (q : addr) (m : server_msg) (w : il) : outcome (Z * il) :=
  let! eq := load w.(queues) q in
  if queue_is_full eq then Ret (1, set_queue q (eq <| throttling := true |>) w) else
  let el := malloc (dom w.(elements)) in
  let! c := server_msg_copy m in
  let mp := malloc (dom w.(msgs)) in
  let w := set_msg mp c w in
  let! '(h, hd, te) :=
    insert_element el mp q (server_msg_is_priority m) eq w.(elements) in
  let! eq := count_insert (eq <| head := hd |> <| tail_ems := te |>) in
  Ret (0, set_queue q eq (w <| elements := h |>)).

(** [strcmp] of two [job_id_s]. *)
Definition same_job (a b : server_msg) : outcome bool :=
  let! x := notnull a.(job_id_s) in
  let! y := notnull b.(job_id_s) in
  Ret (bool_decide (x = y)).

(** The loop over the threads from number [i] on: is a thread other than [me] working on
    the job of the message? *)
Fixpoint other_works (me i : nat) (ths : list queue_thread) (m : server_msg) (w : il) :
    outcome bool :=
  match ths with
  | [] => Ret false
  | t :: ths =>
    if decide (i = me) then other_works me (S i) ths m w else
    match t.(jobid) with
    | None => other_works me (S i) ths m w
    | Some p =>
      let! m' := load w.(msgs) p in
      let! b := same_job m m' in
      if b then Ret true else other_works me (S i) ths m w
    end
  end.

(** The loop over the elements, from [el]. *)
Fixpoint find_free (fuel : nat) (me : nat) (ths : list queue_thread) (hd el : addr)
    (w : il) : outcome (option addr) :=
  match fuel with
  | O => UB NoFuel
  | S fuel =>
    let! n := load w.(elements) el in
    let! m := load w.(msgs) n.(el_msg) in
    let! busy := other_works me 0 ths m w in
    if negb busy then Ret (Some el)
    else if decide (n.(el_prev) = hd) then Ret None
    else find_free fuel me ths hd n.(el_prev) w
  end.

Definition forget_current (t : queue_thread) : queue_thread :=
  match t.(jobid) with Some _ => mkQueueThread None None | None => t end.

(** [want] is [msg != NULL].  The result is [found] with the message. *)
Definition event_queue_get (q : addr) (me : nat) (want : bool) (w : il) :
    outcome (option addr * bool * il) :=
  let! eq := load w.(queues) q in
  let eq := eq <| thread := alter forget_current me eq.(thread) |> in
  match eq.(head) with
  | None => Ret (None, false, set_queue q eq w)
  | Some hd =>
    let! found := find_free (size w.(elements)) me eq.(thread) hd hd w in
    match found with
    | Some el =>
      if want then
        let! n := load w.(elements) el in
        let eq := eq <| thread := <[me := mkQueueThread (Some n.(el_msg)) (Some el)]>
                          eq.(thread) |> in
        let! w := server_msg_use n.(el_msg) (set_queue q eq w) in
        Ret (Some n.(el_msg), true, w)
      else Ret (None, true, set_queue q eq w)
    | None => Ret (None, false, set_queue q eq w)
    end
  end.

(** The element leaves the ring: the new ring, [head] and [tail_ems]. *)
Definition unlink_element (el : addr) (eq : event_queue) (h : elements_map) :
    outcome (elements_map * option addr * option addr) :=
  let! n := load h el in
  if decide (el = n.(el_prev)) then Ret (h, None, None) else
  let! h := set_prev n.(el_next) n.(el_prev) h in
  let! h := set_next n.(el_prev) n.(el_next) h in
  Ret (h,
    if bool_decide (eq.(head) = Some el) then Some n.(el_prev) else eq.(head),
    if bool_decide (eq.(tail_ems) = Some el) then Some n.(el_prev) else eq.(tail_ems)).

Definition low_water (eq : event_queue) : event_queue :=
  if eq.(cur_len) <=? cfg.(queue_size_low) then eq <| throttling := false |> else eq.

Definition count_remove (eq : event_queue) : outcome event_queue :=
  let! n := add_int eq.(cur_len) (-1) in
  let eq := eq <| cur_len := n |> in
  if n =? 0 then
    let! e := add_int eq.(times_empty) 1 in Ret (eq <| times_empty := e |>)
  else Ret eq.

(** [free(el)] *)
Definition free_element (el : addr) (w : il) : outcome il :=
  let! _ := load w.(elements) el in
  Ret (w <| elements := delete el w.(elements) |>).

Definition event_queue_remove (q : addr) (me : nat) (w : il) : outcome (Z * il) :=
  let! eq := load w.(queues) q in
  match eq.(thread) !! me with
  | None => UB OutOfBounds
  | Some t =>
    match t.(current) with
    | None => Ret (-1, w)
    | Some el =>
      let eq := eq <| thread := <[me := mkQueueThread None None]> eq.(thread) |> in
      let! n := load w.(elements) el in
      if decide (q = n.(el_eq)) then
        let! '(h, hd, te) := unlink_element el eq w.(elements) in
        let! eq := count_remove (eq <| head := hd |> <| tail_ems := te |>) in
        let w := set_queue q (low_water eq) (w <| elements := h |>) in
        let! w := server_msg_free n.(el_msg) w in
        let! w := free_element el w in
        Ret (0, w)
      else
        let! '(_, w) := server_msg_release n.(el_msg) (set_queue q eq w) in
        Ret (0, w)
    end
  end.

(** The end of a round of queue_thread. *)
Definition queue_thread_round_end (q : addr) (me : nat) (w : il) : outcome il :=
  let! eq := load w.(queues) q in
  Ret (set_queue q (eq <| thread := alter forget_current me eq.(thread) |>) w).

(** ** Moving messages to another queue, or to the trash *)

(** The element [el] of the heap is appended to the queue. *)
Definition append_element (el q : addr) (eq : event_queue) (h : elements_map) :
    outcome (elements_map * option addr * option addr) :=
  let! n := load h el in
  match eq.(head) with
  | None =>
    Ret (<[el := mkEventQueueMsg n.(el_msg) el el q]> h, Some el, Some el)
  | Some hd =>
    let! x := load h hd in
    let h := <[el := mkEventQueueMsg n.(el_msg) hd x.(el_next) q]> h in
    let! h := set_prev x.(el_next) el h in
    let! h := set_next hd el h in
    Ret (h, Some hd, eq.(tail_ems))
  end.

(** A message leaves [q_s] for [q_d]; [None] is the trash. *)
Definition move_element (q_s : addr) (q_d : option addr) (el : addr) (w : il) : outcome il :=
  let! n := load w.(elements) el in
  let! eq := load w.(queues) q_s in
  let! '(h, hd, te) := unlink_element el eq w.(elements) in
  let! len := add_int eq.(cur_len) (-1) in
  let w := set_queue q_s (eq <| head := hd |> <| tail_ems := te |> <| cur_len := len |>)
             (w <| elements := h |>) in
  match q_d with
  | Some d =>
    let! eq := load w.(queues) d in
    let! '(h, hd, te) := append_element el d eq w.(elements) in
    let! eq := count_insert (eq <| head := hd |> <| tail_ems := te |>) in
    Ret (set_queue d eq (w <| elements := h |>))
  | None =>
    let! m := load w.(msgs) n.(el_msg) in
    let! '(_, w) := event_store_commit cfg m.(msg_es) m.(ev_len)
                      (queue_list_is_log cfg q_s) m.(generation) w in
    let! w := server_msg_free n.(el_msg) w in
    free_element el w
  end.

(** [cmp_func] may change the message. *)
Fixpoint move_loop (fuel : nat) (cmp_func : server_msg → outcome (bool * server_msg))
    (q_s : addr) (q_d : option addr) (last p : addr) (w : il) : outcome il :=
  match fuel with
  | O => UB NoFuel
  | S fuel =>
    let! n := load w.(elements) p in
    let! m := load w.(msgs) n.(el_msg) in
    let! '(selected, m) := cmp_func m in
    let w := set_msg n.(el_msg) m w in
    let! w := if selected then move_element q_s q_d p w else Ret w in
    let! eq := load w.(queues) q_s in
    if bool_decide (eq.(head) = None) || bool_decide (n.(el_prev) = last) then Ret w
    else move_loop fuel cmp_func q_s q_d last n.(el_prev) w
  end.

(** Locking a queue twice aborts. *)
Definition event_queue_move_events (q_s : addr) (q_d : option addr)
    (cmp_func : server_msg → outcome (bool * server_msg)) (w : il) : outcome (Z * il) :=
  let! eq := load w.(queues) q_s in
  match eq.(head) with
  | None => Ret (0, w)
  | Some p =>
    if decide (q_d = Some q_s) then UB AssertFailed else
    let! n := load w.(elements) p in
    let! w := move_loop (size w.(elements)) cmp_func q_s q_d n.(el_next) p w in
    let! eq := load w.(queues) q_s in
    Ret (0, set_queue q_s (low_water eq) w)
  end.
End queue.

(** The selections that the daemon uses. *)
Definition cmp_expires (now : Z) (m : server_msg) : outcome (bool * server_msg) :=
  Ret ((0 <? m.(expires)) && (m.(expires) <? now), m).
Definition is_job (job : string) (m : server_msg) : outcome bool :=
  let! j := notnull m.(job_id_s) in Ret (bool_decide (j = job)).
Definition cmp_jobid (job : string) (m : server_msg) : outcome (bool * server_msg) :=
  let! b := is_job job m in Ret (b, m).
Definition cmp_jobid_set_exp (job : string) (exp : Z) (m : server_msg) :
    outcome (bool * server_msg) :=
  let! b := is_job job m in Ret (false, if b then m <| expires := exp |> else m).
