(* ===== verification/QueueRing.v ===== *)
(** * Rings of queue elements

    The elements of a queue as a list: a ring whose [prev] pointers lead from each element
    of the list to the following one and from the last to the first, the [next] pointers
    back.  What linking an element in, linking it out and freeing it mean for the list. *)
From Stdlib Require Import ZArith Lia.
From stdpp Require Import base option list gmap.
From S2P Require Import Prelude EventQueue.

Implicit Types (h : elements_map) (a b c d n : addr) (l : list addr).

(** [b] is sent after [a]. *)
Definition linked h a b : Prop :=
  el_prev <$> h !! a = Some b ∧ el_next <$> h !! b = Some a.

Definition chain h l : Prop :=
  ∀ i a b, l !! i = Some a → l !! S i = Some b → linked h a b.

Definition ring h l : Prop :=
  NoDup l ∧ chain h l ∧ ∀ a b, last l = Some a → hd_error l = Some b → linked h a b.

(** ** Lists *)
Lemma chain_nil h : chain h [].
Proof. intros i a b Ha. by rewrite lookup_nil in Ha. Qed.

Lemma chain_cons h a l :
  chain h (a :: l) ↔ (∀ b, hd_error l = Some b → linked h a b) ∧ chain h l.
Proof.
  split.
  - intros C. split; [|intros i; exact (C (S i))].
    intros b Hb. apply (C 0%nat); [done|]. by destruct l.
  - intros [Hab C] [|i] x y Hx Hy; simplify_eq/=; [|by eapply C].
    apply Hab. by destruct l.
Qed.

Lemma hd_app l1 l2 :
  hd_error (l1 ++ l2) = match l1 with [] => hd_error l2 | a :: _ => Some a end.
Proof. by destruct l1. Qed.
Lemma last_app l1 l2 : last (l1 ++ l2) = match last l2 with Some b => Some b | None => last l1 end.
Proof. apply last_app. Qed.

Lemma chain_app h l1 l2 :
  chain h (l1 ++ l2) ↔
  chain h l1 ∧ chain h l2 ∧
  (∀ a b, last l1 = Some a → hd_error l2 = Some b → linked h a b).
Proof.
  induction l1 as [|x l1 IH]; simpl.
  - split; [intros C; split; [apply chain_nil|done] | by intros (_ & C & _)].
  - rewrite !chain_cons, IH, hd_app. destruct l1 as [|y l1].
    + split.
      * intros (A & B & C & D). split; [split; [done|apply chain_nil]|]. split; [done|].
        intros a b [= <-]. apply A.
      * intros ((A & B) & C & D). split; [by intros b; apply D|]. split; [apply chain_nil|].
        split; [done|]. done.
    + change (last (x :: y :: l1)) with (last (y :: l1)). cbn [hd_error list.head]. tauto.
Qed.

Lemma ring_rotate h l1 l2 : ring h (l1 ++ l2) → ring h (l2 ++ l1).
Proof.
  destruct l1 as [|x l1]; [by rewrite app_nil_r|].
  destruct l2 as [|y l2]; [by rewrite app_nil_r|].
  intros (ND & C & E). rewrite chain_app in C. destruct C as (C1 & C2 & L).
  split; [by rewrite (Permutation_app_comm (y :: l2) (x :: l1))|].
  assert (∀ l z l', ∃ v, last (z :: l') = Some v ∧ last (l ++ z :: l') = Some v) as Last.
  { intros l z l'. destruct (last_is_Some (z :: l')) as [_ [v Hv]]; [done|].
    exists v. by rewrite last_app, Hv. }
  destruct (Last (x :: l1) y l2) as (v & Hv1 & Hv2).
  destruct (Last (y :: l2) x l1) as (u & Hu1 & Hu2).
  split.
  - apply chain_app. split; [done|]. split; [done|]. intros a b Ha Hb. apply E; [congruence|done].
  - intros a b Ha Hb. apply L; [congruence|done].
Qed.

Lemma ring_singleton h a : linked h a a → ring h [a].
Proof.
  intros L. split; [apply NoDup_singleton|]. split; [|by intros b c [= <-] [= <-]].
  apply chain_cons. split; [done | apply chain_nil].
Qed.

(** Every element of a ring is in the heap. *)
Lemma ring_in_heap h l a : ring h l → a ∈ l → is_Some (h !! a).
Proof.
  intros (_ & C & E) Ha.
  apply list_elem_of_lookup in Ha as [i Hi].
  destruct (l !! S i) as [b|] eqn:Hb.
  - destruct (C _ _ _ Hi Hb) as [Hl _]. by destruct (h !! a).
  - assert (last l = Some a) as Hl.
    { rewrite last_lookup. apply lookup_ge_None in Hb.
      pose proof (lookup_lt_Some _ _ _ Hi). by replace (pred (length l)) with i by lia. }
    destruct (hd_error l) as [b|] eqn:Hh; [|destruct l; discriminate].
    destruct (E a b Hl eq_refl) as [Ha _]. by destruct (h !! a).
Qed.

(** ** Changes of the heap *)

(** A chain only depends on [prev] of all its elements but the last one and on [next] of
    all but the first one. *)
Lemma chain_frame h h' l :
  NoDup l → chain h l →
  (∀ a, a ∈ l → last l ≠ Some a → el_prev <$> h' !! a = el_prev <$> h !! a) →
  (∀ a, a ∈ l → hd_error l ≠ Some a → el_next <$> h' !! a = el_next <$> h !! a) →
  chain h' l.
Proof.
  intros ND C P N i a b Ha Hb. destruct (C i a b Ha Hb) as [Hp Hn].
  split.
  - rewrite P; [done | by eapply list_elem_of_lookup_2 |].
    rewrite last_lookup. intros Hl.
    pose proof (NoDup_lookup _ _ _ _ ND Ha Hl). apply lookup_lt_Some in Hb. lia.
  - rewrite N; [done | by eapply list_elem_of_lookup_2 |].
    intros Hh. assert (l !! 0 = Some b) as H0 by by destruct l.
    pose proof (NoDup_lookup _ _ _ _ ND Hb H0). lia.
Qed.

Lemma ring_frame h h' l :
  ring h l → (∀ a, a ∈ l → h' !! a = h !! a) → ring h' l.
Proof.
  intros (ND & C & E) F. split; [done|]. split.
  - eapply chain_frame; [done..| |]; intros a Ha _; by rewrite F.
  - intros a b Ha Hb. destruct (E a b Ha Hb) as [Hp Hn].
    split; rewrite F; auto.
    + by apply last_Some_elem_of.
    + destruct l; simplify_eq/=. set_solver.
Qed.

(** ** Stores through a pointer *)
Definition upd_prev p v h : elements_map := alter (λ x, x <| el_prev := v |>) p h.
Definition upd_next p v h : elements_map := alter (λ x, x <| el_next := v |>) p h.

Lemma set_prev_ok p v h : is_Some (h !! p) → set_prev p v h = Ret (upd_prev p v h).
Proof.
  intros [x Hx]. unfold set_prev, load, upd_prev. rewrite Hx. simpl. f_equal.
  apply map_eq. intros i. destruct (decide (i = p)) as [->|Hi]; simplify_map_eq; done.
Qed.
Lemma set_next_ok p v h : is_Some (h !! p) → set_next p v h = Ret (upd_next p v h).
Proof.
  intros [x Hx]. unfold set_next, load, upd_next. rewrite Hx. simpl. f_equal.
  apply map_eq. intros i. destruct (decide (i = p)) as [->|Hi]; simplify_map_eq; done.
Qed.

(** What a store changes, field by field. *)
Lemma prev_upd_prev p v h c :
  el_prev <$> upd_prev p v h !! c =
  if decide (c = p) then (λ _, v) <$> h !! c else el_prev <$> h !! c.
Proof.
  unfold upd_prev. destruct (decide (c = p)) as [->|N]; [rewrite lookup_alter_eq | rewrite lookup_alter_ne by done; done].
  by destruct (h !! p).
Qed.
Lemma next_upd_next p v h c :
  el_next <$> upd_next p v h !! c =
  if decide (c = p) then (λ _, v) <$> h !! c else el_next <$> h !! c.
Proof.
  unfold upd_next. destruct (decide (c = p)) as [->|N]; [rewrite lookup_alter_eq | rewrite lookup_alter_ne by done; done].
  by destruct (h !! p).
Qed.
Lemma next_upd_prev p v h c : el_next <$> upd_prev p v h !! c = el_next <$> h !! c.
Proof.
  unfold upd_prev. destruct (decide (c = p)) as [->|N]; [rewrite lookup_alter_eq | rewrite lookup_alter_ne by done; done].
  by destruct (h !! p).
Qed.
Lemma prev_upd_next p v h c : el_prev <$> upd_next p v h !! c = el_prev <$> h !! c.
Proof.
  unfold upd_next. destruct (decide (c = p)) as [->|N]; [rewrite lookup_alter_eq | rewrite lookup_alter_ne by done; done].
  by destruct (h !! p).
Qed.

(** What a queue element holds besides its links. *)
Definition core (x : event_queue_msg) : addr * addr := (x.(el_msg), x.(el_eq)).

Lemma core_upd_prev p v h c : core <$> upd_prev p v h !! c = core <$> h !! c.
Proof.
  unfold upd_prev. destruct (decide (c = p)) as [->|N]; [rewrite lookup_alter_eq | rewrite lookup_alter_ne by done; done].
  by destruct (h !! p).
Qed.
Lemma core_upd_next p v h c : core <$> upd_next p v h !! c = core <$> h !! c.
Proof.
  unfold upd_next. destruct (decide (c = p)) as [->|N]; [rewrite lookup_alter_eq | rewrite lookup_alter_ne by done; done].
  by destruct (h !! p).
Qed.
Lemma upd_prev_ne p v h c : c ≠ p → upd_prev p v h !! c = h !! c.
Proof. intros. unfold upd_prev. by rewrite lookup_alter_ne. Qed.
Lemma upd_next_ne p v h c : c ≠ p → upd_next p v h !! c = h !! c.
Proof. intros. unfold upd_next. by rewrite lookup_alter_ne. Qed.
Lemma is_Some_upd_prev p v h c : is_Some (upd_prev p v h !! c) ↔ is_Some (h !! c).
Proof. rewrite <- !(fmap_is_Some el_next). by rewrite next_upd_prev. Qed.
Lemma is_Some_upd_next p v h c : is_Some (upd_next p v h !! c) ↔ is_Some (h !! c).
Proof. rewrite <- !(fmap_is_Some el_prev). by rewrite prev_upd_next. Qed.

Create Rewrite HintDb ring.
#[export] Hint Rewrite prev_upd_prev next_upd_next next_upd_prev prev_upd_next
  core_upd_prev core_upd_next is_Some_upd_prev is_Some_upd_next : ring.

(** ** Linking an element in before the first one *)
Lemma ring_link_in h n x a b l :
  ring h (b :: l) → last (b :: l) = Some a → h !! n = Some x → n ∉ b :: l →
  el_prev x = b → el_next x = a →
  ring (upd_next b n (upd_prev a n h)) (n :: b :: l).
Proof.
  intros R La Hn Nn Hp Hx. pose proof R as (ND & C & E).
  assert (a ∈ b :: l) as Ha by by apply last_Some_elem_of.
  assert (n ≠ a ∧ n ≠ b) as [Na Nb] by set_solver.
  set (h' := upd_next b n (upd_prev a n h)).
  assert (linked h' n b) as Lnb.
  { destruct (ring_in_heap _ _ b R ltac:(set_solver)) as [y Hy].
    unfold linked, h'. autorewrite with ring.
    rewrite decide_False, decide_True by done. rewrite Hn. simpl. rewrite Hp.
    split; [done|]. pose proof (upd_prev_ne a n h b).
    destruct (decide (b = a)) as [->|]; [|rewrite H by done; by rewrite Hy].
    unfold upd_prev. rewrite lookup_alter_eq, Hy. done. }
  assert (linked h' a n) as Lan.
  { destruct (ring_in_heap _ _ a R Ha) as [y Hy].
    unfold linked, h'. autorewrite with ring.
    rewrite decide_True, decide_False by done. rewrite Hy, Hn. simpl. by rewrite Hx. }
  split; [by apply NoDup_cons|]. split.
  - apply chain_cons. split; [by intros ? [= <-]|].
    apply (chain_frame h); [done..| |]; intros c Hc Hl; unfold h'; autorewrite with ring;
      rewrite decide_False; try done; intros ->.
    + by apply Hl.
    + by apply Hl.
  - intros c d Hc [= <-]. change (last (b :: l) = Some c) in Hc. congruence.
Qed.

(** ** Linking the first element out *)
Lemma ring_link_out h n a b l :
  ring h (n :: l) → last l = Some a → hd_error l = Some b →
  ring (upd_next b a (upd_prev a b h)) l.
Proof.
  intros R La Hb. pose proof R as (ND & C & E).
  apply NoDup_cons in ND as [Nn ND]. apply chain_cons in C as [_ C].
  assert (a ∈ l) as Ha by by apply last_Some_elem_of.
  assert (b ∈ l) as Hb' by (destruct l; simplify_eq/=; left).
  split; [done|]. split.
  - apply (chain_frame h); [done..| |]; intros c Hc Hl; autorewrite with ring;
      rewrite decide_False; try done; intros ->; by apply Hl.
  - rewrite La, Hb. intros ? ? [= <-] [= <-]. unfold linked. autorewrite with ring.
    rewrite !decide_True by done.
    destruct (ring_in_heap _ _ a R ltac:(by right)) as [y Hy].
    destruct (ring_in_heap _ _ b R ltac:(by right)) as [z Hz].
    rewrite Hy. split; [done|]. unfold upd_prev.
    destruct (decide (b = a)) as [->|Nd];
      [rewrite lookup_alter_eq | rewrite lookup_alter_ne by done]; by rewrite Hz.
Qed.

(** The neighbours of an element in the middle of a ring. *)
Lemma ring_neighbours h n l1 l2 x :
  ring h (l1 ++ n :: l2) → h !! n = Some x →
  hd_error (l2 ++ l1 ++ [n]) = Some (el_prev x) ∧
  last (n :: l2 ++ l1) = Some (el_next x).
Proof.
  intros R Hx. apply ring_rotate in R. simpl in R. destruct R as (ND & C & E).
  split.
  - apply chain_cons in C as [L _]. destruct (hd_error (l2 ++ l1)) as [b|] eqn:Hb.
    + destruct (L _ eq_refl) as [Hp _]. rewrite Hx in Hp. simplify_eq/=.
      rewrite (assoc_L (++)), hd_app. destruct (l2 ++ l1); [done|]. done.
    + destruct (l2 ++ l1) eqn:Hl; [|done]. apply app_eq_nil in Hl as [-> ->]. simpl.
      destruct (E n n eq_refl eq_refl) as [Hp _]. by rewrite Hx in Hp.
  - destruct (last_is_Some (n :: l2 ++ l1)) as [_ [a Ha]]; [done|]. rewrite Ha.
    destruct (E a n Ha eq_refl) as [_ Hn]. rewrite Hx in Hn. by simplify_eq/=.
Qed.

(** ** Both, anywhere in the ring *)

(** Only links of the elements of [l] have changed. *)
Definition relinked h h' l : Prop :=
  (∀ c, core <$> h' !! c = core <$> h !! c) ∧ (∀ c, c ∉ l → h' !! c = h !! c).

Lemma relinked_upd h a b v v' l :
  a ∈ l → b ∈ l → relinked h (upd_next b v' (upd_prev a v h)) l.
Proof.
  intros Ha Hb. split; intros c; [by autorewrite with ring|].
  intros Hc. rewrite upd_next_ne, upd_prev_ne; [done|congruence|congruence].
Qed.

Lemma relinked_some h h' l c : relinked h h' l → is_Some (h' !! c) ↔ is_Some (h !! c).
Proof. intros [R _]. rewrite <- !(fmap_is_Some core). by rewrite R. Qed.

Lemma ring_next_of_first h b l y :
  ring h (b :: l) → h !! b = Some y → last (b :: l) = Some (el_next y).
Proof.
  intros (_ & _ & E) Hy. destruct (last_is_Some (b :: l)) as [_ [a Ha]]; [done|].
  destruct (E a b Ha eq_refl) as [_ Hn]. rewrite Hy in Hn. rewrite Ha. by simplify_eq/=.
Qed.

Lemma link_in_at h n mp q b l1 l2 :
  ring h (l1 ++ l2) → hd_error (l2 ++ l1) = Some b → h !! n = None →
  ∃ y h', h !! b = Some y ∧
    (let! h := set_prev y.(el_next) n (<[n := mkEventQueueMsg mp b y.(el_next) q]> h) in
     set_next b n h) = Ret h' ∧
    ring h' (l1 ++ n :: l2) ∧
    relinked (<[n := mkEventQueueMsg mp b y.(el_next) q]> h) h' (l1 ++ l2).
Proof.
  intros R Hb Hn. apply ring_rotate in R.
  destruct (l2 ++ l1) as [|b' l] eqn:Hl; [done|]. simplify_eq/=.
  destruct (ring_in_heap _ _ b R ltac:(left)) as [y Hy].
  pose proof (ring_next_of_first _ _ _ _ R Hy) as La. set (a := el_next y) in *.
  assert (∀ c, c ∈ b :: l → c ≠ n) as Nn.
  { intros c Hc ->. destruct (ring_in_heap _ _ _ R Hc) as [? ?]. congruence. }
  set (h1 := <[n := mkEventQueueMsg mp b a q]> h).
  assert (ring h1 (b :: l)) as R1.
  { apply (ring_frame h); [done|]. intros c Hc. unfold h1.
    rewrite lookup_insert_ne; [done|]. symmetry. by apply Nn. }
  assert (a ∈ b :: l) as Ha by by apply last_Some_elem_of.
  exists y. exists (upd_next b n (upd_prev a n h1)). split; [done|].
  rewrite set_prev_ok by by eapply ring_in_heap. cbn [obind].
  rewrite set_next_ok by (rewrite is_Some_upd_prev; eapply ring_in_heap; [done|left]).
  split; [done|]. split.
  - apply (ring_rotate _ (n :: l2) l1). rewrite <- app_comm_cons, Hl.
    eapply ring_link_in; [done..| by unfold h1; rewrite lookup_insert_eq | | done | done].
    intros In. by apply (Nn n).
  - apply relinked_upd; rewrite (Permutation_app_comm l1 l2), Hl; [done | left].
Qed.

Lemma unlink_at h n l1 l2 x :
  ring h (l1 ++ n :: l2) → h !! n = Some x → l1 ++ l2 ≠ [] →
  hd_error (l2 ++ l1) = Some x.(el_prev) ∧ n ≠ x.(el_prev) ∧
  ∃ h', (let! h := set_prev x.(el_next) x.(el_prev) h in
         set_next x.(el_prev) x.(el_next) h) = Ret h' ∧
    ring h' (l1 ++ l2) ∧ relinked h h' (l1 ++ l2).
Proof.
  intros R Hx Ne. destruct (ring_neighbours _ _ _ _ _ R Hx) as [Hb Ha].
  apply ring_rotate in R. simpl in R.
  destruct (l2 ++ l1) as [|b l] eqn:Hl.
  { by apply app_eq_nil in Hl as [-> ->]. }
  rewrite (assoc_L (++)), Hl in Hb. simpl in Hb. injection Hb as Hb.
  change (last (b :: l) = Some (el_next x)) in Ha.
  assert (n ∉ b :: l) as Nn by by (destruct R as [[? ?]%NoDup_cons _]).
  assert (el_next x ∈ b :: l) as In by by apply last_Some_elem_of.
  split; [simpl; congruence|]. split; [intros ->; apply Nn; rewrite <- Hb; left|].
  exists (upd_next (el_prev x) (el_next x) (upd_prev (el_next x) (el_prev x) h)).
  rewrite set_prev_ok by (eapply ring_in_heap; [done|by right]). cbn [obind].
  rewrite set_next_ok by (rewrite is_Some_upd_prev, <- Hb; eapply ring_in_heap; [done|right; left]).
  split; [done|]. split.
  - apply (ring_rotate _ l2 l1). rewrite Hl.
    eapply ring_link_out; [done|done|]. simpl. congruence.
  - apply relinked_upd; rewrite (Permutation_app_comm l1 l2), Hl; [done|].
    rewrite <- Hb. left.
Qed.

(** A ring of one element leads to itself. *)
Lemma ring_alone h n x : ring h [n] → h !! n = Some x → el_prev x = n.
Proof. intros R Hx. by destruct (ring_neighbours h n [] [] x R Hx) as [[= ->] _]. Qed.
