(* ===== verification/QueueSpec.v ===== *)
(** * What an event queue is: the abstract specification

    A queue is the list of its messages in the order in which they are to be sent, the
    place where priority messages are put, and for each delivery thread the message that
    it is sending.  Messages have an identity, a number, besides their contents.  The
    functions say what the operations of a queue mean; EventQueueProps proves that the
    rings of EventQueue implement them.  Here are the facts on the specification alone:
    its invariant, by which no two threads send messages of the same job, and the order in
    which the messages of a job leave. *)
From Stdlib Require Import ZArith Lia.
From stdpp Require Import base option list strings.
From S2P Require Import Prelude EventQueue.
#[local] Open Scope Z_scope.

Abbreviation item := (addr * server_msg)%type.
Implicit Types (n : addr) (m : server_msg) (it : item) (its : list item).

Record aqueue := mkAqueue {
  items : list item;               (* in the order of sending *)
  mark : option addr;              (* priority messages are put before this one *)
  work : list (option item);       (* what each thread is sending *)
  full : bool                      (* insertions are refused *)
}.
#[export] Instance eta_aqueue : Eta aqueue := λ r,
  mkAqueue r.(items) r.(mark) r.(work) r.(full).

Definition job it : option string := it.2.(job_id_s).

(** ** Operations *)
Fixpoint insert_before n it its : list item :=
  match its with
  | [] => [it]
  | x :: its => if decide (x.1 = n) then it :: x :: its else x :: insert_before n it its
  end.

Definition spec_insert it (s : aqueue) : aqueue :=
  match s.(items), s.(mark) with
  | [], _ => s <| items := [it] |> <| mark := Some it.1 |>
  | its, Some n =>
    s <| items := if server_msg_is_priority it.2 then insert_before n it its
                  else its ++ [it] |>
  | its, None => s <| items := its ++ [it] |>
  end.

(** The job is being worked on by another thread. *)
Definition busy (me : nat) (ws : list (option item)) (j : option string) : bool :=
  existsb (λ '(i, o), match o with
                      | Some it => negb (i =? me)%nat && bool_decide (job it = j)
                      | None => false end)
    (zip (seq 0 (length ws)) ws).

Definition spec_found (me : nat) (s : aqueue) : option item :=
  find (λ it, negb (busy me s.(work) (job it))) s.(items).

Definition spec_get (me : nat) (want : bool) (s : aqueue) : aqueue :=
  s <| work := <[me := if want then spec_found me s else None]> s.(work) |>.

Fixpoint remove_item n its : list item :=
  match its with
  | [] => []
  | x :: its => if decide (x.1 = n) then its else x :: remove_item n its
  end.

(** The item after [n], the first one after the last one. *)
Fixpoint after_in n its : option addr :=
  match its with
  | [] => None
  | x :: its => if decide (x.1 = n) then fst <$> hd_error its else after_in n its
  end.
Definition after n its : option addr :=
  match after_in n its with
  | Some b => Some b
  | None => fst <$> hd_error (remove_item n its)
  end.

Definition spec_remove (low : Z) (me : nat) (s : aqueue) : aqueue :=
  match s.(work) !! me with
  | Some (Some (n, _)) =>
    let its := remove_item n s.(items) in
    mkAqueue its (if decide (s.(mark) = Some n) then after n s.(items) else s.(mark))
      (<[me := None]> s.(work))
      (if Z.of_nat (length its) <=? low then false else s.(full))
  | _ => s
  end.

Definition spec_forget (me : nat) (s : aqueue) : aqueue :=
  s <| work := <[me := None]> s.(work) |>.

(** ** The invariant *)
Definition normal_of (j : string) its : list item :=
  filter (λ it, job it = Some j ∧ server_msg_is_priority it.2 = false) its.

Record spec_ok (s : aqueue) : Prop := {
  ok_ids : NoDup (s.(items).*1);
  ok_jobs : Forall (λ it, is_Some (job it)) s.(items);
  ok_mark : match s.(items) with [] => s.(mark) = None
            | _ => ∃ n, s.(mark) = Some n ∧ n ∈ s.(items).*1 end;
  ok_work : ∀ i it, s.(work) !! i = Some (Some it) → it ∈ s.(items);
  (* no two threads work on the same job *)
  ok_exclusive : ∀ i i' it it', s.(work) !! i = Some (Some it) →
    s.(work) !! i' = Some (Some it') → job it = job it' → i = i';
  (* a normal message that is being sent is the first one of its job *)
  ok_first : ∀ i it j, s.(work) !! i = Some (Some it) → job it = Some j →
    server_msg_is_priority it.2 = false → hd_error (normal_of j s.(items)) = Some it
}.

(** ** Positions in the queue *)
Lemma item_split n its :
  n ∈ its.*1 → ∃ l1 x l2, its = l1 ++ x :: l2 ∧ x.1 = n ∧ (n ∉ l1.*1).
Proof.
  induction its as [|y its IH]; simpl; [by intros ?%elem_of_nil|].
  intros Hn. destruct (decide (y.1 = n)) as [E|N].
  - exists [], y, its. split; [done|]. split; [done|]. apply not_elem_of_nil.
  - destruct IH as (l1 & x & l2 & -> & E & H1).
    { apply elem_of_cons in Hn as [->|]; done. }
    exists (y :: l1), x, l2. split; [done|]. split; [done|]. simpl.
    rewrite elem_of_cons. intros [->|]; done.
Qed.

Lemma insert_before_split n it l1 x l2 :
  x.1 = n → n ∉ l1.*1 → insert_before n it (l1 ++ x :: l2) = l1 ++ it :: x :: l2.
Proof.
  intros E. induction l1 as [|y l1 IH]; simpl; [by rewrite decide_True|].
  rewrite elem_of_cons. intros N. rewrite decide_False by naive_solver.
  rewrite IH; naive_solver.
Qed.
Lemma remove_item_split n l1 x l2 :
  x.1 = n → n ∉ l1.*1 → remove_item n (l1 ++ x :: l2) = l1 ++ l2.
Proof.
  intros E. induction l1 as [|y l1 IH]; simpl; [by rewrite decide_True|].
  rewrite elem_of_cons. intros N. rewrite decide_False by naive_solver.
  rewrite IH; naive_solver.
Qed.
Lemma after_split n l1 x l2 :
  x.1 = n → n ∉ l1.*1 → after n (l1 ++ x :: l2) = fst <$> hd_error (l2 ++ l1).
Proof.
  intros E N. unfold after. rewrite (remove_item_split n) by done.
  assert (after_in n (l1 ++ x :: l2) = fst <$> hd_error l2) as ->.
  { induction l1 as [|y l1 IH]; simpl; [by rewrite decide_True|].
    simpl in N. rewrite elem_of_cons in N. rewrite decide_False by naive_solver.
    apply IH. naive_solver. }
  destruct l2; simpl; [by rewrite app_nil_r|]. done.
Qed.

(** The item of a number is unique. *)
Lemma item_unique its it it' :
  NoDup (its.*1) → it ∈ its → it' ∈ its → it.1 = it'.1 → it = it'.
Proof.
  intros ND (i & Hi)%list_elem_of_lookup (i' & Hi')%list_elem_of_lookup E.
  assert (i = i') as ->; [|congruence].
  eapply NoDup_lookup; [done| |]; rewrite list_lookup_fmap; [by rewrite Hi|].
  by rewrite Hi', E.
Qed.

(** What an insertion does to the list of messages. *)
Lemma spec_insert_items it s :
  spec_ok s →
  ∃ l1 l2, s.(items) = l1 ++ l2 ∧ (spec_insert it s).(items) = l1 ++ it :: l2 ∧
    (server_msg_is_priority it.2 = false → l2 = []) ∧
    (spec_insert it s).(mark) =
      match s.(items) with [] => Some it.1 | _ => s.(mark) end ∧
    (server_msg_is_priority it.2 = true → s.(items) ≠ [] →
      s.(mark) = fst <$> hd_error l2).
Proof.
  intros O. pose proof (ok_mark s O) as M. unfold spec_insert.
  destruct s.(items) as [|y its] eqn:Hs.
  - exists [], []. done.
  - destruct M as (n & Hm & Hn). rewrite Hm. destruct (server_msg_is_priority it.2) eqn:P.
    + destruct (item_split _ _ Hn) as (l1 & x & l2 & E & Ex & N).
      exists l1, (x :: l2). cbn [setter items]. rewrite E, insert_before_split by done.
      split_and!; try done. intros _ _. simpl. by rewrite Ex.
    + exists (y :: its), []. rewrite app_nil_r. done.
Qed.

Lemma spec_insert_work it s :
  (spec_insert it s).(work) = s.(work) ∧ (spec_insert it s).(full) = s.(full).
Proof. unfold spec_insert. by destruct s.(items), s.(mark). Qed.

(** ** The messages of a job leave in the order of their insertion *)
Lemma normal_of_app j l1 l2 : normal_of j (l1 ++ l2) = normal_of j l1 ++ normal_of j l2.
Proof. apply filter_app. Qed.

Definition normal_if j it : list item := normal_of j [it].

Lemma spec_insert_normal it s j :
  spec_ok s →
  normal_of j (spec_insert it s).(items) = normal_of j s.(items) ++ normal_if j it.
Proof.
  intros O. destruct (spec_insert_items it s O) as (l1 & l2 & -> & -> & P & _).
  rewrite (cons_middle it l1 l2), !normal_of_app. fold (normal_if j it).
  destruct (server_msg_is_priority it.2) eqn:Pr.
  - assert (normal_if j it = []) as ->; [|by rewrite app_nil_r].
    unfold normal_if, normal_of. rewrite filter_cons_False; [done|].
    intros [_ ?]. congruence.
  - rewrite P by done. by rewrite !app_nil_r.
Qed.

Lemma spec_remove_normal low me s it j :
  spec_ok s → s.(work) !! me = Some (Some it) →
  normal_of j s.(items) = normal_if j it ++ normal_of j (spec_remove low me s).(items).
Proof.
  intros O W. pose proof (ok_work s O _ _ W) as Hit.
  assert (it.1 ∈ s.(items).*1) as Hn by by apply list_elem_of_fmap_2.
  destruct (item_split _ _ Hn) as (l1 & x & l2 & E & Ex & N).
  assert (x = it) as ->.
  { eapply (item_unique s.(items)); [apply O| |done|done]. rewrite E, elem_of_app. right. left. }
  unfold spec_remove. rewrite W. destruct it as [n m]. cbn [items fst] in *.
  rewrite E, remove_item_split by done.
  rewrite (cons_middle (n, m) l1 l2), !normal_of_app. fold (normal_if j (n, m)).
  destruct (decide (job (n, m) = Some j ∧ server_msg_is_priority m = false)) as [[J P]|Q].
  - pose proof (ok_first s O _ _ _ W J P) as F.
    rewrite E, (cons_middle (n, m) l1 l2), !normal_of_app in F.
    destruct (normal_of j l1) as [|z l] eqn:Hz; [done|]. exfalso.
    simpl in F. injection F as ->.
    assert ((n, m) ∈ normal_of j l1) as In by (rewrite Hz; left).
    apply list_elem_of_filter in In as [_ In]. apply N.
    by apply (list_elem_of_fmap_2 fst) in In.
  - assert (normal_if j (n, m) = []) as ->; [|done].
    unfold normal_if, normal_of. by rewrite filter_cons_False.
Qed.

(** ** What a thread is given *)
Lemma busy_spec me ws j :
  busy me ws j = true ↔ ∃ i it, i ≠ me ∧ ws !! i = Some (Some it) ∧ job it = j.
Proof.
  unfold busy. rewrite existsb_exists. split.
  - intros ([i o] & In & B). apply list_elem_of_In in In.
    apply list_elem_of_lookup in In as [k Hk]. apply lookup_zip_with_Some in Hk as (a & b & E & Ha & Hb).
    simplify_eq. apply lookup_seq in Ha as [-> _]. destruct b as [it|]; [|done].
    apply andb_true_iff in B as [B1 B2]. apply negb_true_iff, Nat.eqb_neq in B1.
    apply bool_decide_eq_true in B2. by exists k, it.
  - intros (i & it & Ni & Hi & J). exists (i, Some it). split.
    + apply list_elem_of_In, list_elem_of_lookup. exists i. apply lookup_zip_with_Some.
      exists i, (Some it). split; [done|]. split; [|done]. apply lookup_seq.
      split; [done|]. by eapply lookup_lt_Some.
    + apply andb_true_iff. split; [by apply negb_true_iff, Nat.eqb_neq|].
      by apply bool_decide_eq_true.
Qed.

Lemma find_split (P : item → bool) its it :
  find P its = Some it →
  ∃ l1 l2, its = l1 ++ it :: l2 ∧ P it = true ∧ ∀ x, x ∈ l1 → P x = false.
Proof.
  induction its as [|y its IH]; [done|]. simpl. destruct (P y) eqn:E.
  - intros [= ->]. exists [], its. split; [done|]. split; [done|]. by intros x ?%elem_of_nil.
  - intros (l1 & l2 & -> & Hit & F)%IH. exists (y :: l1), l2. split; [done|].
    split; [done|]. intros x [->|Hx]%elem_of_cons; auto.
Qed.

(** The message found is the first one of its job in the queue, and nobody else works on
    its job. *)
Lemma spec_found_spec me s it :
  spec_found me s = Some it →
  ∃ l1 l2, s.(items) = l1 ++ it :: l2 ∧ busy me s.(work) (job it) = false ∧
    ∀ x, x ∈ l1 → busy me s.(work) (job x) = true ∧ job x ≠ job it.
Proof.
  intros (l1 & l2 & E & P & F)%find_split. apply negb_true_iff in P.
  exists l1, l2. split; [done|]. split; [done|]. intros x Hx.
  pose proof (F x Hx) as B. apply negb_false_iff in B. split; [done|]. congruence.
Qed.

(** ** The operations preserve the invariant *)
Lemma spec_ok_sub s s' :
  spec_ok s → s'.(items) = s.(items) → s'.(mark) = s.(mark) →
  (∀ i it, s'.(work) !! i = Some (Some it) → s.(work) !! i = Some (Some it)) →
  spec_ok s'.
Proof.
  intros [] Hi Hm Hw. split; rewrite ?Hi, ?Hm; eauto.
Qed.

Lemma spec_ok_insert it s :
  spec_ok s → it.1 ∉ s.(items).*1 → is_Some (job it) → spec_ok (spec_insert it s).
Proof.
  intros O Hn J. destruct (spec_insert_items it s O) as (l1 & l2 & E & E' & P & M & _).
  pose proof (spec_insert_work it s) as [W _].
  assert (∀ x, x ∈ (spec_insert it s).(items) ↔ x = it ∨ x ∈ s.(items)) as In.
  { intros x. rewrite E, E', !elem_of_app, elem_of_cons. tauto. }
  split.
  - rewrite E', fmap_app, fmap_cons, <- Permutation_middle, <- fmap_app, <- E.
    apply NoDup_cons. split; [done | apply O].
  - apply Forall_forall. intros x Hx. apply In in Hx as [->|Hx]; [done|].
    pose proof (ok_jobs s O) as F. rewrite Forall_forall in F. by apply F.
  - rewrite M. pose proof (ok_mark s O) as K.
    destruct (spec_insert it s).(items) as [|y l] eqn:Hs; [by destruct l1|].
    destruct s.(items) as [|y' l'] eqn:Hs'.
    + exists it.1. split; [done|]. apply (list_elem_of_fmap_2 fst), In. by left.
    + destruct K as (n & -> & K). exists n. split; [done|].
      apply list_elem_of_fmap in K as (x & -> & K). apply (list_elem_of_fmap_2 fst), In. by right.
  - rewrite W. intros i x Hx. apply In. right. by eapply ok_work.
  - rewrite W. apply O.
  - rewrite W. intros i x j Hx Jx Px. rewrite spec_insert_normal by done.
    pose proof (ok_first s O _ _ _ Hx Jx Px) as F. by destruct (normal_of j s.(items)).
Qed.

Lemma spec_ok_get me want s : spec_ok s → spec_ok (spec_get me want s).
Proof.
  intros O. unfold spec_get. destruct want; [destruct (spec_found me s) as [it|] eqn:F|].
  2,3: apply (spec_ok_sub s); try done; simpl; intros i it Hi;
    apply list_lookup_insert_Some in Hi as [(_ & ? & _)|[_ ?]]; done.
  destruct (spec_found_spec _ _ _ F) as (l1 & l2 & E & B & L).
  assert (∀ i it', <[me:=Some it]> s.(work) !! i = Some (Some it') →
            (i = me ∧ it' = it) ∨ (i ≠ me ∧ s.(work) !! i = Some (Some it'))) as W.
  { intros i it' Hi. apply list_lookup_insert_Some in Hi as [(-> & [= ->] & _)|[N Hi]]; auto. }
  assert (∀ i it', i ≠ me → s.(work) !! i = Some (Some it') → job it' ≠ job it) as NJ.
  { intros i it' N Hi J. assert (busy me s.(work) (job it) = true); [|congruence].
    apply busy_spec. eauto. }
  destruct O. split; simpl; try done.
  - intros i it' [[-> ->]|[N Hi]]%W; [|eauto]. rewrite E, elem_of_app. right. left.
  - intros i i' it1 it2 [[-> ->]|[N Hi]]%W [[-> ->]|[N' Hi']]%W J; try done; eauto.
    + exfalso. by eapply (NJ i').
    + exfalso. by eapply (NJ i).
  - intros i it' j [[-> ->]|[N Hi]]%W J P; [|eauto].
    rewrite E, normal_of_app. assert (normal_of j l1 = []) as ->.
    { destruct (normal_of j l1) as [|x l] eqn:Hx; [done|]. exfalso.
      assert (x ∈ normal_of j l1) as In by (rewrite Hx; left).
      apply list_elem_of_filter in In as [[Jx _] In]. destruct (L x In). congruence. }
    simpl. unfold normal_of. by rewrite filter_cons_True.
Qed.

Lemma spec_ok_forget me s : spec_ok s → spec_ok (spec_forget me s).
Proof.
  intros O. apply (spec_ok_sub s); try done. simpl. intros i it Hi.
  apply list_lookup_insert_Some in Hi as [(_ & ? & _)|[_ ?]]; done.
Qed.

Lemma spec_remove_items low me s it :
  spec_ok s → s.(work) !! me = Some (Some it) →
  ∃ l1 l2, s.(items) = l1 ++ it :: l2 ∧ (it.1 ∉ l1.*1) ∧
    (spec_remove low me s).(items) = l1 ++ l2 ∧
    (spec_remove low me s).(mark) =
      (if decide (s.(mark) = Some it.1) then fst <$> hd_error (l2 ++ l1) else s.(mark)) ∧
    (spec_remove low me s).(work) = <[me := None]> s.(work) ∧
    (spec_remove low me s).(full) =
      (if (Z.of_nat (length (l1 ++ l2)) <=? low)%Z then false else s.(full)).
Proof.
  intros O W. pose proof (ok_work s O _ _ W) as Hit.
  assert (it.1 ∈ s.(items).*1) as Hn by by apply list_elem_of_fmap_2.
  destruct (item_split _ _ Hn) as (l1 & x & l2 & E & Ex & N).
  assert (x = it) as ->.
  { eapply (item_unique s.(items)); [apply O| |done|done].
    rewrite E, elem_of_app. right. left. }
  exists l1, l2. split; [done|]. split; [done|].
  unfold spec_remove. rewrite W. destruct it as [n m]. cbn [items mark work full fst] in *.
  rewrite E, remove_item_split, after_split by done. done.
Qed.

Lemma spec_ok_remove low me s : spec_ok s → spec_ok (spec_remove low me s).
Proof.
  intros O. destruct (s.(work) !! me) as [[it|]|] eqn:W.
  2,3: by unfold spec_remove; rewrite W.
  destruct (spec_remove_items low me s it O W) as (l1 & l2 & E & N & Hi & Hm & Hw & _).
  pose proof (ok_ids s O) as ND. rewrite E, fmap_app, fmap_cons in ND.
  assert (it.1 ∉ (l1 ++ l2).*1) as N'.
  { rewrite fmap_app, elem_of_app. apply NoDup_app in ND as (_ & _ & ND).
    apply NoDup_cons in ND. naive_solver. }
  assert (∀ i x, (spec_remove low me s).(work) !! i = Some (Some x) →
            i ≠ me ∧ s.(work) !! i = Some (Some x)) as Ws.
  { rewrite Hw. intros i x Hx.
    apply list_lookup_insert_Some in Hx as [(_ & ? & _)|[? ?]]; done. }
  assert (∀ i x, (spec_remove low me s).(work) !! i = Some (Some x) → x ≠ it) as Ne.
  { intros i x [Ni Hx]%Ws ->. apply Ni. by eapply ok_exclusive. }
  split.
  - rewrite Hi, fmap_app. rewrite <- Permutation_middle in ND.
    by apply NoDup_cons in ND as [_ ND].
  - rewrite Hi. pose proof (ok_jobs s O) as F. rewrite E in F.
    rewrite Forall_app, Forall_cons in F. apply Forall_app. tauto.
  - rewrite Hi, Hm. pose proof (ok_mark s O) as K.
    destruct (decide (s.(mark) = Some it.1)) as [_|Nm].
    + destruct l2 as [|y l2]; simpl.
      * rewrite app_nil_r. destruct l1 as [|y l1]; [done|]. exists y.1. split; [done|]. left.
      * destruct (l1 ++ y :: l2) eqn:Hl; [by destruct l1|]. exists y.1. split; [done|].
        apply (list_elem_of_fmap_2 fst). rewrite <- Hl, elem_of_app. right. left.
    + destruct s.(items) as [|z l] eqn:Hs; [by destruct l1|].
      destruct K as (n & Hn & K). rewrite Hn in *. rewrite E in K.
      assert (n ∈ (l1 ++ l2).*1) as K'.
      { rewrite !fmap_app, fmap_cons, elem_of_app, elem_of_cons in *. naive_solver. }
      destruct (l1 ++ l2); [by apply elem_of_nil in K'|]. eauto.
  - intros i x Hx. pose proof (Ne _ _ Hx) as Nx. apply Ws in Hx as [_ Hx].
    apply (ok_work s O) in Hx. rewrite Hi. rewrite E in Hx.
    rewrite elem_of_app, elem_of_cons in *. tauto.
  - intros i i' x x' [_ Hx]%Ws [_ Hx']%Ws. by eapply ok_exclusive.
  - intros i x j Hx J P. pose proof (Ne _ _ Hx) as Nx. apply Ws in Hx as [_ Hx].
    pose proof (ok_first s O _ _ _ Hx J P) as F.
    rewrite (spec_remove_normal low me s it j O W) in F.
    unfold normal_if, normal_of in F.
    destruct (decide (job it = Some j ∧ server_msg_is_priority it.2 = false)).
    + rewrite filter_cons_True in F by done. simpl in F. congruence.
    + by rewrite filter_cons_False in F.
Qed.

(** The first state of a queue. *)
Definition spec_init (threads : nat) : aqueue := mkAqueue [] None (replicate threads None) false.
Lemma spec_ok_init k : spec_ok (spec_init k).
Proof.
  assert (∀ i it, (spec_init k).(work) !! i ≠ Some (Some it)) as W.
  { intros i it Hi. simpl in Hi. by apply lookup_replicate in Hi as [? _]. }
  split; simpl; try done.
  - apply NoDup_nil_2.
  - intros i it Hi. by destruct (W _ _ Hi).
  - intros i i' it it' Hi. by destruct (W _ _ Hi).
  - intros i it j Hi. by destruct (W _ _ Hi).
Qed.
