(* ===== verification/EventQueueProps.v ===== *)
(** * The event queues implement their specification

    The relation between the heap of EventQueue and the queues of QueueSpec, the proof that
    every operation of every thread keeps it, and what follows: no operation uses an object
    that has been freed, and the messages of a job are delivered in order. *)
From Stdlib Require Import ZArith Lia.
From stdpp Require Import base option list strings gmap.
From S2P Require Import Prelude EventQueue QueueRing QueueSpec.
#[local] Open Scope Z_scope.

(** ** The relation *)

(** What a message is, apart from the number of its users. *)
Definition content (m : server_msg) : server_msg := m <| use_count := 0 |>.

Definition shows (w : il) (q : addr) (it : item) : Prop :=
  ∃ x m, w.(elements) !! it.1 = Some x ∧ x.(el_eq) = q ∧
    w.(msgs) !! x.(el_msg) = Some m ∧ it.2 = content m.

Definition sends (w : il) (t : queue_thread) (o : option item) : Prop :=
  match o with
  | None => t = mkQueueThread None None
  | Some it => ∃ x, w.(elements) !! it.1 = Some x ∧
      t = mkQueueThread (Some x.(el_msg)) (Some it.1)
  end.

Record queue_sim (w : il) (q : addr) (s : aqueue) (eq : event_queue) : Prop := {
  sim_ring : ring w.(elements) s.(items).*1;
  sim_items : Forall (shows w q) s.(items);
  sim_head : eq.(head) = fst <$> hd_error s.(items);
  sim_mark : eq.(tail_ems) = s.(mark);
  sim_len : eq.(cur_len) = Z.of_nat (length s.(items));
  sim_full : eq.(throttling) = s.(full);
  sim_work : Forall2 (sends w) eq.(thread) s.(work)
}.

(** Every element of the heap has a message of its own. *)
Record heap_ok (w : il) : Prop := {
  heap_live : ∀ n x, w.(elements) !! n = Some x → is_Some (w.(msgs) !! x.(el_msg));
  heap_inj : ∀ n n' x x', w.(elements) !! n = Some x → w.(elements) !! n' = Some x' →
    x.(el_msg) = x'.(el_msg) → n = n'
}.

Definition sim (w : il) (S : gmap addr aqueue) : Prop :=
  heap_ok w ∧
  ∀ q s, S !! q = Some s → spec_ok s ∧
    ∃ eq, w.(queues) !! q = Some eq ∧ queue_sim w q s eq.

(** ** Framing *)

(** Elements and messages of the other queues stay as they are. *)
Definition only (q : addr) (w w' : il) : Prop :=
  (∀ n x, w.(elements) !! n = Some x → x.(el_eq) ≠ q →
    w'.(elements) !! n = Some x ∧
    content <$> w'.(msgs) !! x.(el_msg) = content <$> w.(msgs) !! x.(el_msg)) ∧
  ∀ q', q' ≠ q → w'.(queues) !! q' = w.(queues) !! q'.

Lemma shows_keep w w' q it :
  shows w q it →
  (∀ x, w.(elements) !! it.1 = Some x → x.(el_eq) = q →
    core <$> w'.(elements) !! it.1 = Some (core x) ∧
    content <$> w'.(msgs) !! x.(el_msg) = content <$> w.(msgs) !! x.(el_msg)) →
  shows w' q it.
Proof.
  intros (x & m & Hx & Hq & Hm & E) F. destruct (F x Hx Hq) as [F1 F2].
  apply fmap_Some in F1 as (x' & Hx' & C). injection C as C1 C2.
  rewrite Hm in F2. apply fmap_Some in F2 as (m' & Hm' & C).
  exists x', m'. rewrite <- C1, <- C2. split; [done|]. split; [done|]. split; [done|].
  congruence.
Qed.

Lemma sends_keep w w' t o :
  sends w t o →
  (∀ it, o = Some it → core <$> w'.(elements) !! it.1 = core <$> w.(elements) !! it.1) →
  sends w' t o.
Proof.
  destruct o as [it|]; [|done]. intros (x & Hx & ->) F. specialize (F it eq_refl).
  rewrite Hx in F. apply fmap_Some in F as (x' & Hx' & C). injection C as C1 C2.
  exists x'. by rewrite C1.
Qed.

Lemma all_send_keep w w' ths s :
  Forall2 (sends w) ths s.(work) → spec_ok s →
  (∀ it, it ∈ s.(items) → core <$> w'.(elements) !! it.1 = core <$> w.(elements) !! it.1) →
  Forall2 (sends w') ths s.(work).
Proof.
  intros F O C. apply Forall2_same_length_lookup_2; [by eapply Forall2_length|].
  intros i t o Ht Ho. eapply sends_keep; [by eapply Forall2_lookup_lr|].
  intros it ->. apply C. by eapply ok_work.
Qed.

Lemma queue_sim_other q q' w w' s eq :
  only q w w' → q' ≠ q → spec_ok s → queue_sim w q' s eq → queue_sim w' q' s eq.
Proof.
  intros [O _] N K [R I Hh Hm Hl Hf Hw].
  assert (∀ it, it ∈ s.(items) →
            w'.(elements) !! it.1 = w.(elements) !! it.1 ∧ shows w' q' it) as F.
  { intros it Hit. rewrite Forall_forall in I. specialize (I it Hit).
    pose proof I as (x & m & Hx & Hq & _). destruct (O _ _ Hx) as [Hx' _]; [congruence|].
    split; [congruence|]. apply (shows_keep w); [done|]. intros y Hy Hq'.
    rewrite Hx in Hy. injection Hy as <-. destruct (O _ _ Hx) as [_ ?]; [congruence|].
    by rewrite Hx'. }
  split; try done.
  - eapply ring_frame; [done|]. intros c (it & -> & Hit)%list_elem_of_fmap. by apply F.
  - apply Forall_forall. intros it Hit. by apply F.
  - eapply all_send_keep; [done..|]. intros it Hit. f_equal. by apply F.
Qed.

Lemma sim_update q w w' S s' eq' :
  sim w S → only q w w' → heap_ok w' → spec_ok s' →
  w'.(queues) !! q = Some eq' → queue_sim w' q s' eq' → sim w' (<[q := s']> S).
Proof.
  intros [_ H] O H' K Hq Q. split; [done|]. intros p s Hs.
  apply lookup_insert_Some in Hs as [[-> ->]|[N Hs]]; [by eauto|].
  destruct (H p s Hs) as [Ks (eq & Hp & Qp)]. split; [done|]. exists eq.
  split; [by rewrite (proj2 O) by done|]. by eapply queue_sim_other.
Qed.

(** ** Outcomes that can only be an overflow of a counter *)
Definition yields {A} (o : outcome A) (P : A → Prop) : Prop :=
  match o with Ret a => P a | UB f => f = SignedOverflow end.

Lemma yields_bind {A B} (m : outcome A) (f : A → outcome B) (Q : A → Prop) (P : B → Prop) :
  yields m Q → (∀ a, Q a → yields (f a) P) → yields (obind m f) P.
Proof. destruct m; simpl; auto. Qed.
Lemma yields_add_int a b : yields (add_int a b) (λ c, c = a + b).
Proof. unfold add_int. by case_decide. Qed.
Lemma yields_add_long a b : yields (add_long a b) (λ c, c = a + b).
Proof. unfold add_long. by case_decide. Qed.

Lemma load_ok {V} (h : gmap addr V) p v : h !! p = Some v → load h p = Ret v.
Proof. intros E. unfold load. by rewrite E. Qed.

(** ** Insertion *)
Definition links_ok (n mp q : addr) (h h' : elements_map) (l : list addr) : Prop :=
  core <$> h' !! n = Some (mp, q) ∧
  (∀ c, c ≠ n → core <$> h' !! c = core <$> h !! c) ∧
  (∀ c, c ≠ n → c ∉ l → h' !! c = h !! c).

Lemma insert_element_ok w q s eq n mp it :
  spec_ok s → queue_sim w q s eq → w.(elements) !! n = None → it.1 = n →
  ∃ h', insert_element n mp q (server_msg_is_priority it.2) eq w.(elements) =
      Ret (h', fst <$> hd_error (spec_insert it s).(items), (spec_insert it s).(mark)) ∧
    ring h' (spec_insert it s).(items).*1 ∧
    links_ok n mp q w.(elements) h' s.(items).*1.
Proof.
  intros O [R _ Hh Hm _ _ _] Hn En.
  destruct (spec_insert_items it s O) as (l1 & l2 & E & E' & P & M & MP).
  unfold insert_element. rewrite Hh, Hm, M, E', E.
  destruct (l1 ++ l2) as [|y l] eqn:Hl; simpl.
  - apply app_eq_nil in Hl as [-> ->]. eexists. split; [by simpl; rewrite En|]. simpl. rewrite En.
    split; [|split_and!].
    + apply ring_singleton. by split; rewrite lookup_insert_eq.
    + by rewrite lookup_insert_eq.
    + intros c Hc. by rewrite lookup_insert_ne.
    + intros c Hc _. by rewrite lookup_insert_ne.
  - rewrite E in *. rewrite <- Hl in R. rewrite fmap_app in R.
    set (prio := server_msg_is_priority it.2) in *.
    assert (∃ b, (if prio then notnull s.(mark) else Ret y.1) = Ret b ∧
              hd_error (l2.*1 ++ l1.*1) = Some b) as (b & -> & Hb).
    { pose proof (ok_mark s O) as K. rewrite E in K. destruct K as (mk & Hmk & _).
      destruct prio eqn:Hp.
      - rewrite Hmk. simpl. exists mk. split; [done|].
        rewrite MP in Hmk by done. by destruct l2.
      - rewrite P in * by done. rewrite app_nil_r in Hl. subst l1. by exists y.1. }
    cbn [obind].
    destruct (link_in_at _ n mp q b _ _ R Hb Hn) as (z & h' & Hz & Eh & R' & [RL1 RL2]).
    exists h'. rewrite (load_ok _ _ _ Hz). cbn [obind].
    unfold obind at 1 in Eh. unfold obind at 1.
    destruct (set_prev (el_next z) n _) as [h1|]; [|done]. rewrite Eh. cbn [obind].
    split; [|split].
    + do 2 f_equal. f_equal. destruct prio eqn:Hp; simpl.
      * destruct l1 as [|y1 l1]; simpl.
        -- rewrite MP by done. rewrite En, bool_decide_true; [done|].
           simpl in Hl. by rewrite Hl.
        -- rewrite bool_decide_false; [by simplify_eq/=|]. intros C. injection Hl as -> <-.
           rewrite MP in C by done. pose proof (ok_ids s O) as ND. rewrite E in ND.
           destruct l2 as [|y2 l2]; [done|]. simpl in *. injection C as C.
           apply NoDup_cons in ND as [ND _]. apply ND.
           rewrite fmap_app, fmap_cons, <- C, elem_of_app. right. left.
      * rewrite P in * by done. rewrite app_nil_r in Hl. by subst l1.
    + by rewrite fmap_app, fmap_cons, En.
    + change (y.1 :: _) with ((y :: l).*1). rewrite <- Hl, fmap_app. split_and!.
      * by rewrite RL1, lookup_insert_eq.
      * intros c Hc. by rewrite RL1, lookup_insert_ne.
      * intros c Hc Hc'. by rewrite RL2, lookup_insert_ne.
Qed.

Lemma heap_ok_insert w w' n mp q c ids :
  heap_ok w → w.(elements) !! n = None → w.(msgs) !! mp = None →
  links_ok n mp q w.(elements) w'.(elements) ids → w'.(msgs) = <[mp := c]> w.(msgs) →
  heap_ok w'.
Proof.
  intros [HL HI] Hn Hmp (L1 & L2 & _) Em.
  assert (∀ a x, w'.(elements) !! a = Some x →
    (a = n ∧ x.(el_msg) = mp) ∨ ∃ y, w.(elements) !! a = Some y ∧ y.(el_msg) = x.(el_msg)) as F.
  { intros a x Hx. destruct (decide (a = n)) as [->|N].
    - left. rewrite Hx in L1. by injection L1 as -> _.
    - right. specialize (L2 a N). rewrite Hx in L2. symmetry in L2.
      apply fmap_Some in L2 as (y & Hy & C). exists y. by injection C. }
  assert (∀ a x, w.(elements) !! a = Some x → x.(el_msg) ≠ mp) as Nmp.
  { intros a x Hx E. destruct (HL _ _ Hx). congruence. }
  split; rewrite ?Em.
  - intros a x [[-> ->]|(y & Hy & <-)]%F; [by rewrite lookup_insert_eq|].
    rewrite lookup_insert_ne by (symmetry; by eapply Nmp). by eapply HL.
  - intros a a' x x' [[-> E]|(y & Hy & E)]%F [[-> E']|(y' & Hy' & E')]%F Exx; try done.
    + exfalso. apply (Nmp _ _ Hy'). congruence.
    + exfalso. apply (Nmp _ _ Hy). congruence.
    + eapply HI; [done..|congruence].
Qed.

Lemma not_in_other_ring w q s eq n x :
  queue_sim w q s eq → w.(elements) !! n = Some x → x.(el_eq) ≠ q → n ∉ s.(items).*1.
Proof.
  intros Q Hx N (it & -> & Hit)%list_elem_of_fmap.
  pose proof (sim_items _ _ _ _ Q) as I. rewrite Forall_forall in I.
  destruct (I it Hit) as (y & m & Hy & Hq & _). congruence.
Qed.

Lemma count_insert_yields eq :
  yields (count_insert eq) (λ eq', ∃ k, k = eq.(cur_len) + 1 ∧
    eq' = eq <| cur_len := k |> <| max_len := Z.max eq.(max_len) k |>).
Proof.
  unfold count_insert. eapply yields_bind; [apply yields_add_int|].
  intros k ->. simpl. eauto.
Qed.

Section run.
Context `{Malloc} (cfg : il_config).

Definition spec_full (s : aqueue) : bool :=
  (0 <? cfg.(queue_size_high))
  && ((cfg.(queue_size_high) <=? Z.of_nat (length s.(items))) || s.(full)).

Lemma insert_sim q m w S s :
  sim w S → S !! q = Some s → is_Some m.(job_id_s) →
  yields (event_queue_insert cfg q m w) (λ '(r, w'),
    if spec_full s
    then r = 1 ∧ sim w' (<[q := s <| full := true |>]> S)
    else r = 0 ∧ ∃ n, (n ∉ s.(items).*1) ∧
         sim w' (<[q := spec_insert (n, content m) s]> S)).
Proof.
  intros HS Hs [j Hj]. pose proof HS as [HH HQ].
  destruct (HQ q s Hs) as [O (eq & Hq & Q)].
  unfold event_queue_insert. rewrite (load_ok _ _ _ Hq). cbn [obind].
  assert (queue_is_full cfg eq = spec_full s) as ->.
  { unfold queue_is_full, spec_full. by rewrite (sim_len _ _ _ _ Q), (sim_full _ _ _ _ Q). }
  destruct (spec_full s).
  { simpl. split; [done|]. eapply (sim_update q w); [done| |by destruct HH| |by simpl; rewrite lookup_insert_eq|].
    - split; [done|]. intros q' N. simpl. by rewrite lookup_insert_ne.
    - by apply (spec_ok_sub s).
    - destruct Q. by split. }
  set (n := malloc (dom (elements w))). set (mp := malloc (dom (msgs w))).
  assert (w.(elements) !! n = None) as Hn by apply not_elem_of_dom, malloc_fresh.
  assert (w.(msgs) !! mp = None) as Hmp by apply not_elem_of_dom, malloc_fresh.
  unfold server_msg_copy. rewrite Hj. cbn [notnull obind].
  set (c := m <| job_id_s := Some j |> <| use_count := 0 |>).
  assert (content m = c) as Ec by (unfold c; rewrite <- Hj; by destruct m).
  set (it := (n, content m) : item).
  destruct (insert_element_ok w q s eq n mp it O Q Hn eq_refl) as (h' & Eh & R & L).
  change (server_msg_is_priority it.2) with (server_msg_is_priority m) in Eh.
  change (elements (set_msg mp c w)) with (elements w). rewrite Eh. cbn [obind].
  eapply yields_bind; [apply count_insert_yields|]. intros eq' (k & Ek & ->). simpl in Ek.
  simpl. split; [done|]. exists n. split.
  { intros In. destruct (ring_in_heap _ _ _ (sim_ring _ _ _ _ Q) In). congruence. }
  pose proof (spec_insert_work it s) as [W F]. fold it.
  destruct (spec_insert_items it s O) as (l1 & l2 & E & E' & _).
  assert (∀ x, w.(elements) !! n ≠ Some x) as Nn by congruence.
  assert (∀ it', it' ∈ s.(items) → core <$> h' !! it'.1 = core <$> w.(elements) !! it'.1) as C.
  { intros it' Hit. apply L. intros En.
    pose proof (sim_items _ _ _ _ Q) as I. rewrite Forall_forall in I.
    destruct (I _ Hit) as (x & ? & Hx & _). rewrite En in Hx. by apply Nn in Hx. }
  eapply (sim_update q w);
    [done| |by eapply heap_ok_insert| |by simpl; rewrite lookup_insert_eq|].
  - split; [|intros q' N; simpl; by rewrite lookup_insert_ne].
    intros a x Hx Nq. simpl. rewrite (proj2 (proj2 L)).
    + split; [done|]. rewrite lookup_insert_ne; [done|]. intros Emp.
      destruct (heap_live w HH _ _ Hx). congruence.
    + intros ->. by apply Nn in Hx.
    + by eapply not_in_other_ring.
  - apply spec_ok_insert; [done| |].
    + intros In. destruct (ring_in_heap _ _ _ (sim_ring _ _ _ _ Q) In). by eapply Nn.
    + exists j. by unfold job, it; simpl.
  - split; simpl; try done.
    + rewrite E'. apply Forall_forall. intros it'.
      assert (it' ∈ l1 ++ it :: l2 ↔ it' = it ∨ it' ∈ s.(items)) as ->.
      { rewrite E, !elem_of_app, elem_of_cons. tauto. }
      intros [->|Hit].
      * pose proof (proj1 L) as L1.
        apply fmap_Some in L1 as (x & Hx & Cx). injection Cx as Cm Cq.
        exists x, c. simpl. rewrite <- Cm, lookup_insert_eq. by rewrite <- Ec.
      * pose proof (sim_items _ _ _ _ Q) as I. rewrite Forall_forall in I.
        apply (shows_keep w); [by apply I|]. intros x Hx _. simpl.
        rewrite C by done. rewrite Hx. split; [done|]. rewrite lookup_insert_ne; [done|].
        intros Emp. destruct (heap_live w HH _ _ Hx). congruence.
    + rewrite Ek, (sim_len _ _ _ _ Q), E', E, !length_app. simpl. lia.
    + rewrite F. apply Q.
    + rewrite W. by eapply all_send_keep; [apply Q|..].
Qed.

(** ** What a thread gets *)
Definition alive (w : il) (it : item) : Prop :=
  ∃ x m, w.(elements) !! it.1 = Some x ∧ w.(msgs) !! x.(el_msg) = Some m ∧
    m.(job_id_s) = job it ∧ is_Some (job it).

Lemma item_alive w q s eq it :
  spec_ok s → queue_sim w q s eq → it ∈ s.(items) → alive w it.
Proof.
  intros O Q Hit. pose proof (sim_items _ _ _ _ Q) as I. rewrite Forall_forall in I.
  destruct (I it Hit) as (x & m & Hx & _ & Hm & E). exists x, m.
  pose proof (ok_jobs s O) as J. rewrite Forall_forall in J.
  split_and!; auto. unfold job. by rewrite E.
Qed.

Lemma other_works_ok w me m ths ws i :
  Forall2 (sends w) ths ws → (∀ it, Some it ∈ ws → alive w it) → is_Some m.(job_id_s) →
  other_works me i ths m w =
  Ret (existsb (λ '(i, o), match o with
          | Some it => negb (i =? me)%nat && bool_decide (job it = m.(job_id_s))
          | None => false end) (zip (seq i (length ws)) ws)).
Proof.
  intros F A [j Hj]. revert i A. induction F as [|t o ths ws Ht F IH]; intros i A; [done|].
  assert (∀ it, Some it ∈ ws → alive w it) as A' by (intros it Hit; apply A; by right).
  cbn [length seq zip zip_with existsb other_works].
  destruct o as [it|]; [destruct Ht as (x & Hx & ->) | rewrite Ht]; cbn [jobid].
  2: { rewrite IH by done. by case_decide. }
  rewrite IH by done. destruct (decide (i = me)) as [->|N].
  { by rewrite Nat.eqb_refl. }
  destruct (A it ltac:(left)) as (x' & m' & Hx' & Hm' & Hj' & [j' Hit]).
  rewrite Hx in Hx'. injection Hx' as <-.
  rewrite (load_ok _ _ _ Hm'). cbn [obind]. unfold same_job.
    rewrite Hj, Hj', Hit. cbn [obind notnull].
  apply Nat.eqb_neq in N. rewrite N. cbn [negb andb].
  destruct (decide (j = j')) as [->|Nj].
  - by rewrite !bool_decide_eq_true_2.
  - rewrite !bool_decide_eq_false_2; [done|congruence|congruence].
Qed.

(** The ring read from its first element. *)
Lemma ring_prev h l1 n l2 x :
  ring h (l1 ++ n :: l2) → h !! n = Some x →
  x.(el_prev) = match l2 with b :: _ => b | [] => default n (hd_error l1) end.
Proof.
  intros R Hx. destruct (ring_neighbours _ _ _ _ _ R Hx) as [E _].
  destruct l2 as [|b l2]; [destruct l1|]; simpl in *; congruence.
Qed.

Lemma find_free_ok w q s eq me ths ws hd l2 l1 it fuel :
  spec_ok s → queue_sim w q s eq → Forall2 (sends w) ths ws →
  (∀ it, Some it ∈ ws → alive w it) →
  s.(items) = l1 ++ it :: l2 → fst <$> hd_error s.(items) = Some hd →
  (length l2 < fuel)%nat →
  find_free fuel me ths hd it.1 w =
  Ret (fst <$> find (λ it, negb (busy me ws (job it))) (it :: l2)).
Proof.
  intros O Q F A. revert l1 it fuel.
  induction l2 as [|it' l2 IH]; intros l1 it fuel E Hh Hf;
    (destruct fuel as [|fuel]; [simpl in Hf; lia|]); cbn [find_free find].
  all: assert (it ∈ s.(items)) as Hit by (rewrite E, elem_of_app; right; left).
  all: destruct (item_alive _ _ _ _ _ O Q Hit) as (x & m & Hx & Hm & Hj & J).
  all: rewrite (load_ok _ _ _ Hx); cbn [obind]; rewrite (load_ok _ _ _ Hm); cbn [obind].
  all: rewrite (other_works_ok w me m ths ws 0 F A) by (by rewrite Hj); cbn [obind].
  all: rewrite Hj; fold (busy me ws (job it)).
  all: destruct (busy me ws (job it)); cbn [negb]; [|done].
  all: pose proof (sim_ring _ _ _ _ Q) as R; rewrite E, fmap_app, fmap_cons in R;
    rewrite (ring_prev _ _ _ _ _ R Hx).
  - rewrite E in Hh. simpl. rewrite decide_True; [done|]. destruct l1; by injection Hh.
  - simpl. rewrite decide_False.
    + apply (IH (l1 ++ [it])); [by rewrite <- (assoc_L (++))|done|simpl in Hf; lia].
    + intros Eh. rewrite E, <- Eh in Hh. pose proof (ok_ids s O) as ND.
      rewrite E, fmap_app, !fmap_cons in ND. destruct l1 as [|y l1]; injection Hh as Hh.
      * simpl in ND. apply NoDup_cons in ND as [ND _]. apply ND. rewrite Hh. left.
      * simpl in ND. apply NoDup_cons in ND as [ND _]. apply ND. rewrite Hh.
        apply elem_of_app. right. right. left.
Qed.

Lemma ring_size h l : ring h l → (length l ≤ size h)%nat.
Proof.
  intros R. rewrite <- (size_dom h (D := gset addr)).
  assert (size (list_to_set l : gset addr) = length l) as <- by apply size_list_to_set, R.
  apply subseteq_size. intros a Ha. apply elem_of_list_to_set in Ha.
  apply elem_of_dom. by eapply ring_in_heap.
Qed.

(** ** Steps that only change what the threads do *)
Definition same_messages (w w' : il) : Prop :=
  w'.(elements) = w.(elements) ∧
  ∀ p, content <$> w'.(msgs) !! p = content <$> w.(msgs) !! p.

Lemma sim_work_step q w w' S s eq ths ws :
  sim w S → S !! q = Some s → w.(queues) !! q = Some eq →
  same_messages w w' → w'.(queues) = <[q := eq <| thread := ths |>]> w.(queues) →
  Forall2 (sends w) ths ws → spec_ok (s <| work := ws |>) →
  sim w' (<[q := s <| work := ws |>]> S).
Proof.
  intros HS Hs Hq [He Hm] Eq F O'. pose proof HS as [HH HQ].
  destruct (HQ q s Hs) as [O (eq0 & Hq0 & Q)]. rewrite Hq in Hq0. injection Hq0 as <-.
  eapply (sim_update q w); [done| | |done|by rewrite Eq, lookup_insert_eq|].
  - split; [intros n x; by rewrite He|]. intros q' N. by rewrite Eq, lookup_insert_ne.
  - split; rewrite He; [|apply HH]. intros n x Hx.
    rewrite <- (fmap_is_Some content), Hm, fmap_is_Some. by eapply heap_live.
  - destruct Q. split; simpl; rewrite ?He; try done.
    + eapply Forall_impl; [done|]. intros it K. eapply shows_keep; [done|].
      intros x Hx _. by rewrite He, Hx.
    + eapply Forall2_impl; [done|]. intros t o K. eapply sends_keep; [done|].
      intros. by rewrite He.
Qed.

Lemma use_same p w :
  is_Some (w.(msgs) !! p) →
  yields (server_msg_use p w) (λ w', same_messages w w' ∧ w'.(queues) = w.(queues)).
Proof.
  intros [m Hm]. unfold server_msg_use. rewrite (load_ok _ _ _ Hm). cbn [obind].
  eapply yields_bind; [apply yields_add_int|]. intros k _. simpl. split; [|done].
  split; [done|]. intros a. simpl. destruct (decide (a = p)) as [->|N];
    [rewrite lookup_insert_eq, Hm | by rewrite lookup_insert_ne]. by destruct m.
Qed.
Lemma release_same p w :
  is_Some (w.(msgs) !! p) →
  yields (server_msg_release p w) (λ r, same_messages w r.2 ∧ r.2.(queues) = w.(queues)).
Proof.
  intros [m Hm]. unfold server_msg_release. rewrite (load_ok _ _ _ Hm). cbn [obind].
  eapply yields_bind; [apply yields_add_int|]. intros k _. simpl. split; [|done].
  split; [done|]. intros a. simpl. destruct (decide (a = p)) as [->|N];
    [rewrite lookup_insert_eq, Hm | by rewrite lookup_insert_ne]. by destruct m.
Qed.

Lemma forget_sends w ths ws me :
  Forall2 (sends w) ths ws →
  Forall2 (sends w) (alter forget_current me ths) (<[me := None]> ws).
Proof.
  intros F. apply Forall2_same_length_lookup_2.
  { rewrite length_alter, length_insert. by eapply Forall2_length. }
  intros i t o Ht Ho. destruct (decide (i = me)) as [->|N].
  - rewrite list_lookup_alter_eq in Ht. apply fmap_Some in Ht as (t' & Ht' & ->).
    rewrite list_lookup_insert_eq in Ho.
    2: { apply lookup_lt_Some in Ht'. by rewrite <- (Forall2_length _ _ _ F). }
    injection Ho as <-. simpl. unfold forget_current.
    destruct (ws !! me) as [[it|]|] eqn:Hw.
    + destruct (Forall2_lookup_lr _ _ _ _ _ _ F Ht' Hw) as (x & _ & ->). done.
    + pose proof (Forall2_lookup_lr _ _ _ _ _ _ F Ht' Hw) as E. simpl in E. by subst.
    + apply lookup_ge_None in Hw. apply lookup_lt_Some in Ht'.
      rewrite (Forall2_length _ _ _ F) in Ht'. lia.
  - rewrite list_lookup_alter_ne in Ht by done. rewrite list_lookup_insert_ne in Ho by done.
    by eapply Forall2_lookup_lr.
Qed.

Lemma busy_forget me ws j : busy me (<[me := None]> ws) j = busy me ws j.
Proof.
  apply eq_bool_prop_intro. rewrite !Is_true_true, !busy_spec.
  split; intros (i & it & N & Hi & J); exists i, it; split_and!; auto.
  - by rewrite list_lookup_insert_ne in Hi.
  - by rewrite list_lookup_insert_ne.
Qed.

Lemma find_ext {A} (f g : A → bool) l : (∀ x, f x = g x) → find f l = find g l.
Proof. intros E. induction l as [|x l IH]; [done|]. simpl. by rewrite E, IH. Qed.

Lemma round_end_sim q me w S s :
  sim w S → S !! q = Some s →
  yields (queue_thread_round_end q me w) (λ w', sim w' (<[q := spec_forget me s]> S)).
Proof.
  intros HS Hs. destruct (proj2 HS q s Hs) as [O (eq & Hq & Q)].
  unfold queue_thread_round_end. rewrite (load_ok _ _ _ Hq). simpl.
  eapply (sim_work_step q w); [done..|by apply forget_sends, Q|by apply spec_ok_forget].
Qed.

(** What [event_queue_get] answers. *)
Definition got (want : bool) (me : nat) (w : il) (s : aqueue) : option addr :=
  if want then it ← spec_found me s; el_msg <$> w.(elements) !! it.1 else None.

Lemma get_sim q me want w S s :
  sim w S → S !! q = Some s → (me < length s.(work))%nat →
  yields (event_queue_get q me want w) (λ '(p, found, w'),
    p = got want me w s ∧ found = bool_decide (is_Some (spec_found me s)) ∧
    sim w' (<[q := spec_get me want s]> S)).
Proof.
  intros HS Hs Hme. destruct (proj2 HS q s Hs) as [O (eq & Hq & Q)].
  pose proof (forget_sends _ _ _ me (sim_work _ _ _ _ Q)) as F.
  pose proof (spec_ok_get me want s O) as OG.
  unfold event_queue_get. rewrite (load_ok _ _ _ Hq). cbn [obind].
  set (ths := alter forget_current me eq.(thread)) in *.
  change (head (eq <| thread := ths |>)) with (head eq). rewrite (sim_head _ _ _ _ Q).
  assert (sim (set_queue q (eq <| thread := ths |>) w)
            (<[q := s <| work := <[me := None]> s.(work) |>]> S)) as Idle.
  { eapply (sim_work_step q w); [done..|by apply spec_ok_forget]. }
  unfold got. destruct (hd_error s.(items)) as [it0|] eqn:Hh; cbn [fmap option_fmap option_map].
  2: { assert (spec_found me s = None) as N by (unfold spec_found; by destruct s.(items)).
    unfold spec_get. rewrite N. simpl. split_and!; [by destruct want|done|by destruct want]. }
  destruct s.(items) as [|it1 l] eqn:Hi; [done|]. injection Hh as ->.
  assert (∀ it, Some it ∈ <[me := None]> s.(work) → alive w it) as A.
  { intros it (i & Hit)%list_elem_of_lookup. apply (item_alive w q s eq); [done..|].
    apply list_lookup_insert_Some in Hit as [(_ & ? & _)|[_ Hit]]; [done|].
    by eapply ok_work. }
  rewrite (find_free_ok w q s eq me ths (<[me := None]> s.(work)) it0.1 l [] it0);
    try done; [|by rewrite Hi|].
  2: { pose proof (ring_size _ _ (sim_ring _ _ _ _ Q)) as R. rewrite length_fmap, Hi in R.
    simpl in R. lia. }
  cbn [obind]. rewrite <- Hi.
  assert (find (λ it, negb (busy me (<[me:=None]> s.(work)) (job it))) s.(items) =
          spec_found me s) as ->.
  { apply find_ext. intros y. by rewrite busy_forget. }
  destruct (spec_found me s) as [it|] eqn:Hf; cbn [fmap option_fmap option_map].
  2: { unfold spec_get. rewrite Hf. simpl. split_and!; [by destruct want|done|by destruct want]. }
  destruct want.
  2: { simpl. split_and!; [done|done|]. exact Idle. }
  assert (it ∈ s.(items)) as Hit.
  { destruct (spec_found_spec _ _ _ Hf) as (l1 & l2 & E & _).
    rewrite E, elem_of_app. right. left. }
  pose proof (sim_items _ _ _ _ Q) as I. rewrite Forall_forall in I.
  destruct (I it Hit) as (x & m & Hx & _ & Hm & _).
  rewrite (load_ok _ _ _ Hx). cbn [obind].
  eapply yields_bind; [by apply use_same|]. intros w' [Same Hqs]. simpl.
  rewrite Hx. split_and!; [done|done|]. unfold spec_get. rewrite Hf.
  eapply (sim_work_step q w); [done..|exact Hqs| |].
  - assert (<[me := Some it]> s.(work) = <[me := Some it]> (<[me := None]> s.(work))) as ->
      by by rewrite list_insert_insert_eq.
    apply Forall2_insert; [exact F|]. by exists x.
  - unfold spec_get in OG. by rewrite Hf in OG.
Qed.

(** ** Removal *)
Lemma unlink_element_ok w q s eq eq' l1 it l2 :
  spec_ok s → queue_sim w q s eq → s.(items) = l1 ++ it :: l2 →
  eq'.(head) = eq.(head) → eq'.(tail_ems) = eq.(tail_ems) →
  ∃ h', unlink_element it.1 eq' w.(elements) =
      Ret (h', fst <$> hd_error (l1 ++ l2),
           if decide (s.(mark) = Some it.1) then fst <$> hd_error (l2 ++ l1) else s.(mark)) ∧
    ring h' (l1 ++ l2).*1 ∧ relinked w.(elements) h' (l1 ++ l2).*1.
Proof.
  intros O Q E Eh Et. pose proof (sim_ring _ _ _ _ Q) as R.
  rewrite E, fmap_app, fmap_cons in R.
  destruct (ring_in_heap _ _ it.1 R) as [x Hx]; [rewrite elem_of_app; right; left|].
  pose proof (ok_mark s O) as K. unfold unlink_element.
  rewrite (load_ok _ _ _ Hx), Eh, Et, (sim_head _ _ _ _ Q), (sim_mark _ _ _ _ Q), E. cbn [obind].
  destruct (decide (l1 ++ l2 = [])) as [Hl|Hl].
  - apply app_eq_nil in Hl as [-> ->]. simpl in R. rewrite (ring_alone _ _ _ R Hx).
    rewrite decide_True by done. exists w.(elements). split; [|split].
    + rewrite E in K. destruct K as (n & -> & Hn). apply list_elem_of_singleton in Hn as ->.
      by rewrite decide_True.
    + split; [apply NoDup_nil_2|]. split; [apply chain_nil|done].
    + done.
  - destruct (unlink_at _ _ _ _ _ R Hx) as (Hb & Np & h' & Eu & R' & RL).
    { rewrite <- fmap_app. intros C%fmap_nil_inv. done. }
    rewrite decide_False by done. rewrite <- fmap_app in R', RL.
    exists h'. split; [|done]. unfold obind at 1 in Eu. unfold obind at 1.
    destruct (set_prev (el_next x) _ _) as [h1|]; [|done]. rewrite Eu. cbn [obind].
    assert (Some (el_prev x) = fst <$> hd_error (l2 ++ l1)) as Hp.
    { rewrite <- Hb, <- fmap_app. by destruct (l2 ++ l1). }
    rewrite Hp. do 2 f_equal; [f_equal|].
    + destruct l1 as [|y l1]; simpl.
      * rewrite bool_decide_eq_true_2 by done. rewrite app_nil_r. done.
      * rewrite bool_decide_eq_false_2; [done|]. intros [= C].
        pose proof (ok_ids s O) as ND. rewrite E in ND. simpl in ND.
        apply NoDup_cons in ND as [ND _]. apply ND.
        rewrite C, fmap_app, elem_of_app. right. left.
    + case_decide as D; [by rewrite bool_decide_eq_true_2|by rewrite bool_decide_eq_false_2].
Qed.

Lemma count_remove_yields eq :
  yields (count_remove eq) (λ eq', ∃ e,
    eq' = eq <| cur_len := eq.(cur_len) - 1 |> <| times_empty := e |>).
Proof.
  unfold count_remove. eapply yields_bind; [apply yields_add_int|]. intros k ->.
  change (cur_len eq + -1) with (cur_len eq - 1). destruct (cur_len eq - 1 =? 0).
  - eapply yields_bind; [apply yields_add_int|]. intros e _. simpl. eauto.
  - simpl. exists (times_empty eq). by destruct eq.
Qed.

Lemma free_yields p w :
  is_Some (w.(msgs) !! p) →
  yields (server_msg_free p w) (λ w', w'.(elements) = w.(elements) ∧
    w'.(queues) = w.(queues) ∧ ∀ p', p' ≠ p → w'.(msgs) !! p' = w.(msgs) !! p').
Proof.
  intros [m Hm]. unfold server_msg_free, server_msg_release.
  rewrite (load_ok _ _ _ Hm). cbn [obind].
  destruct (add_int (use_count m) (-1)) as [k|f] eqn:Ek;
    [|pose proof (yields_add_int (use_count m) (-1)) as Y; by rewrite Ek in Y].
  cbn [obind]. destruct (k <=? 0); simpl; split_and!; try done; intros p' N.
  - by rewrite lookup_delete_ne, lookup_insert_ne.
  - by rewrite lookup_insert_ne.
Qed.

Lemma heap_ok_delete w w' h' n x l :
  heap_ok w → w.(elements) !! n = Some x → relinked w.(elements) h' l →
  w'.(elements) = delete n h' →
  (∀ p, p ≠ x.(el_msg) → w'.(msgs) !! p = w.(msgs) !! p) → heap_ok w'.
Proof.
  intros [HL HI] Hx [RL _] Ee Em.
  assert (∀ a y, w'.(elements) !! a = Some y → a ≠ n ∧
            ∃ z, w.(elements) !! a = Some z ∧ z.(el_msg) = y.(el_msg)) as F.
  { rewrite Ee. intros a y [N Hy]%lookup_delete_Some. split; [done|].
    specialize (RL a). rewrite Hy in RL. symmetry in RL.
    apply fmap_Some in RL as (z & Hz & C). exists z. by injection C. }
  split.
  - intros a y Hy. destruct (F a y Hy) as (N & z & Hz & E). rewrite Em.
    + rewrite <- E. by eapply HL.
    + intros C. apply N. eapply HI; [done..|congruence].
  - intros a a' y y' Hy Hy' E.
    destruct (F _ _ Hy) as (_ & z & Hz & Ez). destruct (F _ _ Hy') as (_ & z' & Hz' & Ez').
    eapply HI; [done..|congruence].
Qed.

Lemma only_removed q w w' h' s eq n x l :
  heap_ok w → queue_sim w q s eq → w.(elements) !! n = Some x → x.(el_eq) = q →
  relinked w.(elements) h' l → (∀ c, c ∈ l → c ∈ s.(items).*1) →
  w'.(elements) = delete n h' →
  (∀ p, p ≠ x.(el_msg) → w'.(msgs) !! p = w.(msgs) !! p) →
  (∀ q', q' ≠ q → w'.(queues) !! q' = w.(queues) !! q') → only q w w'.
Proof.
  intros HH Q Hx Hq [_ RL] Hl Ee Em Eq. split; [|done]. intros a y Hy Ny.
  assert (a ≠ n) as Na by congruence. split.
  - rewrite Ee, lookup_delete_ne by done. rewrite RL; [done|]. intros C%Hl.
    by eapply (not_in_other_ring w q s eq a y).
  - f_equal. apply Em. intros C. apply Na. by eapply heap_inj.
Qed.

Lemma remove_sim_state low q me w w' S s eq eq' h' l1 it l2 x :
  sim w S → S !! q = Some s → w.(queues) !! q = Some eq →
  s.(work) !! me = Some (Some it) → s.(items) = l1 ++ it :: l2 →
  w.(elements) !! it.1 = Some x → x.(el_eq) = q →
  relinked w.(elements) h' (l1 ++ l2).*1 → ring h' (l1 ++ l2).*1 →
  (spec_remove low me s).(items) = l1 ++ l2 →
  w'.(elements) = delete it.1 h' → w'.(queues) = <[q := eq']> w.(queues) →
  (∀ p, p ≠ x.(el_msg) → w'.(msgs) !! p = w.(msgs) !! p) →
  eq'.(head) = fst <$> hd_error (l1 ++ l2) →
  eq'.(tail_ems) = (spec_remove low me s).(mark) →
  eq'.(cur_len) = Z.of_nat (length (l1 ++ l2)) →
  eq'.(throttling) = (spec_remove low me s).(full) →
  eq'.(thread) = <[me := mkQueueThread None None]> eq.(thread) →
  sim w' (<[q := spec_remove low me s]> S).
Proof.
  intros HS Hs Hq0 W E Hx Hxq RL R Hi Ee Eq Em Fh Ft Fl Ff Fw.
  destruct (proj2 HS q s Hs) as [O (eq0 & Hq & Q)]. rewrite Hq0 in Hq. injection Hq as <-.
  assert (spec_ok (spec_remove low me s)) as O' by by apply spec_ok_remove.
  destruct (spec_remove_items low me s it O W) as (? & ? & _ & _ & _ & _ & Hw & _).
  pose proof (ok_ids s O) as ND. rewrite E, fmap_app, fmap_cons, <- Permutation_middle in ND.
  apply NoDup_cons in ND as [Nit _]. rewrite <- fmap_app in Nit.
  assert (∀ it', it' ∈ l1 ++ l2 → it'.1 ≠ it.1) as Ni.
  { intros it' Hit C. apply Nit. rewrite <- C. by apply list_elem_of_fmap_2. }
  assert (∀ it', it' ∈ l1 ++ l2 → core <$> w'.(elements) !! it'.1 = core <$> w.(elements) !! it'.1) as C.
  { intros it' Hit. rewrite Ee, lookup_delete_ne by (symmetry; by apply Ni). apply RL. }
  assert (∀ it', it' ∈ l1 ++ l2 → it' ∈ s.(items)) as Sub.
  { intros it'. rewrite E, !elem_of_app, elem_of_cons. tauto. }
  eapply (sim_update q w); [done| |eapply heap_ok_delete; [apply HS|done..]|done| |].
  - eapply only_removed; [apply HS|done..| |done|done|].
    + intros c (it' & -> & Hit)%list_elem_of_fmap. by apply list_elem_of_fmap_2, Sub.
    + intros q' N. by rewrite Eq, lookup_insert_ne.
  - by rewrite Eq, lookup_insert_eq.
  - split; rewrite ?Hi; try done.
    + eapply ring_frame; [done|]. intros c (it' & -> & Hit)%list_elem_of_fmap.
      rewrite Ee, lookup_delete_ne; [done|]. symmetry. by apply Ni.
    + apply Forall_forall. intros it' Hit.
      pose proof (sim_items _ _ _ _ Q) as I. rewrite Forall_forall in I.
      apply (shows_keep w); [by apply I, Sub|]. intros y Hy _. rewrite C, Hy by done.
      split; [done|]. f_equal. apply Em. intros Ey. apply (Ni it' Hit).
      eapply (heap_inj w); [apply HS|done..].
    + rewrite Fw. apply (all_send_keep w); [|done|by intros it'; rewrite Hi; apply C].
      rewrite Hw. by apply Forall2_insert; [apply Q|].
Qed.

Lemma low_water_eq eq :
  low_water cfg eq =
  eq <| throttling := if eq.(cur_len) <=? cfg.(queue_size_low) then false
                      else eq.(throttling) |>.
Proof. unfold low_water. destruct (_ <=? _); [done|by destruct eq]. Qed.

Lemma remove_sim q me w S s :
  sim w S → S !! q = Some s → (me < length s.(work))%nat →
  yields (event_queue_remove cfg q me w) (λ '(r, w'),
    r = (if s.(work) !! me is Some (Some _) then 0 else -1) ∧
    sim w' (<[q := spec_remove cfg.(queue_size_low) me s]> S)).
Proof.
  intros HS Hs Hme. destruct (proj2 HS q s Hs) as [O (eq & Hq & Q)].
  unfold event_queue_remove. rewrite (load_ok _ _ _ Hq). cbn [obind].
  destruct (lookup_lt_is_Some_2 _ _ Hme) as [o Ho].
  destruct (Forall2_lookup_r _ _ _ _ _ (sim_work _ _ _ _ Q) Ho) as (t & Ht & Hto).
  rewrite Ht, Ho. destruct o as [it|]; simpl in Hto.
  2: { rewrite Hto. simpl. split; [done|]. unfold spec_remove. rewrite Ho.
    by rewrite insert_id. }
  destruct Hto as (x & Hx & ->). cbn [current].
  rewrite (load_ok _ _ _ Hx). cbn [obind].
  pose proof (ok_work s O _ _ Ho) as Hit.
  pose proof (sim_items _ _ _ _ Q) as I. rewrite Forall_forall in I.
  destruct (I it Hit) as (x' & m & Hx' & Hxq & Hm & _).
  rewrite Hx in Hx'. injection Hx' as <-. rewrite decide_True by done.
  destruct (spec_remove_items (queue_size_low cfg) me s it O Ho)
    as (l1 & l2 & E & _ & Hi & Hmk & Hw & Hf).
  set (eq1 := eq <| thread := <[me:=mkQueueThread None None]> (thread eq) |>).
  destruct (unlink_element_ok w q s eq eq1 l1 it l2 O Q E eq_refl eq_refl)
    as (h' & Eu & R & RL).
  rewrite Eu, <- Hmk. cbn [obind].
  eapply yields_bind; [apply count_remove_yields|]. intros eq2 (e & ->).
  eapply yields_bind; [apply free_yields; by exists m|]. intros w2 (He2 & Hq2 & Hm2).
  cbn [elements set_queue setter] in He2.
  assert (is_Some (h' !! it.1)) as [x2 Hx2].
  { rewrite <- (fmap_is_Some core). rewrite (proj1 RL), Hx. by eexists. }
  unfold free_element. simpl in He2. rewrite He2, (load_ok _ _ _ Hx2). simpl. split; [done|].
  eapply (remove_sim_state (queue_size_low cfg) q me w _ S s eq _ h' l1 it l2 x); try done.
  - exact Hq2.
  - by rewrite low_water_eq.
  - by rewrite low_water_eq.
  - rewrite low_water_eq. simpl. pose proof (sim_len _ _ _ _ Q) as L. rewrite E in L.
    rewrite L, !length_app. simpl. lia.
  - rewrite low_water_eq, Hf. simpl.
    assert (cur_len eq - 1 = Z.of_nat (length (l1 ++ l2))) as ->.
    { rewrite (sim_len _ _ _ _ Q), E, !length_app. simpl. lia. }
    by rewrite (sim_full _ _ _ _ Q).
  - by rewrite low_water_eq.
Qed.
End run.
