(* ===== verification/Delivery.v ===== *)
(** * Delivery: any number of threads on any number of queues

    A run is a sequence of steps of the daemon: the input thread inserts messages, the
    delivery threads of the queues get, release and remove them, in any interleaving (each
    step holds the lock of its queue).  The log of a run says which messages entered and
    which left a queue.  Every run follows the specification of the queues, so that no
    thread ever touches freed memory, no two threads of a queue send messages of one job,
    and the normal messages of a job leave in the order in which they came. *)
From Stdlib Require Import ZArith Lia.
From stdpp Require Import base option list strings gmap.
From S2P Require Import Prelude EventQueue QueueRing QueueSpec EventQueueProps.
#[local] Open Scope Z_scope.

(** ** Steps and runs *)
Inductive op :=
| Insert (m : server_msg)
| Get (me : nat) (want : bool)
| Release (me : nat)             (* a message could not be sent *)
| Remove (me : nat)              (* a message has been sent *)
| RoundEnd (me : nat).

Inductive event :=
| Inserted (q : addr) (m : server_msg)
| Removed (q : addr) (m : server_msg).

Section run.
Context `{Malloc} (cfg : il_config).

Definition thread_of (q : addr) (me : nat) (w : il) : option queue_thread :=
  eq ← w.(queues) !! q; eq.(thread) !! me.

Definition current_msg (q : addr) (me : nat) (w : il) : option server_msg :=
  t ← thread_of q me w; el ← t.(current); x ← w.(elements) !! el;
  content <$> w.(msgs) !! x.(el_msg).

Definition run_op (q : addr) (o : op) (w : il) : outcome (list event * il) :=
  match o with
  | Insert m =>
    let! '(r, w') := event_queue_insert cfg q m w in
    Ret (if r =? 0 then [Inserted q (content m)] else [], w')
  | Get me want =>
    let! '(_, _, w') := event_queue_get q me want w in Ret ([], w')
  | Release me =>
    match t ← thread_of q me w; t.(jobid) with
    | Some p => let! '(_, w') := server_msg_release p w in Ret ([], w')
    | None => Ret ([], w)
    end
  | Remove me =>
    let! '(r, w') := event_queue_remove cfg q me w in
    Ret (if r =? 0 then Removed q <$> option_list (current_msg q me w) else [], w')
  | RoundEnd me => let! w' := queue_thread_round_end q me w in Ret ([], w')
  end.

Fixpoint run (ops : list (addr * op)) (w : il) : outcome (list event * il) :=
  match ops with
  | [] => Ret ([], w)
  | (q, o) :: ops =>
    let! '(es, w) := run_op q o w in
    let! '(es', w) := run ops w in
    Ret (es ++ es', w)
  end.

(** ** The steps of the specification *)
Inductive spec_step (q : addr) (s : aqueue) : op → list event → aqueue → Prop :=
| step_refused m : spec_full cfg s = true →
    spec_step q s (Insert m) [] (s <| full := true |>)
| step_insert m n : spec_full cfg s = false → n ∉ s.(items).*1 →
    spec_step q s (Insert m) [Inserted q (content m)] (spec_insert (n, content m) s)
| step_get me want : spec_step q s (Get me want) [] (spec_get me want s)
| step_release me : spec_step q s (Release me) [] s
| step_remove me it : s.(work) !! me = Some (Some it) →
    spec_step q s (Remove me) [Removed q it.2] (spec_remove cfg.(queue_size_low) me s)
| step_remove_none me : s.(work) !! me = Some None →
    spec_step q s (Remove me) [] s
| step_round_end me : spec_step q s (RoundEnd me) [] (spec_forget me s).

Inductive spec_run : gmap addr aqueue → list (addr * op) → list event → gmap addr aqueue → Prop :=
| run_nil S : spec_run S [] [] S
| run_cons S q s o s' es ops es' S' : S !! q = Some s → spec_step q s o es s' →
    spec_run (<[q := s']> S) ops es' S' → spec_run S ((q, o) :: ops) (es ++ es') S'.

(** The steps that exist: messages have a job, threads are threads of the queue. *)
Definition allowed (S : gmap addr aqueue) (qo : addr * op) : Prop :=
  ∃ s, S !! qo.1 = Some s ∧
    match qo.2 with
    | Insert m => is_Some m.(job_id_s)
    | Get me _ | Release me | Remove me | RoundEnd me => (me < length s.(work))%nat
    end.

(** ** Refinement *)
Lemma work_length_step q s o es s' :
  spec_step q s o es s' → length s'.(work) = length s.(work).
Proof.
  destruct 1; simpl; rewrite ?length_insert; try done.
  - by rewrite (proj1 (spec_insert_work _ _)).
  - unfold spec_remove. rewrite H0. destruct it. simpl. by rewrite length_insert.
Qed.

Lemma allowed_step S q s o es s' qo :
  S !! q = Some s → spec_step q s o es s' → allowed S qo → allowed (<[q := s']> S) qo.
Proof.
  intros Hs St (s1 & Hs1 & A). destruct (decide (qo.1 = q)) as [E|N].
  - exists s'. rewrite E in *. rewrite lookup_insert_eq. rewrite Hs in Hs1. injection Hs1 as <-.
    split; [done|]. by rewrite (work_length_step _ _ _ _ _ St).
  - exists s1. by rewrite lookup_insert_ne by done.
Qed.

Lemma sim_thread w q s eq me o :
  queue_sim w q s eq → s.(work) !! me = Some o →
  ∃ t, eq.(thread) !! me = Some t ∧ sends w t o.
Proof. intros Q Ho. eapply Forall2_lookup_r in Ho; [done|apply Q]. Qed.

Lemma release_sim q me w S s :
  sim w S → S !! q = Some s → (me < length s.(work))%nat →
  yields (run_op q (Release me) w) (λ '(es, w'), es = [] ∧ sim w' (<[q := s]> S)).
Proof.
  intros HS Hs Hme. pose proof HS as [HH HQ]. destruct (HQ q s Hs) as [O (eq & Hq & Q)].
  destruct (lookup_lt_is_Some_2 _ _ Hme) as [o Ho].
  destruct (sim_thread _ _ _ _ _ _ Q Ho) as (t & Ht & Hto).
  cbn [run_op]. unfold thread_of. rewrite Hq. cbn [mbind option_bind]. rewrite Ht. simpl.
  destruct o as [it|]; [|rewrite Hto; simpl; by rewrite insert_id].
  destruct Hto as (x & Hx & ->). simpl.
  eapply yields_bind; [apply release_same; by eapply heap_live|].
  intros [r w'] [Same Hqs]. simpl. split; [done|].
  assert (s = s <| work := s.(work) |>) as Es by by destruct s.
  rewrite Es. apply (sim_work_step q w w' S s eq eq.(thread) s.(work)); try done.
  - simpl in Hqs. rewrite Hqs. symmetry. apply insert_id. rewrite Hq. by destruct eq.
  - apply Q.
  - by rewrite <- Es.
Qed.
Lemma current_msg_ok q me w s eq it :
  w.(queues) !! q = Some eq → spec_ok s → queue_sim w q s eq →
  s.(work) !! me = Some (Some it) → current_msg q me w = Some it.2.
Proof.
  intros Hq O Q Ho. destruct (sim_thread _ _ _ _ _ _ Q Ho) as (t & Ht & x & Hx & ->).
  unfold current_msg, thread_of. rewrite Hq. simpl. rewrite Ht. simpl. rewrite Hx. simpl.
  pose proof (sim_items _ _ _ _ Q) as I. rewrite Forall_forall in I.
  destruct (I it (ok_work s O _ _ Ho)) as (x' & m & Hx' & _ & Hm & ->).
  rewrite Hx in Hx'. injection Hx' as <-. by rewrite Hm.
Qed.

(** One step: only a counter can overflow, else the step is one of the specification. *)
Lemma step_sim q o w S :
  sim w S → allowed S (q, o) →
  yields (run_op q o w) (λ '(es, w'), ∃ s s',
    S !! q = Some s ∧ spec_step q s o es s' ∧ sim w' (<[q := s']> S)).
Proof.
  intros HS (s & Hs & A). simpl in Hs, A.
  destruct (proj2 HS q s Hs) as [O (eq & Hq & Q)].
  destruct o as [m|me want|me|me|me]; cbn [run_op].
  - eapply yields_bind; [by apply insert_sim|]. intros [r w'] Hr.
    destruct (spec_full cfg s) eqn:F.
    + destruct Hr as [-> Hr]. exists s, (s <| full := true |>).
      split; [done|]. split; [by constructor|done].
    + destruct Hr as [-> (n & Hn & Hr)]. exists s, (spec_insert (n, content m) s).
      split; [done|]. split; [by constructor|done].
  - eapply yields_bind; [by eapply get_sim|]. intros [[p found] w'] (_ & _ & Hr).
    exists s, (spec_get me want s). split; [done|]. split; [constructor|done].
  - pose proof (release_sim q me w S s HS Hs A) as Hr. cbn [run_op] in Hr.
    destruct (thread_of q me w ≫= _); [destruct (server_msg_release _ _) as [[? ?]|]|];
      simpl in *; try done.
    + exists s, s. split; [done|]. split; [constructor|]. by destruct Hr.
    + exists s, s. split; [done|]. split; [constructor|]. by destruct Hr.
  - eapply yields_bind; [by eapply remove_sim|]. intros [r w'] [-> Hr].
    exists s, (spec_remove cfg.(queue_size_low) me s).
    split; [done|]. split; [|done].
    destruct (lookup_lt_is_Some_2 _ _ A) as [[it|] Ho]; rewrite Ho.
    + rewrite (current_msg_ok q me w s eq it) by done. by constructor.
    + unfold spec_remove. rewrite Ho. by constructor.
  - eapply yields_bind; [by eapply round_end_sim|]. intros w' Hr.
    exists s, (spec_forget me s). split; [done|]. split; [constructor|done].
Qed.

Lemma run_sim ops w S :
  sim w S → Forall (allowed S) ops →
  yields (run ops w) (λ '(es, w'), ∃ S', spec_run S ops es S' ∧ sim w' S').
Proof.
  revert w S. induction ops as [|[q o] ops IH]; intros w S HS A; cbn [run].
  { exists S. split; [constructor|done]. }
  apply Forall_cons in A as [Ao A].
  eapply yields_bind; [by apply step_sim|].
  intros [es w1] (s & s' & Hs & St & HS').
  eapply yields_bind; [apply IH; [done|]|].
  { eapply Forall_impl; [done|]. intros qo. by eapply allowed_step. }
  intros [es' w2] (S' & R & HS2). exists S'. split; [|done]. by eapply run_cons.
Qed.

(** ** From empty queues *)
Record initial (k : nat) (w : il) : Prop := {
  init_elements : w.(elements) = ∅;
  init_queues : ∀ q eq, w.(queues) !! q = Some eq →
    eq.(head) = None ∧ eq.(tail_ems) = None ∧ eq.(cur_len) = 0 ∧
    eq.(throttling) = false ∧ eq.(thread) = replicate k (mkQueueThread None None)
}.

Definition empty_queues (k : nat) (w : il) : gmap addr aqueue :=
  (λ _, spec_init k) <$> w.(queues).

Lemma initial_sim k w : initial k w → sim w (empty_queues k w).
Proof.
  intros [He Hq]. split.
  - by split; rewrite He; intros.
  - intros q s Hs. apply lookup_fmap_Some in Hs as (eq & <- & Heq).
    split; [apply spec_ok_init|]. exists eq. split; [done|].
    destruct (Hq q eq Heq) as (? & ? & ? & ? & Ht). split; simpl; try done.
    + split; [apply NoDup_nil_2|]. split; [apply chain_nil|done].
    + rewrite Ht. apply Forall2_same_length_lookup_2; [by rewrite !length_replicate|].
      by intros i t o [-> _]%lookup_replicate [-> _]%lookup_replicate.
Qed.

(** ** Order *)
Definition normal_job (j : string) (m : server_msg) : Prop :=
  m.(job_id_s) = Some j ∧ server_msg_is_priority m = false.

(** The normal messages of the job [j] that entered the queue [q], in order. *)
Definition inserted (q : addr) (j : string) (es : list event) : list server_msg :=
  filter (normal_job j)
    (omap (λ e, match e with
                | Inserted q' m => if decide (q' = q) then Some m else None
                | Removed _ _ => None end) es).
(** Those that left it. *)
Definition removed (q : addr) (j : string) (es : list event) : list server_msg :=
  filter (normal_job j)
    (omap (λ e, match e with
                | Removed q' m => if decide (q' = q) then Some m else None
                | Inserted _ _ => None end) es).
(** Those that are in it. *)
Definition waiting (j : string) (s : aqueue) : list server_msg := (normal_of j s.(items)).*2.

Lemma inserted_app q j es es' : inserted q j (es ++ es') = inserted q j es ++ inserted q j es'.
Proof. unfold inserted. by rewrite omap_app, filter_app. Qed.
Lemma removed_app q j es es' : removed q j (es ++ es') = removed q j es ++ removed q j es'.
Proof. unfold removed. by rewrite omap_app, filter_app. Qed.

Lemma normal_if_filter j it : (normal_if j it).*2 = filter (normal_job j) [it.2].
Proof.
  unfold normal_if, normal_of, normal_job. rewrite !filter_cons, !filter_nil.
  by repeat case_decide.
Qed.

Lemma spec_step_ok q s o es s' :
  spec_ok s → spec_step q s o es s' →
  match o with Insert m => is_Some m.(job_id_s) | _ => True end → spec_ok s'.
Proof.
  intros O St A. destruct St; [| |by apply spec_ok_get|done|by apply spec_ok_remove|done|
    by apply spec_ok_forget].
  - by apply (spec_ok_sub s).
  - by apply spec_ok_insert.
Qed.

Lemma step_order q s o es s' j :
  spec_ok s → spec_step q s o es s' →
  waiting j s ++ inserted q j es = removed q j es ++ waiting j s'.
Proof.
  intros O St. unfold waiting.
  destruct St; unfold inserted, removed; simpl; rewrite ?app_nil_r; try done;
    rewrite ?decide_True, ?filter_nil by done.
  - by rewrite spec_insert_normal, fmap_app, normal_if_filter by done.
  - rewrite (spec_remove_normal (queue_size_low cfg) me s it j), fmap_app, normal_if_filter
      by done. done.
Qed.
Lemma step_order_other q q' s o es s' j :
  q' ≠ q → spec_step q s o es s' → inserted q' j es = [] ∧ removed q' j es = [].
Proof.
  intros N St. destruct St; unfold inserted, removed; simpl; rewrite ?decide_False by done; done.
Qed.

Lemma run_order S ops es S' q s s' j :
  spec_run S ops es S' → Forall (allowed S) ops → (∀ q s, S !! q = Some s → spec_ok s) →
  S !! q = Some s → S' !! q = Some s' →
  waiting j s ++ inserted q j es = removed q j es ++ waiting j s'.
Proof.
  intros R. revert s. induction R as [S|S p s0 o s1 es ops es' S' Hs0 St R IH];
    intros s A O Hs Hs'.
  - rewrite Hs in Hs'. injection Hs' as <-. by rewrite app_nil_r.
  - apply Forall_cons in A as [(s2 & Hs2 & Ao) A]. simpl in *.
    rewrite Hs0 in Hs2. injection Hs2 as <-.
    assert (spec_ok s1) as O1.
    { apply (spec_step_ok p s0 o es); [by eapply O|done|by destruct o]. }
    assert (Forall (allowed (<[p := s1]> S)) ops) as A1.
    { eapply Forall_impl; [done|]. intros qo. by eapply allowed_step. }
    assert (∀ q s, <[p := s1]> S !! q = Some s → spec_ok s) as O2.
    { intros ? ? [[-> <-]|[_ ?]]%lookup_insert_Some; [done|by eapply O]. }
    rewrite inserted_app, removed_app. destruct (decide (q = p)) as [->|N].
    + rewrite Hs0 in Hs. injection Hs as <-.
      specialize (IH s1 A1 O2 (lookup_insert_eq _ _ _) Hs').
      rewrite (assoc_L (++)), (step_order p s0 o es s1 j) by (done || by eapply O).
      by rewrite <- !(assoc_L (++)), IH.
    + destruct (step_order_other p q s0 o es s1 j N St) as [-> ->]. simpl.
      apply (IH s A1 O2); [by rewrite lookup_insert_ne|done].
Qed.

Lemma spec_run_dom S ops es S' q : spec_run S ops es S' → is_Some (S !! q) → is_Some (S' !! q).
Proof.
  induction 1 as [|S p s0 o s1 es ops es' S' Hs0 St R IH]; [done|]. intros Hq. apply IH.
  destruct (decide (q = p)) as [->|N]; [by rewrite lookup_insert_eq|by rewrite lookup_insert_ne].
Qed.
End run.

(** ** Inversion *)
Lemma spec_run_inv cfg S q o ops es S' :
  spec_run cfg S ((q, o) :: ops) es S' →
  ∃ s s' es1 es2, S !! q = Some s ∧ spec_step cfg q s o es1 s' ∧ es = es1 ++ es2 ∧
    spec_run cfg (<[q := s']> S) ops es2 S'.
Proof. inversion 1; subst. eauto 10. Qed.

Lemma insert_inv cfg q s m es s' :
  spec_full cfg s = false → spec_step cfg q s (Insert m) es s' →
  ∃ n, es = [Inserted q (content m)] ∧ s' = spec_insert (n, content m) s.
Proof. intros F. inversion 1; subst; [congruence|]. eauto. Qed.

(** ** Draining a queue *)
Definition drain (q : addr) (me n : nat) : list (addr * op) :=
  concat (replicate n [(q, Get me true); (q, Remove me)]).

Definition alone (me : nat) (s : aqueue) : Prop :=
  ∀ i it, i ≠ me → s.(work) !! i ≠ Some (Some it).

Lemma alone_found me s : alone me s → spec_found me s = hd_error s.(items).
Proof.
  intros A. unfold spec_found. destruct s.(items) as [|it l]; [done|]. simpl.
  destruct (busy me s.(work) (job it)) eqn:B; [|done].
  apply busy_spec in B as (i & it' & N & Hi & _). by destruct (A i it' N).
Qed.

Lemma drain_sim `{Malloc} cfg q me n w S s :
  sim w S → S !! q = Some s → (me < length s.(work))%nat → alone me s →
  length s.(items) = n →
  yields (run cfg (drain q me n) w) (λ '(es, w'),
    es = Removed q <$> s.(items).*2 ∧ event_queue_empty q w' = Ret true).
Proof.
  revert w S s. induction n as [|n IH]; intros w S s HS Hs Hme A Hn.
  - destruct (items s) as [|? ?] eqn:Hi; [|done]. simpl. split; [done|].
    destruct (proj2 HS q s Hs) as [_ (eq & Hq & Q)].
    unfold event_queue_empty. rewrite (load_ok _ _ _ Hq). simpl.
    by rewrite (sim_head _ _ _ _ Q), Hi.
  - change (drain q me (Datatypes.S n)) with ((q, Get me true) :: (q, Remove me) :: drain q me n).
    cbn [run run_op]. destruct (items s) as [|it l] eqn:Hi; [done|].
    pose proof (alone_found me s A) as Hf. rewrite Hi in Hf. simpl in Hf.
    set (s1 := spec_get me true s).
    assert (s1 = s <| work := <[me := Some it]> s.(work) |>) as E1
      by (unfold s1, spec_get; by rewrite Hf).
    eapply (yields_bind _ _ (λ '(es1, w1), es1 = [] ∧ sim w1 (<[q := s1]> S))).
    { eapply yields_bind; [by apply get_sim|]. by intros [[? ?] w1] (_ & _ & HS1). }
    intros [es1 w1] [-> HS1].
    assert (<[q := s1]> S !! q = Some s1) as Hs1 by apply lookup_insert_eq.
    assert (s1.(work) !! me = Some (Some it)) as Ho.
    { rewrite E1. simpl. by apply list_lookup_insert_eq. }
    destruct (proj2 HS1 q s1 Hs1) as [O1 (eq1 & Hq1 & Q1)].
    set (s2 := spec_remove (queue_size_low cfg) me s1).
    assert (s2.(items) = l) as Hi2.
    { unfold s2, spec_remove. rewrite Ho. destruct it as [a m]. cbn [items].
      rewrite E1. cbn [items setter]. rewrite Hi. simpl. by rewrite decide_True. }
    assert (s2.(work) = <[me := None]> s.(work)) as Hw2.
    { unfold s2, spec_remove. rewrite Ho. destruct it as [a m]. cbn [work].
      rewrite E1. cbn [work setter]. by rewrite list_insert_insert_eq. }
    eapply (yields_bind _ _ (λ '(es', w'), es' = Removed q it.2 :: (Removed q <$> l.*2) ∧
              event_queue_empty q w' = Ret true)).
    2: { by intros [es' w'] [-> ?]. }
    eapply (yields_bind _ _ (λ '(es2, w2), es2 = [Removed q it.2] ∧
              sim w2 (<[q := s2]> (<[q := s1]> S)))).
    { rewrite (current_msg_ok q me w1 s1 eq1 it) by done.
      eapply yields_bind; [apply remove_sim; [done|done|by eapply lookup_lt_Some]|].
      rewrite Ho. by intros [r w2] [-> HS2]. }
    intros [es2 w2] [-> HS2].
    eapply yields_bind.
    { apply (IH w2 _ s2 HS2); [apply lookup_insert_eq| | |].
      - by rewrite Hw2, length_insert.
      - intros i a N. rewrite Hw2, list_lookup_insert_ne by done. by apply A.
      - rewrite Hi2. by injection Hn. }
    rewrite Hi2. by intros [es' w'] [-> ?].
Qed.

(** ** The properties *)
Section properties.
Context `{Malloc} (cfg : il_config).




(** C16: A thread that works alone on a queue sends every message in it, in the order of
    sending, and leaves it empty. *)
Theorem queue_drains q me w S s :
  sim w S → S !! q = Some s → (me < length s.(work))%nat → alone me s →
  match run cfg (drain q me (length s.(items))) w with
  | Ret (es, w') => es = Removed q <$> s.(items).*2 ∧ event_queue_empty q w' = Ret true
  | UB f => f = SignedOverflow
  end.
Proof. intros HS Hs Hme A. by apply (drain_sim cfg q me _ w S s HS Hs Hme A). Qed.

(** A priority message overtakes a priority message that was put into an empty queue,
    even one of the same job. *)
Theorem priority_overtakes k w q m1 m2 es w' :
  initial k w → is_Some (w.(queues) !! q) → (0 < k)%nat → cfg.(queue_size_high) = 0 →
  is_Some m1.(job_id_s) → is_Some m2.(job_id_s) →
  server_msg_is_priority m2 = true →
  run cfg [(q, Insert m1); (q, Insert m2); (q, Get 0 true); (q, Remove 0)] w = Ret (es, w') →
  es = [Inserted q (content m1); Inserted q (content m2); Removed q (content m2)].
Proof.
  intros I [eq Hq] Hk Hh J1 J2 P E.
  assert (empty_queues k w !! q = Some (spec_init k)) as Hs
    by (unfold empty_queues; by rewrite lookup_fmap, Hq).
  assert (Forall (allowed (empty_queues k w))
            [(q, Insert m1); (q, Insert m2); (q, Get 0 true); (q, Remove 0)]) as A.
  { repeat constructor; exists (spec_init k); (split; [done|]); simpl;
      rewrite ?length_replicate; done. }
  pose proof (run_sim cfg _ w _ (initial_sim k w I) A) as Y. rewrite E in Y.
  destruct Y as (S' & R & _).
  assert (∀ s, spec_full cfg s = false) as F by (intros s; unfold spec_full; by rewrite Hh).
  apply spec_run_inv in R as (s0 & s1 & es1 & r1 & E0 & St1 & -> & R).
  rewrite Hs in E0. injection E0 as <-.
  apply spec_run_inv in R as (s1' & s2 & es2 & r2 & E1 & St2 & -> & R).
  rewrite lookup_insert_eq in E1. injection E1 as <-.
  apply spec_run_inv in R as (s2' & s3 & es3 & r3 & E2 & St3 & -> & R).
  rewrite lookup_insert_eq in E2. injection E2 as <-.
  apply spec_run_inv in R as (s3' & s4 & es4 & r4 & E3 & St4 & -> & R).
  rewrite lookup_insert_eq in E3. injection E3 as <-.
  inversion R; subst. rewrite app_nil_r.
  apply (insert_inv _ _ _ _ _ _ (F _)) in St1 as (n1 & -> & ->).
  apply (insert_inv _ _ _ _ _ _ (F _)) in St2 as (n2 & -> & ->).
  inversion St3; subst.
  assert (spec_insert (n2, content m2) (spec_insert (n1, content m1) (spec_init k)) =
          mkAqueue [(n2, content m2); (n1, content m1)] (Some n1) (replicate k None) false) as Es.
  { unfold spec_insert. simpl. change (server_msg_is_priority (content m2))
      with (server_msg_is_priority m2). rewrite P. by rewrite decide_True. }
  rewrite Es in St4. unfold spec_get in St4. rewrite alone_found in St4.
  2: { intros i it _ Hi. simpl in Hi. by apply lookup_replicate in Hi as [? _]. }
  destruct k as [|k]; [lia|].
  change (spec_step cfg q (mkAqueue [(n2, content m2); (n1, content m1)] (Some n1)
            (Some (n2, content m2) :: replicate k None) false) (Remove 0) es4 s4) in St4.
  inversion St4 as [| | | |? it Hw| ? Hw|]; subst; [|discriminate Hw].
  by injection Hw as <-.
Qed.
End properties.

(** ** Concrete runs *)
Definition demo_cfg : il_config := mkConfig 0 0 false None (λ _, true).
Definition demo_queue (k : nat) : event_queue :=
  mkEventQueue "lb.cesnet.cz:9000" "lb.cesnet.cz" 9001 None None
    (replicate k (mkQueueThread None None)) 0 0 0 false.
Definition demo_store : event_store := mkEventStore "f" "f.ctl" "j" 0 0 0 0 0 0.
Definition demo_world : il :=
  mkIl ∅ ∅ {[0%nat := demo_queue 2]} [] {[7%nat := demo_store]} ∅.
Definition demo_msg (j data : string) (prio expires : Z) : server_msg :=
  mkServerMsg (Some j) 0 data 10 7%nat 0 prio expires 0.

Definition demo_ops : list (addr * op) :=
  [(0%nat, Insert (demo_msg "a" "a1" 0 0)); (0%nat, Insert (demo_msg "a" "a2" 0 0));
   (0%nat, Insert (demo_msg "b" "b1" 0 0)); (0%nat, Get 0 true); (0%nat, Get 1 true);
   (0%nat, Remove 1); (0%nat, Insert (demo_msg "b" "b2" 5 0)); (0%nat, Remove 0);
   (0%nat, Get 1 true); (0%nat, Release 1); (0%nat, RoundEnd 1)].

Lemma demo_initial : initial 2 demo_world.
Proof.
  split; [done|]. intros q eq Hq. simpl in Hq.
  apply lookup_singleton_Some in Hq as [_ <-]. done.
Qed.

Lemma demo_allowed : Forall (allowed (empty_queues 2 demo_world)) demo_ops.
Proof.
  assert (empty_queues 2 demo_world !! 0%nat = Some (spec_init 2)) as E by reflexivity.
  repeat constructor; exists (spec_init 2); (split; [exact E|]); simpl;
    first [by eexists | lia].
Qed.

Definition demo_log : list event :=
  let a1 := demo_msg "a" "a1" 0 0 in let a2 := demo_msg "a" "a2" 0 0 in
  let b1 := demo_msg "b" "b1" 0 0 in let b2 := demo_msg "b" "b2" 5 0 in
  [Inserted 0%nat a1; Inserted 0%nat a2; Inserted 0%nat b1; Removed 0%nat b1;
   Inserted 0%nat b2; Removed 0%nat a1].
Lemma demo_run : ∃ w', run demo_cfg demo_ops demo_world = Ret (demo_log, w').
Proof. eexists. vm_compute. reflexivity. Qed.




(** Two messages of one job are waiting. *)
Lemma demo_two :
  ∃ w S s, sim w S ∧ S !! 0%nat = Some s ∧ s.(work) = replicate 2 None ∧
    s.(items).*2 = [demo_msg "a" "a1" 0 0; demo_msg "a" "a2" 0 0].
Proof.
  assert (Forall (allowed (empty_queues 2 demo_world)) (take 2 demo_ops)) as A
    by apply Forall_take, demo_allowed.
  pose proof (run_sim demo_cfg _ _ _ (initial_sim _ _ demo_initial) A) as Y.
  assert (∃ es w, run demo_cfg (take 2 demo_ops) demo_world = Ret (es, w)) as (es & w & E)
    by (do 2 eexists; vm_compute; reflexivity).
  rewrite E in Y. destruct Y as (S & R & HS). exists w, S.
  assert (∀ s, spec_full demo_cfg s = false) as F by done.
  apply spec_run_inv in R as (s0 & s1 & es1 & r1 & E0 & St1 & _ & R).
  injection E0 as <-. apply spec_run_inv in R as (s1' & s2 & es2 & r2 & E1 & St2 & _ & R).
  rewrite lookup_insert_eq in E1. injection E1 as <-. inversion R; subst.
  apply (insert_inv _ _ _ _ _ _ (F _)) in St1 as (n1 & _ & ->).
  apply (insert_inv _ _ _ _ _ _ (F _)) in St2 as (n2 & _ & ->).
  eexists. split; [done|]. by rewrite lookup_insert_eq.
Qed.

Lemma queue_drains_witness :
  ∃ w, match run demo_cfg (drain 0%nat 0 2) w with
  | Ret (es, w') =>
    es = [Removed 0%nat (demo_msg "a" "a1" 0 0); Removed 0%nat (demo_msg "a" "a2" 0 0)] ∧
    event_queue_empty 0%nat w' = Ret true
  | UB f => f = SignedOverflow
  end.
Proof.
  destruct demo_two as (w & S & s & HS & Hs & Hw & Hi). exists w.
  assert (length s.(items) = 2%nat) as Hl by (rewrite <- (length_fmap snd), Hi; done).
  pose proof (queue_drains demo_cfg 0%nat 0%nat w S s HS Hs) as D.
  rewrite Hl, Hi in D. apply D; [rewrite Hw; simpl; lia|].
  intros i it _ C. rewrite Hw in C. by apply (lookup_replicate 2) in C as [? _].
Defined.

Lemma priority_overtakes_witness :
  ∃ w', run demo_cfg [(0%nat, Insert (demo_msg "a" "a1" 5 0));
                      (0%nat, Insert (demo_msg "a" "a2" 6 0));
                      (0%nat, Get 0 true); (0%nat, Remove 0)] demo_world =
    Ret ([Inserted 0%nat (demo_msg "a" "a1" 5 0); Inserted 0%nat (demo_msg "a" "a2" 6 0);
          Removed 0%nat (demo_msg "a" "a2" 6 0)], w').
Proof.
  assert (∃ es w', run demo_cfg [(0%nat, Insert (demo_msg "a" "a1" 5 0));
                      (0%nat, Insert (demo_msg "a" "a2" 6 0));
                      (0%nat, Get 0 true); (0%nat, Remove 0)] demo_world = Ret (es, w'))
    as (es & w' & E) by (do 2 eexists; vm_compute; reflexivity).
  exists w'. rewrite E. do 2 f_equal.
  refine (priority_overtakes demo_cfg 2 demo_world 0%nat (demo_msg "a" "a1" 5 0)
            (demo_msg "a" "a2" 6 0) es w' demo_initial _ _ _ _ _ _ E);
    first [by eexists | lia | reflexivity].
Defined.

(** ** Discarding expired messages

    The first thread of a queue discards expired messages by moving them to the trash. *)
Definition demo_expired : outcome il :=
  let! '(_, w) := run demo_cfg
    [(0%nat, Insert (demo_msg "a" "a1" 0 100)); (0%nat, Insert (demo_msg "b" "b1" 0 100));
     (0%nat, Get 1 true)] demo_world in
  Ret w.

(** Discarding expired messages frees a message that another thread is sending: when
    that thread is done with it, it uses freed memory. *)
Theorem discarded_while_sent :
  (let! w := demo_expired in
   let! '(_, w) := event_queue_move_events demo_cfg 0%nat None (cmp_expires 200) w in
   event_queue_remove demo_cfg 0%nat 1 w) = UB DanglingPtr.
Proof. vm_compute. reflexivity. Qed.

(** Although both messages have expired, the last one stays in the queue. *)
Lemma discard_misses_last :
  (let! w := demo_expired in
   let! '(_, w) := event_queue_move_events demo_cfg 0%nat None (cmp_expires 200) w in
   let! eq := load w.(queues) 0%nat in Ret eq.(cur_len)) = Ret 1.
Proof. vm_compute. reflexivity. Qed.
