(* ===== verification/EventStore.v ===== *)
(** * The event stores of the interlogger

    The model of event_store.c, of the creation of messages in server_msg.c, of
    queue_list_get of queue_mgr.c and of enqueue_msg of il_master.c (all in
    org.glite.lb.logger/src), for the interlogger of the bookkeeping server.

    A file is its bytes, in the map [files]; operations on files that exist succeed, but
    for the writing of control files.  A recovery is one step: the delivery threads, which
    may commit messages while it runs, only move the counters that it has read already.
    The extraction of the job identifier from an event (in a file that the build generates)
    is a parameter. *)
From Stdlib Require Import ZArith Lia Ascii.
From stdpp Require Import base option list strings numbers gmap.
From S2P Require Import Prelude CLib JobId IlMsg EventQueue.
#[local] Open Scope Z_scope.

Definition EVENT_SEPARATOR : ascii := chr 10.

(** ** Creating messages *)
Definition EDG_WLL_LOGFLAG_SYNC_COMPAT : Z := 1.
Definition EDG_WLL_LOGFLAG_SYNC : Z := 2.

(** [p + n], within the string. *)
Definition advance (n : nat) (p : string) : outcome string :=
  if (n <=? String.length p)%nat then Ret (str_drop n p) else UB OutOfBounds.
Definition atol (s : string) : Z := fst (strtol s).

(** The number of the local logger that waits for a confirmation, and the rest of the
    event; [None] is the error. *)
Definition create_msg_receipt (event : string) : outcome (option (Z * string)) :=
  match strip_prefix "DG.LLLID" event, strip_prefix "DG.LLPID" event with
  | None, None => Ret (Some (0, event))
  | _, _ =>
    let! event := advance 9 event in
    let receipt := atol event in
    match strchr event " " with
    | None => Ret None
    | Some p =>
      let event := str_drop 1 p in
      match strstr event "DG.PRIORITY" with
      | None => Ret (Some (0, event))
      | Some p =>
        let! p := advance 12 p in
        Ret (Some (if Z.land (atoi p) (Z.lor EDG_WLL_LOGFLAG_SYNC EDG_WLL_LOGFLAG_SYNC_COMPAT) =? 0
                   then 0 else receipt, event))
      end
    end
  end.

(** The message, [receipt] and [expires], which keeps its value if the event has none. *)
Definition create_msg (ev : string) (expires : Z) : outcome (option (string * Z * Z)) :=
  let! r := create_msg_receipt ev in
  match r with
  | None => Ret None
  | Some (receipt, event) =>
    let! expires :=
      match strstr event "DG.EXPIRES" with
      | Some p => let! p := advance 11 p in Ret (atoi p)
      | None => Ret expires
      end in
    let! '(buffer, len) := encode_il_msg ev in
    Ret (if len <? 0 then None else Some (buffer, receipt, expires))
  end.

Section store.
Context `{Malloc} (cfg : il_config).
Context (get_job_id : string → option string) (parallel : nat) (max_store_size : Z).

Definition server_msg_init (event : string) : outcome (option server_msg) :=
  let! r := create_msg event 0 in
  Ret (match r with
       | None => None
       | Some (buffer, receipt, expires) =>
         match get_job_id event with
         | None => None
         | Some j => Some (mkServerMsg (Some j) 0 buffer
             (Z.of_nat (String.length event) + 1) 0%nat 0 receipt expires 0)
         end
       end).

Definition server_msg_create (event : string) (offset : Z) : outcome (option server_msg) :=
  let! m := server_msg_init event in
  Ret ((λ m, m <| msg_offset := offset |>) <$> m).

(** ** Names and files *)

(** [sscanf] leaves [ret] alone if nothing follows the dot: [garbage]. *)
Definition fname2index (garbage : Z) (filename : string) : outcome Z :=
  match strrchr filename "." with
  | None => Ret 0
  | Some p =>
    let s := str_drop 1 p in
    if negb (str_forall isdigit s) then Ret 0 else
    add_long (match scan_num s with
              | Some (n, _) => clamp LONG_MIN LONG_MAX n | None => garbage end) 1
  end.

(** The event at the beginning of the bytes, as a C string, and the bytes after it. *)
Definition read_event_string (data : string) : option (string * string) :=
  match str_span (Ascii.eqb EVENT_SEPARATOR) data with
  | (event, String _ rest) => Some (c_string event, rest)
  | (_, EmptyString) => None
  end.

(** [fscanf(ctl_file,"%*s\n%ld\n%ld\n",...)] *)
Definition scan_ctl (text : string) (es : event_store) : event_store :=
  match str_span isspace (skip_space text) with
  | (EmptyString, _) => es
  | (_, rest) =>
    match scan_num rest with
    | None => es
    | Some (ls, rest) =>
      let es := es <| last_committed_ls := clamp LONG_MIN LONG_MAX ls |> in
      match scan_num rest with
      | None => es
      | Some (bs, _) => es <| last_committed_bs := clamp LONG_MIN LONG_MAX bs |>
      end
    end
  end.

Definition set_store (p : addr) (es : event_store) (w : il) : il :=
  w <| stores := <[p := es]> w.(stores) |>.

Definition event_store_read_ctl (p : addr) (w : il) : outcome (Z * il) :=
  let! es := load w.(stores) p in
  let es := match w.(files) !! es.(es_control_file) with
            | None => es <| last_committed_ls := 0 |> <| last_committed_bs := 0 |>
            | Some text => scan_ctl text es
            end in
  Ret (0, set_store p es w).

(** The first number from [num] on for which no file of the name exists. *)
Fixpoint free_name (fuel : nat) (name : Z → string) (num : Z) (fs : gmap string string) : Z :=
  match fuel with
  | O => num
  | S fuel => match fs !! name num with
              | None => num
              | Some _ => free_name fuel name (num + 1) fs
              end
  end.

Definition rename_file (a b : string) (w : il) : il :=
  match w.(files) !! a with
  | Some data => w <| files := <[b := data]> (delete a w.(files)) |>
  | None => w
  end.

Definition MAXPATHLEN : nat := 4096.

Definition quarantine_name (file : string) (num : Z) : string :=
  snprintf MAXPATHLEN "%s.quarantine.%d" [PStr (Some file); PInt num].

Definition event_store_quarantine (p : addr) (w : il) : outcome (Z * il) :=
  let! es := load w.(stores) p in
  let name := quarantine_name es.(es_event_file) in
  let num := free_name 1024 name 0 w.(files) in
  if 1024 <=? num then Ret (-1, w) else
  let w := rename_file es.(es_event_file) (name num) w in
  let! g := add_int es.(es_generation) 1 in
  Ret (0, set_store p (es <| last_committed_ls := 0 |> <| last_committed_bs := 0 |>
                          <| es_offset := 0 |> <| es_generation := g |>) w).

Definition rotated_name (file : string) (timestamp num : Z) : string :=
  snprintf MAXPATHLEN "%s.%d%03d" [PStr (Some file); PInt (s32 timestamp); PInt num].

Definition event_store_rotate_file (timestamp : Z) (p : addr) (w : il) : outcome (Z * il) :=
  let! es := load w.(stores) p in
  if 0 <? es.(rotate_index) then Ret (0, w) else
  let name := rotated_name es.(es_event_file) timestamp in
  let num := free_name 256 name 0 w.(files) in
  if 1024 <=? num then Ret (-1, w) else
  (* the loop leaves the last name that it tried in newname *)
  let newname := name (Z.min num 255) in
  let w := rename_file es.(es_event_file) newname w in
  Ret (0, set_store p (es <| es_event_file := newname |>
            <| es_control_file := newname +:+ ".ctl" |>
            <| rotate_index := 1000 * timestamp + num + 1 |>) w).

(** ** The queue of a job *)
Fixpoint queue_list_find (ql : list (string * addr)) (dest : string) : option addr :=
  match ql with
  | [] => None
  | (d, q) :: ql => if bool_decide (d = dest) then Some q else queue_list_find ql dest
  end.

Definition queue_list_add (dest : string) (q : addr) (w : il) : il :=
  w <| queue_list := (dest, q) :: w.(queue_list) |>.

Definition jobid2dest (j : JobId) : string :=
  let '(server_name, server_port) := default ("", 0) (glite_jobid_getServerParts (Some j)) in
  asprintf "%s:%d" [PStr (Some server_name); PInt (s32 server_port)].

Definition queue_list_get (job_id_s : option string) (w : il) : outcome (option addr * il) :=
  match job_id_s with
  | None => Ret (cfg.(log_queue), w)
  | Some j =>
    if bool_decide (j = "default") then Ret (cfg.(log_queue), w) else
    match glite_jobid_parse j with
    | None => Ret (None, w)
    | Some job_id =>
      let dest := jobid2dest job_id in
      match queue_list_find w.(queue_list) dest with
      | Some q => Ret (Some q, w)
      | None =>
        let! eq := event_queue_create false dest in
        let q := malloc (dom w.(queues)) in
        Ret (Some q, queue_list_add dest q (set_queue q eq w))
      end
    end
  end.

Definition enqueue_msg (q : addr) (m : server_msg) (w : il) : outcome (Z * il) :=
  let! eq := load w.(queues) q in
  event_queue_insert cfg q m (set_queue q (event_queue_create_thread parallel eq) w).

(** ** Recovery *)

(** The position from which the file is read.  A position that is not behind a separator
    is given up, first the one of the last visit, then the one that was committed. *)
Fixpoint find_start (fuel : nat) (data : string) (to_log : bool) (es : event_store) :
    outcome (Z * event_store) :=
  match fuel with
  | O => UB NoFuel
  | S fuel =>
    let last := if negb (es.(es_offset) =? 0) then es.(es_offset)
                else if to_log then es.(last_committed_ls) else es.(last_committed_bs) in
    if last <=? 0 then Ret (last, es) else
    match String.get (Z.to_nat (last - 1)) data with
    | Some c =>
      if Ascii.eqb c EVENT_SEPARATOR then Ret (last, es)
      else if negb (es.(es_offset) =? 0)
      then find_start fuel data to_log (es <| es_offset := 0 |>)
      else find_start fuel data to_log
             (es <| last_committed_ls := 0 |> <| last_committed_bs := 0 |>)
    | None =>
      if negb (es.(es_offset) =? 0)
      then find_start fuel data to_log (es <| es_offset := 0 |>)
      else find_start fuel data to_log
             (es <| last_committed_ls := 0 |> <| last_committed_bs := 0 |>)
    end
  end.

(** The event goes to the queue of the log server and to that of its own server, unless it
    has been committed there: [None] is a failure, else [throttle]. *)
Definition enqueue_event (eq_l eq_b : option addr) (last last_ls last_bs : Z)
    (throttle : bool) (m : server_msg) (w : il) : outcome (option bool * il) :=
  let! '(r, w) :=
    if negb cfg.(bs_only) && (last_ls <=? last) then
      let! q := notnull eq_l in enqueue_msg q m w
    else Ret (0, w) in
  if r <? 0 then Ret (None, w) else
  if negb throttle && negb (bool_decide (eq_b = eq_l)) && (last_bs <=? last) then
    let! q := notnull eq_b in
    let! '(r, w) := enqueue_msg q m w in
    Ret (if r <? 0 then None else Some (0 <? r), w)
  else Ret (Some throttle, w).

(** The loop over the events: [fpos] is the position in the file, [last] the one behind
    the last event that is queued.  The result is [ret] with [last]; [None] for [last] is
    the early return after the quarantine. *)
Fixpoint recover_loop (fuel : nat) (p : addr) (eq_l eq_b : option addr) (data : string)
    (fpos last : Z) (throttle : bool) (ret : Z) (w : il) : outcome (Z * option Z * il) :=
  match fuel with
  | O => UB NoFuel
  | S fuel =>
    match read_event_string data with
    | None => Ret (ret, Some last, w)
    | Some (event_s, rest) =>
      let! es := load w.(stores) p in
      let! m := server_msg_create event_s last in
      match m with
      | None => let! '(_, w) := event_store_quarantine p w in Ret (-1, None, w)
      | Some m =>
        let m := m <| msg_es := p |> <| generation := es.(es_generation) |> in
        let! '(r, w) := enqueue_event eq_l eq_b last es.(last_committed_ls)
                          es.(last_committed_bs) throttle m w in
        match r with
        | None => Ret (-1, Some last, w)
        | Some throttle =>
          let fpos := fpos + Z.of_nat (String.length data - String.length rest) in
          recover_loop fuel p eq_l eq_b rest fpos (if throttle then last else fpos) throttle 0 w
        end
      end
    end
  end.

(** [st_mtime] is the file's modification time, [now] the time. *)
Definition event_store_recover (st_mtime now : Z) (p : addr) (w : il) : outcome (Z * il) :=
  let! es := load w.(stores) p in
  let! '(eq_l, w) := queue_list_get None w in
  let! '(eq_b, w) := queue_list_get (Some es.(es_job_id_s)) w in
  match eq_b with
  | None => Ret (-1, w)
  | Some _ =>
    match w.(files) !! es.(es_event_file) with
    | None => Ret (-1, w)
    | Some data =>
      let st_size := Z.of_nat (String.length data) in
      if (es.(es_offset) =? st_size) && (es.(last_modified) =? st_mtime) then Ret (0, w) else
      let! '(_, w) :=
        if (0 <? max_store_size) && (max_store_size <? st_size)
        then event_store_rotate_file now p w else Ret (0, w) in
      let! es := load w.(stores) p in
      let! '(last, es) := find_start 3 data (bool_decide (eq_b = eq_l)) es in
      let w := set_store p es w in
      let start := Z.max 0 last in
      let! '(ret, last, w) :=
        recover_loop (S (String.length data)) p eq_l eq_b (str_drop (Z.to_nat start) data)
          start last false 1 w in
      match last with
      | None => Ret (ret, w)
      | Some last =>
        let! es := load w.(stores) p in
        Ret (ret, set_store p (es <| es_offset := last |> <| last_modified := st_mtime |>) w)
      end
    end
  end.

(** ** Removing a store whose events have all been committed

    1: the files are removed. *)
Definition event_store_clean (p : addr) (w : il) : outcome (Z * il) :=
  let! es := load w.(stores) p in
  if negb (es.(last_committed_ls) =? es.(last_committed_bs)) then Ret (0, w) else
  match w.(files) !! es.(es_event_file) with
  | None => Ret (1, w)
  | Some data =>
    let last := Z.of_nat (String.length data) in
    if negb (es.(last_committed_ls) =? last) then Ret (0, w) else
    let w := w <| files := delete es.(es_control_file) (delete es.(es_event_file) w.(files)) |> in
    Ret (1, set_store p (es <| last_committed_ls := 0 |> <| last_committed_bs := 0 |>
                            <| es_offset := 0 |>) w)
  end.
End store.
