(* ===== verification/StoreProps.v ===== *)
(** * The event stores: recovery

    What a recovery puts into a queue, what the counters of a store mean, and that an
    interlogger that is started again after some of the events of a file have been
    delivered sends exactly the others, as long as no event has overtaken another. *)
From Stdlib Require Import ZArith Lia Ascii.
From stdpp Require Import base option list strings numbers gmap.
From S2P Require Import Prelude CLib JobId IlMsg EventQueue QueueRing QueueSpec EventQueueProps EventStore Delivery.
#[local] Open Scope Z_scope.

(** ** Events in a file *)
Definition event_char (c : ascii) : bool :=
  negb (Ascii.eqb EVENT_SEPARATOR c) && negb (Ascii.eqb NUL c).
(** An event as the local logger writes it: without separators and NULs. *)
Definition event_line (e : string) : Prop := str_forall event_char e = true.

Definition file_of (evs : list string) : string :=
  foldr (λ e f, e +:+ (NEWLINE +:+ f)) "" evs.
Definition file_len (evs : list string) : Z := Z.of_nat (String.length (file_of evs)).

Lemma file_of_app evs evs' : file_of (evs ++ evs') = file_of evs +:+ file_of evs'.
Proof.
  induction evs as [|e evs IH]; [done|]. simpl. by rewrite IH, app_assoc_str.
Qed.
Lemma file_len_cons e evs :
  file_len (e :: evs) = Z.of_nat (String.length e) + 1 + file_len evs.
Proof. unfold file_len. simpl. rewrite length_app_str. simpl. lia. Qed.
Lemma file_len_app evs evs' : file_len (evs ++ evs') = file_len evs + file_len evs'.
Proof. unfold file_len. rewrite file_of_app, length_app_str. lia. Qed.
Lemma file_len_nonneg evs : 0 ≤ file_len evs.
Proof. unfold file_len. lia. Qed.

Lemma read_event e rest : event_line e →
  read_event_string (e +:+ (NEWLINE +:+ rest)) = Some (e, rest).
Proof.
  intros He. unfold read_event_string.
  rewrite str_span_app; [|eapply str_forall_impl; [|exact He]|left; by do 2 eexists].
  2: { intros c. unfold event_char. by intros [? _]%andb_true_iff. }
  simpl. f_equal. f_equal. unfold c_string. rewrite str_span_all; [done|].
  eapply str_forall_impl; [|exact He]. intros c. unfold event_char. by intros [_ ?]%andb_true_iff.
Qed.

(** The last byte before a position between two events is a separator. *)
Lemma get_last s c t : String.get (String.length s) (s +:+ String c t) = Some c.
Proof. induction s; [done|]. simpl. done. Qed.
Lemma file_of_last evs evs' :
  evs ≠ [] →
  String.get (Z.to_nat (file_len evs - 1)) (file_of (evs ++ evs')) = Some EVENT_SEPARATOR.
Proof.
  destruct evs as [|e evs _] using rev_ind; [done|]. intros _.
  rewrite file_of_app, file_len_app, file_len_cons.
  change (file_len []) with 0. rewrite file_of_app, app_assoc_str. simpl.
  replace (Z.to_nat (file_len evs + (Z.of_nat (String.length e) + 1 + 0) - 1))
    with (String.length (file_of evs +:+ e)).
  2: { rewrite length_app_str. unfold file_len. lia. }
  rewrite app_assoc_str. simpl. rewrite <- app_assoc_str. apply get_last.
Qed.

(** ** Control files *)
Definition ctl_job (j : string) : Prop :=
  j ≠ "" ∧ str_forall (λ c, negb (isspace c)) j = true.

Lemma skip_space_word c j t : isspace c = false → skip_space (String c j +:+ t) = String c j +:+ t.
Proof. intros E. simpl. by rewrite E. Qed.

Lemma scan_num_line n t :
  starts_digit t = false → scan_num (NEWLINE +:+ (print_int n +:+ t)) = Some (n, t).
Proof.
  intros Ht. change (scan_num (NEWLINE +:+ (print_int n +:+ t)))
    with (scan_num (print_int n +:+ t)). by apply scan_num_fmt_d.
Qed.

Lemma clamp_long n : is_long n → clamp LONG_MIN LONG_MAX n = n.
Proof. unfold clamp. unfold_int. lia. Qed.

Lemma scan_ctl_text es es' :
  ctl_job es.(es_job_id_s) → is_long es.(last_committed_ls) → is_long es.(last_committed_bs) →
  scan_ctl (ctl_text es) es' =
  es' <| last_committed_ls := es.(last_committed_ls) |>
      <| last_committed_bs := es.(last_committed_bs) |>.
Proof.
  intros [Hj Hs] Hl Hb. unfold scan_ctl, ctl_text.
  destruct (es_job_id_s es) as [|c j] eqn:E; [done|].
  pose proof Hs as Hs'. simpl in Hs'. apply andb_true_iff in Hs' as [Hc _].
  apply negb_true_iff in Hc. rewrite skip_space_word by done.
  rewrite str_span_app; [|done|left; by do 2 eexists].
  cbv beta iota zeta. rewrite !scan_num_line, !clamp_long by done. done.
Qed.

(** ** Queueing a message *)
Lemma yields_inv {A} (o : outcome A) (P : A → Prop) (Q : A → Prop) :
  yields o P → (∀ a, o = Ret a → Q a) → yields o (λ a, P a ∧ Q a).
Proof. destruct o; simpl; auto. Qed.
Lemma yields_impl {A} (o : outcome A) (P Q : A → Prop) :
  yields o P → (∀ a, P a → Q a) → yields o Q.
Proof. destruct o; simpl; auto. Qed.

(** The stores and the files are not touched. *)
Definition same_disk (w w' : il) : Prop :=
  w'.(stores) = w.(stores) ∧ w'.(files) = w.(files) ∧ w'.(queue_list) = w.(queue_list).

Section store.
Context `{Malloc} (cfg : il_config).
Context (get_job_id : string → option string) (parallel : nat) (max_store_size : Z).

Lemma insert_disk q m w r w' :
  event_queue_insert cfg q m w = Ret (r, w') → same_disk w w'.
Proof.
  unfold event_queue_insert. intros E.
  apply obind_Ret_inv in E as (eq & _ & E). destruct (queue_is_full cfg eq).
  { by injection E as _ <-. }
  apply obind_Ret_inv in E as (c & _ & E). apply obind_Ret_inv in E as ([[h hd] te] & _ & E).
  apply obind_Ret_inv in E as (eq' & _ & E). by injection E as _ <-.
Qed.

Definition spec_threads (s : aqueue) : aqueue :=
  match s.(work) with [] => s <| work := replicate parallel None |> | _ => s end.

Lemma create_thread_sim q w S s eq :
  sim w S → S !! q = Some s → w.(queues) !! q = Some eq →
  sim (set_queue q (event_queue_create_thread parallel eq) w) (<[q := spec_threads s]> S).
Proof.
  intros HS Hs Hq. destruct (proj2 HS q s Hs) as [O (eq0 & Hq0 & Q)].
  rewrite Hq in Hq0. injection Hq0 as <-.
  assert (∀ i it, replicate parallel None !! i ≠ Some (Some it : option item)) as R.
  { intros i it Hi. by apply lookup_replicate in Hi as [? _]. }
  pose proof (sim_work _ _ _ _ Q) as F. unfold event_queue_create_thread, spec_threads.
  destruct (thread eq) as [|t ts] eqn:Ht, (work s) as [|o os] eqn:Hw; try by inversion F.
  - eapply (sim_work_step q w); [done..| |].
    + apply Forall2_same_length_lookup_2; [by rewrite !length_replicate|].
      by intros i t o [-> _]%lookup_replicate [-> _]%lookup_replicate.
    + apply (spec_ok_sub s); [done..|]. intros i it Hi. by destruct (R i it).
  - assert (s = s <| work := s.(work) |>) as Es by by destruct s.
    rewrite Es. apply (sim_work_step q w _ S s eq eq.(thread)); try done.
    + simpl. do 2 f_equal. by destruct eq.
    + apply Q.
    + by rewrite <- Es.
Qed.

Lemma enqueue_sim q m w S s :
  sim w S → S !! q = Some s → is_Some m.(job_id_s) → cfg.(queue_size_high) = 0 →
  yields (enqueue_msg cfg parallel q m w) (λ '(r, w'), r = 0 ∧ same_disk w w' ∧ ∃ n,
    (n ∉ s.(items).*1) ∧ sim w' (<[q := spec_insert (n, content m) (spec_threads s)]> S)).
Proof.
  intros HS Hs J Hh. destruct (proj2 HS q s Hs) as [O (eq & Hq & Q)].
  unfold enqueue_msg. rewrite (load_ok _ _ _ Hq). cbn [obind].
  pose proof (create_thread_sim q w S s eq HS Hs Hq) as HS1.
  eapply yields_impl.
  - eapply (yields_inv _ _ (λ '(_, w'), same_disk w w'));
      [eapply (insert_sim cfg q m); [done|apply lookup_insert_eq|done]|].
    intros [r w'] E. exact (insert_disk q m _ r w' E).
  - intros [r w']. unfold spec_full. rewrite Hh. simpl. intros [[-> (n & Hn & HS')] D].
    split; [done|]. split; [done|]. exists n.
    assert (items (spec_threads s) = items s) as Ei by (unfold spec_threads; by destruct (work s)).
    rewrite Ei in Hn. split; [done|]. by rewrite insert_insert_eq in HS'.
Qed.

(** ** What a recovery queues *)

(** The message of an event, by the parameters of the model. *)
Definition creates (e : string) (m : server_msg) : Prop :=
  server_msg_init get_job_id e = Ret (Some m).

Lemma creates_fields e m : creates e m →
  m.(ev_len) = Z.of_nat (String.length e) + 1 ∧ is_Some m.(job_id_s) ∧ m.(use_count) = 0.
Proof.
  unfold creates, server_msg_init. intros E.
  apply obind_Ret_inv in E as ([[[b r] x]|] & _ & E); [|done].
  destruct (get_job_id e); [|done]. injection E as <-. by split_and!; [|eexists|].
Qed.

(** The messages of the store [p] in its generation [g], the first one read at [last]. *)
Fixpoint placed (p : addr) (g last : Z) (ms : list server_msg) : list server_msg :=
  match ms with
  | [] => []
  | m :: ms => (m <| msg_offset := last |> <| msg_es := p |> <| generation := g |>)
               :: placed p g (last + m.(ev_len)) ms
  end.

Definition normal (m : server_msg) : Prop := server_msg_is_priority m = false.

Lemma spec_insert_last s n m :
  spec_ok s → normal m → (spec_insert (n, m) s).(items) = s.(items) ++ [(n, m)].
Proof.
  intros O N. destruct (spec_insert_items (n, m) s O) as (l1 & l2 & E & -> & P & _).
  by rewrite E, P, app_nil_r by done.
Qed.

Lemma recover_loop_spec p es q eq_l evs ms w S s last ret fuel :
  cfg.(bs_only) = true → cfg.(queue_size_high) = 0 → eq_l ≠ Some q →
  Forall event_line evs → Forall2 creates evs ms → Forall normal ms →
  w.(stores) !! p = Some es → es.(last_committed_bs) ≤ last →
  sim w S → S !! q = Some s → (length evs < fuel)%nat →
  yields (recover_loop cfg get_job_id parallel fuel p eq_l (Some q) (file_of evs) last last
            false ret w)
    (λ '(r, l, w'), l = Some (last + file_len evs) ∧
       r = (match evs with [] => ret | _ => 0 end) ∧ same_disk w w' ∧ ∃ s',
       sim w' (<[q := s']> S) ∧ spec_ok s' ∧
       s'.(items).*2 = s.(items).*2 ++ placed p es.(es_generation) last ms).
Proof.
  intros Hbs Hh Hq Hl HC HN. revert w S s last ret fuel.
  induction HC as [|e m evs ms Hm HC IH]; intros w S s last ret fuel Hes Hlast HS Hs Hf;
    (destruct fuel as [|fuel]; [lia|]); cbn [recover_loop].
  { simpl. split; [by rewrite Z.add_0_r|]. split_and!; try done. exists s.
    rewrite insert_id by done. split; [done|]. split; [apply (proj2 HS q s Hs)|].
    by rewrite app_nil_r. }
  apply Forall_cons in Hl as [He Hl]. apply Forall_cons in HN as [Nm HN].
  specialize (IH Hl HN). destruct (creates_fields e m Hm) as (Lm & Jm & Um).
  change (file_of (e :: evs)) with (e +:+ (NEWLINE +:+ file_of evs)).
  rewrite read_event by done. cbn [obind]. rewrite (load_ok _ _ _ Hes). cbn [obind].
  unfold server_msg_create. rewrite Hm. cbn [obind fmap option_fmap option_map].
  set (m1 := m <| msg_offset := last |> <| msg_es := p |>
               <| generation := es.(es_generation) |>).
  unfold enqueue_event. rewrite Hbs. cbn [negb andb obind].
  rewrite bool_decide_eq_false_2 by congruence.
  apply Z.leb_le in Hlast. rewrite Hlast. cbn [negb andb notnull obind Z.ltb Z.compare].
  eapply (yields_bind _ _ (λ '(r, w1), r = Some false ∧ same_disk w w1 ∧ ∃ n,
    sim w1 (<[q := spec_insert (n, content m1) (spec_threads s)]> S) ∧
    (n ∉ (spec_threads s).(items).*1) ∧ spec_ok (spec_threads s) ∧
    (spec_threads s).(items) = s.(items))).
  { eapply yields_bind; [by apply (enqueue_sim q m1 w S s)|].
    intros [r w1] (-> & D & n & Hn & HS1). simpl. split; [done|]. split; [done|].
    assert (items (spec_threads s) = items s) as Ei by (unfold spec_threads; by destruct (work s)).
    exists n. rewrite Ei. split; [done|]. split; [done|]. split; [|done].
    apply (spec_ok_sub s); [apply (proj2 HS q s Hs)|done|unfold spec_threads; by destruct (work s)|].
    unfold spec_threads. destruct (work s) eqn:Hw; [|by rewrite Hw].
    intros i it Hi. simpl in Hi. by apply lookup_replicate in Hi as [? _]. }
  intros [r w1] (-> & (D1 & D2 & D3) & n & HS1 & Hn & O & Ei).
  replace (Z.of_nat (String.length (e +:+ NEWLINE +:+ file_of evs) - String.length (file_of evs)))
    with (ev_len m).
  2: { rewrite Lm, !length_app_str. change (String.length NEWLINE) with 1%nat. lia. }
  assert (content m1 = m1) as Ec by (unfold content, m1; rewrite <- Um; by destruct m).
  rewrite Ec in HS1.
  eapply yields_impl; [eapply (IH w1 _ (spec_insert (n, m1) (spec_threads s)))|].
  - by rewrite D1.
  - apply Z.leb_le in Hlast. rewrite Lm. lia.
  - done.
  - apply lookup_insert_eq.
  - simpl in Hf. lia.
  - intros [[r l] w'] (-> & -> & (D1' & D2' & D3') & s' & HS' & O' & Ei').
    split; [rewrite file_len_cons, Lm; f_equal; lia|].
    split; [by destruct evs|]. split; [split_and!; congruence|].
    exists s'. rewrite insert_insert_eq in HS'. split; [done|]. split; [done|].
    rewrite Ei', spec_insert_last, Ei, fmap_app by done. rewrite <- (assoc_L (++)). done.
Qed.

Lemma sim_same w w' S :
  w'.(elements) = w.(elements) → w'.(msgs) = w.(msgs) → w'.(queues) = w.(queues) →
  sim w S → sim w' S.
Proof.
  destruct w, w'; simpl. intros -> -> -> [[L I] Q]. split; [by split|].
  intros q s Hs. destruct (Q q s Hs) as [O (eq & Hq & [])]. split; [done|].
  exists eq. split; [done|]. by split.
Qed.

Lemma find_start_ok es data to_log pos :
  (if es.(es_offset) =? 0 then es.(last_committed_bs) else es.(es_offset)) = pos →
  to_log = false →
  pos ≤ 0 ∨ String.get (Z.to_nat (pos - 1)) data = Some EVENT_SEPARATOR →
  find_start 3 data to_log es = Ret (pos, es).
Proof.
  intros E -> P. cbn [find_start].
  assert ((if negb (es_offset es =? 0) then es_offset es else last_committed_bs es) = pos) as ->
    by (rewrite <- E; by destruct (es_offset es =? 0)).
  destruct (Z.leb_spec pos 0); [done|]. destruct P as [?|P]; [lia|]. by rewrite P.
Qed.

Lemma file_of_split d evs : file_of evs = file_of (take d evs ++ drop d evs).
Proof. by rewrite take_drop. Qed.

Lemma file_position d evs :
  file_len (take d evs) ≤ 0 ∨
  String.get (Z.to_nat (file_len (take d evs) - 1)) (file_of evs) = Some EVENT_SEPARATOR.
Proof.
  destruct (decide (take d evs = [])) as [->|N]; [by left|]. right.
  rewrite (file_of_split d evs). by apply file_of_last.
Qed.

Lemma file_drop d evs :
  str_drop (Z.to_nat (file_len (take d evs))) (file_of evs) = file_of (drop d evs).
Proof.
  rewrite (file_of_split d evs), file_of_app. unfold file_len.
  rewrite Nat2Z.id. apply str_drop_app.
Qed.

Lemma file_rest_nil d evs : file_len (take d evs) = file_len evs → drop d evs = [].
Proof.
  intros E. unfold file_len in E at 2. rewrite (file_of_split d evs) in E.
  fold (file_len (take d evs ++ drop d evs)) in E. rewrite file_len_app in E.
  destruct (drop d evs) as [|e r]; [done|]. rewrite file_len_cons in E.
  pose proof (file_len_nonneg r). lia.
Qed.

Lemma length_file evs : (length evs ≤ String.length (file_of evs))%nat.
Proof.
  induction evs as [|e evs IH]; simpl; [done|]. rewrite length_app_str. simpl. lia.
Qed.

(** Where the reading of a file starts. *)
Definition start_of (es : event_store) : Z :=
  if es.(es_offset) =? 0 then es.(last_committed_bs) else es.(es_offset).

Lemma recover_ok p q w S s es evs ms d st_mtime now :
  cfg.(bs_only) = true → cfg.(queue_size_high) = 0 → cfg.(log_queue) ≠ Some q →
  max_store_size = 0 →
  Forall event_line evs → Forall2 creates evs ms → Forall normal ms →
  w.(stores) !! p = Some es → w.(files) !! es.(es_event_file) = Some (file_of evs) →
  start_of es = file_len (take d evs) → es.(last_committed_bs) ≤ start_of es →
  queue_list_get cfg (Some es.(es_job_id_s)) w = Ret (Some q, w) →
  sim w S → S !! q = Some s →
  yields (event_store_recover cfg get_job_id parallel max_store_size st_mtime now p w)
    (λ '(r, w'), 0 ≤ r ∧ w'.(files) = w.(files) ∧
       w'.(stores) !! p = Some (es <| es_offset := file_len evs |> <| last_modified := st_mtime |>) ∧
       ∃ s', sim w' (<[q := s']> S) ∧
         s'.(items).*2 = s.(items).*2 ++
           placed p es.(es_generation) (file_len (take d evs)) (drop d ms)).
Proof.
  intros Hbs Hh Hlq Hmax Hl HC HN Hes Hf Hst Hbsle Hql HS Hs.
  unfold event_store_recover. rewrite (load_ok _ _ _ Hes). cbn [obind].
  change (queue_list_get cfg None w) with (Ret (cfg.(log_queue), w)). cbn [obind].
  rewrite Hql. cbn [obind]. rewrite Hf.
  change (Z.of_nat (String.length (file_of evs))) with (file_len evs).
  pose proof (Forall2_length _ _ _ HC) as Len.
  destruct ((es_offset es =? file_len evs) && (last_modified es =? st_mtime)) eqn:Skip.
  { apply andb_true_iff in Skip as [E1%Z.eqb_eq E2%Z.eqb_eq]. simpl.
    assert (drop d ms = []) as Hd.
    { apply length_zero_iff_nil. rewrite length_drop, <- Len, <- length_drop.
      apply length_zero_iff_nil, file_rest_nil. rewrite <- Hst, <- E1. unfold start_of in *.
      destruct (Z.eqb_spec (es_offset es) 0) as [Z0|]; [|done].
      pose proof (file_len_nonneg (drop d evs)). pose proof (file_len_nonneg (take d evs)).
      pose proof (file_len_app (take d evs) (drop d evs)) as A. rewrite take_drop in A. lia. }
    split; [done|]. split; [done|]. split; [rewrite Hes, <- E1, <- E2; by destruct es|].
    exists s. rewrite insert_id, Hd by done. split; [done|]. by rewrite app_nil_r. }
  rewrite Hmax. cbn [andb Z.ltb Z.compare obind]. rewrite (load_ok _ _ _ Hes). cbn [obind].
  rewrite bool_decide_eq_false_2 by congruence.
  rewrite (find_start_ok es _ false (file_len (take d evs)));
    [|by unfold start_of in Hst|done|apply file_position].
  cbn [obind]. rewrite Z.max_r by apply file_len_nonneg. rewrite file_drop.
  eapply yields_bind.
  { eapply (recover_loop_spec p es q cfg.(log_queue) (drop d evs) (drop d ms) _ S s); try done.
    - by apply Forall_drop.
    - by apply Forall2_drop.
    - by apply Forall_drop.
    - simpl. by rewrite lookup_insert_eq.
    - by rewrite <- Hst.
    - by apply (sim_same w).
    - pose proof (length_file evs). rewrite length_drop. lia. }
  intros [[r l] w'] (-> & -> & (D1 & D2 & _) & s' & HS' & O' & Ei).
  simpl in D1, D2. rewrite (load_ok _ p es) by (by rewrite D1, lookup_insert_eq). simpl.
  split; [by destruct (drop d evs)|]. split; [done|]. split.
  - rewrite lookup_insert_eq. do 3 f_equal.
    pose proof (file_len_app (take d evs) (drop d evs)) as A. rewrite take_drop in A. lia.
  - exists s'. split; [by apply (sim_same w')|done].
Qed.

(** ** Committing delivered messages *)
Fixpoint commit_all (ms : list server_msg) (w : il) : outcome il :=
  match ms with
  | [] => Ret w
  | m :: ms =>
    let! '(_, w) := event_store_commit cfg m.(msg_es) m.(ev_len) false m.(generation) w in
    commit_all ms w
  end.

Definition total_len (ms : list server_msg) : Z := foldr (λ m n, m.(ev_len) + n) 0 ms.

Definition committed (es : event_store) (n : Z) : event_store :=
  es <| last_committed_bs := es.(last_committed_bs) + n |>
     <| last_committed_ls := es.(last_committed_ls) + n |>.

Lemma committed_add es n m : committed (committed es n) m = committed es (n + m).
Proof. unfold committed. destruct es; simpl. by rewrite <- !Z.add_assoc. Qed.

Lemma commit_ok m p es w w1 :
  cfg.(bs_only) = true → cfg.(ctl_writable) es.(es_control_file) = true →
  w.(stores) !! p = Some es → m.(msg_es) = p → m.(generation) = es.(es_generation) →
  (let! '(_, w) := event_store_commit cfg m.(msg_es) m.(ev_len) false m.(generation) w in
   Ret w) = Ret w1 →
  let es' := committed es m.(ev_len) in
  w1.(stores) !! p = Some es' ∧
  w1.(files) = <[es.(es_control_file) := ctl_text es']> w.(files) ∧
  is_long es'.(last_committed_ls) ∧ is_long es'.(last_committed_bs).
Proof.
  intros Hbs Hw Hes -> Hg E es'. apply obind_Ret_inv in E as ([r w'] & E & [= <-]).
  unfold event_store_commit in E. rewrite (load_ok _ _ _ Hes) in E. cbn [obind] in E.
  rewrite Hg, Z.eqb_refl, Hbs in E. cbn [negb obind] in E.
  unfold add_long in E. case_decide as L1; [|done]. cbn [obind] in E.
  case_decide as L2; [|done]. cbn [obind] in E. unfold event_store_write_ctl in E.
  simpl in E. rewrite Hw in E. injection E as <- <-. simpl.
  rewrite lookup_insert_eq. done.
Qed.

Lemma commit_all_ok ms p es w w1 :
  cfg.(bs_only) = true → cfg.(ctl_writable) es.(es_control_file) = true →
  w.(stores) !! p = Some es →
  Forall (λ m, m.(msg_es) = p ∧ m.(generation) = es.(es_generation)) ms → ms ≠ [] →
  commit_all ms w = Ret w1 →
  let es' := committed es (total_len ms) in
  w1.(stores) !! p = Some es' ∧
  w1.(files) = <[es.(es_control_file) := ctl_text es']> w.(files) ∧
  is_long es'.(last_committed_ls) ∧ is_long es'.(last_committed_bs).
Proof.
  intros Hbs Hw. revert w es Hw. induction ms as [|m ms IH]; intros w es Hw Hes F N E; [done|].
  apply Forall_cons in F as [[Fp Fg] F]. cbn [commit_all] in E.
  apply obind_Ret_inv in E as ([r w'] & E & E').
  destruct (commit_ok m p es w w' Hbs Hw Hes Fp Fg) as (C1 & C2 & C3 & C4).
  { by rewrite E. }
  destruct ms as [|m' ms].
  - injection E' as <-. simpl. rewrite Z.add_0_r. done.
  - destruct (IH w' (committed es (ev_len m)) Hw C1 F ltac:(done) E') as (I1 & I2 & I3 & I4).
    rewrite committed_add in *. simpl. split; [done|]. split; [|done].
    rewrite I2, C2. simpl. by rewrite insert_insert_eq.
Qed.

Lemma placed_ok p g last ms : Forall (λ m, m.(msg_es) = p ∧ m.(generation) = g) (placed p g last ms).
Proof. revert last. induction ms as [|m ms IH]; intros last; simpl; by constructor. Qed.
Lemma placed_take p g last ms d : take d (placed p g last ms) = placed p g last (take d ms).
Proof.
  revert last d. induction ms as [|m ms IH]; intros last [|d]; simpl; try done. by rewrite IH.
Qed.
Lemma placed_len p g last evs ms :
  Forall2 creates evs ms → total_len (placed p g last ms) = file_len evs.
Proof.
  intros F. revert last. induction F as [|e m evs ms Hm F IH]; intros last; [done|].
  simpl. rewrite file_len_cons. change (foldr _ 0 ?l) with (total_len l). rewrite IH.
  destruct (creates_fields e m Hm) as (-> & _). done.
Qed.

Lemma read_ctl_ok p es0 es n w text :
  w.(stores) !! p = Some es0 → w.(files) !! es0.(es_control_file) = text →
  (n = 0 ∧ text = None ∨
   text = Some (ctl_text es) ∧ ctl_job es.(es_job_id_s) ∧
   is_long es.(last_committed_ls) ∧ is_long es.(last_committed_bs) ∧
   es.(last_committed_bs) = n ∧ es.(last_committed_ls) = n) →
  event_store_read_ctl p w =
  Ret (0, set_store p (es0 <| last_committed_ls := n |> <| last_committed_bs := n |>) w).
Proof.
  intros Hes Hf C. unfold event_store_read_ctl. rewrite (load_ok _ _ _ Hes). cbn [obind].
  rewrite Hf. destruct C as [[-> ->]|(-> & J & L1 & L2 & <- & E)]; [done|].
  rewrite scan_ctl_text by done. by rewrite E.
Qed.

(** A queue that exists is found whatever the stores hold. *)
Lemma queue_list_get_store j w q p es :
  queue_list_get cfg j w = Ret (Some q, w) →
  queue_list_get cfg j (set_store p es w) = Ret (Some q, set_store p es w).
Proof.
  unfold queue_list_get. destruct j as [j|]; [|intros E; injection E as ->; done].
  case_bool_decide; [intros E; injection E as ->; done|].
  destruct (glite_jobid_parse j) as [job_id|]; [|done]. simpl queue_list.
  destruct (queue_list_find (queue_list w) (jobid2dest job_id)); [intros E; by injection E as ->|].
  intros E. exfalso. apply obind_Ret_inv in E as (eq & _ & E). injection E as _ E.
  apply (f_equal (λ w, length w.(queue_list))) in E. simpl in E. lia.
Qed.

(** The part of the configuration in which events only go to the server of the job, the
    queue is not limited and files are not rotated. *)
Record plain_config (q : addr) : Prop := {
  plain_bs : cfg.(bs_only) = true;
  plain_high : cfg.(queue_size_high) = 0;
  plain_queue : cfg.(log_queue) ≠ Some q;
  plain_size : max_store_size = 0
}.

(** The events of a file and their messages. *)
Record events_of (evs : list string) (ms : list server_msg) : Prop := {
  events_lines : Forall event_line evs;
  events_msgs : Forall2 creates evs ms;
  events_normal : Forall normal ms
}.

(** A recovery queues exactly the events of the file behind the position that has been
    reached, in their order, and remembers the end of the file. *)
Theorem recover_queues_rest p q w S s es evs ms d st_mtime now :
  plain_config q → events_of evs ms →
  w.(stores) !! p = Some es → w.(files) !! es.(es_event_file) = Some (file_of evs) →
  start_of es = file_len (take d evs) → es.(last_committed_bs) ≤ start_of es →
  queue_list_get cfg (Some es.(es_job_id_s)) w = Ret (Some q, w) →
  sim w S → S !! q = Some s →
  match event_store_recover cfg get_job_id parallel max_store_size st_mtime now p w with
  | Ret (r, w') => 0 ≤ r ∧ w'.(files) = w.(files) ∧
      w'.(stores) !! p =
        Some (es <| es_offset := file_len evs |> <| last_modified := st_mtime |>) ∧
      ∃ s', sim w' (<[q := s']> S) ∧
        s'.(items).*2 = s.(items).*2 ++
          placed p es.(es_generation) (file_len (take d evs)) (drop d ms)
  | UB f => f = SignedOverflow
  end.
Proof.
  intros [] [] Hes Hf Hst Hle Hql HS Hs.
  exact (recover_ok p q w S s es evs ms d st_mtime now ltac:(done) ltac:(done) ltac:(done)
    ltac:(done) ltac:(done) ltac:(done) ltac:(done) Hes Hf Hst Hle Hql HS Hs).
Qed.

End store.

(** ** Concrete stores *)
Definition demo_job : string := "https://lb.cesnet.cz:9000/abc".
Definition demo_get_job_id (event : string) : option string := Some demo_job.
Definition demo_plain : il_config := mkConfig 0 0 true None (λ _, true).
Definition demo_es : event_store := mkEventStore "f" "f.ctl" demo_job 0 0 0 0 0 0.
Definition demo_files (evs : list string) : gmap string string := {["f" := file_of evs]}.
Definition demo_process (fs : gmap string string) : il :=
  mkIl ∅ ∅ {[0%nat := demo_queue 1]} [("lb.cesnet.cz:9000", 0%nat)] {[7%nat := demo_es]} fs.
Definition demo_events : list string := ["A=1"; "B=22"; "C=333"].
Definition demo_message (e : string) : server_msg :=
  match server_msg_init demo_get_job_id e with
  | Ret (Some m) => m
  | _ => mkServerMsg None 0 "" 0 0%nat 0 0 0 0
  end.

Lemma demo_process_initial fs : initial 1 (demo_process fs).
Proof.
  split; [done|]. intros q eq Hq. simpl in Hq.
  apply lookup_singleton_Some in Hq as [_ <-]. done.
Qed.
Lemma demo_plain_config : plain_config demo_plain 0 0%nat.
Proof. by split. Qed.
Lemma demo_events_of :
  events_of demo_get_job_id demo_events (demo_message <$> demo_events).
Proof. split; repeat constructor. Qed.

(** The data of the messages that wait in the queue of the process, in order. *)
Fixpoint queue_data (fuel : nat) (el : addr) (w : il) : list string :=
  match fuel with
  | O => []
  | S fuel =>
    match w.(elements) !! el with
    | Some x => from_option (λ m, [m.(msg_data)]) [] (w.(msgs) !! x.(el_msg)) ++
                if decide (w.(queues) !! 0%nat ≫= head = Some x.(el_prev)) then []
                else queue_data fuel x.(el_prev) w
    | None => []
    end
  end.
Definition waiting_data (w : il) : list string :=
  match w.(queues) !! 0%nat ≫= head with
  | Some hd => queue_data (size w.(elements)) hd w
  | None => []
  end.

Lemma recover_queues_rest_witness :
  match event_store_recover demo_plain demo_get_job_id 1 0 5 5 7%nat
          (demo_process (demo_files demo_events)) with
  | Ret (r, w') => 0 ≤ r ∧ w'.(files) = demo_files demo_events ∧
      w'.(stores) !! 7%nat =
        Some (demo_es <| es_offset := 15 |> <| last_modified := 5 |>) ∧
      ∃ s', sim w' (<[0%nat := s']> (empty_queues 1 (demo_process (demo_files demo_events)))) ∧
        s'.(items).*2 = placed 7%nat 0 0 (demo_message <$> demo_events)
  | UB f => f = SignedOverflow
  end.
Proof.
  exact (recover_queues_rest demo_plain demo_get_job_id 1 0 7%nat 0%nat
    (demo_process (demo_files demo_events)) _ (spec_init 1) demo_es demo_events _ 0%nat 5 5
    demo_plain_config demo_events_of eq_refl eq_refl eq_refl ltac:(done) eq_refl
    (initial_sim _ _ (demo_process_initial _)) eq_refl).
Defined.

(** Two of the three events are delivered before the restart. *)
Definition demo_placed : list server_msg := placed 7%nat 0 0 (demo_message <$> demo_events).
Lemma demo_commit :
  ∃ w1, commit_all demo_plain (take 2 demo_placed) (demo_process (demo_files demo_events)) = Ret w1 ∧
    w1.(files) = <["f.ctl" := ctl_text (committed demo_es 9)]> (demo_files demo_events).
Proof. eexists. split; [vm_compute; reflexivity|]. vm_compute. reflexivity. Qed.


(** ** A priority event that overtakes

    The second event asks for a confirmation.  It is sent first and committed; the counter
    then has the length of one event. *)
Definition overtaking_events : list string :=
  ["DG.LLLID=1 DG.PRIORITY=0 first"; "DG.LLLID=1 DG.PRIORITY=2 other"].

Definition overtaking_run : outcome il :=
  let start fs :=
    let! '(_, w) := event_store_read_ctl 7%nat (demo_process fs) in
    event_store_recover demo_plain demo_get_job_id 1 0 5 5 7%nat w in
  let! '(_, w) := start (demo_files overtaking_events) in
  (* the thread sends one message *)
  let! '(p, _, w) := event_queue_get 0%nat 0 true w in
  let! p := notnull p in
  let! m := load w.(msgs) p in
  let! '(_, w) := event_store_commit demo_plain m.(msg_es) m.(ev_len) false m.(generation) w in
  let! '(_, w) := event_queue_remove demo_plain 0%nat 0 w in
  (* the interlogger is started again *)
  let! '(_, w) := start w.(files) in Ret w.

Definition data_of (e : string) : string := msg_data (demo_message e).

(** If a priority event has been delivered before an earlier event of the same length
    and the interlogger is started again, the priority event is sent again and the earlier
    one never is. *)
Theorem overtaken_event_lost :
  (let! w := overtaking_run in Ret (waiting_data w)) =
  Ret [data_of "DG.LLLID=1 DG.PRIORITY=2 other"].
Proof. vm_compute. reflexivity. Qed.
