(* ===== verification/StoreList.v ===== *)
(** * The list of event stores

    The model of the management of event stores in event_store.c of
    org.glite.lb.logger/src: creating a store, finding it by job and file, and the clean-up
    that removes the stores whose events have all been committed.  The stores are in one
    list, and the stores of one job, one for each rotated file, in a ring.  The objects of
    the list are a heap of their own beside that of EventQueue; [in_use] tells which stores
    another thread has locked. *)
From Stdlib Require Import ZArith Lia Ascii.
From stdpp Require Import base option list strings numbers gmap.
From S2P Require Import Prelude CLib JobId EventQueue EventStore.
#[local] Open Scope Z_scope.

Record event_store_list := mkStoreList {
  le_es : addr;
  le_next : option addr;
  jobid_next : addr;
  jobid_prev : addr
}.
#[export] Instance eta_event_store_list : Eta event_store_list := λ r,
  mkStoreList r.(le_es) r.(le_next) r.(jobid_next) r.(jobid_prev).

Record store_lists := mkStoreLists {
  store_list : option addr;
  list_nodes : gmap addr event_store_list
}.
#[export] Instance eta_store_lists : Eta store_lists := λ r,
  mkStoreLists r.(store_list) r.(list_nodes).

Definition node_upd (a : addr) (f : event_store_list → event_store_list) (l : store_lists) :
    outcome store_lists :=
  let! n := load l.(list_nodes) a in
  Ret (l <| list_nodes := <[a := f n]> l.(list_nodes) |>).

Section lists.
Context `{Malloc}.
Context (file_prefix : string) (garbage : Z).

(** ** Creating a store *)
Definition jobid2eventfile (job_id : option JobId) : string :=
  match job_id with
  | Some j => asprintf "%s.%s" [PStr (Some file_prefix); PStr (glite_jobid_getUnique (Some j))]
  | None => asprintf "%s.default" [PStr (Some file_prefix)]
  end.
(** The buffer has 256 bytes. *)
Definition jobid2controlfile (job_id : option JobId) : string :=
  match job_id with
  | Some j => snprintf 256 "%s.%s.ctl" [PStr (Some file_prefix); PStr (glite_jobid_getUnique (Some j))]
  | None => snprintf 256 "%s.default.ctl" [PStr (Some file_prefix)]
  end.

Definition event_store_create (job_id_s : string) (filename : option string) :
    outcome (option event_store) :=
  let job_id := glite_jobid_parse job_id_s in
  if negb (bool_decide (job_id_s = "default")) && bool_decide (job_id = None)
  then Ret None else
  let job_id := if bool_decide (job_id_s = "default") then None else job_id in
  let! index := match filename with Some f => fname2index garbage f | None => Ret 0 end in
  Ret (Some (mkEventStore
    (match filename with Some f => f | None => jobid2eventfile job_id end)
    (match filename with Some f => f +:+ ".ctl" | None => jobid2controlfile job_id end)
    job_id_s 0 0 0 0 0 index)).

(** ** Finding a store *)

(** The store of the job and the file, and the last store of the job that was seen. *)
Fixpoint find_store (fuel : nat) (job_id_s : string) (filename : option string)
    (p : option addr) (d : option addr) (l : store_lists) (w : il) :
    outcome (option addr * option addr) :=
  match p with
  | None => Ret (None, d)
  | Some a =>
    match fuel with
    | O => UB NoFuel
    | S fuel =>
      let! n := load l.(list_nodes) a in
      let! es := load w.(stores) n.(le_es) in
      if bool_decide (es.(es_job_id_s) = job_id_s) then
        if match filename with
           | None => es.(rotate_index) =? 0
           | Some f => bool_decide (es.(es_event_file) = f) end
        then Ret (Some n.(le_es), Some a)
        else find_store fuel job_id_s filename n.(le_next) (Some a) l w
      else find_store fuel job_id_s filename n.(le_next) d l w
    end
  end.

(** The new node [p] is linked in behind [d], in the list and in the ring of the job. *)
Definition insert_behind (p d : addr) (l : store_lists) : outcome store_lists :=
  let! nd := load l.(list_nodes) d in
  let! l := node_upd p (λ n, n <| le_next := nd.(le_next) |>) l in
  let! l := node_upd d (λ n, n <| le_next := Some p |>) l in
  let! l := node_upd p (λ n, n <| jobid_next := nd.(jobid_next) |> <| jobid_prev := d |>) l in
  let! l := node_upd nd.(jobid_next) (λ n, n <| jobid_prev := p |>) l in
  node_upd d (λ n, n <| jobid_next := p |>) l.

(** The new node is linked in at the beginning of the list, and in the ring behind [d]. *)
Definition insert_first (p d : addr) (l : store_lists) : outcome store_lists :=
  let! nd := load l.(list_nodes) d in
  let! l := node_upd p (λ n, n <| le_next := l.(store_list) |>) l in
  let l := l <| store_list := Some p |> in
  let! l := node_upd p (λ n, n <| jobid_next := nd.(jobid_next) |> <| jobid_prev := d |>) l in
  let! l := node_upd nd.(jobid_next) (λ n, n <| jobid_prev := p |>) l in
  node_upd d (λ n, n <| jobid_next := p |>) l.

(** The loop of the source that looks for the last store with a lower index runs while
    [r != d->jobid_next], from [r = d->jobid_next]: not once.  [q] stays NULL. *)
Definition event_store_find (job_id_s : string) (filename : option string)
    (l : store_lists) (w : il) : outcome (option addr * store_lists * il) :=
  let! '(found, d) := find_store (S (size l.(list_nodes))) job_id_s filename
                        l.(store_list) None l w in
  match found with
  | Some es => Ret (Some es, l, w)
  | None =>
    let! es := event_store_create job_id_s filename in
    match es with
    | None => Ret (None, l, w)
    | Some es =>
      let e := malloc (dom w.(stores)) in
      let p := malloc (dom l.(list_nodes)) in
      let w := set_store e es w in
      let l := l <| list_nodes := <[p := mkStoreList e None p p]> l.(list_nodes) |> in
      let! l :=
        match filename, d with
        | Some _, Some d =>
          if es.(rotate_index) =? 0 then insert_behind p d l else insert_first p d l
        | _, _ =>
          let! l := node_upd p (λ n, n <| le_next := l.(store_list) |>) l in
          Ret (l <| store_list := Some p |>)
        end in
      Ret (Some e, l, w)
    end
  end.

(** ** Cleaning up *)

(** [*prev = next]; [None] is [&store_list]. *)
Definition set_link (prev : option addr) (next : option addr) (l : store_lists) :
    outcome store_lists :=
  match prev with
  | None => Ret (l <| store_list := next |>)
  | Some a => node_upd a (λ n, n <| le_next := next |>) l
  end.

Definition unlink_jobid (sl : addr) (n : event_store_list) (l : store_lists) :
    outcome store_lists :=
  if decide (n.(jobid_next) = sl) then Ret l else
  let! l := node_upd n.(jobid_prev) (λ m, m <| jobid_next := n.(jobid_next) |>) l in
  node_upd n.(jobid_next) (λ m, m <| jobid_prev := n.(jobid_prev) |>) l.

Fixpoint cleanup_loop (fuel : nat) (in_use : addr → bool) (sl prev : option addr)
    (l : store_lists) (w : il) : outcome (store_lists * il) :=
  match sl with
  | None => Ret (l, w)
  | Some a =>
    match fuel with
    | O => UB NoFuel
    | S fuel =>
      let! n := load l.(list_nodes) a in
      if in_use n.(le_es) then cleanup_loop fuel in_use n.(le_next) prev l w else
      let! '(r, w) := event_store_clean n.(le_es) w in
      if r =? 1 then
        let! l := set_link prev n.(le_next) l in
        let! l := unlink_jobid a n l in
        let w := w <| stores := delete n.(le_es) w.(stores) |> in
        let l := l <| list_nodes := delete a l.(list_nodes) |> in
        cleanup_loop fuel in_use n.(le_next) prev l w
      else cleanup_loop fuel in_use n.(le_next) (Some a) l w
    end
  end.

Definition event_store_cleanup (in_use : addr → bool) (l : store_lists) (w : il) :
    outcome (store_lists * il) :=
  cleanup_loop (S (size l.(list_nodes))) in_use l.(store_list) None l w.
End lists.

(** ** A store that is in use *)

(** The nodes of the list, in order. *)
Fixpoint listed (fuel : nat) (p : option addr) (l : store_lists) : list addr :=
  match fuel, p with
  | S fuel, Some a =>
    match l.(list_nodes) !! a with
    | Some n => n.(le_es) :: listed fuel n.(le_next) l
    | None => []
    end
  | _, _ => []
  end.

Definition demo_done (job : string) : event_store :=
  mkEventStore job (job +:+ ".ctl") job 2 2 2 0 0 0.

(** Two stores; all events of both have been committed, another thread uses the first. *)
Definition demo_stores : il :=
  mkIl ∅ ∅ ∅ [] (<[1%nat := demo_done "a"]> {[2%nat := demo_done "b"]})
    (<["a" := "x" +:+ NEWLINE]> {["b" := "y" +:+ NEWLINE]}).
Definition demo_list : store_lists :=
  mkStoreLists (Some 1%nat)
    (<[1%nat := mkStoreList 1%nat (Some 2%nat) 1%nat 1%nat]>
     {[2%nat := mkStoreList 2%nat None 2%nat 2%nat]}).

(** The clean-up removes the store behind a store that is in use, and with it the one
    that is in use from the list, although it still exists. *)
Theorem cleanup_loses_busy_store :
  (let! '(l, w) := event_store_cleanup (λ e, bool_decide (e = 1%nat)) demo_list demo_stores in
   Ret (listed 3 l.(store_list) l, bool_decide (is_Some (w.(stores) !! 1%nat)))) =
  Ret ([], true).
Proof. vm_compute. reflexivity. Qed.

(** Without other threads both stores are removed. *)
Lemma cleanup_idle :
  (let! '(l, w) := event_store_cleanup (λ _, false) demo_list demo_stores in
   Ret (listed 3 l.(store_list) l, w.(stores), w.(files))) = Ret ([], ∅, ∅).
Proof. vm_compute. reflexivity. Qed.
