(* ===== verification/Escape.v ===== *)
(** * Escaping

    The model of org.glite.lbjp-common.trio/src/escape.c: the escaping of values in ULM
    lines, XML, SQL and JSON, and the reading of escaped ULM, XML and URLs.  A result that
    is longer than the memory allocated for it is the fault [OutOfBounds]. *)
From Stdlib Require Import ZArith Lia Ascii.
From stdpp Require Import base option list strings numbers.
From S2P Require Import Prelude CLib.
#[local] Open Scope Z_scope.

Definition ULM_QM : ascii := chr 34.
Definition ULM_BS : ascii := chr 92.
Definition ULM_LF : ascii := chr 10.
Definition APOS : ascii := chr 39.

(** [size] bytes are allocated for the string and its NUL. *)
Definition allocated (size : Z) (s : string) : outcome string :=
  if Z.of_nat (String.length s) <? size then Ret s else UB OutOfBounds.
Definition strlen (s : string) : Z := Z.of_nat (String.length s).

Fixpoint str_flat_map (f : ascii → string) (s : string) : string :=
  match s with EmptyString => "" | String c r => f c +:+ str_flat_map f r end.
Fixpoint str_count (p : ascii → bool) (s : string) : Z :=
  match s with EmptyString => 0 | String c r => (if p c then 1 else 0) + str_count p r end.

(** ** ULM *)
Definition escape_ulm_char (c : ascii) : string :=
  if Ascii.eqb c ULM_BS || Ascii.eqb c ULM_QM then String ULM_BS (String c "")
  else if Ascii.eqb c ULM_LF then String ULM_BS "n"
  else String c "".

Definition glite_lbu_EscapeULM (str : option string) : outcome string :=
  match str with
  | None | Some EmptyString => Ret ""
  | Some s => allocated (1 + 2 * strlen s) (str_flat_map escape_ulm_char s)
  end.

(** A backslash at the end copies the NUL. *)
Fixpoint unescape_ulm (s : string) : string :=
  match s with
  | EmptyString => ""
  | String c r =>
    if Ascii.eqb c ULM_BS then
      match r with
      | EmptyString => ""
      | String d r => String (if Ascii.eqb d "n" then ULM_LF else d) (unescape_ulm r)
      end
    else String c (unescape_ulm r)
  end.

Definition glite_lbu_UnescapeULM (str : option string) : option string :=
  match str with
  | None | Some EmptyString => None
  | Some s => Some (unescape_ulm s)
  end.

(** ** XML *)
Definition xml_etab : list (ascii * string) :=
  [("<"%char, "lt"); (">"%char, "gt"); ("&"%char, "amp"); (ULM_QM, "quot"); (APOS, "apos")].

Definition xml_entity (c : ascii) : option string := snd <$> find (λ e, Ascii.eqb e.1 c) xml_etab.

(** [(c & 0x7f) < 0x20 || c == '%'] *)
Definition xml_percent (c : ascii) : bool :=
  (Z.land (code c) 127 <? 32) || Ascii.eqb c "%".

Definition hex_digit (d : Z) : ascii := if d <? 10 then chr (48 + d) else chr (87 + d).
(** ["%02x"] of a byte *)
Definition hex2 (n : Z) : string := String (hex_digit (n / 16)) (String (hex_digit (n mod 16)) "").

Definition escape_xml_char (c : ascii) : string :=
  match xml_entity c with
  | Some e => String "&" (e +:+ ";")
  | None => if xml_percent c then String "%" (hex2 (code c)) else String c ""
  end.

Definition glite_lbu_EscapeXML (in_ : option string) : outcome (option string) :=
  match in_ with
  | None => Ret None
  | Some s =>
    let cnt := str_count (λ c, bool_decide (is_Some (xml_entity c)) || xml_percent c) s in
    let! out := allocated (strlen s + 1 + cnt * 5) (str_flat_map escape_xml_char s) in
    Ret (Some out)
  end.

(** The value of a hexadecimal digit, for [isxdigit]. *)
Definition xdigit (c : ascii) : option Z :=
  let z := code c in
  if (48 <=? z) && (z <=? 57) then Some (z - 48)
  else if (97 <=? z) && (z <=? 102) then Some (z - 87)
  else if (65 <=? z) && (z <=? 70) then Some (z - 55)
  else None.

(** [!strncasecmp(text, e, strlen(text))] *)
Definition entity_prefix (text e : string) : bool :=
  match strip_prefix (str_map tolower text) e with Some _ => true | None => false end.

(** The character that the entity [text] stands for. *)
Definition xml_decode (text : string) : option ascii :=
  fst <$> find (λ e, entity_prefix text e.2) xml_etab.

(** One character of the result and the rest of the input. *)
Definition unescape_xml_char (c : ascii) (r : string) : ascii * string :=
  if Ascii.eqb c "&" then
    match str_span (Ascii.eqb ";") r with
    | (text, String _ rest) =>
      match xml_decode text with Some d => (d, rest) | None => (c, r) end
    | (_, EmptyString) => (c, r)
    end
  else if Ascii.eqb c "%" then
    match r with
    | String x (String y rest) =>
      match xdigit x, xdigit y with
      | Some h, Some l =>
        let origchar := chr (16 * h + l) in
        if xml_percent origchar then (origchar, rest) else (c, r)
      | _, _ => (c, r)
      end
    | _ => (c, r)
    end
  else (c, r).

Fixpoint unescape_xml (fuel : nat) (s : string) : string :=
  match fuel, s with
  | S fuel, String c r =>
    let '(d, rest) := unescape_xml_char c r in String d (unescape_xml fuel rest)
  | _, _ => ""
  end.

Definition glite_lbu_UnescapeXML (in_ : option string) : option string :=
  (λ s, unescape_xml (String.length s) s) <$> in_.

(** ** SQL *)
Definition escape_sql_char (c : ascii) : string :=
  if Ascii.eqb c ULM_BS then String ULM_BS (String c "")
  else if Ascii.eqb c APOS then String APOS (String c "")
  else String c "".

Definition glite_lbu_EscapeSQL (in_ : option string) : outcome (option string) :=
  match in_ with
  | None => Ret None
  | Some s =>
    let cnt := str_count (Ascii.eqb APOS) s + str_count (Ascii.eqb ULM_BS) s in
    let! out := allocated (strlen s + 1 + cnt) (str_flat_map escape_sql_char s) in
    Ret (Some out)
  end.

(** ** JSON *)

(** The letter after the backslash for the characters that have one. *)
Definition json_letter (c : ascii) : option ascii :=
  let z := code c in
  if (z =? 34) || (z =? 92) then Some c
  else if z =? 8 then Some "b"%char
  else if z =? 12 then Some "f"%char
  else if z =? 10 then Some "n"%char
  else if z =? 13 then Some "r"%char
  else if z =? 9 then Some "t"%char
  else None.

Definition escape_json_char (c : ascii) : string :=
  match json_letter c with
  | Some l => String ULM_BS (String l "")
  | None => if code c <? 32 then String ULM_BS ("u00" +:+ hex2 (code c)) else String c ""
  end.

Definition glite_lbu_EscapeJSON (in_ : option string) : outcome (option string) :=
  match in_ with
  | None => Ret None
  | Some s =>
    let cnt := str_count (λ c, bool_decide (is_Some (json_letter c))) s
             + 6 * str_count (λ c, bool_decide (json_letter c = None) && (code c <? 32)) s in
    let! out := allocated (strlen s + 1 + cnt) (str_flat_map escape_json_char s) in
    Ret (Some out)
  end.

(** ** URLs *)
Fixpoint hex_prefix (s : string) (acc : Z) : Z * bool :=
  match s with
  | String c r => match xdigit c with
                  | Some d => (fst (hex_prefix r (16 * acc + d)), true)
                  | None => (acc, false) end
  | EmptyString => (acc, false)
  end.

(** [sscanf(s,"%02X",&val)]: the return value and [val] if it is set.  The two characters
    may be a sign and a digit; the prefix of hexadecimal numbers alone is no number. *)
Definition sscanf_02X (s : string) : Z * option Z :=
  match skip_space s with
  | EmptyString => (-1, None)
  | r =>
    let item := str_take 2 r in
    let '(neg, digits) :=
      match item with
      | String "-" d => (true, d) | String "+" d => (false, d) | _ => (false, item) end in
    if bool_decide (str_map tolower digits = "0x") then (0, None) else
    match hex_prefix digits 0 with
    | (v, true) => (1, Some (u32 (if neg : bool then - v else v)))
    | (_, false) => (0, None)
    end
  end.

(** [asprintf(&reserved,"%c",val)]: a NUL ends the string at once. *)
Definition char_string (val : Z) : string :=
  if val mod 256 =? 0 then "" else String (chr (val mod 256)) "".

(** [old] is [val] before; it stays if there is nothing to read. *)
Fixpoint unescape_url (fuel : nat) (spec : string) (old : option Z) (out : string) : outcome string :=
  match fuel with
  | O => UB NoFuel
  | S fuel =>
    match strchr spec "%" with
    | None => Ret out
    | Some p =>
      let '(n, new) := sscanf_02X (str_drop 1 p) in
      let val := match new with Some _ => new | None => old end in
      let! '(reserved, spec) :=
        if negb (n =? 0) then
          match val with
          | None => UB Indeterminate
          | Some v => if (3 <=? String.length p)%nat then Ret (char_string v, str_drop 3 p)
                      else UB OutOfBounds
          end
        else Ret ("", str_drop 1 p) in
      unescape_url fuel spec val (out +:+ reserved +:+ fst (str_span (Ascii.eqb "%") spec))
    end
  end.

Definition glite_lbu_UnescapeURL (in_ : option string) : outcome (option string) :=
  match in_ with
  | None => Ret None
  | Some s =>
    let! out := unescape_url (S (String.length s)) s None (fst (str_span (Ascii.eqb "%") s)) in
    Ret (Some out)
  end.

(** ** Facts *)
Ltac all_chars c :=
  destruct c as [[|] [|] [|] [|] [|] [|] [|] [|]].

Lemma flat_map_length f (k : ascii → Z) s :
  (∀ c, strlen (f c) ≤ 1 + k c) → 
  strlen (str_flat_map f s) ≤ strlen s + foldr (λ c n, k c + n) 0 (String.list_ascii_of_string s).
Proof.
  intros K. unfold strlen in *. induction s as [|c s IH]; simpl; [lia|].
  rewrite length_app_str. specialize (K c). lia.
Qed.

Lemma count_foldr p b s :
  b * str_count p s = foldr (λ c n, (if p c : bool then b else 0) + n) 0 (String.list_ascii_of_string s).
Proof. induction s as [|c s IH]; simpl; [lia|]. destruct (p c); lia. Qed.

Lemma foldr_add f g s :
  foldr (λ c n, f c + n) 0 s + foldr (λ c n, g c + n) 0 s =
  foldr (λ (c : ascii) n, (f c + g c : Z) + n) 0 s.
Proof. induction s as [|c s IH]; simpl; [done|]. lia. Qed.

Lemma allocated_ok size s : strlen s < size → allocated size s = Ret s.
Proof. intros L. unfold allocated, strlen in *. apply Z.ltb_lt in L. by rewrite L. Qed.

(** The escaped texts fit in the memory that is allocated for them. *)
Lemma escape_ulm_ok s : s ≠ "" →
  glite_lbu_EscapeULM (Some s) = Ret (str_flat_map escape_ulm_char s).
Proof.
  intros N. unfold glite_lbu_EscapeULM. destruct s as [|c s]; [done|]. apply allocated_ok.
  pose proof (flat_map_length escape_ulm_char (λ _, 1) (String c s)) as L.
  assert (∀ s, foldr (λ (_ : ascii) n, 1 + n) 0 (String.list_ascii_of_string s) = strlen s) as E.
  { clear. unfold strlen. induction s as [|c s IH]; simpl; [done|]. rewrite IH. lia. }
  rewrite E in L. eapply Z.le_lt_trans; [apply L|lia]. intros a.
  unfold strlen, escape_ulm_char. repeat case_match; simpl; lia.
Qed.

Lemma escape_xml_ok s :
  glite_lbu_EscapeXML (Some s) = Ret (Some (str_flat_map escape_xml_char s)).
Proof.
  unfold glite_lbu_EscapeXML. rewrite allocated_ok; [done|].
  set (p := λ c, bool_decide (is_Some (xml_entity c)) || xml_percent c).
  pose proof (flat_map_length escape_xml_char (λ c, if p c then 5 else 0) s) as L.
  cbv beta in L. rewrite <- (count_foldr p 5 s) in L. enough (∀ c, strlen (escape_xml_char c) ≤ 1 + if p c then 5 else 0)
    as K by (specialize (L K); lia).
  intros c. all_chars c; vm_compute; discriminate.
Qed.

Lemma escape_sql_ok s :
  glite_lbu_EscapeSQL (Some s) = Ret (Some (str_flat_map escape_sql_char s)).
Proof.
  unfold glite_lbu_EscapeSQL. rewrite allocated_ok; [done|].
  pose proof (flat_map_length escape_sql_char (λ c, (if Ascii.eqb APOS c then 1 else 0) +
    (if Ascii.eqb ULM_BS c then 1 else 0)) s) as L.
  cbv beta in L. rewrite <- foldr_add, <- !(count_foldr _ 1 s) in L.
  enough (∀ c, strlen (escape_sql_char c) ≤
    1 + ((if Ascii.eqb APOS c then 1 else 0) + (if Ascii.eqb ULM_BS c then 1 else 0)))
    as K by (specialize (L K); lia).
  intros c. all_chars c; vm_compute; discriminate.
Qed.

Lemma escape_json_ok s :
  glite_lbu_EscapeJSON (Some s) = Ret (Some (str_flat_map escape_json_char s)).
Proof.
  unfold glite_lbu_EscapeJSON. rewrite allocated_ok; [done|].
  set (p := λ c, bool_decide (is_Some (json_letter c))).
  set (q := λ c, bool_decide (json_letter c = None) && (code c <? 32)).
  pose proof (flat_map_length escape_json_char (λ c, (if p c then 1 else 0) +
    (if q c then 6 else 0)) s) as L.
  cbv beta in L. rewrite <- foldr_add, <- (count_foldr p 1 s), <- (count_foldr q 6 s) in L.
  enough (∀ c, strlen (escape_json_char c) ≤ 1 + ((if p c then 1 else 0) + (if q c then 6 else 0)))
    as K by (specialize (L K); lia).
  intros c. all_chars c; vm_compute; discriminate.
Qed.

(** ** Readers *)

(** A string literal of SQL behind its opening apostrophe: its value, and what follows the
    closing one. *)
Fixpoint sql_literal (s : string) : option (string * string) :=
  match s with
  | EmptyString => None
  | String c r =>
    if Ascii.eqb c APOS then
      match r with
      | String d r' =>
        if Ascii.eqb d APOS
        then (λ '(v, t), (String APOS v, t)) <$> sql_literal r' else Some ("", r)
      | EmptyString => Some ("", "")
      end
    else if Ascii.eqb c ULM_BS then
      match r with
      | String d r' => (λ '(v, t), (String d v, t)) <$> sql_literal r'
      | EmptyString => None
      end
    else (λ '(v, t), (String c v, t)) <$> sql_literal r
  end.

(** The text of a JSON string: [None] if it is not one.  Code points above 255 are not of
    interest here. *)
Fixpoint json_text (s : string) : option string :=
  match s with
  | EmptyString => Some ""
  | String c r =>
    if Ascii.eqb c ULM_BS then
      match r with
      | String "b" r => String (chr 8) <$> json_text r
      | String "f" r => String (chr 12) <$> json_text r
      | String "n" r => String (chr 10) <$> json_text r
      | String "r" r => String (chr 13) <$> json_text r
      | String "t" r => String (chr 9) <$> json_text r
      | String "u" (String "0" (String "0" (String x (String y r)))) =>
        match xdigit x, xdigit y with
        | Some h, Some l => String (chr (16 * h + l)) <$> json_text r
        | _, _ => None
        end
      | String d r =>
        if Ascii.eqb d ULM_BS || Ascii.eqb d ULM_QM || Ascii.eqb d "/"
        then String d <$> json_text r else None
      | EmptyString => None
      end
    else if Ascii.eqb c ULM_QM || (code c <? 32) then None
    else String c <$> json_text r
  end.

Lemma unescape_ulm_step c t : unescape_ulm (escape_ulm_char c +:+ t) = String c (unescape_ulm t).
Proof. all_chars c; reflexivity. Qed.

Lemma unescape_xml_step c t : ∃ a u, escape_xml_char c = String a u ∧
  unescape_xml_char a (u +:+ t) = (c, t).
Proof. all_chars c; (do 2 eexists; split; [vm_compute; reflexivity|reflexivity]). Qed.

Lemma sql_step c t : sql_literal (escape_sql_char c +:+ t) =
  (λ '(v, u), (String c v, u)) <$> sql_literal t.
Proof. all_chars c; reflexivity. Qed.

Lemma json_step c t : json_text (escape_json_char c +:+ t) = String c <$> json_text t.
Proof. all_chars c; reflexivity. Qed.

Lemma ulm_back s : unescape_ulm (str_flat_map escape_ulm_char s) = s.
Proof. induction s as [|c s IH]; [done|]. simpl. by rewrite unescape_ulm_step, IH. Qed.

Lemma xml_back s fuel : (String.length s ≤ fuel)%nat →
  unescape_xml fuel (str_flat_map escape_xml_char s) = s.
Proof.
  revert fuel. induction s as [|c s IH]; intros fuel L; [by destruct fuel|].
  destruct fuel as [|fuel]; simpl in L; [lia|]. cbn [str_flat_map].
  destruct (unescape_xml_step c (str_flat_map escape_xml_char s)) as (a & u & -> & E).
  simpl. rewrite E. by rewrite IH by lia.
Qed.

Lemma xml_longer s : (String.length s ≤ String.length (str_flat_map escape_xml_char s))%nat.
Proof.
  induction s as [|c s IH]; [done|]. cbn [str_flat_map].
  destruct (unescape_xml_step c "") as (a & u & -> & _).
  simpl. rewrite length_app_str. lia.
Qed.

Lemma sql_back s rest : (∀ r, rest ≠ String APOS r) →
  sql_literal (str_flat_map escape_sql_char s +:+ String APOS rest) = Some (s, rest).
Proof.
  intros N. induction s as [|c s IH]; simpl.
  - destruct rest as [|d r]; [done|]. destruct (Ascii.eqb_spec d APOS) as [->|]; [|done].
    by destruct (N r).
  - by rewrite app_assoc_str, sql_step, IH.
Qed.

Lemma json_back s : json_text (str_flat_map escape_json_char s) = Some s.
Proof. induction s as [|c s IH]; [done|]. simpl. by rewrite json_step, IH. Qed.

(** C24: Every escaping fits in its memory and is undone by the reading of its format: ULM
    and XML by the functions of the library, SQL and JSON by the rules for their string
    literals; an apostrophe in a value never ends an SQL literal. *)
Theorem escapes_undone s :
  s ≠ "" →
  (∃ e, glite_lbu_EscapeULM (Some s) = Ret e ∧ glite_lbu_UnescapeULM (Some e) = Some s) ∧
  (∃ e, glite_lbu_EscapeXML (Some s) = Ret (Some e) ∧ glite_lbu_UnescapeXML (Some e) = Some s) ∧
  (∃ e, glite_lbu_EscapeSQL (Some s) = Ret (Some e) ∧
     ∀ rest, (∀ r, rest ≠ String APOS r) →
       sql_literal (e +:+ String APOS rest) = Some (s, rest)) ∧
  (∃ e, glite_lbu_EscapeJSON (Some s) = Ret (Some e) ∧ json_text e = Some s).
Proof.
  intros N. split; [|split; [|split]].
  - exists (str_flat_map escape_ulm_char s). split; [by apply escape_ulm_ok|].
    pose proof (ulm_back s) as B. unfold glite_lbu_UnescapeULM.
    destruct (str_flat_map escape_ulm_char s); [by subst|]. by rewrite B.
  - exists (str_flat_map escape_xml_char s). split; [apply escape_xml_ok|].
    simpl. f_equal. apply xml_back, xml_longer.
  - exists (str_flat_map escape_sql_char s). split; [apply escape_sql_ok|]. apply sql_back.
  - exists (str_flat_map escape_json_char s). split; [apply escape_json_ok|]. apply json_back.
Qed.

Lemma escapes_undone_witness :
  ∃ e, glite_lbu_EscapeSQL (Some "it's a \ <tag>") = Ret (Some e) ∧
    sql_literal (e +:+ String APOS ";") = Some ("it's a \ <tag>", ";").
Proof.
  destruct (escapes_undone "it's a \ <tag>" ltac:(done)) as (_ & _ & (e & E & R) & _).
  exists e. split; [exact E|]. by apply R.
Defined.

(** A URL that ends with a percent sign, or with one hexadecimal digit after it, is
    read behind its end. *)
Theorem url_read_past_end s c h :
  str_forall (λ a, negb (Ascii.eqb a "%")) s = true → xdigit c = Some h →
  glite_lbu_UnescapeURL (Some (s +:+ "%")) = UB Indeterminate ∧
  glite_lbu_UnescapeURL (Some (s +:+ String "%" (String c ""))) = UB OutOfBounds.
Proof.
  intros Hs Hc. unfold glite_lbu_UnescapeURL. cbn [unescape_url].
  rewrite !strchr_sep by done. split; [done|]. cbn [str_drop].
  assert (sscanf_02X (String c "") = (1, Some h)) as ->.
  { revert Hc. all_chars c; intros [= <-]; vm_compute; reflexivity. }
  done.
Qed.

Lemma url_read_past_end_witness :
  glite_lbu_UnescapeURL (Some "/jobs%") = UB Indeterminate ∧
  glite_lbu_UnescapeURL (Some "/jobs%4") = UB OutOfBounds.
Proof. exact (url_read_past_end "/jobs" "4" 4 eq_refl eq_refl). Defined.
