(* ===== verification/Ulm.v ===== *)
(** * ULM lines

    The model of org.glite.lb.common/src/ulm_parse.c but for its dates, and of the reader
    of values in events_parse.c.T.  The raw line is the list of its bytes; the byte behind
    the last one is the NUL of the C string, and every other index outside is a fault. *)
From Stdlib Require Import ZArith Lia Ascii.
From stdpp Require Import base option list strings numbers.
From S2P Require Import Prelude CLib Escape.
#[local] Open Scope Z_scope.

Definition ULM_EQ : ascii := "=".
Definition ULM_SP : ascii := " ".
Definition ULM_TB : ascii := chr 9.
Definition NUL : ascii := chr 0.
Definition ULM_FIELDS_MAX : nat := 100.
Definition ULM_PARSE_OK : Z := 0.
Definition ULM_PARSE_ERROR : Z := -1.

(** An array of [int]s on the heap. *)
Inductive int_array :=
| ANull
| AFreed
| ALive (l : list Z).

(** [edg_wll_ULMFields] *)
Record ulm_fields := {
  raw : list ascii;
  names : int_array;
  vals : int_array;
  num : Z
}.
#[export] Instance eta_ulm_fields : Eta ulm_fields :=
  fun x => {| raw := raw x; names := names x; vals := vals x; num := num x |}.

Definition isblank (c : ascii) : bool := Ascii.eqb c ULM_SP || Ascii.eqb c ULM_TB.

Definition isalnum (c : ascii) : bool :=
  ((48 <=? code c) && (code c <=? 57)) || ((65 <=? code c) && (code c <=? 90))
  || ((97 <=? code c) && (code c <=? 122)).

Definition edg_wll_ULMisalphaext (c : ascii) : bool :=
  isalnum c || Ascii.eqb c "." || Ascii.eqb c "-" || Ascii.eqb c "_".

Fixpoint skip_blank (s : string) : string :=
  match s with
  | String c r => if isblank c then skip_blank r else s
  | EmptyString => EmptyString
  end.

Definition edg_wll_ULMNewParseTable (logline : string) : ulm_fields :=
  {| raw := String.list_ascii_of_string (skip_blank logline);
     names := ANull; vals := ANull; num := 0 |}.

(** [if (p) free(p)] *)
Definition free_array (p : int_array) : outcome int_array :=
  match p with
  | ANull => Ret ANull
  | ALive _ => Ret AFreed
  | AFreed => UB DanglingPtr
  end.

(** [EDG_WLL_ULM_CLEAR_FIELDS]: the pointers are left as they are. *)
Definition clear_fields (t : ulm_fields) : outcome ulm_fields :=
  let! v := free_array t.(vals) in
  let! n := free_array t.(names) in
  Ret (t <| vals := v |> <| names := n |> <| num := 0 |>).

Definition edg_wll_ULMFreeParseTable (t : ulm_fields) : outcome unit :=
  let! _ := clear_fields t in Ret tt.

(** ** The bytes of a line *)
Definition byte_at (r : list ascii) (i : Z) : outcome ascii :=
  if (i <? 0) || (Z.of_nat (length r) <? i) then UB OutOfBounds
  else Ret (default NUL (r !! Z.to_nat i)).

Definition set_nul (r : list ascii) (i : Z) : list ascii := <[Z.to_nat i := NUL]> r.

(** The C string at an index. *)
Fixpoint until_nul (r : list ascii) : string :=
  match r with
  | [] => ""
  | c :: r => if Ascii.eqb c NUL then "" else String c (until_nul r)
  end.
Definition cstr_at (r : list ascii) (i : Z) : outcome string :=
  if (i <? 0) || (Z.of_nat (length r) <? i) then UB OutOfBounds
  else Ret (until_nul (drop (Z.to_nat i) r)).

(** ** The counting loop *)
Record scan := {
  line : list ascii;
  qmCnt : Z;
  bsCnt : Z;
  iArrayEQ : list Z;    (* the entries that are set; their number is [eqCnt] *)
  iArraySP : list Z
}.
#[export] Instance eta_scan : Eta scan :=
  fun x => {| line := line x; qmCnt := qmCnt x; bsCnt := bsCnt x;
              iArrayEQ := iArrayEQ x; iArraySP := iArraySP x |}.

(** [iArray[cnt] = i; cnt++;] *)
Definition push (l : list Z) (i : Z) : outcome (list Z) :=
  if (length l <? ULM_FIELDS_MAX)%nat then Ret (l ++ [i]) else UB OutOfBounds.

(** [if (this->raw[i-1] == ULM_BS) bsCnt = 0;] *)
Definition escaped (st : scan) (i : Z) : outcome scan :=
  let! p := byte_at st.(line) (i - 1) in
  Ret (if Ascii.eqb p ULM_BS then st <| bsCnt := 0 |> else st).

(** One round of the loop: [false] stands for [return ULM_PARSE_ERROR]. *)
Definition scan_char (st : scan) (i : Z) : outcome (scan * bool) :=
  let! c := byte_at st.(line) i in
  let go (st : scan) := Ret (st, true) in
  let stop (st : scan) := Ret (st, false) in
  if Ascii.eqb c ULM_SP || Ascii.eqb c ULM_TB then
    if st.(qmCnt) =? 0 then let! l := push st.(iArraySP) i in go (st <| iArraySP := l |>)
    else let! st := escaped st i in go st
  else if Ascii.eqb c ULM_EQ then
    if i =? 0 then stop st else
    if st.(qmCnt) =? 0 then
      let! p := byte_at st.(line) (i - 1) in
      if isblank p || negb (edg_wll_ULMisalphaext p) then stop st else
      let! n := byte_at st.(line) (i + 1) in
      if isblank n || (negb (edg_wll_ULMisalphaext p) && negb (Ascii.eqb n ULM_QM))
      then stop st else
      let! l := push st.(iArrayEQ) i in go (st <| iArrayEQ := l |>)
    else let! st := escaped st i in go st
  else if Ascii.eqb c ULM_LF then
    if st.(qmCnt) =? 0 then go (st <| line := set_nul st.(line) i |>)
    else let! st := escaped st i in go st
  else if Ascii.eqb c ULM_BS then
    if st.(qmCnt) =? 0 then stop st else
    let! p := byte_at st.(line) (i - 1) in
    go (st <| bsCnt := if Ascii.eqb p ULM_BS && (st.(bsCnt) =? 1) then 0 else 1 |>)
  else if Ascii.eqb c ULM_QM then
    let! st :=
      if st.(qmCnt) =? 0 then Ret (st <| qmCnt := st.(qmCnt) + 1 |>)
      else escaped (if st.(bsCnt) =? 0 then st <| qmCnt := st.(qmCnt) - 1 |> else st) i in
    if st.(qmCnt) =? 0 then
      let! n := byte_at st.(line) (i + 1) in
      if negb (isspace n) && negb (Ascii.eqb n NUL) then stop st else go st
    else go st
  else if i =? 0 then go st else let! st := escaped st i in go st.

Fixpoint scan_loop (n : nat) (i : Z) (st : scan) : outcome (scan * bool) :=
  match n with
  | O => Ret (st, true)
  | S n =>
    let! '(st, ok) := scan_char st i in
    if ok then scan_loop n (i + 1) st else Ret (st, false)
  end.

(** ** The names *)

(** [while (edg_wll_ULMisalphaext(eq[-j])) j++;] *)
Fixpoint name_start (fuel : nat) (r : list ascii) (eq j : Z) : outcome Z :=
  match fuel with
  | O => UB NoFuel
  | S fuel =>
    let! c := byte_at r (eq - j) in
    if edg_wll_ULMisalphaext c then name_start fuel r eq (j + 1) else Ret j
  end.

(** The main loop over the other delimiters. *)
Fixpoint name_loop (r : list ascii) (eqs ns vs : list Z) : outcome (list Z * list Z * bool) :=
  match eqs with
  | [] => Ret (ns, vs, true)
  | eq :: eqs =>
    let! j := name_start (S (S (Z.to_nat eq))) r eq 1 in
    let! c := byte_at r (eq - j) in
    if isblank c then name_loop r eqs (ns ++ [eq - j + 1]) (vs ++ [eq + 1])
    else Ret (ns, vs, false)
  end.

(** From the end of the counting loop on; [t] has the line that the loop left. *)
Definition record_fields (t : ulm_fields) (size : nat) (st : scan) : outcome (ulm_fields * Z) :=
  match st.(iArrayEQ) with
  | [] => Ret (t, ULM_PARSE_ERROR)
  | eq0 :: eqs =>
    let! c := byte_at t.(raw) 0 in
    if Ascii.eqb c ULM_EQ then Ret (t, ULM_PARSE_ERROR) else
    if negb (st.(qmCnt) =? 0) || negb (st.(bsCnt) =? 0) then
      (* the message shows [this->raw[i+1]], where [i] is the size *)
      let! _ := byte_at t.(raw) (Z.of_nat size + 1) in Ret (t, ULM_PARSE_ERROR)
    else
    let! '(ns, vs, ok) := name_loop t.(raw) eqs [0] [eq0 + 1] in
    let t := t <| names := ALive ns |> <| vals := ALive vs |> in
    if negb ok then Ret (t, ULM_PARSE_ERROR) else
    let r := foldl set_nul t.(raw) st.(iArrayEQ) in
    let r := foldl set_nul r st.(iArraySP) in
    Ret (t <| raw := r |> <| num := Z.of_nat (length st.(iArrayEQ)) |>, ULM_PARSE_OK)
  end.

Definition process_table (t : ulm_fields) (size : nat) : outcome (ulm_fields * Z) :=
  let! t := clear_fields t in
  let! '(st, ok) := scan_loop size 0
    {| line := t.(raw); qmCnt := 0; bsCnt := 0; iArrayEQ := []; iArraySP := [] |} in
  let t := t <| raw := st.(line) |> in
  if ok then record_fields t size st else Ret (t, ULM_PARSE_ERROR).

(** [this] is the table or NULL. *)
Definition edg_wll_ULMProcessParseTable (this : option ulm_fields) :
    outcome (option ulm_fields * Z) :=
  match this with
  | None => Ret (None, ULM_PARSE_ERROR)
  | Some t =>
    let size := String.length (until_nul t.(raw)) in
    if (size =? 0)%nat then Ret (Some t, ULM_PARSE_ERROR) else
    let! '(t, res) := process_table t size in Ret (Some t, res)
  end.

(** ** Reading *)
Definition array_at (a : int_array) (i : Z) : outcome Z :=
  match a with
  | ANull => UB NullDeref
  | AFreed => UB DanglingPtr
  | ALive l => if (i <? 0) || (Z.of_nat (length l) <=? i) then UB OutOfBounds
               else match l !! Z.to_nat i with Some z => Ret z | None => UB OutOfBounds end
  end.

Definition get_at (t : ulm_fields) (a : int_array) (index : Z) : outcome (option string) :=
  if (index <? 0) || (t.(num) <? index) then Ret None else
  let! i := array_at a index in
  let! s := cstr_at t.(raw) i in
  Ret (Some s).

Definition edg_wll_ULMGetNameAt (t : ulm_fields) (index : Z) : outcome (option string) :=
  get_at t t.(names) index.
Definition edg_wll_ULMGetValueAt (t : ulm_fields) (index : Z) : outcome (option string) :=
  get_at t t.(vals) index.

Definition last_char (s : string) : option ascii := list.last (String.list_ascii_of_string s).

(** [NULL] is never the result for an index in range. *)
Definition my_edg_wll_ULMGetValueAt (t : ulm_fields) (index : Z) : outcome (option string) :=
  let! str := edg_wll_ULMGetValueAt t index in
  match str with
  | None => UB NullDeref
  | Some str =>
    let len := String.length str in
    let quoted := match str with
                  | String c _ => Ascii.eqb c ULM_QM && bool_decide (last_char str = Some ULM_QM)
                  | EmptyString => false
                  end in
    let tmp := if quoted then (if (2 <? len)%nat then str_take (len - 2) (str_drop 1 str) else "")
               else str in
    Ret (if (2 <? len)%nat then glite_lbu_UnescapeULM (Some tmp) else Some tmp)
  end.
