(* ===== verification/UlmLine.v ===== *)
(** * Log lines

    The lines that the producers format (events.h.T, producer.c), and the theorem that the
    parser of Ulm.v reads their fields back. *)
From Stdlib Require Import ZArith Lia Ascii.
From stdpp Require Import base option list strings numbers.
From S2P Require Import Prelude CLib Escape Ulm.
#[local] Open Scope Z_scope.

(** ** Formats *)

(** The conversions of the formats: [%s], ["%|Us"] in quotes, ["%s"] in quotes. *)
Inductive ulm_value :=
| Plain (v : string)
| Quoted (v : string)
| Verbatim (v : string).
Definition ulm_field : Type := string * ulm_value.

Definition value_of (v : ulm_value) : string :=
  match v with Plain v | Quoted v | Verbatim v => v end.

Definition value_text (v : ulm_value) : string :=
  match v with
  | Plain v => v
  | Quoted v => String ULM_QM (str_flat_map escape_ulm_char v +:+ String ULM_QM "")
  | Verbatim v => String ULM_QM (v +:+ String ULM_QM "")
  end.

Definition field_text (f : ulm_field) : string := f.1 +:+ "=" +:+ value_text f.2 +:+ " ".

Fixpoint fields_text (fs : list ulm_field) : string :=
  match fs with [] => "" | f :: fs => field_text f +:+ fields_text fs end.

Definition EDG_WLL_FORMAT_COMMON (date host lvl : string) (priority : Z)
    (source src_instance evnt jobid seqcode : string) : list ulm_field :=
  [("DATE", Plain date); ("HOST", Quoted host); ("PROG", Plain "edg-wms"); ("LVL", Plain lvl);
   ("DG.PRIORITY", Plain (print_int priority)); ("DG.SOURCE", Quoted source);
   ("DG.SRC_INSTANCE", Quoted src_instance); ("DG.EVNT", Verbatim evnt);
   ("DG.JOBID", Verbatim jobid); ("DG.SEQCODE", Quoted seqcode)].
Definition EDG_WLL_FORMAT_USER (user : string) : list ulm_field := [("DG.USER", Quoted user)].

(** The line of [edg_wll_FormatLogLine]: ["%s%s%s\n"]. *)
Definition log_line (fix_ dguser var : list ulm_field) : string :=
  fields_text fix_ +:+ fields_text dguser +:+ fields_text var +:+ String ULM_LF "".

(** ** What can be formatted *)
Definition quiet (c : ascii) : bool :=
  negb (Ascii.eqb c ULM_SP || Ascii.eqb c ULM_TB || Ascii.eqb c ULM_EQ || Ascii.eqb c ULM_LF
        || Ascii.eqb c ULM_BS || Ascii.eqb c ULM_QM || Ascii.eqb c NUL).
Definition unescaped (c : ascii) : bool :=
  negb (Ascii.eqb c ULM_LF || Ascii.eqb c ULM_BS || Ascii.eqb c ULM_QM || Ascii.eqb c NUL).
Definition not_nul (c : ascii) : bool := negb (Ascii.eqb c NUL).

(** C strings; without quotes the value is one word, quotes alone protect only some bytes. *)
Definition value_ok (v : ulm_value) : bool :=
  match v with
  | Plain v => negb (String.eqb v "") && str_forall quiet v
  | Quoted v => str_forall not_nul v
  | Verbatim v => str_forall unescaped v
  end.
Definition field_ok (f : ulm_field) : bool :=
  negb (String.eqb f.1 "") && str_forall edg_wll_ULMisalphaext f.1 && value_ok f.2.

(** ** Bytes *)
Abbreviation bytes := String.list_ascii_of_string.

Lemma bytes_app s t : bytes (s +:+ t) = bytes s ++ bytes t.
Proof. induction s as [|c s IH]; simpl; [done|]. by rewrite IH. Qed.
Lemma length_bytes s : length (bytes s) = String.length s.
Proof. induction s as [|c s IH]; simpl; congruence. Qed.

Lemma byte_mid pre c post : byte_at (pre ++ c :: post) (Z.of_nat (length pre)) = Ret c.
Proof.
  unfold byte_at. rewrite length_app. simpl.
  destruct (Z.ltb_spec (Z.of_nat (length pre)) 0); [lia|].
  destruct (Z.ltb_spec (Z.of_nat (length pre + S (length post))) (Z.of_nat (length pre))); [lia|].
  simpl. rewrite Nat2Z.id, lookup_app_r, Nat.sub_diag by lia. done.
Qed.

Lemma byte_end r : byte_at r (Z.of_nat (length r)) = Ret NUL.
Proof.
  unfold byte_at. destruct (Z.ltb_spec (Z.of_nat (length r)) 0); [lia|].
  rewrite Z.ltb_irrefl. simpl. rewrite Nat2Z.id, lookup_ge_None_2 by lia. done.
Qed.

Lemma byte_ok r i : 0 ≤ i ≤ Z.of_nat (length r) → byte_at r i = Ret (default NUL (r !! Z.to_nat i)).
Proof.
  intros L. unfold byte_at. destruct (Z.ltb_spec i 0); [lia|].
  by destruct (Z.ltb_spec (Z.of_nat (length r)) i); [lia|].
Qed.

(** The byte at an index given as a split of the line. *)
Lemma byte_split r i pre c post :
  r = pre ++ c :: post → i = Z.of_nat (length pre) → byte_at r i = Ret c.
Proof. intros -> ->. apply byte_mid. Qed.

(** ** Runs of the counting loop *)
Definition mk (l : list ascii) (q b : Z) (e s : list Z) : scan :=
  {| line := l; qmCnt := q; bsCnt := b; iArrayEQ := e; iArraySP := s |}.

Definition scan_run (i : Z) (n : nat) (st st' : scan) : Prop :=
  ∀ m, scan_loop (n + m) i st = scan_loop m (i + Z.of_nat n) st'.

Lemma run_none i st : scan_run i 0 st st.
Proof. intros m. simpl. by rewrite Z.add_0_r. Qed.

Lemma run_one i st st' : scan_char st i = Ret (st', true) → scan_run i 1 st st'.
Proof. intros E m. simpl. by rewrite E. Qed.

Lemma run_trans i n st st' k st'' :
  scan_run i n st st' → scan_run (i + Z.of_nat n) k st' st'' → scan_run i (n + k) st st''.
Proof.
  intros R R' m. rewrite <- Nat.add_assoc, R, R'. f_equal. lia.
Qed.

Lemma run_cons i st st' k st'' :
  scan_char st i = Ret (st', true) → scan_run (i + 1) k st' st'' → scan_run i (S k) st st''.
Proof. intros E R. apply (run_trans i 1 st st'); [by apply run_one|done]. Qed.

Lemma escaped_zero l q e s i :
  1 ≤ i ≤ Z.of_nat (length l) → escaped (mk l q 0 e s) i = Ret (mk l q 0 e s).
Proof.
  intros L. unfold escaped. cbn [line mk]. rewrite byte_ok by lia. simpl. by case_match.
Qed.

Ltac char_tests :=
  repeat match goal with
  | |- context [Ascii.eqb ?a ?b] => let v := eval vm_compute in (Ascii.eqb a b) in
      match v with true => idtac | false => idtac end; change (Ascii.eqb a b) with v
  end.

Lemma quiet_char l q e s i c :
  byte_at l i = Ret c → quiet c = true → 0 ≤ i ≤ Z.of_nat (length l) →
  scan_char (mk l q 0 e s) i = Ret (mk l q 0 e s, true).
Proof.
  intros B Q L. unfold scan_char. cbn [line mk]. rewrite B. cbn [obind].
  unfold quiet in Q. rewrite negb_true_iff, !orb_false_iff in Q.
  destruct Q as ((((((->&->)&->)&->)&->)&->)&_). cbn [orb].
  destruct (Z.eqb_spec i 0); [done|]. fold (mk l q 0 e s). rewrite escaped_zero by lia. done.
Qed.

Lemma quiet_run q e s mid : ∀ pre post,
  forallb quiet mid = true →
  scan_run (Z.of_nat (length pre)) (length mid)
    (mk (pre ++ mid ++ post) q 0 e s) (mk (pre ++ mid ++ post) q 0 e s).
Proof.
  induction mid as [|c mid IH]; intros pre post; simpl; [intros; apply run_none|].
  rewrite andb_true_iff. intros [Hc Hm]. eapply run_cons.
  - eapply quiet_char; [apply byte_mid|done|rewrite length_app; simpl; lia].
  - specialize (IH (pre ++ [c]) post Hm). rewrite length_app in IH. simpl in IH.
    rewrite <- !app_assoc in IH. simpl in IH.
    by replace (Z.of_nat (length pre) + 1) with (Z.of_nat (length pre + 1)) by lia.
Qed.

(** Two bytes of which the first is a backslash, in quotes. *)
Lemma pair_run l e s pre d post :
  l = pre ++ ULM_BS :: d :: post → pre ≠ [] → (d = ULM_BS ∨ d = ULM_QM ∨ d = "n"%char) →
  scan_run (Z.of_nat (length pre)) 2 (mk l 1 0 e s) (mk l 1 0 e s).
Proof.
  intros -> N D.
  assert (1 ≤ length pre)%nat as L by (destruct pre; simpl; [done|lia]).
  set (l := pre ++ _). set (i := Z.of_nat (length pre)).
  assert (byte_at l i = Ret ULM_BS) as B1 by apply byte_mid.
  assert (byte_at l (i + 1) = Ret d) as B2.
  { eapply (byte_split _ _ (pre ++ [ULM_BS])); [by rewrite <- app_assoc|].
    rewrite length_app. simpl. lia. }
  assert (i + 1 - 1 = i) as S by lia.
  assert (byte_at l (i - 1) = Ret (default NUL (l !! Z.to_nat (i - 1)))) as B0.
  { apply byte_ok. unfold l, i. rewrite length_app. lia. }
  assert ((i + 1 =? 0) = false) as Z1 by (apply Z.eqb_neq; lia).
  apply (run_cons _ _ (mk l 1 1 e s)).
  - unfold scan_char. cbn [line mk]. rewrite B1. simpl. rewrite B0. simpl.
    by rewrite andb_false_r.
  - apply (run_cons _ _ (mk l 1 0 e s)); [|apply run_none].
    unfold scan_char, escaped. cbn [line mk]. rewrite B2. simpl.
    destruct D as [->|[->| ->]]; simpl; rewrite ?Z1, S, B1; simpl; done.
Qed.

(** A byte in quotes that is not escaped. *)
Lemma inner_char l e s pre c post :
  l = pre ++ c :: post → pre ≠ [] → unescaped c = true →
  scan_char (mk l 1 0 e s) (Z.of_nat (length pre)) = Ret (mk l 1 0 e s, true).
Proof.
  intros -> N U. set (l := pre ++ c :: post).
  assert (1 ≤ length pre ∧ length pre ≤ length l)%nat as L.
  { unfold l. rewrite length_app. destruct pre; simpl; [done|lia]. }
  unfold scan_char. cbn [line mk]. unfold l at 1. rewrite byte_mid. cbn [obind].
  assert ((Z.of_nat (length pre) =? 0) = false) as -> by (apply Z.eqb_neq; lia).
  unfold unescaped in U. rewrite negb_true_iff, !orb_false_iff in U.
  destruct U as (((-> & ->) & ->) & _). cbn [qmCnt mk].
  change (1 =? 0) with false. cbn iota. fold (mk l 1 0 e s).
  rewrite !escaped_zero by lia. cbn [obind]. by repeat case_match.
Qed.

Lemma escaped_run e s v : ∀ pre post l,
  l = pre ++ bytes (str_flat_map escape_ulm_char v) ++ post → pre ≠ [] →
  str_forall not_nul v = true →
  scan_run (Z.of_nat (length pre)) (length (bytes (str_flat_map escape_ulm_char v)))
    (mk l 1 0 e s) (mk l 1 0 e s).
Proof.
  induction v as [|c v IH]; intros pre post l E N F; [apply run_none|].
  cbn [str_flat_map] in *. rewrite bytes_app, length_app.
  rewrite bytes_app, <- app_assoc in E. simpl in F. apply andb_true_iff in F as [Fc F].
  apply (run_trans _ _ _ (mk l 1 0 e s)).
  - clear IH. unfold escape_ulm_char in *.
    destruct (Ascii.eqb_spec c ULM_BS) as [->|N1]; [eapply pair_run; [exact E|done|auto]|].
    destruct (Ascii.eqb_spec c ULM_QM) as [->|N2]; [eapply pair_run; [exact E|done|auto]|].
    cbn [orb] in *. destruct (Ascii.eqb_spec c ULM_LF) as [->|N3]; [eapply pair_run; [exact E|done|auto]|].
    apply run_one. eapply inner_char; [exact E|done|]. unfold unescaped, not_nul in *.
    rewrite negb_true_iff in *. rewrite Fc, !orb_false_r, !orb_false_iff.
    repeat split; by apply Ascii.eqb_neq.
  - rewrite <- Nat2Z.inj_add, <- length_app. eapply IH; [|by destruct pre|done].
    rewrite <- app_assoc. exact E.
Qed.

Lemma verbatim_escape v : str_forall unescaped v = true →
  str_flat_map escape_ulm_char v = v ∧ str_forall not_nul v = true.
Proof.
  induction v as [|c v IH]; [done|]. simpl. rewrite andb_true_iff. intros [U F].
  destruct (IH F) as [-> ->]. unfold unescaped in U. rewrite negb_true_iff, !orb_false_iff in U.
  destruct U as (((U1 & U2) & U3) & U4). unfold escape_ulm_char, not_nul.
  by rewrite U1, U2, U3, U4.
Qed.

(** A quoted value with what closes it; a white space follows. *)
Lemma quoted_run e s v pre post sp l :
  l = pre ++ ULM_QM :: bytes (str_flat_map escape_ulm_char v) ++ ULM_QM :: sp :: post →
  isspace sp = true → str_forall not_nul v = true →
  scan_run (Z.of_nat (length pre)) (S (length (bytes (str_flat_map escape_ulm_char v)) + 1))
    (mk l 0 0 e s) (mk l 0 0 e s).
Proof.
  intros E W F. set (b := bytes (str_flat_map escape_ulm_char v)) in *.
  apply (run_cons _ _ (mk l 1 0 e s)).
  { unfold scan_char. cbn [line mk]. rewrite E, byte_mid. done. }
  apply (run_trans _ _ _ (mk l 1 0 e s)).
  - replace (Z.of_nat (length pre) + 1) with (Z.of_nat (length (pre ++ [ULM_QM])))
      by (rewrite length_app; simpl; lia).
    apply (escaped_run e s v _ (ULM_QM :: sp :: post)); [|by destruct pre|done].
    rewrite E, <- app_assoc. done.
  - apply run_one. set (pre' := pre ++ ULM_QM :: b).
    assert (Z.of_nat (length pre) + 1 + Z.of_nat (length b) = Z.of_nat (length pre')) as ->.
    { unfold pre'. rewrite length_app. simpl. lia. }
    assert (l = pre' ++ ULM_QM :: sp :: post) as E'.
    { rewrite E. unfold pre'. rewrite <- app_assoc. done. }
    assert (byte_at l (Z.of_nat (length pre') + 1) = Ret sp) as B.
    { eapply (byte_split _ _ (pre' ++ [ULM_QM])); [rewrite <- app_assoc; exact E'|].
      rewrite length_app. simpl. lia. }
    unfold scan_char. cbn [line mk]. rewrite (byte_split _ _ _ _ _ E' eq_refl). cbn - [escaped byte_at isspace].
    change ((mk l 1 0 e s) <| qmCnt := 1 - 1 |>) with (mk l 0 0 e s).
    rewrite escaped_zero; [|rewrite E', length_app; unfold pre'; rewrite length_app; simpl; lia].
    simpl. rewrite B. simpl. by rewrite W.
Qed.

Lemma alphaext_quiet c : edg_wll_ULMisalphaext c = true → quiet c = true ∧ isblank c = false.
Proof. all_chars c; vm_compute; intros H; (discriminate || by split). Qed.

Lemma quiet_not_nul c : quiet c = true → not_nul c = true.
Proof. all_chars c; vm_compute; intros H; (discriminate || done). Qed.

Lemma forallb_bytes p s : forallb p (bytes s) = str_forall p s.
Proof. induction s as [|c s IH]; simpl; congruence. Qed.

Lemma alphaext_forall s : str_forall edg_wll_ULMisalphaext s = true → str_forall quiet s = true.
Proof. apply str_forall_impl. intros c H. by apply alphaext_quiet in H as [? _]. Qed.

(** A value with the blank behind it. *)
Lemma value_run e s v pre post l :
  l = pre ++ bytes (value_text v) ++ ULM_SP :: post → value_ok v = true →
  scan_run (Z.of_nat (length pre)) (length (bytes (value_text v))) (mk l 0 0 e s) (mk l 0 0 e s).
Proof.
  intros E V.
  assert (∀ w, str_forall not_nul w = true →
    bytes (value_text v) = ULM_QM :: bytes (str_flat_map escape_ulm_char w) ++ [ULM_QM] →
    scan_run (Z.of_nat (length pre)) (length (bytes (value_text v)))
      (mk l 0 0 e s) (mk l 0 0 e s)) as Q.
  { intros w F T. rewrite T in *. simpl. rewrite length_app. simpl in *.
    rewrite <- app_assoc in E. simpl in E. eapply quoted_run; [exact E|done|done]. }
  destruct v as [v|v|v]; simpl in V.
  - apply andb_true_iff in V as [_ V]. rewrite E. apply quiet_run. by rewrite forallb_bytes.
  - apply (Q v V). simpl. by rewrite bytes_app.
  - destruct (verbatim_escape v V) as [Ev F]. apply (Q v F). simpl. by rewrite Ev, bytes_app.
Qed.

Lemma value_head v : value_ok v = true →
  ∃ c r, bytes (value_text v) = c :: r ∧ isblank c = false.
Proof.
  destruct v as [v|v|v]; simpl; intros V; [|by do 2 eexists|by do 2 eexists].
  destruct v as [|c v]; [done|]. do 2 eexists. split; [done|]. simpl in V.
  apply andb_true_iff in V as [V _]. revert V. clear. unfold quiet, isblank.
  rewrite negb_true_iff, !orb_false_iff. intros ((((((->&->)&_)&_)&_)&_)&_). done.
Qed.

Lemma last_byte n : n ≠ "" → str_forall edg_wll_ULMisalphaext n = true →
  ∃ m p, bytes n = m ++ [p] ∧ edg_wll_ULMisalphaext p = true.
Proof.
  intros N A. rewrite <- forallb_bytes in A. destruct (bytes n) as [|x r] eqn:E using rev_ind.
  - by destruct n.
  - clear IHr. rewrite forallb_app in A. apply andb_true_iff in A as [_ A]. simpl in A.
    rewrite andb_true_r in A. eauto.
Qed.

Lemma push_ok l i : (length l < 100)%nat → push l i = Ret (l ++ [i]).
Proof. intros L. unfold push, ULM_FIELDS_MAX. by apply Nat.ltb_lt in L as ->. Qed.

(** The delimiter between a name and a value. *)
Lemma eq_char e s n w pre l :
  l = pre ++ bytes n ++ ULM_EQ :: w → n ≠ "" → str_forall edg_wll_ULMisalphaext n = true →
  (∃ c r, w = c :: r ∧ isblank c = false) →
  let i := Z.of_nat (length pre + length (bytes n)) in
  scan_char (mk l 0 0 e s) i = let! e' := push e i in Ret (mk l 0 0 e' s, true).
Proof.
  intros E N A (c & r & -> & B) i. destruct (last_byte n N A) as (m & p & En & Ap).
  rewrite En, <- app_assoc in E. simpl in E.
  assert (i = Z.of_nat (length pre + length m) + 1) as Ei.
  { unfold i. rewrite En, length_app. simpl. lia. }
  assert (byte_at l (i - 1) = Ret p) as B0.
  { eapply (byte_split _ _ (pre ++ m)); [rewrite <- app_assoc; exact E|].
    rewrite length_app. lia. }
  assert (byte_at l i = Ret ULM_EQ) as B1.
  { eapply (byte_split _ _ (pre ++ m ++ [p])); [rewrite <- !app_assoc; exact E|].
    rewrite !length_app. simpl. lia. }
  assert (byte_at l (i + 1) = Ret c) as B2.
  { eapply (byte_split _ _ (pre ++ m ++ [p; ULM_EQ])); [rewrite <- !app_assoc; exact E|].
    rewrite !length_app. simpl. lia. }
  unfold scan_char. cbn [line mk]. rewrite B1. cbn - [byte_at push].
  destruct (Z.eqb_spec i 0); [lia|]. rewrite B0. cbn - [byte_at push].
  destruct (alphaext_quiet p Ap) as [_ ->]. rewrite Ap. cbn - [byte_at push].
  rewrite B2. cbn - [push]. by rewrite B.
Qed.

Definition field_len (f : ulm_field) : nat := length (bytes (field_text f)).
Fixpoint eq_pos (off : nat) (fs : list ulm_field) : list Z :=
  match fs with
  | [] => []
  | f :: fs => Z.of_nat (off + length (bytes f.1)) :: eq_pos (off + field_len f) fs
  end.
Fixpoint sp_pos (off : nat) (fs : list ulm_field) : list Z :=
  match fs with
  | [] => []
  | f :: fs => Z.of_nat (off + field_len f - 1) :: sp_pos (off + field_len f) fs
  end.

Lemma field_bytes f :
  bytes (field_text f) = bytes f.1 ++ ULM_EQ :: bytes (value_text f.2) ++ [ULM_SP].
Proof. unfold field_text. by rewrite !bytes_app. Qed.

Lemma field_run e s f pre post l :
  l = pre ++ bytes (field_text f) ++ post → field_ok f = true →
  (length e < 100)%nat → (length s < 100)%nat →
  scan_run (Z.of_nat (length pre)) (field_len f) (mk l 0 0 e s)
    (mk l 0 0 (e ++ [Z.of_nat (length pre + length (bytes f.1))])
       (s ++ [Z.of_nat (length pre + field_len f - 1)])).
Proof.
  intros E K Le Ls. unfold field_ok in K. rewrite !andb_true_iff in K.
  destruct K as ((N & A) & V). unfold field_len. rewrite field_bytes in *.
  destruct f as [n v]. cbn [fst snd] in *. rewrite <- app_assoc in E. simpl in E.
  rewrite <- app_assoc in E. simpl in E.
  set (w := bytes (value_text v)) in *. rewrite !length_app. cbn [length]. rewrite length_app.
  eapply run_trans.
  { rewrite E. apply quiet_run. rewrite forallb_bytes. by apply alphaext_forall. }
  rewrite <- E, <- Nat2Z.inj_add. eapply run_cons.
  { rewrite (eq_char e s n (w ++ ULM_SP :: post) pre l); [by rewrite push_ok|exact E|by intros ->|done|].
    destruct (value_head v V) as (c & r & Hv & B). unfold w. rewrite Hv.
    exists c, (r ++ ULM_SP :: post). by split. }
  eapply run_trans.
  { replace (_ + 1) with (Z.of_nat (length (pre ++ bytes n ++ [ULM_EQ])))
      by (rewrite !length_app; simpl; lia).
    apply (value_run _ _ v _ post); [|done]. rewrite <- !app_assoc. exact E. }
  apply run_one. unfold scan_char. cbn [line mk].
  rewrite (byte_split l _ (pre ++ bytes n ++ ULM_EQ :: w) ULM_SP post).
  - cbn - [push]. rewrite push_ok by done. unfold mk. simpl.
    match goal with |- context [s ++ [Z.of_nat (?a - 1)]] => 
      replace (Z.of_nat (a - 1)) with
        (Z.of_nat (length pre + length (bytes n)) + 1 + Z.of_nat (length w)) by lia end.
    done.
  - rewrite <- !app_assoc. exact E.
  - rewrite !length_app. cbn [length]. fold w. lia.
Qed.

(** The fields with the bytes [a] and [b] as delimiters. *)
Definition field_with (a b : ascii) (f : ulm_field) : list ascii :=
  bytes f.1 ++ a :: bytes (value_text f.2) ++ [b].
Definition fields_with (a b : ascii) (fs : list ulm_field) : list ascii :=
  concat (map (field_with a b) fs).

Lemma length_field_with a b f : length (field_with a b f) = field_len f.
Proof.
  unfold field_len. rewrite field_bytes. unfold field_with. rewrite !length_app. simpl.
  by rewrite !length_app.
Qed.

Lemma fields_bytes fs : bytes (fields_text fs) = fields_with ULM_EQ ULM_SP fs.
Proof.
  induction fs as [|f fs IH]; [done|]. simpl. rewrite bytes_app, IH. 
  unfold fields_with. simpl. by rewrite field_bytes.
Qed.

Lemma fields_run fs : ∀ e s pre post l,
  l = pre ++ bytes (fields_text fs) ++ post → forallb field_ok fs = true →
  (length e + length fs ≤ 100)%nat → (length s + length fs ≤ 100)%nat →
  scan_run (Z.of_nat (length pre)) (length (bytes (fields_text fs))) (mk l 0 0 e s)
    (mk l 0 0 (e ++ eq_pos (length pre) fs) (s ++ sp_pos (length pre) fs)).
Proof.
  induction fs as [|f fs IH]; intros e s pre post l E K Le Ls; simpl.
  { rewrite !app_nil_r. apply run_none. }
  simpl in *. apply andb_true_iff in K as [K Ks]. rewrite bytes_app in *.
  rewrite <- app_assoc in E. rewrite length_app. eapply run_trans.
  { eapply field_run; [exact E|done|lia|lia]. }
  assert (length pre + field_len f = length (pre ++ bytes (field_text f)))%nat as Ep
    by (by rewrite length_app).
  rewrite <- Nat2Z.inj_add, <- length_app, Ep.
  rewrite (cons_middle _ e (eq_pos _ fs)), (cons_middle _ s (sp_pos _ fs)), !(app_assoc _ [_]).
  eapply IH; [by rewrite <- app_assoc; exact E|done| |]; rewrite length_app; simpl; lia.
Qed.

(** *** The names *)
Lemma name_start_ok b rest l : edg_wll_ULMisalphaext b = false →
  ∀ n pre fuel eq j, l = pre ++ b :: n ++ rest → forallb edg_wll_ULMisalphaext n = true →
  eq - j = Z.of_nat (length pre + length n) → (length n < fuel)%nat →
  name_start fuel l eq j = Ret (j + Z.of_nat (length n)).
Proof.
  intros B n. revert rest. induction n as [|c n IH] using rev_ind; intros rest pre fuel eq j E A D L;
    (destruct fuel as [|fuel]; [simpl in L; lia|]); cbn [name_start].
  - rewrite (byte_split l _ pre b rest) by (simpl in *; (exact E || lia)).
    simpl. rewrite B. f_equal. lia.
  - rewrite forallb_app in A. apply andb_true_iff in A as [A Ac]. simpl in Ac.
    rewrite andb_true_r in Ac. rewrite length_app in *. simpl in D, L.
    rewrite <- app_assoc in E. simpl in E.
    rewrite (byte_split l _ (pre ++ b :: n) c rest).
    + simpl. rewrite Ac. rewrite (IH (c :: rest) pre); [|done|done|lia|lia].
      f_equal. simpl. lia.
    + rewrite <- app_assoc. exact E.
    + rewrite length_app. simpl. lia.
Qed.

Fixpoint name_pos (off : nat) (fs : list ulm_field) : list Z :=
  match fs with [] => [] | f :: fs => Z.of_nat off :: name_pos (off + field_len f) fs end.
Definition val_pos (off : nat) (fs : list ulm_field) : list Z :=
  map (λ e, e + 1) (eq_pos off fs).

Lemma name_loop_ok fs : ∀ ns vs pre post l,
  l = (pre ++ [ULM_SP]) ++ bytes (fields_text fs) ++ post → forallb field_ok fs = true →
  name_loop l (eq_pos (length (pre ++ [ULM_SP])) fs) ns vs =
    Ret (ns ++ name_pos (length (pre ++ [ULM_SP])) fs,
         vs ++ val_pos (length (pre ++ [ULM_SP])) fs, true).
Proof.
  induction fs as [|f fs IH]; intros ns vs pre post l E K.
  { cbn. by rewrite !app_nil_r. }
  cbn [forallb] in K. apply andb_true_iff in K as [Kf K]. cbn [fields_text] in E.
  rewrite bytes_app, <- app_assoc in E.
  assert (edg_wll_ULMisalphaext ULM_SP = false) as Bs by done.
  unfold field_ok in Kf. rewrite !andb_true_iff in Kf. destruct Kf as ((_ & A) & _).
  cbn [eq_pos name_loop]. set (p := length (pre ++ [ULM_SP])) in *.
  assert (p = length pre + 1)%nat as Hp by (unfold p; rewrite length_app; simpl; lia).
  rewrite (name_start_ok ULM_SP
    (ULM_EQ :: bytes (value_text f.2) ++ [ULM_SP] ++ bytes (fields_text fs) ++ post) l Bs
    (bytes f.1) pre); cycle 1.
  { rewrite E, field_bytes, <- !app_assoc. simpl. by rewrite <- !app_assoc. }
  { by rewrite forallb_bytes. }
  { lia. }
  { lia. }
  cbn [obind]. rewrite (byte_split l _ pre ULM_SP
    (bytes (field_text f) ++ bytes (fields_text fs) ++ post)); cycle 1.
  { rewrite E, <- app_assoc. done. }
  { lia. }
  cbn [obind]. change (isblank ULM_SP) with true. cbn iota.
  assert (∃ pre', (pre ++ [ULM_SP]) ++ bytes (field_text f) = pre' ++ [ULM_SP]) as [pre' Ep].
  { rewrite field_bytes. exists ((pre ++ [ULM_SP]) ++ bytes f.1 ++ ULM_EQ :: bytes (value_text f.2)).
    by rewrite <- !app_assoc. }
  assert (p + field_len f = length (pre' ++ [ULM_SP]))%nat as ->.
  { rewrite <- Ep, length_app. done. }
  rewrite (IH _ _ pre' post); [|by rewrite E, <- Ep, <- !app_assoc|done].
  unfold val_pos. cbn [name_pos eq_pos map].
  assert (p + field_len f = length (pre' ++ [ULM_SP]))%nat as ->.
  { rewrite <- Ep, length_app. done. }
  rewrite <- !app_assoc. simpl. repeat f_equal; lia.
Qed.

(** *** The delimiters are overwritten *)
Lemma set_nul_mid pre c post : set_nul (pre ++ c :: post) (Z.of_nat (length pre)) = pre ++ NUL :: post.
Proof. unfold set_nul. rewrite Nat2Z.id. by rewrite insert_app_r_alt, Nat.sub_diag by lia. Qed.

Lemma set_nul_split r i pre c post :
  r = pre ++ c :: post → i = Z.of_nat (length pre) → set_nul r i = pre ++ NUL :: post.
Proof. intros -> ->. apply set_nul_mid. Qed.

Lemma set_eqs a b fs : ∀ pre post,
  foldl set_nul (pre ++ fields_with a b fs ++ post) (eq_pos (length pre) fs) =
  pre ++ fields_with NUL b fs ++ post.
Proof.
  induction fs as [|f fs IH]; intros pre post; [done|]. cbn [eq_pos foldl].
  unfold fields_with at 1. cbn [map concat]. fold (fields_with a b fs).
  rewrite (set_nul_split _ _ (pre ++ bytes f.1) a
    (bytes (value_text f.2) ++ [b] ++ fields_with a b fs ++ post)); cycle 1.
  { unfold field_with. rewrite <- !app_assoc. simpl. by rewrite <- !app_assoc. }
  { by rewrite length_app. }
  replace (_ ++ NUL :: _) with ((pre ++ field_with NUL b f) ++ fields_with a b fs ++ post)
    by (unfold field_with; rewrite <- !app_assoc; simpl; by rewrite <- !app_assoc).
  rewrite <- (length_field_with NUL b f), <- length_app, IH.
  unfold fields_with. simpl. by rewrite <- !app_assoc.
Qed.

Lemma set_sps a b fs : ∀ pre post,
  foldl set_nul (pre ++ fields_with a b fs ++ post) (sp_pos (length pre) fs) =
  pre ++ fields_with a NUL fs ++ post.
Proof.
  induction fs as [|f fs IH]; intros pre post; [done|]. cbn [sp_pos foldl].
  unfold fields_with at 1. cbn [map concat]. fold (fields_with a b fs).
  rewrite (set_nul_split _ _ (pre ++ bytes f.1 ++ a :: bytes (value_text f.2)) b
    (fields_with a b fs ++ post)); cycle 1.
  { unfold field_with. rewrite <- !app_assoc. simpl. by rewrite <- !app_assoc. }
  { rewrite <- (length_field_with a b f). unfold field_with. rewrite !length_app. simpl.
    rewrite !length_app. simpl. lia. }
  replace (_ ++ NUL :: _) with ((pre ++ field_with a NUL f) ++ fields_with a b fs ++ post)
    by (unfold field_with; rewrite <- !app_assoc; simpl; by rewrite <- !app_assoc).
  rewrite <- (length_field_with a NUL f), <- length_app, IH.
  unfold fields_with. simpl. by rewrite <- !app_assoc.
Qed.

Lemma length_pos off fs :
  length (eq_pos off fs) = length fs ∧ length (sp_pos off fs) = length fs ∧
  length (name_pos off fs) = length fs.
Proof.
  revert off. induction fs as [|f fs IH]; intros off; [done|]. simpl.
  destruct (IH (off + field_len f)%nat) as (-> & -> & ->). done.
Qed.

(** ** The parsed table *)
Definition parsed (fs : list ulm_field) : ulm_fields :=
  {| raw := fields_with NUL NUL fs ++ [NUL];
     names := ALive (name_pos 0 fs); vals := ALive (val_pos 0 fs);
     num := Z.of_nat (length fs) |}.

Lemma no_nul_until s t : str_forall not_nul s = true →
  until_nul (bytes s ++ t) = s +:+ until_nul t.
Proof.
  induction s as [|c s IH]; [done|]. simpl. rewrite andb_true_iff. unfold not_nul at 1.
  rewrite negb_true_iff. intros [-> F]. by rewrite IH.
Qed.

Lemma not_nul_app s t : str_forall not_nul (s +:+ t) = str_forall not_nul s && str_forall not_nul t.
Proof. apply str_forall_app. Qed.

Lemma escape_no_nul v : str_forall not_nul v = true →
  str_forall not_nul (str_flat_map escape_ulm_char v) = true.
Proof.
  induction v as [|c v IH]; [done|]. simpl. rewrite andb_true_iff, not_nul_app. intros [C F].
  rewrite IH by done. revert C. clear. by all_chars c.
Qed.

Lemma value_no_nul v : value_ok v = true → str_forall not_nul (value_text v) = true.
Proof.
  destruct v as [v|v|v]; simpl; intros V.
  - apply andb_true_iff in V as [_ V]. revert V. apply str_forall_impl, quiet_not_nul.
  - by rewrite not_nul_app, escape_no_nul.
  - rewrite not_nul_app. by destruct (verbatim_escape v V) as [_ ->].
Qed.

Lemma name_no_nul f : field_ok f = true → str_forall not_nul f.1 = true.
Proof.
  unfold field_ok. rewrite !andb_true_iff. intros ((_ & A) & _). apply alphaext_forall in A.
  revert A. apply str_forall_impl, quiet_not_nul.
Qed.

Lemma field_no_nul f : field_ok f = true → str_forall not_nul (field_text f) = true.
Proof.
  intros K. unfold field_text. rewrite !not_nul_app, name_no_nul by done.
  unfold field_ok in K. rewrite !andb_true_iff in K. destruct K as (_ & V).
  by rewrite value_no_nul.
Qed.

Lemma fields_no_nul fs : forallb field_ok fs = true → str_forall not_nul (fields_text fs) = true.
Proof.
  induction fs as [|f fs IH]; [done|]. cbn [forallb fields_text]. rewrite andb_true_iff.
  intros [F K]. by rewrite not_nul_app, field_no_nul, IH.
Qed.

Lemma fields_text_app fs gs : fields_text (fs ++ gs) = fields_text fs +:+ fields_text gs.
Proof. induction fs as [|f fs IH]; [done|]. simpl. by rewrite IH, app_assoc_str. Qed.

Lemma log_line_text a b c : log_line a b c = fields_text (a ++ b ++ c) +:+ String ULM_LF "".
Proof. unfold log_line. by rewrite !fields_text_app, !app_assoc_str. Qed.

Lemma bytes_string s : until_nul (bytes s) = s ↔ str_forall not_nul s = true.
Proof.
  induction s as [|c s IH]; [done|]. simpl. unfold not_nul at 1. split.
  - destruct (Ascii.eqb c NUL); [done|]. intros [= E]. by apply IH.
  - rewrite andb_true_iff, negb_true_iff. intros [-> F]. f_equal. by apply IH.
Qed.

Lemma skip_blank_fields f fs t : field_ok f = true →
  skip_blank (fields_text (f :: fs) +:+ t) = fields_text (f :: fs) +:+ t.
Proof.
  intros K. unfold field_ok in K. rewrite !andb_true_iff in K. destruct K as ((N & A) & _).
  destruct f as [[|c n] v]; [done|]. cbn -[isblank]. simpl in A. apply andb_true_iff in A as [A _].
  by destruct (alphaext_quiet c A) as [_ ->].
Qed.

(** The counting loop reads the whole line. *)
Lemma scan_line fs l : l = bytes (fields_text fs) ++ [ULM_LF] →
  forallb field_ok fs = true → (length fs ≤ 100)%nat →
  scan_loop (length l) 0 (mk l 0 0 [] []) =
    Ret (mk (fields_with ULM_EQ ULM_SP fs ++ [NUL]) 0 0 (eq_pos 0 fs) (sp_pos 0 fs), true).
Proof.
  intros E K L.
  pose proof (fields_run fs [] [] [] [ULM_LF] l E K L L 1%nat) as R. simpl length in R.
  assert (length l = length (bytes (fields_text fs)) + 1)%nat as ->
    by (by rewrite E, length_app).
  change (Z.of_nat 0) with 0 in R. rewrite R. cbn [scan_loop].
  assert (0 + Z.of_nat (length (bytes (fields_text fs))) =
    Z.of_nat (length (bytes (fields_text fs)))) as -> by lia.
  unfold scan_char at 1. cbn [line mk]. rewrite (byte_split l _ _ _ [] E eq_refl).
  cbn - [set_nul]. rewrite (set_nul_split l _ _ _ [] E eq_refl). by rewrite fields_bytes.
Qed.

Lemma record_fields_ok f0 fs l size : forallb field_ok (f0 :: fs) = true →
  l = fields_with ULM_EQ ULM_SP (f0 :: fs) ++ [NUL] →
  record_fields {| raw := l; names := ANull; vals := ANull; num := 0 |} size
    (mk l 0 0 (eq_pos 0 (f0 :: fs)) (sp_pos 0 (f0 :: fs))) = Ret (parsed (f0 :: fs), ULM_PARSE_OK).
Proof.
  intros K E. pose proof K as K0. cbn [forallb] in K0. apply andb_true_iff in K0 as [K0 Ks].
  unfold field_ok in K0. rewrite !andb_true_iff in K0. destruct K0 as ((N & A) & _).
  assert (∃ c r, l = [] ++ c :: r ∧ Ascii.eqb c ULM_EQ = false) as (c & r & Ec & Nc).
  { rewrite E. unfold fields_with. simpl. unfold field_with at 1.
    destruct f0.1 as [|c n]; [done|]. simpl in A. apply andb_true_iff in A as [A _].
    do 2 eexists. split; [done|]. revert A. clear. by all_chars c. }
  assert (∃ pre, field_with ULM_EQ ULM_SP f0 = pre ++ [ULM_SP]) as [pre Ep].
  { unfold field_with. exists (bytes f0.1 ++ ULM_EQ :: bytes (value_text f0.2)).
    by rewrite <- !app_assoc. }
  assert (l = (pre ++ [ULM_SP]) ++ bytes (fields_text fs) ++ [NUL]) as El.
  { rewrite E, <- Ep, fields_bytes. unfold fields_with. simpl. by rewrite <- app_assoc. }
  pose proof (name_loop_ok fs [0] [Z.of_nat (length (bytes f0.1)) + 1] pre [NUL] l El Ks) as NL.
  rewrite <- Ep, length_field_with in NL.
  pose proof (set_eqs ULM_EQ ULM_SP (f0 :: fs) [] [NUL]) as Se.
  pose proof (set_sps NUL ULM_SP (f0 :: fs) [] [NUL]) as Ss.
  cbn [length app] in Se, Ss. rewrite <- E in Se.
  unfold record_fields, mk. cbn [iArrayEQ raw iArraySP qmCnt bsCnt].
  rewrite (byte_split l 0 [] c r Ec eq_refl).
  set (eqs := eq_pos 0 (f0 :: fs)) in *. set (sps := sp_pos 0 (f0 :: fs)) in *.
  assert (eqs = Z.of_nat (length (bytes f0.1)) :: eq_pos (field_len f0) fs) as Ee by done.
  rewrite Ee. cbn [obind]. rewrite Nc. simpl orb. cbn iota. rewrite NL. cbn [obind negb].
  rewrite <- Ee. change (raw (_ <| vals := _ |>)) with l. rewrite Se, Ss.
  unfold parsed. unfold eqs. destruct (length_pos 0 (f0 :: fs)) as (-> & _). done.
Qed.

(** The table that the parser makes of a line. *)
Lemma process_fields f0 fs :
  forallb field_ok (f0 :: fs) = true → (length (f0 :: fs) ≤ 100)%nat →
  edg_wll_ULMProcessParseTable
    (Some (edg_wll_ULMNewParseTable (fields_text (f0 :: fs) +:+ String ULM_LF ""))) =
  Ret (Some (parsed (f0 :: fs)), ULM_PARSE_OK).
Proof.
  intros K L. pose proof K as K0. cbn [forallb] in K0. apply andb_true_iff in K0 as [K0 _].
  unfold edg_wll_ULMNewParseTable. rewrite skip_blank_fields by done.
  set (t := fields_text (f0 :: fs) +:+ String ULM_LF "").
  assert (until_nul (bytes t) = t) as Et.
  { apply bytes_string. unfold t. by rewrite not_nul_app, fields_no_nul. }
  unfold edg_wll_ULMProcessParseTable. cbn [raw]. rewrite Et.
  assert ((String.length t =? 0)%nat = false) as ->.
  { apply Nat.eqb_neq. unfold t. rewrite length_app_str. simpl. lia. }
  unfold process_table. cbn [clear_fields free_array names vals obind raw].
  rewrite <- length_bytes. change (raw (_ <| num := 0 |>)) with (bytes t).
  fold (mk (bytes t) 0 0 [] []).
  rewrite (scan_line (f0 :: fs)); [|by unfold t; rewrite bytes_app|done|done]. cbn [obind].
  pose proof (record_fields_ok f0 fs _ (length (bytes t)) K eq_refl) as R.
  match type of R with ?a = _ => match goal with |- context [record_fields ?x ?y ?z] =>
    change (record_fields x y z) with a end end.
  by rewrite R.
Qed.

(** ** Reading the table *)
Lemma pos_nth fs1 f fs2 off :
  name_pos off (fs1 ++ f :: fs2) !! length fs1 =
    Some (Z.of_nat (off + length (fields_with NUL NUL fs1))) ∧
  val_pos off (fs1 ++ f :: fs2) !! length fs1 =
    Some (Z.of_nat (off + length (fields_with NUL NUL fs1 ++ bytes f.1 ++ [NUL]))).
Proof.
  revert off. induction fs1 as [|g fs1 IH]; intros off.
  - unfold val_pos. simpl. rewrite length_app. simpl. split; f_equal; lia.
  - simpl. unfold val_pos in *. simpl. destruct (IH (off + field_len g)%nat) as [-> ->].
    unfold fields_with. simpl. rewrite <- !app_assoc, !length_app, length_field_with.
    split; f_equal; lia.
Qed.

Lemma cstr_split r i pre s post :
  r = pre ++ bytes s ++ NUL :: post → i = Z.of_nat (length pre) → str_forall not_nul s = true →
  cstr_at r i = Ret s.
Proof.
  intros -> -> F. unfold cstr_at. rewrite !length_app.
  destruct (Z.ltb_spec (Z.of_nat (length pre)) 0); [lia|].
  destruct (Z.ltb_spec (Z.of_nat (length pre + (length (bytes s) + length (NUL :: post))))
    (Z.of_nat (length pre))); [lia|].
  cbn [orb]. rewrite Nat2Z.id, drop_app_length, no_nul_until by done. simpl.
  by rewrite app_nil_r_str.
Qed.

Lemma get_at_ok t l i z s : 0 ≤ i ≤ num t → l !! Z.to_nat i = Some z → cstr_at (raw t) z = Ret s →
  get_at t (ALive l) i = Ret (Some s).
Proof.
  intros I E C. unfold get_at, array_at.
  destruct (Z.ltb_spec i 0), (Z.ltb_spec (num t) i); try lia. cbn [orb].
  apply lookup_lt_Some in E as L.
  destruct (Z.leb_spec (Z.of_nat (length l)) i); [lia|]. cbn [orb]. rewrite E. simpl. by rewrite C.
Qed.

Lemma parsed_name fs1 f fs2 : forallb field_ok (fs1 ++ f :: fs2) = true →
  edg_wll_ULMGetNameAt (parsed (fs1 ++ f :: fs2)) (Z.of_nat (length fs1)) = Ret (Some f.1) ∧
  edg_wll_ULMGetValueAt (parsed (fs1 ++ f :: fs2)) (Z.of_nat (length fs1)) =
    Ret (Some (value_text f.2)).
Proof.
  intros K. destruct (pos_nth fs1 f fs2 0) as [En Ev].
  rewrite forallb_app in K. cbn [forallb] in K. rewrite !andb_true_iff in K.
  destruct K as (_ & K & _). pose proof (name_no_nul f K) as Nn.
  unfold field_ok in K. rewrite !andb_true_iff in K. destruct K as (_ & V).
  assert (raw (parsed (fs1 ++ f :: fs2)) = fields_with NUL NUL fs1 ++ bytes f.1 ++ NUL ::
    bytes (value_text f.2) ++ NUL :: fields_with NUL NUL fs2 ++ [NUL]) as Er.
  { unfold parsed, fields_with. cbn [raw]. rewrite map_app, concat_app. simpl.
    unfold field_with at 2. rewrite <- !app_assoc. simpl. by rewrite <- !app_assoc. }
  split.
  - eapply get_at_ok; [simpl; rewrite length_app; simpl; lia|by rewrite Nat2Z.id|].
    eapply cstr_split; [exact Er|done|done].
  - eapply get_at_ok; [simpl; rewrite length_app; simpl; lia|by rewrite Nat2Z.id|].
    eapply cstr_split; [|done|by apply value_no_nul].
    rewrite Er, <- !app_assoc. simpl. done.
Qed.

Lemma unescape_plain v : str_forall quiet v = true → unescape_ulm v = v.
Proof.
  induction v as [|c v IH]; [done|]. cbn [str_forall]. rewrite andb_true_iff. intros [Q F].
  cbn [unescape_ulm]. rewrite IH by done.
  unfold quiet in Q. rewrite negb_true_iff, !orb_false_iff in Q. by destruct Q as (((_ & ->) & _) & _).
Qed.

Lemma last_quote e : last_char (e +:+ String ULM_QM "") = Some ULM_QM.
Proof. unfold last_char. rewrite bytes_app. apply last_snoc. Qed.

(** The value that the reader makes of the text of a value. *)
Definition read_value (str : string) : option string :=
  let len := String.length str in
  let quoted := match str with
                | String c _ => Ascii.eqb c ULM_QM && bool_decide (last_char str = Some ULM_QM)
                | EmptyString => false
                end in
  let tmp := if quoted then (if (2 <? len)%nat then str_take (len - 2) (str_drop 1 str) else "")
             else str in
  if (2 <? len)%nat then glite_lbu_UnescapeULM (Some tmp) else Some tmp.

Lemma read_quoted v : str_forall not_nul v = true →
  read_value (String ULM_QM (str_flat_map escape_ulm_char v +:+ String ULM_QM "")) = Some v.
Proof.
  intros F. pose proof (ulm_back v) as B. unfold read_value.
  set (e := str_flat_map escape_ulm_char v) in *.
  assert (last_char (String ULM_QM (e +:+ String ULM_QM "")) = Some ULM_QM) as ->
    by apply (last_quote (String ULM_QM e)).
  rewrite Ascii.eqb_refl, bool_decide_true by done. cbn [andb String.length str_drop].
  rewrite length_app_str. cbn [String.length].
  replace (S (String.length e + 1) - 2)%nat with (String.length e) by lia.
  destruct (Nat.ltb_spec 2 (S (String.length e + 1))) as [L|L].
  - rewrite str_take_app. unfold glite_lbu_UnescapeULM.
    destruct e; [simpl in L; lia|]. by rewrite B.
  - destruct e; [by rewrite <- B|]. simpl in L. lia.
Qed.

Lemma read_value_ok v : value_ok v = true → read_value (value_text v) = Some (value_of v).
Proof.
  destruct v as [v|v|v]; cbn [value_ok value_text value_of]; intros V.
  - apply andb_true_iff in V as [N F]. pose proof (unescape_plain v F) as U.
    destruct v as [|c v]; [done|]. unfold read_value.
    assert (Ascii.eqb c ULM_QM = false) as ->.
    { simpl in F. apply andb_true_iff in F as [Q _]. unfold quiet in Q.
      rewrite negb_true_iff, !orb_false_iff in Q. by destruct Q as ((_ & ->) & _). }
    cbn [andb]. unfold glite_lbu_UnescapeULM. rewrite U. by case_match.
  - by apply read_quoted.
  - destruct (verbatim_escape v V) as [E F]. rewrite <- E at 1. by apply read_quoted.
Qed.

Lemma parsed_value fs1 f fs2 : forallb field_ok (fs1 ++ f :: fs2) = true →
  my_edg_wll_ULMGetValueAt (parsed (fs1 ++ f :: fs2)) (Z.of_nat (length fs1)) =
    Ret (Some (value_of f.2)).
Proof.
  intros K. unfold my_edg_wll_ULMGetValueAt. destruct (parsed_name fs1 f fs2 K) as [_ ->].
  cbn [obind]. fold (read_value (value_text f.2)). rewrite read_value_ok; [done|].
  rewrite forallb_app in K. cbn [forallb] in K. rewrite !andb_true_iff in K.
  destruct K as (_ & K & _). unfold field_ok in K. rewrite !andb_true_iff in K. tauto.
Qed.

Lemma fields_parsed fs :
  forallb field_ok fs = true → fs ≠ [] → (length fs ≤ 100)%nat →
  ∃ t, edg_wll_ULMProcessParseTable
         (Some (edg_wll_ULMNewParseTable (fields_text fs +:+ String ULM_LF ""))) =
       Ret (Some t, ULM_PARSE_OK) ∧
    num t = Z.of_nat (length fs) ∧
    ∀ i f, fs !! i = Some f →
      edg_wll_ULMGetNameAt t (Z.of_nat i) = Ret (Some f.1) ∧
      my_edg_wll_ULMGetValueAt t (Z.of_nat i) = Ret (Some (value_of f.2)).
Proof.
  intros K N L. exists (parsed fs). split; [|split; [done|]].
  - destruct fs as [|f0 fs']; [done|]. by apply process_fields.
  - intros i f Hi. apply list_elem_of_split_length in Hi as (fs1 & fs2 & E & ->).
    rewrite E in *. split; [by apply parsed_name|by apply parsed_value].
Qed.

(** C22: A log line of at most 100 fields is parsed to exactly these fields, in order: each
    name and each value are read back, whatever bytes the quoted values consist of. *)
Theorem log_line_parsed fix_ dguser var :
  forallb field_ok (fix_ ++ dguser ++ var) = true →
  fix_ ≠ [] → (length (fix_ ++ dguser ++ var) ≤ 100)%nat →
  ∃ t, edg_wll_ULMProcessParseTable
         (Some (edg_wll_ULMNewParseTable (log_line fix_ dguser var))) = Ret (Some t, ULM_PARSE_OK) ∧
    num t = Z.of_nat (length (fix_ ++ dguser ++ var)) ∧
    ∀ i f, (fix_ ++ dguser ++ var) !! i = Some f →
      edg_wll_ULMGetNameAt t (Z.of_nat i) = Ret (Some f.1) ∧
      my_edg_wll_ULMGetValueAt t (Z.of_nat i) = Ret (Some (value_of f.2)).
Proof.
  intros K N L. rewrite log_line_text. apply fields_parsed; [done| |done].
  by destruct fix_.
Qed.

Definition demo_var : list ulm_field :=
  [("DG.USERTAG.NAME", Quoted "note"); ("DG.USERTAG.VALUE", Quoted ("a \ = " +:+ String ULM_QM (String ULM_LF "b")))].
Definition demo_fix : list ulm_field :=
  EDG_WLL_FORMAT_COMMON "20080115123000.000123" "host.cz" "SYSTEM" 3 "UserInterface" ""
    "UserTag" "https://lb.cz:9000/abc" "UI=000001:NS=0000000000".

Lemma log_line_parsed_witness :
  ∃ t, edg_wll_ULMProcessParseTable (Some (edg_wll_ULMNewParseTable
         (log_line demo_fix (EDG_WLL_FORMAT_USER "/CN=me") demo_var))) = Ret (Some t, ULM_PARSE_OK) ∧
    my_edg_wll_ULMGetValueAt t 12 = Ret (Some ("a \ = " +:+ String ULM_QM (String ULM_LF "b"))).
Proof.
  destruct (log_line_parsed demo_fix (EDG_WLL_FORMAT_USER "/CN=me") demo_var
    ltac:(vm_compute; reflexivity) ltac:(done) ltac:(vm_compute; lia)) as (t & E & _ & R).
  exists t. split; [exact E|]. exact (proj2 (R 12%nat _ eq_refl)).
Defined.
