(* ===== verification/UlmProps.v ===== *)
(** * The parser on any line

    Which lines the parser of ULM lines copes with, what it makes of them, and the two
    kinds of lines that make it leave its memory. *)
From Stdlib Require Import ZArith Lia Ascii.
From stdpp Require Import base option list strings numbers.
From S2P Require Import Prelude CLib Escape Ulm UlmLine.
#[local] Open Scope Z_scope.

(** ** Quotes *)

(** The reference: outside of quotes, inside, behind a backslash inside. *)
Inductive quote_state :=
| Outside
| Inside
| Escaped.

#[export] Instance quote_state_eq_dec : EqDecision quote_state.
Proof. solve_decision. Defined.

Definition quote_step (q : quote_state) (c : ascii) : quote_state :=
  match q with
  | Outside => if Ascii.eqb c ULM_QM then Inside else Outside
  | Inside => if Ascii.eqb c ULM_QM then Outside else if Ascii.eqb c ULM_BS then Escaped else Inside
  | Escaped => Inside
  end.
Definition quotes (l : list ascii) : quote_state := foldl quote_step Outside l.

Definition qm_of (q : quote_state) : Z := match q with Outside => 0 | _ => 1 end.
Definition bs_of (q : quote_state) : Z := match q with Escaped => 1 | _ => 0 end.

Definition count (p : ascii → bool) (l : list ascii) : nat := length (List.filter p l).
Definition is_eq (c : ascii) : bool := Ascii.eqb c ULM_EQ.

(** ** The invariant of the counting loop *)

(** Only line feeds are overwritten. *)
Definition copied (a b : ascii) : Prop := a = b ∨ (a = ULM_LF ∧ b = NUL).

(** After the bytes [pre], of which the line has the copy [pre']. *)
Record loop_inv (pre pre' post : list ascii) (st : scan) : Prop := {
  li_line : line st = pre' ++ post;
  li_copied : Forall2 copied pre pre';
  li_qm : qmCnt st = qm_of (quotes pre);
  li_bs : bsCnt st = bs_of (quotes pre);
  li_esc : quotes pre = Escaped → ∃ m, pre' = m ++ [ULM_BS];
  li_neq : (length (iArrayEQ st) ≤ count is_eq pre)%nat;
  li_nsp : (length (iArraySP st) ≤ count isblank pre)%nat;
  li_eqs : Forall (λ e, ∃ a b, pre' = a ++ ULM_EQ :: b ∧ e = Z.of_nat (length a)) (iArrayEQ st);
  li_sps : Forall (λ e, 0 ≤ e < Z.of_nat (length pre)) (iArraySP st);
  li_first : match iArrayEQ st with [] => True | e0 :: es => Forall (λ e, e0 < e) es end
}.

Lemma quotes_snoc pre c : quotes (pre ++ [c]) = quote_step (quotes pre) c.
Proof. unfold quotes. by rewrite foldl_app. Qed.

Lemma count_app p l k : count p (l ++ k) = (count p l + count p k)%nat.
Proof. unfold count. by rewrite List.filter_app, length_app. Qed.

Lemma count_one p c : count p [c] = if p c then 1%nat else 0%nat.
Proof. unfold count. simpl. by destruct (p c). Qed.

Lemma copied_length l k : Forall2 copied l k → length k = length l.
Proof. intros F. symmetry. by eapply Forall2_length. Qed.

(** A round that keeps the arrays. *)
Lemma inv_keep pre pre' c c' post st st' :
  loop_inv pre pre' (c :: post) st → copied c c' → line st' = pre' ++ c' :: post →
  qmCnt st' = qm_of (quote_step (quotes pre) c) → bsCnt st' = bs_of (quote_step (quotes pre) c) →
  (quote_step (quotes pre) c = Escaped → c' = ULM_BS) →
  iArrayEQ st' = iArrayEQ st → iArraySP st' = iArraySP st →
  loop_inv (pre ++ [c]) (pre' ++ [c']) post st'.
Proof.
  intros [] C L Q B E He Hs. split; rewrite ?quotes_snoc, ?count_app, ?He, ?Hs; try done; try lia.
  - by rewrite L, <- app_assoc.
  - apply Forall2_app; [done|by constructor].
  - intros X. exists pre'. by rewrite E.
  - eapply Forall_impl; [|eassumption]. intros e (a & b & -> & ->). exists a, (b ++ [c']).
    by rewrite <- app_assoc.
  - eapply Forall_impl; [|eassumption]. intros e X. rewrite length_app. simpl in *. lia.
Qed.

(** A round that pushes the position of a delimiter. *)
Lemma inv_push_eq pre pre' post st :
  loop_inv pre pre' (ULM_EQ :: post) st → quotes pre = Outside →
  loop_inv (pre ++ [ULM_EQ]) (pre' ++ [ULM_EQ]) post
    (st <| iArrayEQ := iArrayEQ st ++ [Z.of_nat (length pre)] |>).
Proof.
  intros I O. pose proof (inv_keep pre pre' ULM_EQ ULM_EQ post st st I) as K.
  destruct I. rewrite O in *. destruct K; try done; [by left|].
  split; cbn; try done.
  - rewrite length_app. rewrite count_app. simpl. unfold count at 2. simpl. lia.
  - apply Forall_app. split; [done|]. constructor; [|done]. exists pre', []. split; [done|].
    by rewrite (copied_length _ _ li_copied0).
  - destruct (iArrayEQ st) as [|e0 es]; simpl; [done|]. apply Forall_app. split; [done|].
    constructor; [|done]. inversion li_eqs0 as [|? ? (a & b & -> & ->)]; subst.
    rewrite <- (copied_length _ _ li_copied0), length_app. simpl. lia.
Qed.

Lemma inv_push_sp pre pre' c post st :
  loop_inv pre pre' (c :: post) st → quotes pre = Outside → isblank c = true →
  loop_inv (pre ++ [c]) (pre' ++ [c]) post
    (st <| iArraySP := iArraySP st ++ [Z.of_nat (length pre)] |>).
Proof.
  intros I O B. assert (Ascii.eqb c ULM_QM = false) as Q.
  { revert B. clear. by all_chars c. }
  pose proof (inv_keep pre pre' c c post st st I) as K.
  destruct I. rewrite O in *. simpl in K. rewrite Q in K. destruct K; try done; [by left|].
  split; cbn; try done.
  - rewrite length_app, count_app, count_one, B. simpl. lia.
  - apply Forall_app. split; [done|]. constructor; [|done]. rewrite length_app. simpl. lia.
Qed.

(** The bytes around the position. *)
Lemma inv_byte pre pre' c post st : loop_inv pre pre' (c :: post) st →
  byte_at (line st) (Z.of_nat (length pre)) = Ret c.
Proof.
  intros []. rewrite li_line0, <- (copied_length _ _ li_copied0). apply byte_mid.
Qed.

Lemma inv_next_byte pre pre' c post st : loop_inv pre pre' (c :: post) st →
  ∃ n, byte_at (line st) (Z.of_nat (length pre) + 1) = Ret n.
Proof.
  intros []. eexists. apply byte_ok.
  rewrite li_line0, <- (copied_length _ _ li_copied0), length_app. simpl. lia.
Qed.

Lemma inv_prev_byte pre pre' post st : loop_inv pre pre' post st → pre ≠ [] →
  ∃ m p, pre' = m ++ [p] ∧ byte_at (line st) (Z.of_nat (length pre) - 1) = Ret p.
Proof.
  intros [] N. destruct pre' as [|x r] eqn:E using rev_ind.
  - apply Forall2_nil_inv_r in li_copied0. done.
  - exists r, x. split; [done|]. eapply byte_split; [by rewrite li_line0, <- app_assoc|].
    rewrite <- (copied_length _ _ li_copied0), length_app. simpl. lia.
Qed.

(** The test of the byte before does not matter: [bsCnt] is 0 behind the round. *)
Lemma inv_escaped pre pre' post st : loop_inv pre pre' post st → pre ≠ [] →
  escaped st (Z.of_nat (length pre)) = Ret (st <| bsCnt := 0 |>).
Proof.
  intros I N. destruct (inv_prev_byte _ _ _ _ I N) as (m & p & E & B). unfold escaped.
  rewrite B. cbn [obind]. destruct I. destruct (Ascii.eqb_spec p ULM_BS) as [|X]; [done|].
  assert (bsCnt st = 0) as Z0.
  { rewrite li_bs0. destruct (quotes pre) eqn:Q; [done|done|].
    destruct (li_esc0 eq_refl) as [m' Em]. rewrite E in Em. by apply app_inj_tail in Em as [_ ->]. }
  clear - Z0. destruct st. cbn in *. by rewrite Z0.
Qed.

Lemma inside_not_first pre : quotes pre ≠ Outside → pre ≠ [].
Proof. by intros N ->. Qed.

(** A byte without a meaning. *)
Lemma inv_other pre pre' c post st : loop_inv pre pre' (c :: post) st →
  Ascii.eqb c ULM_QM = false → Ascii.eqb c ULM_BS = false →
  loop_inv (pre ++ [c]) (pre' ++ [c]) post (st <| bsCnt := 0 |>).
Proof.
  intros I Q B. apply (inv_keep pre pre' c c post st _ I); try done; [by left| | | |].
  - destruct I. done.
  - destruct I. cbn. rewrite li_qm0. destruct (quotes pre); simpl; by rewrite ?Q, ?B.
  - destruct (quotes pre); simpl; by rewrite ?Q, ?B.
  - destruct (quotes pre); simpl; by rewrite ?Q, ?B.
Qed.

Definition advances (pre pre' : list ascii) (c : ascii) (post : list ascii) (st : scan) : Prop :=
  ∃ st' ok, scan_char st (Z.of_nat (length pre)) = Ret (st', ok) ∧
    length (line st') = length (line st) ∧
    (ok = true → ∃ c', loop_inv (pre ++ [c]) (pre' ++ [c']) post st').

Lemma adv_other pre pre' c post st :
  loop_inv pre pre' (c :: post) st → pre ≠ [] →
  Ascii.eqb c ULM_QM = false → Ascii.eqb c ULM_BS = false →
  ∃ st' ok, (let! st := escaped st (Z.of_nat (length pre)) in Ret (st, true)) = Ret (st', ok) ∧
    length (line st') = length (line st) ∧
    (ok = true → ∃ c', loop_inv (pre ++ [c]) (pre' ++ [c']) post st').
Proof.
  intros I N Q B. rewrite (inv_escaped _ _ _ _ I N). cbn [obind]. do 2 eexists.
  split; [done|]. split; [done|]. intros _. exists c. by apply inv_other.
Qed.

Lemma qm_outside q : (qm_of q =? 0) = bool_decide (q = Outside).
Proof. by destruct q. Qed.

Ltac stops := do 2 eexists; split; [reflexivity|split; [done|discriminate]].

Lemma adv_blank pre pre' c post st : loop_inv pre pre' (c :: post) st →
  (count isblank (pre ++ [c]) ≤ 100)%nat → isblank c = true → advances pre pre' c post st.
Proof.
  intros I L B. unfold advances, scan_char. rewrite (inv_byte _ _ _ _ _ I). cbn [obind].
  fold (isblank c). rewrite B. rewrite (li_qm _ _ _ _ I), qm_outside.
  assert (Ascii.eqb c ULM_QM = false ∧ Ascii.eqb c ULM_BS = false) as [Q S].
  { revert B. clear. by all_chars c. }
  case_bool_decide as O.
  - rewrite push_ok.
    + do 2 eexists. split; [reflexivity|]. split; [done|]. intros _. exists c. by apply inv_push_sp.
    + rewrite count_app, count_one, B in L. pose proof (li_nsp _ _ _ _ I). lia.
  - apply adv_other; [done|by apply inside_not_first|done|done].
Qed.

Lemma adv_eq pre pre' post st : loop_inv pre pre' (ULM_EQ :: post) st →
  (count is_eq (pre ++ [ULM_EQ]) ≤ 100)%nat → advances pre pre' ULM_EQ post st.
Proof.
  intros I L. unfold advances, scan_char. rewrite (inv_byte _ _ _ _ _ I). cbn - [byte_at escaped push].
  destruct (Z.eqb_spec (Z.of_nat (length pre)) 0) as [|N]; [stops|].
  assert (pre ≠ []) as N' by (by intros ->).
  rewrite (li_qm _ _ _ _ I), qm_outside. case_bool_decide as O.
  - destruct (inv_prev_byte _ _ _ _ I N') as (m & p & _ & ->).
    destruct (inv_next_byte _ _ _ _ _ I) as [n ->]. cbn - [push].
    destruct (isblank p || _); [stops|]. destruct (isblank n || _); [stops|].
    rewrite push_ok.
    + do 2 eexists. split; [reflexivity|]. split; [done|]. intros _. exists ULM_EQ.
      by apply inv_push_eq.
    + rewrite count_app, count_one in L. simpl in L. pose proof (li_neq _ _ _ _ I). lia.
  - by apply adv_other.
Qed.

Lemma adv_lf pre pre' post st : loop_inv pre pre' (ULM_LF :: post) st →
  advances pre pre' ULM_LF post st.
Proof.
  intros I. unfold advances, scan_char. rewrite (inv_byte _ _ _ _ _ I).
  cbn - [escaped set_nul]. rewrite (li_qm _ _ _ _ I), qm_outside. case_bool_decide as O.
  - pose proof (li_line _ _ _ _ I) as El. pose proof (copied_length _ _ (li_copied _ _ _ _ I)) as Ec.
    rewrite (set_nul_split (line st) _ pre' ULM_LF post) by (rewrite ?Ec; done).
    do 2 eexists. split; [reflexivity|]. split; [by rewrite El; cbn; rewrite !length_app|].
    intros _. exists NUL. pose proof (li_qm _ _ _ _ I). pose proof (li_bs _ _ _ _ I).
    eapply inv_keep; try done; rewrite ?O in *; try done. by right.
  - apply adv_other; [done|by apply inside_not_first|done|done].
Qed.

Lemma adv_bs pre pre' post st : loop_inv pre pre' (ULM_BS :: post) st →
  advances pre pre' ULM_BS post st.
Proof.
  intros I. unfold advances, scan_char. rewrite (inv_byte _ _ _ _ _ I).
  cbn - [byte_at]. rewrite (li_qm _ _ _ _ I), qm_outside. case_bool_decide as O; [stops|].
  destruct (inv_prev_byte _ _ _ _ I (inside_not_first _ O)) as (m & p & Em & ->). cbn [obind].
  do 2 eexists. split; [reflexivity|]. split; [done|]. intros _. exists ULM_BS.
  pose proof (li_qm _ _ _ _ I) as Q. pose proof (li_bs _ _ _ _ I) as B.
  pose proof (li_esc _ _ _ _ I) as X.
  eapply inv_keep; try done; cbn; [by left|by destruct I| |].
  - rewrite Q. by destruct (quotes pre).
  - rewrite B. destruct (quotes pre); [done|by rewrite andb_false_r|].
    destruct (X eq_refl) as [m' E']. rewrite Em in E'. by apply app_inj_tail in E' as [_ ->].
Qed.

Lemma adv_qm pre pre' post st : loop_inv pre pre' (ULM_QM :: post) st →
  advances pre pre' ULM_QM post st.
Proof.
  intros I. unfold advances, scan_char. rewrite (inv_byte _ _ _ _ _ I).
  cbn - [byte_at escaped]. pose proof (li_qm _ _ _ _ I) as Q. pose proof (li_bs _ _ _ _ I) as B.
  rewrite Q, B. destruct (quotes pre) eqn:O; cbn - [byte_at escaped].
  - do 2 eexists. split; [reflexivity|]. split; [done|]. intros _. exists ULM_QM.
    eapply inv_keep; try done; rewrite ?O; try done; [by left|by destruct I].
  - destruct (inv_prev_byte _ _ _ _ I ltac:(by intros ->)) as (m & p & _ & Bp).
    unfold escaped. cbn - [byte_at]. rewrite Bp. cbn [obind].
    match goal with |- context [if ?t then ?a else st <| qmCnt := 1 - 1 |>] =>
      assert ((if t then a else st <| qmCnt := 1 - 1 |>) = st <| qmCnt := 1 - 1 |>) as ->
        by (destruct t; [|done]; clear - B; destruct st; cbn in *; by rewrite B) end.
    cbn - [byte_at]. destruct (inv_next_byte _ _ _ _ _ I) as [n ->]. cbn [obind].
    destruct (negb (isspace n) && _); [stops|].
    do 2 eexists. split; [reflexivity|]. split; [done|]. intros _. exists ULM_QM.
    eapply inv_keep; try done; rewrite ?O; try done; [by left|by destruct I].
  - rewrite (inv_escaped _ _ _ _ I) by (by intros ->). cbn [obind]. cbn.
    rewrite Q. cbn. do 2 eexists. split; [reflexivity|]. split; [done|]. intros _. exists ULM_QM.
    eapply inv_keep; try done; rewrite ?O; try done; [by left|by destruct I].
Qed.

Lemma adv_any pre pre' c post st : loop_inv pre pre' (c :: post) st →
  (count is_eq (pre ++ [c]) ≤ 100)%nat → (count isblank (pre ++ [c]) ≤ 100)%nat →
  advances pre pre' c post st.
Proof.
  intros I Le Ls. destruct (isblank c) eqn:B; [by apply adv_blank|].
  destruct (Ascii.eqb_spec c ULM_EQ) as [->|N1]; [by apply adv_eq|].
  destruct (Ascii.eqb_spec c ULM_LF) as [->|N2]; [by apply adv_lf|].
  destruct (Ascii.eqb_spec c ULM_BS) as [->|N3]; [by apply adv_bs|].
  destruct (Ascii.eqb_spec c ULM_QM) as [->|N4]; [by apply adv_qm|].
  apply Ascii.eqb_neq in N1, N2, N3, N4.
  unfold advances, scan_char. rewrite (inv_byte _ _ _ _ _ I). cbn [obind]. fold (isblank c).
  rewrite B, N1, N2, N3, N4. destruct (Z.eqb_spec (Z.of_nat (length pre)) 0) as [E|N].
  - do 2 eexists. split; [reflexivity|]. split; [done|]. intros _. exists c.
    pose proof (li_qm _ _ _ _ I) as Q. pose proof (li_bs _ _ _ _ I) as X.
    destruct pre; [|done]. simpl in Q, X.
    assert (quote_step (quotes []) c = Outside) as St by (unfold quotes, quote_step; simpl; by rewrite N4).
    eapply inv_keep; try done; rewrite ?St; try done; [by left|by destruct I].
  - apply adv_other; try done. by intros ->.
Qed.

(** ** The whole loop *)
Lemma count_le p l k : (count p l ≤ count p (l ++ k))%nat.
Proof. rewrite count_app. lia. Qed.

Lemma inv_loop post : ∀ pre pre' st, loop_inv pre pre' post st →
  (count is_eq (pre ++ post) ≤ 100)%nat → (count isblank (pre ++ post) ≤ 100)%nat →
  ∃ st' ok, scan_loop (length post) (Z.of_nat (length pre)) st = Ret (st', ok) ∧
    length (line st') = length (line st) ∧
    (ok = true → ∃ k, loop_inv (pre ++ post) k [] st').
Proof.
  induction post as [|c post IH]; intros pre pre' st I Le Ls.
  { exists st, true. split; [done|]. split; [done|]. intros _. exists pre'. by rewrite app_nil_r. }
  rewrite (cons_middle c pre post), app_assoc in Le, Ls |- *.
  destruct (adv_any pre pre' c post st I) as (st1 & ok & E & L & K).
  { pose proof (count_le is_eq (pre ++ [c]) post). lia. }
  { pose proof (count_le isblank (pre ++ [c]) post). lia. }
  cbn [scan_loop length]. rewrite E. cbn [obind]. destruct ok.
  - destruct (K eq_refl) as [c' I']. 
    destruct (IH _ _ _ I' Le Ls) as (st' & ok & E' & L' & K').
    exists st', ok. replace (Z.of_nat (length pre) + 1) with (Z.of_nat (length (pre ++ [c])))
      by (rewrite length_app; simpl; lia).
    split; [done|]. split; [congruence|done].
  - exists st1, false. done.
Qed.

Definition scan0 (l : list ascii) : scan := mk l 0 0 [] [].

Lemma inv_start l : loop_inv [] [] l (scan0 l).
Proof. by split. Qed.

(** ** The names *)
Lemma name_start_defined r p eq : ∀ fuel j,
  byte_at r p = Ret ULM_EQ → 0 ≤ p → p ≤ eq - j → eq - j ≤ Z.of_nat (length r) →
  (Z.to_nat (eq - j - p) < fuel)%nat →
  ∃ j', name_start fuel r eq j = Ret j' ∧ j ≤ j' ∧ p ≤ eq - j'.
Proof.
  induction fuel as [|fuel IH]; intros j B P0 P L F; [lia|]. cbn [name_start].
  rewrite (byte_ok r (eq - j)) by lia. cbn [obind].
  destruct (edg_wll_ULMisalphaext _) eqn:A; [|exists j; split; [done|lia]].
  destruct (decide (p = eq - j)) as [->|].
  { rewrite byte_ok in B by lia. injection B as B. rewrite B in A. done. }
  destruct (IH (j + 1)) as (j' & E & G & H); [done|lia|lia|lia|lia|].
  exists j'. split; [done|lia].
Qed.

Definition in_line (r : list ascii) (z : Z) : Prop := 0 ≤ z ≤ Z.of_nat (length r).

Lemma name_loop_defined r p eqs : ∀ ns vs,
  byte_at r p = Ret ULM_EQ → 0 ≤ p → Forall (λ e, p < e < Z.of_nat (length r)) eqs →
  Forall (in_line r) ns → Forall (in_line r) vs →
  ∃ ns' vs' ok, name_loop r eqs ns vs = Ret (ns', vs', ok) ∧
    Forall (in_line r) ns' ∧ Forall (in_line r) vs' ∧
    (ok = true → length ns' = (length ns + length eqs)%nat ∧
                 length vs' = (length vs + length eqs)%nat).
Proof.
  induction eqs as [|e eqs IH]; intros ns vs B P F Fn Fv; cbn [name_loop].
  { do 3 eexists. split; [done|]. split; [done|]. split; [done|]. simpl. lia. }
  inversion F as [|? ? Fe F']; subst.
  destruct (name_start_defined r p e (S (S (Z.to_nat e))) 1) as (j & -> & J1 & J2);
    [done|lia|lia|lia|lia|].
  cbn [obind]. rewrite byte_ok by lia. cbn [obind]. case_match.
  - destruct (IH (ns ++ [e - j + 1]) (vs ++ [e + 1])) as (ns' & vs' & ok & E & G & J & K); try done.
    { apply Forall_app. split; [done|]. constructor; [|done]. unfold in_line. lia. }
    { apply Forall_app. split; [done|]. constructor; [|done]. unfold in_line. lia. }
    exists ns', vs', ok. split; [done|]. split; [done|]. split; [done|]. intros O.
    specialize (K O). rewrite !length_app in K. simpl in *. lia.
  - do 3 eexists. split; [done|]. done.
Qed.

(** ** The table *)
Definition table_ok (t : ulm_fields) : Prop :=
  0 < num t ∧ ∃ ns vs, names t = ALive ns ∧ vals t = ALive vs ∧
    Z.of_nat (length ns) = num t ∧ Z.of_nat (length vs) = num t ∧
    Forall (in_line (raw t)) ns ∧ Forall (in_line (raw t)) vs.

Lemma foldl_set_nul_length ps r : length (foldl set_nul r ps) = length r.
Proof.
  revert r. induction ps as [|i ps IH]; intros r; simpl; [done|]. rewrite IH.
  unfold set_nul. apply length_insert.
Qed.

Lemma record_defined l k st size : loop_inv l k [] st → quotes l = Outside →
  ∃ t r, record_fields {| raw := line st; names := ANull; vals := ANull; num := 0 |} size st =
      Ret (t, r) ∧ (r = ULM_PARSE_OK ∧ table_ok t ∨ r = ULM_PARSE_ERROR).
Proof.
  intros I O. unfold record_fields. cbn [raw].
  destruct (iArrayEQ st) as [|e0 es] eqn:Ee; [do 2 eexists; split; [done|by right]|].
  destruct I. rewrite Ee in *. rewrite app_nil_r in li_line0. inversion li_eqs0 as [|? ? H0 Hs]; subst.
  destruct H0 as (a & b & Ea & ->). rewrite O in li_qm0, li_bs0.
  rewrite byte_ok by lia. cbn [obind]. case_match; [do 2 eexists; split; [done|by right]|].
  rewrite li_qm0, li_bs0. cbn [qm_of bs_of Z.eqb negb orb].
  destruct (name_loop_defined (line st) (Z.of_nat (length a)) es [0] [Z.of_nat (length a) + 1])
    as (ns & vs & ok & -> & Fn & Fv & K).
  { rewrite Ea. apply byte_mid. }
  { lia. }
  { rewrite Forall_forall in Hs, li_first0 |- *. intros e He. specialize (li_first0 e He).
    destruct (Hs e He) as (a' & b' & E' & ->). split; [done|]. rewrite E', length_app.
    simpl. lia. }
  { constructor; [|done]. unfold in_line. lia. }
  { constructor; [|done]. unfold in_line. rewrite Ea, length_app. simpl. lia. }
  cbn [obind]. destruct ok; cbn [negb]; [|do 2 eexists; split; [done|by right]].
  destruct (K eq_refl) as [Ln Lv]. do 2 eexists. split; [done|]. left. split; [done|].
  unfold table_ok. cbn [num names vals raw setter]. split; [simpl; lia|]. exists ns, vs.
  simpl in Ln, Lv. unfold in_line. cbn [raw]. cbn. rewrite !foldl_set_nul_length.
  unfold set_nul. rewrite !length_insert. repeat split; (done || simpl; lia).
Qed.

Lemma get_at_defined t l i : num t = Z.of_nat (length l) → Forall (in_line (raw t)) l → 0 ≤ i →
  i < num t → ∃ s, get_at t (ALive l) i = Ret (Some s).
Proof.
  intros N F I J. destruct (lookup_lt_is_Some_2 l (Z.to_nat i)) as [z Z]; [lia|].
  pose proof (proj1 (Forall_forall _ _) F z ltac:(by eapply list_elem_of_In, list_elem_of_lookup_2)) as L.
  eexists. eapply get_at_ok; [lia|exact Z|]. unfold cstr_at. unfold in_line in L.
  destruct (Z.ltb_spec z 0), (Z.ltb_spec (Z.of_nat (length (raw t))) z); try lia. done.
Qed.

Lemma skip_blank_forall p s : str_forall p s = true → str_forall p (skip_blank s) = true.
Proof.
  induction s as [|c s IH]; [done|]. simpl. rewrite andb_true_iff. intros [C F].
  destruct (isblank c); [by apply IH|]. simpl. by rewrite C, F.
Qed.

(** C23: A line of at most 100 blanks and 100 equal signs whose quotes are closed is parsed
    without a fault, whatever else it holds: the answer is an error, or every name and value
    of the table can be read; reading at the number of fields leaves the array. *)
Theorem ulm_parse_defined s :
  str_forall not_nul s = true →
  (count isblank (bytes (skip_blank s)) ≤ 100)%nat →
  (count is_eq (bytes (skip_blank s)) ≤ 100)%nat →
  quotes (bytes (skip_blank s)) = Outside →
  ∃ t r, edg_wll_ULMProcessParseTable (Some (edg_wll_ULMNewParseTable s)) = Ret (Some t, r) ∧
    (r = ULM_PARSE_ERROR ∨
     r = ULM_PARSE_OK ∧ edg_wll_ULMGetNameAt t (num t) = UB OutOfBounds ∧
     ∀ i, 0 ≤ i < num t → (∃ n, edg_wll_ULMGetNameAt t i = Ret (Some n)) ∧
                          (∃ v, edg_wll_ULMGetValueAt t i = Ret (Some v))).
Proof.
  intros F Ls Le O. apply skip_blank_forall in F. set (u := skip_blank s) in *.
  unfold edg_wll_ULMProcessParseTable, edg_wll_ULMNewParseTable. fold u. cbn [raw].
  rewrite (proj2 (bytes_string u) F).
  destruct (Nat.eqb_spec (String.length u) 0) as [|N]; [do 2 eexists; split; [done|by left]|].
  unfold process_table. cbn [clear_fields free_array names vals obind].
  change (raw (_ <| num := 0 |>)) with (bytes u). fold (mk (bytes u) 0 0 [] []).
  destruct (inv_loop (bytes u) [] [] (scan0 (bytes u)) (inv_start _) Le Ls) as (st & ok & E & _ & K).
  rewrite length_bytes in E. change (Z.of_nat (length [])) with 0 in E.
  unfold scan0 in E. rewrite E. cbn [obind].
  destruct ok; [|do 2 eexists; split; [done|by left]].
  destruct (K eq_refl) as [k I]. simpl app in I.
  destruct (record_defined (bytes u) k st (String.length u) I O) as (t & r & R & C).
  match type of R with ?a = _ => match goal with |- context [record_fields ?x ?y ?z] =>
    change (record_fields x y z) with a end end.
  rewrite R. cbn [obind]. exists t, r. split; [done|].
  destruct C as [[-> C]|]; [right|by left]. split; [done|].
  destruct C as (P & ns & vs & En & Ev & Ln & Lv & Fn & Fv).
  unfold edg_wll_ULMGetNameAt, edg_wll_ULMGetValueAt. rewrite En, Ev. split.
  - unfold get_at. destruct (Z.ltb_spec (num t) 0); [lia|]. rewrite Z.ltb_irrefl. cbn [orb].
    unfold array_at. destruct (Z.leb_spec (Z.of_nat (length ns)) (num t)); [|lia].
    by rewrite orb_true_r.
  - intros i [I1 I2]. split; by eapply get_at_defined.
Qed.

Lemma ulm_parse_defined_witness :
  ∃ t r, edg_wll_ULMProcessParseTable (Some (edg_wll_ULMNewParseTable "a junk=1  b=x")) =
      Ret (Some t, r) ∧
    (r = ULM_PARSE_ERROR ∨
     r = ULM_PARSE_OK ∧ edg_wll_ULMGetNameAt t (num t) = UB OutOfBounds ∧
     ∀ i, 0 ≤ i < num t → (∃ n, edg_wll_ULMGetNameAt t i = Ret (Some n)) ∧
                          (∃ v, edg_wll_ULMGetValueAt t i = Ret (Some v))).
Proof.
  apply (ulm_parse_defined "a junk=1  b=x"); [reflexivity| | |reflexivity]; vm_compute; lia.
Defined.

(** ** Lines that leave the memory *)

Lemma alphaext_not_nul c : edg_wll_ULMisalphaext c = true → not_nul c = true.
Proof. intros A. apply quiet_not_nul. by apply alphaext_quiet in A as [? _]. Qed.

Lemma first_byte f0 fs t : field_ok f0 = true →
  ∃ c r, bytes (fields_text (f0 :: fs) +:+ t) = c :: r ∧ Ascii.eqb c ULM_EQ = false.
Proof.
  intros K. unfold field_ok in K. rewrite !andb_true_iff in K. destruct K as ((N & A) & _).
  destruct f0 as [[|c n] v]; [done|]. cbn -[ULM_EQ edg_wll_ULMisalphaext] in *.
  apply andb_true_iff in A as [A _]. do 2 eexists. split; [done|]. revert A. clear. by all_chars c.
Qed.

(** The start of a quoted field whose value is not closed. *)
Lemma open_run e s n v pre l :
  l = pre ++ bytes n ++ ULM_EQ :: ULM_QM :: bytes (str_flat_map escape_ulm_char v) →
  n ≠ "" → str_forall edg_wll_ULMisalphaext n = true → str_forall not_nul v = true →
  (length e < 100)%nat →
  ∃ e', scan_run (Z.of_nat (length pre))
    (length (bytes n) + S (S (length (bytes (str_flat_map escape_ulm_char v)))))
    (mk l 0 0 e s) (mk l 1 0 (e ++ [e']) s).
Proof.
  intros E N A F L. eexists. eapply run_trans.
  { rewrite E. apply quiet_run. rewrite forallb_bytes. by apply alphaext_forall. }
  rewrite <- E, <- Nat2Z.inj_add. eapply run_cons.
  { rewrite (eq_char e s n (ULM_QM :: bytes (str_flat_map escape_ulm_char v)) pre l E N A)
      by (do 2 eexists; done). by rewrite push_ok. }
  set (pre' := pre ++ bytes n ++ [ULM_EQ]).
  assert (l = pre' ++ ULM_QM :: bytes (str_flat_map escape_ulm_char v)) as E'.
  { unfold pre'. rewrite <- !app_assoc. exact E. }
  assert (Z.of_nat (length pre + length (bytes n)) + 1 = Z.of_nat (length pre')) as ->.
  { unfold pre'. rewrite !length_app. simpl. lia. }
  eapply run_cons.
  { unfold scan_char. cbn [line mk]. rewrite E', byte_mid. reflexivity. }
  assert (Z.of_nat (length pre') + 1 = Z.of_nat (length (pre' ++ [ULM_QM]))) as ->.
  { rewrite length_app. simpl. lia. }
  fold (mk l 1 0 (e ++ [Z.of_nat (length pre + length (bytes n))]) s).
  cbn [qmCnt bsCnt line iArrayEQ iArraySP mk setter]. rewrite <- E'.
  apply (escaped_run _ _ v _ []); [|by destruct pre'|done].
  rewrite app_nil_r, <- app_assoc. exact E'.
Qed.

Lemma process_raw l : l ≠ "" → str_forall not_nul l = true →
  edg_wll_ULMProcessParseTable (Some {| raw := bytes l; names := ANull; vals := ANull; num := 0 |}) =
  let! '(st, ok) := scan_loop (length (bytes l)) 0 (scan0 (bytes l)) in
  let! '(t, r) :=
    if ok : bool
    then record_fields {| raw := line st; names := ANull; vals := ANull; num := 0 |}
           (length (bytes l)) st
    else Ret ({| raw := line st; names := ANull; vals := ANull; num := 0 |}, ULM_PARSE_ERROR) in
  Ret (Some t, r).
Proof.
  intros N F. unfold edg_wll_ULMProcessParseTable. cbn [raw].
  rewrite (proj2 (bytes_string l) F). destruct (Nat.eqb_spec (String.length l) 0) as [X|_].
  { by destruct l. }
  unfold process_table. cbn [clear_fields free_array names vals obind].
  rewrite <- length_bytes. change (raw (_ <| num := 0 |>)) with (bytes l).
  unfold scan0, mk. destruct (scan_loop _ _ _) as [[st ok]|]; [|done]. cbn [obind].
  by destruct ok.
Qed.

(** A log line whose last value lacks the closing quote, as a truncated one, is read
    behind its end: the error message shows the byte after the terminating NUL. *)
Theorem open_quote_read_past_end f0 fs n v :
  forallb field_ok (f0 :: fs) = true → (length (f0 :: fs) < 100)%nat →
  n ≠ "" → str_forall edg_wll_ULMisalphaext n = true → str_forall not_nul v = true →
  edg_wll_ULMProcessParseTable (Some (edg_wll_ULMNewParseTable
    (fields_text (f0 :: fs) +:+ n +:+ "=" +:+ String ULM_QM (str_flat_map escape_ulm_char v)))) =
  UB OutOfBounds.
Proof.
  intros K L N A F. pose proof K as K0. cbn [forallb] in K0. apply andb_true_iff in K0 as [K0 _].
  unfold edg_wll_ULMNewParseTable. rewrite skip_blank_fields by done.
  set (l := fields_text (f0 :: fs) +:+ _).
  assert (bytes l = bytes (fields_text (f0 :: fs)) ++ bytes n ++ ULM_EQ :: ULM_QM ::
    bytes (str_flat_map escape_ulm_char v)) as E by (unfold l; by rewrite !bytes_app).
  rewrite process_raw; cycle 1.
  { unfold l. by destruct f0 as [[|] ?]. }
  { unfold l. rewrite !not_nul_app, fields_no_nul by done. simpl. rewrite escape_no_nul by done.
    rewrite (str_forall_impl _ not_nul n alphaext_not_nul A). done. }
  pose proof (fields_run (f0 :: fs) [] [] [] _ (bytes l) E K ltac:(simpl in *; lia) ltac:(simpl in *; lia)) as R.
  destruct (length_pos 0 (f0 :: fs)) as (Pe & Ps & _).
  destruct (open_run (eq_pos 0 (f0 :: fs)) (sp_pos 0 (f0 :: fs)) n v _ (bytes l) E N A F)
    as [e' R']; [by rewrite Pe|].
  pose proof (run_trans _ _ _ _ _ _ R R' 0%nat) as RR. rewrite Nat.add_0_r in RR.
  assert (length (bytes (fields_text (f0 :: fs))) + (length (bytes n) +
    S (S (length (bytes (str_flat_map escape_ulm_char v))))) = length (bytes l))%nat as EL.
  { rewrite E, !length_app. simpl. lia. }
  rewrite EL in RR. change (Z.of_nat (length [])) with 0 in RR. cbn [app] in RR.
  unfold scan0. rewrite RR. cbn [scan_loop obind]. unfold record_fields. cbn [iArrayEQ mk eq_pos app].
  destruct (first_byte f0 fs (n +:+ "=" +:+ String ULM_QM (str_flat_map escape_ulm_char v)) K0)
    as (c & r & Ec & Nc). fold l in Ec.
  cbn [raw line mk]. rewrite (byte_split (bytes l) 0 [] c r Ec eq_refl). cbn [obind]. rewrite Nc.
  cbn [qmCnt bsCnt mk Z.eqb negb orb]. unfold byte_at.
  destruct (Z.ltb_spec (Z.of_nat (length (bytes l))) (Z.of_nat (length (bytes l)) + 1)); [|lia].
  by rewrite orb_true_r.
Qed.

Lemma open_quote_read_past_end_witness :
  edg_wll_ULMProcessParseTable (Some (edg_wll_ULMNewParseTable
    ("DATE=20080115123000.000123 HOST=" +:+ String ULM_QM "host.c"))) = UB OutOfBounds.
Proof.
  exact (open_quote_read_past_end ("DATE", Plain "20080115123000.000123") [] "HOST" "host.c"
    eq_refl ltac:(simpl; lia) ltac:(done) eq_refl eq_refl).
Defined.

(** A log line of more than 100 fields overflows the arrays on the stack: nothing
    compares the number of fields with [ULM_FIELDS_MAX]. *)
Theorem too_many_fields_overflow f0 fs :
  forallb field_ok (f0 :: fs) = true → (100 < length (f0 :: fs))%nat →
  edg_wll_ULMProcessParseTable (Some (edg_wll_ULMNewParseTable
    (fields_text (f0 :: fs) +:+ String ULM_LF ""))) = UB OutOfBounds.
Proof.
  intros K L. pose proof K as K0. cbn [forallb] in K0. apply andb_true_iff in K0 as [K0 _].
  unfold edg_wll_ULMNewParseTable. rewrite skip_blank_fields by done.
  set (l := fields_text (f0 :: fs) +:+ _). rewrite process_raw; cycle 1.
  { unfold l. by destruct f0 as [[|] ?]. }
  { unfold l. by rewrite not_nul_app, fields_no_nul. }
  set (a := take 100 (f0 :: fs)). destruct (drop 100 (f0 :: fs)) as [|g b] eqn:D.
  { apply (f_equal length) in D. rewrite length_drop in D. simpl in *. lia. }
  assert (f0 :: fs = a ++ g :: b) as Ef by (unfold a; rewrite <- D; by rewrite take_drop).
  assert (length a = 100%nat) as La by (unfold a; rewrite length_take; lia).
  clearbody a.
  rewrite Ef, forallb_app in K. cbn [forallb] in K. rewrite !andb_true_iff in K.
  destruct K as (Ka & Kg & _).
  unfold field_ok in Kg. rewrite !andb_true_iff in Kg. destruct Kg as ((N & A) & V).
  assert (bytes l = bytes (fields_text a) ++ bytes g.1 ++ ULM_EQ :: bytes (value_text g.2) ++
    ULM_SP :: bytes (fields_text b) ++ [ULM_LF]) as E.
  { unfold l. rewrite Ef, fields_text_app. cbn [fields_text]. rewrite !bytes_app, field_bytes.
    rewrite <- !app_assoc. simpl. by rewrite <- !app_assoc. }
  pose proof (fields_run a [] [] [] _ (bytes l) E Ka ltac:(rewrite La; cbn; lia) ltac:(rewrite La; cbn; lia)) as R.
  cbn [app length] in R. set (m := length (bytes (fields_text a))) in *.
  destruct (length_pos 0 a) as (Pe & _ & _).
  assert (scan_run (Z.of_nat 0) (m + length (bytes g.1)) (scan0 (bytes l))
    (mk (bytes l) 0 0 (eq_pos 0 a) (sp_pos 0 a))) as R1.
  { eapply run_trans; [exact R|]. rewrite E. apply quiet_run. rewrite forallb_bytes.
    by apply alphaext_forall. }
  destruct (value_head g.2 V) as (c & w & Hv & Bc).
  set (rest := S (length (bytes (value_text g.2) ++ ULM_SP :: bytes (fields_text b) ++ [ULM_LF]))).
  assert (length (bytes l) = (m + length (bytes g.1)) + rest)%nat as ->.
  { rewrite E, !length_app. unfold rest, m. simpl. rewrite !length_app. simpl. lia. }
  specialize (R1 rest). change (Z.of_nat 0) with 0 in R1. rewrite R1. unfold rest. cbn [scan_loop].
  replace (0 + Z.of_nat (m + length (bytes g.1))) with (Z.of_nat (m + length (bytes g.1)))
    by lia.
  unfold m. rewrite (eq_char (eq_pos 0 a) (sp_pos 0 a) g.1 _ (bytes (fields_text a)) (bytes l) E).
  - unfold push, ULM_FIELDS_MAX. rewrite Pe, La. done.
  - by intros Eg; rewrite Eg in N.
  - done.
  - rewrite Hv. by do 2 eexists.
Qed.

Definition tag_field : ulm_field := ("DG.TAG", Quoted "x").

Lemma too_many_fields_overflow_witness :
  edg_wll_ULMProcessParseTable (Some (edg_wll_ULMNewParseTable
    (fields_text (tag_field :: repeat tag_field 100) +:+ String ULM_LF ""))) = UB OutOfBounds.
Proof.
  exact (too_many_fields_overflow tag_field (repeat tag_field 100) eq_refl ltac:(vm_compute; lia)).
Defined.
