(* ===== verification/UlmDate.v ===== *)
(** * Dates of ULM lines

    The model of the dates of org.glite.lb.common/src/ulm_parse.c.  [gmtime] and [strftime]
    are the functions of the C library: [gmtime] counts the days of the Gregorian calendar.
    The conversion to a [double] is not modelled. *)
From Stdlib Require Import ZArith Lia Ascii.
From stdpp Require Import base option list strings numbers.
From S2P Require Import Prelude CLib Ulm UlmLine.
#[local] Open Scope Z_scope.

Definition ULM_DATE_STRING_LENGTH : nat := 21.

Definition u64 (z : Z) : Z := z mod 18446744073709551616.
Definition s64 (z : Z) : Z := (z - LONG_MIN) mod 18446744073709551616 + LONG_MIN.

(** ** Reading a date *)
Definition schar (c : ascii) : Z := if code c <? 128 then code c else code c - 256.
Definition DIG (c : ascii) : Z := schar c - 48.

Record date_parts := {
  year : Z; mon : Z; day : Z; hour : Z; min : Z; sec : Z; usec : Z
}.

Definition dig2 (s : string) (i : Z) : outcome Z :=
  let! a := byte_at (bytes s) i in
  let! b := byte_at (bytes s) (i + 1) in
  Ret (u32 (DIG a * 10 + DIG b)).

Definition edg_wll_ULMSplitDate (s : string) (usec0 : Z) : outcome date_parts :=
  let! a := byte_at (bytes s) 0 in
  let! b := byte_at (bytes s) 1 in
  let! c := byte_at (bytes s) 2 in
  let! d := byte_at (bytes s) 3 in
  let! mon := dig2 s 4 in
  let! day := dig2 s 6 in
  let! hour := dig2 s 8 in
  let! min := dig2 s 10 in
  let! sec := dig2 s 12 in
  let! dot := byte_at (bytes s) 14 in
  let usec := if Ascii.eqb dot "." then u64 (fst (strtol (str_drop 15 s))) else usec0 in
  Ret {| year := u32 (DIG a * 1000 + DIG b * 100 + DIG c * 10 + DIG d);
         mon := mon; day := day; hour := hour; min := min; sec := sec; usec := usec |}.

(** The seconds of a date: the computation in [unsigned int] and [unsigned long]. *)
Definition date_sec (p : date_parts) : Z :=
  let mon2 := u32 (p.(mon) - 2) in
  let '(mon, year) :=
    if s32 mon2 <=? 0 then (u32 (mon2 + 12), u32 (p.(year) - 1)) else (mon2, p.(year)) in
  let days := u32 (year / 4 - year / 100 + year / 400 + u32 (367 * mon) / 12 + p.(day)) in
  s64 (u64 (((days + u32 (year * 365) - 719499) * 24 + p.(hour)) * 60 + p.(min)) * 60
       + p.(sec)).

Definition edg_wll_ULMDateToTimeval (s : string) : outcome (Z * Z) :=
  let! p := edg_wll_ULMSplitDate s 0 in Ret (date_sec p, s64 p.(usec)).

(** ** The calendar *)
Definition leap (y : Z) : bool :=
  (y mod 4 =? 0) && (negb (y mod 100 =? 0) || (y mod 400 =? 0)).
Definition year_len (y : Z) : Z := if leap y then 366 else 365.

(** The year and the day of the year, from the day [d] of the year [y] on. *)
Fixpoint year_of (fuel : nat) (y d : Z) : Z * Z :=
  match fuel with
  | O => (y, d)
  | S fuel => if d <? year_len y then (y, d) else year_of fuel (y + 1) (d - year_len y)
  end.

Definition month_lens (b : bool) : list Z :=
  [31; if b then 29 else 28; 31; 30; 31; 30; 31; 31; 30; 31; 30; 31].
Fixpoint month_of (lens : list Z) (m d : Z) : Z * Z :=
  match lens with
  | [] => (m, d)
  | len :: lens => if d <? len then (m, d) else month_of lens (m + 1) (d - len)
  end.

(** [struct tm], with the year and the month as they are printed. *)
Record tm := { tm_year : Z; tm_mon : Z; tm_mday : Z; tm_hour : Z; tm_min : Z; tm_sec : Z }.

(** [NULL] if the year does not fit. *)
Definition gmtime (t : Z) : option tm :=
  let d := t / 86400 in
  let '(y, yday) := year_of (S (Z.to_nat (d / 365))) 1970 d in
  let '(m, mday) := month_of (month_lens (leap y)) 1 yday in
  if INT_MAX <? y - 1900 then None else
  Some {| tm_year := y; tm_mon := m; tm_mday := mday + 1;
          tm_hour := t mod 86400 / 3600; tm_min := t mod 3600 / 60; tm_sec := t mod 60 |}.

(** [strftime(dstr,max,"%Y%m%d%H%M%S",tp)]: nothing is kept of a text that does not fit. *)
Definition strftime_date (max : nat) (t : tm) : option string :=
  let s := asprintf "%d%02d%02d%02d%02d%02d"
    [PInt t.(tm_year); PInt t.(tm_mon); PInt t.(tm_mday);
     PInt t.(tm_hour); PInt t.(tm_min); PInt t.(tm_sec)] in
  if (String.length s <? max)%nat then Some s else None.

(** The result and the text. *)
Definition edg_wll_ULMTimevalToDate (sec usec : Z) : Z * option string :=
  if (sec <? 0) || (usec <? 0) || (999999 <? usec) then (1, None) else
  match gmtime sec with
  | None => (1, None)
  | Some tp =>
    match strftime_date (ULM_DATE_STRING_LENGTH + 1 - 7) tp with
    | None => (1, None)
    | Some s =>
      if (String.length s =? ULM_DATE_STRING_LENGTH - 7)%nat
      then (0, Some (s +:+ asprintf ".%06ld" [PInt usec])) else (1, None)
    end
  end.

(** ** The days before a year *)
Definition leaps (y : Z) : Z := y / 4 - y / 100 + y / 400.
Definition days_before (y : Z) : Z := 365 * (y - 1970) + leaps (y - 1) - leaps 1969.

Ltac divs := Z.to_euclidean_division_equations; lia.

Lemma div_step y k : 0 < k → y / k = (y - 1) / k + (if y mod k =? 0 then 1 else 0).
Proof.
  intros K. pose proof (Z.div_mod y k ltac:(lia)). pose proof (Z.mod_pos_bound y k K).
  destruct (Z.eqb_spec (y mod k) 0).
  - assert (y / k - 1 = (y - 1) / k); [|lia]. apply Z.div_unique with (r := k - 1); lia.
  - assert (y / k = (y - 1) / k); [|lia]. apply Z.div_unique with (r := y mod k - 1); lia.
Qed.

Lemma leaps_step y : leaps y = leaps (y - 1) + (if leap y then 1 else 0).
Proof.
  unfold leaps, leap. rewrite (div_step y 4), (div_step y 100), (div_step y 400) by lia.
  destruct (Z.eqb_spec (y mod 4) 0), (Z.eqb_spec (y mod 100) 0), (Z.eqb_spec (y mod 400) 0);
    simpl; try lia; exfalso; divs.
Qed.

Lemma days_before_step y : days_before (y + 1) = days_before y + year_len y.
Proof.
  unfold days_before, year_len. replace (y + 1 - 1) with y by lia. rewrite (leaps_step y).
  destruct (leap y); lia.
Qed.

Lemma year_len_bounds y : 365 ≤ year_len y ≤ 366.
Proof. unfold year_len. destruct (leap y); lia. Qed.

Lemma year_of_spec fuel : ∀ y d, 0 ≤ d → d < 365 * Z.of_nat fuel →
  let '(y', d') := year_of fuel y d in
  y ≤ y' ∧ 0 ≤ d' < year_len y' ∧ days_before y' + d' = days_before y + d.
Proof.
  induction fuel as [|fuel IH]; intros y d D F; [simpl in F; lia|]. cbn [year_of].
  pose proof (year_len_bounds y). destruct (Z.ltb_spec d (year_len y)); [lia|].
  specialize (IH (y + 1) (d - year_len y) ltac:(lia) ltac:(lia)).
  destruct (year_of fuel _ _) as [y' d']. rewrite days_before_step in IH. lia.
Qed.

Lemma days_before_mono y z : y ≤ z → days_before y + 365 * (z - y) ≤ days_before z.
Proof.
  intros L.
  assert (∀ n : nat, days_before y + 365 * Z.of_nat n ≤ days_before (y + Z.of_nat n)) as S.
  { clear. induction n as [|n IH]; [change (Z.of_nat 0) with 0; rewrite (Z.add_0_r y); lia|].
    rewrite Nat2Z.inj_succ. replace (y + Z.succ (Z.of_nat n)) with (y + Z.of_nat n + 1) by lia.
    rewrite days_before_step. pose proof (year_len_bounds (y + Z.of_nat n)). lia. }
  specialize (S (Z.to_nat (z - y))). rewrite Z2Nat.id in S by lia.
  replace (y + (z - y)) with z in S by lia. lia.
Qed.

(** The days of a year before a month. *)
Definition days_before_month (b : bool) (m : Z) : Z :=
  foldr Z.add 0 (take (Z.to_nat (m - 1)) (month_lens b)).

Lemma month_of_spec (b : bool) d : 0 ≤ d < (if b then 366 else 365) →
  let '(m, e) := month_of (month_lens b) 1 d in
  1 ≤ m ≤ 12 ∧ 0 ≤ e < 31 ∧ days_before_month b m + e = d.
Proof.
  intros D. cbn [month_of month_lens].
  repeat match goal with |- context [?x <? ?y] => destruct (Z.ltb_spec x y) end;
    destruct b; try lia;
    match goal with |- context [days_before_month ?c ?m] =>
      let v := eval vm_compute in (days_before_month c m) in change (days_before_month c m) with v
    end; lia.
Qed.

(** ** The text *)
Definition two (n : Z) : string := String (digit_char (n / 10)) (String (digit_char (n mod 10)) "").
Definition four (n : Z) : string :=
  String (digit_char (n / 1000)) (String (digit_char (n / 100 mod 10))
    (String (digit_char (n / 10 mod 10)) (String (digit_char (n mod 10)) ""))).

Lemma fmt_two n : 0 ≤ n < 100 → fmt_d true 2 n = two n.
Proof.
  intros N. assert (Forall (λ n, fmt_d true 2 n = two n) (seqZ 0 100)) as F.
  { apply (bool_decide_unpack _). vm_compute. exact I. }
  rewrite Forall_forall in F. apply F. apply list_elem_of_In, elem_of_seqZ. lia.
Qed.

Lemma fmt_four n : 1000 ≤ n < 10000 → fmt_d false 0 n = four n.
Proof.
  intros N. unfold fmt_d, print_nonneg, digits_fuel.
  destruct (Z.ltb_spec n 0); [lia|]. rewrite Z.abs_eq by lia.
  assert (9 ≤ Z.log2 n) as L by (apply (Z.log2_le_mono 512); lia).
  replace (Z.to_nat (Z.log2 n)) with (S (S (S (Z.to_nat (Z.log2 n - 3))))) by lia.
  cbn [String.append str_repeat Nat.sub]. unfold four.
  cbn [digits_aux]. rewrite !Z.div_div by lia. cbn [Z.mul Pos.mul].
  repeat match goal with |- context [?x <? ?y] => destruct (Z.ltb_spec x y) end; try divs.
  done.
Qed.

Lemma digits_aux_length fuel n acc : (String.length acc ≤ String.length (digits_aux fuel n acc))%nat.
Proof.
  revert n acc. induction fuel as [|fuel IH]; intros n acc; simpl; [lia|].
  destruct (n <? 10); simpl; [lia|]. etrans; [|apply IH]. simpl. lia.
Qed.

Lemma fmt_five n : 10000 ≤ n → (5 ≤ String.length (fmt_d false 0 n))%nat.
Proof.
  intros N. unfold fmt_d, print_nonneg, digits_fuel.
  destruct (Z.ltb_spec n 0); [lia|]. rewrite Z.abs_eq by lia.
  assert (13 ≤ Z.log2 n) as L by (apply (Z.log2_le_mono 8192); lia).
  replace (Z.to_nat (Z.log2 n)) with (S (S (S (S (Z.to_nat (Z.log2 n - 4)))))) by lia.
  cbn [String.append str_repeat Nat.sub].
  cbn [digits_aux]. rewrite !Z.div_div by lia. cbn [Z.mul Pos.mul].
  repeat match goal with |- context [?x <? ?y] => destruct (Z.ltb_spec x y) end; try divs;
    [simpl; lia|].
  etrans; [|apply digits_aux_length]. simpl. lia.
Qed.

Definition date_text (y m d h mi s : Z) : string :=
  four y +:+ two m +:+ two d +:+ two h +:+ two mi +:+ two s.

Lemma strftime_four t : 1000 ≤ tm_year t < 10000 → 0 ≤ tm_mon t < 100 → 0 ≤ tm_mday t < 100 →
  0 ≤ tm_hour t < 100 → 0 ≤ tm_min t < 100 → 0 ≤ tm_sec t < 100 →
  strftime_date 15 t =
    Some (date_text (tm_year t) (tm_mon t) (tm_mday t) (tm_hour t) (tm_min t) (tm_sec t)).
Proof.
  intros. unfold strftime_date. printf_simpl. rewrite fmt_four, !fmt_two by done.
  by rewrite app_nil_r_str.
Qed.

Lemma fmt_width n w : (w ≤ String.length (fmt_d true w n))%nat.
Proof. unfold fmt_d. rewrite !length_app_str, length_str_repeat. lia. Qed.

Lemma strftime_five t : 10000 ≤ tm_year t → strftime_date 15 t = None.
Proof.
  intros Y. unfold strftime_date. printf_simpl.
  destruct (Nat.ltb_spec (String.length (fmt_d false 0 (tm_year t) +:+ fmt_d true 2 (tm_mon t) +:+
    fmt_d true 2 (tm_mday t) +:+ fmt_d true 2 (tm_hour t) +:+ fmt_d true 2 (tm_min t) +:+
    fmt_d true 2 (tm_sec t) +:+ "")) 15) as [L|]; [|done].
  rewrite !length_app_str in L. pose proof (fmt_five _ Y).
  pose proof (fmt_width (tm_mon t) 2). pose proof (fmt_width (tm_mday t) 2).
  pose proof (fmt_width (tm_hour t) 2). pose proof (fmt_width (tm_min t) 2).
  pose proof (fmt_width (tm_sec t) 2). lia.
Qed.

(** *** Reading the text *)
Lemma byte_lookup r i c : 0 ≤ i → r !! Z.to_nat i = Some c → byte_at r i = Ret c.
Proof.
  intros I L. apply lookup_lt_Some in L as B. rewrite byte_ok by lia. by rewrite L.
Qed.

Lemma DIG_digit d : 0 ≤ d < 10 → DIG (digit_char d) = d.
Proof. intros D. by apply (digit_cases (λ d, DIG (digit_char d) = d)). Qed.

Lemma mod_digit n : 0 ≤ n mod 10 < 10.
Proof. apply Z.mod_pos_bound. lia. Qed.

Lemma dig2_two pre n post i s : bytes s = bytes pre ++ bytes (two n) ++ post →
  i = Z.of_nat (String.length pre) → 0 ≤ n < 100 → dig2 s i = Ret n.
Proof.
  intros E -> N. unfold dig2, two in *. simpl in E.
  rewrite (byte_split _ _ (bytes pre) (digit_char (n / 10)) (digit_char (n mod 10) :: post) E)
    by (by rewrite length_bytes).
  rewrite (byte_split _ _ (bytes pre ++ [digit_char (n / 10)]) (digit_char (n mod 10)) post);
    [|by rewrite <- app_assoc|rewrite length_app, length_bytes; simpl; lia].
  cbn [obind]. pose proof (mod_digit n). rewrite !DIG_digit by (try divs; lia).
  rewrite u32_id by (unfold_int; divs). f_equal. divs.
Qed.

Definition dated (y m d h mi s u : Z) : string :=
  date_text y m d h mi s +:+ "." +:+ fmt_d true 6 u.

Lemma split_dated y m d h mi s u :
  1000 ≤ y < 10000 → 0 ≤ m < 100 → 0 ≤ d < 100 → 0 ≤ h < 100 → 0 ≤ mi < 100 → 0 ≤ s < 100 →
  0 ≤ u ≤ 999999 →
  edg_wll_ULMSplitDate (dated y m d h mi s u) 0 =
    Ret {| year := y; mon := m; day := d; hour := h; min := mi; sec := s; usec := u |}.
Proof.
  intros Y M D H Mi S U. set (t := dated y m d h mi s u).
  set (f := bytes (fmt_d true 6 u)).
  unfold edg_wll_ULMSplitDate.
  assert (bytes t = digit_char (y / 1000) :: digit_char (y / 100 mod 10) ::
    digit_char (y / 10 mod 10) :: digit_char (y mod 10) ::
    bytes (two m) ++ bytes (two d) ++ bytes (two h) ++ bytes (two mi) ++ bytes (two s) ++
    "."%char :: f) as E by done.
  rewrite (byte_lookup (bytes t) 0 (digit_char (y / 1000))) by (rewrite ?E; (lia || done)).
  rewrite (byte_lookup (bytes t) 1 (digit_char (y / 100 mod 10))) by (rewrite ?E; (lia || done)).
  rewrite (byte_lookup (bytes t) 2 (digit_char (y / 10 mod 10))) by (rewrite ?E; (lia || done)).
  rewrite (byte_lookup (bytes t) 3 (digit_char (y mod 10))) by (rewrite ?E; (lia || done)).
  rewrite (byte_lookup (bytes t) 14 "."%char) by (rewrite ?E; (lia || done)).
  rewrite (dig2_two (four y) m (bytes (two d) ++ bytes (two h) ++ bytes (two mi) ++
    bytes (two s) ++ "."%char :: f)) by done.
  rewrite (dig2_two (four y +:+ two m) d (bytes (two h) ++ bytes (two mi) ++
    bytes (two s) ++ "."%char :: f)) by done.
  rewrite (dig2_two (four y +:+ two m +:+ two d) h (bytes (two mi) ++
    bytes (two s) ++ "."%char :: f)) by done.
  rewrite (dig2_two (four y +:+ two m +:+ two d +:+ two h) mi
    (bytes (two s) ++ "."%char :: f)) by done.
  rewrite (dig2_two (four y +:+ two m +:+ two d +:+ two h +:+ two mi) s ("."%char :: f)) by done.
  cbn [obind]. change (Ascii.eqb "." ".") with true. cbn iota.
  rewrite !DIG_digit by (try apply mod_digit; divs).
  assert (fst (strtol (str_drop 15 t)) = u) as ->.
  { change (str_drop 15 t) with (fmt_d true 6 u). unfold strtol.
    rewrite <- (app_nil_r_str (fmt_d true 6 u)), scan_num_fmt_d by done.
    unfold clamp. cbn [fst]. unfold_int. lia. }
  f_equal. f_equal.
  - rewrite u32_id by (unfold_int; divs). divs.
  - unfold u64. by rewrite Z.mod_small by lia.
Qed.

(** *** The formula *)
Lemma days_formula y m d : 1970 ≤ y < 10000 → 1 ≤ m ≤ 12 → 1 ≤ d ≤ 31 →
  let '(m', y') := if m <=? 2 then (m + 10, y - 1) else (m - 2, y) in
  y' / 4 - y' / 100 + y' / 400 + 367 * m' / 12 + d + y' * 365 - 719499 =
  days_before y + days_before_month (leap y) m + (d - 1).
Proof.
  intros Y M D. pose proof (leaps_step y) as S. unfold days_before.
  change (leaps 1969) with 477. unfold leaps in *.
  assert (m = 1 ∨ m = 2 ∨ m = 3 ∨ m = 4 ∨ m = 5 ∨ m = 6 ∨ m = 7 ∨ m = 8 ∨ m = 9 ∨ m = 10 ∨
    m = 11 ∨ m = 12) as Ms by lia.
  destruct_or! Ms; subst m; cbn [Z.leb Z.compare Pos.compare Pos.compare_cont];
    destruct (leap y);
    match goal with |- context [days_before_month ?c ?m] =>
      let v := eval vm_compute in (days_before_month c m) in change (days_before_month c m) with v
    end;
    match goal with |- context [367 * ?k / 12] =>
      let v := eval vm_compute in (367 * k / 12) in change (367 * k / 12) with v end; lia.
Qed.

Lemma date_sec_ok y m d h mi s u : 1970 ≤ y < 10000 → 1 ≤ m ≤ 12 → 1 ≤ d ≤ 31 →
  0 ≤ h < 24 → 0 ≤ mi < 60 → 0 ≤ s < 60 →
  date_sec {| year := y; mon := m; day := d; hour := h; min := mi; sec := s; usec := u |} =
  ((days_before y + days_before_month (leap y) m + (d - 1)) * 24 + h) * 3600 + mi * 60 + s.
Proof.
  intros Y M D H Mi S. pose proof (days_formula y m d Y M D) as F.
  unfold date_sec. cbn [mon year day hour min sec].
  assert (0 ≤ y / 4 - y / 100 + y / 400 ≤ 10000) as B1 by divs.
  assert (0 ≤ (y - 1) / 4 - (y - 1) / 100 + (y - 1) / 400 ≤ 10000) as B2 by divs.
  assert (∀ y' m', 0 ≤ m' ≤ 12 → 1969 ≤ y' < 10000 → 0 ≤ y' / 4 - y' / 100 + y' / 400 ≤ 10000 →
    719499 ≤ y' / 4 - y' / 100 + y' / 400 + 367 * m' / 12 + d + y' * 365 →
    s64 (u64 (((u32 (y' / 4 - y' / 100 + y' / 400 + u32 (367 * m') / 12 + d) + u32 (y' * 365)
      - 719499) * 24 + h) * 60 + mi) * 60 + s) =
    (((y' / 4 - y' / 100 + y' / 400 + 367 * m' / 12 + d + y' * 365 - 719499) * 24 + h) * 60 + mi)
      * 60 + s) as G.
  { intros y' m' M' Y' B L. assert (0 ≤ 367 * m' / 12 ≤ 400) by divs.
    rewrite (u32_id (367 * m')) by (unfold_int; lia).
    rewrite (u32_id (_ + d)) by (unfold_int; lia). rewrite (u32_id (y' * 365)) by (unfold_int; lia).
    unfold u64, s64. rewrite (Z.mod_small (_ * 60 + mi)) by lia.
    unfold_int. rewrite Z.mod_small by lia. lia. }
  pose proof (days_before_mono 1970 y ltac:(lia)) as P. change (days_before 1970) with 0 in P.
  assert (0 ≤ days_before_month (leap y) m) as Q.
  { assert (m = 1 ∨ m = 2 ∨ m = 3 ∨ m = 4 ∨ m = 5 ∨ m = 6 ∨ m = 7 ∨ m = 8 ∨ m = 9 ∨ m = 10 ∨
      m = 11 ∨ m = 12) as Ms by lia. by destruct_or! Ms; subst m; destruct (leap y). }
  destruct (Z.leb_spec m 2).
  - assert (s32 (u32 (m - 2)) = m - 2) as -> by (rewrite s32_u32, s32_id; unfold_int; lia).
    destruct (Z.leb_spec (m - 2) 0); [|lia].
    assert (u32 (u32 (m - 2) + 12) = m + 10) as ->.
    { unfold u32 at 1. unfold u32. rewrite Z.add_mod_idemp_l by done.
      replace (m - 2 + 12) with (m + 10) by lia. apply Z.mod_small. unfold_int. lia. }
    rewrite (u32_id (y - 1)) by (unfold_int; lia). rewrite G by lia. lia.
  - assert (s32 (u32 (m - 2)) = m - 2) as -> by (rewrite s32_u32, s32_id; unfold_int; lia).
    destruct (Z.leb_spec (m - 2) 0); [lia|].
    rewrite (u32_id (m - 2)) by (unfold_int; lia). rewrite G by lia. lia.
Qed.

(** *** Both ways *)

(** The first second of the year 10000. *)
Definition YEAR_10000 : Z := 253402300800.

Lemma gmtime_spec t : 0 ≤ t →
  match gmtime t with
  | None => YEAR_10000 ≤ t
  | Some x =>
    1970 ≤ tm_year x ∧ (tm_year x < 10000 ↔ t < YEAR_10000) ∧ 1 ≤ tm_mon x ≤ 12 ∧
    1 ≤ tm_mday x ≤ 31 ∧ 0 ≤ tm_hour x < 24 ∧ 0 ≤ tm_min x < 60 ∧ 0 ≤ tm_sec x < 60 ∧
    ((days_before (tm_year x) + days_before_month (leap (tm_year x)) (tm_mon x) + (tm_mday x - 1))
       * 24 + tm_hour x) * 3600 + tm_min x * 60 + tm_sec x = t
  end.
Proof.
  intros T. unfold gmtime. set (d := t / 86400). assert (0 ≤ d) as D by (unfold d; divs).
  pose proof (year_of_spec (S (Z.to_nat (d / 365))) 1970 d D ltac:(divs)) as Hy.
  destruct (year_of _ _ _) as [y yd]. destruct Hy as (Y1 & Y2 & Y3).
  change (days_before 1970) with 0 in Y3.
  assert (0 ≤ yd < (if leap y then 366 else 365)) as Y4 by (unfold year_len in Y2; lia).
  pose proof (month_of_spec (leap y) yd Y4) as Hm. destruct (month_of _ _ _) as [m e].
  destruct Hm as (M1 & M2 & M3).
  assert (y < 10000 ↔ t < YEAR_10000) as W.
  { assert (days_before 10000 = 2932897) as E by done. assert (t < YEAR_10000 ↔ d < 2932897) as ->.
    { unfold YEAR_10000, d. split; intros; divs. }
    split; intros L.
    - pose proof (days_before_mono (y + 1) 10000 ltac:(lia)) as P.
      rewrite days_before_step in P. lia.
    - destruct (Z.lt_ge_cases y 10000) as [|G]; [done|].
      pose proof (days_before_mono 10000 y G). lia. }
  destruct (Z.ltb_spec INT_MAX (y - 1900)) as [I|I].
  - unfold INT_MAX in I. destruct (Z.lt_ge_cases t YEAR_10000) as [L|]; [|done]. lia.
  - cbn [tm_year tm_mon tm_mday tm_hour tm_min tm_sec].
    repeat (split; [lia || done || divs|]). unfold d in *. divs.
Qed.

Lemma digits_aux_short (k : nat) : ∀ fuel n acc, 0 ≤ n < 10 ^ Z.of_nat (S k) →
  (String.length (digits_aux fuel n acc) ≤ S k + String.length acc)%nat.
Proof.
  induction k as [|k IH]; intros fuel n acc N; (destruct fuel as [|fuel]; simpl; [lia|]).
  - destruct (Z.ltb_spec n 10); simpl; [lia|]. change (Z.of_nat 1) with 1 in N. lia.
  - destruct (Z.ltb_spec n 10); simpl; [lia|]. etrans; [apply IH|simpl; lia].
    rewrite Nat2Z.inj_succ, Z.pow_succ_r in N by lia. split; [divs|].
    apply Z.div_lt_upper_bound; lia.
Qed.

Lemma fmt_six n : 0 ≤ n ≤ 999999 → String.length (fmt_d true 6 n) = 6%nat.
Proof.
  intros N. pose proof (fmt_width n 6). unfold fmt_d in *. destruct (Z.ltb_spec n 0); [lia|].
  rewrite !length_app_str, length_str_repeat in *. simpl String.length in *.
  pose proof (digits_aux_short 5 (digits_fuel (Z.abs n)) (Z.abs n) "" ltac:(simpl; lia)) as L.
  fold (print_nonneg (Z.abs n)) in L. simpl in L. lia.
Qed.

(** The date of a time between 1970 and the year 9999 has 21 bytes and is read back as
    the same time to the microsecond; any other time is refused. *)
Theorem date_roundtrip t us :
  0 ≤ us ≤ 999999 →
  (0 ≤ t < YEAR_10000 →
   ∃ s, edg_wll_ULMTimevalToDate t us = (0, Some s) ∧ String.length s = ULM_DATE_STRING_LENGTH ∧
     edg_wll_ULMDateToTimeval s = Ret (t, us)) ∧
  (t < 0 ∨ YEAR_10000 ≤ t → edg_wll_ULMTimevalToDate t us = (1, None)).
Proof.
  intros U. unfold edg_wll_ULMTimevalToDate.
  destruct (Z.ltb_spec us 0), (Z.ltb_spec 999999 us); try lia.
  destruct (Z.ltb_spec t 0) as [N|P]; cbn [orb]; [split; [lia|done]|].
  pose proof (gmtime_spec t P) as G. destruct (gmtime t) as [x|]; [|split; [lia|done]].
  destruct G as (Y & W & M & D & H2 & Mi & S & E).
  change (ULM_DATE_STRING_LENGTH + 1 - 7)%nat with 15%nat. split.
  - intros [_ L]. apply W in L. rewrite strftime_four by lia. eexists. split; [reflexivity|].
    assert (asprintf ".%06ld" [PInt us] = "." +:+ fmt_d true 6 us) as ->.
    { printf_simpl. by rewrite app_nil_r_str. }
    split; [rewrite !length_app_str, fmt_six by done; done|].
    match goal with |- _ ?s = _ => change s with (dated (tm_year x) (tm_mon x) (tm_mday x)
      (tm_hour x) (tm_min x) (tm_sec x) us) end.
    unfold edg_wll_ULMDateToTimeval. rewrite split_dated by lia. cbn [obind usec].
    rewrite date_sec_ok, E by lia. unfold s64. unfold_int. rewrite Z.mod_small by lia.
    repeat f_equal. lia.
  - intros [|L]; [lia|]. rewrite strftime_five; [done|].
    destruct (Z.lt_ge_cases (tm_year x) 10000) as [V|]; [apply W in V; lia|done].
Qed.

Lemma date_roundtrip_witness :
  ∃ s, edg_wll_ULMTimevalToDate 951782399 1 = (0, Some s) ∧
    edg_wll_ULMDateToTimeval s = Ret (951782399, 1).
Proof.
  destruct (date_roundtrip 951782399 1 ltac:(lia)) as [H _].
  destruct (H ltac:(unfold YEAR_10000; lia)) as (s & E & _ & R). by exists s.
Defined.
