(* ===== verification/Query.v ===== *)
(** * Query conditions

    The model of the conditions of queries (org.glite.lb.common/interface/query_rec.h) and
    of their evaluation on a job status and on an event in
    org.glite.lb.server/src/query.c: [match_status], [match_flesh_conditions], the checks
    of the server address and of the indices (with [edg_wll_CmpColumn] of index.c.T). *)
From Stdlib Require Import ZArith Lia Ascii.
From stdpp Require Import base option list strings numbers.
From S2P Require Import Prelude CLib JobId LbTypes Gss.
#[local] Open Scope Z_scope.

(** ** Conditions *)
Inductive query_attr :=
| QUERY_ATTR_UNDEF
| QUERY_ATTR_JOBID
| QUERY_ATTR_OWNER
| QUERY_ATTR_STATUS
| QUERY_ATTR_LOCATION
| QUERY_ATTR_DESTINATION
| QUERY_ATTR_DONECODE
| QUERY_ATTR_USERTAG
| QUERY_ATTR_TIME
| QUERY_ATTR_LEVEL
| QUERY_ATTR_HOST
| QUERY_ATTR_SOURCE
| QUERY_ATTR_INSTANCE
| QUERY_ATTR_EVENT_TYPE
| QUERY_ATTR_CHKPT_TAG
| QUERY_ATTR_RESUBMITTED
| QUERY_ATTR_PARENT
| QUERY_ATTR_EXITCODE
| QUERY_ATTR_JDL_ATTR
| QUERY_ATTR_STATEENTERTIME
| QUERY_ATTR_LASTUPDATETIME
| QUERY_ATTR_NETWORK_SERVER
| QUERY_ATTR_JOB_TYPE
| QUERY_ATTR_VM_STATUS.
#[export] Instance query_attr_eq_dec : EqDecision query_attr.
Proof. solve_decision. Defined.

Inductive query_op :=
| QUERY_OP_EQUAL
| QUERY_OP_LESS
| QUERY_OP_GREATER
| QUERY_OP_WITHIN
| QUERY_OP_UNEQUAL
| QUERY_OP_CHANGED.
#[export] Instance query_op_eq_dec : EqDecision query_op.
Proof. solve_decision. Defined.

(** The unions; a member that was not stored has no value. *)
Inductive query_id :=
| IdTag (tag : option string)
| IdState (state : Z).
Inductive query_val :=
| VInt (i : Z)
| VStr (c : option string)
| VTime (t : timeval)
| VJob (j : option JobId).

Record query_rec := {
  q_attr : query_attr;
  q_op : query_op;
  q_id : query_id;
  q_value : query_val;
  q_value2 : query_val
}.

(** A list of lists of conditions: all of the outer list, one of each inner list.  The
    terminators are left out. *)
Abbreviation conditions := (list (list query_rec)).

Definition val_i (v : query_val) : outcome Z :=
  match v with VInt i => Ret i | _ => UB Indeterminate end.
Definition val_c (v : query_val) : outcome (option string) :=
  match v with VStr c => Ret c | _ => UB Indeterminate end.
Definition val_t (v : query_val) : outcome Z :=
  match v with VTime t => Ret t.(tv_sec) | _ => UB Indeterminate end.
Definition val_j (v : query_val) : outcome (option JobId) :=
  match v with VJob j => Ret j | _ => UB Indeterminate end.
Definition id_tag (i : query_id) : outcome (option string) :=
  match i with IdTag t => Ret t | IdState _ => UB Indeterminate end.
Definition id_state (i : query_id) : outcome Z :=
  match i with IdState s => Ret s | IdTag _ => UB Indeterminate end.

(** [strcmp] of two pointers *)
Definition strcmp_ptr (a b : option string) : outcome Z :=
  match a, b with Some a, Some b => Ret (strcmp a b) | _, _ => UB NullDeref end.

Definition deref {A} (p : option A) : outcome A :=
  match p with Some a => Ret a | None => UB NullDeref end.

(** [a[i]] of an array of [int]s *)
Definition int_at (l : list Z) (i : Z) : outcome Z :=
  if i <? 0 then UB OutOfBounds else
  match l !! Z.to_nat i with Some z => Ret z | None => UB OutOfBounds end.

(** ** Matching a job status *)

(** The switch over the operator for a number; [val] reads the operand. *)
Definition num_switch (val : query_val → outcome Z) (c : query_rec) (x : Z)
    (changed : outcome bool) : outcome bool :=
  match c.(q_op) with
  | QUERY_OP_EQUAL => let! v := val c.(q_value) in Ret (v =? x)
  | QUERY_OP_UNEQUAL => let! v := val c.(q_value) in Ret (negb (v =? x))
  | QUERY_OP_LESS => let! v := val c.(q_value) in Ret (x <? v)
  | QUERY_OP_GREATER => let! v := val c.(q_value) in Ret (v <? x)
  | QUERY_OP_WITHIN =>
    let! v := val c.(q_value) in
    if v <=? x then let! w := val c.(q_value2) in Ret (x <=? w) else Ret false
  | QUERY_OP_CHANGED => changed
  end.

(** Equality and inequality only; [eq] is the result of the comparison. *)
Definition eq_switch (c : query_rec) (eq : bool) : bool :=
  match c.(q_op) with
  | QUERY_OP_EQUAL => eq
  | QUERY_OP_UNEQUAL => negb eq
  | _ => false
  end.

(** [if (stat->f) { if (!strcmp(value.c,stat->f)) ... }] *)
Definition string_field (c : query_rec) (f : option string) : outcome bool :=
  match f with
  | None => Ret false
  | Some _ =>
    let! v := val_c c.(q_value) in
    let! r := strcmp_ptr v f in Ret (eq_switch c (r =? 0))
  end.

Definition job_field (c : query_rec) (f : option JobId) : outcome bool :=
  match f with
  | None => Ret false
  | Some _ =>
    let! v := val_j c.(q_value) in
    match glite_jobid_unparse f, glite_jobid_unparse v with
    | Some s, Some s1 => Ret (eq_switch c (strcmp s1 s =? 0))
    | _, _ => Ret false
    end
  end.

(** The loop over the tags: the first one with the name decides. *)
Fixpoint tag_loop (c : query_rec) (tags : list TagValue) : outcome bool :=
  match tags with
  | [] => Ret (bool_decide (c.(q_op) = QUERY_OP_UNEQUAL))
  | t :: tags =>
    let! name := id_tag c.(q_id) in
    let! name := deref name in
    if strcasecmp_eq name t.(tag) then
      let! v := val_c c.(q_value) in
      let! r := strcmp_ptr v t.(value) in Ret (eq_switch c (r =? 0))
    else tag_loop c tags
  end.

Section Match.
Context (peerName : option string).
(** The value of an attribute of a JDL text: [cclassad_create] and
    [cclassad_evaluate_to_string] of the class-ad library. *)
Context (jdl_get : string → string → option string).

(** The body of the inner loop: [true] stands for [goto or_satisfied]. *)
Definition cond_test (oldstat : option JobStat) (stat : JobStat) (c : query_rec) : outcome bool :=
  let changed (f : JobStat → Z) :=
    let! o := deref oldstat in Ret (negb (f o =? f stat)) in
  if bool_decide (c.(q_op) = QUERY_OP_CHANGED ∧ oldstat = None) then Ret false else
  match c.(q_attr) with
  | QUERY_ATTR_STATUS => num_switch val_i c stat.(state) (changed state)
  | QUERY_ATTR_RESUBMITTED =>
    match c.(q_op) with
    | QUERY_OP_LESS | QUERY_OP_GREATER | QUERY_OP_WITHIN => Ret false
    | _ => num_switch val_i c stat.(resubmitted) (changed resubmitted)
    end
  | QUERY_ATTR_DONECODE => num_switch val_i c stat.(done_code) (changed done_code)
  | QUERY_ATTR_EXITCODE => num_switch val_i c stat.(exit_code) (changed exit_code)
  | QUERY_ATTR_OWNER =>
    match stat.(owner) with
    | None => Ret false
    | Some _ =>
      let! v := val_c c.(q_value) in
      match v, peerName with
      | Some _, _ => Ret (eq_switch c (edg_wll_gss_equal_subj v stat.(owner)))
      | None, Some _ => Ret (eq_switch c (edg_wll_gss_equal_subj peerName stat.(owner)))
      | None, None => Ret false
      end
    end
  | QUERY_ATTR_LOCATION =>
    match stat.(location) with
    | None => Ret false
    | Some _ =>
      let! v := val_c c.(q_value) in
      let! tmp := strcmp_ptr v stat.(location) in
      match c.(q_op) with
      | QUERY_OP_EQUAL => Ret (tmp =? 0)
      | QUERY_OP_UNEQUAL => Ret (negb (tmp =? 0))
      | QUERY_OP_LESS => Ret (tmp <? 0)
      | QUERY_OP_GREATER => Ret (0 <? tmp)
      | QUERY_OP_WITHIN =>
        if tmp <=? 0 then
          let! v2 := val_c c.(q_value2) in
          let! r := strcmp_ptr v2 stat.(location) in Ret (0 <=? r)
        else Ret false
      | QUERY_OP_CHANGED =>
        let! o := deref oldstat in
        let! r := strcmp_ptr o.(location) stat.(location) in Ret (negb (r =? 0))
      end
    end
  | QUERY_ATTR_DESTINATION => string_field c stat.(destination)
  | QUERY_ATTR_NETWORK_SERVER => string_field c stat.(network_server)
  | QUERY_ATTR_JOBID => job_field c stat.(jobId)
  | QUERY_ATTR_PARENT => job_field c stat.(parent_job)
  | QUERY_ATTR_USERTAG => tag_loop c (default [] stat.(user_tags))
  | QUERY_ATTR_TIME =>
    match stat.(stateEnterTimes) with
    | None => Ret false
    | Some times =>
      let! s := id_state c.(q_id) in
      let! x := int_at times (1 + s) in
      if x =? 0 then Ret false else
      num_switch val_t c x
        (let! o := deref oldstat in
         let! otimes := deref o.(stateEnterTimes) in
         let! y := int_at otimes (1 + s) in Ret (negb (y =? x)))
    end
  | QUERY_ATTR_JDL_ATTR =>
    let! name := id_tag c.(q_id) in
    match c.(q_op), name, oldstat with
    | QUERY_OP_CHANGED, None, Some o =>
      match o.(jdl), stat.(jdl) with
      | None, _ => Ret true
      | Some a, Some b => Ret (negb (strcmp a b =? 0))
      | Some _, None => Ret false
      end
    | _, Some name, _ =>
      match stat.(jdl) with
      | None => Ret false
      | Some text =>
        if String.eqb text "blabla" then Ret false else
        match jdl_get text name with
        | None => Ret false
        | extr_val =>
          let! v := val_c c.(q_value) in
          let! r := strcmp_ptr v extr_val in Ret (eq_switch c (r =? 0))
        end
      end
    | _, None, _ => Ret false
    end
  | QUERY_ATTR_STATEENTERTIME =>
    if stat.(stateEnterTime).(tv_sec) =? 0 then Ret false else
    num_switch val_t c stat.(stateEnterTime).(tv_sec) (changed (λ s, s.(stateEnterTime).(tv_sec)))
  | QUERY_ATTR_LASTUPDATETIME =>
    if stat.(lastUpdateTime).(tv_sec) =? 0 then Ret false else
    num_switch val_t c stat.(lastUpdateTime).(tv_sec) (changed (λ s, s.(lastUpdateTime).(tv_sec)))
  | QUERY_ATTR_JOB_TYPE =>
    match c.(q_op) with
    | QUERY_OP_EQUAL | QUERY_OP_UNEQUAL =>
      let! v := val_i c.(q_value) in Ret (eq_switch c (v =? stat.(jobtype)))
    | _ => Ret false
    end
  | QUERY_ATTR_VM_STATUS =>
    match c.(q_op) with
    | QUERY_OP_EQUAL | QUERY_OP_UNEQUAL =>
      let! v := val_i c.(q_value) in Ret (eq_switch c (v =? stat.(vm_state)))
    | _ => Ret false
    end
  | _ => Ret false
  end.

Fixpoint or_clause (oldstat : option JobStat) (stat : JobStat) (l : list query_rec) : outcome bool :=
  match l with
  | [] => Ret false
  | c :: l =>
    let! b := cond_test oldstat stat c in
    if b then Ret true else or_clause oldstat stat l
  end.

Fixpoint and_clauses (oldstat : option JobStat) (stat : JobStat) (conds : conditions) :
    outcome bool :=
  match conds with
  | [] => Ret true
  | l :: conds =>
    let! b := or_clause oldstat stat l in
    if b then and_clauses oldstat stat conds else Ret false
  end.

Definition match_status (oldstat : option JobStat) (stat : JobStat) (conds : option conditions) :
    outcome bool :=
  match conds with None => Ret true | Some conds => and_clauses oldstat stat conds end.
End Match.

(** ** Matching an event *)
Definition cmp_string (s1 : string) (op : query_op) (s2 s2b : option string) : outcome bool :=
  match op with
  | QUERY_OP_EQUAL | QUERY_OP_CHANGED => let! r := strcmp_ptr (Some s1) s2 in Ret (r =? 0)
  | QUERY_OP_UNEQUAL => let! r := strcmp_ptr (Some s1) s2 in Ret (negb (r =? 0))
  | QUERY_OP_LESS => let! r := strcmp_ptr (Some s1) s2 in Ret (r <? 0)
  | QUERY_OP_GREATER => let! r := strcmp_ptr (Some s1) s2 in Ret (0 <? r)
  | QUERY_OP_WITHIN =>
    let! r := strcmp_ptr (Some s1) s2 in
    if 0 <=? r then let! _ := strcmp_ptr (Some s1) s2b in Ret false else Ret false
  end.

(** Both [LESS] and [GREATER] test [x < value]. *)
Definition flesh_num (val : query_val → outcome Z) (c : query_rec) (x : Z) : outcome bool :=
  match c.(q_op) with
  | QUERY_OP_EQUAL => let! v := val c.(q_value) in Ret (x =? v)
  | QUERY_OP_LESS | QUERY_OP_GREATER => let! v := val c.(q_value) in Ret (x <? v)
  | QUERY_OP_WITHIN =>
    let! v := val c.(q_value) in
    if v <=? x then let! w := val c.(q_value2) in Ret (x <=? w) else Ret false
  | _ => Ret false
  end.

(** What the function reads of an event. *)
Record event_view := {
  ev_time : Z;
  ev_source : Z;
  ev_level : Z;
  ev_host : option string;
  ev_type : Z;
  ev_instance : option string;
  ev_tag : option (string * string)    (* name and value of a user tag event *)
}.
Definition EDG_WLL_SOURCE_NONE_code : Z := 0.

Definition flesh_test (e : event_view) (c : query_rec) : outcome bool :=
  match c.(q_attr) with
  | QUERY_ATTR_TIME => flesh_num val_t c e.(ev_time)
  | QUERY_ATTR_SOURCE =>
    if e.(ev_source) =? EDG_WLL_SOURCE_NONE_code then Ret false else flesh_num val_i c e.(ev_source)
  | QUERY_ATTR_LEVEL => flesh_num val_i c e.(ev_level)
  | QUERY_ATTR_HOST =>
    let! v := val_c c.(q_value) in
    let! r := strcmp_ptr v e.(ev_host) in Ret (r =? 0)
  | QUERY_ATTR_EVENT_TYPE => let! v := val_i c.(q_value) in Ret (e.(ev_type) =? v)
  | QUERY_ATTR_USERTAG =>
    match e.(ev_tag) with
    | None => Ret false
    | Some (name, v) =>
      let! t := id_tag c.(q_id) in
      let! r := strcmp_ptr t (Some name) in
      if r =? 0 then
        let! a := val_c c.(q_value) in
        let! b := match c.(q_op) with QUERY_OP_WITHIN => val_c c.(q_value2) | _ => Ret None end in
        cmp_string v c.(q_op) a b
      else Ret false
    end
  | QUERY_ATTR_INSTANCE =>
    match e.(ev_instance) with
    | None => Ret false
    | Some i =>
      let! a := val_c c.(q_value) in
      let! b := match c.(q_op) with QUERY_OP_WITHIN => val_c c.(q_value2) | _ => Ret None end in
      cmp_string i c.(q_op) a b
    end
  | _ => Ret false
  end.

Fixpoint flesh_or (e : event_view) (l : list query_rec) : outcome bool :=
  match l with
  | [] => Ret false
  | c :: l => let! b := flesh_test e c in if b then Ret true else flesh_or e l
  end.

(** The clauses that the data base cannot decide. *)
Definition is_flesh (c : query_rec) : bool :=
  bool_decide (c.(q_attr) = QUERY_ATTR_USERTAG) || bool_decide (c.(q_attr) = QUERY_ATTR_INSTANCE).

Fixpoint flesh_and (e : event_view) (ec : conditions) : outcome bool :=
  match ec with
  | [] => Ret true
  | l :: ec =>
    if existsb is_flesh l then
      let! b := flesh_or e l in if b then flesh_and e ec else Ret false
    else flesh_and e ec
  end.

Definition match_flesh_conditions (e : event_view) (ec : option conditions) : outcome bool :=
  match ec with None => Ret true | Some ec => flesh_and e ec end.

(** ** Checks *)

(** [edg_wll_CmpColumn(r1,r2) == 0] *)
Definition same_column (r1 r2 : query_rec) : outcome bool :=
  if negb (bool_decide (r1.(q_attr) = r2.(q_attr))) then Ret false else
  match r1.(q_attr) with
  | QUERY_ATTR_USERTAG | QUERY_ATTR_JDL_ATTR =>
    let! a := id_tag r1.(q_id) in
    let! b := id_tag r2.(q_id) in
    let! a := deref a in
    let! b := deref b in Ret (strcasecmp_eq a b)
  | QUERY_ATTR_TIME =>
    let! a := id_state r1.(q_id) in
    let! b := id_state r2.(q_id) in Ret (a =? b)
  | _ => Ret true
  end.

(** [check_strict_jobid]: the error code. *)
Definition check_strict_jobid (srvName : option string) (srvPort : Z) (isProxy : bool)
    (job : option JobId) : outcome Z :=
  match srvName with
  | None => Ret 0
  | Some name =>
    if isProxy then Ret 0 else
    let! '(job_host, job_port) := deref (glite_jobid_getServerParts job) in
    if negb (strcasecmp_eq job_host name) || negb (job_port =? srvPort) then Ret 22 else Ret 0
  end.

(** [is_all_query] *)
Definition is_all_query (jc : option conditions) : bool :=
  match jc with
  | None | Some [] => true
  | Some [[c]] => bool_decide (c.(q_attr) = QUERY_ATTR_OWNER) &&
                  bool_decide (c.(q_op) = QUERY_OP_EQUAL)
  | Some _ => false
  end.
