(* ===== verification/QueryMatch.v ===== *)
(** * Queries: what the conditions mean

    A reference reading of the conditions on a job status, as a table of the attributes and
    the meaning of the operators on the order of two values, and the theorem that
    [match_status] computes it; the places where the code differs from it. *)
From Stdlib Require Import ZArith Lia Ascii.
From stdpp Require Import base option list strings numbers.
From S2P Require Import Prelude CLib JobId LbTypes Gss Query.
#[local] Open Scope Z_scope.

(** ** The order of [strcmp] *)
Lemma strcmp_antisym s : ∀ t, strcmp t s = - strcmp s t.
Proof.
  induction s as [|a s IH]; intros [|b t]; simpl; try done.
  destruct (Z.ltb_spec (code a) (code b)), (Z.ltb_spec (code b) (code a)); try lia; apply IH.
Qed.

Lemma strcmp_eqb s : ∀ t, (strcmp s t =? 0) = String.eqb s t.
Proof.
  induction s as [|a s IH]; intros [|b t]; simpl; try done.
  destruct (Ascii.eqb_spec a b) as [->|N].
  { rewrite Z.ltb_irrefl. apply IH. }
  assert (code a ≠ code b).
  { unfold code. intros E. apply N. apply N2Z.inj, (f_equal ascii_of_N) in E.
    by rewrite !ascii_N_embedding in E. }
  destruct (Z.ltb_spec (code a) (code b)); [done|].
  destruct (Z.ltb_spec (code b) (code a)); [done|lia].
Qed.

(** ** The reference *)

(** The attributes, by the type of their values and by whether the values are ordered. *)
Inductive attr_kind := KNumber | KTime | KSubject | KText | KJob | KNone.
Definition kind_of (a : query_attr) : attr_kind :=
  match a with
  | QUERY_ATTR_STATUS | QUERY_ATTR_RESUBMITTED | QUERY_ATTR_DONECODE | QUERY_ATTR_EXITCODE
  | QUERY_ATTR_JOB_TYPE | QUERY_ATTR_VM_STATUS => KNumber
  | QUERY_ATTR_TIME | QUERY_ATTR_STATEENTERTIME | QUERY_ATTR_LASTUPDATETIME => KTime
  | QUERY_ATTR_OWNER => KSubject
  | QUERY_ATTR_LOCATION | QUERY_ATTR_DESTINATION | QUERY_ATTR_NETWORK_SERVER
  | QUERY_ATTR_USERTAG | QUERY_ATTR_JDL_ATTR => KText
  | QUERY_ATTR_JOBID | QUERY_ATTR_PARENT => KJob
  | _ => KNone
  end.
Definition is_ordered (a : query_attr) : bool :=
  match a with
  | QUERY_ATTR_STATUS | QUERY_ATTR_DONECODE | QUERY_ATTR_EXITCODE | QUERY_ATTR_LOCATION
  | QUERY_ATTR_TIME | QUERY_ATTR_STATEENTERTIME | QUERY_ATTR_LASTUPDATETIME => true
  | _ => false
  end.

Inductive observed := ONumber (z : Z) | OText (s : string) | OJob (j : JobId).

Section Reference.
Context (peerName : option string) (jdl_get : string → string → option string).

Definition set_time (t : Z) : option observed := if t =? 0 then None else Some (ONumber t).

(** The value of the attribute in the status of a job, if it has one. *)
Definition observe (stat : JobStat) (c : query_rec) : option observed :=
  match c.(q_attr) with
  | QUERY_ATTR_STATUS => Some (ONumber stat.(state))
  | QUERY_ATTR_RESUBMITTED => Some (ONumber stat.(resubmitted))
  | QUERY_ATTR_DONECODE => Some (ONumber stat.(done_code))
  | QUERY_ATTR_EXITCODE => Some (ONumber stat.(exit_code))
  | QUERY_ATTR_JOB_TYPE => Some (ONumber stat.(jobtype))
  | QUERY_ATTR_VM_STATUS => Some (ONumber stat.(vm_state))
  | QUERY_ATTR_STATEENTERTIME => set_time stat.(stateEnterTime).(tv_sec)
  | QUERY_ATTR_LASTUPDATETIME => set_time stat.(lastUpdateTime).(tv_sec)
  | QUERY_ATTR_TIME =>
    match stat.(stateEnterTimes), c.(q_id) with
    | Some times, IdState s => times !! Z.to_nat (1 + s) ≫= set_time
    | _, _ => None
    end
  | QUERY_ATTR_OWNER => OText <$> stat.(owner)
  | QUERY_ATTR_LOCATION => OText <$> stat.(location)
  | QUERY_ATTR_DESTINATION => OText <$> stat.(destination)
  | QUERY_ATTR_NETWORK_SERVER => OText <$> stat.(network_server)
  | QUERY_ATTR_JOBID => OJob <$> stat.(jobId)
  | QUERY_ATTR_PARENT => OJob <$> stat.(parent_job)
  | QUERY_ATTR_USERTAG =>
    match c.(q_id) with
    | IdTag (Some name) =>
      t ← list_find (λ t, strcasecmp_eq name t.(tag) = true) (default [] stat.(user_tags));
      OText <$> t.2.(value)
    | _ => None
    end
  | QUERY_ATTR_JDL_ATTR =>
    match stat.(jdl), c.(q_id) with
    | Some text, IdTag (Some name) =>
      if String.eqb text "blabla" then None else OText <$> jdl_get text name
    | _, _ => None
    end
  | _ => None
  end.

(** The order of a value and an operand; subjects and job identifiers are only compared for
    equality. *)
Definition string_order (a b : string) : comparison := strcmp a b ?= 0.
Definition order (a : query_attr) (o : observed) (v : query_val) : option comparison :=
  match o, v with
  | ONumber x, VInt y => Some (x ?= y)
  | ONumber x, VTime t => Some (x ?= t.(tv_sec))
  | OJob i, VJob (Some j) =>
    Some (if bool_decide (glite_jobid_unparse (Some i) = glite_jobid_unparse (Some j))
          then Eq else Gt)
  | OText s, VStr v =>
    match kind_of a, (match v with None => peerName | _ => v end) with
    | KSubject, Some v => Some (if edg_wll_gss_equal_subj (Some v) (Some s) then Eq else Gt)
    | KText, _ => string_order s <$> v
    | _, _ => None
    end
  | _, _ => None
  end.

Definition op_holds (op : query_op) (o1 o2 : option comparison) : bool :=
  match op, o1 with
  | QUERY_OP_EQUAL, Some Eq => true
  | QUERY_OP_UNEQUAL, Some (Lt | Gt) => true
  | QUERY_OP_LESS, Some Lt => true
  | QUERY_OP_GREATER, Some Gt => true
  | QUERY_OP_WITHIN, Some (Eq | Gt) => match o2 with Some (Eq | Lt) => true | _ => false end
  | _, _ => false
  end.
Definition op_applies (a : query_attr) (op : query_op) : bool :=
  match op with
  | QUERY_OP_EQUAL | QUERY_OP_UNEQUAL => true
  | QUERY_OP_CHANGED => false
  | _ => is_ordered a
  end.

Definition op_result (c : query_rec) (o : observed) : bool :=
  op_applies c.(q_attr) c.(q_op) &&
  op_holds c.(q_op) (order c.(q_attr) o c.(q_value)) (order c.(q_attr) o c.(q_value2)).

(** A condition without CHANGED; a job without the tag differs from every value of it. *)
Definition holds (stat : JobStat) (c : query_rec) : bool :=
  match observe stat c with
  | None => bool_decide (c.(q_attr) = QUERY_ATTR_USERTAG ∧ c.(q_op) = QUERY_OP_UNEQUAL)
  | Some o => op_result c o
  end.

Definition cnf (stat : JobStat) (conds : conditions) : bool :=
  forallb (existsb (holds stat)) conds.
End Reference.

(** ** Well-formed conditions *)
Definition operand_ok (a : query_attr) (v : query_val) : bool :=
  match kind_of a, v with
  | KNumber, VInt _ | KTime, VTime _ | KSubject, VStr _ | KText, VStr (Some _)
  | KJob, VJob (Some _) | KNone, _ => true
  | _, _ => false
  end.
Definition id_ok (c : query_rec) : bool :=
  match c.(q_attr), c.(q_id) with
  | (QUERY_ATTR_USERTAG | QUERY_ATTR_JDL_ATTR), IdTag (Some _) => true
  | (QUERY_ATTR_USERTAG | QUERY_ATTR_JDL_ATTR), _ => false
  | QUERY_ATTR_TIME, IdState s => 0 <=? 1 + s
  | QUERY_ATTR_TIME, _ => false
  | _, _ => true
  end.

(** The operands have the type of the attribute, and the order of locations is not asked. *)
Definition well_formed (c : query_rec) : bool :=
  id_ok c && operand_ok c.(q_attr) c.(q_value) &&
  (if bool_decide (c.(q_op) = QUERY_OP_WITHIN) then operand_ok c.(q_attr) c.(q_value2) else true) &&
  negb (bool_decide (c.(q_attr) = QUERY_ATTR_LOCATION ∧
                     (c.(q_op) = QUERY_OP_LESS ∨ c.(q_op) = QUERY_OP_GREATER))).

(** The status has the arrays that the condition reads. *)
Definition status_fits (stat : JobStat) (c : query_rec) : bool :=
  match c.(q_attr), c.(q_id) with
  | QUERY_ATTR_TIME, IdState s =>
    match stat.(stateEnterTimes) with
    | Some times => 1 + s <? Z.of_nat (length times)
    | None => true
    end
  | QUERY_ATTR_USERTAG, _ => forallb (λ t, bool_decide (is_Some t.(value))) (default [] stat.(user_tags))
  | _, _ => true
  end.

(** ** [match_status] computes the reference *)
Section Equivalence.
Context (peerName : option string) (jdl_get : string → string → option string).
#[local] Abbreviation result := (op_result peerName).

(** The operands of the condition, as the operator reads them. *)
Definition operands_ok (k : attr_kind) (c : query_rec) : Prop :=
  kind_of c.(q_attr) = k ∧ operand_ok c.(q_attr) c.(q_value) = true ∧
  (c.(q_op) = QUERY_OP_WITHIN → operand_ok c.(q_attr) c.(q_value2) = true).

Lemma ordered_applies a op : is_ordered a = true → op ≠ QUERY_OP_CHANGED → op_applies a op = true.
Proof. by intros; destruct op. Qed.

Lemma num_switch_holds k val c x changed :
  (k = KNumber ∧ val = val_i) ∨ (k = KTime ∧ val = val_t) →
  operands_ok k c → c.(q_op) ≠ QUERY_OP_CHANGED → op_applies c.(q_attr) c.(q_op) = true →
  num_switch val c x changed = Ret (result c (ONumber x)).
Proof.
  intros K (E & O1 & O2) N AP. unfold op_result. rewrite AP. clear AP.
  destruct c as [a op id v v2]; simpl in *.
  unfold operand_ok in O1, O2. rewrite E in O1, O2. unfold num_switch. cbn [q_op q_value q_value2].
  destruct K as [[-> ->]|[-> ->]]; destruct v; try done;
  destruct op; try done; cbn [val_i val_t obind order op_holds];
  try specialize (O2 eq_refl); try (destruct v2; try done);
  cbn [val_i val_t obind order op_holds]; f_equal; zbool;
  rewrite ?Z.eqb_compare, ?Z.ltb_compare, ?Z.leb_compare;
  repeat match goal with |- context [?a ?= ?b] => destruct (Z.compare_spec a b) end; try lia; done.
Qed.

(** Equality and inequality of two values of which [ord] is the order. *)
Lemma eq_switch_holds c b cmp o2 : is_ordered c.(q_attr) = false →
  b = bool_decide (cmp = Eq) →
  eq_switch c b = op_applies c.(q_attr) c.(q_op) && op_holds c.(q_op) (Some cmp) o2.
Proof.
  intros U ->. unfold eq_switch, op_applies.
  destruct c as [a [] id v v2], cmp; cbn in *; rewrite ?U; done.
Qed.

Lemma strcmp_order v s : (strcmp v s =? 0) = bool_decide (string_order s v = Eq).
Proof.
  unfold string_order. rewrite strcmp_antisym.
  destruct (Z.eqb_spec (- strcmp s v) 0), (Z.compare_spec (strcmp s v) 0); try lia; done.
Qed.

Lemma string_field_holds c f : operands_ok KText c → is_ordered c.(q_attr) = false →
  string_field c f =
  Ret (match OText <$> f with
       | None => false
       | Some o => result c o
       end).
Proof.
  intros (K & O & _) U. destruct f as [s|]; [|done]. cbn [fmap option_fmap option_map string_field].
  unfold operand_ok in O. rewrite K in O.
  destruct c.(q_value) as [| [v|] | |] eqn:V; try done.
  cbn [val_c obind strcmp_ptr]. unfold op_result. rewrite V. cbn [order]. rewrite K. cbn [fmap option_fmap option_map].
  f_equal. exact (eq_switch_holds c _ _ _ U (strcmp_order v s)).
Qed.

Lemma job_field_holds c f : operands_ok KJob c → is_ordered c.(q_attr) = false →
  job_field c f =
  Ret (match OJob <$> f with
       | None => false
       | Some o => result c o
       end).
Proof.
  intros (K & O & _) U. destruct f as [i|]; [|done]. cbn [fmap option_fmap option_map job_field].
  unfold operand_ok in O. rewrite K in O.
  destruct c.(q_value) as [| | |[j|]] eqn:V; try done. cbn [val_j obind]. unfold op_result. rewrite V. cbn [order].
  destruct (glite_jobid_unparse (Some i)) as [s|] eqn:E1; [|done].
  destruct (glite_jobid_unparse (Some j)) as [t|] eqn:E2; [|done].
  erewrite (eq_switch_holds c _ _ _ U); [reflexivity|].
  rewrite strcmp_eqb. repeat case_bool_decide; destruct (String.eqb_spec t s); congruence.
Qed.

Lemma tag_loop_holds c name tags : operands_ok KText c → is_ordered c.(q_attr) = false →
  c.(q_id) = IdTag (Some name) →
  forallb (λ t, bool_decide (is_Some t.(value))) tags = true →
  tag_loop c tags =
  Ret (match (t ← list_find (λ t, strcasecmp_eq name t.(tag) = true) tags;
              OText <$> t.2.(value)) with
       | None => bool_decide (c.(q_op) = QUERY_OP_UNEQUAL)
       | Some o => result c o
       end).
Proof.
  intros (K & O & _) U N. unfold operand_ok in O. rewrite K in O.
  destruct c.(q_value) as [| [v|] | |] eqn:V; try done.
  induction tags as [|t tags IH]; intros F; [done|]. cbn [forallb] in F.
  apply andb_true_iff in F as [S F]. apply bool_decide_eq_true in S as [s S].
  cbn [tag_loop list_find]. rewrite N. cbn [id_tag deref obind].
  destruct (strcasecmp_eq name (tag t)) eqn:E.
  - rewrite decide_True by done. rewrite V. cbn [val_c obind]. rewrite S.
    cbn [strcmp_ptr obind mbind option_bind snd fmap option_fmap option_map order].
    rewrite S. cbn [fmap option_fmap option_map]. unfold op_result. rewrite V. cbn [order]. rewrite K.
    f_equal. exact (eq_switch_holds c _ _ _ U (strcmp_order v s)).
  - rewrite decide_False by congruence. rewrite (IH F). f_equal.
    destruct (list_find _ tags) as [[i t']|]; done.
Qed.


Lemma well_formed_operands c : well_formed c = true → operands_ok (kind_of c.(q_attr)) c.
Proof.
  unfold well_formed, operands_ok.
  intros [[[I O]%andb_true_iff O2]%andb_true_iff L]%andb_true_iff.
  split; [done|]. split; [done|]. intros E. by rewrite bool_decide_true in O2.
Qed.

Lemma location_holds oldstat stat c : well_formed c = true → c.(q_op) ≠ QUERY_OP_CHANGED →
  c.(q_attr) = QUERY_ATTR_LOCATION →
  cond_test peerName jdl_get oldstat stat c = Ret (holds peerName jdl_get stat c).
Proof.
  intros W N A. pose proof (well_formed_operands c W) as (K & O & O2).
  unfold well_formed in W. apply andb_true_iff in W as [_ W]. apply negb_true_iff in W.
  unfold cond_test, holds, observe. rewrite A in *. apply bool_decide_eq_false in W.
  rewrite bool_decide_false by (intros [? ?]; done).
  destruct stat.(location) as [s|]; [|by rewrite bool_decide_false by (intros [? ?]; done)].
  unfold operand_ok in O, O2. cbn [kind_of] in O, O2.
  destruct c as [a op id v v2]; cbn in *.
  destruct v as [| [v|] | |]; try done. cbn [val_c strcmp_ptr obind fmap option_fmap option_map].
  unfold op_result. cbn [q_attr q_op q_value q_value2 order kind_of fmap option_fmap option_map].
  subst a. cbn [kind_of is_ordered op_applies fmap option_fmap option_map].
  unfold string_order. rewrite (strcmp_antisym s v).
  destruct op; try (exfalso; apply W; tauto); try done; cbn.
  - destruct (Z.eqb_spec (- strcmp s v) 0), (Z.compare_spec (strcmp s v) 0); try lia; done.
  - specialize (O2 eq_refl). destruct v2 as [| [v2|] | |]; try done. cbn.
    rewrite (strcmp_antisym s v2). unfold string_order.
    destruct (Z.leb_spec (- strcmp s v) 0), (Z.compare_spec (strcmp s v) 0); try lia; cbn; try done;
    destruct (Z.leb_spec 0 (- strcmp s v2)), (Z.compare_spec (strcmp s v2) 0); try lia; done.
  - destruct (Z.eqb_spec (- strcmp s v) 0), (Z.compare_spec (strcmp s v) 0); try lia; done.
Qed.

Lemma set_time_holds x (y : bool) : 
  match set_time x with None => false | Some _ => y end = if x =? 0 then false else y.
Proof. unfold set_time. by destruct (x =? 0). Qed.

(** A number that is only compared for equality. *)
Lemma number_holds c x : operands_ok KNumber c → is_ordered c.(q_attr) = false →
  match c.(q_op) with
  | QUERY_OP_EQUAL | QUERY_OP_UNEQUAL =>
    let! v := val_i c.(q_value) in Ret (eq_switch c (v =? x))
  | _ => Ret false
  end = Ret (result c (ONumber x)).
Proof.
  intros (K & O & _) U. unfold operand_ok in O. rewrite K in O.
  destruct c.(q_value) as [v| | |] eqn:V; try done. cbn [val_i obind].
  assert (eq_switch c (v =? x) = result c (ONumber x)) as E.
  { unfold op_result. rewrite V. cbn [order]. apply eq_switch_holds; [done|].
    destruct (Z.eqb_spec v x), (Z.compare_spec x v); try lia; done. }
  rewrite E. unfold op_result, op_applies. destruct c.(q_op); try done; by rewrite U.
Qed.

Lemma subject_holds c f : operands_ok KSubject c → is_ordered c.(q_attr) = false →
  match f with
  | None => Ret false
  | Some _ =>
    let! v := val_c c.(q_value) in
    match v, peerName with
    | Some _, _ => Ret (eq_switch c (edg_wll_gss_equal_subj v f))
    | None, Some _ => Ret (eq_switch c (edg_wll_gss_equal_subj peerName f))
    | None, None => Ret false
    end
  end = Ret (match OText <$> f with None => false | Some o => result c o end).
Proof.
  intros (K & O & _) U. destruct f as [s|]; [|done]. cbn [fmap option_fmap option_map].
  unfold operand_ok in O. rewrite K in O. unfold op_result.
  destruct c.(q_value) as [|v| |] eqn:V; try done. cbn [val_c obind order]. rewrite K.
  destruct v as [v|], peerName as [p|]; cbn [fmap option_fmap option_map]; try (f_equal;
    apply eq_switch_holds; [done|]; by destruct (edg_wll_gss_equal_subj _ _)).
  unfold op_holds. destruct c.(q_op); rewrite ?andb_false_r; done.
Qed.

Lemma time_holds c x changed : operands_ok KTime c → is_ordered c.(q_attr) = true →
  c.(q_op) ≠ QUERY_OP_CHANGED →
  (if x =? 0 then Ret false else num_switch val_t c x changed) =
  Ret (match set_time x with None => false | Some o => result c o end).
Proof.
  intros O U N. unfold set_time. destruct (x =? 0); [done|].
  eapply num_switch_holds; eauto using ordered_applies.
Qed.

Lemma jdl_holds c t oldstat name : operands_ok KText c → is_ordered c.(q_attr) = false →
  c.(q_op) ≠ QUERY_OP_CHANGED → c.(q_id) = IdTag (Some name) →
  c.(q_attr) = QUERY_ATTR_JDL_ATTR →
  cond_test peerName jdl_get oldstat t c =
  Ret (match observe jdl_get t c with None => false | Some o => result c o end).
Proof.
  intros (K & O & _) U N Q A. unfold cond_test, observe.
  rewrite (bool_decide_false (_ ∧ _)) by tauto. rewrite Q, A. cbn [id_tag obind].
  unfold operand_ok in O. rewrite K in O.
  destruct c.(q_value) as [|[v|]| |] eqn:V; try done.
  assert (∀ x, match c.(q_op) with
    | QUERY_OP_CHANGED => x
    | _ => match t.(jdl) with
           | None => Ret false
           | Some text =>
             if String.eqb text "blabla" then Ret false else
             match jdl_get text name with
             | None => Ret false
             | Some s => let! r := strcmp_ptr (Some v) (Some s) in Ret (eq_switch c (r =? 0))
             end
           end
    end = Ret (match (match t.(jdl) with
      | Some text => if String.eqb text "blabla" then None else OText <$> jdl_get text name
      | None => None end) with None => false | Some o => result c o end)) as E.
  { intros x. transitivity (match t.(jdl) with
      | None => Ret false
      | Some text =>
        if String.eqb text "blabla" then Ret false else
        match jdl_get text name with
        | None => Ret false
        | Some s => let! r := strcmp_ptr (Some v) (Some s) in Ret (eq_switch c (r =? 0))
        end
      end); [by destruct c.(q_op)|].
    destruct t.(jdl) as [text|]; [|done]. destruct (String.eqb text "blabla"); [done|].
    destruct (jdl_get text name) as [s|]; [|done]. cbn [strcmp_ptr obind fmap option_fmap option_map].
    f_equal. unfold op_result. rewrite V. cbn [order]. rewrite K.
    exact (eq_switch_holds c _ _ _ U (strcmp_order v s)). }
  rewrite <- (E (Ret false)). destruct c.(q_op); try done;
  destruct t.(jdl) as [text|]; try done; destruct (String.eqb text "blabla"); try done;
  by destruct (jdl_get text name).
Qed.

Lemma holds_other stat c : c.(q_attr) ≠ QUERY_ATTR_USERTAG →
  holds peerName jdl_get stat c =
  match observe jdl_get stat c with None => false | Some o => result c o end.
Proof.
  intros N. unfold holds. destruct (observe _ _ _); [done|].
  by rewrite bool_decide_false by (intros [? ?]; done).
Qed.

Lemma unordered_number_holds c x changed : operands_ok KNumber c → is_ordered c.(q_attr) = false →
  c.(q_op) ≠ QUERY_OP_CHANGED →
  match c.(q_op) with
  | QUERY_OP_LESS | QUERY_OP_GREATER | QUERY_OP_WITHIN => Ret false
  | _ => num_switch val_i c x changed
  end = Ret (result c (ONumber x)).
Proof.
  intros O U N. assert (op_applies c.(q_attr) c.(q_op) = true →
    num_switch val_i c x changed = Ret (result c (ONumber x))) as S
    by (intros; eapply num_switch_holds; eauto).
  destruct c.(q_op) eqn:E; try (by apply S); try done;
  unfold op_result, op_applies; by rewrite E, U.
Qed.

Lemma cond_test_holds oldstat stat c : well_formed c = true → status_fits stat c = true →
  (c.(q_op) = QUERY_OP_CHANGED → oldstat = None) →
  cond_test peerName jdl_get oldstat stat c = Ret (holds peerName jdl_get stat c).
Proof.
  intros W F CH.
  destruct (decide (c.(q_op) = QUERY_OP_CHANGED)) as [E|N].
  { rewrite (CH E). unfold cond_test, holds. rewrite E, bool_decide_true by done.
    destruct (observe _ _ _); [|by rewrite bool_decide_false by (intros [? ?]; done)].
    unfold op_result. by rewrite E. }
  destruct (decide (c.(q_attr) = QUERY_ATTR_LOCATION)) as [A|NL]; [by apply location_holds|].
  pose proof (well_formed_operands c W) as O.
  assert (id_ok c = true) as I
    by (unfold well_formed in W; by apply andb_true_iff in W as [[[W _]%andb_true_iff _]%andb_true_iff _]).
  destruct (decide (c.(q_attr) = QUERY_ATTR_JDL_ATTR)) as [J|NJ].
  { unfold id_ok in I. rewrite J in I, O. destruct c.(q_id) as [[name|]|] eqn:Q; try done.
    rewrite holds_other by (by rewrite J).
    eapply jdl_holds; [exact O|by rewrite J|done..]. }
  unfold cond_test. rewrite (bool_decide_false (_ ∧ oldstat = None)) by tauto.
  destruct (decide (c.(q_attr) = QUERY_ATTR_USERTAG)) as [T|NT].
  { unfold holds, observe, status_fits, id_ok in *. rewrite T in I, F, O |- *.
    destruct c.(q_id) as [[name|]|] eqn:Q; try done.
    rewrite (tag_loop_holds c name); [|exact O|by rewrite T|done|done].
    f_equal. case_match; [done|]. destruct (decide (c.(q_op) = QUERY_OP_UNEQUAL)).
    - by rewrite !bool_decide_true.
    - rewrite !bool_decide_false by tauto. done. }
  rewrite (holds_other _ _ NT).
  unfold observe, status_fits, id_ok in *.
  destruct c.(q_attr) eqn:A; try done; cbn [kind_of] in O.
  - apply job_field_holds; [done|by rewrite A].
  - apply subject_holds; [done|by rewrite A].
  - eapply num_switch_holds; eauto. apply ordered_applies; [by rewrite A|done].
  - apply string_field_holds; [done|by rewrite A].
  - eapply num_switch_holds; eauto. apply ordered_applies; [by rewrite A|done].
  - destruct stat.(stateEnterTimes) as [times|]; [|done].
    destruct c.(q_id) as [|s]; [done|]. zbool. cbn [id_state obind]. unfold int_at.
    rewrite (proj2 (Z.ltb_ge _ _)) by lia.
    destruct (lookup_lt_is_Some_2 times (Z.to_nat (1 + s))) as [x X]; [lia|]. rewrite X.
    cbn [obind mbind option_bind]. apply time_holds; [done|by rewrite A|done].
  - apply unordered_number_holds; [done|by rewrite A|done].
  - apply job_field_holds; [done|by rewrite A].
  - eapply num_switch_holds; eauto. apply ordered_applies; [by rewrite A|done].
  - apply time_holds; [done|by rewrite A|done].
  - apply time_holds; [done|by rewrite A|done].
  - apply string_field_holds; [done|by rewrite A].
  - apply number_holds; [done|by rewrite A].
  - apply number_holds; [done|by rewrite A].
Qed.
End Equivalence.

Lemma or_clause_holds pn jdl_get oldstat stat l :
  Forall (λ c, cond_test pn jdl_get oldstat stat c = Ret (holds pn jdl_get stat c)) l →
  or_clause pn jdl_get oldstat stat l = Ret (existsb (holds pn jdl_get stat) l).
Proof.
  induction 1 as [|c l E _ IH]; [done|]. cbn [or_clause existsb]. rewrite E. cbn [obind].
  by destruct (holds pn jdl_get stat c).
Qed.



(** ** Where the code differs *)

(** A registration for the changes of the location crashes the server: the condition has
    no operand, and also with one a job that had no location before. *)
Theorem location_changed_crash pn jdl_get old stat id v v2 s
    (L : stat.(location) = Some s) (D : v = VStr None ∨ (∃ t, v = VStr (Some t)) ∧ old.(location) = None) :
  cond_test pn jdl_get (Some old) stat
    {| q_attr := QUERY_ATTR_LOCATION; q_op := QUERY_OP_CHANGED; q_id := id;
       q_value := v; q_value2 := v2 |} = UB NullDeref.
Proof.
  unfold cond_test. cbn [q_op q_attr q_value].
  rewrite bool_decide_false by (intros [_ ?]; done). rewrite L.
  destruct D as [->|[[t ->] O]]; cbn [val_c obind strcmp_ptr deref]; [done|]. by rewrite O.
Qed.

Lemma location_changed_crash_witness :
  cond_test None (λ _ _, None) (Some edg_wll_InitStatus)
    (edg_wll_InitStatus <| location := Some "ce" |>)
    {| q_attr := QUERY_ATTR_LOCATION; q_op := QUERY_OP_CHANGED; q_id := IdTag None;
       q_value := VStr None; q_value2 := VStr None |} = UB NullDeref.
Proof. apply (location_changed_crash _ _ _ _ _ _ _ "ce"); [reflexivity|left; reflexivity]. Defined.

(** LESS and GREATER of a location ask for the opposite order. *)
Theorem location_order_reversed pn jdl_get oldstat stat id v v2 s :
  stat.(location) = Some s →
  let test op := cond_test pn jdl_get oldstat stat
    {| q_attr := QUERY_ATTR_LOCATION; q_op := op; q_id := id;
       q_value := VStr (Some v); q_value2 := v2 |} in
  test QUERY_OP_LESS = Ret (0 <? strcmp s v) ∧ test QUERY_OP_GREATER = Ret (strcmp s v <? 0).
Proof.
  intros L. unfold cond_test. cbn [q_op q_attr q_value].
  rewrite !bool_decide_false by (intros [? ?]; done). rewrite L.
  cbn [val_c obind strcmp_ptr]. rewrite (strcmp_antisym s v). split; f_equal; lia.
Qed.

(** On events, the order is tested in one direction only: for the time, the source and
    the level, in the clauses that the data base cannot decide, GREATER gives the events that
    LESS gives. *)
Theorem flesh_greater_is_less e a id v v2
    (A : a = QUERY_ATTR_TIME ∨ a = QUERY_ATTR_SOURCE ∨ a = QUERY_ATTR_LEVEL) :
  let test op := flesh_test e {| q_attr := a; q_op := op; q_id := id; q_value := v; q_value2 := v2 |} in
  test QUERY_OP_GREATER = test QUERY_OP_LESS.
Proof. by destruct A as [->|[->| ->]]. Qed.

Lemma flesh_greater_is_less_witness :
  flesh_test {| ev_time := 10; ev_source := 1; ev_level := 8; ev_host := None; ev_type := 1;
                ev_instance := None; ev_tag := None |}
    {| q_attr := QUERY_ATTR_TIME; q_op := QUERY_OP_GREATER; q_id := IdTag None;
       q_value := VTime {| tv_sec := 5; tv_usec := 0 |}; q_value2 := VInt 0 |} = Ret false.
Proof. rewrite (flesh_greater_is_less _ QUERY_ATTR_TIME); [reflexivity|by left]. Defined.
