(* ===== verification/Paging.v ===== *)
(** * Reading the answer of the data base in pages

    The outer loop that [edg_wll_QueryEventsServer] and [edg_wll_QueryJobsServerStream] of
    org.glite.lb.server/src/query.c share: [SELECT ... LIMIT offset, limit] until a page is
    not full.  What is done with a row is a parameter: it goes on with a state, or leaves the
    loop with the result of the function. *)
From Stdlib Require Import ZArith Lia.
From stdpp Require Import base option list numbers.
From S2P Require Import Prelude.
#[local] Open Scope Z_scope.

Section Paging.
Context {St R A : Type} (row_step : St → R → outcome (St + A)) (limit : Z) (finish : St → A).

(** The fetch cycle: the rows of one page. *)
Fixpoint fetch_rows (st : St) (rows : list R) : outcome (St + A) :=
  match rows with
  | [] => Ret (inl st)
  | r :: rows =>
    let! o := row_step st r in
    match o with inl st => fetch_rows st rows | inr a => Ret (inr a) end
  end.

(** The page of a data base that does not change meanwhile. *)
Definition page (all : list R) (offset : Z) : list R :=
  if limit =? 0 then all else take (Z.to_nat limit) (drop (Z.to_nat offset) all).

Fixpoint limit_cycle (fuel : nat) (all : list R) (offset : Z) (st : St) : outcome A :=
  match fuel with
  | O => UB NoFuel
  | S fuel =>
    let rows := page all offset in
    let ret := Z.of_nat (length rows) in
    if ret =? 0 then Ret (finish st) else
    let! o := fetch_rows st rows in
    match o with
    | inr a => Ret a
    | inl st =>
      if (limit =? 0) || (ret <? limit) then Ret (finish st)
      else limit_cycle fuel all (offset + ret) st
    end
  end.

(** Every turn but the last one reads a row. *)
Definition paged (all : list R) (st : St) : outcome A :=
  limit_cycle (S (length all)) all 0 st.

(** All the rows at once. *)
Definition unpaged (all : list R) (st : St) : outcome A :=
  let! o := fetch_rows st all in
  Ret (match o with inl st => finish st | inr a => a end).

Lemma fetch_app a b st : fetch_rows st (a ++ b) =
  let! o := fetch_rows st a in match o with inl st => fetch_rows st b | inr a => Ret (inr a) end.
Proof.
  revert st. induction a as [|r a IH]; intros st; simpl; [done|].
  destruct (row_step _ _) as [[st'|x]|w]; simpl; [apply IH|done|done].
Qed.

Lemma cycle_unpaged all : ∀ fuel offset st, 0 ≤ limit → 0 ≤ offset →
  (length (drop (Z.to_nat offset) all) < fuel)%nat →
  (limit = 0 → offset = 0) →
  limit_cycle fuel all offset st = unpaged (drop (Z.to_nat offset) all) st.
Proof.
  induction fuel as [|fuel IH]; intros offset st L O F N; [lia|]. cbn [limit_cycle].
  set (rest := drop (Z.to_nat offset) all) in *. unfold page. fold rest.
  destruct (Z.eqb_spec limit 0) as [E|E].
  - assert (rest = all) as -> by (unfold rest; by rewrite (N E)).
    destruct (Z.eqb_spec (Z.of_nat (length all)) 0) as [Z0|].
    { destruct all; [done|simpl in Z0; lia]. }
    unfold unpaged. destruct (fetch_rows st all) as [[st'|a]|w]; done.
  - destruct (Z.eqb_spec (Z.of_nat (length (take (Z.to_nat limit) rest))) 0) as [Z0|Z0].
    { destruct rest; [done|]. rewrite length_take in Z0. simpl in Z0. lia. }
    unfold unpaged. set (k := Z.to_nat limit) in *.
    rewrite <- (take_drop k rest) at 2. rewrite fetch_app, obind_assoc.
    destruct (fetch_rows st _) as [[st'|a]|w]; cbn [obind]; [|done|done].
    cbn [orb]. rewrite length_take in *.
    destruct (Z.ltb_spec (Z.of_nat (Nat.min k (length rest))) limit).
    + rewrite drop_ge by lia. done.
    + rewrite IH; [|done|lia| |lia].
      * assert (Z.to_nat (offset + Z.of_nat (Nat.min k (length rest))) = Z.to_nat offset + k)%nat
          as -> by (subst k; lia).
        unfold unpaged, rest. by rewrite drop_drop.
      * subst k rest. rewrite ?length_take, !length_drop in *. lia.
Qed.

Lemma paged_unpaged all st : 0 ≤ limit → paged all st = unpaged all st.
Proof.
  intros L. unfold paged. rewrite cycle_unpaged; [|done|lia| |done];
    change (Z.to_nat 0) with 0%nat; rewrite drop_0; [done|lia].
Qed.

(** What every row preserves holds of the state at the end. *)
Lemma fetch_invariant (P : St → Prop) (Q : A → Prop) rows : ∀ st o,
  (∀ st r o, In r rows → P st → row_step st r = Ret o →
     match o with inl st => P st | inr a => Q a end) →
  P st → fetch_rows st rows = Ret o → match o with inl st => P st | inr a => Q a end.
Proof.
  induction rows as [|r rows IH]; intros st o H I E; cbn [fetch_rows] in E.
  { by injection E as <-. }
  destruct (row_step st r) as [[st'|a]|] eqn:X; cbn [obind] in E; [| |done].
  - eapply IH; [|exact (H _ _ _ (or_introl eq_refl) I X)|exact E].
    intros; eapply H; eauto. by right.
  - injection E as <-. exact (H _ _ _ (or_introl eq_refl) I X).
Qed.
End Paging.
