(* ===== verification/QueryRows.v ===== *)
(** * Queries of events

    The rows that [edg_wll_QueryEventsServer] (org.glite.lb.server/src/query.c) reads from
    the data base: the paging with LIMIT, the conditions that the data base did not decide,
    the authorisation.  The data base, the fetching of the fields of an event and the status
    of a job are parameters. *)
From Stdlib Require Import ZArith Lia Ascii.
From stdpp Require Import base option list sets strings numbers.
From S2P Require Import Prelude CLib JobId LbTypes Gss Query Paging.
#[local] Open Scope Z_scope.

Inductive query_results := QUERYRES_NONE | QUERYRES_ALL | QUERYRES_LIMITED.
#[export] Instance query_results_eq_dec : EqDecision query_results.
Proof. solve_decision. Defined.

(** What the code reads of its context. *)
Record server_ctx := {
  peerName : option string;
  srvName : option string;
  srvPort : Z;
  isProxy : bool;
  p_query_results : query_results;
  softLimit : Z;
  hardEventsLimit : Z
}.

(** A row: the owner of the job, the job, the event ([None] if its fields cannot be
    fetched). *)
Record row := {
  row_user : string;
  row_job : string;
  row_event : option event_view
}.

Definition E2BIG : Z := 7.
Definition ENOENT : Z := 2.

Definition query_limit (ctx : server_ctx) : Z :=
  if negb (ctx.(softLimit) =? 0) then
    if negb (ctx.(hardEventsLimit) =? 0)
    then (if ctx.(softLimit) <? ctx.(hardEventsLimit) then ctx.(softLimit)
          else ctx.(hardEventsLimit))
    else ctx.(softLimit)
  else if negb (ctx.(hardEventsLimit) =? 0) then ctx.(hardEventsLimit) else 0.

(** [j_old], [match_status_old], the error code of the context and the events found. *)
Record loop_state := {
  j_old : option string;
  match_status_old : bool;
  ctx_err : Z;
  out : list (JobId * event_view)
}.
#[export] Instance eta_loop_state : Eta loop_state :=
  fun x => {| j_old := j_old x; match_status_old := match_status_old x;
              ctx_err := ctx_err x; out := out x |}.

Section Rows.
Context (ctx : server_ctx) (noAuth filter : bool).
Context (jc ec : option conditions).
Context (jdl_get : string → string → option string).
(** [edg_wll_JobStatusServer], which also authorises the client: the error, or the status. *)
Context (job_status : JobId → Z + JobStat).
(** [edg_wll_GetACL] and [edg_wll_CheckACL] grant the reading. *)
Context (acl_read : JobId → bool).
Context (strmd5 : string → string).

(** Rows are taken over ([Some]), or the loop is left with E2BIG ([None]). *)
Definition owner_row (r : row) : bool :=
  match ctx.(peerName) with
  | None => false
  | Some p => String.eqb r.(row_user) (strmd5 p) ||
              String.eqb r.(row_user) (strmd5 (edg_wll_gss_normalize_subj p))
  end.

Definition next (r : row) (st : loop_state) (m : bool) (err : Z) (found : list (JobId * event_view)) :
    loop_state :=
  {| j_old := Some r.(row_job); match_status_old := m; ctx_err := err; out := st.(out) ++ found |}.

(** The job conditions: the new [match_status_old], the error of the context (which fetching
    the fields of the event has reset), and whether the row goes on. *)
Definition job_check (st : loop_state) (r : row) (j : JobId) : outcome (bool * Z * bool) :=
  if negb filter then Ret (st.(match_status_old), 0, true) else
  if bool_decide (st.(j_old) = Some r.(row_job)) then
    Ret (st.(match_status_old), 0, st.(match_status_old))
  else
    match job_status j with
    | inl err => Ret (st.(match_status_old), err, false)
    | inr s =>
      let! m := match_status ctx.(peerName) jdl_get None s jc in Ret (m, 0, m)
    end.

Definition auth_check (r : row) (j : JobId) : bool :=
  filter || noAuth || owner_row r || acl_read j.

(** The end of the function, after the loop: the events (before sorting) and the error. *)
Definition found_result (st : loop_state) : list (JobId * event_view) * Z :=
  if bool_decide (st.(out) = []) then ([], ENOENT) else (st.(out), st.(ctx_err)).

(** E2BIG: [QUERYRES_LIMITED] returns what was found so far. *)
Definition big_result (st : loop_state) : list (JobId * event_view) * Z :=
  if bool_decide (ctx.(p_query_results) = QUERYRES_LIMITED)
  then found_result (st <| ctx_err := E2BIG |>) else ([], E2BIG).

(** One turn of the fetch cycle; the right side: the loop is left with E2BIG. *)
Definition row_step (st : loop_state) (r : row) :
    outcome (loop_state + list (JobId * event_view) * Z) :=
  let skip m err := Ret (inl (next r st m err [])) in
  match glite_jobid_parse r.(row_job) with
  | None => UB DanglingPtr            (* the fields are freed, then printed *)
  | Some j =>
    match r.(row_event) with
    | None => skip st.(match_status_old) 0
    | Some e =>
      let! flesh := match_flesh_conditions e ec in
      if negb flesh then skip st.(match_status_old) 0 else
      let! strict := check_strict_jobid ctx.(srvName) ctx.(srvPort) ctx.(isProxy) (Some j) in
      if negb (strict =? 0) then skip st.(match_status_old) 0 else
      let! '(m, err, go) := job_check st r j in
      if negb go then skip m err else
      if negb (auth_check r j) then skip m 0 else
      if negb (bool_decide (ctx.(p_query_results) = QUERYRES_ALL)) &&
         negb (query_limit ctx =? 0) &&
         (query_limit ctx <? Z.of_nat (length st.(out)) + 1)
      then Ret (inr (big_result st))
      else Ret (inl (next r st m 0 [(j, e)]))
    end
  end.

Definition loop_start : loop_state :=
  {| j_old := None; match_status_old := false; ctx_err := 0; out := [] |}.

(** The rows of the answer, read in pages. *)
Definition query_events (all : list row) : outcome (list (JobId * event_view) * Z) :=
  paged row_step (query_limit ctx) found_result all loop_start.
End Rows.

(** ** Paging *)

(** All the rows at once. *)
Definition query_events_unpaged ctx noAuth filter jc ec jdl_get job_status acl_read strmd5
    (all : list row) : outcome (list (JobId * event_view) * Z) :=
  unpaged (row_step ctx noAuth filter jc ec jdl_get job_status acl_read strmd5) found_result
    all loop_start.

Lemma query_unpaged ctx noAuth filter jc ec jdl_get job_status acl_read strmd5 all :
  0 ≤ query_limit ctx →
  query_events ctx noAuth filter jc ec jdl_get job_status acl_read strmd5 all =
  query_events_unpaged ctx noAuth filter jc ec jdl_get job_status acl_read strmd5 all.
Proof. apply paged_unpaged. Qed.

(** C30: Reading the answer of the data base in pages of any size gives the events, the
    error code and the faults of reading it at once, and the loop ends. *)
Theorem paging_complete ctx noAuth filter jc ec jdl_get job_status acl_read strmd5 all :
  0 ≤ query_limit ctx →
  query_events ctx noAuth filter jc ec jdl_get job_status acl_read strmd5 all =
  query_events_unpaged ctx noAuth filter jc ec jdl_get job_status acl_read strmd5 all.
Proof. apply query_unpaged. Qed.

(** ** Which rows are taken over *)
Section Filtered.
Context (ctx : server_ctx) (noAuth : bool) (jc ec : option conditions)
  (jdl_get : string → string → option string) (job_status : JobId → Z + JobStat)
  (acl_read : JobId → bool) (strmd5 : string → string).

(** A row of the job [j] whose event [e] satisfies the conditions on events. *)
Record good_row (r : row) (j : JobId) (e : event_view) : Prop := {
  gr_job : glite_jobid_parse r.(row_job) = Some j;
  gr_event : r.(row_event) = Some e;
  gr_flesh : match_flesh_conditions e ec = Ret true;
  gr_strict : check_strict_jobid ctx.(srvName) ctx.(srvPort) ctx.(isProxy) (Some j) = Ret 0
}.
Definition job_matches (j : JobId) (b : bool) : Prop :=
  ∃ s, job_status j = inr s ∧ match_status ctx.(peerName) jdl_get None s jc = Ret b.

#[local] Abbreviation step := (row_step ctx noAuth true jc ec jdl_get job_status acl_read strmd5).
#[local] Abbreviation fetch := (fetch_rows (row_step ctx noAuth true jc ec jdl_get job_status acl_read strmd5)).

Definition taken (st : loop_state) (r : row) (j : JobId) (e : event_view) (b : bool) : loop_state :=
  next r st b 0 (if b then [(j, e)] else []).

Lemma good_step st r j e m err go : good_row r j e → query_limit ctx = 0 →
  job_check ctx true jc jdl_get job_status st r j = Ret (m, err, go) →
  step st r = Ret (inl (next r st m (if go then 0 else err) (if go : bool then [(j, e)] else []))).
Proof.
  intros [] L J. unfold row_step. rewrite gr_job0, gr_event0, gr_flesh0. cbn [obind negb].
  rewrite gr_strict0. cbn [obind]. change (negb (0 =? 0)) with false. cbn iota. rewrite J.
  cbn [obind]. destruct go; cbn [negb]; [|done].
  unfold auth_check. cbn [orb negb]. rewrite L. rewrite andb_false_r. done.
Qed.

(** The remembered result is that of the remembered job. *)
Definition remembers (st : loop_state) : Prop :=
  ∀ t j b, st.(j_old) = Some t → glite_jobid_parse t = Some j → job_matches j b →
    st.(match_status_old) = b.

Lemma job_matches_fun j b c : job_matches j b → job_matches j c → b = c.
Proof. intros (s & E & M) (s' & E' & M'). congruence. Qed.

Lemma checked_step st r j e b : good_row r j e → query_limit ctx = 0 → remembers st →
  job_matches j b →
  step st r = Ret (inl (taken st r j e b)) ∧ remembers (taken st r j e b).
Proof.
  intros G L R M. split.
  - rewrite (good_step st r j e b 0 b G L); [by destruct b|]. unfold job_check. cbn [negb].
    case_bool_decide as O.
    + by rewrite (R _ _ _ O (gr_job _ _ _ G) M).
    + destruct M as (s & E1 & E2). by rewrite E1, E2.
  - intros t j' b' [= <-] P M'. rewrite (gr_job _ _ _ G) in P. injection P as <-.
    by eapply job_matches_fun.
Qed.

Lemma checked_rows l : ∀ st, query_limit ctx = 0 → remembers st → st.(ctx_err) = 0 →
  Forall (λ '(r, j, e, b), good_row r j e ∧ job_matches j b) l →
  ∃ st', fetch st (map (λ '(r, _, _, _), r) l) = Ret (inl st') ∧ st'.(ctx_err) = 0 ∧
    st'.(out) = st.(out) ++
      flat_map (λ '(r, j, e, b), if b : bool then [(j, e)] else []) l.
Proof.
  induction l as [|[[[r j] e] b] l IH]; intros st L R Z0 F; simpl.
  { exists st. by rewrite app_nil_r. }
  pose proof (Forall_inv F) as [G M]. pose proof (Forall_inv_tail F) as F'.
  destruct (checked_step st r j e b G L R M) as [-> R']. cbn [obind].
  destruct (IH (taken st r j e b) L R' eq_refl F') as (st' & -> & Z1 & E). exists st'.
  split; [done|]. split; [done|]. rewrite E. cbn [taken next out]. by rewrite <- app_assoc.
Qed.
End Filtered.

(** With conditions that need the status of the job: if every row can be read, every job
    is on this server and its status can be computed, then the events returned are exactly
    those of the jobs that satisfy the conditions, in the order of the rows. *)
Theorem filtered_events ctx noAuth jc ec jdl_get job_status acl_read strmd5 l
    (L : query_limit ctx = 0)
    (F : Forall (λ '(r, j, e, b), good_row ctx ec r j e ∧ job_matches ctx jc jdl_get job_status j b) l) :
  let found := flat_map (λ '(r, j, e, b), if b : bool then [(j, e)] else []) l in
  query_events ctx noAuth true jc ec jdl_get job_status acl_read strmd5
    (map (λ '(r, _, _, _), r) l) =
  Ret (if bool_decide (found = []) then ([], ENOENT) else (found, 0)).
Proof.
  rewrite query_unpaged by lia. unfold query_events_unpaged, unpaged.
  destruct (checked_rows ctx noAuth jc ec jdl_get job_status acl_read strmd5 l loop_start)
    as (st & -> & E & O); [done|by intros ? ? ?|done|done|].
  cbn [obind]. unfold found_result. rewrite E, O. done.
Qed.

(** ** A job whose status is refused *)
Section Refused.
Context (ctx : server_ctx) (noAuth : bool) (jc ec : option conditions)
  (jdl_get : string → string → option string) (job_status : JobId → Z + JobStat)
  (acl_read : JobId → bool) (strmd5 : string → string).
#[local] Abbreviation fetch := (fetch_rows (row_step ctx noAuth true jc ec jdl_get job_status acl_read strmd5)).

(** The later rows of a job inherit the result of the job before. *)
Lemma same_job_rows t m l : ∀ st, query_limit ctx = 0 →
  st.(j_old) = Some t → st.(match_status_old) = m →
  Forall (λ '(r, j, e), good_row ctx ec r j e ∧ r.(row_job) = t) l →
  fetch st (map (λ '(r, _, _), r) l) =
  Ret (inl {| j_old := Some t; match_status_old := m;
          ctx_err := if bool_decide (l = []) then st.(ctx_err) else 0;
          out := st.(out) ++ (if m then map (λ '(_, j, e), (j, e)) l else []) |}).
Proof.
  induction l as [|[[r j] e] l IH]; intros st L O M F; cbn [map fetch_rows].
  { destruct st; simpl in *; subst. destruct m; by rewrite app_nil_r. }
  pose proof (Forall_inv F) as [G T]. pose proof (Forall_inv_tail F) as F'.
  rewrite (good_step ctx noAuth jc ec jdl_get job_status acl_read strmd5 st r j e m 0 m G L).
  2:{ unfold job_check. cbn [negb]. rewrite O, M, T. by rewrite bool_decide_true. }
  cbn [obind]. unfold next. rewrite T, IH by (subst; done). f_equal. f_equal. f_equal.
  - cbn [ctx_err]. destruct m; by case_bool_decide.
  - cbn [out]. rewrite <- app_assoc. by destruct m.
Qed.

Lemma refused_rows st r j e err l : query_limit ctx = 0 →
  good_row ctx ec r j e → st.(j_old) ≠ Some r.(row_job) → job_status j = inl err →
  Forall (λ '(s, k, _), row_job s = row_job r ∧ k = j) l →
  Forall (λ '(s, k, f), good_row ctx ec s k f) l →
  fetch st (r :: map (λ '(s, _, _), s) l) =
  Ret (inl {| j_old := Some r.(row_job); match_status_old := st.(match_status_old);
          ctx_err := if bool_decide (l = []) then err else 0;
          out := st.(out) ++ (if st.(match_status_old) then map (λ '(_, k, f), (k, f)) l else []) |}).
Proof.
  intros L G D S F1 F2. cbn [fetch_rows].
  rewrite (good_step ctx noAuth jc ec jdl_get job_status acl_read strmd5 st r j e
             st.(match_status_old) err false G L).
  2:{ unfold job_check. cbn [negb]. rewrite bool_decide_false by done. by rewrite S. }
  cbn [obind]. rewrite (same_job_rows r.(row_job) st.(match_status_old)); try done.
  - unfold next. cbn [ctx_err out]. by rewrite app_nil_r.
  - rewrite Forall_forall in F1, F2 |- *. intros [[s k] f] I.
    specialize (F1 _ I). specialize (F2 _ I). simpl in F1, F2. tauto.
Qed.
End Refused.

(** What becomes of a job whose status [edg_wll_JobStatusServer] refuses (EPERM) depends
    on the job before it and on the number of its rows.  After a job that satisfies the
    conditions all its events but the first are returned, with no error; if it has one row
    only, and that is the last one, the whole answer has the error. *)
Theorem refused_job ctx noAuth jc ec jdl_get job_status acl_read strmd5
    r0 j0 e0 r j e l err (L : query_limit ctx = 0)
    (G0 : good_row ctx ec r0 j0 e0) (M0 : job_matches ctx jc jdl_get job_status j0 true)
    (G : good_row ctx ec r j e) (D : r0.(row_job) ≠ r.(row_job)) (S : job_status j = inl err)
    (F1 : Forall (λ '(s, k, _), row_job s = row_job r ∧ k = j) l)
    (F2 : Forall (λ '(s, k, f), good_row ctx ec s k f) l) :
  query_events ctx noAuth true jc ec jdl_get job_status acl_read strmd5
    (r0 :: r :: map (λ '(s, _, _), s) l) =
  Ret ((j0, e0) :: map (λ '(_, k, f), (k, f)) l, if bool_decide (l = []) then err else 0).
Proof.
  rewrite query_unpaged by lia. unfold query_events_unpaged, unpaged.
  remember (r :: map _ l) as rest. cbn [fetch_rows]. subst rest.
  destruct (checked_step ctx noAuth jc ec jdl_get job_status acl_read strmd5
    loop_start r0 j0 e0 true) as [-> _]; [done|done|by intros ? ? ?|done|].
  cbn [obind]. rewrite (refused_rows _ _ _ _ _ _ _ _ _ r j e err l); try done.
  cbn [taken next j_old]. congruence.
Qed.

(** ** Authorisation without conditions on the status *)
Section Authorised.
Context (ctx : server_ctx) (jc ec : option conditions)
  (jdl_get : string → string → option string) (job_status : JobId → Z + JobStat)
  (acl_read : JobId → bool) (strmd5 : string → string).

(** The event of a row of the job [j] that the client may read. *)
Definition readable (all : list row) (found : JobId * event_view) : Prop :=
  ∃ r, r ∈ all ∧ glite_jobid_parse r.(row_job) = Some found.1 ∧ r.(row_event) = Some found.2 ∧
    match_flesh_conditions found.2 ec = Ret true ∧
    (owner_row ctx strmd5 r = true ∨ acl_read found.1 = true).

Lemma readable_step all st r o : r ∈ all → Forall (readable all) st.(out) →
  row_step ctx false false jc ec jdl_get job_status acl_read strmd5 st r = Ret o →
  match o with inl st => Forall (readable all) st.(out) | inr a => Forall (readable all) a.1 end.
Proof.
  intros I F S. unfold row_step in S.
  destruct (glite_jobid_parse _) as [j|] eqn:P; [|done].
  destruct r.(row_event) as [e|] eqn:E.
  2:{ injection S as <-. cbn [next out]. by rewrite app_nil_r. }
  destruct (match_flesh_conditions e ec) as [[]|] eqn:M; cbn [obind negb] in S; [| |done].
  2:{ injection S as <-. cbn [next out]. by rewrite app_nil_r. }
  destruct (check_strict_jobid _ _ _ _) as [c|]; cbn [obind] in S; [|done].
  destruct (negb (c =? 0)).
  { injection S as <-. cbn [next out]. by rewrite app_nil_r. }
  unfold job_check, auth_check in S. cbn [negb obind orb] in S.
  destruct (owner_row _ _ _ || acl_read j) eqn:A; cbn [negb] in S.
  2:{ injection S as <-. cbn [next out]. by rewrite app_nil_r. }
  destruct (_ && _); injection S as <-.
  - unfold big_result, found_result. by repeat case_bool_decide.
  - cbn [next out]. apply Forall_app. split; [done|]. constructor; [|done].
    exists r. apply orb_true_iff in A. done.
Qed.
End Authorised.

(** C33: A client that is not exempt from the authorisation gets, by a query without conditions
    on unindexed attributes, only events that are in the data base, satisfy the event
    conditions, and belong to a job the client owns or may read by its ACL. *)
Theorem events_authorised ctx jc ec jdl_get job_status acl_read strmd5 all found err
    (L : 0 ≤ query_limit ctx)
    (Q : query_events ctx false false jc ec jdl_get job_status acl_read strmd5 all =
         Ret (found, err)) :
  Forall (readable ctx ec acl_read strmd5 all) found.
Proof.
  rewrite query_unpaged in Q by done. unfold query_events_unpaged, unpaged in Q.
  destruct (fetch_rows _ _ _) as [o|] eqn:E; cbn [obind] in Q; [|done].
  apply (fetch_invariant _ (λ st, Forall (readable ctx ec acl_read strmd5 all) st.(out))
           (λ a, Forall (readable ctx ec acl_read strmd5 all) a.1)) in E; [| |by constructor].
  - destruct o as [st|a]; injection Q as Q; [|by subst].
    unfold found_result in Q. case_bool_decide; injection Q as <- <-; done.
  - intros st r o' I F S. eapply readable_step; eauto. by apply list_elem_of_In.
Qed.

(** ** Witnesses: a job of the client, and one of which the status is refused *)
Definition demo_ctx (soft : Z) : server_ctx := {|
  peerName := Some "/CN=alice"; srvName := Some "lb.cz"; srvPort := 9000; isProxy := false;
  p_query_results := QUERYRES_NONE; softLimit := soft; hardEventsLimit := 0 |}.
Definition demo_event (t : Z) : event_view := {|
  ev_time := t; ev_source := 1; ev_level := 8; ev_host := Some "wn"; ev_type := 4;
  ev_instance := None; ev_tag := None |}.
Definition demo_row (user job : string) (t : Z) : row := {|
  row_user := user; row_job := "https://lb.cz:9000/" ++ job; row_event := Some (demo_event t) |}.
Definition demo_job (job : string) : JobId :=
  {| jid_id := job; BShost := "lb.cz"; BSport := 9000; jid_info := None |}.
Definition demo_status (j : JobId) : Z + JobStat :=
  if String.eqb j.(jid_id) "mine" then inr edg_wll_InitStatus else inl 1.
Definition demo_md5 (s : string) : string := ("md5:" ++ s)%string.
Definition demo_conditions : option conditions :=
  Some [[{| q_attr := QUERY_ATTR_STATUS; q_op := QUERY_OP_EQUAL; q_id := IdTag None;
            q_value := VInt 0; q_value2 := VInt 0 |}]].

Ltac good_demo := constructor; vm_compute; reflexivity.
Ltac match_demo := eexists; split; [reflexivity|vm_compute; reflexivity].

Lemma paging_complete_witness :
  let rows := [demo_row "md5:/CN=alice" "mine" 1; demo_row "md5:/CN=alice" "mine" 2;
               demo_row "md5:/CN=bob" "other" 3] in
  let q := query_events (demo_ctx 2) false false None None (λ _ _, None) demo_status
             (λ _, false) demo_md5 in
  q rows = query_events_unpaged (demo_ctx 2) false false None None (λ _ _, None) demo_status
             (λ _, false) demo_md5 rows ∧
  q rows = Ret ([(demo_job "mine", demo_event 1); (demo_job "mine", demo_event 2)], 0).
Proof.
  split; [apply paging_complete; vm_compute; discriminate|vm_compute; reflexivity].
Defined.

Lemma filtered_events_witness :
  query_events (demo_ctx 0) false true demo_conditions None (λ _ _, None) demo_status
    (λ _, false) demo_md5
    [demo_row "u" "mine" 1; demo_row "u" "mine" 2] =
  Ret ([(demo_job "mine", demo_event 1); (demo_job "mine", demo_event 2)], 0).
Proof.
  apply (filtered_events (demo_ctx 0) false demo_conditions None (λ _ _, None) demo_status
    (λ _, false) demo_md5
    [(demo_row "u" "mine" 1, demo_job "mine", demo_event 1, true);
     (demo_row "u" "mine" 2, demo_job "mine", demo_event 2, true)]); [reflexivity|].
  repeat constructor; try (vm_compute; reflexivity); match_demo.
Defined.

Lemma refused_job_witness :
  query_events (demo_ctx 0) false true demo_conditions None (λ _ _, None) demo_status
    (λ _, false) demo_md5
    [demo_row "u" "mine" 1; demo_row "v" "other" 2; demo_row "v" "other" 3] =
  Ret ([(demo_job "mine", demo_event 1); (demo_job "other", demo_event 3)], 0).
Proof.
  apply (refused_job (demo_ctx 0) false demo_conditions None (λ _ _, None) demo_status
    (λ _, false) demo_md5 (demo_row "u" "mine" 1) (demo_job "mine") (demo_event 1)
    (demo_row "v" "other" 2) (demo_job "other") (demo_event 2)
    [(demo_row "v" "other" 3, demo_job "other", demo_event 3)] 1);
    try reflexivity; try good_demo; [match_demo|discriminate| |].
  - repeat constructor.
  - repeat constructor; vm_compute; reflexivity.
Defined.

Lemma events_authorised_witness :
  Forall (readable (demo_ctx 2) None (λ _, false) demo_md5
           [demo_row "md5:/CN=alice" "mine" 1; demo_row "md5:/CN=bob" "other" 2])
         [(demo_job "mine", demo_event 1)].
Proof.
  apply (events_authorised (demo_ctx 2) None None (λ _ _, None) demo_status (λ _, false) demo_md5
    [demo_row "md5:/CN=alice" "mine" 1; demo_row "md5:/CN=bob" "other" 2] _ 0);
    vm_compute; [discriminate|reflexivity].
Defined.
