(* ===== verification/QueryWhere.v ===== *)
(** * Queries: the conditions for the data base

    The SQL that the server asks its data base for, from the conditions of a query:
    [jc_to_head_where] and [ec_to_head_where] of org.glite.lb.server/src/query.c with the
    checks of indices, the indexed columns of org.glite.lb.server/src/index.c.T, and the times
    of org.glite.lbjp-common.db/src/db.c. *)
From Stdlib Require Import ZArith Lia Ascii.
From stdpp Require Import base option list strings numbers.
From S2P Require Import Prelude CLib JobId LbTypes Gss Escape UlmDate Query QueryMatch.
#[local] Open Scope Z_scope.

Definition EPERM : Z := 1.
Definition EINVAL : Z := 22.
Definition EDG_WLL_ERROR_NOINDEX : Z := 1416.

(** ** Texts *)

(** [gmtime] also before 1970: the calendar repeats every 400 years. *)
Definition gmtime_z (t : Z) : option tm :=
  let cycle := 146097 * 86400 in
  if t <? 0 then
    let k := - t / cycle + 1 in
    (λ m, {| tm_year := m.(tm_year) - 400 * k; tm_mon := m.(tm_mon); tm_mday := m.(tm_mday);
             tm_hour := m.(tm_hour); tm_min := m.(tm_min); tm_sec := m.(tm_sec) |})
    <$> gmtime (t + k * cycle)
  else gmtime t.

Definition glite_lbu_TimeToStr (t : Z) : outcome string :=
  match gmtime_z t with
  | None => UB NullDeref
  | Some m =>
    Ret (asprintf "'%4d-%02d-%02d %02d:%02d:%02d'"
           [PInt m.(tm_year); PInt m.(tm_mon); PInt m.(tm_mday);
            PInt m.(tm_hour); PInt m.(tm_min); PInt m.(tm_sec)])
  end.

(** ["'%|Ss'"] *)
Definition sql_string (s : option string) : outcome string :=
  let! e := glite_lbu_EscapeSQL s in Ret ("'" +:+ default "(nil)" e +:+ "'").

Definition opToString (op : query_op) : string :=
  match op with
  | QUERY_OP_EQUAL => "="
  | QUERY_OP_UNEQUAL => "!="
  | QUERY_OP_LESS => "<"
  | _ => ">"
  end.

(** ** Columns *)
Definition STD_PREFIX : string := "STD_".
Definition USR_PREFIX : string := "USR_".
Definition TIME_PREFIX : string := "TIME_".
Definition JDL_PREFIX : string := "JDL_".

Definition std_attrs : list (string * query_attr) :=
  [("owner", QUERY_ATTR_OWNER); ("destination", QUERY_ATTR_DESTINATION);
   ("location", QUERY_ATTR_LOCATION); ("network_server", QUERY_ATTR_NETWORK_SERVER);
   ("stateEnterTime", QUERY_ATTR_STATEENTERTIME);
   ("lastUpdateTime", QUERY_ATTR_LASTUPDATETIME)].

(** [strncasecmp(s,prefix,strlen(prefix)) == 0]: what follows the prefix. *)
Definition strip_prefix_case (prefix s : string) : option string :=
  let n := String.length prefix in
  if strcasecmp_eq (str_take n s) prefix then Some (str_drop n s) else None.

(** The attribute and the tag or state of a column: [None] if it is not a known one. *)
Definition edg_wll_ColumnToQueryRec (col : string) : option (query_attr * query_id) :=
  match strip_prefix_case STD_PREFIX col with
  | Some n =>
    match find (λ a, strcasecmp_eq a.1 n) std_attrs with
    | Some (_, a) => Some (a, IdTag None)
    | None => None
    end
  | None =>
    match strip_prefix_case TIME_PREFIX col with
    | Some n =>
      let s := edg_wll_StringToStat n in
      if s =? -1 then None else Some (QUERY_ATTR_TIME, IdState s)
    | None =>
      match strip_prefix_case USR_PREFIX col with
      | Some n => Some (QUERY_ATTR_USERTAG, IdTag (Some n))
      | None =>
        match strip_prefix_case JDL_PREFIX col with
        | Some n => Some (QUERY_ATTR_JDL_ATTR, IdTag (Some n))
        | None => None
        end
      end
    end
  end.

(** [strcpy] and [strcat] into the buffer of 100 bytes. *)
Definition column_text (prefix name : string) : outcome (option string) :=
  let s := prefix +:+ name in
  if strlen s <? 100 then Ret (Some s) else UB OutOfBounds.

Definition edg_wll_QueryRecToColumn (rec : query_rec) : outcome (option string) :=
  match rec.(q_attr) with
  | QUERY_ATTR_USERTAG =>
    let! t := id_tag rec.(q_id) in let! t := deref t in column_text USR_PREFIX t
  | QUERY_ATTR_TIME =>
    let! s := id_state rec.(q_id) in
    match edg_wll_StatToString s with
    | Some n => column_text TIME_PREFIX n
    | None => Ret None
    end
  | QUERY_ATTR_JDL_ATTR =>
    let! t := id_tag rec.(q_id) in let! t := deref t in column_text JDL_PREFIX t
  | a =>
    match find (λ s, bool_decide (s.2 = a)) std_attrs with
    | Some (n, _) => column_text STD_PREFIX n
    | None => Ret None
    end
  end.

(** ** Indices *)
Section Index.
(** [ctx->job_index]: the columns of each index; [None] if there are none. *)
Context (job_index : option (list (list query_rec))).

Fixpoint existsM {A} (f : A → outcome bool) (l : list A) : outcome bool :=
  match l with
  | [] => Ret false
  | a :: l => let! b := f a in if b then Ret true else existsM f l
  end.
Fixpoint forallM {A} (f : A → outcome bool) (l : list A) : outcome bool :=
  match l with
  | [] => Ret true
  | a :: l => let! b := f a in if b then forallM f l else Ret false
  end.

Definition is_indexed (cond : query_rec) : outcome bool :=
  match job_index with
  | None => Ret false
  | Some idx => existsM (existsM (λ col, same_column col cond)) idx
  end.

(** The first condition of a clause; that of an empty clause has no attribute. *)
Definition clause_head (l : list query_rec) (col : query_rec) : outcome bool :=
  match l with
  | [] => Ret (bool_decide (col.(q_attr) = QUERY_ATTR_UNDEF))
  | c :: _ => same_column col c
  end.

(** 0 or the error. *)
Definition check_job_query_index (jc : option conditions) : outcome Z :=
  match jc with
  | None | Some [] => Ret EDG_WLL_ERROR_NOINDEX
  | Some jc =>
    if existsb (existsb (λ c, bool_decide (c.(q_attr) = QUERY_ATTR_JOBID ∨
                                           c.(q_attr) = QUERY_ATTR_PARENT))) jc
    then Ret 0 else
    match job_index with
    | None => Ret EDG_WLL_ERROR_NOINDEX
    | Some idx =>
      let! b := existsM (λ cols,
        match cols with
        | [] => Ret false
        | _ => forallM (λ col, existsM (λ l, clause_head l col) jc) cols
        end) idx in
      Ret (if b then 0 else EDG_WLL_ERROR_NOINDEX)
    end
  end.

Definition check_event_query_index (jc ec : option conditions) : outcome Z :=
  let! r := check_job_query_index jc in
  if r =? 0 then Ret 0 else
  if existsb (existsb (λ c, bool_decide (c.(q_attr) = QUERY_ATTR_TIME))) (default [] ec)
  then Ret 0 else Ret EDG_WLL_ERROR_NOINDEX.
End Index.

(** ** Conditions on jobs *)
Definition FL_SEL_STATUS : Z := 1.
Definition FL_SEL_JOB : Z := 4.
Definition FL_FILTER : Z := 8.
Definition FL_SEL_JDL : Z := 16.

(** "check correctness only": the operators that an attribute allows. *)
Definition eq_op (op : query_op) : bool :=
  match op with QUERY_OP_EQUAL | QUERY_OP_UNEQUAL => true | _ => false end.

Definition jc_op_ok (c : query_rec) : outcome bool :=
  match c.(q_attr) with
  | QUERY_ATTR_JOBID => Ret (eq_op c.(q_op) || bool_decide (c.(q_op) = QUERY_OP_GREATER))
  | QUERY_ATTR_OWNER | QUERY_ATTR_LOCATION | QUERY_ATTR_DESTINATION | QUERY_ATTR_NETWORK_SERVER
  | QUERY_ATTR_PARENT | QUERY_ATTR_RESUBMITTED | QUERY_ATTR_JDL_ATTR | QUERY_ATTR_JOB_TYPE
  | QUERY_ATTR_VM_STATUS => Ret (eq_op c.(q_op))
  | QUERY_ATTR_TIME =>
    let! s := id_state c.(q_id) in Ret (negb (s =? EDG_WLL_JOB_UNDEF))
  | QUERY_ATTR_DONECODE | QUERY_ATTR_EXITCODE | QUERY_ATTR_STATUS
  | QUERY_ATTR_STATEENTERTIME | QUERY_ATTR_LASTUPDATETIME | QUERY_ATTR_USERTAG => Ret true
  | _ => Ret false
  end.

(** One attribute (and one tag) in a clause. *)
Definition same_kind (c0 c : query_rec) : outcome bool :=
  if negb (bool_decide (c0.(q_attr) = c.(q_attr))) then Ret false else
  match c.(q_attr) with
  | QUERY_ATTR_USERTAG =>
    let! a := id_tag c0.(q_id) in let! b := id_tag c.(q_id) in
    let! r := strcmp_ptr a b in Ret (r =? 0)
  | _ => Ret true
  end.

Definition jc_correct (jc : conditions) : outcome bool :=
  let! b := forallM (λ l,
    match l with
    | [] => Ret true
    | c0 :: _ => forallM (λ c, let! k := same_kind c0 c in if k then jc_op_ok c else Ret false) l
    end) jc in
  Ret (b && negb (bool_decide (concat jc = []))).

Section JobsWhere.
Context (peerName : option string) (job_index : option (list (list query_rec))).

(** What one condition adds: the text, or nothing; and the flags.  [inl]: the error. *)
Definition where_result : Type := Z + (option string * Z).

(** [!is_indexed(cond) || !(cname = edg_wll_QueryRecToColumn(cond))]: the name of the column. *)
Definition indexed_column (c : query_rec) : outcome (option string) :=
  let! b := is_indexed job_index c in
  if b then edg_wll_QueryRecToColumn c else Ret None.

Definition number_atom (cname : string) (c : query_rec) : outcome string :=
  let! v := val_i c.(q_value) in
  match c.(q_op) with
  | QUERY_OP_WITHIN =>
    let! w := val_i c.(q_value2) in
    Ret ("(s." +:+ cname +:+ " >= " +:+ print_int v +:+ " AND s." +:+ cname +:+ " <= " +:+
         print_int w +:+ ")")
  | op => Ret ("s." +:+ cname +:+ " " +:+ opToString op +:+ " " +:+ print_int v)
  end.

Definition time_atom (cname : string) (c : query_rec) : outcome string :=
  let! v := val_t c.(q_value) in
  let! dbt := glite_lbu_TimeToStr v in
  match c.(q_op) with
  | QUERY_OP_WITHIN =>
    let! w := val_t c.(q_value2) in
    let! dbt2 := glite_lbu_TimeToStr w in
    Ret ("(s." +:+ cname +:+ " >= " +:+ dbt +:+ " AND s." +:+ cname +:+ " <= " +:+ dbt2 +:+ ")")
  | op => Ret ("s." +:+ cname +:+ " " +:+ opToString op +:+ " " +:+ dbt)
  end.

Definition job_atom (column : string) (c : query_rec) : outcome string :=
  let! j := val_j c.(q_value) in
  let! s := sql_string (glite_jobid_getUnique j) in
  Ret (column +:+ opToString c.(q_op) +:+ s).

(** The value goes to the text as it is. *)
Definition text_atom (cname : string) (c : query_rec) : outcome string :=
  let! v := val_c c.(q_value) in
  Ret ("s." +:+ cname +:+ opToString c.(q_op) +:+ "'" +:+ default "(null)" v +:+ "'").

Definition where_atom (c : query_rec) : outcome where_result :=
  let indexed fl (atom : string → outcome string) : outcome where_result :=
    let! col := indexed_column c in
    match col with
    | None => Ret (inr (None, fl))
    | Some cname => let! t := atom cname in Ret (inr (Some t, FL_SEL_STATUS))
    end in
  match c.(q_attr) with
  | QUERY_ATTR_TIME | QUERY_ATTR_STATEENTERTIME | QUERY_ATTR_LASTUPDATETIME =>
    indexed FL_FILTER (λ cname, time_atom cname c)
  | QUERY_ATTR_JOBID => let! t := job_atom "j.jobid" c in Ret (inr (Some t, FL_SEL_JOB))
  | QUERY_ATTR_PARENT => let! t := job_atom "s.parent_job" c in Ret (inr (Some t, FL_SEL_STATUS))
  | QUERY_ATTR_OWNER =>
    let! col := indexed_column c in
    match col with
    | None => Ret (inr (None, FL_FILTER))
    | Some cname =>
      let! v := val_c c.(q_value) in
      match (match v with Some _ => v | None => peerName end) with
      | None => Ret (inl EPERM)
      | Some p =>
        let! s := sql_string (Some (edg_wll_gss_normalize_subj p)) in
        Ret (inr (Some ("s." +:+ cname +:+ opToString c.(q_op) +:+ s), FL_SEL_STATUS))
      end
    end
  | QUERY_ATTR_DONECODE | QUERY_ATTR_EXITCODE | QUERY_ATTR_STATUS | QUERY_ATTR_JOB_TYPE
  | QUERY_ATTR_VM_STATUS => indexed FL_FILTER (λ cname, number_atom cname c)
  | QUERY_ATTR_DESTINATION | QUERY_ATTR_NETWORK_SERVER | QUERY_ATTR_LOCATION
  | QUERY_ATTR_RESUBMITTED | QUERY_ATTR_USERTAG | QUERY_ATTR_JDL_ATTR =>
    indexed (Z.lor FL_FILTER FL_SEL_JDL) (λ cname, text_atom cname c)
  | _ => Ret (inr (None, FL_FILTER))
  end.

(** ["%s OR ..."] *)
Definition or_text (conds : option string) (atom : option string) : option string :=
  match atom, conds with
  | None, _ => conds
  | Some a, None => Some a
  | Some a, Some s => Some (s +:+ " OR " +:+ a)
  end.
Fixpoint where_or (l : list query_rec) (conds : option string) (flags : Z) : outcome where_result :=
  match l with
  | [] => Ret (inr (conds, flags))
  | c :: l =>
    let! r := where_atom c in
    match r with
    | inl e => Ret (inl e)
    | inr (atom, fl) => where_or l (or_text conds atom) (Z.lor flags fl)
    end
  end.

(** ["%s AND (%s)"] *)
Definition and_text (retconds : option string) (conds : option string) : option string :=
  match conds, retconds with
  | None, _ => retconds
  | Some c, None => Some ("(" +:+ c +:+ ")")
  | Some c, Some r => Some (r +:+ " AND (" +:+ c +:+ ")")
  end.
Fixpoint where_and (jc : conditions) (retconds : option string) (flags : Z) : outcome where_result :=
  match jc with
  | [] => Ret (inr (retconds, flags))
  | l :: jc =>
    let! r := where_or l None 0 in
    match r with
    | inl e => Ret (inl e)
    | inr (conds, fl) => where_and jc (and_text retconds conds) (Z.lor flags fl)
    end
  end.

(** The error, or the text (NULL if the data base decides nothing) and the flags. *)
Definition jc_to_head_where (jc : conditions) : outcome where_result :=
  let! ok := jc_correct jc in
  if ok then where_and jc None 0 else Ret (inl EINVAL).
End JobsWhere.

(** ** Conditions on events *)
Definition EDG_WLL_EVENT_USERTAG : Z := 21.

Definition ec_op_ok (c : query_rec) : bool :=
  match c.(q_attr) with
  | QUERY_ATTR_HOST | QUERY_ATTR_SOURCE | QUERY_ATTR_USERTAG | QUERY_ATTR_JDL_ATTR
  | QUERY_ATTR_INSTANCE | QUERY_ATTR_JOB_TYPE | QUERY_ATTR_VM_STATUS => eq_op c.(q_op)
  | QUERY_ATTR_EVENT_TYPE | QUERY_ATTR_LEVEL | QUERY_ATTR_TIME
  | QUERY_ATTR_STATEENTERTIME | QUERY_ATTR_LASTUPDATETIME => true
  | _ => false
  end.

Definition event_number_atom (column : string) (c : query_rec) : outcome string :=
  let! v := val_i c.(q_value) in
  match c.(q_op) with
  | QUERY_OP_WITHIN =>
    let! w := val_i c.(q_value2) in
    Ret ("(" +:+ column +:+ " >= " +:+ print_int v +:+ " AND " +:+ column +:+ " <= " +:+
         print_int w +:+ ")")
  | op => Ret (column +:+ " " +:+ opToString op +:+ " " +:+ print_int v)
  end.

Definition event_time_atom (c : query_rec) : outcome string :=
  match c.(q_value) with
  | VTime t =>
    let! dbt := glite_lbu_TimeToStr t.(tv_sec) in
    match c.(q_op) with
    | QUERY_OP_WITHIN =>
      let! w := val_t c.(q_value2) in
      let! dbt2 := glite_lbu_TimeToStr w in
      Ret ("(e.time_stamp >= " +:+ dbt +:+ " AND e.time_stamp <= " +:+ dbt2 +:+ ")")
    | QUERY_OP_EQUAL =>
      Ret ("(e.time_stamp = " +:+ dbt +:+ " AND e.usec = " +:+ print_int (s32 t.(tv_usec)) +:+ ")")
    | op => Ret ("e.time_stamp " +:+ opToString op +:+ " " +:+ dbt)
    end
  | _ => UB Indeterminate
  end.

Definition edg_wll_SourceToString_code (i : Z) : option string :=
  if i <? 0 then None else srcNames !! Z.to_nat i.

(** [None]: the attribute ends the function, with NULL and no error. *)
Definition event_atom (c : query_rec) : outcome (option string) :=
  match c.(q_attr) with
  | QUERY_ATTR_TIME | QUERY_ATTR_STATEENTERTIME | QUERY_ATTR_LASTUPDATETIME =>
    let! t := event_time_atom c in Ret (Some t)
  | QUERY_ATTR_LEVEL => let! t := event_number_atom "e.level" c in Ret (Some t)
  | QUERY_ATTR_EVENT_TYPE => let! t := event_number_atom "e.code" c in Ret (Some t)
  | QUERY_ATTR_SOURCE =>
    let! v := val_i c.(q_value) in
    let! s := sql_string (edg_wll_SourceToString_code v) in
    Ret (Some ("e.prog " +:+ opToString c.(q_op) +:+ " " +:+ s))
  | QUERY_ATTR_HOST =>
    let! v := val_c c.(q_value) in
    let! s := sql_string v in Ret (Some ("e.host " +:+ opToString c.(q_op) +:+ " " +:+ s))
  | QUERY_ATTR_USERTAG => Ret (Some ("e.code = " +:+ print_int EDG_WLL_EVENT_USERTAG))
  | _ => Ret None
  end.

Fixpoint event_or (l : list query_rec) (conds : option string) : outcome (option (option string)) :=
  match l with
  | [] => Ret (Some conds)
  | c :: l =>
    let! a := event_atom c in
    match a with None => Ret None | a => event_or l (or_text conds a) end
  end.

(** A clause with an instance is left to [match_flesh_conditions]. *)
Fixpoint event_and (ec : conditions) (retconds : option string) : outcome (option string) :=
  match ec with
  | [] => Ret retconds
  | l :: ec =>
    if existsb (λ c, bool_decide (c.(q_attr) = QUERY_ATTR_INSTANCE)) l then event_and ec retconds
    else
      let! r := event_or l None in
      match r with None => Ret None | Some conds => event_and ec (and_text retconds conds) end
  end.

(** The text (or NULL), and the error of the context. *)
Definition ec_to_head_where (ec : conditions) : outcome (option string * Z) :=
  if negb (forallb (forallb ec_op_ok) ec) then Ret (None, EINVAL) else
  if bool_decide (concat ec = []) then Ret (None, EINVAL) else
  let! t := event_and ec None in Ret (t, 0).

(** [check_strict_jobid_cond] *)
Fixpoint strict_jobid_cond (srvName : option string) (srvPort : Z) (isProxy : bool)
    (l : list query_rec) : outcome Z :=
  match l with
  | [] => Ret 0
  | c :: l =>
    if bool_decide (c.(q_attr) = QUERY_ATTR_JOBID) then
      let! j := val_j c.(q_value) in
      let! r := check_strict_jobid srvName srvPort isProxy j in
      if r =? 0 then strict_jobid_cond srvName srvPort isProxy l else Ret r
    else strict_jobid_cond srvName srvPort isProxy l
  end.
Definition check_strict_jobid_cond srvName srvPort isProxy (cond : option conditions) : outcome Z :=
  match cond with
  | None => Ret 0
  | Some cond => strict_jobid_cond srvName srvPort isProxy (concat cond)
  end.

(** [jobid_only_query]: the number of clauses without a job identifier. *)
Definition jobid_only_query (jc : conditions) : Z :=
  Z.of_nat (length (filter (λ l, existsb (λ c, bool_decide (c.(q_attr) = QUERY_ATTR_JOBID)) l = false) jc)).

(** ** The columns of a stored status *)
Definition to_sql_string (f : option string) : outcome (option string) :=
  match f with None => Ret None | Some _ => let! s := sql_string f in Ret (Some s) end.

(** [edg_wll_StatToSQL]: the value of a standard column; [None] for other attributes. *)
Definition edg_wll_StatToSQL (stat : JobStat) (a : query_attr) : outcome (option (option string)) :=
  match a with
  | QUERY_ATTR_OWNER => let! s := to_sql_string stat.(owner) in Ret (Some s)
  | QUERY_ATTR_DESTINATION => let! s := to_sql_string stat.(destination) in Ret (Some s)
  | QUERY_ATTR_LOCATION => let! s := to_sql_string stat.(location) in Ret (Some s)
  | QUERY_ATTR_NETWORK_SERVER => let! s := to_sql_string stat.(network_server) in Ret (Some s)
  | QUERY_ATTR_STATEENTERTIME =>
    let! s := glite_lbu_TimeToStr stat.(stateEnterTime).(tv_sec) in Ret (Some (Some s))
  | QUERY_ATTR_LASTUPDATETIME =>
    let! s := glite_lbu_TimeToStr stat.(lastUpdateTime).(tv_sec) in Ret (Some (Some s))
  | _ => Ret None
  end.

Definition text_column (f : option string) : outcome (option string) :=
  match f with None => Ret (Some "''") | Some _ => let! s := sql_string f in Ret (Some s) end.

(** The switch of [edg_wll_IColumnsSQLPart]: the value of the column [q]. *)
Definition column_data (stat : JobStat) (q : query_rec) : outcome (option string) :=
  match q.(q_attr) with
  | QUERY_ATTR_OWNER => text_column (edg_wll_gss_normalize_subj <$> stat.(owner))
  | QUERY_ATTR_LOCATION => text_column stat.(location)
  | QUERY_ATTR_DESTINATION => text_column stat.(destination)
  | QUERY_ATTR_DONECODE => Ret (Some (print_int stat.(done_code)))
  | QUERY_ATTR_USERTAG =>
    match stat.(user_tags) with
    | None => Ret (Some "''")
    | Some tags =>
      let! name := id_tag q.(q_id) in
      match tags with
      | [] => Ret (Some "''")
      | _ =>
        let! name := deref name in
        match find (λ t, String.eqb t.(tag) name) tags with
        | Some t => let! s := sql_string t.(value) in Ret (Some s)
        | None => Ret (Some "''")
        end
      end
    end
  | QUERY_ATTR_TIME =>
    match stat.(stateEnterTimes) with
    | None => Ret (Some "0")
    | Some times =>
      let! s := id_state q.(q_id) in
      let! x := int_at times (s + 1) in
      let! t := glite_lbu_TimeToStr x in Ret (Some t)
    end
  | QUERY_ATTR_RESUBMITTED => Ret (Some (print_int stat.(resubmitted)))
  | QUERY_ATTR_STATEENTERTIME =>
    let! t := glite_lbu_TimeToStr stat.(stateEnterTime).(tv_sec) in Ret (Some t)
  | QUERY_ATTR_LASTUPDATETIME =>
    let! t := glite_lbu_TimeToStr stat.(lastUpdateTime).(tv_sec) in Ret (Some t)
  | QUERY_ATTR_JDL_ATTR => text_column stat.(jdl)
  | _ => Ret None
  end.

(** The names and the values of an INSERT, or the assignments of an UPDATE. *)
Fixpoint icolumns_loop (stat : JobStat) (is_insert : bool) (cols : list (string * query_rec))
    (names values : string) : outcome (string * string) :=
  match cols with
  | [] => Ret (names, values)
  | (colname, q) :: cols =>
    let! data := column_data stat q in
    match data with
    | None => icolumns_loop stat is_insert cols names values
    | Some data =>
      let quoted := ",`" +:+ colname +:+ "`" in
      if is_insert
      then icolumns_loop stat is_insert cols (names +:+ quoted) (values +:+ "," +:+ data)
      else icolumns_loop stat is_insert cols names (values +:+ quoted +:+ "=" +:+ data)
    end
  end.
Definition edg_wll_IColumnsSQLPart (cols : option (list (string * query_rec))) (stat : JobStat)
    (is_insert : bool) : outcome (option string * string) :=
  let! '(names, values) := icolumns_loop stat is_insert (default [] cols) "" "" in
  Ret (if is_insert then Some names else None, values).

(** ** What the data base decides *)
Section Selection.
Context (peerName : option string) (job_index : option (list (list query_rec))).
#[local] Abbreviation atom := (where_atom peerName job_index).

Lemma existsM_ext {A} (f g : A → outcome bool) l : (∀ a, f a = g a) → existsM f l = existsM g l.
Proof. intros E. induction l as [|a l IH]; [done|]. cbn [existsM]. by rewrite E, IH. Qed.

(** Whether an attribute is identified further, by a tag or a state. *)
Definition has_id (a : query_attr) : bool :=
  match a with QUERY_ATTR_USERTAG | QUERY_ATTR_JDL_ATTR | QUERY_ATTR_TIME => true | _ => false end.

Lemma same_column_ext col c d : c.(q_attr) = d.(q_attr) →
  (has_id c.(q_attr) = true → c.(q_id) = d.(q_id)) → same_column col c = same_column col d.
Proof.
  intros E I. unfold same_column. rewrite <- E. case_bool_decide as B; [|done]. cbn [negb].
  destruct col.(q_attr); try done; cbn in *; rewrite <- B in I; by rewrite I.
Qed.

Lemma indexed_column_ext c d : c.(q_attr) = d.(q_attr) →
  (has_id c.(q_attr) = true → c.(q_id) = d.(q_id)) →
  indexed_column job_index c = indexed_column job_index d.
Proof.
  intros E I. unfold indexed_column, is_indexed. destruct job_index as [idx|]; [|done].
  rewrite (existsM_ext _ (existsM (λ col, same_column col d))).
  - destruct (existsM _ idx) as [[]|]; [|done..]. cbn [obind]. unfold edg_wll_QueryRecToColumn.
    rewrite <- E. destruct c.(q_attr); try done; by rewrite I.
  - intros cols. apply existsM_ext. intros col. by apply same_column_ext.
Qed.

Lemma atom_flag c t fl : atom c = Ret (inr (t, fl)) → Z.testbit fl 3 = bool_decide (t = None).
Proof.
  unfold where_atom. intros H.
  repeat match type of H with
  | obind ?m _ = _ => destruct m; cbn [obind] in H; [|discriminate]
  | match ?x with _ => _ end = _ => destruct x
  end; try discriminate; by injection H as <- <-.
Qed.

(** Conditions on one column are both decided by the data base or both not. *)
Lemma atom_same_column c d t u fl fm : atom c = Ret (inr (t, fl)) → atom d = Ret (inr (u, fm)) →
  c.(q_attr) = d.(q_attr) → (has_id c.(q_attr) = true → c.(q_id) = d.(q_id)) →
  is_Some t → is_Some u.
Proof.
  intros H K E I [s ->]. unfold where_atom in H, K.
  rewrite <- (indexed_column_ext c d E I), <- E in K.
  destruct c.(q_attr) eqn:A;
  repeat match type of K with
  | obind ?m _ = _ => let X := fresh in destruct m eqn:X; cbn [obind] in H, K; [|discriminate]
  | match ?x with _ => _ end = _ => let X := fresh in destruct x eqn:X
  end; try discriminate; by injection K as <- <-.
Qed.
End Selection.

(** ** The text and the flags *)
Section Text.
Context (peerName : option string) (job_index : option (list (list query_rec))).
#[local] Abbreviation atom := (where_atom peerName job_index).

Definition atom_text (c : query_rec) : option string :=
  match atom c with Ret (inr (t, _)) => t | _ => None end.
(** The data base decides the condition. *)
Definition decided (c : query_rec) : bool := bool_decide (is_Some (atom_text c)).

Definition join (sep : string) (l : list string) : option string :=
  match l with
  | [] => None
  | s :: l => Some (s +:+ foldr (λ t r, sep +:+ t +:+ r) "" l)
  end.
Definition clause_text (l : list query_rec) : option string := join " OR " (omap atom_text l).
Definition where_text (jc : conditions) : option string :=
  join " AND " (map (λ t, "(" +:+ t +:+ ")") (omap clause_text jc)).

Lemma foldl_join sep l s :
  foldl (λ r t, r +:+ sep +:+ t) s l = s +:+ foldr (λ t r, sep +:+ t +:+ r) "" l.
Proof.
  revert s. induction l as [|t l IH]; intros s; simpl; [by rewrite app_nil_r_str|].
  by rewrite IH, !app_assoc_str.
Qed.

Lemma where_or_some l : ∀ s fl t fm, where_or peerName job_index l (Some s) fl = Ret (inr (t, fm)) →
  t = Some (foldl (λ r t, r +:+ " OR " +:+ t) s (omap atom_text l)) ∧
  Z.testbit fm 3 = Z.testbit fl 3 || negb (forallb decided l).
Proof.
  induction l as [|c l IH]; intros s fl t fm H; cbn [where_or] in H.
  { injection H as <- <-. by rewrite orb_false_r. }
  destruct (atom c) as [[e|[a f]]|] eqn:A; cbn [obind] in H; try discriminate.
  pose proof (atom_flag _ _ _ _ _ A) as F.
  assert (atom_text c = a) as T by (unfold atom_text; by rewrite A).
  cbn [omap list_omap forallb]. unfold decided at 1. rewrite T.
  destruct a as [x|]; apply IH in H as [-> ->]; (split; [done|]); rewrite Z.lor_spec, F.
  - rewrite bool_decide_false by done. by rewrite orb_false_r, bool_decide_true by eauto.
  - by rewrite bool_decide_true, !orb_true_r.
Qed.

Lemma where_or_spec l : ∀ fl t fm, where_or peerName job_index l None fl = Ret (inr (t, fm)) →
  t = clause_text l ∧ Z.testbit fm 3 = Z.testbit fl 3 || negb (forallb decided l).
Proof.
  induction l as [|c l IH]; intros fl t fm H; cbn [where_or] in H.
  { injection H as <- <-. by rewrite orb_false_r. }
  destruct (atom c) as [[e|[a f]]|] eqn:A; cbn [obind] in H; try discriminate.
  pose proof (atom_flag _ _ _ _ _ A) as F.
  assert (atom_text c = a) as T by (unfold atom_text; by rewrite A).
  unfold clause_text. cbn [omap list_omap forallb]. unfold decided at 1. rewrite T.
  destruct a as [x|]; cbn [or_text] in H.
  - apply where_or_some in H as [-> ->]. rewrite Z.lor_spec, F, bool_decide_false by done.
    split; [by rewrite foldl_join|]. by rewrite orb_false_r, bool_decide_true by eauto.
  - apply IH in H as [-> ->]. rewrite Z.lor_spec, F. split; [done|].
    by rewrite bool_decide_true, !orb_true_r.
Qed.

Lemma where_and_some jc : ∀ s fl t fm,
  where_and peerName job_index jc (Some s) fl = Ret (inr (t, fm)) →
  t = Some (foldl (λ r t, r +:+ " AND " +:+ t) s (map (λ t, "(" +:+ t +:+ ")") (omap clause_text jc))) ∧
  Z.testbit fm 3 = Z.testbit fl 3 || negb (forallb (forallb decided) jc).
Proof.
  induction jc as [|l jc IH]; intros s fl t fm H; cbn [where_and] in H.
  { injection H as <- <-. by rewrite orb_false_r. }
  destruct (where_or _ _ l None 0) as [[e|[a f]]|] eqn:A; cbn [obind] in H; try discriminate.
  apply where_or_spec in A as [-> F]. rewrite Z.testbit_0_l in F. cbn [orb] in F.
  cbn [omap list_omap forallb]. destruct (clause_text l) as [x|]; cbn [and_text] in H;
  apply IH in H as [-> ->]; rewrite Z.lor_spec, F; (split; [done|]);
  by destruct (Z.testbit fl 3), (forallb decided l).
Qed.

Lemma where_and_spec jc : ∀ fl t fm,
  where_and peerName job_index jc None fl = Ret (inr (t, fm)) →
  t = where_text jc ∧ Z.testbit fm 3 = Z.testbit fl 3 || negb (forallb (forallb decided) jc).
Proof.
  induction jc as [|l jc IH]; intros fl t fm H; cbn [where_and] in H.
  { injection H as <- <-. by rewrite orb_false_r. }
  destruct (where_or _ _ l None 0) as [[e|[a f]]|] eqn:A; cbn [obind] in H; try discriminate.
  apply where_or_spec in A as [-> F]. rewrite Z.testbit_0_l in F. cbn [orb] in F.
  unfold where_text. cbn [omap list_omap forallb].
  destruct (clause_text l) as [x|]; cbn [and_text] in H.
  - apply where_and_some in H as [-> ->]. cbn [map join]. rewrite foldl_join, Z.lor_spec, F.
    split; [done|]. by destruct (Z.testbit fl 3), (forallb decided l).
  - apply IH in H as [-> ->]. rewrite Z.lor_spec, F. split; [done|].
    by destruct (Z.testbit fl 3), (forallb decided l).
Qed.

(** All conditions of a clause have their part of the text. *)
Lemma where_or_atoms l : ∀ conds fl t fm, where_or peerName job_index l conds fl = Ret (inr (t, fm)) →
  Forall (λ c, ∃ a f, atom c = Ret (inr (a, f))) l.
Proof.
  induction l as [|c l IH]; intros conds fl t fm H; [done|]. cbn [where_or] in H.
  destruct (atom c) as [[e|[a f]]|] eqn:A; cbn [obind] in H; try discriminate.
  constructor; eauto.
Qed.
Lemma where_and_atoms jc : ∀ conds fl t fm, where_and peerName job_index jc conds fl = Ret (inr (t, fm)) →
  Forall (Forall (λ c, ∃ a f, atom c = Ret (inr (a, f)))) jc.
Proof.
  induction jc as [|l jc IH]; intros conds fl t fm H; [done|]. cbn [where_and] in H.
  destruct (where_or _ _ l None 0) as [[e|[a f]]|] eqn:A; cbn [obind] in H; try discriminate.
  constructor; eauto using where_or_atoms.
Qed.

(** ** Whether the selection loses jobs *)

(** What a clause asks of a row: its decided conditions, if there are any. *)
Definition clause_kept (sat : query_rec → bool) (l : list query_rec) : bool :=
  match filter (λ c, decided c = true) l with [] => true | ds => existsb sat ds end.
Definition selected (sat : query_rec → bool) (jc : conditions) : bool :=
  forallb (clause_kept sat) jc.

Lemma same_kind_column c d : same_kind c d = Ret true → q_attr c ≠ QUERY_ATTR_TIME →
  q_attr c ≠ QUERY_ATTR_JDL_ATTR →
  c.(q_attr) = d.(q_attr) ∧ (has_id c.(q_attr) = true → c.(q_id) = d.(q_id)).
Proof.
  intros K N1 N2. unfold same_kind in K. case_bool_decide as B; [|done]. cbn [negb] in K.
  split; [done|]. rewrite <- B in K. destruct (q_attr c); try done. intros _.
  destruct (q_id c) as [a|], (q_id d) as [b|]; try done; cbn [id_tag obind] in K.
  destruct a as [a|], b as [b|]; try done. cbn [strcmp_ptr obind] in K. injection K as K.
  rewrite strcmp_eqb in K. apply String.eqb_eq in K. by subst.
Qed.

Lemma forallM_Forall {A} (f : A → outcome bool) l : forallM f l = Ret true → Forall (λ a, f a = Ret true) l.
Proof.
  induction l as [|a l IH]; intros H; [done|]. cbn [forallM] in H.
  destruct (f a) as [[]|] eqn:E; try discriminate. constructor; [done|by apply IH].
Qed.

(** The conditions of a correct clause stand or fall together. *)
Lemma uniform_clause c0 l : Forall (λ c, same_kind c0 c = Ret true) (c0 :: l) →
  Forall (λ c, ∃ a f, atom c = Ret (inr (a, f))) (c0 :: l) →
  q_attr c0 ≠ QUERY_ATTR_TIME → q_attr c0 ≠ QUERY_ATTR_JDL_ATTR →
  Forall (λ c, decided c = decided c0) (c0 :: l).
Proof.
  intros K A N1 N2. rewrite !Forall_forall in *. intros c I.
  destruct (same_kind_column _ _ (K c I) N1 N2) as [E Id].
  destruct (A c I) as (a & f & Ac), (A c0 (or_introl eq_refl)) as (b & g & A0).
  unfold decided, atom_text. rewrite Ac, A0. apply bool_decide_ext.
  split; eapply (atom_same_column peerName job_index); eauto. intros H. rewrite Id; [done|]. congruence.
Qed.

Lemma filter_uniform (b : bool) (l : list query_rec) : Forall (λ c, decided c = b) l →
  filter (λ c, decided c = true) l = if b then l else [].
Proof.
  induction 1 as [|c l E _ IH]; [by destruct b|]. rewrite filter_cons, E, IH. by destruct b.
Qed.
End Text.


(** In a clause with an indexed and an unindexed condition (only times of two states and
    attributes of the job description can be mixed) the second is dropped: a job that
    satisfies the query by it is not selected, and no filtering brings it back. *)
Theorem mixed_clause_loses peerName job_index c d t fl sat
    (H : jc_to_head_where peerName job_index [[c; d]] = Ret (inr (t, fl)))
    (C : decided peerName job_index c = true) (D : decided peerName job_index d = false)
    (Sc : sat c = false) (Sd : sat d = true) :
  forallb (existsb sat) [[c; d]] = true ∧ selected peerName job_index sat [[c; d]] = false ∧
  t = ((λ s, "(" +:+ s +:+ ")") <$> atom_text peerName job_index c).
Proof.
  unfold jc_to_head_where in H. destruct (jc_correct _) as [[]|]; try discriminate.
  cbn [obind] in H. apply where_and_spec in H as [-> _].
  unfold selected, clause_kept. cbn [forallb existsb]. rewrite Sc, Sd. split; [done|].
  rewrite !filter_cons, C, D, decide_True, decide_False, filter_nil by done.
  cbn [existsb]. rewrite Sc. split; [done|].
  unfold decided in C, D. apply bool_decide_eq_true in C as [s C]. apply bool_decide_eq_false in D.
  unfold where_text, clause_text. cbn [omap list_omap]. rewrite C.
  destruct (atom_text peerName job_index d); [by destruct D|]. cbn.
  by rewrite !app_nil_r_str.
Qed.

(** ** Values in the text *)

(** The job identifiers and subjects of a query are SQL literals of exactly their value:
    behind the opening apostrophe the data base reads the value and then the end of the
    condition, whatever bytes the value has. *)
Theorem values_quoted column op id v2 s :
  (∀ j, job_atom column {| q_attr := QUERY_ATTR_JOBID; q_op := op; q_id := id;
                           q_value := VJob (Some j); q_value2 := v2 |} = Ret s →
   ∃ text, s = column +:+ opToString op +:+ "'" +:+ text ∧ sql_literal text = Some (jid_id j, "")) ∧
  (∀ v, sql_string (Some v) = Ret s → ∃ text, s = "'" +:+ text ∧ sql_literal text = Some (v, "")).
Proof.
  assert (∀ v s, sql_string (Some v) = Ret s →
    ∃ text, s = "'" +:+ text ∧ sql_literal text = Some (v, "")) as L.
  { intros v u H. unfold sql_string in H. rewrite escape_sql_ok in H. cbn [obind default] in H.
    injection H as <-. eexists. split; [reflexivity|].
    change "'"%string with (String APOS ""). by apply sql_back. }
  split; [|by intros v; apply L].
  intros j H. unfold job_atom in H. cbn [q_value q_op val_j obind glite_jobid_getUnique] in H.
  destruct (sql_string (Some (jid_id j))) as [u|] eqn:E; cbn [obind] in H; [|done].
  injection H as <-. destruct (L _ _ E) as (text & -> & P). eauto.
Qed.

(** The value of a condition on the destination (and in the same way on the network
    server, the location, a tag or an attribute of the job description) is put into the text
    as it is: an apostrophe in it ends the literal, the rest of it is read as SQL. *)
Theorem destination_injection peerName job_index id v2 v rest
    (I : indexed_column job_index {| q_attr := QUERY_ATTR_DESTINATION; q_op := QUERY_OP_EQUAL;
           q_id := id; q_value := VStr (Some (v +:+ String APOS (String " " rest))); q_value2 := v2 |}
         = Ret (Some "STD_destination"))
    (Q : str_forall (λ c, negb (Ascii.eqb c APOS) && negb (Ascii.eqb c ULM_BS)) v = true) :
  ∃ text, jc_to_head_where peerName job_index
    [[{| q_attr := QUERY_ATTR_DESTINATION; q_op := QUERY_OP_EQUAL; q_id := id;
         q_value := VStr (Some (v +:+ String APOS (String " " rest))); q_value2 := v2 |}]] =
    Ret (inr (Some ("(s.STD_destination='" +:+ text), FL_SEL_STATUS)) ∧
    sql_literal text = Some (v, String " " rest +:+ "')").
Proof.
  eexists. split.
  - unfold jc_to_head_where. cbn [where_and where_or]. unfold where_atom. cbn [q_attr].
    rewrite I. cbn [obind]. reflexivity.
  - rewrite !app_assoc_str. simpl. clear I.
    induction v as [|c v IH]; simpl in *; [by destruct rest|].
    apply andb_true_iff in Q as [[Q1%negb_true_iff Q2%negb_true_iff]%andb_true_iff Q].
    rewrite Q1, Q2, (IH Q). done.
Qed.


(** The name of the column of a condition is read back as the attribute of the condition,
    with its tag or state. *)
Theorem column_roundtrip rec col (H : edg_wll_QueryRecToColumn rec = Ret (Some col)) :
  ∃ id, edg_wll_ColumnToQueryRec col = Some (q_attr rec, id) ∧
        (has_id (q_attr rec) = true → id = q_id rec).
Proof.
  unfold edg_wll_QueryRecToColumn, column_text in H.
  destruct (q_attr rec) eqn:A;
    try (injection H as <-; vm_compute; eexists; split; [reflexivity|done]); try discriminate.
  - destruct (q_id rec) as [[t|]|] eqn:I; try done. cbn [id_tag obind deref] in H.
    destruct (_ <? 100); [|done]. injection H as <-. by eexists.
  - destruct (q_id rec) as [|n] eqn:I; [done|]. cbn [id_state obind] in H.
    unfold edg_wll_StatToString in H. destruct (n <? 0) eqn:L; [done|].
    destruct (statNames !! Z.to_nat n) as [name|] eqn:N; [|done].
    destruct (_ <? 100); [|done]. injection H as <-. zbool.
    exists (IdState n). split; [|done].
    replace n with (Z.of_nat (Z.to_nat n)) by lia. revert N. generalize (Z.to_nat n). intros k N.
    apply lookup_lt_Some in N as K. do 12 (destruct k as [|k]; [injection N as <-; reflexivity|]).
    simpl in K. lia.
  - destruct (q_id rec) as [[t|]|] eqn:I; try done. cbn [id_tag obind deref] in H.
    destruct (_ <? 100); [|done]. injection H as <-. by eexists.
Qed.

(** One condition on an attribute that the correctness check lets pass but the conversion
    does not know (the job type, the state of a virtual machine, an attribute of the job
    description) makes the function return NULL without an error: the query of events then
    goes on without any of its conditions on events. *)
Theorem event_conditions_dropped c l ec
    (U : q_attr c = QUERY_ATTR_JDL_ATTR ∨ q_attr c = QUERY_ATTR_JOB_TYPE ∨
         q_attr c = QUERY_ATTR_VM_STATUS)
    (I : existsb (λ c, bool_decide (q_attr c = QUERY_ATTR_INSTANCE)) l = false)
    (O : forallb (forallb ec_op_ok) ((c :: l) :: ec) = true) :
  ec_to_head_where ((c :: l) :: ec) = Ret (None, 0).
Proof.
  unfold ec_to_head_where. rewrite O. cbn [negb]. rewrite bool_decide_false by done.
  cbn [event_and existsb]. rewrite I, bool_decide_false by (by destruct U as [->|[-> | ->]]).
  cbn [orb event_or]. unfold event_atom. by destruct U as [->|[-> | ->]].
Qed.

(** The column of the network server is never written: queries on it find nothing. *)
Theorem network_server_not_stored stat is_insert colname q : q_attr q = QUERY_ATTR_NETWORK_SERVER →
  edg_wll_IColumnsSQLPart (Some [(colname, q)]) stat is_insert =
  Ret (if is_insert then Some "" else None, "").
Proof.
  intros E. unfold edg_wll_IColumnsSQLPart. simpl icolumns_loop. unfold column_data. rewrite E.
  by destruct is_insert.
Qed.

(** ** Witnesses *)
Definition demo_cond (a : query_attr) (op : query_op) (id : query_id) (v : query_val) : query_rec :=
  {| q_attr := a; q_op := op; q_id := id; q_value := v; q_value2 := VInt 0 |}.
Definition demo_time (s t : Z) : query_rec :=
  demo_cond QUERY_ATTR_TIME QUERY_OP_LESS (IdState s) (VTime {| tv_sec := t; tv_usec := 0 |}).
(** Indices on the owner, the destination and the time of the state Running. *)
Definition demo_index : option (list (list query_rec)) :=
  Some [[demo_cond QUERY_ATTR_OWNER QUERY_OP_EQUAL (IdTag None) (VInt 0)];
        [demo_cond QUERY_ATTR_DESTINATION QUERY_OP_EQUAL (IdTag None) (VInt 0)];
        [demo_time EDG_WLL_JOB_RUNNING 0]].


Lemma mixed_clause_loses_witness :
  let jc := [[demo_time EDG_WLL_JOB_RUNNING 100; demo_time EDG_WLL_JOB_DONE 200]] in
  selected None demo_index (λ c, match q_id c with IdState s => s =? EDG_WLL_JOB_DONE | _ => false end) jc = false ∧
  jc_to_head_where None demo_index jc =
    Ret (inr (Some "(s.TIME_Running < '1970-01-01 00:01:40')", 9)).
Proof.
  assert (jc_to_head_where None demo_index
    [[demo_time EDG_WLL_JOB_RUNNING 100; demo_time EDG_WLL_JOB_DONE 200]] =
    Ret (inr (Some "(s.TIME_Running < '1970-01-01 00:01:40')", 9))) as H by (vm_compute; reflexivity).
  split; [|exact H].
  apply (mixed_clause_loses _ _ _ _ _ _ (λ c, match q_id c with IdState s => s =? EDG_WLL_JOB_DONE | _ => false end) H);
    vm_compute; reflexivity.
Defined.

Lemma destination_injection_witness :
  ∃ text, jc_to_head_where None demo_index
    [[demo_cond QUERY_ATTR_DESTINATION QUERY_OP_EQUAL (IdTag None) (VStr (Some "x' OR '1'='1"))]] =
    Ret (inr (Some ("(s.STD_destination='" +:+ text), FL_SEL_STATUS)) ∧
    sql_literal text = Some ("x", " OR '1'='1')").
Proof.
  apply (destination_injection None demo_index (IdTag None) (VInt 0) "x" "OR '1'='1");
    vm_compute; reflexivity.
Defined.

Lemma column_roundtrip_witness :
  ∃ id, edg_wll_ColumnToQueryRec "TIME_Running" = Some (QUERY_ATTR_TIME, id) ∧
        (has_id QUERY_ATTR_TIME = true → id = IdState EDG_WLL_JOB_RUNNING).
Proof. apply (column_roundtrip (demo_time EDG_WLL_JOB_RUNNING 0)). vm_compute. reflexivity. Defined.

Lemma event_conditions_dropped_witness :
  ec_to_head_where
    [[demo_cond QUERY_ATTR_JOB_TYPE QUERY_OP_EQUAL (IdTag None) (VInt 0)];
     [demo_cond QUERY_ATTR_HOST QUERY_OP_EQUAL (IdTag None) (VStr (Some "wn"))]] = Ret (None, 0).
Proof. apply event_conditions_dropped; [right; left|..]; reflexivity. Defined.

Lemma values_quoted_witness :
  ∃ text, "'it''s'" = "'" +:+ text ∧ sql_literal text = Some ("it's", "").
Proof.
  apply (proj2 (values_quoted "j.jobid" QUERY_OP_EQUAL (IdTag None) (VInt 0) "'it''s'")).
  vm_compute. reflexivity.
Defined.
