(* ===== verification/QueryJobs.v ===== *)
(** * Queries of jobs

    The rows of [edg_wll_QueryJobsServerStream] (org.glite.lb.server/src/query.c) with the
    callback [queryjobs_cb] that collects the jobs.  The data base and the status of a job
    are parameters. *)
From Stdlib Require Import ZArith Lia Ascii.
From stdpp Require Import base option list strings numbers.
From S2P Require Import Prelude CLib JobId LbTypes Gss Query Paging QueryRows QueryWhere.
#[local] Open Scope Z_scope.

Definition EIDRM : Z := 43.

(** [ctx->hardJobsLimit] takes the place of the limit of events. *)
Definition jobs_limit (softLimit hardJobsLimit : Z) : Z :=
  if negb (softLimit =? 0) then
    if negb (hardJobsLimit =? 0)
    then (if softLimit <? hardJobsLimit then softLimit else hardJobsLimit)
    else softLimit
  else if negb (hardJobsLimit =? 0) then hardJobsLimit else 0.

(** The error of the context and what [queryjobs_cb] collected: [None] for a state that was
    not computed. *)
Record jobs_state := {
  js_err : Z;
  js_found : list (JobId * option JobStat)
}.
#[export] Instance eta_jobs_state : Eta jobs_state :=
  fun x => {| js_err := js_err x; js_found := js_found x |}.

Section Jobs.
Context (ctx : server_ctx) (limit : Z).
(** [FL_FILTER], and [EDG_WLL_STAT_NO_STATES] of the flags. *)
Context (filter no_states : bool) (jc : conditions).
Context (jdl_get : string → string → option string).
Context (job_status : JobId → Z + JobStat).
(** [edg_wll_AreThereZombies] finds a purged job. *)
Context (zombies : bool).

Definition jobs_result : Type := list (JobId * option JobStat) * Z.

(** After the loop.  Purged jobs are looked for only if every clause has a job identifier,
    and not after EPERM. *)
Definition jobs_end (st : jobs_state) : jobs_result :=
  match st.(js_found) with
  | [] =>
    let eidrm := negb (st.(js_err) =? EPERM) && (jobid_only_query jc =? 0) && zombies in
    ([], if eidrm then EIDRM else ENOENT)
  | found => (found, if st.(js_err) =? EPERM then 0 else st.(js_err))
  end.

(** E2BIG: the jobs that were already passed to the callback stay collected. *)
Definition jobs_big (st : jobs_state) : jobs_result :=
  if bool_decide (ctx.(p_query_results) = QUERYRES_LIMITED)
  then jobs_end (st <| js_err := E2BIG |>) else (st.(js_found), E2BIG).

Definition found_job (st : jobs_state) (j : JobId) (s : option JobStat) :
    outcome (jobs_state + jobs_result) :=
  if negb (bool_decide (ctx.(p_query_results) = QUERYRES_ALL)) &&
     negb (limit =? 0) && (limit <? Z.of_nat (length st.(js_found)) + 1)
  then Ret (inr (jobs_big st))
  else Ret (inl {| js_err := 0; js_found := st.(js_found) ++ [(j, s)] |}).

Definition jobs_step (st : jobs_state) (dbjob : string) : outcome (jobs_state + jobs_result) :=
  match glite_jobid_parse dbjob with
  | None => Ret (inr (st.(js_found), EINVAL))
  | Some j =>
    let! strict := check_strict_jobid ctx.(srvName) ctx.(srvPort) ctx.(isProxy) (Some j) in
    if negb (strict =? 0) then Ret (inl (st <| js_err := 0 |>)) else
    if filter || negb no_states then
      match job_status j with
      | inl err => Ret (inl (st <| js_err := err |>))
      | inr s =>
        let! m := if filter then match_status ctx.(peerName) jdl_get None s (Some jc) else Ret true in
        if negb m then Ret (inl (st <| js_err := 0 |>))
        else found_job st j (if no_states then None else Some s)
      end
    else found_job st j None
  end.

Definition query_jobs (all : list string) : outcome jobs_result :=
  paged jobs_step limit jobs_end all {| js_err := 0; js_found := [] |}.
End Jobs.

(** ** The jobs found *)
Section Props.
Context (ctx : server_ctx) (limit : Z) (filter : bool) (jc : conditions)
  (jdl_get : string → string → option string) (job_status : JobId → Z + JobStat) (zombies : bool).

(** A job of this server that satisfies the conditions and the client may see, with its status:
    what a row of it has to end with. *)
Definition answer (t : string) (j : JobId) (r : option JobStat) : Prop :=
  glite_jobid_parse t = Some j ∧
  check_strict_jobid ctx.(srvName) ctx.(srvPort) ctx.(isProxy) (Some j) = Ret 0 ∧
  match job_status j with
  | inl err => r = None
  | inr s => ∃ b, (if filter then match_status ctx.(peerName) jdl_get None s (Some jc) else Ret true)
                  = Ret b ∧ r = if b : bool then Some s else None
  end.

(** The error left in the context: that of the status of the last job. *)
Definition last_error (j : JobId) : Z :=
  match job_status j with inl err => err | inr _ => 0 end.

#[local] Abbreviation step := (jobs_step ctx 0 filter false jc jdl_get job_status zombies).

Lemma answer_step st t j r : answer t j r →
  step st t = Ret (inl {| js_err := last_error j;
    js_found := st.(js_found) ++ match r with Some s => [(j, Some s)] | None => [] end |}).
Proof.
  intros (P & S & A). unfold jobs_step. rewrite P, S. cbn [obind].
  change (negb (0 =? 0)) with false. cbn iota. rewrite orb_true_r. unfold last_error.
  destruct (job_status j) as [err|s].
  - subst r. by rewrite app_nil_r.
  - destruct A as (b & -> & ->). cbn [obind]. destruct b; cbn [negb].
    + unfold found_job. cbn [negb]. by rewrite andb_false_r.
    + by rewrite app_nil_r.
Qed.

Lemma answer_rows l : ∀ st,
  Forall (λ '(t, j, r), answer t j r) l →
  fetch_rows step st (map (λ '(t, _, _), t) l) =
  Ret (inl {| js_err := match list.last l with Some (_, j, _) => last_error j | None => st.(js_err) end;
    js_found := st.(js_found) ++
      omap (λ '(_, j, r), (λ s, (j, Some s)) <$> r) l |}).
Proof.
  induction l as [|[[t j] r] l IH]; intros st F; cbn [map fetch_rows].
  { rewrite app_nil_r. by destruct st. }
  pose proof (Forall_inv F) as A. rewrite (answer_step st t j r A). cbn [obind].
  rewrite IH by (by eapply Forall_inv_tail). f_equal. f_equal. f_equal.
  - cbn [js_err]. rewrite last_cons. by destruct (list.last l) as [[[? ?] ?]|].
  - cbn [js_found omap list_omap]. rewrite <- app_assoc. by destruct r.
Qed.
End Props.

(** A query of jobs with their states returns exactly the jobs that satisfy the conditions
    and whose status the client may see, in the order of the data base; the refusal of others
    is not reported, but an error other than EPERM of the last job is, beside the jobs. *)
Theorem jobs_found ctx filter jc jdl_get job_status zombies l
    (F : Forall (λ '(t, j, r), answer ctx filter jc jdl_get job_status t j r) l) :
  let found := omap (λ '(_, j, r), (λ s, (j, Some s)) <$> r) l in
  let err := match list.last l with Some (_, j, _) => last_error job_status j | None => 0 end in
  query_jobs ctx 0 filter false jc jdl_get job_status zombies (map (λ '(t, _, _), t) l) =
  Ret (match found with
       | [] => ([], if negb (err =? EPERM) && (jobid_only_query jc =? 0) && zombies
                    then EIDRM else ENOENT)
       | _ => (found, if err =? EPERM then 0 else err)
       end).
Proof.
  cbv zeta. unfold query_jobs. rewrite paged_unpaged by lia. unfold unpaged.
  rewrite answer_rows by done. cbn [obind js_err js_found app]. unfold jobs_end.
  cbn [js_err js_found]. by destruct (omap _ l).
Qed.

Lemma jobs_found_witness :
  query_jobs (demo_ctx 0) 0 false false [] (λ _ _, None) demo_status false
    ["https://lb.cz:9000/mine"; "https://lb.cz:9000/other"] =
  Ret ([(demo_job "mine", Some edg_wll_InitStatus)], 0).
Proof.
  apply (jobs_found (demo_ctx 0) false [] (λ _ _, None) demo_status false
    [("https://lb.cz:9000/mine", demo_job "mine", Some edg_wll_InitStatus);
     ("https://lb.cz:9000/other", demo_job "other", None)]).
  repeat constructor; try (vm_compute; reflexivity).
  exists true. split; reflexivity.
Defined.
