(* ===== verification/Stats.v ===== *)
(** * Statistics of the server

    The counters of jobs that enter a state and of the times between two states, in archives
    of increasing interval, as org.glite.lb.server/src/stats.c keeps them for every
    destination.  A mapped file of groups is a list; the hash table over the signatures of the
    groups finds what a search through the list finds.  [float] is binary32 with the
    arithmetic of IEEE 754. *)
From Stdlib Require Import ZArith Lia SpecFloat.
From stdpp Require Import base option list strings numbers.
From S2P Require Import Prelude CLib LbTypes.
#[local] Open Scope Z_scope.

(** ** [float] *)
Abbreviation float := spec_float.
Definition fadd : float → float → float := SFadd 24 128.
Definition fsub : float → float → float := SFsub 24 128.
Definition fmul : float → float → float := SFmul 24 128.
Definition fdiv : float → float → float := SFdiv 24 128.
Definition fsqrt : float → float := SFsqrt 24 128.
Definition fgtb (a b : float) : bool := SFltb b a.
Definition fzero : float := S754_zero false.
(** The conversion of an integer. *)
Definition fofZ (n : Z) : float := binary_normalize 24 128 n 0 false.

(** ** Data *)
Record cell := { cnt : Z; value : float; value2 : float }.
#[export] Instance eta_cell : Eta cell :=
  fun x => {| cnt := cnt x; value := value x; value2 := value2 x |}.

Record archive := { ptr : nat; cells : list cell }.
#[export] Instance eta_archive : Eta archive := fun x => {| ptr := ptr x; cells := cells x |}.

Record group := {
  sig : string;
  destination : string;
  last_update : Z;
  archives : list archive
}.
#[export] Instance eta_group : Eta group :=
  fun x => {| sig := sig x; destination := destination x; last_update := last_update x;
              archives := archives x |}.

Inductive stats_type := STATS_COUNT | STATS_DURATION | STATS_DURATION_FROMTO.
Record stats_config := {
  st_type : stats_type;
  base_state : Z;
  final_state : Z;
  minor : Z
}.

(** The interval in seconds and the number of cells. *)
Definition default_archives : list (Z * nat) :=
  [(10, 60%nat); (60, 30%nat); (900, 12%nat); (3600, 168%nat)].

Definition default_stats : list stats_config :=
  let stat t b f m := {| st_type := t; base_state := b; final_state := f; minor := m |} in
  [stat STATS_COUNT EDG_WLL_JOB_READY 0 0;
   stat STATS_COUNT EDG_WLL_JOB_SCHEDULED 0 0;
   stat STATS_COUNT EDG_WLL_JOB_RUNNING 0 0;
   stat STATS_COUNT EDG_WLL_JOB_DONE 0 EDG_WLL_STAT_OK;
   stat STATS_COUNT EDG_WLL_JOB_DONE 0 EDG_WLL_STAT_FAILED;
   stat STATS_DURATION EDG_WLL_JOB_SCHEDULED 0 0;
   stat STATS_DURATION EDG_WLL_JOB_RUNNING 0 0;
   stat STATS_DURATION_FROMTO EDG_WLL_JOB_SUBMITTED EDG_WLL_JOB_RUNNING 0;
   stat STATS_DURATION_FROMTO EDG_WLL_JOB_SUBMITTED EDG_WLL_JOB_DONE EDG_WLL_STAT_OK;
   stat STATS_DURATION_FROMTO EDG_WLL_JOB_SUBMITTED EDG_WLL_JOB_DONE EDG_WLL_STAT_FAILED;
   stat STATS_DURATION_FROMTO EDG_WLL_JOB_SCHEDULED EDG_WLL_JOB_RUNNING 0;
   stat STATS_DURATION_FROMTO EDG_WLL_JOB_RUNNING EDG_WLL_JOB_DONE EDG_WLL_STAT_OK;
   stat STATS_DURATION_FROMTO EDG_WLL_JOB_RUNNING EDG_WLL_JOB_DONE EDG_WLL_STAT_FAILED].

Definition STATS_DEST_SIZE : nat := 256.

(** ** An archive *)
Definition zero_cell (n : Z) : cell := {| cnt := n; value := fzero; value2 := fzero |}.
(** [a->cells[i].cnt = 0] *)
Definition clear_cell (c : cell) : cell := c <| cnt := 0 |>.

Definition new_archive (len : nat) : archive := {| ptr := 0; cells := replicate len (zero_cell (-1)) |}.

(** The loop "catch up eventually": [pt] is the end of the interval of the current cell. *)
Fixpoint catch_up (fuel : nat) (interval : Z) (len : nat) (pt now : Z) (a : archive) : outcome archive :=
  match fuel with
  | O => UB NoFuel
  | S fuel =>
    if pt <? now then
      let p := if (S a.(ptr) =? len)%nat then 0%nat else S a.(ptr) in
      catch_up fuel interval len (pt + interval) now
        {| ptr := p; cells := alter clear_cell p a.(cells) |}
    else Ret a
  end.

(** To the time [now] from the time of the last update. *)
Definition forward (interval : Z) (len : nat) (last now : Z) (a : archive) : outcome archive :=
  let pt := last - Z.rem last interval in
  let! a := if interval * Z.of_nat len <? now - pt
            then Ret {| ptr := 0; cells := clear_cell <$> a.(cells) |}
            else catch_up (S len) interval len (pt + interval) now a in
  Ret (a <| cells := alter (λ c, if cnt c <? 0 then clear_cell c else c) a.(ptr) a.(cells) |>).

(** And the current cell is updated. *)
Definition update_archive (f : cell → outcome cell) (interval : Z) (len : nat) (last now : Z)
    (a : archive) : outcome archive :=
  let! a := forward interval len last now a in
  match a.(cells) !! a.(ptr) with
  | None => UB OutOfBounds
  | Some c => let! c := f c in Ret (a <| cells := <[a.(ptr) := c]> a.(cells) |>)
  end.

Fixpoint update_archives (f : cell → outcome cell) (last now : Z) (cfg : list (Z * nat))
    (l : list archive) : outcome (list archive) :=
  match cfg, l with
  | (interval, len) :: cfg, a :: l =>
    let! a := update_archive f interval len last now a in
    let! l := update_archives f last now cfg l in
    Ret (a :: l)
  | _, _ => Ret l
  end.

Definition count_one (c : cell) : outcome cell :=
  let! n := add_int c.(cnt) 1 in Ret (c <| cnt := n |>).
Definition count_duration (timedif : Z) (c : cell) : outcome cell :=
  let! n := add_int c.(cnt) 1 in
  Ret {| cnt := n; value := fadd c.(value) (fofZ timedif);
         value2 := fadd c.(value2) (fmul (fofZ timedif) (fofZ timedif)) |}.

(** ** The groups of a counter *)
Section Groups.
(** [str2md5base64] of a destination. *)
Context (str2md5base64 : string → string).

Definition stats_search_existing_group (gs : list group) (s : string) : option (nat * group) :=
  list_find (λ g, g.(sig) = s) gs.

(** The groups, with the new one, and the index of the group. *)
Definition stats_search_group (gs : list group) (dest : string) (enter : Z) : list group * nat :=
  let s := str2md5base64 dest in
  match stats_search_existing_group gs s with
  | Some (i, _) => (gs, i)
  | None =>
    (gs ++ [{| sig := s; destination := dest; last_update := enter;
               archives := (λ c, new_archive c.2) <$> default_archives |}], length gs)
  end.

Definition update_group (f : cell → outcome cell) (now : Z) (g : group) : outcome group :=
  let! l := update_archives f g.(last_update) now default_archives g.(archives) in
  Ret (g <| archives := l |> <| last_update := now |>).

(** The destination of a job, if it can be counted. *)
Definition counted_destination (js : JobStat) : option string :=
  match js.(LbTypes.destination) with
  | None => None
  | Some d => if (STATS_DEST_SIZE <=? String.length d)%nat then None else Some d
  end.

Definition stats_inc_counter (js : JobStat) (gs : list group) : outcome (list group) :=
  match counted_destination js with
  | None => Ret gs
  | Some d =>
    let now := tv_sec js.(stateEnterTime) in
    let '(gs, i) := stats_search_group gs d now in
    match gs !! i with
    | None => UB OutOfBounds
    | Some g => let! g := update_group count_one now g in Ret (<[i := g]> gs)
    end
  end.

Definition enter_time (js : JobStat) (st : Z) : outcome Z :=
  match js.(stateEnterTimes) with
  | None => UB NullDeref
  | Some l => match (if st + 1 <? 0 then None else l !! Z.to_nat (st + 1)) with
              | Some t => Ret t
              | None => UB OutOfBounds
              end
  end.

Definition stats_record_duration_fromto (cfg : stats_config) (to : JobStat) (gs : list group) :
    outcome (list group) :=
  match counted_destination to with
  | None => Ret gs
  | Some d =>
    let now := tv_sec to.(stateEnterTime) in
    let '(gs, i) := stats_search_group gs d now in
    match gs !! i with
    | None => UB OutOfBounds
    | Some g =>
      let! base := enter_time to cfg.(base_state) in
      let! final := enter_time to cfg.(final_state) in
      let! g := if negb (base =? 0) && negb (final =? 0) && (base <? final)
                then update_group (count_duration (final - base)) now g
                else Ret (g <| last_update := now |>) in
      Ret (<[i := g]> gs)
    end
  end.

(** One counter of [edg_wll_UpdateStatistics]; [from] is NULL for a new job, [to] never. *)
Definition update_stat (cfg : stats_config) (from : option JobStat) (to : JobStat) (gs : list group) :
    outcome (list group) :=
  let entered st := (to.(state) =? st) &&
    match from with Some from => negb (from.(state) =? to.(state)) | None => true end in
  let minor_ok := negb (to.(state) =? EDG_WLL_JOB_DONE) || (to.(done_code) =? cfg.(minor)) in
  match cfg.(st_type) with
  | STATS_COUNT =>
    if entered cfg.(base_state) && minor_ok then stats_inc_counter to gs else Ret gs
  | STATS_DURATION => Ret gs                   (* [stats_record_duration] does nothing *)
  | STATS_DURATION_FROMTO =>
    match from with
    | None => Ret gs
    | Some _ =>
      if entered cfg.(final_state) && minor_ok then stats_record_duration_fromto cfg to gs else Ret gs
    end
  end.

Fixpoint update_stats (cfgs : list stats_config) (from : option JobStat) (to : JobStat)
    (all : list (list group)) : outcome (list (list group)) :=
  match cfgs, all with
  | cfg :: cfgs, gs :: all =>
    let! gs := update_stat cfg from to gs in
    let! all := update_stats cfgs from to all in
    Ret (gs :: all)
  | _, _ => Ret all
  end.

Definition edg_wll_UpdateStatistics (count_statistics : bool) (from : option JobStat) (to : JobStat)
    (all : list (list group)) : outcome (list (list group)) :=
  if count_statistics then update_stats default_stats from to all else Ret all.
End Groups.
