(* ===== verification/StatsRing.v ===== *)
(** * The archives of the statistics hold the counts of the last intervals

    The ring of cells of Stats.v against its meaning: the number of events in every interval
    of time, with the events that fall on the border of two intervals as the exception. *)
From Stdlib Require Import ZArith Lia SpecFloat Sorted.
From stdpp Require Import base option list strings numbers.
From S2P Require Import Prelude CLib LbTypes Stats.
#[local] Open Scope Z_scope.

(** The interval a time belongs to. *)
Definition bucket (interval t : Z) : Z := t / interval.
(** How many of the times belong to an interval. *)
Definition count_in (interval : Z) (b : Z) (ts : list Z) : Z :=
  Z.of_nat (length (filter (λ t, bucket interval t = b) ts)).

(** How many cells the loop moves forward. *)
Definition moves (interval last now : Z) : nat :=
  Z.to_nat ((now - (last - last mod interval) - 1) / interval).

(** The counts of the cells, the current one first. *)
Definition cnt_back (len : nat) (a : archive) (k : nat) : option Z :=
  cnt <$> cells a !! ((ptr a + len - k) mod len)%nat.

(** The ring stands at the position [p] and the events were recorded at the positions [ps]. *)
Record ring (len : nat) (a : archive) (p : nat) (ps : list nat) : Prop := {
  ring_len : length (cells a) = len;
  ring_ptr : (ptr a < len)%nat;
  ring_past : Forall (λ q, q ≤ p)%nat ps;
  ring_cells : ∀ k, (k < len)%nat → cnt_back len a k =
    Some (if decide (k ≤ p)%nat then Z.of_nat (length (filter (λ q, q = p - k)%nat ps)) else -1)
}.
Arguments ring_len {len a p ps}. Arguments ring_ptr {len a p ps}.
Arguments ring_past {len a p ps}. Arguments ring_cells {len a p ps}.

Lemma none_later p q ps : Forall (λ q, q ≤ p)%nat ps → (p < q)%nat →
  filter (λ x, x = q)%nat ps = [].
Proof.
  intros F L. induction F as [|x ps ? ? IH]; [done|]. rewrite filter_cons_False by lia. done.
Qed.

Lemma mod_back len p k : (p < len)%nat → (k < len)%nat →
  ((p + len - k) mod len = if decide (k ≤ p) then p - k else p + len - k)%nat.
Proof.
  intros P K. case_decide.
  - replace (p + len - k)%nat with (p - k + 1 * len)%nat by lia.
    rewrite Nat.Div0.mod_add. apply Nat.mod_small. lia.
  - apply Nat.mod_small. lia.
Qed.

(** One step forward. *)
Lemma ring_next len a p ps : ring len a p ps →
  let q := if (S (ptr a) =? len)%nat then 0%nat else S (ptr a) in
  ring len {| ptr := q; cells := alter clear_cell q (cells a) |} (S p) ps.
Proof.
  intros R q. pose proof (ring_ptr R) as P. pose proof (ring_len R) as L.
  assert (Q : (q < len)%nat) by (unfold q; destruct (Nat.eqb_spec (S (ptr a)) len); lia).
  split; cbn [cells ptr]; [by rewrite length_alter|done| |].
  - eapply Forall_impl; [|apply (ring_past R)]. cbn. lia.
  - intros k K. unfold cnt_back. cbn [cells ptr]. rewrite mod_back by done.
    destruct k as [|k].
    + rewrite decide_True, decide_True by lia. replace (q - 0)%nat with q by lia.
      rewrite list_lookup_alter_eq. destruct (lookup_lt_is_Some_2 (cells a) q) as [c C]; [lia|].
      rewrite C. cbn. by rewrite (none_later p (S p) ps (ring_past R)) by lia.
    + assert (W : (if decide (S k ≤ q) then q - S k else q + len - S k)%nat =
                  ((ptr a + len - k) mod len)%nat).
      { rewrite mod_back by lia. unfold q. destruct (Nat.eqb_spec (S (ptr a)) len);
        repeat case_decide; lia. }
      rewrite W, list_lookup_alter_ne.
      * change (cnt_back len a k = Some (if decide (S k ≤ S p)%nat then Z.of_nat (length (filter (λ q, q = S p - S k)%nat ps)) else -1)).
        rewrite (ring_cells R k) by lia. cbn [Nat.sub]. repeat case_decide; try lia; done.
      * rewrite <- W. case_decide; lia.
Qed.

Lemma catch_up_ring I len now : 0 < I → ∀ fuel pt a p ps,
  let n := Z.to_nat ((now - (pt - I) - 1) / I) in
  (n < fuel)%nat → ring len a p ps →
  ∃ a', catch_up fuel I len pt now a = Ret a' ∧ ring len a' (p + n) ps.
Proof.
  intros PI. induction fuel as [|fuel IH]; intros pt a p ps n F R; [lia|]. cbn [catch_up].
  destruct (Z.ltb_spec pt now) as [L|L].
  - assert (E : n = S (Z.to_nat ((now - (pt + I - I) - 1) / I))).
    { unfold n. replace (now - (pt - I) - 1) with (now - (pt + I - I) - 1 + 1 * I) by lia.
      rewrite Z.div_add by lia.
      assert (0 ≤ (now - (pt + I - I) - 1) / I) by (apply Z.div_pos; lia). lia. }
    destruct (IH (pt + I) _ (S p) ps ltac:(lia) (ring_next len a p ps R)) as (a' & -> & R').
    exists a'. split; [done|]. rewrite E. by replace (p + _)%nat with (S p + Z.to_nat ((now - (pt + I - I) - 1) / I))%nat by lia.
  - assert (n = 0%nat) as ->.
    { unfold n. assert ((now - (pt - I) - 1) / I < 1) by (apply Z.div_lt_upper_bound; lia). lia. }
    exists a. by rewrite Nat.add_0_r.
Qed.

Lemma reset_ring len a p ps n : (len ≤ n)%nat → ring len a p ps →
  ring len {| ptr := 0; cells := clear_cell <$> cells a |} (p + n) ps.
Proof.
  intros N R. pose proof (ring_ptr R). pose proof (ring_len R) as L. split; cbn [cells ptr].
  - by rewrite length_fmap.
  - lia.
  - eapply Forall_impl; [|apply (ring_past R)]. cbn. lia.
  - intros k K. unfold cnt_back. cbn [cells ptr]. rewrite list_lookup_fmap, decide_True by lia.
    rewrite (none_later p (p + n - k) ps (ring_past R)) by lia.
    destruct (lookup_lt_is_Some_2 (cells a) ((0 + len - k) mod len)%nat) as [c ->]; [|done].
    rewrite L. apply Nat.mod_upper_bound. lia.
Qed.

(** A ring whose current cell is valid is not changed by the validation. *)
Lemma validate_ring len a p ps : ring len a p ps →
  a <| cells := alter (λ c, if cnt c <? 0 then clear_cell c else c) (ptr a) (cells a) |> = a.
Proof.
  intros R. enough (alter (λ c, if cnt c <? 0 then clear_cell c else c) (ptr a) (cells a) = cells a)
    as E by (rewrite E; by destruct a). pose proof (ring_cells R 0 ltac:(pose proof (ring_ptr R); lia)) as C.
  pose proof (ring_ptr R) as P. unfold cnt_back in C.
  rewrite mod_back, decide_True, decide_True in C by lia. rewrite Nat.sub_0_r in C.
  destruct (cells a !! ptr a) as [c|] eqn:E; [|done]. cbn in C. injection C as C.
  apply list_eq. intros i. destruct (decide (i = ptr a)) as [->|N].
  - rewrite list_lookup_alter_eq, E. cbn. by rewrite (proj2 (Z.ltb_ge _ _)) by lia.
  - by rewrite list_lookup_alter_ne by done.
Qed.

Lemma forward_ring I len last now a p ps : 0 < I → 0 ≤ last → ring len a p ps →
  ∃ a', forward I len last now a = Ret a' ∧ ring len a' (p + moves I last now) ps.
Proof.
  intros PI PL R. unfold forward. rewrite Z.rem_mod_nonneg by lia.
  set (pt := last - last mod I). change (moves I last now) with (Z.to_nat ((now - pt - 1) / I)).
  destruct (Z.ltb_spec (I * Z.of_nat len) (now - pt)) as [L|L]; cbn [obind].
  - assert (N : (len ≤ Z.to_nat ((now - pt - 1) / I))%nat).
    { enough (Z.of_nat len ≤ (now - pt - 1) / I) by lia. apply Z.div_le_lower_bound; lia. }
    pose proof (reset_ring len a p ps _ N R) as R'. eexists. split; [done|]. rewrite (validate_ring _ _ _ _ R'). exact R'.
  - destruct (catch_up_ring I len now PI (S len) (pt + I) a p ps) as (a' & -> & R'); [|done|].
    { replace (pt + I - I) with pt by lia.
      assert ((now - pt - 1) / I < Z.of_nat len + 1) by (apply Z.div_lt_upper_bound; lia). lia. }
    replace (pt + I - I) with pt in R' by lia. cbn [obind]. eexists. split; [done|]. rewrite (validate_ring _ _ _ _ R'). exact R'.
Qed.

(** ** One event *)

(** What is done with the cell counts the event. *)
Definition counts (f : cell → outcome cell) : Prop :=
  ∀ c, is_int (cnt c + 1) → ∃ c', f c = Ret c' ∧ cnt c' = cnt c + 1.

Lemma count_one_counts : counts count_one.
Proof.
  intros c I. unfold count_one, add_int. rewrite decide_True by done. eexists. split; [done|].
  by destruct c.
Qed.
Lemma count_duration_counts d : counts (count_duration d).
Proof.
  intros c I. unfold count_duration, add_int. rewrite decide_True by done. by eexists.
Qed.

Lemma record_ring f len a p ps : counts f → Z.of_nat (length ps) < INT_MAX → ring len a p ps →
  ∃ c c', cells a !! ptr a = Some c ∧ f c = Ret c' ∧
    ring len (a <| cells := <[ptr a := c']> (cells a) |>) p (p :: ps).
Proof.
  intros F N R. pose proof (ring_ptr R) as P. pose proof (ring_len R) as L.
  pose proof (ring_cells R 0 ltac:(lia)) as C. unfold cnt_back in C.
  rewrite mod_back, decide_True, decide_True in C by lia. rewrite !Nat.sub_0_r in C.
  destruct (cells a !! ptr a) as [c|] eqn:E; [|done]. cbn in C. injection C as C.
  assert (M : (length (filter (λ q, q = p)%nat ps) ≤ length ps)%nat) by apply length_filter.
  destruct (F c) as (c' & Fc & C').
  { unfold is_int, INT_MIN, INT_MAX in *. lia. }
  exists c, c'. split_and!; [done..|].
  assert (K1 : cells (a <| cells := <[ptr a := c']> (cells a) |>) = <[ptr a := c']> (cells a))
    by by destruct a.
  assert (K2 : ptr (a <| cells := <[ptr a := c']> (cells a) |>) = ptr a) by by destruct a.
  split.
  - by rewrite K1, length_insert.
  - by rewrite K2.
  - constructor; [done|apply (ring_past R)].
  - intros k K. unfold cnt_back. rewrite K1, K2. destruct (decide (k = 0%nat)) as [->|Z].
    + rewrite mod_back, decide_True, decide_True, filter_cons_True by lia.
      rewrite !Nat.sub_0_r, list_lookup_insert_eq by lia. cbn [fmap option_fmap option_map length].
      rewrite C', C. f_equal. lia.
    + rewrite list_lookup_insert_ne.
      * change (cnt_back len a k = Some (if decide (k ≤ p)%nat then Z.of_nat (length (filter (λ q, q = p - k)%nat (p :: ps))) else -1)).
        rewrite (ring_cells R k K). case_decide; [|done]. by rewrite filter_cons_False by lia.
      * rewrite mod_back by lia. case_decide; lia.
Qed.

Lemma update_archive_ring f I len last now a p ps : counts f → 0 < I → 0 ≤ last →
  Z.of_nat (length ps) < INT_MAX → ring len a p ps →
  ∃ a', update_archive f I len last now a = Ret a' ∧
    ring len a' (p + moves I last now) ((p + moves I last now)%nat :: ps).
Proof.
  intros F PI PL N R. destruct (forward_ring I len last now a p ps PI PL R) as (a1 & E & R1).
  destruct (record_ring f len a1 _ ps F N R1) as (c & c' & C & Fc & R2).
  unfold update_archive. rewrite E. cbn [obind]. rewrite C, Fc. by eexists.
Qed.

(** The first event of a group. *)
Lemma update_archive_new f I len now : counts f → 0 < I → 0 ≤ now → (0 < len)%nat →
  ∃ a', update_archive f I len now now (new_archive len) = Ret a' ∧ ring len a' 0 [0%nat].
Proof.
  intros F PI PN L. unfold update_archive, forward. rewrite Z.rem_mod_nonneg by lia.
  pose proof (Z.mod_pos_bound now I PI) as M.
  rewrite (proj2 (Z.ltb_ge _ _)) by nia. cbn [catch_up].
  rewrite (proj2 (Z.ltb_ge _ _)) by lia. cbn [obind].
  set (a := _ <| cells := _ |>).
  assert (A : cells a = zero_cell 0 :: replicate (pred len) (zero_cell (-1)) ∧ ptr a = 0%nat)
    by (destruct len; [lia|done]).
  destruct A as [A P].
  assert (R : ring len a 0 []).
  { split; [rewrite A; cbn; rewrite length_replicate; lia|lia|constructor|].
    intros k K. unfold cnt_back. rewrite mod_back, A, P by lia. destruct k as [|k].
    - rewrite !decide_True by lia. done.
    - rewrite !decide_False by lia. cbn [Nat.add].
      rewrite lookup_cons_ne_0, lookup_replicate_2 by lia. done. }
  destruct (record_ring f len a 0 [] F ltac:(reflexivity) R) as (c & c' & C & Fc & R2).
  rewrite C, Fc. by eexists.
Qed.

(** ** Intervals *)

(** A time that is not on the border of two intervals of an archive. *)
Definition off_border (t : Z) : Prop := Forall (λ c, t mod c.1 ≠ 0) default_archives.

(** The position of a time, counted from the first event of the group. *)
Definition pos (I first t : Z) : nat := Z.to_nat (bucket I t - bucket I first).

Lemma moves_buckets I first last now : 0 < I → 0 ≤ first ≤ last → last ≤ now → now mod I ≠ 0 →
  (pos I first last + moves I last now)%nat = pos I first now.
Proof.
  intros PI F L B. unfold pos, moves, bucket.
  pose proof (Z.div_mod now I ltac:(lia)) as N. pose proof (Z.mod_pos_bound now I PI).
  pose proof (Z.div_mod last I ltac:(lia)) as M.
  assert ((now - (last - last mod I) - 1) / I = now / I - last / I) as ->.
  { replace (now - (last - last mod I) - 1) with (now mod I - 1 + (now / I - last / I) * I) by lia.
    rewrite Z.div_add by lia. rewrite Z.div_small by lia. lia. }
  pose proof (Z.div_le_mono first last I PI ltac:(lia)).
  pose proof (Z.div_le_mono last now I PI ltac:(lia)). lia.
Qed.

(** Every archive of a group is a ring that has recorded the times, the last one first. *)
Definition group_rings (first : Z) (ts : list Z) (g : group) : Prop :=
  Forall2 (λ c a, ring c.2 a (pos c.1 first (last_update g)) (pos c.1 first <$> ts))
    default_archives (archives g).

Lemma update_archives_rings f first last now ts cfg l : counts f → 0 ≤ first ≤ last → last ≤ now →
  Forall (λ c, 0 < c.1 ∧ now mod c.1 ≠ 0) cfg → Z.of_nat (length ts) < INT_MAX →
  Forall2 (λ c a, ring c.2 a (pos c.1 first last) (pos c.1 first <$> ts)) cfg l →
  ∃ l', update_archives f last now cfg l = Ret l' ∧
    Forall2 (λ c a, ring c.2 a (pos c.1 first now) (pos c.1 first <$> now :: ts)) cfg l'.
Proof.
  intros F FL LN B N R. induction R as [|[I len] a cfg l R Rs IH]; [by exists []|].
  inversion B as [|? ? [PI BI] B']; subst. cbn [fst snd] in *. cbn [update_archives].
  destruct (update_archive_ring f I len last now a _ (pos I first <$> ts) F PI
    ltac:(lia) ltac:(by rewrite length_fmap) R) as (a' & -> & R'). cbn [obind].
  destruct (IH B') as (l' & -> & Rs'). cbn [obind]. eexists. split; [done|].
  constructor; [|done]. cbn [fst snd fmap list_fmap].
  by rewrite moves_buckets in R' by done.
Qed.

Lemma new_archives_rings f now cfg : counts f → 0 ≤ now →
  Forall (λ c, 0 < c.1 ∧ (0 < c.2)%nat) cfg →
  ∃ l', update_archives f now now cfg ((λ c : Z * nat, new_archive c.2) <$> cfg) = Ret l' ∧
    Forall2 (λ c a, ring c.2 a (pos c.1 now now) (pos c.1 now <$> [now])) cfg l'.
Proof.
  intros F PN C. induction C as [|[I len] cfg [PI PL] C IH]; [by exists []|].
  cbn [fmap list_fmap update_archives fst snd] in *.
  destruct (update_archive_new f I len now F PI PN PL) as (a' & -> & R). cbn [obind].
  destruct IH as (l' & -> & Rs). cbn [obind]. eexists. split; [done|].
  constructor; [|done]. cbn [fst snd]. unfold pos. by rewrite Z.sub_diag.
Qed.

Lemma default_ok : Forall (λ c : Z * nat, 0 < c.1 ∧ (0 < c.2)%nat) default_archives.
Proof. by repeat constructor. Qed.

Lemma update_group_rings f first now ts g : counts f → 0 ≤ first ≤ last_update g →
  last_update g ≤ now → off_border now → Z.of_nat (length ts) < INT_MAX → group_rings first ts g →
  ∃ g', update_group f now g = Ret g' ∧ group_rings first (now :: ts) g' ∧ last_update g' = now ∧
    sig g' = sig g.
Proof.
  intros F FL LN B N R. unfold update_group.
  destruct (update_archives_rings f first (last_update g) now ts default_archives (archives g)
    F FL LN) as (l' & -> & R'); [|done..|].
  { apply Forall_and; [|exact B]. eapply Forall_impl; [|exact default_ok]. by intros c [? _]. }
  cbn [obind]. eexists. split; [done|]. by destruct g.
Qed.

Lemma new_group_rings f now g : counts f → 0 ≤ now → last_update g = now →
  archives g = (λ c : Z * nat, new_archive c.2) <$> default_archives →
  ∃ g', update_group f now g = Ret g' ∧ group_rings now [now] g' ∧ last_update g' = now ∧
    sig g' = sig g.
Proof.
  intros F PN L A. unfold update_group. rewrite L, A.
  destruct (new_archives_rings f now default_archives F PN default_ok) as (l' & -> & R').
  cbn [obind]. eexists. split; [done|]. by destruct g.
Qed.

(** What a ring of positions says about the intervals. *)
Lemma ring_counts I len a first last ts k : 0 < I → Forall (λ t, first ≤ t) ts → first ≤ last →
  ring len a (pos I first last) (pos I first <$> ts) → (k < len)%nat →
  cnt_back len a k = Some (let b := bucket I last - Z.of_nat k in
                           if bucket I first <=? b then count_in I b ts else -1).
Proof.
  intros PI F L R K. rewrite (ring_cells R k K). unfold pos.
  pose proof (Z.div_le_mono first last I PI L) as M. fold (bucket I first) (bucket I last) in M.
  destruct (Z.leb_spec (bucket I first) (bucket I last - Z.of_nat k)); case_decide; try lia; [|done].
  do 2 f_equal. unfold count_in. clear R. induction F as [|t ts T F IH]; [done|].
  pose proof (Z.div_le_mono first t I PI T) as Mt. fold (bucket I first) (bucket I t) in Mt.
  cbn [fmap list_fmap]. destruct (decide (bucket I t = bucket I last - Z.of_nat k)) as [E|E].
  - rewrite !filter_cons_True by (done || lia). cbn [length]. lia.
  - rewrite !filter_cons_False by (done || lia). done.
Qed.

Lemma rings_counts first last ts cfg l : Forall (λ c : Z * nat, 0 < c.1 ∧ (0 < c.2)%nat) cfg →
  Forall (λ t, first ≤ t) ts → first ≤ last →
  Forall2 (λ c a, ring c.2 a (pos c.1 first last) (pos c.1 first <$> ts)) cfg l →
  Forall2 (λ c a, ∀ k, (k < c.2)%nat → cnt_back c.2 a k =
     Some (let b := bucket c.1 last - Z.of_nat k in
           if bucket c.1 first <=? b then count_in c.1 b ts else -1)) cfg l.
Proof.
  intros C F L R. induction R as [|[I len] a cfg l R Rs IH]; [constructor|].
  inversion C as [|? ? [P _] C']; subst. constructor; [|by apply IH].
  intros k K. by apply (ring_counts I len a first last ts).
Qed.

Lemma sorted_hist l : StronglySorted Z.le l → ∀ first, head l = Some first → Forall (λ t, first ≤ t) l.
Proof.
  intros S first. destruct S as [|x l S F]; [done|]. intros [= ->]. constructor; [lia|].
  eapply Forall_impl; [|exact F]. done.
Qed.

(** ** The counters of all destinations *)
Section Counters.
Context (str2md5base64 : string → string).

Fixpoint inc_all (jobs : list JobStat) (gs : list group) : outcome (list group) :=
  match jobs with
  | [] => Ret gs
  | js :: jobs => let! gs := stats_inc_counter str2md5base64 js gs in inc_all jobs gs
  end.

(** The signature and the time that a job is counted with. *)
Definition event_of (js : JobStat) : option (string * Z) :=
  (λ d, (str2md5base64 d, tv_sec (stateEnterTime js))) <$> counted_destination js.
Definition times_of (s : string) (hist : list (string * Z)) : list Z :=
  snd <$> filter (λ e, e.1 = s) hist.

(** The groups after the events of [hist], the last one first. *)
Record groups_ok (gs : list group) (hist : list (string * Z)) : Prop := {
  go_sigs : NoDup (sig <$> gs);
  go_rings : ∀ i g, gs !! i = Some g → ∃ first last ts,
    times_of (sig g) hist = last :: ts ∧ list.last (last :: ts) = Some first ∧
    last_update g = last ∧ 0 ≤ first ≤ last ∧ group_rings first (last :: ts) g;
  go_all : ∀ e, e ∈ hist → e.1 ∈ sig <$> gs
}.

Lemma search_spec gs s : NoDup (sig <$> gs) →
  match stats_search_existing_group gs s with
  | Some (i, g) => gs !! i = Some g ∧ sig g = s
  | None => s ∉ sig <$> gs
  end.
Proof.
  intros N. unfold stats_search_existing_group. destruct (list_find _ _) as [[i g]|] eqn:E.
  - by apply list_find_Some in E as (? & ? & _).
  - apply list_find_None in E. intros (g & -> & G)%list_elem_of_fmap.
    rewrite Forall_forall in E. apply list_elem_of_In in G. by destruct (E g G).
Qed.

Lemma times_cons_eq s t hist : times_of s ((s, t) :: hist) = t :: times_of s hist.
Proof. unfold times_of. by rewrite filter_cons_True. Qed.
Lemma times_cons_ne s s' t hist : s' ≠ s → times_of s ((s', t) :: hist) = times_of s hist.
Proof. intros N. unfold times_of. by rewrite filter_cons_False. Qed.
Lemma times_in s t hist : t ∈ times_of s hist → (s, t) ∈ hist.
Proof. intros ([s' t'] & -> & [E I]%list_elem_of_filter)%list_elem_of_fmap. cbn in E. by subst. Qed.
Lemma times_length s hist : (length (times_of s hist) ≤ length hist)%nat.
Proof. unfold times_of. rewrite length_fmap. apply length_filter. Qed.

(** The group of an event is replaced. *)
Lemma groups_update gs hist i g g' now first ts : groups_ok gs hist → gs !! i = Some g →
  sig g' = sig g → last_update g' = now → 0 ≤ first ≤ now →
  times_of (sig g) hist = ts → list.last (now :: ts) = Some first →
  group_rings first (now :: ts) g' → groups_ok (<[i := g']> gs) ((sig g, now) :: hist).
Proof.
  intros [N R A] G S L F T La Ri.
  assert (K : sig <$> <[i := g']> gs = sig <$> gs).
  { rewrite list_fmap_insert, S. apply list_insert_id. by rewrite list_lookup_fmap, G. }
  split.
  - by rewrite K.
  - intros j h H. destruct (decide (j = i)) as [->|D].
    + rewrite list_lookup_insert_eq in H by by apply lookup_lt_Some in G. injection H as <-.
      exists first, now, ts. rewrite S, times_cons_eq, T. done.
    + rewrite list_lookup_insert_ne in H by done.
      assert (sig g ≠ sig h).
      { intros E. apply D. eapply (NoDup_lookup _ _ _ (sig h) N); rewrite list_lookup_fmap.
        - by rewrite H. - rewrite G. cbn. by rewrite E. }
      rewrite times_cons_ne by done. by apply (R j).
  - intros e E. rewrite K. apply elem_of_cons in E as [->|E]; [|by apply A].
    apply list_elem_of_fmap. exists g. split; [done|]. by apply list_elem_of_lookup_2 in G.
Qed.

(** A group is added. *)
Lemma groups_add gs hist g now : groups_ok gs hist → sig g ∉ sig <$> gs → last_update g = now →
  0 ≤ now → group_rings now [now] g → groups_ok (gs ++ [g]) ((sig g, now) :: hist).
Proof.
  intros [N R A] S L P Ri.
  assert (T : times_of (sig g) hist = []).
  { destruct (times_of (sig g) hist) as [|t l] eqn:E; [done|]. destruct S.
    apply (A (sig g, t)). apply times_in. rewrite E. apply list_elem_of_here. }
  split.
  - rewrite fmap_app. apply list.NoDup_app. split_and!; [done| |apply NoDup_singleton].
    intros x X [->|[]%not_elem_of_nil]%elem_of_cons. done.
  - intros j h H. apply lookup_snoc_Some in H as [[_ H]|[_ <-]].
    + assert (sig g ≠ sig h).
      { intros E. apply S. rewrite E. apply list_elem_of_fmap. exists h. split; [done|].
        by apply list_elem_of_lookup_2 in H. }
      rewrite times_cons_ne by done. by apply (R j).
    + exists now, now, []. rewrite times_cons_eq, T. split_and!; done.
  - intros e E. rewrite fmap_app. apply elem_of_app. apply elem_of_cons in E as [->|E].
    + right. apply list_elem_of_here.
    + left. by apply A.
Qed.

Definition add_event (e : option (string * Z)) (hist : list (string * Z)) : list (string * Z) :=
  match e with Some e => e :: hist | None => hist end.

Lemma inc_counter_ok gs hist js : groups_ok gs hist →
  let now := tv_sec (stateEnterTime js) in
  (∀ e, e ∈ hist → e.2 ≤ now) → 0 ≤ now → off_border now → Z.of_nat (length hist) < INT_MAX →
  ∃ gs', stats_inc_counter str2md5base64 js gs = Ret gs' ∧ groups_ok gs' (add_event (event_of js) hist).
Proof.
  intros G now B P O N. unfold stats_inc_counter, event_of.
  destruct (counted_destination js) as [d|]; cbn; [|by exists gs].
  unfold stats_search_group. pose proof (search_spec gs (str2md5base64 d) (go_sigs _ _ G)) as F.
  destruct (stats_search_existing_group gs (str2md5base64 d)) as [[i g]|].
  - destruct F as [Gi S]. rewrite Gi.
    destruct (go_rings _ _ G i g Gi) as (first & last & ts & T & La & U & FL & R).
    assert (last ≤ now).
    { apply (B (sig g, last)), times_in. rewrite T. apply list_elem_of_here. }
    destruct (update_group_rings count_one first now (last :: ts) g count_one_counts
      ltac:(by rewrite U) ltac:(by rewrite U) O) as (g' & E & R' & U' & S'); [|done|].
    { rewrite <- T. pose proof (times_length (sig g) hist). lia. }
    fold now. rewrite E. cbn [obind]. eexists. split; [done|]. rewrite <- S.
    apply (groups_update gs hist i g g' now first (last :: ts)); try done. lia.
  - rewrite lookup_app_r, Nat.sub_diag by lia. cbn [lookup list_lookup]. fold now.
    set (g := {| sig := _ |}).
    destruct (new_group_rings count_one now g count_one_counts P eq_refl eq_refl)
      as (g' & -> & R & U & S). cbn [obind]. eexists. split; [done|].
    rewrite insert_app_r_alt, Nat.sub_diag by lia. cbn.
    change (str2md5base64 d) with (sig g). rewrite <- S.
    by apply groups_add; [|rewrite S|..].
Qed.

Abbreviation time js := (tv_sec (stateEnterTime js)).

Lemma inc_all_ok jobs : ∀ gs hist, groups_ok gs hist →
  StronglySorted Z.le ((λ js, time js) <$> jobs) →
  Forall (λ js, 0 ≤ time js ∧ off_border (time js)) jobs →
  (∀ e js, e ∈ hist → js ∈ jobs → e.2 ≤ time js) →
  Z.of_nat (length hist + length jobs) ≤ INT_MAX →
  ∃ gs', inc_all jobs gs = Ret gs' ∧ groups_ok gs' (reverse (omap event_of jobs) ++ hist).
Proof.
  induction jobs as [|js jobs IH]; intros gs hist G S B H N.
  { exists gs. done. }
  apply StronglySorted_inv in S as [S F]. inversion B as [|? ? [P O] B']; subst.
  cbn [inc_all]. destruct (inc_counter_ok gs hist js G) as (gs1 & -> & G1); [|done|done| |].
  { intros e E. apply (H e js E). apply list_elem_of_here. }
  { cbn [length] in N. lia. }
  cbn [obind]. destruct (IH gs1 (add_event (event_of js) hist) G1 S B') as (gs2 & -> & G2).
  - intros e j E J. rewrite Forall_forall in F.
    assert (time js ≤ time j). { apply F. apply list_elem_of_In, list_elem_of_fmap. by exists j. }
    destruct (event_of js) as [e'|] eqn:V; cbn in E; [|apply H; [done|by apply list_elem_of_further]].
    apply elem_of_cons in E as [->|E]; [|apply H; [done|by apply list_elem_of_further]].
    unfold event_of in V. destruct (counted_destination js); cbn in V; [|done].
    injection V as <-. done.
  - cbn [length] in N. destruct (event_of js); cbn [add_event length]; lia.
  - exists gs2. split; [done|]. cbn [omap list_omap].
    destruct (event_of js) as [e|]; cbn [add_event] in G2; [|done].
    by rewrite reverse_cons, <- app_assoc.
Qed.

Lemma sorted_times s jobs : StronglySorted Z.le ((λ js, time js) <$> jobs) →
  StronglySorted Z.le (times_of s (omap event_of jobs)).
Proof.
  assert (T : ∀ t jobs, t ∈ times_of s (omap event_of jobs) → ∃ js, js ∈ jobs ∧ t = time js).
  { intros t l H. apply times_in in H. apply list_elem_of_omap in H as (js & J & E).
    exists js. split; [done|]. unfold event_of in E. destruct (counted_destination js); [|done].
    cbn in E. congruence. }
  induction jobs as [|js jobs IH]; intros S; [constructor|].
  apply StronglySorted_inv in S as [S F]. specialize (IH S). cbn [omap list_omap].
  destruct (event_of js) as [[s' t]|] eqn:V; [|done].
  assert (t = time js) as ->.
  { unfold event_of in V. destruct (counted_destination js); [|done]. cbn in V. congruence. }
  destruct (decide (s' = s)) as [->|N]; [|by rewrite times_cons_ne].
  rewrite times_cons_eq. constructor; [done|]. apply Forall_forall. intros t I%list_elem_of_In.
  destruct (T t jobs I) as (j & J & ->). rewrite Forall_forall in F. apply F.
  apply list_elem_of_In, list_elem_of_fmap. by exists j.
Qed.

Lemma times_reverse s hist : times_of s (reverse hist) = reverse (times_of s hist).
Proof.
  unfold times_of. by rewrite filter_reverse, fmap_reverse.
Qed.

Lemma count_in_reverse I b ts : count_in I b (reverse ts) = count_in I b ts.
Proof. unfold count_in. by rewrite filter_reverse, length_reverse. Qed.
End Counters.

(** C40: when jobs enter a state in the order of time, never on the border of two intervals, the
    archives of a destination hold, from the current cell backwards, exactly the numbers of jobs
    that entered the state in the last intervals (the current one and those before it, as many
    as the archive has cells); intervals before the first job of the destination are marked
    invalid. There is a group for a destination exactly if a job was counted for it. *)
Theorem counters_exact str2md5base64 jobs
    (S : StronglySorted Z.le ((λ js, tv_sec (stateEnterTime js)) <$> jobs))
    (B : Forall (λ js, 0 ≤ tv_sec (stateEnterTime js) ∧ off_border (tv_sec (stateEnterTime js))) jobs)
    (N : Z.of_nat (length jobs) ≤ INT_MAX) :
  ∃ gs, inc_all str2md5base64 jobs [] = Ret gs ∧ ∀ d,
    let ts := times_of (str2md5base64 d) (omap (event_of str2md5base64) jobs) in
    match stats_search_existing_group gs (str2md5base64 d) with
    | None => ts = []
    | Some (_, g) => ∃ first, head ts = Some first ∧ list.last ts = Some (last_update g) ∧
      Forall2 (λ c a, ∀ k, (k < c.2)%nat → cnt_back c.2 a k =
          Some (let b := bucket c.1 (last_update g) - Z.of_nat k in
                if bucket c.1 first <=? b then count_in c.1 b ts else -1))
        default_archives (archives g)
    end.
Proof.
  destruct (inc_all_ok str2md5base64 jobs [] []) as (gs & E & G); [|done|done| |done|].
  { split; [constructor|done|]. by intros e []%not_elem_of_nil. }
  { by intros e js []%not_elem_of_nil. }
  rewrite app_nil_r in G. exists gs. split; [done|]. intros d ts.
  pose proof (search_spec gs (str2md5base64 d) (go_sigs _ _ G)) as F.
  destruct (stats_search_existing_group gs (str2md5base64 d)) as [[i g]|].
  - destruct F as [Gi Sg].
    destruct (go_rings _ _ G i g Gi) as (first & last & l & T & La & U & FL & R).
    rewrite Sg, times_reverse in T. fold ts in T.
    assert (T' : ts = reverse (last :: l)) by by rewrite <- T, reverse_involutive.
    assert (Hd : head ts = Some first) by (rewrite T'; by rewrite head_reverse).
    exists first. split; [done|]. split; [rewrite T', U; by rewrite last_reverse|].
    pose proof (sorted_hist ts (sorted_times _ (str2md5base64 d) jobs S) first Hd) as Fi.
    unfold group_rings in R. rewrite U in *. rewrite <- (reverse_involutive (last :: l)), <- T' in R.
    eapply Forall2_impl; [|apply (rings_counts first last (reverse ts)); [exact default_ok| |lia|exact R]].
    + intros c a K k Kl. rewrite (K k Kl). cbv zeta. by rewrite count_in_reverse.
    + by apply Forall_reverse.
  - destruct ts as [|t l] eqn:Et; [done|]. destruct F.
    apply (go_all _ _ G (str2md5base64 d, t)). apply elem_of_reverse, times_in.
    unfold ts in Et. rewrite Et. apply list_elem_of_here.
Qed.

Lemma counters_exact_witness :
  let at_ t d := edg_wll_InitStatus <| LbTypes.destination := Some d |>
                   <| stateEnterTime := {| tv_sec := t; tv_usec := 0 |} |> in
  let jobs := [at_ 1001 "ce"%string; at_ 1004 "ce"%string; at_ 1005 "other"%string; at_ 1027 "ce"%string] in
  ∃ gs g a, inc_all (λ s, s) jobs [] = Ret gs ∧ g ∈ gs ∧ archives g !! 0%nat = Some a ∧
    cnt_back 60 a 0 = Some 1 ∧ cnt_back 60 a 1 = Some 0 ∧ cnt_back 60 a 2 = Some 2 ∧
    cnt_back 60 a 3 = Some (-1).
Proof.
  intros at_ jobs. destruct (counters_exact (λ s, s) jobs) as (gs & E & H).
  - repeat constructor; cbn; lia.
  - repeat apply Forall_cons; try apply Forall_nil; (split; [cbn; lia|]);
    repeat apply Forall_cons; try apply Forall_nil; vm_compute; congruence.
  - cbn. unfold INT_MAX. lia.
  - specialize (H "ce"%string). cbv zeta in H. exists gs.
    destruct (stats_search_existing_group gs "ce") as [[i g]|] eqn:F; [|vm_compute in H; discriminate].
    destruct H as (first & Fi & La & H). vm_compute in Fi. injection Fi as <-.
    assert (last_update g = 1027) as La' by (vm_compute in La; injection La as La; exact (eq_sym La)).
    apply Forall2_cons_inv_l in H as (a & l & R & _ & A). exists g, a. split; [exact E|].
    split; [apply list_find_Some in F as [F _]; by apply list_elem_of_lookup_2 in F|].
    split; [by rewrite A|]. rewrite La' in R.
    split_and!; (rewrite R by (cbn; lia)); vm_compute; reflexivity.
Defined.

(** A job on the border of two intervals is counted in the earlier one, and the cell of the later
    one is never opened: jobs of two intervals (100 .. 109 and 110 .. 119) share a cell. *)
Lemma border_event_merges :
  let jobs := (λ t, edg_wll_InitStatus <| LbTypes.destination := Some "ce"%string |>
                      <| stateEnterTime := {| tv_sec := t; tv_usec := 0 |} |>) <$> [105; 110; 115] in
  match inc_all (λ s, s) jobs [] with
  | Ret [g] => match archives g with a :: _ => cnt_back 60 a 0 = Some 3 | [] => False end
  | _ => False
  end.
Proof. vm_compute. reflexivity. Qed.

(** Jobs that are counted out of order move the cells on again: the two jobs of 105 are in
    different cells. *)
Lemma late_event_shifts :
  let jobs := (λ t, edg_wll_InitStatus <| LbTypes.destination := Some "ce"%string |>
                      <| stateEnterTime := {| tv_sec := t; tv_usec := 0 |} |>) <$> [105; 75; 105] in
  match inc_all (λ s, s) jobs [] with
  | Ret [g] => match archives g with
               | a :: _ => cnt_back 60 a 0 = Some 1 ∧ cnt_back 60 a 3 = Some 2
               | [] => False
               end
  | _ => False
  end.
Proof. vm_compute. done. Qed.
