(* ===== verification/StatsRate.v ===== *)
(** * Queries of the statistics

    Rates and durations from the archives of a destination: the second half of
    org.glite.lb.server/src/stats.c. *)
From Stdlib Require Import ZArith Lia SpecFloat.
From stdpp Require Import base option list strings numbers.
From S2P Require Import Prelude CLib LbTypes Authz Stats.
#[local] Open Scope Z_scope.

Definition ENOENT : Z := 2.
Definition EPERM : Z := 1.
Definition EINVAL : Z := 22.
Definition ENOSYS : Z := 38.

(** ** Which counter *)
(** The loop of [findStat]. *)
Definition stat_matches (base final min : Z) (cfg : stats_config) : bool :=
  let minor_ok later := negb (later =? EDG_WLL_JOB_DONE) || (cfg.(minor) =? min) in
  match cfg.(st_type) with
  | STATS_COUNT => (cfg.(base_state) =? base) && minor_ok base
  | STATS_DURATION_FROMTO =>
    (cfg.(base_state) =? base) && (cfg.(final_state) =? final) && minor_ok final
  | STATS_DURATION => false
  end.

(** [by_destination]: the query groups by the destination and by nothing else; [allowed]: the
    policy grants GET_STATISTICS. *)
Definition findStat (count_statistics : Z) (noAuth allowed by_destination : bool)
    (base final min from to : Z) : outcome (Z + nat * stats_config) :=
  let search :=
    if negb by_destination then Ret (inl ENOSYS) else
    if to <=? from then Ret (inl EINVAL) else
    match list_find (λ cfg, stat_matches base final min cfg) default_stats with
    | None => Ret (inl ENOENT)
    | Some r => Ret (inr r)
    end in
  if count_statistics =? 0 then Ret (inl ENOSYS) else
  if count_statistics =? 1 then
    if negb noAuth && negb allowed then Ret (inl EPERM) else search
  else if count_statistics =? 2 then search else UB AssertFailed.

(** ** The cells of a time *)

(** The archive that covers most of the time asked for. *)
Fixpoint best_match (cfg : list (Z * nat)) (j : nat) (last from to : Z) (match_ : Z)
    (matchi : option nat) : option nat :=
  match cfg with
  | [] => matchi
  | (interval, len) :: cfg =>
    let ato := last + (interval - Z.rem last interval) in
    let afrom := last - Z.rem last interval - interval * (Z.of_nat len - 1) in
    let afrom := if afrom <? from then from else afrom in
    let ato := if to <? ato then to else ato in
    if match_ <? ato - afrom then best_match cfg (S j) last from to (ato - afrom) (Some j)
    else best_match cfg (S j) last from to match_ matchi
  end.

(** [diff]: the seconds that a cell from [afrom] on is counted for. *)
Definition cell_weight (i from to afrom : Z) : Z :=
  if (afrom <=? from) && (to <? afrom + i) then to - from
  else if (from <? afrom) && (afrom + i <=? to) then i
  else if (afrom <=? from) && (from <? afrom + i) then afrom + i - from
  else if (afrom <=? to) && (to <? afrom + i) then afrom + i - to
  else 0.

(** The valid cells that the loop over [n] cells from the [j]th oldest on looks at, with their
    weights; it leaves at the cell that [to] is in if that cell is valid. *)
Fixpoint visits (n j : nat) (len : nat) (i from to afrom : Z) (a : archive) :
    outcome (list (cell * Z)) :=
  match n with
  | O => Ret []
  | S n =>
    match a.(cells) !! ((a.(ptr) + j + 1) mod len)%nat with
    | None => UB OutOfBounds
    | Some c =>
      if c.(cnt) <? 0 then visits n (S j) len i from to (afrom + i) a else
      let w := cell_weight i from to afrom in
      if (afrom <=? to) && (to <? afrom + i) then Ret [(c, w)] else
      let! l := visits n (S j) len i from to (afrom + i) a in
      Ret ((c, w) :: l)
    end
  end.

(** The archive, its interval, the time asked for cut down to it, and the cells; or ENOENT. *)
Definition select_cells (g : group) (from to : Z) :
    outcome (Z + Z * Z * Z * list (cell * Z)) :=
  match best_match default_archives 0 g.(last_update) from to 0 None with
  | None => Ret (inl ENOENT)
  | Some k =>
    match default_archives !! k, g.(archives) !! k with
    | Some (i, len), Some a =>
      let afrom := g.(last_update) - Z.rem g.(last_update) i - (Z.of_nat len - 1) * i in
      let from := if from <? afrom then afrom else from in
      let to := if afrom + Z.of_nat len * i <? to then afrom + Z.of_nat len * i else to in
      let! l := visits len 0 len i from to afrom a in
      Ret (inr (i, from, to, l))
    | _, _ => UB OutOfBounds
    end
  end.

Definition total_weight (l : list (cell * Z)) : Z := foldl (λ m cw, m + cw.2) 0 l.

(** [stateRateRequest]: the resolution, the times and the rate. *)
Definition stateRateRequest (g : group) (from to : Z) : outcome (Z + Z * Z * Z * float) :=
  let! r := select_cells g from to in
  match r with
  | inl e => Ret (inl e)
  | inr (i, from, to, l) =>
    let rate := foldl (λ r cw, fadd r (fdiv (fmul (fofZ cw.1.(cnt)) (fofZ cw.2)) (fofZ i))) fzero l in
    let m := total_weight l in
    Ret (inr (i, from, to, if 0 <? m then fdiv rate (fofZ m) else rate))
  end.

(** [stateDurationFromToRequest]: the resolution, the times, the duration and the dispersion. *)
Definition stateDurationFromToRequest (g : group) (from to : Z) :
    outcome (Z + Z * Z * Z * (float * float)) :=
  let! r := select_cells g from to in
  match r with
  | inl e => Ret (inl e)
  | inr (i, from, to, l) =>
    let rate := foldl (λ r cw, fadd r (fmul (fofZ cw.1.(cnt)) (fofZ cw.2))) fzero l in
    let duration := foldl (λ d cw,
      if cw.1.(cnt) =? 0 then d
      else fadd d (fdiv (fmul (fofZ cw.2) cw.1.(value)) (fofZ cw.1.(cnt)))) fzero l in
    let dispersion := foldl (λ d cw, fadd d (fmul (fofZ cw.2) cw.1.(value2))) fzero l in
    let m := total_weight l in
    if 0 <? m then
      let duration := fdiv duration (fofZ m) in
      let dispersion := fdiv dispersion (fofZ m) in
      let rate := fdiv rate (fofZ m) in
      let dispersion :=
        if fgtb rate (fofZ 1)
        then fsqrt (fmul (fdiv (fofZ 1) (fsub rate (fofZ 1)))
                         (fsub dispersion (fmul rate (fmul duration duration))))
        else fzero in
      Ret (inr (i, from, to, (duration, dispersion)))
    else Ret (inr (i, from, to, (duration, dispersion)))
  end.

(** ** The requests *)

(** One destination, or all of them one after the other; the times cut down for one of them are
    those asked for of the next.  The error (0 for none), the results with their destinations,
    the times and the resolution, if any group set it. *)
Fixpoint all_groups {A} (req : group → Z → Z → outcome (Z + Z * Z * Z * A)) (gs : list group)
    (from to : Z) (res : option Z) : outcome (list (A * string) * Z * Z * option Z) :=
  match gs with
  | [] => Ret ([], from, to, res)
  | g :: gs =>
    let! r := req g from to in
    match r with
    | inl _ => all_groups req gs from to res
    | inr (i, from, to, x) =>
      let! '(l, from, to, res) := all_groups req gs from to (Some i) in
      Ret ((x, g.(destination)) :: l, from, to, res)
    end
  end.

Section Server.
Context (str2md5base64 : string → string).

(** What [edg_wll_StateRateServer] and [edg_wll_StateDurationFromToServer] have in common:
    [value] is the destination asked for. *)
Definition group_request {A} (req : group → Z → Z → outcome (Z + Z * Z * Z * A))
    (gs : list group) (value : option string) (from to : Z) :
    outcome (Z * list (A * string) * Z * Z * option Z) :=
  match value with
  | Some d =>
    match stats_search_existing_group gs (str2md5base64 d) with
    | None => Ret (ENOENT, [], from, to, None)
    | Some (_, g) =>
      let! r := req g from to in
      match r with
      | inl e => Ret (e, [], from, to, None)
      | inr (i, from, to, x) => Ret (0, [(x, g.(destination))], from, to, Some i)
      end
    end
  | None =>
    let! '(l, from, to, res) := all_groups req gs from to None in
    Ret (match l with [] => ENOENT | _ => 0 end, l, from, to, res)
  end.

Definition stats_server {A} (req : group → Z → Z → outcome (Z + Z * Z * Z * A))
    (count_statistics : Z) (noAuth : bool) (policy : option authz_policy) (peer : GssPrincipal)
    (all : list (list group)) (by_destination : bool) (value : option string)
    (base final min from to : Z) : outcome (Z * list (A * string) * Z * Z * option Z) :=
  let! r := findStat count_statistics noAuth (check_authz_policy policy peer GET_STATISTICS)
              by_destination base final min from to in
  match r with
  | inl e => Ret (e, [], from, to, None)
  | inr (i, _) =>
    match all !! i with
    | None => UB OutOfBounds
    | Some gs => group_request req gs value from to
    end
  end.

Definition edg_wll_StateRateServer count_statistics noAuth policy peer all by_destination value
    (major min from to : Z) :=
  stats_server stateRateRequest count_statistics noAuth policy peer all by_destination value
    major EDG_WLL_JOB_UNDEF min from to.

Definition edg_wll_StateDurationFromToServer count_statistics noAuth policy peer all by_destination
    value (base final min from to : Z) :=
  stats_server stateDurationFromToRequest count_statistics noAuth policy peer all by_destination
    value base final min from to.
End Server.

(** ** The weights *)

(** The time that the interval of a cell has in common with the time asked for. *)
Definition overlap (i from to s : Z) : Z := Z.max 0 (Z.min to (s + i) - Z.max from s).

(** The weight is this time, but for the cell that [to] is in. *)
Lemma cell_weight_overlap i from to s : 0 < i → from < to →
  cell_weight i from to s =
  if bool_decide (from < s ∧ s ≤ to < s + i) then s + i - to else overlap i from to s.
Proof.
  intros I FT. unfold cell_weight, overlap. case_bool_decide;
  repeat match goal with |- context [(?a <=? ?b)] => destruct (Z.leb_spec a b)
                       | |- context [(?a <? ?b)] => destruct (Z.ltb_spec a b) end;
  cbn [andb]; lia.
Qed.

Lemma total_from m l : foldl (λ m (cw : cell * Z), m + cw.2) m l = m + total_weight l.
Proof.
  unfold total_weight. revert m. induction l as [|y l IH]; intros m; cbn [foldl]; [lia|].
  rewrite IH, (IH (0 + y.2)). lia.
Qed.
Lemma total_cons x l : total_weight (x :: l) = x.2 + total_weight l.
Proof. unfold total_weight. cbn [foldl]. rewrite total_from. unfold total_weight. lia. Qed.

(** By how much the weights differ from the time: the cell that [to] is in is counted with the
    part after [to] instead of the part before it. *)
Definition last_cell_error (i from to s : Z) : Z :=
  if bool_decide (s + i * ((to - s) / i) ≤ from) then 0 else i - 2 * ((to - s) mod i).

Lemma last_cell_next i from to s : 0 < i → last_cell_error i from to (s + i) = last_cell_error i from to s.
Proof.
  intros I. unfold last_cell_error.
  replace (to - s) with (to - (s + i) + 1 * i) by lia.
  rewrite Z.div_add, Z.mod_add by lia.
  replace (s + i * ((to - (s + i)) / i + 1)) with (s + i + i * ((to - (s + i)) / i)) by lia. done.
Qed.

Section Valid.
Context (len : nat) (i from to : Z) (a : archive).
Context (I : 0 < i) (FT : from < to) (P : (0 < len)%nat) (Len : length (cells a) = len)
  (V : Forall (λ c, 0 ≤ cnt c) (cells a)).

Lemma valid_cell j : ∃ c, cells a !! ((ptr a + j + 1) mod len)%nat = Some c ∧ (cnt c <? 0) = false.
Proof.
  destruct (lookup_lt_is_Some_2 (cells a) ((ptr a + j + 1) mod len)%nat) as [c C].
  { rewrite Len. apply Nat.mod_upper_bound. lia. }
  exists c. split; [done|]. pose proof (Forall_lookup_1 _ _ _ _ V C) as N. cbv beta in N. lia.
Qed.

Lemma visits_total n : ∀ j s, s ≤ to ≤ s + Z.of_nat n * i →
  ∃ l, visits n j len i from to s a = Ret l ∧
    total_weight l = to - Z.max from s +
      (if to =? s + Z.of_nat n * i then 0 else last_cell_error i from to s).
Proof.
  induction n as [|n IH]; intros j s Bd.
  { exists []. split; [done|]. assert (to = s) as -> by lia. cbn.
    rewrite (proj2 (Z.eqb_eq _ _)) by lia. lia. }
  cbn [visits]. destruct (valid_cell j) as (c & -> & ->).
  destruct (decide (to < s + i)) as [L|L].
  - rewrite (proj2 (Z.leb_le s to)), (proj2 (Z.ltb_lt to (s + i))) by lia. cbn [andb].
    eexists. split; [done|]. rewrite total_cons. change (total_weight []) with 0. cbn [snd].
    rewrite (proj2 (Z.eqb_neq _ _)) by nia. unfold last_cell_error.
    rewrite Z.div_small, Z.mod_small by lia. rewrite cell_weight_overlap by done. unfold overlap.
    case_bool_decide; case_bool_decide; lia.
  - rewrite (proj2 (Z.ltb_ge to (s + i))), andb_false_r by lia.
    destruct (IH (S j) (s + i)) as (l & -> & T); [lia|]. cbn [obind].
    eexists. split; [done|]. rewrite total_cons, T, last_cell_next by done. cbn [snd].
    replace (s + i + Z.of_nat n * i) with (s + Z.of_nat (S n) * i) by lia.
    rewrite cell_weight_overlap, bool_decide_eq_false_2 by lia. unfold overlap.
    destruct (to =? s + Z.of_nat (S n) * i) eqn:E; [lia|].
    unfold last_cell_error. case_bool_decide as Q; [lia|].
    enough (from < s + i ∨ s + i ≤ from) by lia. lia.
Qed.
End Valid.

(** the cells of a query of the statistics (all of them valid, the time within the archive)
    are weighted with the time each has in common with the time asked for, so that the weights
    sum up to the length of that time; but when the end [to] is inside of the archive and not in
    the cell of [from], the cell of [to] is weighted with what comes after [to]: the sum is off
    by the interval less twice the time of [to] in its cell. *)
Theorem weights_total len i from to s a (I : 0 < i) (P : (0 < len)%nat)
    (Len : length (cells a) = len) (V : Forall (λ c, 0 ≤ cnt c) (cells a))
    (F : s ≤ from) (FT : from < to) (T : to ≤ s + Z.of_nat len * i) :
  ∃ l, visits len 0 len i from to s a = Ret l ∧
    total_weight l =
    to - from + if (to =? s + Z.of_nat len * i) || bool_decide ((to - s) / i = (from - s) / i)
                then 0 else i - 2 * ((to - s) mod i).
Proof.
  destruct (visits_total len i from to a I FT P Len V len 0 s ltac:(lia)) as (l & E & W).
  exists l. split; [done|]. rewrite W. rewrite Z.max_l by lia. f_equal.
  destruct (to =? s + Z.of_nat len * i); cbn [orb]; [done|]. unfold last_cell_error.
  pose proof (Z.div_mod (to - s) i ltac:(lia)). pose proof (Z.mod_pos_bound (to - s) i I).
  pose proof (Z.div_mod (from - s) i ltac:(lia)). pose proof (Z.mod_pos_bound (from - s) i I).
  pose proof (Z.div_le_mono (from - s) (to - s) i I ltac:(lia)).
  do 2 case_bool_decide; try done; nia.
Qed.

Lemma weights_total_witness :
  let a := {| ptr := 0; cells := replicate 3 (zero_cell 2) |} in
  ∃ l, visits 3 0 3 10 105 122 100 a = Ret l ∧ total_weight l = 122 - 105 + (10 - 2 * 2).
Proof.
  intros a. apply (weights_total 3 10 105 122 100 a); try done; try lia. repeat constructor; cbn; lia.
Defined.

(** ** The counter of a query *)

(** a rate is taken from a counter of the jobs that enter the state asked for, and, for the
    state Done, with the code asked for; the request is refused with ENOENT exactly if there is
    no such counter. *)
Theorem rate_counter major min from to (FT : from < to) :
  match findStat 2 false false true major EDG_WLL_JOB_UNDEF min from to with
  | Ret (inr (i, cfg)) => default_stats !! i = Some cfg ∧ st_type cfg = STATS_COUNT ∧
      base_state cfg = major ∧ (major = EDG_WLL_JOB_DONE → minor cfg = min)
  | Ret (inl e) => e = ENOENT ∧ ∀ cfg, cfg ∈ default_stats → st_type cfg = STATS_COUNT →
      base_state cfg = major → major = EDG_WLL_JOB_DONE ∧ minor cfg ≠ min
  | UB _ => False
  end.
Proof.
  unfold findStat. cbn [negb Z.eqb Pos.eqb]. rewrite (proj2 (Z.leb_gt _ _)) by lia.
  assert (U : Forall (λ cfg, st_type cfg = STATS_DURATION_FROMTO →
              (final_state cfg =? EDG_WLL_JOB_UNDEF) = false) default_stats).
  { repeat apply Forall_cons; try apply Forall_nil; done. }
  destruct (list_find _ default_stats) as [[i cfg]|] eqn:E.
  - apply list_find_Some in E as (C & M & _). split; [done|]. unfold stat_matches in M.
    pose proof (Forall_lookup_1 _ _ _ _ U C) as U'. cbv beta in U'.
    destruct (st_type cfg); [|done|].
    + apply andb_prop_elim in M as [B D]. apply Is_true_true, Z.eqb_eq in B. split; [done|].
      split; [done|]. intros ->. apply Is_true_true in D. cbn in D. by apply Z.eqb_eq.
    + rewrite (U' eq_refl), andb_false_r in M. done.
  - split; [done|]. intros cfg C T B. apply list_find_None in E.
    rewrite Forall_forall in E. specialize (E cfg (proj1 (list_elem_of_In _ _) C)).
    unfold stat_matches in E. rewrite T, B, Z.eqb_refl in E. cbn [andb] in E.
    destruct (Z.eqb_spec major EDG_WLL_JOB_DONE); [|by destruct E]. split; [done|].
    destruct (Z.eqb_spec (minor cfg) min); [by destruct E|done].
Qed.

Lemma rate_counter_witness :
  0 < 1 ∧ findStat 2 false false true EDG_WLL_JOB_READY EDG_WLL_JOB_UNDEF 0 0 1 ≠ Ret (inl ENOENT).
Proof.
  pose proof (rate_counter EDG_WLL_JOB_READY 0 0 1 ltac:(lia)) as H.
  split; [lia|]. intros E. rewrite E in H. destruct H as [_ H].
  destruct (H {| st_type := STATS_COUNT; base_state := EDG_WLL_JOB_READY; final_state := 0; minor := 0 |});
    try done; apply list_elem_of_here.
Defined.

(** The duration between two states is looked for in the same way: for jobs that were scheduled
    or running it is taken from the counter of the jobs that enter this state, which has no
    durations. *)
Lemma duration_finds_counter :
  (∃ cfg, findStat 2 false false true EDG_WLL_JOB_SCHEDULED EDG_WLL_JOB_RUNNING 0 0 1 =
          Ret (inr (1%nat, cfg)) ∧ st_type cfg = STATS_COUNT) ∧
  (∃ cfg, findStat 2 false false true EDG_WLL_JOB_RUNNING EDG_WLL_JOB_DONE EDG_WLL_STAT_OK 0 1 =
          Ret (inr (2%nat, cfg)) ∧ st_type cfg = STATS_COUNT).
Proof. split; by eexists. Qed.
