(* ===== verification/MiniHttp.v ===== *)
(** * HTTP messages

    Sending and receiving the messages of the protocol of the server and its clients:
    org.glite.lb.common/src/mini_http.c, the versions for GSS connections and for the local
    proxy.  The bytes on their way are a list of pieces as they arrive; a read returns at most
    as many bytes of the next piece as there is room for. *)
From Stdlib Require Import ZArith Lia Ascii.
From stdpp Require Import base option list strings numbers.
From S2P Require Import Prelude CLib IlMsg.
#[local] Open Scope Z_scope.

Definition ENOTCONN : Z := 107.
Definition E2BIG : Z := 7.
(** glibc's *)
Definition BUFSIZ : Z := 8192.

Definition CR : ascii := chr 13.
Definition CRLF : string := String CR (String NL "").
Definition CONTENT_LENGTH : string := "Content-Length:".

(** ** Sending *)

(** [sprintf(buf,CONTENT_LENGTH " %d\r\n",len)] *)
Definition length_line (body : string) : string :=
  CONTENT_LENGTH +:+ asprintf " %d" [PInt (s32 (os_len body))].

(** The bytes that [edg_wll_http_send] and [edg_wll_http_send_proxy] write, one write after the
    other. *)
Definition http_writes (first : string) (head : list string) (body : option string) : list string :=
  [first; CRLF] ++ concat ((λ h, [h; CRLF]) <$> head) ++
  match body with Some b => [length_line b +:+ CRLF] | None => [] end ++
  [CRLF] ++ match body with Some b => [b] | None => [] end.
Definition edg_wll_http_send (first : string) (head : list string) (body : option string) : string :=
  String.concat "" (http_writes first head body).

(** ** Receiving *)

Inductive http_pstat := FIRST | HEAD | BODY | DONE.
Record http_msg := {
  pstat : http_pstat;
  m_first : option string;
  m_hdr : list string;
  clen : Z;
  m_body : option string           (* the first [blen] bytes *)
}.
#[export] Instance eta_http_msg : Eta http_msg :=
  fun x => {| pstat := pstat x; m_first := m_first x; m_hdr := m_hdr x; clen := clen x;
              m_body := m_body x |}.
Definition http_start : http_msg :=
  {| pstat := FIRST; m_first := None; m_hdr := []; clen := 0; m_body := None |}.

(** [memchr(buf,'\r',bufUse)] followed by a newline: the line, up to its first NUL once
    [strdup] has copied it, and what comes after. *)
Definition crlf (buf : string) : option (string * string) :=
  let '(line, r) := str_span (Ascii.eqb CR) buf in
  match r with
  | String _ (String n r) => if Ascii.eqb n NL then Some (line, r) else None
  | _ => None
  end.

(** [!strncasecmp(line,CONTENT_LENGTH,sizeof(CONTENT_LENGTH)-1)] and [atoi] of the rest. *)
Definition content_length (line : string) : option Z :=
  if strcasecmp_eq (str_take (String.length CONTENT_LENGTH) line) CONTENT_LENGTH
  then Some (atoi (str_drop (String.length CONTENT_LENGTH) line)) else None.

(** What is done after a read: an error, or the rest of the buffer and the message so far.
    [limited]: a line that does not fit is an error (not in the version for the proxy). *)
Fixpoint http_parse (fuel : nat) (limited : bool) (buf : string) (m : http_msg) :
    outcome (Z + string * http_msg) :=
  let more := if limited && (BUFSIZ <=? os_len buf) then Ret (inl E2BIG)
              else Ret (inr (buf, m)) in
  match fuel with
  | O => UB NoFuel
  | S fuel =>
    match m.(pstat) with
    | DONE => Ret (inr (buf, m))
    | FIRST =>
      match crlf buf with
      | Some (line, buf) =>
        http_parse fuel limited buf (m <| m_first := Some (c_string line) |> <| pstat := HEAD |>)
      | None => more
      end
    | HEAD =>
      match crlf buf with
      | Some (EmptyString, buf) =>
        if m.(clen) =? 0 then http_parse fuel limited buf (m <| pstat := DONE |>) else
        let! _ := add_int m.(clen) 1 in
        http_parse fuel limited buf (m <| pstat := BODY |> <| m_body := Some ""%string |>)
      | Some (line, buf) =>
        let line := c_string line in
        http_parse fuel limited buf
          (m <| m_hdr := m.(m_hdr) ++ [line] |>
             <| clen := default m.(clen) (content_length line) |>)
      | None => more
      end
    | BODY =>
      let body := default ""%string m.(m_body) in
      let n := Z.min (os_len buf) (m.(clen) - os_len body) in
      if negb (String.eqb buf "") && (n <? 0) then UB OutOfBounds else
      let body := body +:+ str_take (Z.to_nat n) buf in
      let buf := str_drop (Z.to_nat n) buf in
      Ret (inr (buf, m <| m_body := Some body |>
                       <| pstat := if os_len body =? m.(clen) then DONE else BODY |>))
    end
  end.

(** [edg_wll_gss_read], [edg_wll_plain_read]: some bytes, [None] at the end of the stream. *)
Definition net_read (net : list string) (room : nat) : option (string * list string) :=
  match net with
  | [] => None
  | c :: net => Some (str_take room c, match str_drop room c with EmptyString => net | r => r :: net end)
  end.

(** The reads: the error, or the message; the buffer of the connection and the bytes not read
    yet.  [fuel] bounds the number of reads. *)
Fixpoint http_recv (fuel : nat) (limited : bool) (buf : string) (net : list string) (m : http_msg) :
    outcome (Z + http_msg * string * list string) :=
  match fuel with
  | O => UB NoFuel
  | S fuel =>
    match net_read net (Z.to_nat (BUFSIZ - os_len buf)) with
    | None => Ret (inl ENOTCONN)
    | Some (d, net) =>
      let buf := buf +:+ d in
      let! r := http_parse (2 + String.length buf) limited buf m in
      match r with
      | inl e => Ret (inl e)
      | inr (buf, m) =>
        match m.(pstat) with
        | DONE => Ret (inr (m, buf, net))
        | _ => http_recv fuel limited buf net m
        end
      end
    end
  end.

(** Every read takes at least a byte if there is room for one. *)
Definition recv_fuel (net : list string) : nat := S (foldr (λ c n, S (String.length c) + n)%nat 0%nat net).
Definition edg_wll_http_recv (buf : string) (net : list string) :=
  http_recv (recv_fuel net) true buf net http_start.
Definition edg_wll_http_recv_proxy (buf : string) (net : list string) :=
  http_recv (recv_fuel net) false buf net http_start.

(** ** Lemmas *)
Lemma option_cases {A} (o : option A) : (∃ x, o = Some x) ∨ o = None.
Proof. destruct o; eauto. Qed.

Definition no_cr (s : string) : Prop := str_forall (λ c, negb (Ascii.eqb CR c)) s = true.

Lemma str_drop_all n s : (String.length s ≤ n)%nat → str_drop n s = ""%string.
Proof. revert s. induction n as [|n IH]; intros [|c s]; cbn; try done; try lia. intros. apply IH. lia. Qed.

Lemma str_split_eq a b c d : a +:+ b = c +:+ d →
  (∃ e, c = a +:+ e ∧ b = e +:+ d) ∨ (∃ e, a = c +:+ e ∧ d = e +:+ b).
Proof.
  revert c. induction a as [|x a IH]; intros c E; [left; by exists c|].
  destruct c as [|y c]; [right; exists (String x a); by cbn in *|].
  cbn in E. injection E as -> E. destruct (IH c E) as [(e & -> & ->)|(e & -> & ->)]; [left|right];
  by exists e.
Qed.

(** A line is found as soon as the buffer holds it with its end. *)
Lemma crlf_some line rest : no_cr line → crlf (line +:+ CRLF +:+ rest) = Some (line, rest).
Proof.
  intros N. unfold crlf. rewrite (str_span_app _ line (CRLF +:+ rest) N).
  - done.
  - left. by exists CR, (String NL rest).
Qed.

Lemma crlf_none buf line d : no_cr line → line +:+ CRLF = buf +:+ d → d ≠ ""%string → crlf buf = None.
Proof.
  intros N E D. unfold crlf. destruct (str_split_eq _ _ _ _ (eq_sym E)) as [(e & L & _)|(e & -> & X)]; [subst line|].
  - unfold no_cr in N. rewrite str_forall_app in N. apply andb_true_iff in N as [N _].
    by rewrite str_span_all.
  - destruct e as [|c e].
    + rewrite app_nil_r_str. by rewrite str_span_all.
    + cbn in X. injection X as <- X. rewrite (str_span_app _ line (String CR e) N).
      * destruct e as [|c e]; [done|]. cbn in X. injection X as <- X.
        destruct e; [|done]. cbn in X. by subst.
      * left. by exists CR, e.
Qed.

Lemma crlf_cases buf future line rest : no_cr line → buf +:+ future = line +:+ CRLF +:+ rest →
  (∃ buf', crlf buf = Some (line, buf') ∧ buf' +:+ future = rest ∧
           os_len buf = os_len line + 2 + os_len buf') ∨
  (crlf buf = None ∧ os_len buf < os_len line + 2).
Proof.
  intros N E. rewrite <- app_assoc_str in E.
  destruct (str_split_eq _ _ _ _ E) as [(e & X & Y)|(e & -> & Y)].
  - destruct e as [|c e].
    + left. exists ""%string. rewrite app_nil_r_str in X. subst buf future. split_and!.
      * rewrite <- (app_nil_r_str (line +:+ CRLF)), app_assoc_str. by apply crlf_some.
      * done.
      * rewrite os_len_app. unfold os_len. cbn. lia.
    + right. split; [by apply (crlf_none buf line (String c e))|].
      assert (os_len (line +:+ CRLF) = os_len (buf +:+ String c e)) as L by by rewrite X.
      rewrite !os_len_app in L. unfold os_len in *. cbn in *. lia.
  - left. exists e. rewrite app_assoc_str, crlf_some by done. rewrite !os_len_app. split_and!; [done..|].
    unfold os_len. cbn. lia.
Qed.

(** Lines one after the other, and the rest. *)
Definition lines_then (l : list string) (rest : string) : string :=
  foldr (λ h t, h +:+ CRLF +:+ t) rest l.

Lemma lines_then_app l rest t : lines_then l rest +:+ t = lines_then l (rest +:+ t).
Proof.
  induction l as [|h l IH]; [done|]. cbn [lines_then foldr]. fold (lines_then l rest).
  fold (lines_then l (rest +:+ t)). by rewrite <- IH, !app_assoc_str.
Qed.

Definition all_headers (head : list string) (body : option string) : list string :=
  head ++ match body with Some b => [length_line b] | None => [] end.

Lemma send_text first head body : edg_wll_http_send first head body =
  first +:+ CRLF +:+ lines_then (all_headers head body) (CRLF +:+ default ""%string body).
Proof.
  assert (C : ∀ s l, String.concat "" (s :: l) = s +:+ String.concat "" l).
  { intros s l. destruct l; [by rewrite app_nil_r_str|done]. }
  unfold edg_wll_http_send, http_writes, all_headers. cbn [app]. rewrite !C. do 2 f_equal.
  induction head as [|h head IH].
  - destruct body as [b|]; cbn [app concat fmap list_fmap]; rewrite !C; [|done].
    change (String.concat "" []) with ""%string. by rewrite app_nil_r_str, !app_assoc_str.
  - cbn [fmap list_fmap concat app]. rewrite !C, IH. done.
Qed.

(** The text of a read and what comes after it. *)
Definition total (net : list string) : string := foldr String.append ""%string net.

Lemma net_read_spec net room : net ≠ [] → (0 < room)%nat →
  ∃ d net', net_read net room = Some (d, net') ∧ d +:+ total net' = total net ∧
    (recv_fuel net' < recv_fuel net)%nat ∧ (String.length d ≤ room)%nat.
Proof.
  intros N R. destruct net as [|c net]; [done|]. unfold net_read. eexists _, _. split; [done|].
  pose proof (str_take_drop room c) as T.
  assert (L : (String.length (str_take room c) + String.length (str_drop room c) = String.length c)%nat).
  { rewrite <- T at 3. by rewrite length_app_str. }
  assert (M : (String.length (str_take room c) ≤ room)%nat) by (rewrite length_str_take; lia).
  destruct (str_drop room c) as [|x r] eqn:E.
  - rewrite app_nil_r_str in T. rewrite T in *. cbn. split_and!; [done|unfold recv_fuel; cbn; lia|lia].
  - cbn [total foldr]. fold (total net). rewrite <- app_assoc_str, T.
    split_and!; [done| |lia]. unfold recv_fuel. cbn [foldr String.length] in *.
    destruct c as [|y c]; [destruct room; discriminate|].
    destruct room as [|room]; [lia|]. cbn [str_take String.length] in *. lia.
Qed.

(** ** Receiving what was sent *)

(** A line that the protocol can carry. *)
Record line_ok (h : string) : Prop := {
  lk_cr : no_cr h;
  lk_nul : str_forall (λ c, negb (Ascii.eqb NUL c)) h = true;
  lk_room : os_len h + 2 ≤ BUFSIZ
}.

Lemma atoi_blank s : atoi (String " " s) = atoi s.
Proof. unfold atoi, strtol, scan_num. cbn [skip_space]. by destruct (scan_signed _) as [[]|]. Qed.

Lemma length_line_text b : os_len b ≤ INT_MAX →
  length_line b = CONTENT_LENGTH +:+ String " " (fmt_d false 0 (os_len b)).
Proof.
  intros L. unfold length_line. rewrite s32_id by (unfold_int; unfold INT_MAX, os_len in *; lia).
  change (asprintf " %d" [PInt (os_len b)]) with (String " " (fmt_d false 0 (os_len b) +:+ "")).
  by rewrite app_nil_r_str.
Qed.

Lemma content_length_line b : os_len b ≤ INT_MAX → content_length (length_line b) = Some (os_len b).
Proof.
  intros L. rewrite length_line_text by done. unfold content_length.
  rewrite str_take_app, str_drop_app. change (strcasecmp_eq _ _) with true. cbv iota.
  rewrite atoi_blank, atoi_print; [done|]. unfold_int. unfold INT_MAX, os_len in *. lia.
Qed.

Lemma length_line_ok b : os_len b ≤ INT_MAX → line_ok (length_line b).
Proof.
  intros L. rewrite length_line_text by done. split.
  - unfold no_cr. rewrite str_forall_app. cbn [str_forall]. by rewrite fmt_d_other.
  - rewrite str_forall_app. cbn [str_forall]. by rewrite fmt_d_other.
  - rewrite os_len_app. unfold os_len at 2. cbn [String.length]. unfold fmt_d.
    assert (0 ≤ os_len b < 10 ^ Z.of_nat 10) as R
      by (change (10 ^ Z.of_nat 10) with 10000000000; unfold INT_MAX, os_len in *; lia).
    rewrite (proj2 (Z.ltb_ge _ _)), Z.abs_eq by lia. cbn [Nat.sub str_repeat String.append].
    pose proof (length_digits_aux (digits_fuel (os_len b)) (os_len b) "" 10 R ltac:(lia)) as D.
    unfold print_nonneg, BUFSIZ. cbn [String.length] in D.
    change (os_len CONTENT_LENGTH) with 15. rewrite length_app_str, length_str_repeat. lia.
Qed.

Section Received.
Context (first : string) (head : list string) (body : option string) (rest : string).
Context (First : line_ok first)
  (Head : Forall (λ h, line_ok h ∧ h ≠ ""%string ∧ content_length h = None) head)
  (Body : match body with Some b => b ≠ ""%string ∧ os_len b < INT_MAX | None => True end).

Let hdrs : list string := all_headers head body.
Let text : string := edg_wll_http_send first head body.

Definition clen_of (hs : list string) : Z := foldl (λ c h, default c (content_length h)) 0 hs.

(** The message as it should be received. *)
Definition received : http_msg :=
  {| pstat := DONE; m_first := Some first; m_hdr := hdrs; clen := clen_of hdrs; m_body := body |}.

(** The state of the parser and what is still to come of the message. *)
Inductive receiving : http_msg → string → Prop :=
| rec_first : receiving http_start text
| rec_head hs1 hs2 : hdrs = hs1 ++ hs2 →
    receiving {| pstat := HEAD; m_first := Some first; m_hdr := hs1; clen := clen_of hs1;
                 m_body := None |}
              (lines_then hs2 (CRLF +:+ default ""%string body))
| rec_body b1 b2 : body = Some (b1 +:+ b2) → b2 ≠ ""%string →
    receiving {| pstat := BODY; m_first := Some first; m_hdr := hdrs; clen := clen_of hdrs;
                 m_body := Some b1 |} b2.

Lemma clen_hdrs : clen_of hdrs = match body with Some b => os_len b | None => 0 end.
Proof.
  assert (Z : clen_of head = 0).
  { unfold clen_of. pose proof Head as H. clear -H.
    induction H as [|h head (_ & _ & N) _ IH]; [done|].
    cbn [foldl]. rewrite N. exact IH. }
  unfold hdrs, all_headers, clen_of. destruct body as [b|]; [|by rewrite app_nil_r].
  rewrite foldl_app. cbn [foldl]. rewrite content_length_line by lia. done.
Qed.


(** The lines and what is to come of the message after them. *)
Lemma hdrs_ok : Forall (λ h, line_ok h ∧ h ≠ ""%string) hdrs.
Proof.
  unfold hdrs, all_headers. apply Forall_app. split.
  - eapply Forall_impl; [|exact Head]. by intros h (? & ? & _).
  - destruct body as [b|]; [|constructor]. constructor; [|constructor]. split; [|done].
    apply length_line_ok. lia.
Qed.

(** What a call of the parser leaves: the message with the rest of the text, or the need for
    more, with room in the buffer. *)
Definition parsed (future : string) (r : outcome (Z + string * http_msg)) : Prop :=
  ∃ buf, (r = Ret (inr (buf, received)) ∧ buf +:+ future = rest) ∨
    ∃ m t, r = Ret (inr (buf, m)) ∧ receiving m t ∧ m.(pstat) ≠ DONE ∧
      buf +:+ future = t +:+ rest ∧ os_len buf < BUFSIZ ∧ future ≠ ""%string.

Lemma parsed_line future buf limited line tail m t fuel : line_ok line → receiving m t →
  m.(pstat) ≠ DONE → t = line +:+ CRLF +:+ tail → buf +:+ future = t +:+ rest →
  (∀ buf', os_len buf = os_len line + 2 + os_len buf' → crlf buf = Some (line, buf') →
     buf' +:+ future = tail +:+ rest → parsed future (http_parse (S fuel) limited buf m)) →
  (crlf buf = None → http_parse (S fuel) limited buf m =
     if limited && (BUFSIZ <=? os_len buf) then Ret (inl E2BIG) else Ret (inr (buf, m))) →
  parsed future (http_parse (S fuel) limited buf m).
Proof.
  intros [K1 K2 K3] R N T E Some' None'. rewrite T, !app_assoc_str in E.
  destruct (crlf_cases buf future line (tail +:+ rest) K1 E) as [(b & C & B & L)|[C L]]; [by apply (Some' b)|].
  rewrite (None' C). rewrite (proj2 (Z.leb_gt BUFSIZ (os_len buf))), andb_false_r by lia.
  exists buf. right. exists m, t. split; [done|]. split; [done|]. split; [done|].
  rewrite T, !app_assoc_str. split; [done|]. split; [lia|].
  intros ->. rewrite app_nil_r_str in E. rewrite E, os_len_app, os_len_app in L.
  assert (0 ≤ os_len (tail +:+ rest)) by (unfold os_len; lia). change (os_len CRLF) with 2 in L. lia.
Qed.

Lemma body_received fuel limited buf future b1 b2 : body = Some (b1 +:+ b2) → b2 ≠ ""%string →
  buf +:+ future = b2 +:+ rest →
  parsed future (http_parse (S fuel) limited buf
    {| pstat := BODY; m_first := Some first; m_hdr := hdrs; clen := clen_of hdrs; m_body := Some b1 |}).
Proof.
  intros B N E. cbn [http_parse pstat m_body default from_option clen id].
  assert (C : clen_of hdrs - os_len b1 = os_len b2) by (rewrite clen_hdrs, B, os_len_app; lia).
  rewrite C. assert (0 ≤ os_len buf ∧ 0 ≤ os_len b2) as [P1 P2] by (unfold os_len; lia).
  rewrite (proj2 (Z.ltb_ge _ _)), andb_false_r by lia.
  destruct (str_split_eq _ _ _ _ E) as [(e & X & Y)|(e & X & Y)].
  - subst b2 future. rewrite os_len_app in *. assert (0 ≤ os_len e) by (unfold os_len; lia).
    rewrite Z.min_l by lia. rewrite (to_nat_os_len buf), (str_take_all _ buf), (str_drop_all _ buf) by lia.
    exists ""%string. destruct e as [|c e].
    + left. rewrite app_nil_r_str in B. rewrite os_len_app, (proj2 (Z.eqb_eq _ _)).
      * split; [|done]. unfold received. by rewrite B.
      * rewrite clen_hdrs, B, os_len_app. lia.
    + right. eexists _, (String c e). split; [done|]. rewrite os_len_app, (proj2 (Z.eqb_neq _ _)).
      * split; [|split_and!; done]. apply rec_body; [by rewrite B, app_assoc_str|done].
      * rewrite clen_hdrs, B, !os_len_app. change (os_len (String c e)) with (Z.of_nat (S (String.length e))). lia.
  - subst buf. rewrite os_len_app in *. assert (0 ≤ os_len e) by (unfold os_len; lia).
    rewrite Z.min_r by lia. rewrite (to_nat_os_len b2), str_take_app, str_drop_app.
    exists e. left. rewrite os_len_app, (proj2 (Z.eqb_eq _ _)).
    + split; [|done]. unfold received. by rewrite B.
    + rewrite clen_hdrs, B, os_len_app. lia.
Qed.

Lemma parse_received limited fuel : ∀ buf future m t, receiving m t → m.(pstat) ≠ DONE →
  buf +:+ future = t +:+ rest → (1 + String.length buf < fuel)%nat →
  parsed future (http_parse fuel limited buf m).
Proof.
  induction fuel as [|fuel IH]; intros buf future m t R N E F; [lia|].
  destruct R as [|hs1 hs2 H|b1 b2 B B2].
  - eapply (parsed_line future buf limited first _ _ _ fuel First rec_first N).
    + unfold text. rewrite send_text. reflexivity.
    + exact E.
    + intros b L C B. cbn [http_parse pstat http_start]. rewrite C, c_string_id by apply First.
      apply (IH b future _ _ (rec_head [] hdrs eq_refl)); [done|exact B|]. unfold os_len in L. lia.
    + intros C. cbn [http_parse pstat http_start]. by rewrite C.
  - pose proof hdrs_ok as Ok. rewrite H in Ok. apply Forall_app in Ok as [_ Ok].
    destruct hs2 as [|h hs2].
    + assert (line_ok "") as LE by (split; by vm_compute).
      eapply (parsed_line future buf limited "" _ _ _ fuel LE (rec_head hs1 [] H) N eq_refl E).
      * intros b L C B. cbn [http_parse pstat clen]. rewrite C.
        rewrite app_nil_r in H. rewrite <- H. destruct fuel as [|fuel]; [lia|].
        destruct (option_cases body) as [[bd Bd]|Bd].
        -- assert (CL : clen_of hdrs = os_len bd) by by rewrite clen_hdrs, Bd.
           pose proof Body as BB. rewrite Bd in BB. destruct BB as [BN BL].
           rewrite (proj2 (Z.eqb_neq _ _)), CL.
           ++ unfold add_int. rewrite decide_True by (unfold_int; unfold INT_MAX, os_len in *; lia).
              cbn [obind]. rewrite <- CL.
              apply (body_received fuel limited b future "" bd); [exact Bd|exact BN|].
              rewrite Bd in B. exact B.
           ++ rewrite CL. destruct bd as [|x bd]; [done|].
              change (os_len (String x bd)) with (Z.of_nat (S (String.length bd))). lia.
        -- assert (CL : clen_of hdrs = 0) by by rewrite clen_hdrs, Bd.
           rewrite CL. cbn [Z.eqb http_parse pstat]. exists b. left. rewrite Bd in B. split; [|exact B].
           unfold received. rewrite CL, Bd. done.
      * intros C. cbn [http_parse pstat]. by rewrite C.
    + inversion Ok as [|? ? [OK NE] _]; subst.
      eapply (parsed_line future buf limited h _ _ _ fuel OK (rec_head hs1 (h :: hs2) H) N eq_refl E).
      * intros b L C B. cbn [http_parse pstat clen m_hdr]. rewrite C. destruct h as [|x h]; [done|].
        rewrite c_string_id by apply OK.
        assert (H' : hdrs = (hs1 ++ [String x h]) ++ hs2) by by rewrite <- app_assoc.
        pose proof (rec_head _ _ H') as R'. unfold clen_of in R'. rewrite foldl_app in R'. cbn [foldl] in R'.
        apply (IH b future _ _ R'); [done|exact B|]. unfold os_len in L. lia.
      * intros C. cbn [http_parse pstat]. by rewrite C.
  - destruct fuel as [|fuel]; [lia|]. by apply (body_received _ limited buf future b1 b2).
Qed.

Lemma recv_received limited fuel : ∀ buf net m t, receiving m t → m.(pstat) ≠ DONE →
  buf +:+ total net = t +:+ rest → os_len buf < BUFSIZ → total net ≠ ""%string →
  (recv_fuel net ≤ fuel)%nat →
  ∃ buf' net', http_recv fuel limited buf net m = Ret (inr (received, buf', net')) ∧
    buf' +:+ total net' = rest.
Proof.
  induction fuel as [|fuel IH]; intros buf net m t R N E L T F; [unfold recv_fuel in F; lia|].
  cbn [http_recv].
  destruct (net_read_spec net (Z.to_nat (BUFSIZ - os_len buf)) ltac:(by intros ->) ltac:(lia)) as (d & net' & -> & D & F' & _).
  rewrite <- D, <- app_assoc_str in E.
  destruct (parse_received limited (2 + String.length (buf +:+ d)) (buf +:+ d) (total net') m t R N E
    ltac:(lia)) as (b & [[-> B]|(m' & t' & -> & R' & N' & B & L' & T')]); cbn [obind].
  - exists b, net'. split; [done|exact B].
  - destruct (IH b net' m' t' R' N' B L' T' ltac:(lia)) as (b2 & n2 & E2 & B2).
    exists b2, n2. split; [|done]. by destruct (pstat m').
Qed.
End Received.

(** C29: a message that was sent is received as it was, with its headers (and the length of the
    body) and its body, whatever pieces the bytes arrive in and whatever follows them; what
    follows stays in the buffer and in the connection. The lines hold no carriage return and no
    NUL and fit in the buffer, no header is empty or tells a length, the body is not empty. *)
Theorem http_roundtrip recv first head body rest buf net
    (R : recv = edg_wll_http_recv ∨ recv = edg_wll_http_recv_proxy)
    (First : line_ok first)
    (Head : Forall (λ h, line_ok h ∧ h ≠ ""%string ∧ content_length h = None) head)
    (Body : match body with Some b => b ≠ ""%string ∧ os_len b < INT_MAX | None => True end)
    (E : buf +:+ total net = edg_wll_http_send first head body +:+ rest)
    (L : os_len buf < BUFSIZ) (T : total net ≠ ""%string) :
  ∃ n buf' net', recv buf net =
      Ret (inr ({| pstat := DONE; m_first := Some first;
                   m_hdr := head ++ match body with Some b => [length_line b] | None => [] end;
                   clen := n; m_body := body |}, buf', net')) ∧
    buf' +:+ total net' = rest.
Proof.
  exists (clen_of (all_headers head body)).
  destruct R as [-> | ->]; eapply recv_received; try done; apply rec_first.
Qed.

Lemma http_roundtrip_witness :
  ∃ n b net, edg_wll_http_recv "" ["POST / HTTP"; "/1.1" +:+ CRLF +:+ "Host: lb" +:+ CRLF +:+ "Cont";
                 "ent-Length: 3" +:+ CRLF; CRLF +:+ "ab"; "c" +:+ "GET"]%string =
    Ret (inr ({| pstat := DONE; m_first := Some "POST / HTTP/1.1"%string;
                 m_hdr := ["Host: lb"; "Content-Length: 3"]%string; clen := n;
                 m_body := Some "abc"%string |}, b, net)) ∧ b +:+ total net = "GET"%string.
Proof.
  apply (http_roundtrip edg_wll_http_recv "POST / HTTP/1.1" ["Host: lb"%string] (Some "abc"%string) "GET").
  - by left.
  - by split; vm_compute.
  - repeat constructor; by vm_compute.
  - by vm_compute.
  - reflexivity.
  - by vm_compute.
  - done.
Defined.

(** ** Whatever arrives *)

Lemma crlf_length buf line b : crlf buf = Some (line, b) →
  String.length buf = (String.length line + 2 + String.length b)%nat.
Proof.
  unfold crlf. destruct (str_span (Ascii.eqb CR) buf) as [l r] eqn:S.
  apply str_span_spec in S as (-> & _ & _). destruct r as [|c [|d r]]; try done.
  destruct (Ascii.eqb d NL); [|done]. intros [= -> ->]. rewrite length_app_str. cbn. lia.
Qed.

(** A call of the parser ends and, if it needs more, leaves room in the buffer. *)
Lemma parse_ends fuel : ∀ buf m, (1 + String.length buf < fuel)%nat → os_len buf ≤ BUFSIZ →
  match http_parse fuel true buf m with
  | Ret (inl _) => True
  | Ret (inr (b, m')) => os_len b < BUFSIZ ∨ m'.(pstat) = DONE
  | UB w => w ≠ NoFuel
  end.
Proof.
  assert (More : ∀ buf m, match (if true && (BUFSIZ <=? os_len buf) then Ret (inl E2BIG)
      else Ret (inr (buf, m))) : outcome (Z + string * http_msg) with
    | Ret (inl _) => True
    | Ret (inr (b, m')) => os_len b < BUFSIZ ∨ m'.(pstat) = DONE
    | UB w => w ≠ NoFuel end).
  { intros buf m. cbn [andb]. destruct (Z.leb_spec BUFSIZ (os_len buf)); [done|by left]. }
  induction fuel as [|fuel IH]; intros buf m F L; [lia|].
  cbn [http_parse]. destruct (pstat m) eqn:P.
  - destruct (crlf buf) as [[line b]|] eqn:C; [|apply More]. apply crlf_length in C.
    apply IH; unfold os_len in *; lia.
  - destruct (crlf buf) as [[line b]|] eqn:C; [|apply More]. apply crlf_length in C.
    destruct line as [|c line]; [|apply IH; unfold os_len in *; lia].
    destruct (clen m =? 0); [apply IH; unfold os_len in *; lia|].
    unfold add_int. case_decide; [|done]. apply IH; unfold os_len in *; lia.
  - set (n := Z.min _ _). destruct (negb (String.eqb buf "") && (n <? 0)) eqn:U; [done|].
    cbn [obind]. destruct (decide (buf = ""%string)) as [->|B]; [left; by destruct (Z.to_nat n)|].
    rewrite (proj2 (String.eqb_neq _ _) B) in U. apply Z.ltb_ge in U.
    destruct (decide (n = os_len buf)) as [E|E].
    + left. rewrite E, to_nat_os_len, str_drop_all by lia. done.
    + right. rewrite os_len_app, (proj2 (Z.eqb_eq _ _)); [by destruct m|].
      assert (os_len (str_take (Z.to_nat n) buf) = n) as ->; [|lia].
      unfold os_len in *. rewrite length_str_take. lia.
  - right. exact P.
Qed.

(** receiving a message ends whatever bytes arrive: with the message, with an error (the
    end of the stream, a line that does not fit in the buffer), or, for a length that is
    negative or the greatest integer, with undefined behaviour. *)
Theorem http_recv_ends buf net (L : os_len buf < BUFSIZ) : edg_wll_http_recv buf net ≠ UB NoFuel.
Proof.
  unfold edg_wll_http_recv. generalize (le_n (recv_fuel net)). generalize (recv_fuel net) at 2 3 as fuel.
  intros fuel. generalize http_start as m. revert buf net L.
  induction fuel as [|fuel IH]; intros buf net L m F; [unfold recv_fuel in F; lia|].
  cbn [http_recv]. destruct (decide (net = [])) as [->|N]; [done|].
  destruct (net_read_spec net (Z.to_nat (BUFSIZ - os_len buf)) N ltac:(lia)) as (d & net' & -> & _ & F' & D).
  pose proof (parse_ends (2 + String.length (buf +:+ d)) (buf +:+ d) m ltac:(lia)) as P.
  destruct (http_parse _ true (buf +:+ d) m) as [[e|[b m']]|w]; cbn [obind]; [done| |].
  - destruct P as [P|P]; [rewrite os_len_app; unfold os_len in *; lia| |by rewrite P].
    destruct (pstat m'); try done; apply IH; done || lia.
  - intros [= ->]. apply P; [rewrite os_len_app; unfold os_len in *; lia|done].
Qed.

Lemma http_recv_ends_witness :
  os_len "" < BUFSIZ ∧ edg_wll_http_recv "" ["GET"; " /"]%string ≠ UB NoFuel.
Proof. split; [done|]. apply (http_recv_ends "" ["GET"; " /"]%string). done. Defined.

(** A negative length makes [memcpy] leave the buffers. *)
Lemma negative_length_overflow :
  edg_wll_http_recv "" ["POST" +:+ CRLF +:+ "Content-Length: -1" +:+ CRLF +:+ CRLF +:+ "abc"]%string =
  UB OutOfBounds.
Proof. reflexivity. Qed.

(** The version for the proxy has no limit on the length of a line: once its buffer is full of
    a line without an end it reads no bytes for ever. *)
Lemma proxy_recv_hangs fuel buf net : os_len buf = BUFSIZ → no_cr buf → net ≠ [] →
  total net ≠ ""%string → http_recv fuel false buf net http_start = UB NoFuel.
Proof.
  intros L N E T. revert net E T. induction fuel as [|fuel IH]; intros net E T; [done|].
  cbn [http_recv]. rewrite L, Z.sub_diag. cbn [Z.to_nat]. destruct net as [|c net]; [done|].
  cbn [net_read str_take]. rewrite app_nil_r_str. cbn [Nat.add http_parse pstat http_start].
  assert (crlf buf = None) as ->.
  { unfold crlf. by rewrite str_span_all. }
  cbn [andb obind pstat]. destruct c as [|x c]; cbn [str_drop]; [|by apply IH].
  destruct net as [|y net]; [done|]. by apply IH.
Qed.
