(* ===== verification/Notif.v ===== *)
(** * Notifications

    Which registrations a new status of a job is sent to, and what they get:
    org.glite.lb.server/src/notif_match.c with [edg_wll_NotifJobStatus] of il_notification.c
    and the history of jobstat.c ([collate_history]).  The rows that the data base finds, the
    parser of conditions and of ACLs and the JSON form of an event are parameters. *)
From Stdlib Require Import ZArith Lia Ascii.
From stdpp Require Import base option list strings numbers.
From S2P Require Import Prelude CLib JobId LbTypes Events Gss Query Authz.
#[local] Open Scope Z_scope.

(** ** The history of a job *)
Definition HISTORY_EMPTY : string := "[]".
Definition HISTORY_HEADER : string := String (chr 91) (String (chr 10) "").
Definition HISTORY_FOOTER : string := String (chr 10) (String (chr 93) "").
Definition HISTORY_SEPARATOR : string := String (chr 44) (String (chr 10) "").

Section History.
Context {R : Type}.
(** What [collate_history] changes of an event: [any.user] and, of a ChangeACL event,
    [user_id]; [R] is the rest of the event. *)
Record hist_event := { h_user : option string; h_acl_user : option (option string); h_rest : R }.
Context (unparse_json : hist_event → string) (sha256_hex : string → string)
  (server_salt : Z + string).

(** Without a salt the hash has no value. *)
Definition anonymize_string (s : option string) : outcome (option string) :=
  match server_salt with
  | inl _ => UB Indeterminate
  | inr salt => Ret (Some (sha256_salt sha256_hex s salt))
  end.

Definition hide_name (authz_flags : Z) (name : option string) : outcome (option string) :=
  if Z.land authz_flags STATUS_FOR_MONITORING =? 0
  then if Z.land authz_flags READ_ANONYMIZED =? 0 then Ret name else anonymize_string name
  else Ret None.
Definition hide_event (authz_flags : Z) (e : hist_event) : outcome hist_event :=
  let! user := hide_name authz_flags e.(h_user) in
  let! acl_user := match e.(h_acl_user) with
                   | None => Ret None
                   | Some u => let! u := hide_name authz_flags u in Ret (Some u)
                   end in
  Ret {| h_user := user; h_acl_user := acl_user; h_rest := e.(h_rest) |}.

(** The event after it has been printed: a name that was there is put back. *)
Definition put_back (e hidden : hist_event) : hist_event :=
  {| h_user := match e.(h_user) with Some u => Some u | None => hidden.(h_user) end;
     h_acl_user := match e.(h_acl_user) with
                   | Some (Some u) => Some (Some u)
                   | _ => hidden.(h_acl_user)
                   end;
     h_rest := e.(h_rest) |}.

(** [strcpy(history + size, s)] into [maxsize] bytes. *)
Definition put_text (maxsize : Z) (history s : string) : outcome string :=
  if Z.of_nat (String.length history) + Z.of_nat (String.length s) + 1 <=? maxsize
  then Ret (history +:+ s) else UB OutOfBounds.

(** The text and the events after it. *)
Fixpoint history_loop (authz_flags : Z) (events : list hist_event) (maxsize : Z) (history : string) :
    outcome (string * list hist_event) :=
  match events with
  | [] => let! history := put_text maxsize history HISTORY_FOOTER in Ret (history, [])
  | e :: events =>
    let! hidden := hide_event authz_flags e in
    let event_str := unparse_json hidden in
    let newsize := Z.of_nat (String.length history) + Z.of_nat (String.length event_str) + 2 + 2 + 1 in
    let maxsize := if maxsize <? newsize
                   then if 2 * maxsize <? newsize then newsize else 2 * maxsize
                   else maxsize in
    let! history := put_text maxsize history event_str in
    let! history := match events with
                    | [] => Ret history
                    | _ => put_text maxsize history HISTORY_SEPARATOR
                    end in
    let! '(history, events) := history_loop authz_flags events maxsize history in
    Ret (history, put_back e hidden :: events)
  end.

(** Without events the text "[]" is made and thrown away. *)
Definition collate_history (stat : JobStat) (events : list hist_event) (authz_flags : Z) :
    outcome (JobStat * list hist_event) :=
  match events with
  | [] => Ret (stat, [])
  | _ =>
    let! history := put_text 1024 "" HISTORY_HEADER in
    let! '(history, events) := history_loop authz_flags events 1024 history in
    Ret (stat <| LbTypes.history := Some history |>, events)
  end.
End History.
Arguments hist_event R : clear implicits.
Arguments Build_hist_event {R} _ _ _.

(** ** Registrations *)
Definition EDG_WLL_STAT_CLASSADS : Z := 1.
Definition EDG_WLL_NOTIF_TERMINAL_STATES : Z := 64.
Definition EDG_WLL_NOTIF_HISTORY : Z := 128.

(** The constant table; the codes outside are behind its end. *)
Definition EDG_WLL_JOB_TERMINAL_STATE : list bool :=
  [false; false; false; false; false; false; false; true; true; true; false; true].
Definition terminal_state (st : Z) : outcome bool :=
  match (if st <? 0 then None else EDG_WLL_JOB_TERMINAL_STATE !! Z.to_nat st) with
  | Some b => Ret b
  | None => UB OutOfBounds
  end.

(** A row of the registrations: its times and flags as they are used. *)
Record registration := {
  r_id : string;
  r_destination : string;
  r_valid : Z;                   (* [glite_lbu_StrToTime] *)
  r_owner : string;
  r_conditions : option string;
  r_flags : string
}.

Record notification := {
  n_id : string;
  n_dest : string;
  n_owner : string;
  n_expires : Z;
  n_stat : JobStat
}.

Section Notify.
Context {R : Type} (unparse_json : hist_event R → string).
Context (peerName : option string) (jdl_get : string → string → option string).
(** The parsers of conditions and of ACLs, without the values that they cannot read. *)
Context (parseJobQueryRec : string → option (option conditions))
  (decode_acl : string → option (GssPrincipal → bool)).
Context (ad_ok : string → bool) (ad_get : string → string → option string)
  (ad_unparse : list (string * string) → option string)
  (sha256_hex : string → string) (server_salt : Z + string).
Context (ctx : authz_ctx).

(** [oldstat] is never NULL. *)
Definition notif_match_conditions (oldstat stat : JobStat) (cond : option string) (flags : Z) :
    outcome bool :=
  match cond with
  | None => Ret true
  | Some cond =>
    let! wanted :=
      if Z.land flags EDG_WLL_NOTIF_TERMINAL_STATES =? 0 then Ret true else
      let! new := terminal_state stat.(state) in
      if negb new then Ret false else
      if negb (stat.(state) =? EDG_WLL_JOB_PURGED) then Ret true else
      let! old := terminal_state oldstat.(state) in Ret (negb old) in
    if negb wanted then Ret false else
    match parseJobQueryRec cond with
    | None => Ret true
    | Some c => match_status peerName jdl_get (Some oldstat) stat c
    end
  end.

(** Whether, and the flags of the restrictions. *)
Definition edg_wll_NotifCheckAuthz (stat : JobStat) (flags : Z) (recip : string) : bool * Z :=
  check_jobstat_authz ctx stat flags (a ← stat.(acl); decode_acl a)
    (Some {| princ_name := Some recip; princ_fqans := [] |}).

(** [edg_wll_NotifJobStatus]: what is sent of a status. *)
Definition edg_wll_NotifJobStatus (id dest owner : string) (flags expires : Z) (stat : JobStat) :
    notification :=
  {| n_id := id; n_dest := dest; n_owner := owner; n_expires := expires;
     n_stat := if flags =? 0
               then stat <| jdl := None |> <| matched_jdl := None |> <| condor_jdl := None |>
                         <| rsl := None |>
               else stat |}.

(** The key of a copy of the status: monitoring, anonymised, with history. *)
Definition copy_key (authz_flags flags : Z) : bool * bool * bool :=
  (negb (Z.land authz_flags STATUS_FOR_MONITORING =? 0),
   negb (Z.land authz_flags READ_ANONYMIZED =? 0),
   negb (Z.land flags EDG_WLL_NOTIF_HISTORY =? 0)).

(** A new copy without its history. *)
Definition hide_fields (newstat : JobStat) (authz_flags : Z) : outcome JobStat :=
  let! s := if Z.land authz_flags STATUS_FOR_MONITORING =? 0 then Ret newstat
            else blacken_fields ad_ok ad_get ad_unparse newstat authz_flags in
  Ret (if Z.land authz_flags READ_ANONYMIZED =? 0 then s
       else (anonymize_stat sha256_hex server_salt s).2).

Abbreviation copies := (list (bool * bool * bool * JobStat)).
Definition find_copy (k : bool * bool * bool) (c : copies) : option JobStat :=
  snd <$> find (λ e, bool_decide (e.1 = k)) c.

(** The events of the job, as they have been read already and as [fetch_history] reads them. *)
Abbreviation history_events := (option (list (hist_event R))).

(** The copy for a registration, the copies and the events: no copy for the [continue] when the
    events cannot be read, which leaves the status without them among the copies. *)
Definition status_copy (newstat : JobStat) (fetched : history_events)
    (authz_flags flags : Z) (c : copies) (events : history_events) :
    outcome (option JobStat * copies * history_events) :=
  let k := copy_key authz_flags flags in
  match find_copy k c with
  | Some s => Ret (Some s, c, events)
  | None =>
    let! s := hide_fields newstat authz_flags in
    if Z.land flags EDG_WLL_NOTIF_HISTORY =? 0 then Ret (Some s, (k, s) :: c, events) else
    match (match events with Some l => Some l | None => fetched end) with
    | None => Ret (None, (k, s) :: c, None)
    | Some l =>
      let! '(s, l) := collate_history unparse_json sha256_hex server_salt s l authz_flags in
      Ret (Some s, (k, s) :: c, Some l)
    end
  end.

(** [edg_wll_NotifMatch] on the rows: what is sent, the registrations that have expired, and the
    numbers of notifications that the statistics of the server count (messages, others). *)
Record notif_result := { sent : list notification; expired : list string; msgs : Z; legacy : Z }.
#[export] Instance eta_notif_result : Eta notif_result :=
  fun x => {| sent := sent x; expired := expired x; msgs := msgs x; legacy := legacy x |}.

Definition count_sent (r : registration) (res : notif_result) : notif_result :=
  match strip_prefix "x-msg" r.(r_destination) with
  | Some _ => res <| msgs := res.(msgs) + 1 |>
  | None => res <| legacy := res.(legacy) + 1 |>
  end.

Definition notif_row (now : Z) (oldstat newstat : JobStat) (fetched : history_events)
    (r : registration) (c : copies) (events : history_events) (res : notif_result) :
    outcome (copies * history_events * notif_result) :=
  let flags := atoi r.(r_flags) in
  if r.(r_valid) <? now then Ret (c, events, count_sent r (res <| expired := res.(expired) ++ [r.(r_id)] |>)) else
  let! m := notif_match_conditions oldstat newstat r.(r_conditions) flags in
  if negb m then Ret (c, events, count_sent r res) else
  let '(ok, authz_flags) := edg_wll_NotifCheckAuthz newstat flags r.(r_owner) in
  if negb ok then Ret (c, events, res) else
  let! '(s, c, events) := status_copy newstat fetched authz_flags flags c events in
  match s with
  | None => Ret (c, events, res)
  | Some s =>
    let n := edg_wll_NotifJobStatus r.(r_id) r.(r_destination) r.(r_owner) flags r.(r_valid) s in
    Ret (c, events, count_sent r (res <| sent := res.(sent) ++ [n] |>))
  end.

Fixpoint notif_rows (now : Z) (oldstat newstat : JobStat) (fetched : history_events)
    (rows : list registration) (c : copies) (events : history_events) (res : notif_result) :
    outcome notif_result :=
  match rows with
  | [] => Ret res
  | r :: rows =>
    let! '(c, events, res) := notif_row now oldstat newstat fetched r c events res in
    notif_rows now oldstat newstat fetched rows c events res
  end.

Definition edg_wll_NotifMatch (now : Z) (oldstat newstat : JobStat)
    (fetched : history_events) (rows : list registration) : outcome notif_result :=
  notif_rows now oldstat newstat fetched rows [((false, false, false), newstat)] None
    {| sent := []; expired := []; msgs := 0; legacy := 0 |}.
End Notify.

(** ** What every registration should get, without the copies *)
Fixpoint join_texts (l : list string) : string :=
  match l with
  | [] => ""
  | [s] => s
  | s :: l => s +:+ HISTORY_SEPARATOR +:+ join_texts l
  end.

Fixpoint map_outcome {A B} (f : A → outcome B) (l : list A) : outcome (list B) :=
  match l with
  | [] => Ret []
  | x :: l => let! y := f x in let! l := map_outcome f l in Ret (y :: l)
  end.

(** The status with a list of events in it. *)
Definition with_history (stat : JobStat) (texts : list string) : JobStat :=
  match texts with
  | [] => stat
  | _ => stat <| LbTypes.history := Some (HISTORY_HEADER +:+ join_texts texts +:+ HISTORY_FOOTER) |>
  end.

(** An event whose names are known, as they are in the data base. *)
Definition known_names {R} (e : hist_event R) : Prop :=
  is_Some e.(h_user) ∧ e.(h_acl_user) ≠ Some None.

(** ** The history is complete and fits *)
Section HistorySpec.
Context {R : Type} (unparse_json : hist_event R → string) (sha256_hex : string → string)
  (server_salt : Z + string).
Abbreviation hide := (hide_event (R := R) sha256_hex server_salt).

Lemma put_text_ok m h s : Z.of_nat (String.length h) + Z.of_nat (String.length s) + 1 ≤ m →
  put_text m h s = Ret (h +:+ s).
Proof. intros L. unfold put_text. by rewrite (proj2 (Z.leb_le _ _)) by lia. Qed.

Lemma history_loop_ok flags events : ∀ m h, Z.of_nat (String.length h) + 3 ≤ m →
  history_loop unparse_json sha256_hex server_salt flags events m h =
  (let! hidden := map_outcome (hide flags) events in
   Ret (h +:+ join_texts (unparse_json <$> hidden) +:+ HISTORY_FOOTER,
        zip_with put_back events hidden)).
Proof.
  induction events as [|e events IH]; intros m h B; cbn [history_loop map_outcome obind].
  { rewrite put_text_ok by (cbn [String.length HISTORY_FOOTER]; lia). done. }
  destruct (hide flags e) as [x|w]; cbn [obind]; [|done].
  set (t := unparse_json x).
  set (n := Z.of_nat (String.length h) + Z.of_nat (String.length t) + 2 + 2 + 1).
  set (m' := if m <? n then _ else m).
  assert (n ≤ m') as B'.
  { unfold m'. destruct (Z.ltb_spec m n); [destruct (Z.ltb_spec (2 * m) n)|]; lia. }
  subst n. rewrite put_text_ok by lia. cbn [obind]. destruct events as [|e' events].
  - cbn [obind]. rewrite IH by (rewrite length_app_str; lia). cbn [map_outcome obind].
    cbn [fmap list_fmap join_texts zip_with]. fold t. by rewrite app_assoc_str.
  - rewrite put_text_ok by (rewrite length_app_str; cbn [String.length HISTORY_SEPARATOR]; lia).
    cbn [obind]. rewrite IH by (rewrite !length_app_str; cbn [String.length HISTORY_SEPARATOR]; lia).
    cbn [map_outcome]. destruct (hide flags e') as [x'|w]; cbn [obind]; [|done].
    destruct (map_outcome (hide flags) events) as [l|w]; cbn [obind]; [|done].
    cbn [fmap list_fmap join_texts zip_with]. fold t. by rewrite !app_assoc_str.
Qed.

Lemma collate_spec stat events flags :
  collate_history unparse_json sha256_hex server_salt stat events flags =
  (let! hidden := map_outcome (hide flags) events in
   Ret (with_history stat (unparse_json <$> hidden), zip_with put_back events hidden)).
Proof.
  unfold collate_history. destruct events as [|e events]; [done|].
  rewrite put_text_ok by (cbn [String.length HISTORY_HEADER]; lia). cbn [obind].
  rewrite history_loop_ok by (cbn [String.append String.length HISTORY_HEADER]; lia).
  cbn [map_outcome]. destruct (hide flags e); cbn [obind]; [|done].
  destruct (map_outcome (hide flags) events); done.
Qed.

Lemma put_back_known flags events hidden : Forall known_names events →
  map_outcome (hide flags) events = Ret hidden → zip_with put_back events hidden = events.
Proof.
  intros K. revert hidden. induction K as [|e events [[u U] A] K IH]; intros hidden; [done|].
  cbn [map_outcome]. intros H. apply obind_Ret_inv in H as (x & E & H).
  apply obind_Ret_inv in H as (l & L & [= <-]). cbn [zip_with]. f_equal; [|by apply IH].
  destruct e as [eu ea er]. cbn in *. subst eu. unfold put_back. cbn. f_equal.
  destruct ea as [[a|]|]; [done|done|]. unfold hide_event in E. cbn in E.
  apply obind_Ret_inv in E as (y & _ & [= <-]). done.
Qed.

Lemma hide_key flags flags' (e : hist_event R) :
  (Z.land flags STATUS_FOR_MONITORING =? 0) = (Z.land flags' STATUS_FOR_MONITORING =? 0) →
  (Z.land flags READ_ANONYMIZED =? 0) = (Z.land flags' READ_ANONYMIZED =? 0) →
  hide flags e = hide flags' e.
Proof. intros M A. unfold hide_event, hide_name. by rewrite M, A. Qed.
End HistorySpec.

Lemma map_outcome_ext {A B} (f g : A → outcome B) l : (∀ x, f x = g x) → map_outcome f l = map_outcome g l.
Proof. intros E. induction l as [|x l IH]; [done|]. cbn. by rewrite E, IH. Qed.

Section Spec.
Context {R : Type} (unparse_json : hist_event R → string)
  (peerName : option string) (jdl_get : string → string → option string)
  (parseJobQueryRec : string → option (option conditions))
  (decode_acl : string → option (GssPrincipal → bool))
  (ad_ok : string → bool) (ad_get : string → string → option string)
  (ad_unparse : list (string * string) → option string)
  (sha256_hex : string → string) (server_salt : Z + string) (ctx : authz_ctx)
  (now : Z) (oldstat newstat : JobStat) (events : list (hist_event R)).

(** The status as a recipient may see it, with the history if it wants it. *)
Definition visible_status (authz_flags flags : Z) : outcome JobStat :=
  let! s := hide_fields ad_ok ad_get ad_unparse sha256_hex server_salt newstat authz_flags in
  if Z.land flags EDG_WLL_NOTIF_HISTORY =? 0 then Ret s else
  let! hidden := map_outcome (hide_event sha256_hex server_salt authz_flags) events in
  Ret (with_history s (unparse_json <$> hidden)).

(** Nothing for a registration that has expired, whose conditions do not hold or whose owner may
    not see the job; the visible status otherwise. *)
Definition notification_for (r : registration) : outcome (option notification) :=
  let flags := atoi r.(r_flags) in
  if r.(r_valid) <? now then Ret None else
  let! m := notif_match_conditions peerName jdl_get parseJobQueryRec oldstat newstat
              r.(r_conditions) flags in
  if negb m then Ret None else
  let '(ok, authz_flags) := edg_wll_NotifCheckAuthz decode_acl ctx newstat flags r.(r_owner) in
  if negb ok then Ret None else
  let! s := visible_status authz_flags flags in
  Ret (Some (edg_wll_NotifJobStatus r.(r_id) r.(r_destination) r.(r_owner) flags r.(r_valid) s)).

Lemma visible_key f g f' g' : copy_key f g = copy_key f' g' → visible_status f g = visible_status f' g'.
Proof.
  unfold copy_key, visible_status, hide_fields. intros [= M A H].
  apply (f_equal negb) in M, A, H. rewrite !negb_involutive in *.
  assert (B : blacken_fields ad_ok ad_get ad_unparse newstat f =
              blacken_fields ad_ok ad_get ad_unparse newstat f').
  { unfold blacken_fields. by rewrite M. }
  rewrite M, A, H, B.
  by rewrite (map_outcome_ext _ _ events (λ e, hide_key sha256_hex server_salt f f' e M A)).
Qed.

(** Every copy is the visible status of its key. *)
Definition copies_ok (c : list (bool * bool * bool * JobStat)) : Prop :=
  ∀ k s, find_copy k c = Some s → ∀ f g, copy_key f g = k → visible_status f g = Ret s.

Lemma find_copy_cons k k' s c : find_copy k ((k', s) :: c) = if bool_decide (k' = k) then Some s else find_copy k c.
Proof. unfold find_copy. cbn. by case_bool_decide. Qed.

Lemma copies_start : copies_ok [((false, false, false), newstat)].
Proof.
  intros k s F f g K. rewrite find_copy_cons in F. case_bool_decide as E; [|done].
  rewrite <- E in K. injection F as <-. injection K as M A H. apply negb_false_iff in M, A, H.
  unfold visible_status, hide_fields. by rewrite M, A, H.
Qed.

(** The events that are kept are those of the job. *)
Definition events_ok (kept : option (list (hist_event R))) : Prop := ∀ l, kept = Some l → l = events.

Abbreviation copy_for := (status_copy unparse_json ad_ok ad_get ad_unparse sha256_hex server_salt
  newstat (Some events)).

Lemma status_copy_spec f g c kept : Forall known_names events → copies_ok c → events_ok kept →
  match visible_status f g with
  | Ret s => ∃ c' kept', copy_for f g c kept = Ret (Some s, c', kept') ∧ copies_ok c' ∧ events_ok kept'
  | UB w => copy_for f g c kept = UB w
  end.
Proof.
  intros K C E. unfold status_copy. destruct (find_copy (copy_key f g) c) as [s|] eqn:F.
  { rewrite (C _ _ F f g eq_refl). eauto. }
  assert (N : ∀ s, visible_status f g = Ret s → copies_ok ((copy_key f g, s) :: c)).
  { intros s V k s' F' f' g' Q. rewrite find_copy_cons in F'. case_bool_decide as D; [|by apply (C k)].
    injection F' as <-. rewrite <- V. apply visible_key. congruence. }
  remember (visible_status f g) as v eqn:V. unfold visible_status in V.
  destruct (hide_fields _ _ _ _ _ _ _) as [s|w]; cbn [obind] in *; [|by subst v].
  destruct (Z.land g EDG_WLL_NOTIF_HISTORY =? 0); [subst v; eauto 6|].
  assert ((match kept with Some l => Some l | None => Some events end) = Some events) as ->.
  { destruct kept as [l|]; [by rewrite (E l eq_refl)|done]. }
  rewrite collate_spec. destruct (map_outcome _ events) as [hidden|w] eqn:M; cbn [obind] in *; subst v.
  - rewrite (put_back_known _ _ _ _ _ K M). eexists _, _. split; [done|]. split; [by apply N|].
    by intros l [= <-].
  - done.
Qed.

Definition expired_id (r : registration) : option string :=
  if r.(r_valid) <? now then Some r.(r_id) else None.

Lemma sent_count r res : sent (count_sent r res) = sent res ∧ expired (count_sent r res) = expired res.
Proof. unfold count_sent. destruct (strip_prefix _ _); by destruct res. Qed.

Abbreviation row := (notif_row unparse_json peerName jdl_get parseJobQueryRec
  decode_acl ad_ok ad_get ad_unparse sha256_hex server_salt ctx now oldstat newstat (Some events)).
Abbreviation rows_loop := (notif_rows unparse_json peerName jdl_get parseJobQueryRec
  decode_acl ad_ok ad_get ad_unparse sha256_hex server_salt ctx now oldstat newstat (Some events)).

Lemma row_spec r c kept res : Forall known_names events → copies_ok c → events_ok kept →
  match notification_for r with
  | Ret n => ∃ c' kept' res', row r c kept res = Ret (c', kept', res') ∧ copies_ok c' ∧
      events_ok kept' ∧ sent res' = sent res ++ option_list n ∧
      expired res' = expired res ++ option_list (expired_id r)
  | UB w => row r c kept res = UB w
  end.
Proof.
  intros K C E. unfold notification_for, notif_row, expired_id.
  destruct (r_valid r <? now).
  { eexists _, _, _. split; [done|]. split; [done|]. split; [done|].
    destruct (sent_count r (res <| expired := expired res ++ [r_id r] |>)) as [-> ->].
    destruct res. cbn. by rewrite app_nil_r. }
  destruct (notif_match_conditions _ _ _ _ _ _ _) as [m|w]; cbn [obind]; [|done].
  destruct m; cbn [negb].
  2: { eexists _, _, _. split; [done|]. destruct (sent_count r res) as [-> ->]. by rewrite !app_nil_r. }
  destruct (edg_wll_NotifCheckAuthz _ _ _ _ _) as [ok f]. destruct ok; cbn [negb].
  2: { eexists _, _, _. split; [done|]. by rewrite !app_nil_r. }
  pose proof (status_copy_spec f (atoi (r_flags r)) c kept K C E) as S.
  destruct (visible_status f (atoi (r_flags r))) as [s|w]; cbn [obind]; [|by rewrite S].
  destruct S as (c' & kept' & -> & C' & E'). cbn [obind]. eexists _, _, _. split; [done|].
  split; [done|]. split; [done|].
  match goal with |- context [count_sent r ?x] => destruct (sent_count r x) as [-> ->] end.
  destruct res. cbn. by rewrite app_nil_r.
Qed.

Lemma rows_spec rows : Forall known_names events → ∀ c kept res, copies_ok c → events_ok kept →
  (let! res' := rows_loop rows c kept res in Ret (sent res', expired res')) =
  (let! l := map_outcome notification_for rows in
   Ret (sent res ++ omap id l, expired res ++ omap expired_id rows)).
Proof.
  intros K. induction rows as [|r rows IH]; intros c kept res C E; cbn [notif_rows map_outcome obind].
  { by rewrite !app_nil_r. }
  pose proof (row_spec r c kept res K C E) as S. destruct (notification_for r) as [n|w]; cbn [obind].
  - destruct S as (c' & kept' & res' & -> & C' & E' & S1 & S2). cbn [obind].
    rewrite (IH c' kept' res' C' E').
    destruct (map_outcome notification_for rows) as [l|w]; cbn [obind]; [|done].
    rewrite S1, S2. cbn [omap list_omap]. unfold option_list.
    destruct n, (expired_id r); cbn [id]; by rewrite <- ?app_assoc, ?app_nil_r.
  - by rewrite S.
Qed.
End Spec.


(** C36: the history of a job with events is the list of all of them in JSON, separated by commas
    and in brackets, with the names that the recipient may see, and is never written behind the
    end of its buffer, which grows with it. *)
Theorem history_complete {R} unparse_json sha256_hex server_salt stat (events : list (hist_event R)) flags :
  (let! '(stat, _) := collate_history unparse_json sha256_hex server_salt stat events flags in Ret stat) =
  (let! hidden := map_outcome (hide_event sha256_hex server_salt flags) events in
   Ret (with_history stat (unparse_json <$> hidden))).
Proof. rewrite collate_spec. by destruct (map_outcome _ events). Qed.

(** ** Witness: the same status for a monitoring service, for the owner with the history, and for
    an owner whose registration has expired *)
Definition demo_event (user : string) : hist_event unit :=
  {| h_user := Some user; h_acl_user := None; h_rest := tt |}.
Definition demo_reg (id owner flags : string) (valid : Z) : registration :=
  {| r_id := id; r_destination := "x-msg://topic"; r_valid := valid; r_owner := owner;
     r_conditions := None; r_flags := flags |}.
Definition demo_json (e : hist_event unit) : string :=
  match h_user e with Some u => u | None => "null" end.
Definition demo_stat : JobStat :=
  edg_wll_InitStatus <| owner := Some "/CN=alice" |> <| location := Some "ce" |>.
Definition demo_policy : authz_ctx := {|
  az_noAuth := false;
  az_policy := Some [{| act_id := STATUS_FOR_MONITORING; act_rules := [[(ATTR_SUBJECT, "/CN=nagios")]] |}];
  az_mapping := [] |}.

