(* ===== verification/DbStore.v ===== *)
(** * Storing an event and what follows from it

    [db_store] of org.glite.lb.server/src/db_store.c: the job is registered or checked, the event
    appended to its log, the status stepped, subjobs, ACLs and connections changed, all in one
    transaction; with the status computed from the stored events where none is stored yet
    ([edg_wll_intJobStatus] of jobstat.c).

    Deadlocks and lost connections of the data base do not occur and queries have no limits;
    statistics, the R-GMA export, the registration to the job provenance, the purging of proxies and
    the time of arrival that begins a line of a dump are left out. *)
From Stdlib Require Import ZArith Lia Ascii.
From stdpp Require Import base option list strings numbers gmap.
From S2P Require Import Query Prelude Acl Authz StoreEvent CLib JobId LbTypes Events SeqCode Context StateMachine.
From S2P Require Import ProcessCream ProcessFT Gss ProcessGlite GliteCases GliteProps.
From S2P Require Import ProcessEvent IntJobStat ParentStatus.
#[local] Open Scope Z_scope.

Definition EDG_WLL_ERROR_SERVER_RESPONSE : Z := 1408.
Definition EDG_WLL_ERROR_JOBID_FORMAT : Z := 1409.
Definition EDG_WLL_LOGFLAG_DIRECT : Z := 16.
Definition EDG_WLL_EVENT_REGJOB : Z := 17.

Section DbStore.
Context `{Stack}.
Context (index_columns : JobStat → list string).
Context `{StoreLib}.
(** The generated parser of events, which also checks them, and whether the server has a policy
    file. *)
Context (edg_wll_ParseEvent : string → option Event) (policy_file : bool).

(** ** The status from the stored events *)

(** A stable sorting, as glibc's. *)
Fixpoint insert_event (e : Event) (l : list Event) : list Event :=
  match l with
  | [] => [e]
  | f :: l => if 0 <? compare_events_by_seq e f then f :: insert_event e l else e :: f :: l
  end.
Fixpoint edg_wll_SortEvents (l : list Event) : list Event :=
  match l with [] => [] | e :: l => insert_event e (edg_wll_SortEvents l) end.

Definition strict_jobid (conf : config) (job : option JobId) : outcome Z :=
  check_strict_jobid (Some conf.(cf_srvName)) conf.(cf_srvPort) conf.(isProxy) job.

(** [edg_wll_QueryEventsServer] for a job identifier, without authorisation and limits: the error,
    or the events that can be read, sorted. *)
Definition read_event (sv : server) (key : string) (n : Z) : outcome (option Event) :=
  let db := sv.(sv_db) in
  match db.(db_events) !! (key, n) with
  | None => Ret None
  | Some r =>
    if r.(er_code) =? 0 then Ret None else
    match db.(db_users) !! r.(er_userid), (db.(db_flesh) !! (key, n)) ≫= edg_wll_ParseEvent with
    | Some _, Some e =>
      let e := e <| ev_arrived := mkTime r.(er_arrived) 0 |> in
      let! strict := strict_jobid sv.(sv_conf) e.(ev_jobId) in
      Ret (if strict =? 0 then Some e else None)
    | _, _ => Ret None
    end
  end.
Fixpoint read_events (sv : server) (key : string) (l : list Z) : outcome (list Event) :=
  match l with
  | [] => Ret []
  | n :: l =>
    let! e := read_event sv key n in
    let! es := read_events sv key l in
    Ret (match e with Some e => e :: es | None => es end)
  end.
Definition job_events (sv : server) (job : option JobId) : outcome (Z + list Event) :=
  let! strict := strict_jobid sv.(sv_conf) job in
  if negb (strict =? 0) then Ret (inl strict) else
  let key := job_key job in
  let! l :=
    match sv_jobs sv !! key with
    | None => Ret []
    | Some r =>
      if (r.(jr_grey) =? 0) && ((if sv.(sv_conf).(isProxy) then r.(jr_proxy) else r.(jr_server)) =? 1)
      then read_events sv key (seqZ 0 r.(jr_nevents)) else Ret []
    end in
  Ret (match l with [] => inl ENOENT | _ => inr (edg_wll_SortEvents l) end).

(** The status of a subjob that has no event of its own yet. *)
Definition intJobStat_embryonic (jobid : option JobId) (e : Event) (jobtype_code : Z) (stat : intJobStat) :
    outcome intJobStat :=
  let! user := match e.(ev_user) with Some u => Ret u | None => UB NullDeref end in
  let! times := store_int stat.(pub).(stateEnterTimes) (1 + EDG_WLL_JOB_SUBMITTED)
                  (s32 e.(ev_timestamp).(tv_sec)) in
  Ret (stat <! jobId := glite_jobid_dup jobid !> <! parent_job := glite_jobid_dup e.(ev_jobId) !>
            <! state := EDG_WLL_JOB_SUBMITTED !> <! owner := Some user !>
            <! jobtype := if jobtype_code =? EDG_WLL_REGJOB_FILE_TRANSFER_COLLECTION
                          then EDG_WLL_STAT_FILE_TRANSFER else EDG_WLL_STAT_SIMPLE !>
            <! stateEnterTimes := times !> <! lastUpdateTime := e.(ev_timestamp) !>
            <! stateEnterTime := e.(ev_timestamp) !>).

(** [get_job_parent] *)
Definition get_job_parent (sv : server) (job : option JobId) : Z + JobId :=
  match states sv !! job_key job with
  | None => inl ENOENT
  | Some r =>
    if String.eqb r.(row_parent_job) "*no parent job*" then inl ENOENT else
    match glite_jobid_recreate "" (Some sv.(sv_conf).(cf_srvName)) sv.(sv_conf).(cf_srvPort)
            (Some r.(row_parent_job)) with
    | Some parent => inr parent
    | None => inl EINVAL
    end
  end.

(** [edg_wll_RestoreSubjobState]: the error and the status. *)
Definition edg_wll_RestoreSubjobState (sv : server) (job : option JobId) (intstat : intJobStat) :
    outcome (Z * intJobStat) :=
  match get_job_parent sv job with
  | inl err => Ret (err, intstat)
  | inr parent =>
    let! events := job_events sv (Some parent) in
    match events with
    | inl err => Ret (err, intstat)
    | inr events =>
      match filter (λ e, event_code e.(ev_body) = EDG_WLL_EVENT_REGJOB) events with
      | [] => Ret (ENOENT, intstat)
      | e :: _ =>
        let t := match e.(ev_body) with RegJob b => b.(rj_jobtype) | _ => 0 end in
        let! s := intJobStat_embryonic job e t intstat in Ret (0, s)
      end
    end
  end.

(** The state machine on the events: the status, the latest time, and the error if an event was
    refused. *)
Definition later (ts maxts : timeval) : bool :=
  ((maxts.(tv_sec) =? 0) && (maxts.(tv_usec) =? 0)) || (maxts.(tv_sec) <? ts.(tv_sec)) ||
  ((ts.(tv_sec) =? maxts.(tv_sec)) && (maxts.(tv_usec) <? ts.(tv_usec))).
Fixpoint process_events (js : intJobStat) (maxts : timeval) (l : list Event) :
    outcome (intJobStat * timeval * option (option string)) :=
  match l with
  | [] => Ret (js, maxts, None)
  | e :: l =>
    let! '(res, js, errstring) := processEvent js e false in
    if (res =? RET_FATAL) || (res =? RET_INTERNAL) then Ret (js, maxts, Some errstring)
    else process_events js (if later e.(ev_timestamp) maxts then e.(ev_timestamp) else maxts) l
  end.

(** [edg_wll_intJobStatus] with [update_db] and [add_fqans] set, as [edg_wll_StepIntState] calls
    it: the status if there is no error. *)
Definition edg_wll_intJobStatus (sv : server) (job : option JobId) :
    outcome (option intJobStat * server) :=
  let sv := reset_error sv in
  let fails code := Ret (None, set_error sv code None) in
  match job with
  | None => fails EINVAL
  | Some _ =>
    let key := job_key job in
    match job_owner sv.(sv_db) key with
    | None => fails ENOENT
    | Some o =>
      let js := init_intJobStat <! owner := Some o !> in
      let! found := job_events sv job in
      let! '(err, js) := match found with
                         | inl err => if err =? ENOENT then edg_wll_RestoreSubjobState sv job js
                                      else Ret (err, js)
                         | inr _ => Ret (0, js)
                         end in
      if negb ((err =? 0) || (err =? ENOENT)) then fails err else
      let events := match found with inl _ => [] | inr l => l end in
      let! '(js, maxts, refused) := process_events js (mkTime 0 0) events in
      match refused with
      | Some errstring => Ret (None, set_error sv EDG_WLL_ERROR_SERVER_RESPONSE errstring)
      | None =>
        let js := if js.(pub).(state) =? EDG_WLL_JOB_UNDEF
                  then js <! state := EDG_WLL_JOB_UNKNOWN !>
                          <! lastUpdateTime := match events with
                                               | [] => mkTime 1 js.(pub).(lastUpdateTime).(tv_usec)
                                               | _ => maxts
                                               end !>
                  else js in
        let js := js <! jobId := glite_jobid_dup job !> in
        let grey := match sv_jobs sv !! key with Some r => negb (r.(jr_grey) =? 0) | None => true end in
        if grey then Ret (Some js, sv) else
        let tsq := Z.of_nat (List.length events) - 1 in
        let js := if (tsq =? 0) && bool_decide (princ_fqans sv.(sv_conf).(cf_peer) ≠ [])
                  then js <! user_fqans := Some (princ_fqans sv.(sv_conf).(cf_peer)) !> else js in
        let! '(err, sv) := edg_wll_StoreIntState index_columns sv js tsq in
        Ret (if err =? 0 then Some js else None, sv)
      end
    end
  end.

(** [edg_wll_StepIntState] as a whole: the statuses before and after; a status that is zeroed is
    [None]. *)
Definition step_status (now : timeval) (sv : server) (job : option JobId) (e : Event) (seq : Z) :
    outcome (Z * server * option JobStat * option JobStat) :=
  let! r := edg_wll_StepIntState index_columns now sv job e seq in
  match r with
  | Stepped sv old new => Ret (error_of sv, sv, Some old.(pub), Some new.(pub))
  | Refused_event sv => Ret (error_of sv, sv, None, None)
  | Recomputed sv =>
    let! '(js, sv) := edg_wll_intJobStatus sv job in
    Ret (error_of sv, sv, None, pub <$> js)
  end.

(** ** Subjobs *)

(** [edg_wll_GenerateSubjobIds]: the identifiers of the subjobs, or the error. *)
Definition subjob_id (str2md5base64 : string → string) (parent : JobId) (seed : string) (n : Z) :
    option JobId :=
  glite_jobid_recreate "" (Some parent.(BShost)) (port_of parent)
    (Some (str2md5base64 (asprintf "%s,%s,%d" [PStr (Some parent.(jid_id)); PStr (Some seed); PInt n]))).
Context (str2md5base64 : string → string).
Definition edg_wll_GenerateSubjobIds (parent : option JobId) (num_subjobs : Z) (seed : option string) :
    Z + list JobId :=
  if num_subjobs <? 1 then inl EINVAL else
  match parent with
  | None => inl 12
  | Some p =>
    let seed := default "edg_wll_GenerateSubjobIds()"%string seed in
    match mapM (subjob_id str2md5base64 p seed) (seqZ 0 num_subjobs) with
    | Some l => inr l
    | None => inl EINVAL
    end
  end.

(** The next identifier is written over the one before in the text of the status; they have the
    same length. *)
Definition write_over (text old new : string) : outcome string :=
  match strstr text old with
  | None => UB AssertFailed
  | Some p =>
    let n := (String.length text - String.length p)%nat in
    Ret (str_take n text +:+ new +:+ str_drop (n + String.length old) text)
  end.

Definition edg_wll_jobMembership (db : database) (key : string) : option Z :=
  r ← db.(db_jobs) !! key;
  Some ((if r.(jr_proxy) =? 0 then 0 else 1) + (if r.(jr_server) =? 0 then 0 else 2)).

(** The loop of [register_subjobs_embryonic]: a row that is there already is only reported. *)
Fixpoint subjobs_loop (sv : server) (userid : string) (proxy srv : Z) (parent_key : string)
    (index : list string) (text : string) (old : option string) (subjobs : list JobId) :
    outcome server :=
  match subjobs with
  | [] => Ret sv
  | j :: subjobs =>
    let '(err, db) := store_job sv.(sv_conf) sv.(sv_db) (Some j) userid proxy srv 0 false in
    let sv := sv <| sv_db := db |> in
    let! text := match old with
                 | None => Ret text
                 | Some old => write_over text old j.(jid_id)
                 end in
    let '(err, sv) :=
      if negb (err =? 0) then (err, sv)
      else match states sv !! j.(jid_id) with
           | Some _ => (EEXIST, sv)
           | None =>
             (0, sv <| states := <[j.(jid_id) := mkStateRow EDG_WLL_JOB_SUBMITTED 1 text
                                    INTSTAT_VERSION parent_key index]> (states sv) |>)
           end in
    subjobs_loop (if err =? 0 then sv else reset_error sv) userid proxy srv parent_key index text
      (Some j.(jid_id)) subjobs
  end.

Definition register_subjobs_embryonic (sv : server) (e : Event) (b : RegJobEvent) : outcome (Z * server) :=
  let sv := reset_error sv in
  let fails code := Ret (code, set_error sv code None) in
  if b.(rj_nsubjobs) =? 0 then Ret (0, sv) else
  if b.(rj_nsubjobs) <? 0 then fails EINVAL else
  match edg_wll_GenerateSubjobIds e.(ev_jobId) b.(rj_nsubjobs) b.(rj_seed) with
  | inl err => fails err
  | inr [] => UB OutOfBounds
  | inr ((first :: _) as subjobs) =>
    let! js := intJobStat_embryonic (Some first) e b.(rj_jobtype) init_intJobStat in
    let! text := enc_intJobStat "" js in
    let key := job_key e.(ev_jobId) in
    match edg_wll_jobMembership sv.(sv_db) key, sv_jobs sv !! key with
    | Some membership, Some r =>
      let! sv := subjobs_loop sv r.(jr_userid) (Z.land membership 1) (Z.land membership 2) key
                   (index_columns js.(pub)) text None subjobs in
      Ret (0, sv)
    | _, _ => fails ENOENT
    end
  end.

(** ** The transaction *)

(** [get_jobtype_from_connectjob] and its inverse; other codes leave the result without a value. *)
Definition connect_types : list (Z * Z) :=
  [(1, EDG_WLL_STAT_SIMPLE); (2, EDG_WLL_STAT_DAG); (3, 2); (4, 3); (5, EDG_WLL_STAT_COLLECTION);
   (6, EDG_WLL_STAT_PBS); (7, EDG_WLL_STAT_CONDOR); (8, EDG_WLL_STAT_CREAM);
   (9, EDG_WLL_STAT_FILE_TRANSFER_COLLECTION); (10, EDG_WLL_STAT_FILE_TRANSFER);
   (11, EDG_WLL_STAT_VIRTUAL_MACHINE)].
Definition get_jobtype_from_connectjob (jobtype : Z) : outcome Z :=
  match find (λ c, c.1 =? jobtype) connect_types with Some c => Ret c.2 | None => UB Indeterminate end.
Definition get_connectjobtype_from_jobtype (jobtype : Z) : outcome Z :=
  match find (λ c, c.2 =? jobtype) connect_types with Some c => Ret c.1 | None => UB Indeterminate end.

(** The event of the server that tells the other job of a connection. *)
Definition server_event (sv : server) (now : timeval) (code : string) (job : option JobId)
    (body : EventBody) : Event :=
  {| ev_timestamp := now; ev_arrived := null_timeval; ev_host := None; ev_level := 0;
     ev_priority := EDG_WLL_LOGFLAG_INTERNAL; ev_jobId := glite_jobid_dup job; ev_seqcode := code;
     ev_user := Some (default "LBProxy"%string sv.(serverIdentity));
     ev_source := EDG_WLL_SOURCE_LB_SERVER; ev_src_instance := None; ev_body := body |}.

(** What a transaction changes, and its end: the changes are kept unless there is an error. *)
Definition tables_of (sv : server) := (sv.(states), sv.(status_tags), sv.(sv_db)).
Definition rolled_back (sv saved : server) : server :=
  sv <| states := states saved |> <| status_tags := status_tags saved |> <| sv_db := sv_db saved |>.
Definition end_transaction (sv saved : server) : server :=
  if error_of sv =? 0 then sv else rolled_back sv saved.

Definition is_collection_registration (e : Event) : option RegJobEvent :=
  match e.(ev_body) with
  | RegJob b =>
    if ((b.(rj_jobtype) =? EDG_WLL_REGJOB_DAG) || (b.(rj_jobtype) =? EDG_WLL_REGJOB_PARTITIONED) ||
        (b.(rj_jobtype) =? EDG_WLL_REGJOB_COLLECTION) ||
        (b.(rj_jobtype) =? EDG_WLL_REGJOB_FILE_TRANSFER_COLLECTION)) && (0 <? b.(rj_nsubjobs))
    then Some b else None
  | _ => None
  end.

(** What the client is told of later: the statuses before and after. *)
Record stored_result := mkStored {
  sr_server : server;
  sr_old : option JobStat;
  sr_new : option JobStat;
  sr_register_to_JP : Z
}.

(** The status part of the transaction: changing the ACL, or stepping the status. *)
Definition apply_event (now : timeval) (sv : server) (e : Event) (seq : Z) :
    outcome (Z * server * option JobStat * option JobStat) :=
  match e.(ev_body) with
  | ChangeACL b =>
    match b.(ca_user_id) with
    | None => UB NullDeref
    | Some u =>
      let! '(ret, sv) := update_acl sv e.(ev_jobId) u b.(ca_user_id_type) b.(ca_permission)
                           b.(ca_permission_type) b.(ca_operation) in
      Ret (ret, sv, None, None)
    end
  | _ => step_status now sv e.(ev_jobId) e seq
  end.

(** The new owner of the payload may tag the job; the pointers of the two statuses differ unless
    both are NULL. *)
Definition share_payload (sv : server) (e : Event) (old new : option JobStat) : outcome server :=
  let changes := match e.(ev_body) with
                 | TakePayloadOwnership | GrantPayloadOwnership _ => true
                 | _ => false
                 end in
  match old ≫= payload_owner, new ≫= payload_owner with
  | None, None => Ret sv
  | _, None => if changes then UB NullDeref else Ret sv
  | _, Some u =>
    if changes then
      let! '(_, sv) := update_acl sv e.(ev_jobId) u EDG_WLL_CHANGEACL_DN 2 0 0 in Ret sv
    else Ret sv
  end.

(** The job stops: its connections become inactive. *)
Definition halt_connections (sv : server) (e : Event) (old new : option JobStat) : server :=
  let st (s : option JobStat) := default 0 (state <$> s) in
  if negb (st new =? st old) &&
     ((st new =? EDG_WLL_JOB_DONE) || (st new =? EDG_WLL_JOB_ABORTED) || (st new =? EDG_WLL_JOB_CANCELLED))
  then sv <| sv_db := edg_wll_jobsconnection_modifyall sv.(sv_db) (job_key e.(ev_jobId))
                        EDG_WLL_JOBCONNECTION_ACTIVE EDG_WLL_JOBCONNECTION_INACTIVE |>
  else sv.

(** Registering the subjobs of a collection. *)
Definition register_subjobs (sv : server) (e : Event) : outcome (Z * server) :=
  match is_collection_registration e with
  | Some b => register_subjobs_embryonic sv e b
  | None => Ret (0, sv)
  end.

(** The other job of a connection is told by an event of the server, which [store] stores in a
    transaction of its own: its begin commits what the outer one has done until then. *)
Section Connections.
Context (store : server → string → outcome stored_result) (now : timeval).
Definition notify_other (sv saved : server) (e : Event) (other : JobId) (body : outcome EventBody) :
    outcome (server * server) :=
  match e.(ev_source) with
  | EDG_WLL_SOURCE_LB_SERVER => Ret (sv, saved)
  | _ =>
    let! body := body in
    let! '(code, ctx) := edg_wll_GetSequenceCode sv.(sv_ctx) in
    let sv := sv <| sv_ctx := ctx |> in
    match code with
    | None => UB NullDeref
    | Some code =>
      let! r := store sv (edg_wll_UnparseEvent (server_event sv now code (Some other) body)) in
      Ret (sr_server r, sr_server r)
    end
  end.

(** The server, and what its transaction goes back to; a malformed identifier leaves the
    transaction without an end, so that the next one commits it. *)
Definition change_connections (sv saved : server) (e : Event) (new : option JobStat) :
    outcome (server * option server) :=
  match e.(ev_body) with
  | ConnectJob dest jobtype =>
    match dest ≫= glite_jobid_parse with
    | None => Ret (set_error sv EDG_WLL_ERROR_JOBID_FORMAT dest, None)
    | Some other =>
      let! t := get_jobtype_from_connectjob jobtype in
      let sv := sv <| sv_db := edg_wll_jobsconnection_create sv.(sv_db) (job_key e.(ev_jobId))
                                 other.(jid_id) t EDG_WLL_JOBCONNECTION_ACTIVE |> in
      let! '(sv, saved) := notify_other sv saved e other
        (let! t := get_connectjobtype_from_jobtype (default 0 (LbTypes.jobtype <$> new)) in
         Ret (ConnectJob (glite_jobid_unparse e.(ev_jobId)) t)) in
      Ret (sv, Some saved)
    end
  | DisconnectJob dest =>
    match dest ≫= glite_jobid_parse with
    | None => Ret (set_error sv EDG_WLL_ERROR_JOBID_FORMAT dest, None)
    | Some other =>
      let sv := sv <| sv_db := edg_wll_jobsconnection_modify sv.(sv_db) (job_key e.(ev_jobId))
                                 other.(jid_id) EDG_WLL_JOBCONNECTION_CANCELLED |> in
      let! '(sv, saved) := notify_other sv saved e other
        (Ret (DisconnectJob (glite_jobid_unparse e.(ev_jobId)))) in
      Ret (sv, Some saved)
    end
  | _ => Ret (sv, Some saved)
  end.
End Connections.

(** [db_store] of an event with its text, at most [fuel] events deep: connecting two jobs stores an
    event of the server for the other one. *)
Fixpoint db_store (fuel : nat) (now : timeval) (sv : server) (event : string) : outcome stored_result :=
  match fuel with
  | O => UB NoFuel
  | S fuel =>
    let sv := reset_error sv in
    let fails sv code := Ret (mkStored (set_error sv code None) None None 0) in
    match edg_wll_ParseEvent event with
    | None => fails sv 1401
    | Some e =>
      let conf := sv.(sv_conf) in
      if negb conf.(isProxy) &&
         negb (check_store_authz policy_file conf.(cf_policy) conf.(cf_peer) e.(ev_body) =? 0)
      then fails sv EPERM else
      let saved := sv in
      let! '(reg_to_JP, sv) := store_job_server_proxy sv e in
      let ends sv saved old new := Ret (mkStored (end_transaction sv saved) old new reg_to_JP) in
      if negb (error_of sv =? 0) then ends sv saved None None else
      if conf.(isProxy) && is_job_local conf e.(ev_jobId) &&
         negb (Z.land e.(ev_priority) EDG_WLL_LOGFLAG_DIRECT =? 0)
      then ends sv saved None None else
      let! '(ret, seq, sv, e) := edg_wll_StoreEvent now.(tv_sec) sv e (Some event) in
      if negb (ret =? 0) then ends (if ret =? EEXIST then reset_error sv else sv) saved None None else
      let! '(ret, sv, old, new) := apply_event now sv e seq in
      if negb (ret =? 0) then ends sv saved old new else
      let! sv := share_payload sv e old new in
      let! '(ret, sv) := register_subjobs sv e in
      if negb (ret =? 0) then ends sv saved old new else
      let! '(sv, saved) := change_connections (db_store fuel now) now sv saved e new in
      match saved with
      | Some saved => ends (halt_connections sv e old new) saved old new
      | None => Ret (mkStored sv old new reg_to_JP)
      end
    end
  end.
End DbStore.
