(* ===== verification/DbStoreProps.v ===== *)
(** * The data base stays consistent, and events are stored once

    What [db_store] keeps of the tables, whatever events come: the events of every job are numbered
    without gaps, every job has an owner, the references to ACLs are counted right.  An event that
    comes again changes nothing. *)
From Stdlib Require Import ZArith Lia Ascii.
From stdpp Require Import base option list strings numbers gmap.
From S2P Require Import Prelude Acl Authz StoreEvent StoreEventProps CLib JobId LbTypes Events SeqCode Context.
From S2P Require Import StateMachine ProcessCream ProcessFT Gss ProcessGlite GliteCases GliteProps.
From S2P Require Import ProcessEvent IntJobStat ParentStatus DbStore.
#[local] Open Scope Z_scope.

(** ** The invariant *)
Record consistent `{StoreLib} (db : database) : Prop := {
  co_numbered : numbered db;
  co_events : ∀ j r, db_jobs db !! j = Some r → 0 ≤ jr_nevents r;
  co_owners : ∀ j r, db_jobs db !! j = Some r → is_Some (db_users db !! jr_userid r);
  co_users : ∀ u s, db_users db !! u = Some s → u = strmd5 s;
  co_acls : counts_ok decode_acl strmd5 (acl_tables db)
}.

(** What later steps keep of the tables: the jobs with their owners and flags, the users and the
    events. *)
Definition same_job (r r' : job_row) : Prop :=
  jr_userid r' = jr_userid r ∧ jr_proxy r' = jr_proxy r ∧ jr_server r' = jr_server r ∧
  jr_grey r' = jr_grey r.
Record later_db (d d' : database) : Prop := {
  lt_jobs : ∀ j r, db_jobs d !! j = Some r → ∃ r', db_jobs d' !! j = Some r' ∧ same_job r r';
  lt_users : db_users d ⊆ db_users d';
  lt_events : db_events d ⊆ db_events d'
}.
Definition authenticated (conf : config) : Prop :=
  conf.(isProxy) = true ∨ princ_name conf.(cf_peer) ≠ None.
Definition extends `{StoreLib} (sv sv' : server) : Prop :=
  sv_conf sv' = sv_conf sv ∧
  (authenticated (sv_conf sv) → consistent (sv_db sv) →
   consistent (sv_db sv') ∧ later_db (sv_db sv) (sv_db sv')).

#[export] Instance later_db_preorder : PreOrder later_db.
Proof.
  split.
  - intros d. constructor; [|done..]. intros j r J. exists r. by repeat split.
  - intros a b c [A1 A2 A3] [B1 B2 B3]. constructor; [|by etrans..].
    intros j r J. destruct (A1 j r J) as (r' & J' & ? & ? & ? & ?).
    destruct (B1 j r' J') as (r'' & J'' & ? & ? & ? & ?). exists r''. split; [done|].
    repeat split; congruence.
Qed.
#[export] Instance extends_preorder `{StoreLib} : PreOrder extends.
Proof.
  split.
  - intros sv. by split.
  - intros a b c (A1 & A2) (B1 & B2). split; [congruence|]. intros Au Co. destruct (A2 Au Co) as [C1 C2].
    destruct (B2 ltac:(by rewrite A1) C1) as [D1 D2]. split; [done|by etrans].
Qed.

(** Steps that do not touch the tables of jobs and events. *)
Lemma extends_same `{StoreLib} sv sv' : sv_db sv' = sv_db sv → sv_conf sv' = sv_conf sv → extends sv sv'.
Proof. intros D C. unfold extends. by rewrite D. Qed.

(** Take a computation that has succeeded apart. *)
Ltac ret_step H :=
  match type of H with
  | obind _ _ = Ret _ => apply obind_Ret_inv in H as (? & ? & H)
  | Ret _ = Ret _ => first [injection H as <- <- <- <- | injection H as <- <- <-
                           | injection H as <- <- | injection H as <- | clear H]
  | UB _ = Ret _ => discriminate H
  | match ?x with _ => _ end = Ret _ => destruct x eqn:?
  end.

Ltac steps := repeat match goal with E : _ = Ret _ |- _ => ret_step E end.

(** What the calls of a function with the lemma [lem] have kept; a sequence of steps. *)
Ltac kept lem := repeat match goal with E : _ = Ret _ |- _ => apply lem in E end.
Ltac chain :=
  solve [ by apply extends_same
        | match goal with
          | E : extends ?a ?b |- extends _ _ =>
            transitivity a; [by apply extends_same|]; transitivity b; [exact E|]; clear E; chain
          end ].

(** ** ACLs *)
Section Acls.
Context `{StoreLib}.

Lemma acl_tables_set db t : dom (jobs t) = dom (db_jobs db) → acl_tables (set_acl_tables db t) = t.
Proof.
  intros D. apply tables_ext; [|done]. apply map_eq. intros j. unfold acl_tables, set_acl_tables. cbn.
  rewrite lookup_fmap, map_lookup_imap. destruct (db_jobs db !! j) as [r|] eqn:J; cbn.
  - destruct (jobs t !! j) as [a|] eqn:T; [done|].
    apply not_elem_of_dom in T. rewrite D in T. destruct T. apply elem_of_dom. eauto.
  - symmetry. apply not_elem_of_dom. rewrite D. by apply not_elem_of_dom.
Qed.

Lemma set_acl_later db t : later_db db (set_acl_tables db t).
Proof.
  constructor; [|done..]. intros j r J. unfold set_acl_tables. cbn. rewrite map_lookup_imap, J. cbn.
  eexists. split; [done|]. by repeat split.
Qed.

Lemma set_acl_job db t j r : db_jobs (set_acl_tables db t) !! j = Some r →
  ∃ r', db_jobs db !! j = Some r' ∧ same_job r' r ∧ jr_nevents r = jr_nevents r'.
Proof.
  unfold set_acl_tables. cbn. rewrite map_lookup_imap. destruct (db_jobs db !! j) as [r'|]; [|done].
  intros [= <-]. exists r'. by repeat split.
Qed.

Lemma set_acl_in_log db t j n : in_log (set_acl_tables db t) j n ↔ in_log db j n.
Proof.
  unfold in_log, set_acl_tables. cbn. rewrite map_lookup_imap.
  destruct (db_jobs db !! j) as [r|]; cbn; [|done].
  split; intros (r' & [= <-] & I); eexists; (split; [done|]); done.
Qed.

(** Changing an ACL keeps the tables consistent. *)
Lemma update_acl_tables (L : acl_library encode_acl decode_acl strmd5) t job auri perm ty op ret t' :
  counts_ok decode_acl strmd5 t →
  edg_wll_UpdateACL GRST_PERM_NONE GRST_PERM_READ GRST_PERM_WRITE gacl_add encode_acl decode_acl strmd5
    1 t job auri perm ty op = Ret (ret, t') →
  counts_ok decode_acl strmd5 t' ∧ dom (jobs t') = dom (jobs t).
Proof.
  intros C. cbn [edg_wll_UpdateACL]. rewrite (turn_spec _ _ _ _ _ _ _ L) by done.
  destruct (edg_wll_change_acl _ _ _ _ _ _ _ _ _) as [e|l]; [by intros [= <- <-]|]. cbv zeta.
  destruct (jobs t !! job) as [cur|] eqn:J.
  - destruct (turn_swapped _ _ _ L t job cur (encode_acl l) C J (saved_parsed _ _ _ L l)) as (-> & C2 & J2).
    cbn [obind]. intros [= <- <-]. split; [exact C2|]. rewrite J2. apply dom_insert_lookup_L. by rewrite J.
  - unfold swap_acl. rewrite add_jobs, J. cbn [obind]. done.
Qed.

Lemma set_acl_consistent (L : acl_library encode_acl decode_acl strmd5) db t : consistent db →
  dom (jobs t) = dom (db_jobs db) → counts_ok decode_acl strmd5 t → consistent (set_acl_tables db t).
Proof.
  intros [N E O U A] D C. constructor.
  - intros j n. rewrite set_acl_in_log. apply N.
  - intros j r J. apply set_acl_job in J as (r' & J & _ & ->). by eapply E.
  - intros j r J. apply set_acl_job in J as (r' & J & (-> & _) & _). by eapply O.
  - exact U.
  - by rewrite acl_tables_set.
Qed.

Lemma update_acl_extends (L : acl_library encode_acl decode_acl strmd5) sv job u ty perm pty op ret sv' :
  update_acl sv job u ty perm pty op = Ret (ret, sv') → extends sv sv'.
Proof.
  unfold update_acl. intros U. ret_step U. ret_step U.
  { ret_step U. by apply extends_same. }
  ret_step U.
  { repeat ret_step U. by destruct b; apply extends_same. }
  ret_step U. ret_step U. ret_step U.
  match goal with H : edg_wll_UpdateACL _ _ _ _ _ _ _ _ _ _ _ _ _ _ = _ |- _ => rename H into T end.
  match goal with |- extends sv ?s => assert (sv_db s = set_acl_tables (sv_db sv) t ∧ sv_conf s = sv_conf sv)
    as [D C] end.
  { by destruct (_ || _). }
  split; [done|]. rewrite D. intros _ Co. split; [|apply set_acl_later].
  destruct (update_acl_tables L _ _ _ _ _ _ _ _ (co_acls _ Co) T) as [C' D'].
  apply set_acl_consistent; [done..| |done]. rewrite D'. cbn. by rewrite dom_fmap_L.
Qed.
End Acls.

(** ** Storing the event *)
Section Event.
Context `{StoreLib}.

Lemma log_event_later db j n row text : db_events db !! (j, n) = None →
  later_db db (log_event db j n row text).
Proof.
  intros F. constructor; [|done|by apply insert_subseteq]. intros k r J.
  unfold log_event. cbn. destruct (decide (k = j)) as [->|D].
  - rewrite lookup_alter_eq, J. eexists. split; [done|]. by repeat split.
  - rewrite lookup_alter_ne by done. exists r. split; [done|]. by repeat split.
Qed.

Lemma log_event_acls db j n row text : acl_tables (log_event db j n row text) = acl_tables db.
Proof.
  apply tables_ext; [|done]. apply map_eq. intros k. unfold acl_tables, log_event. cbn.
  rewrite !lookup_fmap. destruct (decide (k = j)) as [->|D].
  - rewrite lookup_alter_eq. by destruct (db_jobs db !! j).
  - by rewrite lookup_alter_ne.
Qed.

Lemma log_event_consistent db j r row text : consistent db → db_jobs db !! j = Some r →
  consistent (log_event db j (jr_nevents r) row text).
Proof.
  intros [N E O U A] J.
  assert (R : ∀ k s, db_jobs (log_event db j (jr_nevents r) row text) !! k = Some s →
    ∃ s', db_jobs db !! k = Some s' ∧ jr_userid s = jr_userid s' ∧ (0 ≤ jr_nevents s' → 0 ≤ jr_nevents s)).
  { intros k s. unfold log_event. cbn. destruct (decide (k = j)) as [->|D].
    - rewrite lookup_alter_eq, J. intros [= <-]. exists r. repeat split; cbn; lia.
    - rewrite lookup_alter_ne by done. eauto. }
  constructor.
  - apply log_event_numbered; eauto.
  - intros k s K. destruct (R k s K) as (s' & K' & _ & I). eauto.
  - intros k s K. destruct (R k s K) as (s' & K' & -> & _). eauto.
  - exact U.
  - by rewrite log_event_acls.
Qed.

Lemma owner_row db j o : job_owner db j = Some o → ∃ r, db_jobs db !! j = Some r.
Proof. unfold job_owner. destruct (db_jobs db !! j); [eauto|done]. Qed.

(** An event that is accepted is one of a job. *)
Lemma accepted_row sv e a : authenticated (sv_conf sv) → check_auth sv e = Ret a →
  negb (a =? 0) && negb ((a =? EPERM) && cf_noAuth (sv_conf sv)) = false →
  ∃ r, db_jobs (sv_db sv) !! job_key (ev_jobId e) = Some r.
Proof.
  unfold check_auth. intros [P|P] A F.
  - rewrite P in A. cbn in A. destruct (job_owner _ _) eqn:O; [by apply owner_row in O|].
    injection A as <-. done.
  - rewrite (bool_decide_eq_false_2 _ P), andb_false_r in A.
    destruct (job_owner _ _) eqn:O; [by apply owner_row in O|]. injection A as <-. done.
Qed.

Lemma check_auth_codes sv e a : check_auth sv e = Ret a → a = 0 ∨ a = ENOENT ∨ a = EPERM.
Proof.
  unfold check_auth. intros A.
  repeat ret_step A; repeat case_match; tauto.
Qed.

(** The event is in the log of its job already. *)
Definition in_store (db : database) (e : Event) : Prop :=
  ∃ r, db_jobs db !! job_key (ev_jobId e) = Some r ∧
    stored_already db (job_key (ev_jobId e)) (jr_userid r) e = true.

(** What is left of storing an event: an error and the tables as they were, or one more event. *)
Lemma edg_wll_StoreEvent_inv now sv e ulm ret n sv' e' :
  edg_wll_StoreEvent now sv e ulm = Ret (ret, n, sv', e') →
  sv_conf sv' = sv_conf sv ∧ lowercase_usertag e = Ret e' ∧
  (authenticated (sv_conf sv) → consistent (sv_db sv) →
   (ret ≠ 0 ∧ error_of sv' = ret ∧ sv_db sv' = sv_db sv ∧ (ret = EEXIST → in_store (sv_db sv) e')) ∨
   ∃ r arrived text, db_jobs (sv_db sv) !! job_key (ev_jobId e') = Some r ∧ ret = 0 ∧
     sv_db sv' = log_event (sv_db sv) (job_key (ev_jobId e')) (jr_nevents r)
                   (row_of (jr_userid r) arrived e') text).
Proof.
  unfold edg_wll_StoreEvent. intros S. ret_step S. cbv zeta in S. ret_step S.
  match goal with H : check_auth _ _ = _ |- _ => rename H into A end. ret_step S.
  { apply check_auth_codes in A. ret_step S. split; [done|]. split; [done|]. intros _ _. left.
    split; [by intros ->|]. split; [done|]. split; [done|]. intros ->. by destruct A as [A|[A|A]]. }
  assert (T : authenticated (sv_conf sv) → ∃ r, db_jobs (sv_db sv) !! job_key (ev_jobId x) = Some r)
    by (intros Au; eapply (accepted_row sv); eassumption).
  destruct (stored_already _ _ _ _) eqn:St.
  { ret_step S. split; [done|]. split; [done|]. intros Au Co. left. repeat split; try done.
    intros _. destruct (T Au) as [r J]. exists r. split; [done|].
    change (db_jobs (sv_db (reset_error sv))) with (db_jobs (sv_db sv)) in St. by rewrite J in St. }
  ret_step S.
  { match goal with F : bool_decide _ = true |- _ => apply bool_decide_eq_true in F; rename F into F0 end.
    ret_step S. split; [done|]. split; [done|]. intros Au Co. exfalso. destruct (T Au) as [r J].
    change (db_jobs (sv_db (reset_error sv))) with (db_jobs (sv_db sv)) in F0. rewrite J in F0.
    destruct (numbered_free _ _ _ (co_numbered _ Co) J) as [F1 _]. destruct F0 as [w F0].
    change (db_events (sv_db sv) !! (job_key (ev_jobId x), jr_nevents r) = Some w) in F0. congruence. }
  ret_step S. match goal with H : add_int _ _ = _ |- _ => rename H into I end.
  ret_step S; ret_step S; (split; [done|]; split; [done|]); intros Au Co;
    destruct (T Au) as [r J]; destruct (numbered_free _ _ _ (co_numbered _ Co) J) as [_ F2].
  - exfalso. match goal with F : bool_decide _ = true |- _ => apply bool_decide_eq_true in F; rename F into F0 end.
    change (db_jobs (sv_db (reset_error sv))) with (db_jobs (sv_db sv)) in F0. rewrite J in F0.
    destruct F0 as [t F0].
    change (db_flesh (sv_db sv) !! (job_key (ev_jobId x), jr_nevents r) = Some t) in F0. congruence.
  - right. exists r. do 2 eexists. split; [done|]. split; [done|].
    unfold add_int in I. case_decide; [|done]. injection I as <-. rewrite J. reflexivity.
Qed.

Lemma edg_wll_StoreEvent_extends now sv e ulm ret n sv' e' :
  edg_wll_StoreEvent now sv e ulm = Ret (ret, n, sv', e') → extends sv sv'.
Proof.
  intros S. destruct (edg_wll_StoreEvent_inv _ _ _ _ _ _ _ _ S) as (C & _ & T). split; [done|].
  intros Au Co. destruct (T Au Co) as [(_ & _ & -> & _)|(r & a & t & J & _ & ->)]; [done|].
  split; [by apply log_event_consistent|]. apply log_event_later.
  by eapply numbered_free; [apply Co|].
Qed.
End Event.

(** ** Stepping the status *)
Section Stepping.
Context `{Stack}.
Context (index_columns : JobStat → list string).
Context `{StoreLib}.

Lemma insert_tags_extends j seq l : ∀ sv, extends sv (insert_tags sv j seq l).
Proof.
  induction l as [|t l IH]; intros sv; cbn [insert_tags]; [reflexivity|].
  etrans; [|apply IH]. destruct (status_tags sv !! _); by apply extends_same.
Qed.

Lemma edg_wll_StoreIntState_extends sv js seq err sv' :
  edg_wll_StoreIntState index_columns sv js seq = Ret (err, sv') → extends sv sv'.
Proof.
  unfold edg_wll_StoreIntState. intros S. ret_step S. cbv zeta in S.
  set (sv1 := match user_tags _ with Some _ => _ | None => _ end) in S.
  assert (E : extends sv sv1)
    by (subst sv1; destruct (user_tags _); [apply insert_tags_extends|reflexivity]).
  clearbody sv1. ret_step S. etrans; [exact E|by apply extends_same].
Qed.

Lemma edg_wll_LoadIntState_extends sv j seq err st sv' :
  edg_wll_LoadIntState sv j seq = Ret (err, st, sv') → extends sv sv'.
Proof.
  unfold edg_wll_LoadIntState. intros S. cbv zeta in S. ret_step S.
  - repeat ret_step S. destruct p; by apply extends_same.
  - ret_step S. by apply extends_same.
Qed.

Lemma edg_wll_StoreSubjobHistogram_extends sv j js err sv' :
  edg_wll_StoreSubjobHistogram sv j js = Ret (err, sv') → extends sv sv'.
Proof. unfold edg_wll_StoreSubjobHistogram. intros S. repeat ret_step S. by apply extends_same. Qed.

Lemma edg_wll_StepIntStateParent_extends sv e seq pis err sv' pis' :
  edg_wll_StepIntStateParent index_columns sv e seq pis = Ret (err, sv', pis') → extends sv sv'.
Proof.
  unfold edg_wll_StepIntStateParent. intros S. repeat ret_step S; kept edg_wll_StoreIntState_extends; chain.
Qed.

Lemma db_parent_store_extends now sv e pis err sv' pis' :
  db_parent_store index_columns now sv e pis = Ret (err, sv', pis') → extends sv sv'.
Proof.
  unfold db_parent_store. intros S. cbv zeta in S. repeat ret_step S;
    kept edg_wll_StoreEvent_extends; kept edg_wll_StepIntStateParent_extends; chain.
Qed.

Lemma log_collectionState_event_extends now st done cis pis ce sv err sv' pis' :
  log_collectionState_event index_columns now st done cis pis ce sv = Ret (err, sv', pis') →
  extends sv sv'.
Proof.
  unfold log_collectionState_event. intros S. repeat ret_step S; kept db_parent_store_extends; chain.
Qed.

Lemma move_parent_extends now st cis pis ce sv sv' pis' :
  move_parent index_columns now st cis pis ce sv = Ret (sv', pis') → extends sv sv'.
Proof.
  unfold move_parent. intros S. repeat ret_step S; kept log_collectionState_event_extends; chain.
Qed.

Lemma update_parent_status_extends now sv old cis ce err sv' pis :
  update_parent_status index_columns now sv old cis ce = Ret (err, sv', pis) → extends sv sv'.
Proof.
  unfold update_parent_status. intros S. cbv zeta in S. ret_step S; [ret_step S; chain|]. steps;
    kept edg_wll_LoadIntState_extends; kept edg_wll_StoreSubjobHistogram_extends;
    kept move_parent_extends; chain.
Qed.

Lemma edg_wll_StepIntState_extends now sv job e seq r :
  edg_wll_StepIntState index_columns now sv job e seq = Ret r →
  match r with
  | Stepped sv' _ _ | Refused_event sv' | Recomputed sv' => extends sv sv'
  end.
Proof.
  unfold edg_wll_StepIntState. intros S. cbv zeta in S. steps;
    kept edg_wll_LoadIntState_extends; kept edg_wll_StoreIntState_extends;
    kept update_parent_status_extends; chain.
Qed.

Context (edg_wll_ParseEvent : string → option Event).
Lemma edg_wll_intJobStatus_extends sv job js sv' :
  edg_wll_intJobStatus index_columns edg_wll_ParseEvent sv job = Ret (js, sv') → extends sv sv'.
Proof.
  unfold edg_wll_intJobStatus. intros S. cbv zeta in S. steps; kept edg_wll_StoreIntState_extends; chain.
Qed.

Lemma step_status_extends now sv job e seq err sv' old new :
  step_status index_columns edg_wll_ParseEvent now sv job e seq = Ret (err, sv', old, new) →
  extends sv sv'.
Proof.
  unfold step_status. intros S. ret_step S.
  match goal with E : edg_wll_StepIntState _ _ _ _ _ _ = _ |- _ => apply edg_wll_StepIntState_extends in E end.
  ret_step S; steps; kept edg_wll_intJobStatus_extends; chain.
Qed.
End Stepping.

(** ** Users and jobs *)
Section Jobs.
Context `{StoreLib}.

Lemma store_user_consistent db s : consistent db → consistent (store_user db (strmd5 s) s).
Proof.
  intros Co. unfold store_user. case_bool_decide as D; [done|]. destruct Co as [N E O U A].
  assert (F : db_users db !! strmd5 s = None) by (apply eq_None_not_Some; tauto).
  constructor; try done.
  - intros j r J. destruct (O j r J) as [x X]. exists x. cbn.
    rewrite lookup_insert_ne; [done|]. congruence.
  - intros u x. cbn. destruct (decide (u = strmd5 s)) as [->|K].
    + rewrite lookup_insert_eq. by intros [= <-].
    + rewrite lookup_insert_ne by done. apply U.
Qed.

(** The user is known afterwards. *)
Lemma store_user_known db s : consistent db → is_Some (db_users (store_user db (strmd5 s) s) !! strmd5 s).
Proof.
  intros Co. unfold store_user. case_bool_decide as D; [|cbn; rewrite lookup_insert_eq; eauto].
  destruct D as [D|(u & x & X & ->)]; [done|]. rewrite <- (co_users _ Co _ _ X). eauto.
Qed.

Lemma store_user_later db u s : later_db db (store_user db u s).
Proof.
  unfold store_user. case_bool_decide as D; [done|]. constructor; [|cbn|done].
  - intros j r J. exists r. by repeat split.
  - apply insert_subseteq, eq_None_not_Some. tauto.
Qed.

(** A row that is changed in its flags and its owner. *)
Lemma alter_job_consistent db j f : consistent db →
  (∀ r, jr_nevents (f r) = jr_nevents r ∧ jr_aclid (f r) = jr_aclid r ∧
        (is_Some (db_users db !! jr_userid r) → is_Some (db_users db !! jr_userid (f r)))) →
  consistent (db <| db_jobs := alter f j (db_jobs db) |>).
Proof.
  intros [N E O U A] F.
  assert (R : ∀ k r, alter f j (db_jobs db) !! k = Some r →
    ∃ r', db_jobs db !! k = Some r' ∧ (r = r' ∨ r = f r')).
  { intros k r. destruct (decide (k = j)) as [->|D].
    - rewrite lookup_alter_eq. destruct (db_jobs db !! j) as [r'|]; [|done]. intros [= <-]. eauto.
    - rewrite lookup_alter_ne by done. eauto. }
  constructor; cbn.
  - intros k n. unfold in_log. cbn. destruct (N k n) as [N1 N2]. rewrite N1, N2. unfold in_log.
    split; (destruct (decide (k = j)) as [->|D]; [rewrite lookup_alter_eq|by rewrite lookup_alter_ne]);
      destruct (db_jobs db !! j) as [r|]; cbn; try (by split; intros (? & [=] & _));
      (split; intros (? & [= <-] & I); eexists; (split; [done|]);
       destruct (F r) as (G & _); rewrite ?G in *; done).
  - intros k r K. destruct (R k r K) as (r' & K' & [-> | ->]); [eauto|]. destruct (F r') as (-> & _). eauto.
  - intros k r K. destruct (R k r K) as (r' & K' & [-> | ->]); [eauto|]. apply F; eauto.
  - exact U.
  - replace (acl_tables _) with (acl_tables db); [done|]. apply tables_ext; [|done]. apply map_eq.
    intros k. unfold acl_tables. cbn. rewrite !lookup_fmap. destruct (decide (k = j)) as [->|D].
    + rewrite lookup_alter_eq. destruct (db_jobs db !! j) as [r|]; [|done]. cbn. by destruct (F r) as (_ & -> & _).
    + by rewrite lookup_alter_ne.
Qed.

(** A new row. *)
Lemma new_job_consistent db j r : consistent db → db_jobs db !! j = None → jr_nevents r = 0 →
  jr_aclid r = None → is_Some (db_users db !! jr_userid r) →
  consistent (db <| db_jobs := <[j := r]> (db_jobs db) |>).
Proof.
  intros [N E O U A] F Z0 Al K. constructor; cbn.
  - intros k n. destruct (N k n) as [N1 N2]. rewrite N1, N2. unfold in_log. cbn.
    destruct (decide (k = j)) as [->|D]; [|by rewrite lookup_insert_ne].
    rewrite lookup_insert_eq, F.
    split; (split; [intros (? & [=] & _)|intros (? & [= <-] & I); lia]).
  - intros k s. destruct (decide (k = j)) as [->|D].
    + rewrite lookup_insert_eq. intros [= <-]. lia.
    + rewrite lookup_insert_ne by done. apply E.
  - intros k s. destruct (decide (k = j)) as [->|D].
    + rewrite lookup_insert_eq. by intros [= <-].
    + rewrite lookup_insert_ne by done. apply O.
  - exact U.
  - destruct A as [R C]. split; [exact R|]. intros i. unfold acl_tables. cbn.
    rewrite fmap_insert, Al, users_fresh; [|by rewrite lookup_fmap, F].
    unfold one_if. rewrite decide_False by done. rewrite Z.add_0_l. exact (C i).
Qed.

Lemma store_job_consistent conf db job userid proxy srv grey update err db' :
  consistent db → is_Some (db_users db !! userid) →
  store_job conf db job userid proxy srv grey update = (err, db') → consistent db'.
Proof.
  intros Co K. unfold store_job. destruct job as [j|]; [|by intros [= <- <-]].
  destruct (if isProxy conf then _ else _) as [p s]. destruct update; [|case_bool_decide as D].
  - intros [= <- <-]. apply alter_job_consistent; [done|]. intros r. repeat split. cbn. by intros _.
  - by intros [= <- <-].
  - intros [= <- <-]. apply new_job_consistent; [done|apply eq_None_not_Some; tauto|done..].
Qed.

Lemma store_job_later conf db job userid proxy srv grey err db' :
  store_job conf db job userid proxy srv grey false = (err, db') → later_db db db'.
Proof.
  unfold store_job. destruct job as [j|]; [|intros [= <- <-]; reflexivity].
  destruct (if isProxy conf then _ else _) as [p s]. case_bool_decide as D; [intros [= <- <-]; reflexivity|].
  intros [= <- <-]. constructor; [|done..]. intros k r J. exists r. cbn [db_jobs setter database_eta].
  rewrite lookup_insert_ne; [by repeat split|]. intros <-. apply D. left. eauto.
Qed.

Lemma connections_extends sv c : extends sv (sv <| sv_db := (sv_db sv) <| db_connections := c |> |>).
Proof.
  split; [done|]. intros _ []. split; [by constructor|]. constructor; [|done..].
  intros j r J. exists r. by repeat split.
Qed.

Lemma subjobs_loop_ext userid proxy srv key index l : ∀ sv text old sv',
  subjobs_loop sv userid proxy srv key index text old l = Ret sv' →
  sv_conf sv' = sv_conf sv ∧
  (authenticated (sv_conf sv) → consistent (sv_db sv) → is_Some (db_users (sv_db sv) !! userid) →
   consistent (sv_db sv') ∧ later_db (sv_db sv) (sv_db sv')).
Proof.
  induction l as [|j l IH]; intros sv text old sv'; cbn [subjobs_loop]; intros S; [by ret_step S|].
  destruct (store_job _ _ _ _ _ _ _ _) as [err db] eqn:J. ret_step S.
  assert (T : let s := (if negb (err =? 0) then (err, sv <| sv_db := db |>)
                else match states (sv <| sv_db := db |>) !! jid_id j with
                     | Some _ => (EEXIST, sv <| sv_db := db |>)
                     | None => (0, sv <| sv_db := db |> <| states := <[jid_id j := mkStateRow
                         EDG_WLL_JOB_SUBMITTED 1 x INTSTAT_VERSION key index]>
                           (states (sv <| sv_db := db |>)) |>)
                     end) in
              let s := if s.1 =? 0 then s.2 else reset_error s.2 in
              sv_db s = db ∧ sv_conf s = sv_conf sv).
  { destruct (negb _); [|destruct (_ !! _)]; cbv zeta; by destruct (_ =? 0). }
  destruct (if negb (err =? 0) then _ else _) as [err' s1]. cbv zeta in T. cbn [fst snd] in T.
  destruct T as [T1 T2]. apply IH in S as [S1 S2]. rewrite T1, T2 in S2. split; [congruence|].
  intros Au Co K. pose proof (store_job_later _ _ _ _ _ _ _ _ _ J) as La.
  destruct (S2 Au) as [S3 S4].
  - by eapply store_job_consistent.
  - destruct La as [_ Us _], K. eexists. by eapply lookup_weaken.
  - split; [done|by etrans].
Qed.

Lemma update_acl_chain (L : acl_library encode_acl decode_acl strmd5) names job : ∀ sv ret sv',
  allow_names sv job names = Ret (ret, sv') → extends sv sv'.
Proof.
  induction names as [|n names IH]; intros sv ret sv'; cbn [allow_names]; intros S; [by ret_step S|].
  steps; kept (update_acl_extends L); kept IH; chain.
Qed.
End Jobs.

(** ** The parts of the transaction *)
Section Transaction.
Context `{Stack}.
Context (index_columns : JobStat → list string).
Context `{StoreLib}.
Context (edg_wll_ParseEvent : string → option Event) (policy_file : bool).
Context (str2md5base64 : string → string).
Context (L : acl_library encode_acl decode_acl strmd5).

Lemma apply_event_extends now sv e seq ret sv' old new :
  apply_event index_columns edg_wll_ParseEvent now sv e seq = Ret (ret, sv', old, new) →
  extends sv sv'.
Proof.
  unfold apply_event. intros S. steps; kept (update_acl_extends L); kept step_status_extends; chain.
Qed.

Lemma share_payload_extends sv e old new sv' : share_payload sv e old new = Ret sv' → extends sv sv'.
Proof.
  unfold share_payload. intros S. cbv zeta in S. steps; kept (update_acl_extends L); chain.
Qed.

Lemma halt_connections_extends sv e old new : extends sv (halt_connections sv e old new).
Proof. unfold halt_connections. cbv zeta. case_match; [apply connections_extends|reflexivity]. Qed.

Lemma register_embryonic_extends sv e b ret sv' :
  register_subjobs_embryonic index_columns str2md5base64 sv e b = Ret (ret, sv') → extends sv sv'.
Proof.
  unfold register_subjobs_embryonic. intros S. cbv zeta in S. steps; try chain.
  match goal with E : subjobs_loop _ _ _ _ _ _ _ _ _ = _ |- _ => apply subjobs_loop_ext in E as [E1 E2] end.
  split; [done|]. intros Au Co. apply E2; [done..|]. by eapply (co_owners _ Co).
Qed.

Lemma register_subjobs_extends sv e ret sv' :
  register_subjobs index_columns str2md5base64 sv e = Ret (ret, sv') → extends sv sv'.
Proof.
  unfold register_subjobs. intros S. ret_step S; [by eapply register_embryonic_extends|]. by ret_step S.
Qed.

(** Registering a new job. *)
Lemma create_job_extends sv e grey async ret sv' :
  create_job sv e grey async = Ret (ret, sv') → extends sv sv'.
Proof.
  unfold create_job. intros S. cbv zeta in S. ret_step S.
  match type of S with context [store_job ?a ?b ?c ?d ?e ?f ?g ?h] =>
    destruct (store_job a b c d e f g h) as [err db] eqn:J end.
  assert (E : extends sv (reset_error sv <| sv_db := db |>)).
  { split; [done|]. intros _ Co. split.
    - eapply store_job_consistent; [by apply store_user_consistent| |exact J].
      by apply store_user_known.
    - etrans; [apply store_user_later|by eapply store_job_later]. }
  ret_step S; [ret_step S; chain|]. ret_step S.
  destruct (ev_body e); steps; kept (update_acl_chain L); chain.
Qed.
(** A job that is there keeps its row but for its flags and, if it was a grey one, its owner. *)
Definition keeps (sv sv' : server) : Prop :=
  sv_conf sv' = sv_conf sv ∧ (consistent (sv_db sv) → consistent (sv_db sv')).
Lemma existing_job_keeps sv e key r sv' : existing_job sv e key r = Ret sv' → keeps sv sv'.
Proof.
  unfold existing_job. intros S. cbv zeta in S. ret_step S.
  - ret_step S.
    match type of S with context [store_job ?a ?b ?c ?d ?e ?f ?g ?h] =>
      destruct (store_job a b c d e f g h) as [err db] eqn:J end. ret_step S.
    split; [by destruct (_ =? 0)|]. intros Co.
    assert (consistent db) by (eapply store_job_consistent;
      [by apply store_user_consistent|by apply store_user_known|exact J]).
    by destruct (_ =? 0).
  - ret_step S; [steps; by split|]. ret_step S; ret_step S; (split; [done|]); [|done].
    intros Co. apply alter_job_consistent; [done|]. intros x. by repeat split.
Qed.

Lemma extends_keeps sv sv' : authenticated (sv_conf sv) → extends sv sv' → keeps sv sv'.
Proof. intros Au [C E]. split; [done|]. intros Co. by apply E. Qed.

(** Unless there is an error, the client is known and the tables are consistent. *)
Lemma store_job_server_proxy_keeps sv e flags sv' :
  store_job_server_proxy sv e = Ret (flags, sv') →
  sv_conf sv' = sv_conf sv ∧
  (error_of sv' = 0 → authenticated (sv_conf sv) ∧ (consistent (sv_db sv) → consistent (sv_db sv'))).
Proof.
  unfold store_job_server_proxy. intros S. cbv zeta in S. ret_step S; [by ret_step S|].
  assert (Au : authenticated (sv_conf sv)).
  { match goal with B : negb (isProxy _) && _ = false |- _ => rename B into P end.
    apply andb_false_iff in P as [P|P].
    - left. by apply negb_false_iff.
    - right. by apply bool_decide_eq_false in P. }
  ret_step S; [by ret_step S|]. ret_step S.
  - steps. match goal with E : existing_job _ _ _ _ = _ |- _ => apply existing_job_keeps in E as [E1 E2] end.
    done.
  - ret_step S; [ret_step S; by ret_step S|]. ret_step S. apply create_job_extends in S.
    apply (extends_keeps _ _ Au) in S as [S1 S2]. done.
Qed.

(** The end of the transaction. *)
Lemma end_transaction_keeps sv sv' : sv_conf sv' = sv_conf sv → consistent (sv_db sv) →
  (error_of sv' = 0 → consistent (sv_db sv')) →
  sv_conf (end_transaction sv' sv) = sv_conf sv ∧ consistent (sv_db (end_transaction sv' sv)).
Proof.
  intros C Co E. unfold end_transaction. destruct (Z.eqb_spec (error_of sv') 0) as [Z0|Z0]; auto.
Qed.

Lemma ends_keeps sv s s' : authenticated (sv_conf sv) → consistent (sv_db sv) → keeps sv s →
  extends s s' → sv_conf (end_transaction s' sv) = sv_conf sv ∧ consistent (sv_db (end_transaction s' sv)).
Proof.
  intros Au Co [K1 K2] E. assert (authenticated (sv_conf s)) as Au' by (by rewrite K1).
  apply (extends_keeps _ _ Au') in E as [E1 E2]. apply end_transaction_keeps; [congruence|done|auto].
Qed.

(** Connecting jobs, the nested transaction being good. *)
Definition good (conf : config) (sv : server) : Prop := sv_conf sv = conf ∧ consistent (sv_db sv).
Lemma notify_other_good conf store now sv saved e other body sv' saved' :
  (∀ sv event r, store sv event = Ret r → good conf sv → good conf (sr_server r)) →
  good conf sv → good conf saved →
  notify_other store now sv saved e other body = Ret (sv', saved') → good conf sv' ∧ good conf saved'.
Proof.
  intros St G1 G2. unfold notify_other. intros S. destruct (ev_source e); steps; try done;
    match goal with E : store _ _ = Ret _ |- _ => apply St in E; [done|exact G1] end.
Qed.
Lemma change_connections_good conf store now sv saved e new sv' saved' :
  (∀ sv event r, store sv event = Ret r → good conf sv → good conf (sr_server r)) →
  good conf sv → good conf saved →
  change_connections store now sv saved e new = Ret (sv', saved') →
  good conf sv' ∧ ∀ sd, saved' = Some sd → good conf sd.
Proof.
  intros St G1 G2. unfold change_connections. intros S.
  assert (G : ∀ c, good conf (sv <| sv_db := (sv_db sv) <| db_connections := c |> |>))
    by (intros c; destruct G1 as [? []]; split; [done|by constructor]).
  destruct (ev_body e); try (ret_step S; split; [done|by intros sd [= <-]]);
    steps; try (split; [exact G1|done]);
    match goal with E : notify_other _ _ _ _ _ _ _ = Ret _ |- _ =>
      eapply (notify_other_good conf) in E; [|exact St|apply G|exact G2] end;
    (split; [tauto|intros sd [= <-]; tauto]).
Qed.

Lemma db_store_keeps fuel now : ∀ sv event r,
  db_store index_columns edg_wll_ParseEvent policy_file str2md5base64 fuel now sv event = Ret r →
  consistent (sv_db sv) → sv_conf (sr_server r) = sv_conf sv ∧ consistent (sv_db (sr_server r)).
Proof.
  induction fuel as [|fuel IH]; intros sv event r S Co; [done|]. cbn [db_store] in S. cbv zeta in S.
  ret_step S; [|by ret_step S]. ret_step S; [by ret_step S|]. ret_step S. ret_step S.
  match goal with E : store_job_server_proxy _ _ = _ |- _ => apply store_job_server_proxy_keeps in E as [C K] end.
  ret_step S.
  { ret_step S. apply (end_transaction_keeps sv); [done|done|]. intros Z0. by apply K. }
  destruct K as [Au K]; [by apply Z.eqb_eq, negb_false_iff|]. pose proof (conj C K : keeps sv s) as Ks.
  ret_step S; [ret_step S; by apply (ends_keeps sv s)|]. ret_step S. do 3 ret_step S.
  kept edg_wll_StoreEvent_extends.
  ret_step S; [ret_step S; apply (ends_keeps sv s); [done..|]; destruct (_ =? EEXIST); chain|].
  ret_step S. do 3 ret_step S. kept apply_event_extends.
  ret_step S; [ret_step S; apply (ends_keeps sv s); [done..|chain]|].
  ret_step S. kept share_payload_extends. ret_step S. ret_step S.
  kept register_subjobs_extends.
  ret_step S; [ret_step S; apply (ends_keeps sv s); [done..|chain]|].
  assert (E : extends s s2) by chain. apply extends_keeps in E as [E1 E2]; [|by rewrite C].
  ret_step S. ret_step S.
  match goal with E : change_connections _ _ _ _ _ _ = Ret _ |- _ =>
    apply (change_connections_good (sv_conf sv)) in E as [[G1 G2] G3] end;
    [ |intros ? ? ? St [<- G]; by apply (IH _ _ _ St)|split; [by rewrite E1|auto]|done].
  ret_step S; ret_step S; [|done]. destruct (G3 _ eq_refl) as [G4 G5].
  destruct (halt_connections_extends s3 e0 o0 o) as [F1 F2].
  cbn [sr_server]. unfold end_transaction. destruct (error_of (halt_connections _ _ _ _) =? 0).
  - split; [exact (eq_trans F1 G1)|]. by apply F2; [rewrite G1|].
  - split; [exact (eq_trans F1 G1)|exact G5].
Qed.
End Transaction.

(** ** The depth of the recursion *)
Section Depth.
Context `{Stack}.
Context (index_columns : JobStat → list string).
Context `{StoreLib}.
Context (edg_wll_ParseEvent : string → option Event) (policy_file : bool).
Context (str2md5base64 : string → string).
(** The parser reads the source of an event of the server back. *)
Context (read_back : ∀ sv now code job body e,
  edg_wll_ParseEvent (edg_wll_UnparseEvent (server_event sv now code job body)) = Some e →
  ev_source e = EDG_WLL_SOURCE_LB_SERVER).
#[local] Abbreviation store := (db_store index_columns edg_wll_ParseEvent policy_file str2md5base64).

Lemma obind_ext {A B} (m : outcome A) (f g : A → outcome B) : (∀ a, m = Ret a → f a = g a) →
  obind m f = obind m g.
Proof. destruct m; cbn; auto. Qed.

Lemma lowercase_source e e' : lowercase_usertag e = Ret e' → ev_source e' = ev_source e.
Proof.
  unfold lowercase_usertag. destruct (ev_body e) as []; try (by intros [= <-]).
  destruct name; [by intros [= <-]|done].
Qed.
Lemma StoreEvent_source now sv e ulm ret n sv' e' :
  edg_wll_StoreEvent now sv e ulm = Ret (ret, n, sv', e') → ev_source e' = ev_source e.
Proof. intros S. apply edg_wll_StoreEvent_inv in S as (_ & S & _). by apply lowercase_source. Qed.

(** An event of the server stores no other one. *)
Lemma change_connections_server st st' now sv saved e new : ev_source e = EDG_WLL_SOURCE_LB_SERVER →
  change_connections st now sv saved e new = change_connections st' now sv saved e new.
Proof. intros S. unfold change_connections, notify_other. by rewrite S. Qed.

Lemma change_connections_ext (st st' : server → string → outcome stored_result) now sv saved e new :
  (∀ sv code job body, let text := edg_wll_UnparseEvent (server_event sv now code job body) in
    st sv text = st' sv text) →
  change_connections st now sv saved e new = change_connections st' now sv saved e new.
Proof.
  intros E.
  assert (N : ∀ sv saved other body, notify_other st now sv saved e other body =
                                     notify_other st' now sv saved e other body).
  { intros. unfold notify_other. destruct (ev_source e); try reflexivity;
      (apply obind_ext; intros ? _; apply obind_ext; intros [[code|] ctx] _; [by rewrite E|reflexivity]). }
  unfold change_connections. destruct (ev_body e); try reflexivity; destruct (_ ≫= _); try reflexivity.
  - apply obind_ext. intros t _. by rewrite N.
  - by rewrite N.
Qed.

(** Two events deep is deep enough. *)
Lemma store_ext n m now sv text :
  (∀ e, edg_wll_ParseEvent text = Some e → ∀ sv saved e' new, ev_source e' = ev_source e →
    change_connections (store n now) now sv saved e' new =
    change_connections (store m now) now sv saved e' new) →
  store (S n) now sv text = store (S m) now sv text.
Proof.
  intros E. cbn [db_store]. destruct (edg_wll_ParseEvent text) as [e|] eqn:P; [|reflexivity].
  case_goal; [reflexivity|]. apply obind_ext. intros [flags s] _.
  case_goal; [reflexivity|]. case_goal; [reflexivity|]. apply obind_ext.
  intros [[[ret k] s0] e0] St. apply StoreEvent_source in St. case_goal; [reflexivity|].
  apply obind_ext. intros [[[ret1 s1] old] new] _. case_goal; [reflexivity|]. apply obind_ext. intros s2 _.
  apply obind_ext. intros [ret2 s3] _. case_goal; [reflexivity|]. by rewrite (E e) by done.
Qed.
Lemma db_store_two_deep n now sv text : store (S (S n)) now sv text = store 2 now sv text.
Proof.
  apply store_ext. intros e _ sv1 saved e' new _. apply change_connections_ext. intros sv2 code job body.
  cbv zeta. apply store_ext. intros e1 P sv3 saved1 e2 new1 S2. apply change_connections_server.
  rewrite S2. by eapply read_back.
Qed.
End Depth.

(** ** What is reachable *)
Section Reachable.
Context `{Stack}.
Context (index_columns : JobStat → list string).
Context `{StoreLib}.
Context (edg_wll_ParseEvent : string → option Event) (policy_file : bool).
Context (str2md5base64 : string → string).

(** A server takes the text of an event; between two of them the client (and with it the
    configuration), the context and the other tables may change in any way. *)
Inductive delivery (sv : server) : server → Prop :=
| delivered fuel now text r :
  db_store index_columns edg_wll_ParseEvent policy_file str2md5base64 fuel now sv text = Ret r →
  delivery sv (sr_server r)
| other_client sv' : sv_db sv' = sv_db sv → delivery sv sv'.
End Reachable.

Definition empty_db : database := mkDatabase ∅ ∅ ∅ ∅ ∅ ∅ ∅.
Lemma empty_consistent `{StoreLib} : consistent empty_db.
Proof.
  constructor; try done.
  - intros j n. unfold in_log. cbn. rewrite !lookup_empty.
    split; split; [by intros []|by intros (? & [=] & _)|by intros []|by intros (? & [=] & _)].
Qed.

(** C7: whatever texts clients deliver, in whatever order, and whatever becomes of them, the data
    base stays consistent: the events of every job are numbered from 0 without gaps, each with its
    text, the owner of every job is a known user, users are stored under their digests, and every
    ACL is counted as often as jobs have it. *)
Theorem db_consistent `{Stack} index_columns `{StoreLib} parse policy_file str2md5base64
    (L : acl_library encode_acl decode_acl strmd5) sv sv' (Co : consistent (sv_db sv))
    (R : rtc (delivery index_columns parse policy_file str2md5base64) sv sv') :
  consistent (sv_db sv').
Proof.
  induction R as [sv|sv sv1 sv2 D _ IH]; [done|]. apply IH. destruct D as [fuel now text r S|sv1 E].
  - by eapply db_store_keeps.
  - by rewrite E.
Qed.

(** ** Witnesses *)
Definition sample_peer : GssPrincipal := {| princ_name := Some "/CN=owner"%string; princ_fqans := [] |}.
Definition sample_conf : config :=
  mkConfig false true "lb" 9000 false false false false false sample_peer None.
Definition sample_state : server :=
  mkServer (mkContext (mkSeqCode EDG_WLL_SEQ_NORMAL (replicate EDG_WLL_SOURCE__LAST 0) "")
              EDG_WLL_SOURCE_LB_SERVER 0 None) None (Some "lb"%string) 0 ∅ ∅ empty_db sample_conf.
(** The registration of a job, whose user another one may read it. *)
Definition sample_reg : Event :=
  mkEvent (mkTime 1000 5) (mkTime 1001 0) (Some "host"%string) 0 0
    (Some (mkJobId "job" "lb" 9000 None)) NEW_CODE (Some "/CN=owner"%string)
    EDG_WLL_SOURCE_USER_INTERFACE None
    (RegJob (mkRegJob (Some "[]"%string) None None EDG_WLL_REGJOB_SIMPLE 0 None
      (Some ("/CN=reader" +:+ String (chr 10) "")%string))).
Definition sample_parse (text : string) : option Event :=
  if String.eqb text "registration" then Some sample_reg else None.
Definition sample_library : StoreLib := {|
  GRST_PERM_NONE := 0; GRST_PERM_READ := 1; GRST_PERM_WRITE := 4;
  gacl_add l e := app l [e]; encode_acl _ := "<gacl/>"%string; decode_acl _ := Some [];
  gacl_cred kind values := Some (kind +:+ ":" +:+ String.concat "," (snd <$> values))%string;
  gacl_test _ _ := 0; strmd5 s := ("#" +:+ s)%string; edg_wll_UnparseEvent e := ev_seqcode e |}.
Lemma sample_acl_library :
  acl_library (@encode_acl sample_library) (@decode_acl sample_library) (@strmd5 sample_library).
Proof. split; [intros; by eexists|done|done]. Qed.

Lemma db_consistent_witness :
  ∃ r, @db_store zero_stack (λ _, []) sample_library sample_parse false (λ s, s) 1 (mkTime 2000 0)
         sample_state "registration" = Ret r ∧ error_of (sr_server r) = 0 ∧
    length (job_log (sv_db (sr_server r)) "job") = 1%nat ∧
    @consistent sample_library (sv_db (sr_server r)).
Proof.
  eexists. split; [vm_compute; reflexivity|]. split; [vm_compute; reflexivity|].
  split; [vm_compute; reflexivity|].
  apply (@db_consistent zero_stack (λ _, []) sample_library sample_parse false (λ s, s)
           sample_acl_library sample_state); [apply empty_consistent|].
  apply rtc_once. eapply (delivered _ _ _ _ _ 1 (mkTime 2000 0) "registration"). vm_compute. reflexivity.
Defined.
