(* ===== verification/Redelivery.v ===== *)
(** * Events that are delivered again

    The interlogger delivers an event until the server confirms it, so that an event may come more
    than once.  What [db_store] has stored it recognises: the job needs no change ([settled]), the
    event is in its log, and storing it once more leaves all tables as they are. *)
From Stdlib Require Import ZArith Lia Ascii.
From stdpp Require Import base option list strings numbers gmap.
From S2P Require Import Prelude Acl Authz StoreEvent StoreEventProps CLib JobId LbTypes Events SeqCode Context.
From S2P Require Import StateMachine ProcessCream ProcessFT Gss ProcessGlite GliteCases GliteProps.
From S2P Require Import ProcessEvent IntJobStat ParentStatus DbStore DbStoreProps.
#[local] Open Scope Z_scope.

(** ** Settled jobs *)

(** The job of an event needs no change when the event comes again. *)
Definition settled_row (conf : config) (r : job_row) (e : Event) : Prop :=
  late_registration conf r e = false ∧
  (if isProxy conf then jr_proxy r else jr_server r) ≠ 0.
Lemma settled_same conf r r' e : same_job r r' → settled_row conf r e → settled_row conf r' e.
Proof.
  unfold settled_row, late_registration. intros (_ & -> & -> & ->). done.
Qed.

Section Again.
Context `{StoreLib}.

Lemma same_event_row userid arrived e : same_event userid e (row_of userid arrived e) = true.
Proof.
  unfold same_event, row_of. cbn. rewrite !Z.eqb_refl, !bool_decide_eq_true_2, !String.eqb_refl; done.
Qed.
Lemma stored_already_intro db j n r userid e : db_events db !! (j, n) = Some r →
  same_event userid e r = true → stored_already db j userid e = true.
Proof.
  intros L S. unfold stored_already. apply bool_decide_eq_true. intros Z.
  assert (F : filter (λ '(j', _, r), j' = j ∧ same_event userid e r = true) (db_events db) !! (j, n) = Some r)
    by (by apply map_lookup_filter_Some). by rewrite Z in F.
Qed.
Lemma stored_already_elim db j userid e : stored_already db j userid e = true →
  ∃ n r, db_events db !! (j, n) = Some r ∧ same_event userid e r = true.
Proof.
  intros S. apply bool_decide_eq_true in S. apply map_choose in S as ([j' n] & r & F).
  apply map_lookup_filter_Some in F as [L [-> E]]. eauto.
Qed.

Lemma in_store_later db db' e : later_db db db' → in_store db e → in_store db' e.
Proof.
  intros [Jo _ Ev] (r & J & S). destruct (Jo _ _ J) as (r' & J' & U & _). exists r'. split; [done|].
  apply stored_already_elim in S as (n & x & X & S). rewrite U.
  eapply stored_already_intro; [by eapply lookup_weaken|done].
Qed.
Lemma in_store_logged db j r arrived text e : j = job_key (ev_jobId e) → db_jobs db !! j = Some r →
  in_store (log_event db j (jr_nevents r) (row_of (jr_userid r) arrived e) text) e.
Proof.
  intros -> J. eexists. unfold log_event. cbn. rewrite lookup_alter_eq, J. split; [reflexivity|]. cbn.
  eapply stored_already_intro; [cbn; apply lookup_insert_eq|apply same_event_row].
Qed.

(** Rows that come out of a change of an ACL. *)
Definition from_rows (db db' : database) : Prop :=
  ∀ j r', db_jobs db' !! j = Some r' → ∃ r, db_jobs db !! j = Some r ∧ same_job r r'.
Lemma update_acl_rows sv job u ty perm pty op ret sv' :
  update_acl sv job u ty perm pty op = Ret (ret, sv') → from_rows (sv_db sv) (sv_db sv').
Proof.
  assert (Rf : ∀ db, from_rows db db) by (intros db j r J; exists r; by repeat split).
  unfold update_acl. intros U. ret_step U. ret_step U; [ret_step U; apply Rf|].
  ret_step U; [repeat ret_step U; by destruct b|]. steps.
  assert (T : from_rows (sv_db sv) (set_acl_tables (sv_db sv) t))
    by (intros j r J; apply set_acl_job in J as (r' & J & S & _); eauto).
  by destruct (_ || _).
Qed.
Lemma allow_names_rows job names : ∀ sv ret sv',
  allow_names sv job names = Ret (ret, sv') → from_rows (sv_db sv) (sv_db sv').
Proof.
  induction names as [|n names IH]; intros sv ret sv'; cbn [allow_names]; intros S.
  - ret_step S. intros j r J. exists r. by repeat split.
  - steps; kept update_acl_rows; [|done]. kept IH.
    match goal with A : from_rows (sv_db sv) ?b, B : from_rows ?b _ |- _ => intros j r J;
      destruct (B j r J) as (r1 & J1 & ? & ? & ? & ?); destruct (A j r1 J1) as (r2 & J2 & ? & ? & ? & ?) end.
    exists r2. split; [done|]. repeat split; congruence.
Qed.
Lemma store_user_jobs db u s : db_jobs (store_user db u s) = db_jobs db.
Proof. unfold store_user. by case_bool_decide. Qed.
Lemma store_job_row conf db job userid proxy srv grey err db' r :
  store_job conf db job userid proxy srv grey false = (err, db') → db_jobs db !! job_key job = None →
  db_jobs db' !! job_key job = Some r →
  jr_grey r = grey ∧ (if isProxy conf then jr_proxy r else jr_server r) = 1.
Proof.
  unfold store_job. destruct job as [j|]; [|intros [= <- <-]; congruence].
  destruct (isProxy conf); (case_bool_decide; [intros [= <- <-]; congruence|]); intros [= <- <-] _;
    change (job_key (Some j)) with (jid_id j); cbn [db_jobs setter database_eta];
    rewrite lookup_insert_eq; by intros [= <-].
Qed.
Lemma update_job_row conf db job userid proxy srv grey db' r :
  store_job conf db job userid proxy srv grey true = (0, db') →
  db_jobs db' !! job_key job = Some r →
  jr_grey r = grey ∧ (if isProxy conf then jr_proxy r else jr_server r) = 1.
Proof.
  unfold store_job. destruct job as [j|]; [|done].
  destruct (isProxy conf); intros [= <-]; change (job_key (Some j)) with (jid_id j);
    cbn [db_jobs setter database_eta]; rewrite lookup_alter_eq;
    (destruct (db_jobs db !! jid_id j); [by intros [= <-]|done]).
Qed.

Lemma create_settled sv e grey async ret sv' :
  db_jobs (sv_db sv) !! job_key (ev_jobId e) = None →
  (match ev_body e with RegJob _ => grey = false ∧ async = false | _ => True end) →
  create_job sv e grey async = Ret (ret, sv') → error_of sv' = 0 →
  ∀ r, db_jobs (sv_db sv') !! job_key (ev_jobId e) = Some r → settled_row (sv_conf sv) r e.
Proof.
  intros F G. unfold create_job. intros S. cbv zeta in S. ret_step S.
  match type of S with context [store_job ?a ?b ?c ?d ?e ?f ?g ?h] =>
    destruct (store_job a b c d e f g h) as [err db] eqn:J end.
  assert (T : error_of sv' = 0 → from_rows db (sv_db sv') ∧ err = 0).
  { ret_step S; [ret_step S; intros; simplify_eq/=; by destruct (Z.eqb_spec err 0)|].
    destruct (Z.eqb_spec err 0) as [->|]; [|done]. intros _. split; [|done].
    ret_step S. destruct (ev_body e); steps;
      first [ match goal with E : allow_names _ _ _ = _ |- _ => exact (allow_names_rows _ _ _ _ _ E) end
            | intros j r R; exists r; by repeat split ]. }
  intros Z0. destruct (T Z0) as [B ->]. intros r' J'. destruct (B _ _ J') as (r & R & Sm).
  eapply settled_same; [exact Sm|]. clear J' B Sm T S.
  eapply store_job_row in J as [J1 J2]; [|by rewrite store_user_jobs|exact R].
  unfold settled_row, late_registration. rewrite J1, J2. split; [|done].
  destruct (ev_body e); rewrite ?andb_false_r; try done. destruct G as [-> ->]. cbn. by rewrite andb_false_r.
Qed.

Lemma existing_settled sv e r0 sv' : db_jobs (sv_db sv) !! job_key (ev_jobId e) = Some r0 →
  existing_job sv e (job_key (ev_jobId e)) r0 = Ret sv' → error_of sv' = 0 →
  ∀ r, db_jobs (sv_db sv') !! job_key (ev_jobId e) = Some r → settled_row (sv_conf sv) r e.
Proof.
  intros J0. unfold existing_job. intros S Z0 r J. cbv zeta in S. ret_step S.
  - ret_step S.
    match type of S with context [store_job ?a ?b ?c ?d ?e ?f ?g ?h] =>
      destruct (store_job a b c d e f g h) as [err db] eqn:U end. ret_step S.
    destruct (Z.eqb_spec err 0) as [->|]; [|done]. eapply update_job_row in U as [U1 U2]; [|exact J].
    unfold settled_row, late_registration. rewrite U1, U2. by rewrite andb_false_r.
  - ret_step S.
    { exfalso. repeat case_match; simplify_eq; ret_step S; discriminate Z0. }
    ret_step S; ret_step S; unfold settled_row.
    + cbn in J. rewrite lookup_alter_eq in J. unfold sv_jobs in J. rewrite J0 in J. injection J as <-.
      split; [done|]. by destruct (isProxy _).
    + rewrite J0 in J. injection J as <-. split; [done|].
      match goal with B : _ || _ = false |- _ => apply orb_false_iff in B as [B1 B2] end.
      destruct (isProxy _); [rewrite andb_true_r in B1|rewrite andb_true_r in B2]; by apply Z.eqb_neq.
Qed.

Lemma may_create_cases sv e key :
  match may_create sv e key with
  | inl (err, _) => err ≠ 0
  | inr (grey, async) => match ev_body e with RegJob _ => grey = false ∧ async = false | _ => True end
  end.
Proof. unfold may_create. cbv zeta. destruct (ev_body e); repeat (case_match; simplify_eq; try done). Qed.

(** Registering or checking a job settles it. *)
Lemma registered_settled sv e flags sv' : store_job_server_proxy sv e = Ret (flags, sv') →
  error_of sv' = 0 → ∀ r, db_jobs (sv_db sv') !! job_key (ev_jobId e) = Some r →
  settled_row (sv_conf sv) r e.
Proof.
  unfold store_job_server_proxy. intros S Z0. cbv zeta in S.
  ret_step S; [ret_step S; discriminate Z0|]. ret_step S; [ret_step S; discriminate Z0|].
  destruct (sv_jobs sv !! _) as [r0|] eqn:J0.
  - steps. by eapply existing_settled.
  - pose proof (may_create_cases sv e (job_key (ev_jobId e))) as G.
    destruct (may_create _ _ _) as [[err desc]|[grey async]] eqn:M.
    + ret_step S. by destruct G.
    + by eapply create_settled.
Qed.
End Again.

(** The event has been stored, and its job needs no change. *)
Definition settled `{StoreLib} (sv : server) (e : Event) : Prop :=
  in_store (sv_db sv) (stored_form e) ∧
  ∀ r, db_jobs (sv_db sv) !! job_key (ev_jobId e) = Some r → settled_row (sv_conf sv) r e.

Lemma stored_form_job e : ev_jobId (stored_form e) = ev_jobId e.
Proof. unfold stored_form. destruct (ev_body e) as []; try done. by destruct name. Qed.
Lemma stored_form_complete e : complete e → complete (stored_form e).
Proof.
  unfold complete, stored_form. intros [U N]. destruct (ev_body e) as [] eqn:B; rewrite ?B; try done.
  destruct name; [split; [exact U|by eexists]|by destruct N].
Qed.

Section Delivery.
Context `{Stack}.
Context (index_columns : JobStat → list string).
Context `{StoreLib}.
Context (edg_wll_ParseEvent : string → option Event) (policy_file : bool).
Context (str2md5base64 : string → string).
Context (L : acl_library encode_acl decode_acl strmd5).

Lemma check_auth_returns sv e : consistent (sv_db sv) → complete e → ∃ a, check_auth sv e = Ret a.
Proof.
  intros Co C. destruct (check_auth sv e) as [a|w] eqn:A; [eauto|].
  destruct (check_auth_complete sv e C w A) as [_ B]. unfold check_acl in B.
  destruct (get_acl _ _ _ L _ (job_key (ev_jobId e)) (co_acls _ Co)) as (G & _ & D). rewrite G in B.
  cbn [obind] in B. destruct C as [[u U] _]. rewrite U in B. by repeat case_match.
Qed.

Lemma end_same s saved : tables_of s = tables_of saved → tables_of (end_transaction s saved) = tables_of saved.
Proof. intros E. unfold end_transaction. by destruct (_ =? 0). Qed.

Lemma registered_again sv e : settled sv e → complete e →
  ∃ flags sv', store_job_server_proxy sv e = Ret (flags, sv') ∧ tables_of sv' = tables_of sv ∧
    sv_conf sv' = sv_conf sv.
Proof.
  intros [(r & J & _) R] [[u U] _]. rewrite stored_form_job in J. destruct (R r J) as [LR Fl].
  unfold store_job_server_proxy. cbv zeta. rewrite U.
  destruct (negb (isProxy _) && _); [by do 2 eexists|].
  destruct (isProxy (sv_conf sv) && String.eqb _ _); [by do 2 eexists|].
  unfold sv_jobs. rewrite J. unfold existing_job. cbv zeta. rewrite LR.
  match goal with |- context [match ?c with Some _ => _ | None => _ end] => destruct c as [[err desc]|] end.
  { by do 2 eexists. }
  assert (((jr_proxy r =? 0) && isProxy (sv_conf sv)) || ((jr_server r =? 0) && negb (isProxy (sv_conf sv)))
    = false) as ->.
  { destruct (isProxy _); rewrite (proj2 (Z.eqb_neq _ _) Fl); cbn; by rewrite ?andb_false_r. }
  by do 2 eexists.
Qed.

Lemma store_again now sv e ulm : settled sv e → complete e → consistent (sv_db sv) →
  ∃ ret n sv', edg_wll_StoreEvent now sv e ulm = Ret (ret, n, sv', stored_form e) ∧ ret ≠ 0 ∧
    tables_of sv' = tables_of sv.
Proof.
  intros [(r & J & S) _] C Co. unfold edg_wll_StoreEvent. rewrite lowercase_stored by done. cbn [obind].
  destruct (check_auth_returns (reset_error sv) (stored_form e)) as [a A]; [done|by apply stored_form_complete|].
  cbv zeta. rewrite A. cbn [obind]. destruct (negb (a =? 0) && _) eqn:R.
  - do 3 eexists. split; [reflexivity|]. split; [by intros ->|done].
  - change (sv_db (reset_error sv)) with (sv_db sv). rewrite J. cbn [fmap option_fmap option_map default].
    change (id (jr_userid r)) with (jr_userid r). rewrite S. by do 3 eexists.
Qed.
(** Storing the event settles it, whatever becomes of the status. *)
Lemma stored_settled now s e ulm ret n s0 e0 : edg_wll_StoreEvent now s e ulm = Ret (ret, n, s0, e0) →
  complete e → authenticated (sv_conf s) → consistent (sv_db s) → ret = 0 ∨ ret = EEXIST →
  (∀ r, db_jobs (sv_db s) !! job_key (ev_jobId e) = Some r → settled_row (sv_conf s) r e) →
  e0 = stored_form e ∧ in_store (sv_db s0) e0 ∧
  ∃ r, db_jobs (sv_db s) !! job_key (ev_jobId e) = Some r.
Proof.
  intros S C Au Co K R. destruct (edg_wll_StoreEvent_inv _ _ _ _ _ _ _ _ S) as (_ & Lw & T).
  rewrite lowercase_stored in Lw by done. injection Lw as <-. split; [done|].
  destruct (T Au Co) as [(Z0 & _ & -> & I)|(r & a & t & J & _ & ->)].
  - destruct K as [|K]; [done|]. destruct (I K) as (r & J & St). rewrite stored_form_job in J.
    split; [|eauto]. by apply I.
  - rewrite stored_form_job in J. split; [apply in_store_logged; [done|by rewrite stored_form_job]|eauto].
Qed.

Lemma change_connections_other store now sv saved e new :
  match ev_body e with ConnectJob _ _ | DisconnectJob _ => False | _ => True end →
  change_connections store now sv saved (stored_form e) new = Ret (sv, Some saved).
Proof.
  unfold change_connections, stored_form. destruct (ev_body e) as [] eqn:B; rewrite ?B; try done.
  intros _. destruct name; [done|by rewrite B].
Qed.

Lemma settled_extends s s' e : authenticated (sv_conf s) → consistent (sv_db s) → extends s s' →
  in_store (sv_db s) (stored_form e) →
  (∃ r, db_jobs (sv_db s) !! job_key (ev_jobId e) = Some r ∧ settled_row (sv_conf s) r e) →
  settled s' e.
Proof.
  intros Au Co [E1 E2] I (r & J & R). destruct (E2 Au Co) as [_ La]. split; [by eapply in_store_later|].
  intros r' J'. destruct La as [Jo _ _]. destruct (Jo _ _ J) as (r2 & J2 & Sm). simplify_eq.
  rewrite E1. by eapply settled_same.
Qed.

Lemma db_store_settles fuel now sv event r e :
  db_store index_columns edg_wll_ParseEvent policy_file str2md5base64 (S fuel) now sv event = Ret r →
  error_of (sr_server r) = 0 → consistent (sv_db sv) → edg_wll_ParseEvent event = Some e → complete e →
  match ev_body e with ConnectJob _ _ | DisconnectJob _ => False | _ => True end →
  isProxy (sv_conf sv) && is_job_local (sv_conf sv) (ev_jobId e) &&
    negb (Z.land (ev_priority e) EDG_WLL_LOGFLAG_DIRECT =? 0) = false →
  settled (sr_server r) e.
Proof.
  intros S Z0 Co P C NC D. cbn [db_store] in S. cbv zeta in S. rewrite P in S.
  ret_step S; [by ret_step S|]. ret_step S. ret_step S.
  match goal with E : store_job_server_proxy _ _ = _ |- _ =>
    pose proof (registered_settled _ _ _ _ E) as R;
    apply (store_job_server_proxy_keeps L) in E as [Cf K] end.
  assert (Er : ∀ s', error_of (end_transaction s' (reset_error sv)) = 0 →
    end_transaction s' (reset_error sv) = s').
  { intros s' Z. unfold end_transaction in *. by destruct (Z.eqb_spec (error_of s') 0). }
  ret_step S.
  { ret_step S. cbn in Z0. exfalso. revert Z0. unfold end_transaction.
    destruct (error_of s =? 0) eqn:Q; [done|]. cbn. by apply Z.eqb_neq. }
  assert (Z1 : error_of s = 0) by (by apply Z.eqb_eq, negb_false_iff). specialize (R Z1).
  destruct (K Z1) as [Au K']. pose proof (K' Co) as Cs. clear K K'.
  assert (Aus : authenticated (sv_conf s)) by (by rewrite Cf).
  change (sv_conf (reset_error sv)) with (sv_conf sv) in S. rewrite D in S. ret_step S.
  match goal with E : edg_wll_StoreEvent _ _ _ _ = Ret ?x |- _ => destruct x as [[[ret n] s0] e0]; rename E into St end.
  pose proof (stored_settled _ _ _ _ _ _ _ _ St C Aus Cs) as T.
  pose proof (edg_wll_StoreEvent_extends _ _ _ _ _ _ _ _ St) as Ex.
  destruct (edg_wll_StoreEvent_inv _ _ _ _ _ _ _ _ St) as (C0 & _ & I).
  assert (Fin : ret = 0 ∨ ret = EEXIST → ∀ s', extends s0 s' → settled s' e).
  { intros K s' Es. destruct (T K) as (-> & In & r' & J); [by rewrite Cf|].
    destruct Ex as [Ex1 Ex2]. destruct (Ex2 Aus Cs) as [Cs0 [Jo _ _]]. destruct (Jo _ _ J) as (r1 & J1 & Sm).
    apply (settled_extends s0); [by rewrite Ex1|done..|]. exists r1. split; [done|]. rewrite Ex1, Cf.
    eapply settled_same; [exact Sm|]. by apply R. }
  ret_step S.
  { ret_step S. cbn in Z0 |- *. rewrite Er by done. destruct (Z.eqb_spec ret EEXIST) as [K|K].
    - apply Fin; [by right|chain].
    - exfalso. rewrite Er in Z0 by done. 
      destruct (I Aus Cs) as [(N & Eq & _)|(? & ? & ? & _ & Eq & _)]; [congruence|].
      by rewrite Eq in *. }
  assert (K : ret = 0) by (by apply Z.eqb_eq, negb_false_iff). specialize (Fin (or_introl K)).
  destruct (T (or_introl K)) as (-> & _); [by rewrite Cf|]. clear T I.
  ret_step S. do 3 ret_step S. kept (apply_event_extends index_columns edg_wll_ParseEvent L).
  ret_step S; [ret_step S; cbn in Z0 |- *; rewrite Er by done; apply Fin; chain|].
  ret_step S. kept (share_payload_extends L). ret_step S. ret_step S.
  kept (register_subjobs_extends index_columns str2md5base64).
  ret_step S; [ret_step S; cbn in Z0 |- *; rewrite Er by done; apply Fin; chain|].
  rewrite change_connections_other in S by done. cbn [obind] in S.
  ret_step S. cbn in Z0 |- *. rewrite Er by done. apply Fin.
  etrans; [|apply halt_connections_extends]. chain.
Qed.
Lemma db_store_again fuel now sv event e : settled sv e → consistent (sv_db sv) →
  edg_wll_ParseEvent event = Some e → complete e →
  ∃ r, db_store index_columns edg_wll_ParseEvent policy_file str2md5base64 (S fuel) now sv event = Ret r ∧
    tables_of (sr_server r) = tables_of sv.
Proof.
  intros Se Co P C. cbn [db_store]. cbv zeta. rewrite P.
  destruct (negb _ && negb (check_store_authz _ _ _ _ =? 0)); [by eexists|].
  destruct (registered_again (reset_error sv) e) as (fl & sv1 & -> & T1 & C1); [done..|]. cbn [obind].
  destruct (negb (error_of sv1 =? 0)); [eexists; split; [reflexivity|by apply (end_same sv1 (reset_error sv))]|].
  destruct (isProxy _ && _ && _); [eexists; split; [reflexivity|by apply (end_same sv1 (reset_error sv))]|].
  assert (D1 : sv_db sv1 = sv_db sv) by (by injection T1).
  destruct (store_again (tv_sec now) sv1 e (Some event)) as (ret & n & sv2 & -> & N & T2); [|done|by rewrite D1|].
  { unfold settled. by rewrite D1, C1. }
  cbn [obind]. rewrite (proj2 (Z.eqb_neq _ _) N). cbn [negb].
  eexists. split; [reflexivity|]. apply (end_same _ (reset_error sv)). rewrite <- T1, <- T2.
  by destruct (ret =? EEXIST).
Qed.
End Delivery.


