(* ===== verification/Maildir.v ===== *)
(** * Mail directories

    org.glite.lbjp-common.maildir/src/maildir.c: messages as files that are linked and
    renamed between the directories tmp, new, work, post and undeliverable, by any number
    of processes at once.  A function of the library is a program of system calls
    ([prog]), a process runs one at a time, and the calls of all processes interleave over
    one file system.  What a mail directory promises is the transition system of the
    section on the mailbox: every message is in the hands of at most one process. *)
From Stdlib Require Import ZArith Lia Ascii.
From stdpp Require Import base option list strings numbers gmap relations.
From S2P Require Import Prelude CLib.
#[local] Open Scope Z_scope.

(** ** The file system *)

(** [LBMD_DIR_*]. *)
Inductive folder := TMP | NEW | WORK | POST | UNDELIVERABLE.
#[export] Instance folder_eq_dec : EqDecision folder.
Proof. solve_decision. Defined.

(** [dirs]. *)
Definition folder_name (d : folder) : string :=
  match d with
  | TMP => "tmp" | NEW => "new" | WORK => "work" | POST => "post"
  | UNDELIVERABLE => "undeliverable"
  end.

Definition folder_code (d : folder) : nat :=
  match d with TMP => 0 | NEW => 1 | WORK => 2 | POST => 3 | UNDELIVERABLE => 4 end.
#[export] Instance folder_countable : Countable folder.
Proof.
  apply (inj_countable' folder_code
    (fun n => match n with 0 => TMP | 1 => NEW | 2 => WORK | 3 => POST | _ => UNDELIVERABLE end%nat)).
  by intros [].
Defined.

(** The directory entries and the contents of the files by their inodes. *)
Record fs := mkFs {
  links : gmap (folder * string) nat;
  inodes : gmap nat string
}.
#[export] Instance fs_eta : Eta fs := fun r => mkFs r.(links) r.(inodes).

(** ** System calls

    A path is a folder with a file name; a descriptor is the inode it was opened on.  The
    offset of a descriptor that is read is the number of bytes read before. *)
Inductive call :=
| Open_excl (d : folder) (n : string)      (* open(O_CREAT|O_EXCL|O_WRONLY) *)
| Write (h : nat) (data : string)
| Fsync (h : nat)
| Close (h : nat)
| Link (from to : folder) (n : string)
| Unlink (d : folder) (n : string)
| Stat (d : folder) (n : string)
| Rename (from to : folder) (n : string)
| Open_rd (d : folder) (n : string)        (* open(O_RDONLY) *)
| Read (h : nat) (off len : Z)
| Opendir (d : folder)
| Readdir
| Closedir
| Time
| Gettimeofday
| Realloc (size : Z)
| Strdup (s : string).

Inductive errno_t := EEXIST | ENOENT | EINTR | EBADF | EOTHER.

Inductive result :=
| ROk
| RErr (e : errno_t)
| RFd (h : nat)
| RCount (n : Z)
| RData (s : string)
| RStat (mtime ctime : Z)
| RDir (names : list string)               (* what readdir is going to return *)
| RTime (t : Z)
| RTimeval (sec usec : Z).

(** A program: it ends, has undefined behaviour, makes a call, or repeats a call until it
    is not interrupted. *)
Inductive prog (R : Type) : Type :=
| Done (r : R)
| Fault (why : fault)
| Call (c : call) (k : result → prog R)
| Again (c : call) (k : result → prog R).
Arguments Done {R} r.
Arguments Fault {R} why.
Arguments Call {R} c k.
Arguments Again {R} c k.

Fixpoint pbind {A B} (m : prog A) (f : A → prog B) : prog B :=
  match m with
  | Done a => f a
  | Fault w => Fault w
  | Call c k => Call c (fun r => pbind (k r) f)
  | Again c k => Again c (fun r => pbind (k r) f)
  end.
Definition lift {A B} (m : outcome A) (f : A → prog B) : prog B :=
  match m with Ret a => f a | UB w => Fault w end.

Notation "'do' x <- c ; k" := (Call c (fun x => k))
  (at level 10, x name, c at level 100, k at level 200) : lb_scope.

(** ** The functions of the library *)

Definition LBMD_TRANS_OK : Z := 0.
Definition LBMD_TRANS_FAILED : Z := 1.
Definition LBMD_TRANS_FAILED_RETRY : Z := 2.
Definition BUFSIZ : Z := 8192.

(** The return value, with the message and its name when it is 1; the static [dir] of the
    two functions that read a directory. *)
Inductive reply :=
| Code (r : Z)
| Got (msg fname : string).

(** The name of a new file. *)
Definition message_name (sec usec : Z) (srvname : string) : string :=
  asprintf "%ld_%ld.%s" [PInt sec; PInt usec; PStr (Some srvname)].

(** The loop that creates the file: [tries] are left of the ten. *)
Fixpoint create_file (tries : nat) (srvname : string) : prog (option (string * nat)) :=
  match tries with
  | O => Done None
  | S tries =>
    do tv <- Gettimeofday;
    match tv with
    | RTimeval sec usec =>
      let fname := message_name sec usec srvname in
      do r <- Open_excl TMP fname;
      match r with
      | RFd fhnd => Done (Some (fname, fhnd))
      | RErr EEXIST => create_file tries srvname
      | _ => Done None
      end
    | _ => Done None
    end
  end.

(** [while (written < msgsz)]: the count that [write] returns is not used, so one write that
    is not interrupted ends the loop. *)
Definition write_message (fhnd : nat) (msg : string) : prog bool :=
  let msgsz := s32 (Z.of_nat (String.length msg)) in
  if 0 <? msgsz then
    Again (Write fhnd (str_take (Z.to_nat msgsz) msg))
      (fun r => match r with RErr _ => Done false | _ => Done true end)
  else Done true.

Definition glite_lbu_MaildirStoreMsg (srvname msg : string) : prog reply :=
  pbind (create_file 10 srvname) (fun f =>
  match f with
  | None => Done (Code (-1))
  | Some (fname, fhnd) =>
    pbind (write_message fhnd msg) (fun ok =>
    if negb ok then Done (Code (-1)) else
    do r <- Fsync fhnd;
    match r with
    | RErr _ => Done (Code (-1))
    | _ =>
      do r <- Close fhnd;
      match r with
      | RErr _ => Done (Code (-1))
      | _ =>
        do r <- Link TMP NEW fname;
        match r with
        | RErr _ => Done (Code (-1))
        | _ => Done (Code 0)
        end
      end
    end)
  end).

Definition glite_lbu_MaildirTransEnd (fname : string) (tstate : Z) : prog reply :=
  do _r <- Unlink WORK fname;
  if tstate =? LBMD_TRANS_OK then
    do _r <- Unlink TMP fname;
    Done (Code 0)
  else if tstate =? LBMD_TRANS_FAILED then Done (Code 0)
  else
    do r <- Stat TMP fname;
    match r with
    | RErr _ => Done (Code (-1))
    | _ =>
      do r <- Link TMP POST fname;
      match r with
      | RErr _ => Done (Code (-1))
      | _ => Done (Code 0)
      end
    end.

(** The loop that reads the file: [fuel] enlargements of the buffer are left before
    [bufsz], an [int], overflows; [bufuse] is [bufsz] at every turn.  An interrupted read
    ends the loop, since the [continue] evaluates the condition with [ct] -1.  [None] is
    an error. *)
Fixpoint read_loop (fuel : nat) (fhnd : nat) (buf : string) : prog (option string) :=
  match fuel with
  | O => Fault SignedOverflow
  | S fuel =>
    let bufuse := Z.of_nat (String.length buf) in
    do r <- Realloc (bufuse + BUFSIZ);
    match r with
    | RErr _ => Done None
    | _ =>
      do r <- Read fhnd bufuse BUFSIZ;
      match r with
      | RData s =>
        let ct := Z.of_nat (String.length s) in
        if ct =? 0 then Done (Some buf)
        else if ct =? BUFSIZ then read_loop fuel fhnd (buf +:+ s)
        else Done (Some (buf +:+ s))
      | RErr EINTR => Done (Some buf)
      | _ => Done None
      end
    end
  end.

(** [INT_MAX / BUFSIZ]. *)
Definition max_chunks : nat := Z.to_nat 262143.

(** From [open(newfname,O_RDONLY)] to the end. *)
Definition read_message (fname : string) : prog reply :=
  do r <- Open_rd WORK fname;
  match r with
  | RFd fhnd =>
    pbind (read_loop max_chunks fhnd "") (fun b =>
    match b with
    | None => Done (Code (-1))
    | Some buf =>
      do _r <- Close fhnd;
      do r <- Strdup fname;
      match r with
      | RErr _ => Done (Code (-1))
      | _ => Done (Got buf fname)
      end
    end)
  | _ => Done (Code (-1))
  end.

(** The entries that the stream still has. *)
Definition stream : Type := option (list string).

Definition dot_name (n : string) : bool :=
  match n with String "." _ => true | _ => false end.

(** The loop of [glite_lbu_MaildirTransStart] over the directory. *)
Fixpoint scan_new (dir : list string) : prog (reply * stream) :=
  do e <- Readdir;
  match e with
  | RErr EBADF => Done (Code (-1), None)
  | RErr _ => do _r <- Closedir; Done (Code 0, None)
  | _ =>
    match dir with
    | [] => do _r <- Closedir; Done (Code 0, None)
    | ent :: dir =>
      if dot_name ent then scan_new dir else
      do r <- Rename NEW WORK ent;
      match r with
      | RErr ENOENT => scan_new dir
      | RErr _ => Done (Code (-1), Some dir)
      | _ => pbind (read_message ent) (fun r => Done (r, Some dir))
      end
    end
  end.

Definition glite_lbu_MaildirTransStart (dir : stream) : prog (reply * stream) :=
  match dir with
  | Some l => scan_new l
  | None =>
    do r <- Opendir NEW;
    match r with
    | RDir l => scan_new l
    | _ => Done (Code (-1), None)
    end
  end.

(** The loop of [glite_lbu_MaildirRetryTransStart]. *)
Fixpoint scan_post (tlimit_retry tlimit_remove : Z) (dir : list string)
  : prog (reply * stream) :=
  do e <- Readdir;
  match e with
  | RErr EBADF => Done (Code (-1), None)
  | RErr _ => do _r <- Closedir; Done (Code 0, None)
  | _ =>
    match dir with
    | [] => do _r <- Closedir; Done (Code 0, None)
    | ent :: dir =>
      if dot_name ent then scan_post tlimit_retry tlimit_remove dir else
      do st <- Stat POST ent;
      match st with
      | RStat mtime ctime =>
        if mtime <? tlimit_remove then
          do r <- Rename POST UNDELIVERABLE ent;
          match r with
          | RErr ENOENT => scan_post tlimit_retry tlimit_remove dir
          | RErr _ => Done (Code (-1), Some dir)
          | _ => do _r <- Unlink TMP ent; scan_post tlimit_retry tlimit_remove dir
          end
        else if tlimit_retry <? ctime then scan_post tlimit_retry tlimit_remove dir
        else
          do r <- Rename POST WORK ent;
          match r with
          | RErr ENOENT => scan_post tlimit_retry tlimit_remove dir
          | RErr _ => Done (Code (-1), Some dir)
          | _ => pbind (read_message ent) (fun r => Done (r, Some dir))
          end
      | _ => Done (Code (-1), Some dir)
      end
    end
  end.

Definition scan_post_from (retry remove : Z) (dir : list string) : prog (reply * stream) :=
  do now <- Time;
  match now with
  | RTime now =>
    lift (add_long now (- retry)) (fun tlimit_retry =>
    do now <- Time;
    match now with
    | RTime now =>
      lift (add_long now (- remove)) (fun tlimit_remove =>
      scan_post tlimit_retry tlimit_remove dir)
    | _ => Done (Code (-1), Some dir)
    end)
  | _ => Done (Code (-1), Some dir)
  end.

Definition glite_lbu_MaildirRetryTransStart (retry remove : Z) (dir : stream)
  : prog (reply * stream) :=
  match dir with
  | Some l => scan_post_from retry remove l
  | None =>
    do r <- Opendir POST;
    match r with
    | RDir l => scan_post_from retry remove l
    | _ => Done (Code (-1), None)
    end
  end.

(** ** The directories

    What a path names: a directory with or without access for the process, something else,
    or something that [stat] does not reach. *)
Inductive node := NDir (rw : bool) | NOther | NUnreachable.

Definition DEFAULT_ROOT : string := "/tmp/lb_maildir".
Definition PATH_MAX : nat := 4096.
Definition dirs : list string := map folder_name [TMP; NEW; WORK; POST; UNDELIVERABLE].

Section Init.
(** Whether [mkdir] can make the directory. *)
Variable may_make : gmap string node → string → bool.

(** [true] is a failure; a directory that is made is the process's. *)
Definition check_mkdir (t : gmap string node) (dir : string) : bool * gmap string node :=
  match t !! dir with
  | None => if may_make t dir then (false, <[dir := NDir true]> t) else (true, t)
  | Some NUnreachable | Some NOther => (true, t)
  | Some (NDir rw) => (negb rw, t)
  end.

Fixpoint check_dirs (t : gmap string node) (paths : list string) : Z * gmap string node :=
  match paths with
  | [] => (0, t)
  | p :: paths =>
    let '(fail, t) := check_mkdir t p in
    if fail then (1, t) else check_dirs t paths
  end.

Definition glite_lbu_MaildirInit (t : gmap string node) (dir : option string)
  : Z * gmap string node :=
  let root := default DEFAULT_ROOT dir in
  let '(fail, t) := check_mkdir t root in
  if fail then (1, t)
  else check_dirs t
    (map (fun d => snprintf PATH_MAX "%s/%s" [PStr (Some root); PStr (Some d)]) dirs).

Lemma check_dirs_ok t paths t' : check_dirs t paths = (0, t') →
  (∀ p, p ∈ paths → t' !! p = Some (NDir true)) ∧ (∀ p v, t !! p = Some v → t' !! p = Some v).
Proof.
  revert t. induction paths as [|p paths IH]; intros t; cbn.
  { intros [= <-]. split; [set_solver|done]. }
  destruct (check_mkdir t p) as [fail t1] eqn:E. destruct fail; [done|]. intros H.
  destruct (IH _ H) as [H1 H2]. unfold check_mkdir in E.
  assert (t1 !! p = Some (NDir true) ∧ ∀ q v, t !! q = Some v → t1 !! q = Some v) as [Hp Hq].
  { destruct (t !! p) as [[[]| |]|] eqn:F; simplify_eq; [done|].
    destruct (may_make t p); simplify_eq. split; [apply lookup_insert_eq|].
    intros q v Hv. rewrite lookup_insert_ne by congruence. done. }
  split; [|auto]. intros q Hin. apply elem_of_cons in Hin as [-> |Hin]; auto.
Qed.

(** After a successful start all directories are there, and nothing was changed. *)
Lemma maildir_init_ok t dir t' : glite_lbu_MaildirInit t dir = (0, t') →
  (∀ d, t' !! snprintf PATH_MAX "%s/%s" [PStr (Some (default DEFAULT_ROOT dir)); PStr (Some (folder_name d))]
        = Some (NDir true)) ∧
  (∀ p v, t !! p = Some v → t' !! p = Some v).
Proof.
  unfold glite_lbu_MaildirInit. intros H.
  pose proof (check_dirs_ok t (default DEFAULT_ROOT dir :: map (fun d => snprintf PATH_MAX "%s/%s"
    [PStr (Some (default DEFAULT_ROOT dir)); PStr (Some d)]) dirs) t') as Hc.
  cbn [check_dirs] in Hc. destruct (check_mkdir t (default DEFAULT_ROOT dir)) as [[] t1]; [done|].
  destruct (Hc H) as [H1 H2]. split; [|done]. intros d. apply H1.
  apply elem_of_cons. right. apply list_elem_of_fmap. exists (folder_name d). split; [done|].
  unfold dirs. apply list_elem_of_fmap. exists d. split; [done|]. destruct d; set_solver.
Qed.
End Init.

(** ** What the calls do

    [faulty]: the calls that the operating system may refuse can fail (memory, I/O errors)
    and processes can die.  [short]: a write can store less than it was given, and a read
    can be interrupted.  Without them a call fails only for a reason of the file system's
    state.  An existing name can always be unlinked. *)
Section Calls.
Variables faulty short : bool.

Inductive exec : fs → call → result → fs → Prop :=
| X_open σ d n h : σ.(links) !! (d, n) = None → σ.(inodes) !! h = None →
    exec σ (Open_excl d n) (RFd h)
      (σ <| links := <[(d, n) := h]> σ.(links) |> <| inodes := <[h := ""%string]> σ.(inodes) |>)
| X_open_exist σ d n h : σ.(links) !! (d, n) = Some h → exec σ (Open_excl d n) (RErr EEXIST) σ
| X_write σ h c data k : σ.(inodes) !! h = Some c → (k <= String.length data)%nat →
    (short = false → k = String.length data) →
    exec σ (Write h data) (RCount (Z.of_nat k))
      (σ <| inodes := <[h := c +:+ str_take k data]> σ.(inodes) |>)
| X_write_intr σ h data : exec σ (Write h data) (RErr EINTR) σ
| X_fsync σ h : exec σ (Fsync h) ROk σ
| X_close σ h : exec σ (Close h) ROk σ
| X_link σ d d' n h : σ.(links) !! (d, n) = Some h → σ.(links) !! (d', n) = None →
    exec σ (Link d d' n) ROk (σ <| links := <[(d', n) := h]> σ.(links) |>)
| X_link_none σ d d' n : σ.(links) !! (d, n) = None → exec σ (Link d d' n) (RErr ENOENT) σ
| X_link_exist σ d d' n h : σ.(links) !! (d', n) = Some h → exec σ (Link d d' n) (RErr EEXIST) σ
| X_unlink σ d n h : σ.(links) !! (d, n) = Some h →
    exec σ (Unlink d n) ROk (σ <| links := delete (d, n) σ.(links) |>)
| X_unlink_none σ d n : σ.(links) !! (d, n) = None → exec σ (Unlink d n) (RErr ENOENT) σ
| X_stat σ d n h mtime ctime : σ.(links) !! (d, n) = Some h →
    exec σ (Stat d n) (RStat mtime ctime) σ
| X_stat_none σ d n : σ.(links) !! (d, n) = None → exec σ (Stat d n) (RErr ENOENT) σ
| X_rename σ d d' n h : σ.(links) !! (d, n) = Some h → σ.(links) !! (d', n) ≠ Some h →
    exec σ (Rename d d' n) ROk
      (σ <| links := <[(d', n) := h]> (delete (d, n) σ.(links)) |>)
(* two names of one file: nothing is done *)
| X_rename_same σ d d' n h : σ.(links) !! (d, n) = Some h → σ.(links) !! (d', n) = Some h →
    exec σ (Rename d d' n) ROk σ
| X_rename_none σ d d' n : σ.(links) !! (d, n) = None → exec σ (Rename d d' n) (RErr ENOENT) σ
| X_open_rd σ d n h : σ.(links) !! (d, n) = Some h → exec σ (Open_rd d n) (RFd h) σ
| X_open_rd_none σ d n : σ.(links) !! (d, n) = None → exec σ (Open_rd d n) (RErr ENOENT) σ
| X_read σ h c off len : σ.(inodes) !! h = Some c → 0 <= off → 0 <= len →
    exec σ (Read h off len) (RData (str_take (Z.to_nat len) (str_drop (Z.to_nat off) c))) σ
| X_read_intr σ h off len : short = true → exec σ (Read h off len) (RErr EINTR) σ
| X_opendir σ d names : exec σ (Opendir d) (RDir names) σ
| X_readdir σ : exec σ Readdir ROk σ
| X_closedir σ : exec σ Closedir ROk σ
| X_time σ t : 0 <= t <= LONG_MAX → exec σ Time (RTime t) σ
| X_gettimeofday σ sec usec : exec σ Gettimeofday (RTimeval sec usec) σ
| X_realloc σ size : exec σ (Realloc size) ROk σ
| X_strdup σ s : exec σ (Strdup s) ROk σ
| X_refused σ c e : faulty = true →
    match c with Unlink _ _ | Time | Gettimeofday => False | _ => True end →
    match e with EOTHER | EBADF => True | _ => False end →
    exec σ c (RErr e) σ.
End Calls.

(** ** Processes

    What a client calls.  [MaildirTransEnd] is called only for a message that a
    [...TransStart] of the same process returned. *)
Inductive request :=
| StoreMsg (srvname msg : string)
| TransStart
| RetryTransStart (retry remove : Z)
| TransEnd (fname : string) (tstate : Z).

(** The messages fit the buffer that reads them, and the times are not negative. *)
Definition request_ok (r : request) : bool :=
  match r with
  | StoreMsg _ msg => Z.of_nat (String.length msg) <? 262143 * BUFSIZ
  | RetryTransStart retry remove =>
    (0 <=? retry) && (retry <=? LONG_MAX) && (0 <=? remove) && (remove <=? LONG_MAX)
  | _ => true
  end.

(** A process: its two static streams, the messages it has got and not ended, and the
    call it executes. *)
Record proc := mkProc {
  new_dir : stream;
  post_dir : stream;
  messages : gmap string string;
  running : option (request * prog (reply * stream))
}.
#[export] Instance proc_eta : Eta proc := fun r =>
  mkProc r.(new_dir) r.(post_dir) r.(messages) r.(running).

Definition with_stream (dir : stream) (p : prog reply) : prog (reply * stream) :=
  pbind p (fun r => Done (r, dir)).

Definition start (p : proc) (r : request) : prog (reply * stream) :=
  match r with
  | StoreMsg srvname msg => with_stream None (glite_lbu_MaildirStoreMsg srvname msg)
  | TransStart => glite_lbu_MaildirTransStart p.(new_dir)
  | RetryTransStart retry remove => glite_lbu_MaildirRetryTransStart retry remove p.(post_dir)
  | TransEnd fname tstate => with_stream None (glite_lbu_MaildirTransEnd fname tstate)
  end.

(** The return of a call: its stream is stored, a message it gives is the process's. *)
Definition finish (p : proc) (r : request) (v : reply) (dir : stream) : proc :=
  let p := p <| running := None |> in
  let p := match r with
           | TransStart => p <| new_dir := dir |>
           | RetryTransStart _ _ => p <| post_dir := dir |>
           | _ => p
           end in
  match v with
  | Got msg fname => p <| messages := <[fname := msg]> p.(messages) |>
  | Code _ => p
  end.

(** What is seen of a step. *)
Inductive label :=
| LCall (pid : nat) (r : request)
| LReturn (pid : nat) (v : reply)
| LDie (pid : nat).

Record system := mkSystem {
  sys_fs : fs;
  procs : gmap nat proc
}.

Section Steps.
Variables faulty short : bool.

Inductive sys_step : system → option label → system → Prop :=
| S_spawn σ ps pid : ps !! pid = None →
    sys_step (mkSystem σ ps) None (mkSystem σ (<[pid := mkProc None None ∅ None]> ps))
| S_call σ ps pid p r : ps !! pid = Some p → p.(running) = None → request_ok r = true →
    (∀ fname t, r = TransEnd fname t → is_Some (p.(messages) !! fname)) →
    sys_step (mkSystem σ ps) (Some (LCall pid r))
      (mkSystem σ (<[pid := p <| running := Some (r, start p r) |>
         <| messages := match r with TransEnd fname _ => delete fname p.(messages)
                        | _ => p.(messages) end |>]> ps))
| S_exec σ ps pid p r c k v σ' : ps !! pid = Some p → p.(running) = Some (r, Call c k) →
    exec faulty short σ c v σ' →
    sys_step (mkSystem σ ps) None
      (mkSystem σ' (<[pid := p <| running := Some (r, k v) |>]> ps))
| S_again σ ps pid p r c k σ' : ps !! pid = Some p → p.(running) = Some (r, Again c k) →
    exec faulty short σ c (RErr EINTR) σ' →
    sys_step (mkSystem σ ps) None (mkSystem σ' ps)
| S_once σ ps pid p r c k v σ' : ps !! pid = Some p → p.(running) = Some (r, Again c k) →
    exec faulty short σ c v σ' → v ≠ RErr EINTR →
    sys_step (mkSystem σ ps) None
      (mkSystem σ' (<[pid := p <| running := Some (r, k v) |>]> ps))
| S_return σ ps pid p r v dir : ps !! pid = Some p → p.(running) = Some (r, Done (v, dir)) →
    sys_step (mkSystem σ ps) (Some (LReturn pid v)) (mkSystem σ (<[pid := finish p r v dir]> ps))
| S_die σ ps pid p : ps !! pid = Some p → faulty = true →
    sys_step (mkSystem σ ps) (Some (LDie pid)) (mkSystem σ (delete pid ps)).

(** The runs from an empty mail directory without processes, with what is seen of them. *)
Definition sys_init : system := mkSystem (mkFs ∅ ∅) ∅.

Inductive runs : list label → system → Prop :=
| runs_init : runs [] sys_init
| runs_silent tr s s' : runs tr s → sys_step s None s' → runs tr s'
| runs_visible tr s l s' : runs tr s → sys_step s (Some l) s' → runs (tr ++ [l]) s'.
End Steps.

(** ** What a mail directory promises

    A mailbox: messages with their names, waiting or held by a process.  A call takes
    effect in one step between its call and its return. *)
Inductive status := Waiting | Held (pid : nat).

(** Where a process's call is. *)
Inductive progress :=
| PIdle
| PStore (msg : string)             (* to be stored *)
| PStart                            (* a message to be taken, or none *)
| PTaken (fname : string)           (* has taken the message *)
| PEnd (fname : string) (tstate : Z)
| PReply (code : Z).                (* what is left is to return the code *)

Record mailbox := mkMailbox {
  box : gmap string (string * status);
  progresses : gmap nat progress
}.
#[export] Instance mailbox_eta : Eta mailbox := fun r => mkMailbox r.(box) r.(progresses).

Definition request_progress (r : request) : progress :=
  match r with
  | StoreMsg _ msg => PStore msg
  | TransStart | RetryTransStart _ _ => PStart
  | TransEnd fname t => PEnd fname t
  end.

Definition str_prefix (s t : string) : Prop := ∃ u, t = s +:+ u.

Definition held_by (pid : nat) (e : string * status) : bool :=
  match e.2 with Held q => Nat.eqb q pid | Waiting => false end.

Section Mailbox.
Variables faulty short : bool.

(** What is stored of a message, and what is read of a stored one. *)
Definition copy_of (msg text : string) : Prop :=
  str_prefix text msg ∧ (short = false → text = msg).

Inductive box_step : mailbox → option label → mailbox → Prop :=
| B_spawn B P pid : P !! pid = None →
    box_step (mkMailbox B P) None (mkMailbox B (<[pid := PIdle]> P))
| B_call B P pid r : P !! pid = Some PIdle → 
    (∀ fname t, r = TransEnd fname t → ∃ m, B !! fname = Some (m, Held pid)) →
    box_step (mkMailbox B P) (Some (LCall pid r)) (mkMailbox B (<[pid := request_progress r]> P))
(* a message is stored, under a name that is not in use *)
| B_put B P pid msg n text : P !! pid = Some (PStore msg) → B !! n = None → copy_of msg text →
    box_step (mkMailbox B P) None
      (mkMailbox (<[n := (text, Waiting)]> B) (<[pid := PReply 0]> P))
(* no name was free in ten tries, or a call failed *)
| B_put_fails B P pid msg : P !! pid = Some (PStore msg) →
    box_step (mkMailbox B P) None (mkMailbox B (<[pid := PReply (-1)]> P))
| B_take B P pid n m : P !! pid = Some PStart → B !! n = Some (m, Waiting) →
    box_step (mkMailbox B P) None
      (mkMailbox (<[n := (m, Held pid)]> B) (<[pid := PTaken n]> P))
(* an old message is given up *)
| B_expire B P pid n m : P !! pid = Some PStart → B !! n = Some (m, Waiting) →
    box_step (mkMailbox B P) None (mkMailbox (delete n B) P)
| B_start_none B P pid code : P !! pid = Some PStart → code = 0 ∨ code = -1 →
    box_step (mkMailbox B P) None (mkMailbox B (<[pid := PReply code]> P))
| B_got B P pid n m text : P !! pid = Some (PTaken n) → B !! n = Some (m, Held pid) →
    copy_of m text →
    box_step (mkMailbox B P) (Some (LReturn pid (Got text n))) (mkMailbox B (<[pid := PIdle]> P))
| B_done B P pid n t : P !! pid = Some (PEnd n t) →
    t = LBMD_TRANS_OK ∨ t = LBMD_TRANS_FAILED →
    box_step (mkMailbox B P) None (mkMailbox (delete n B) (<[pid := PReply 0]> P))
| B_requeue B P pid n t m : P !! pid = Some (PEnd n t) →
    t ≠ LBMD_TRANS_OK → t ≠ LBMD_TRANS_FAILED → B !! n = Some (m, Held pid) →
    box_step (mkMailbox B P) None
      (mkMailbox (<[n := (m, Waiting)]> B) (<[pid := PReply 0]> P))
| B_return B P pid code : P !! pid = Some (PReply code) →
    box_step (mkMailbox B P) (Some (LReturn pid (Code code))) (mkMailbox B (<[pid := PIdle]> P))
(* a call fails after a message was taken: it is lost *)
| B_lose B P pid n : P !! pid = Some (PTaken n) ∨ (∃ t, P !! pid = Some (PEnd n t)) →
    faulty = true →
    box_step (mkMailbox B P) None (mkMailbox (delete n B) (<[pid := PReply (-1)]> P))
| B_die B P pid : is_Some (P !! pid) → faulty = true →
    box_step (mkMailbox B P) (Some (LDie pid))
      (mkMailbox (filter (fun e => held_by pid e.2 = false) B) (delete pid P)).

Inductive box_runs : list label → mailbox → Prop :=
| box_runs_init : box_runs [] (mkMailbox ∅ ∅)
| box_runs_silent tr b b' : box_runs tr b → box_step b None b' → box_runs tr b'
| box_runs_visible tr b l b' : box_runs tr b → box_step b (Some l) b' → box_runs (tr ++ [l]) b'.
End Mailbox.
