(* ===== verification/MaildirProps.v ===== *)
(** * Mail directories: the promise is kept

    Every run of processes over a mail directory, with any interleaving of their system
    calls, is a run of the mailbox: a forward simulation.  What a process knows during a
    call is its [view]; [safe] checks a program call by call against the views, and an
    invariant of every single file name connects the views with the file system. *)
From Stdlib Require Import ZArith Lia Ascii.
From stdpp Require Import base option list strings numbers gmap relations.
From S2P Require Import Prelude CLib Maildir.
#[local] Open Scope Z_scope.

(** ** Views *)

(** The messages that are shorter are read without an overflow of [bufsz]. *)
Definition max_message : Z := 262143 * BUFSIZ.

Inductive view :=
| VStore (msg : string)
| VWriting (msg n : string) (h : nat) (c : string)   (* its file is [h], with [c] in it *)
| VStart
| VExpiring (n : string)                             (* moved to undeliverable *)
| VTaken (n : string)
| VReading (n : string) (h : nat) (m : string)
| VEnd (n : string) (t : Z)
| VClosing (n : string)                              (* ended, still in tmp *)
| VPosting (n : string) (t : Z)                      (* to be retried, only in tmp *)
| VReply (code : Z).

Definition view_progress (v : view) : progress :=
  match v with
  | VStore m | VWriting m _ _ _ => PStore m
  | VStart | VExpiring _ => PStart
  | VTaken n | VReading n _ _ => PTaken n
  | VEnd n t | VPosting n t => PEnd n t
  | VClosing _ => PReply 0
  | VReply c => PReply c
  end.

(** The name a view is about. *)
Definition view_name (v : view) : option string :=
  match v with
  | VWriting _ n _ _ | VExpiring n | VTaken n | VReading n _ _ | VEnd n _ | VClosing n
  | VPosting n _ => Some n
  | _ => None
  end.

Definition is_end (t : Z) : bool := (t =? LBMD_TRANS_OK) || (t =? LBMD_TRANS_FAILED).

(** The view after [MaildirTransEnd] has left the work directory. *)
Definition ended (n : string) (t : Z) : view :=
  if t =? LBMD_TRANS_OK then VClosing n
  else if t =? LBMD_TRANS_FAILED then VReply 0 else VPosting n t.

Section Views.
Variables faulty short : bool.

(** The calls a view admits. *)
Definition allowed (v : view) (c : call) : Prop :=
  match v, c with
  | VStore _, (Gettimeofday | Open_excl TMP _) => True
  | VWriting _ _ h _, Write h' _ => h' = h
  | VWriting _ _ _ _, (Fsync _ | Close _) => True
  | VWriting m n _ c, Link TMP NEW n' =>
    n' = n ∧ copy_of short m c ∧ Z.of_nat (String.length c) < max_message
  | VStart, (Opendir _ | Readdir | Closedir | Time | Stat _ _) => True
  | VStart, (Rename NEW WORK _ | Rename POST WORK _ | Rename POST UNDELIVERABLE _) => True
  | VExpiring n, Unlink TMP n' => n' = n
  | VTaken n, Open_rd WORK n' => n' = n
  | VReading _ _ _, (Realloc _ | Close _ | Strdup _) => True
  | VReading _ h _, Read h' off len => h' = h ∧ 0 <= off ∧ 0 <= len
  | VEnd n _, Unlink WORK n' => n' = n
  | VClosing n, Unlink TMP n' => n' = n
  | VPosting n _, Stat TMP n' => n' = n
  | VPosting n t, Link TMP POST n' => n' = n ∧ is_end t = false
  | _, _ => False
  end.

(** The view after a call with its result. *)
Inductive vstep : view → call → result → view → Prop :=
| vs_tod m s u : vstep (VStore m) Gettimeofday (RTimeval s u) (VStore m)
| vs_open m n h : vstep (VStore m) (Open_excl TMP n) (RFd h) (VWriting m n h "")
| vs_exist m n : vstep (VStore m) (Open_excl TMP n) (RErr EEXIST) (VStore m)
| vs_write m n h c data k : (k <= String.length data)%nat →
    (short = false → k = String.length data) →
    vstep (VWriting m n h c) (Write h data) (RCount (Z.of_nat k))
      (VWriting m n h (c +:+ str_take k data))
| vs_intr m n h c data : vstep (VWriting m n h c) (Write h data) (RErr EINTR) (VWriting m n h c)
| vs_fsync m n h c h' : vstep (VWriting m n h c) (Fsync h') ROk (VWriting m n h c)
| vs_close m n h c h' : vstep (VWriting m n h c) (Close h') ROk (VWriting m n h c)
| vs_put m n h c : vstep (VWriting m n h c) (Link TMP NEW n) ROk (VReply 0)
| vs_opendir d l : vstep VStart (Opendir d) (RDir l) VStart
| vs_readdir : vstep VStart Readdir ROk VStart
| vs_closedir : vstep VStart Closedir ROk VStart
| vs_time t : 0 <= t <= LONG_MAX → vstep VStart Time (RTime t) VStart
| vs_stat d n mt ct : vstep VStart (Stat d n) (RStat mt ct) VStart
| vs_stat_none d n : vstep VStart (Stat d n) (RErr ENOENT) VStart
| vs_rename_none d d' n : vstep VStart (Rename d d' n) (RErr ENOENT) VStart
| vs_take d n : vstep VStart (Rename d WORK n) ROk (VTaken n)
| vs_expire n : vstep VStart (Rename POST UNDELIVERABLE n) ROk (VExpiring n)
| vs_expired n r : vstep (VExpiring n) (Unlink TMP n) r VStart
| vs_open_rd n h m : Z.of_nat (String.length m) < max_message →
    vstep (VTaken n) (Open_rd WORK n) (RFd h) (VReading n h m)
| vs_realloc n h m s : vstep (VReading n h m) (Realloc s) ROk (VReading n h m)
| vs_close_rd n h m h' : vstep (VReading n h m) (Close h') ROk (VReading n h m)
| vs_strdup n h m s : vstep (VReading n h m) (Strdup s) ROk (VReading n h m)
| vs_read n h m off len :
    vstep (VReading n h m) (Read h off len)
      (RData (str_take (Z.to_nat len) (str_drop (Z.to_nat off) m))) (VReading n h m)
| vs_read_intr n h m off len : short = true →
    vstep (VReading n h m) (Read h off len) (RErr EINTR) (VReading n h m)
| vs_end n t r : vstep (VEnd n t) (Unlink WORK n) r (ended n t)
| vs_closed n r : vstep (VClosing n) (Unlink TMP n) r (VReply 0)
| vs_stat_tmp n t mt ct : vstep (VPosting n t) (Stat TMP n) (RStat mt ct) (VPosting n t)
| vs_requeue n t : vstep (VPosting n t) (Link TMP POST n) ROk (VReply 0)
| vs_refused v c e : faulty = true →
    match c with Unlink _ _ | Time | Gettimeofday => False | _ => True end →
    match e with EOTHER | EBADF => True | _ => False end →
    vstep v c (RErr e) v.

(** A program follows the views, whatever the results of its calls. *)
Fixpoint safe {R} (v : view) (p : prog R) (Q : view → R → Prop) : Prop :=
  match p with
  | Done r => Q v r
  | Fault _ => False
  | Call c k => allowed v c ∧ ∀ r v', vstep v c r v' → safe v' (k r) Q
  | Again c k => allowed v c ∧
      (∀ v', vstep v c (RErr EINTR) v' → v' = v) ∧
      ∀ r v', r ≠ RErr EINTR → vstep v c r v' → safe v' (k r) Q
  end.

(** The return of a call: the reply is the one that the mailbox gives, or one it can give
    without another effect. *)
Definition done_ok (v : view) (r : reply) : Prop :=
  match v, r with
  | VReply c, Code c' => c' = c
  | (VStore _ | VWriting _ _ _ _), Code c => c = -1
  | VStart, Code c => c = 0 ∨ c = -1
  | (VTaken _ | VReading _ _ _ | VPosting _ _), Code c => c = -1 ∧ faulty = true
  | VReading n _ m, Got text n' => n' = n ∧ copy_of short m text
  | _, _ => False
  end.

Lemma safe_bind {A B} (p : prog A) (f : A → prog B) v Q :
  safe v p (fun v' a => safe v' (f a) Q) → safe v (pbind p f) Q.
Proof.
  revert v. induction p as [a|w|c k IH|c k IH]; intros v; cbn [safe pbind].
  - done.
  - done.
  - intros [H1 H2]. split; eauto.
  - intros (H1 & H2 & H3). split_and!; eauto.
Qed.

Lemma safe_mono {A} (p : prog A) v (Q Q' : view → A → Prop) :
  (∀ v a, Q v a → Q' v a) → safe v p Q → safe v p Q'.
Proof.
  intros HQ. revert v. induction p as [a|w|c k IH|c k IH]; intros v; cbn [safe].
  - auto.
  - done.
  - intros [H1 H2]. split; eauto.
  - intros (H1 & H2 & H3). split_and!; eauto.
Qed.

(** One call: admitted, and a case for every result. *)
Ltac call_step :=
  cbn [safe]; split;
  [try done|
   let r := fresh "r" in let v' := fresh "v'" in let Hv := fresh "Hv" in
   intros r v' Hv; inversion Hv; subst; clear Hv; try done].

(** ** The functions are safe *)

Lemma create_file_safe tries srv m :
  safe (VStore m) (create_file tries srv)
    (fun v f => match f with
                | Some (n, h) => v = VWriting m n h ""
                | None => v = VStore m
                end).
Proof.
  induction tries as [|tries IH]; [done|]. cbn [create_file].
  call_step. call_step.
  match goal with e : errno_t |- _ => by destruct e end.
Qed.

Lemma take_prefix k s : str_prefix (str_take k s) s.
Proof. exists (str_drop k s). by rewrite str_take_drop. Qed.

Lemma write_message_safe m n h : Z.of_nat (String.length m) < max_message →
  safe (VWriting m n h "") (write_message h m)
    (fun v ok => ∃ c, v = VWriting m n h c ∧ (ok = true → copy_of short m c)).
Proof.
  intros Hm. unfold max_message, BUFSIZ in Hm. unfold write_message.
  assert (s32 (Z.of_nat (String.length m)) = Z.of_nat (String.length m)) as ->.
  { apply s32_id. unfold_int. lia. }
  rewrite Nat2Z.id, str_take_all by lia.
  destruct (Z.ltb_spec 0 (Z.of_nat (String.length m))) as [Hl|Hl].
  - cbn [safe]. split_and!; [done| |].
    { intros v' Hv. inversion Hv; subst; [done|]. done. }
    intros r v' Hr Hv. inversion Hv; subst; clear Hv; cbn [safe].
    + exists (str_take k m). split; [done|]. intros _. split; [apply take_prefix|].
      intros Hs. rewrite str_take_all; [done|].
      match goal with H : short = false → _ |- _ => by rewrite H end.
    + done.
    + exists "". done.
  - cbn [safe]. exists "". split; [done|]. intros _.
    destruct m; [|cbn in Hl; lia]. split; [by exists ""|done].
Qed.

Lemma store_safe srv m : Z.of_nat (String.length m) < max_message →
  safe (VStore m) (glite_lbu_MaildirStoreMsg srv m) done_ok.
Proof.
  intros Hm. unfold glite_lbu_MaildirStoreMsg.
  apply safe_bind. eapply safe_mono, create_file_safe.
  intros v [[n h]|] ->; [|done].
  apply safe_bind. eapply safe_mono, write_message_safe, Hm.
  intros v ok (c & -> & Hc). destruct ok; [|done]. cbn [negb].
  call_step. call_step. call_step. cbn [allowed]. destruct (Hc eq_refl) as [[u Hu] Hs].
  split_and!; [done|by split; [exists u|]|]. rewrite Hu, length_app_str in Hm. lia.
Qed.

Lemma end_safe n t : safe (VEnd n t) (glite_lbu_MaildirTransEnd n t) done_ok.
Proof.
  unfold glite_lbu_MaildirTransEnd. call_step. unfold ended.
  destruct (t =? LBMD_TRANS_OK) eqn:E1.
  { call_step. }
  destruct (t =? LBMD_TRANS_FAILED) eqn:E2; [done|].
  call_step. call_step. cbn [allowed]. unfold is_end. by rewrite E1, E2.
Qed.

Lemma str_take_add a b s : str_take a s +:+ str_take b (str_drop a s) = str_take (a + b) s.
Proof.
  revert s. induction a as [|a IH]; intros [|c s]; cbn; try done.
  - by destruct b.
  - by rewrite IH.
Qed.

Lemma length_str_drop k s : String.length (str_drop k s) = (String.length s - k)%nat.
Proof. revert s. induction k as [|k IH]; intros [|c s]; cbn; try done. Qed.

(** The loop reads the whole message within its chunks, or stops earlier by an interrupt. *)
Lemma read_loop_safe n h m fuel : ∀ i,
  Z.of_nat (String.length m) < BUFSIZ * (Z.of_nat i + Z.of_nat fuel) →
  BUFSIZ * Z.of_nat i <= Z.of_nat (String.length m) →
  safe (VReading n h m) (read_loop fuel h (str_take (Z.to_nat (BUFSIZ * Z.of_nat i)) m))
    (fun v b => v = VReading n h m ∧
       match b with Some text => copy_of short m text | None => faulty = true end).
Proof.
  induction fuel as [|fuel IH]; intros i Hf Hi; [lia|].
  cbn [read_loop]. set (off := Z.to_nat (BUFSIZ * Z.of_nat i)).
  assert (0 < BUFSIZ) as Hpos by (unfold BUFSIZ; lia).
  assert (Z.of_nat off = BUFSIZ * Z.of_nat i) as Hoff by lia.
  assert (String.length (str_take off m) = off) as Hlen.
  { rewrite length_str_take. lia. }
  rewrite Hlen. call_step. call_step.
  - cbn [allowed]. lia.
  - rewrite Nat2Z.id. set (b := Z.to_nat BUFSIZ). assert (Z.of_nat b = BUFSIZ) as Hb by lia.
    rewrite str_take_add, length_str_take, length_str_drop.
    set (ct := (b `min` (String.length m - off))%nat).
    destruct (Z.eqb_spec (Z.of_nat ct) 0); cbn [safe].
    + split; [done|]. rewrite str_take_all by lia. split; [by exists ""; rewrite app_nil_r_str|done].
    + destruct (Z.eqb_spec (Z.of_nat ct) BUFSIZ); cbn [safe].
      * replace (off + b)%nat with (Z.to_nat (BUFSIZ * Z.of_nat (S i))) by lia.
        apply IH; lia.
      * split; [done|]. rewrite str_take_all by lia.
        split; [by exists ""; rewrite app_nil_r_str|done].
  - cbn [safe]. split; [done|]. split; [apply take_prefix|congruence].
  - match goal with e : errno_t |- _ => by destruct e end.
Qed.

Lemma read_message_safe n : safe (VTaken n) (read_message n) done_ok.
Proof.
  unfold read_message. call_step.
  apply safe_bind. change ""%string with (str_take (Z.to_nat (BUFSIZ * Z.of_nat 0)) m).
  eapply safe_mono; [|apply read_loop_safe; unfold max_message, max_chunks, BUFSIZ in *; lia].
  intros v [text|] [-> Ht]; cbn [safe done_ok]; [|done].
  call_step; call_step.
Qed.

(** What the functions with a stream guarantee. *)
Definition done_stream (v : view) (r : reply * stream) : Prop := done_ok v r.1.

(** The results that are left: an error that is no reason to go on. *)
Ltac other_error :=
  match goal with e : errno_t |- _ => destruct e end; try done; cbn; auto.

Lemma scan_new_safe dir : safe VStart (scan_new dir) done_stream.
Proof.
  induction dir as [|ent dir IH]; cbn [scan_new]; call_step.
  - call_step; cbn; auto.
  - other_error. call_step; cbn; auto.
  - destruct (dot_name ent); [done|]. call_step.
    + apply safe_bind. eapply safe_mono, read_message_safe. done.
    + other_error.
  - other_error. call_step; cbn; auto.
Qed.

Lemma scan_post_safe tr tm dir : safe VStart (scan_post tr tm dir) done_stream.
Proof.
  induction dir as [|ent dir IH]; cbn [scan_post]; call_step.
  - call_step; cbn; auto.
  - other_error. call_step; cbn; auto.
  - destruct (dot_name ent); [done|]. call_step.
    + destruct (mt <? tm).
      * call_step; [|other_error]. call_step.
      * destruct (tr <? ct); [done|]. call_step; [|other_error].
        apply safe_bind. eapply safe_mono, read_message_safe. done.
    + cbn. auto.
    + cbn. auto.
  - other_error. call_step; cbn; auto.
Qed.

Lemma add_long_ok now d : 0 <= now <= LONG_MAX → 0 <= d <= LONG_MAX →
  add_long now (- d) = Ret (now + - d).
Proof. intros. unfold add_long. rewrite decide_True; [done|]. unfold_int. lia. Qed.

Lemma scan_post_from_safe retry remove dir :
  0 <= retry <= LONG_MAX → 0 <= remove <= LONG_MAX →
  safe VStart (scan_post_from retry remove dir) done_stream.
Proof.
  intros H1 H2. unfold scan_post_from. call_step. rewrite add_long_ok by done. cbn [lift].
  call_step. rewrite add_long_ok by done. apply scan_post_safe.
Qed.

Lemma with_stream_safe v p : safe v p done_ok → safe v (with_stream None p) done_stream.
Proof. intros H. apply safe_bind. eapply safe_mono, H. done. Qed.

(** The view a call begins with. *)
Definition request_view (r : request) : view :=
  match r with
  | StoreMsg _ msg => VStore msg
  | TransStart | RetryTransStart _ _ => VStart
  | TransEnd n t => VEnd n t
  end.

Lemma start_safe p r : request_ok r = true → safe (request_view r) (start p r) done_stream.
Proof.
  intros H. destruct r as [srv msg| |retry remove|n t]; cbn [start request_view request_ok] in *.
  - apply with_stream_safe, store_safe. unfold max_message. lia.
  - unfold glite_lbu_MaildirTransStart. destruct (new_dir p); [apply scan_new_safe|].
    call_step; [apply scan_new_safe|]. cbn. auto.
  - unfold glite_lbu_MaildirRetryTransStart.
    destruct (post_dir p); [apply scan_post_from_safe; lia|].
    call_step; [apply scan_post_from_safe; lia|]. cbn. auto.
  - apply with_stream_safe, end_safe.
Qed.
End Views.

(** ** The invariant of a name

    [L] says which names of tmp a process works on outside of the mailbox: those it writes
    ([true]) and those it is about to remove. *)
Abbreviation limbo := (gmap string (nat * bool)).

Definition visible (d : folder) : bool :=
  match d with NEW | WORK | POST => true | _ => false end.

(** The file of a message of the mailbox. *)
Definition content (σ : fs) (n m : string) : Prop :=
  ∃ h, σ.(links) !! (TMP, n) = Some h ∧ σ.(inodes) !! h = Some m ∧
    σ.(links) !! (UNDELIVERABLE, n) ≠ Some h ∧ Z.of_nat (String.length m) < max_message.

Record name_ok (σ : fs) (B : gmap string (string * status)) (L : limbo) (n : string) : Prop := {
  ok_tmp : ∀ d h, visible d = true → σ.(links) !! (d, n) = Some h →
    σ.(links) !! (TMP, n) = Some h;
  ok_one : ∀ d d' h h', visible d = true → visible d' = true →
    σ.(links) !! (d, n) = Some h → σ.(links) !! (d', n) = Some h' → d = d';
  ok_box : match B !! n with
           | Some (m, Waiting) =>
             (is_Some (σ.(links) !! (NEW, n)) ∨ is_Some (σ.(links) !! (POST, n))) ∧
             L !! n = None ∧ content σ n m
           | Some (m, Held p) =>
             σ.(links) !! (NEW, n) = None ∧ σ.(links) !! (POST, n) = None ∧
             L !! n = None ∧ content σ n m
           | None =>
             σ.(links) !! (NEW, n) = None ∧ σ.(links) !! (POST, n) = None ∧
             match L !! n with
             | Some (p, w) => σ.(links) !! (WORK, n) = None ∧
                 ∃ h, σ.(links) !! (TMP, n) = Some h ∧
                   (w = true → σ.(links) !! (UNDELIVERABLE, n) ≠ Some h)
             | None => True
             end
           end;
  ok_inode : ∀ d h, σ.(links) !! (d, n) = Some h → is_Some (σ.(inodes) !! h)
}.

(** Every file has one name. *)
Record inv (σ : fs) (B : gmap string (string * status)) (L : limbo) : Prop := {
  inv_name : ∀ n, name_ok σ B L n;
  inv_inj : ∀ d d' n n' h, σ.(links) !! (d, n) = Some h → σ.(links) !! (d', n') = Some h → n = n'
}.

Definition view_ok (σ : fs) (B : gmap string (string * status)) (L : limbo) (pid : nat)
    (v : view) : Prop :=
  match v with
  | VStore _ | VStart | VReply _ => True
  | VWriting m n h c =>
    L !! n = Some (pid, true) ∧ σ.(links) !! (TMP, n) = Some h ∧ σ.(inodes) !! h = Some c
  | VExpiring n | VClosing n => L !! n = Some (pid, false)
  | VTaken n => (∃ m, B !! n = Some (m, Held pid)) ∧ is_Some (σ.(links) !! (WORK, n))
  | VReading n h m =>
    B !! n = Some (m, Held pid) ∧ σ.(links) !! (TMP, n) = Some h ∧ σ.(inodes) !! h = Some m
  | VEnd n _ => ∃ m, B !! n = Some (m, Held pid)
  | VPosting n _ => (∃ m, B !! n = Some (m, Held pid)) ∧ σ.(links) !! (WORK, n) = None
  end.

Definition owned (q : nat) (B : gmap string (string * status)) (L : limbo) (n : string) : Prop :=
  (∃ m, B !! n = Some (m, Held q)) ∨ (∃ w, L !! n = Some (q, w)).

Record same_at (σ : fs) (B : gmap string (string * status)) (L : limbo) (σ' : fs) (B' : gmap string (string * status)) (L' : limbo)
    (n : string) : Prop := {
  same_links : ∀ d, σ'.(links) !! (d, n) = σ.(links) !! (d, n);
  same_box : B' !! n = B !! n;
  same_limbo : L' !! n = L !! n;
  same_inode : ∀ h, σ.(links) !! (TMP, n) = Some h → σ'.(inodes) !! h = σ.(inodes) !! h
}.

Lemma same_refl σ B L n : same_at σ B L σ B L n.
Proof. by split. Qed.

(** A view speaks about the name it owns. *)
Lemma view_owned σ B L pid v n : view_name v = Some n → view_ok σ B L pid v → owned pid B L n.
Proof. destruct v; intros [= <-]; cbn [view_ok]; unfold owned; naive_solver. Qed.

Lemma view_ok_same σ B L σ' B' L' pid v :
  (∀ n, view_name v = Some n → same_at σ B L σ' B' L' n) →
  view_ok σ B L pid v → view_ok σ' B' L' pid v.
Proof.
  intros Hs. destruct v; cbn [view_ok view_name] in *; try done;
    specialize (Hs _ eq_refl) as [Hl Hb HL Hi]; rewrite ?Hl, ?Hb, ?HL; try done.
  - intros (? & Ht & Hc). by rewrite (Hi _ Ht).
  - intros (? & Ht & Hc). by rewrite (Hi _ Ht).
Qed.

Lemma name_ok_same σ B L σ' B' L' n : same_at σ B L σ' B' L' n →
  (∀ h, is_Some (σ.(inodes) !! h) → is_Some (σ'.(inodes) !! h)) →
  name_ok σ B L n → name_ok σ' B' L' n.
Proof.
  intros [Hl Hb HL Hi] Hm [H1 H2 H3 H4]. split.
  - intros d h. rewrite !Hl. apply H1.
  - intros d d' h h'. rewrite !Hl. apply H2.
  - assert (∀ m, content σ n m → content σ' n m) as Hc.
    { intros m (h & Ht & Hh & ?). exists h. rewrite !Hl, (Hi _ Ht). done. }
    rewrite Hb, HL, !Hl. destruct (B !! n) as [[m [|p]]|]; naive_solver.
  - intros d h. rewrite Hl. eauto.
Qed.

(** A step that changes a single name. *)
Lemma step_at n0 σ B L σ' B' L' : inv σ B L →
  (∀ n d, n ≠ n0 → σ'.(links) !! (d, n) = σ.(links) !! (d, n)) →
  (∀ n, n ≠ n0 → B' !! n = B !! n) → (∀ n, n ≠ n0 → L' !! n = L !! n) →
  (∀ h, is_Some (σ.(inodes) !! h) → is_Some (σ'.(inodes) !! h)) →
  (∀ h, σ'.(inodes) !! h = σ.(inodes) !! h ∨ σ.(links) !! (TMP, n0) = Some h ∨
        σ.(inodes) !! h = None) →
  (∀ d h, σ'.(links) !! (d, n0) = Some h →
     (∃ d0, σ.(links) !! (d0, n0) = Some h) ∨ σ.(inodes) !! h = None) →
  name_ok σ' B' L' n0 →
  inv σ' B' L' ∧ ∀ n, n ≠ n0 → same_at σ B L σ' B' L' n.
Proof.
  intros [Hn Hj] Hl Hb HL Hm Hi Hl0 Hn0.
  assert (∀ n, n ≠ n0 → same_at σ B L σ' B' L' n) as Hs.
  { intros n Hne. split; eauto. intros h Ht.
    destruct (Hi h) as [?|[?|E]]; [done| |].
    - destruct Hne. by eapply Hj.
    - destruct (ok_inode _ _ _ _ (Hn n) _ _ Ht). congruence. }
  split; [|done]. split.
  - intros n. destruct (decide (n = n0)) as [->|Hne]; [done|].
    eapply name_ok_same; eauto.
  - assert (∀ d d' n h, n ≠ n0 → σ'.(links) !! (d, n) = Some h →
      σ'.(links) !! (d', n0) = Some h → False) as Hx.
    { intros d d' n h Hne H1 H2. rewrite Hl in H1 by done.
      destruct (Hl0 _ _ H2) as [[d0 H0]|E].
      - destruct Hne. by eapply Hj.
      - destruct (ok_inode _ _ _ _ (Hn n) _ _ H1). congruence. }
    intros d d' n n' h H1 H2.
    destruct (decide (n = n0)) as [->|Hne], (decide (n' = n0)) as [->|Hne']; try done.
    + exfalso. eauto.
    + exfalso. eauto.
    + rewrite Hl in H1, H2 by done. by eapply Hj.
Qed.

(** ** One call of a process *)
Section Simulation.
Variables faulty short : bool.
Variable pid : nat.

Abbreviation silent := (fun b b' => box_step faulty short b None b').

(** What a call does: the view moves on, the mailbox follows with steps that are not seen,
    and nothing of another process changes, nor of the messages the process holds apart
    from the one the view is about. *)
Definition step_result σ B L (P : gmap nat progress) v c r σ' : Prop :=
  ∃ v' B' L', vstep faulty short v c r v' ∧
    rtc silent (mkMailbox B P) (mkMailbox B' (<[pid := view_progress v']> P)) ∧
    inv σ' B' L' ∧ view_ok σ' B' L' pid v' ∧
    (∀ q n, owned q B L n → (q = pid → view_name v ≠ Some n) → same_at σ B L σ' B' L' n) ∧
    (∀ n, view_name v' = Some n → view_name v = Some n ∨ ¬ ∃ m, B !! n = Some (m, Held pid)).

(** Nothing changes but what the process knows. *)
Lemma result_know σ B L P v v' c r : inv σ B L → P !! pid = Some (view_progress v) →
  vstep faulty short v c r v' → view_progress v' = view_progress v →
  view_name v' = view_name v → view_ok σ B L pid v' → step_result σ B L P v c r σ.
Proof.
  intros Hi HP Hv Hp Hn Hok. exists v', B, L. split_and!; try done.
  - by rewrite Hp, insert_id.
  - rewrite Hn. auto.
Qed.

Lemma result_stay σ B L P v c r : inv σ B L → P !! pid = Some (view_progress v) →
  view_ok σ B L pid v → vstep faulty short v c r v → step_result σ B L P v c r σ.
Proof. intros. by eapply result_know. Qed.

(** The name that changes is the view's, or no process's. *)
Lemma result_at n0 σ B L P v c r σ' v' B' L' :
  (inv σ' B' L' ∧ ∀ n, n ≠ n0 → same_at σ B L σ' B' L' n) →
  vstep faulty short v c r v' →
  rtc silent (mkMailbox B P) (mkMailbox B' (<[pid := view_progress v']> P)) →
  view_ok σ' B' L' pid v' →
  (∀ q, owned q B L n0 → q = pid ∧ view_name v = Some n0) →
  (view_name v' = None ∨ view_name v' = Some n0) →
  step_result σ B L P v c r σ'.
Proof.
  intros [Hi Hs] Hv Hr Hok Ho Hn. exists v', B', L'. split_and!; try done.
  - intros q n Hq Hne. apply Hs. intros ->. destruct (Ho q Hq) as [-> E]. by apply (Hne eq_refl).
  - intros n E. destruct Hn as [Hn|Hn]; rewrite Hn in E; [done|]. injection E as <-.
    destruct (decide (view_name v = Some n0)) as [|Hne]; [auto|]. right. intros [m Hm].
    destruct (Ho pid) as [_ E]; [by left; exists m|]. done.
Qed.

Lemma silent_once B P B' P' : box_step faulty short (mkMailbox B P) None (mkMailbox B' P') →
  rtc silent (mkMailbox B P) (mkMailbox B' P').
Proof. intros. by eapply rtc_once. Qed.

Lemma silent_none B P v v' : P !! pid = Some (view_progress v) →
  view_progress v' = view_progress v →
  rtc silent (mkMailbox B P) (mkMailbox B (<[pid := view_progress v']> P)).
Proof. intros HP E. by rewrite E, insert_id. Qed.

(** The names in the directories are those of the mailbox. *)
Lemma new_waiting σ B L d n h : name_ok σ B L n → d = NEW ∨ d = POST →
  σ.(links) !! (d, n) = Some h → ∃ m, B !! n = Some (m, Waiting) ∧ L !! n = None ∧ content σ n m.
Proof.
  intros [_ _ H _] [-> | ->] Hl; destruct (B !! n) as [[m [|p]]|]; naive_solver.
Qed.

Lemma held_content σ B L n m q : name_ok σ B L n → B !! n = Some (m, Held q) →
  σ.(links) !! (NEW, n) = None ∧ σ.(links) !! (POST, n) = None ∧ L !! n = None ∧ content σ n m.
Proof. intros [_ _ H _] E. by rewrite E in H. Qed.

Lemma limbo_links σ B L n q w : name_ok σ B L n → L !! n = Some (q, w) →
  B !! n = None ∧ (∀ d, visible d = true → σ.(links) !! (d, n) = None) ∧
  ∃ h, σ.(links) !! (TMP, n) = Some h ∧ (w = true → σ.(links) !! (UNDELIVERABLE, n) ≠ Some h).
Proof.
  intros [_ _ H _] E. destruct (B !! n) as [[m [|p]]|].
  - destruct H as (_ & H & _). congruence.
  - destruct H as (_ & _ & H & _). congruence.
  - rewrite E in H. destruct H as (? & ? & ? & ?). split_and!; try done.
    intros d Hd. by destruct d.
Qed.

Lemma no_tmp σ B L n : name_ok σ B L n → σ.(links) !! (TMP, n) = None →
  B !! n = None ∧ L !! n = None ∧ ∀ d, visible d = true → σ.(links) !! (d, n) = None.
Proof.
  intros [H1 _ H _] Ht.
  assert (∀ d, visible d = true → σ.(links) !! (d, n) = None) as Hd.
  { intros d Hd. destruct (σ.(links) !! (d, n)) as [h|] eqn:E; [|done].
    apply H1 in E; [congruence|done]. }
  split_and!; [| |done].
  - destruct (B !! n) as [[m [|p]]|]; [| |done]; unfold content in H; naive_solver.
  - destruct (B !! n) as [[m [|p]]|]; [naive_solver..|].
    destruct (L !! n) as [[q w]|]; [|done]. naive_solver.
Qed.
End Simulation.
