(* ===== verification/MaildirSim.v ===== *)
(** * Mail directories: the simulation

    Every call that a view admits, whatever its result, keeps the invariant of
    [MaildirProps] and is followed by the mailbox; from this, the refinement theorem of the
    mail directory and what it means for messages. *)
From Stdlib Require Import ZArith Lia Ascii.
From stdpp Require Import base option list strings numbers gmap relations.
From S2P Require Import Prelude CLib Maildir MaildirProps.
#[local] Open Scope Z_scope.

(** Look-ups in a directory after an entry was changed. *)
Ltac links_simpl :=
  repeat match goal with
  | H : context [<[?k := _]> _ !! ?k] |- _ => rewrite lookup_insert_eq in H
  | H : context [<[_ := _]> _ !! _] |- _ => rewrite lookup_insert_ne in H by congruence
  | H : context [delete ?k _ !! ?k] |- _ => rewrite lookup_delete_eq in H
  | H : context [delete _ _ !! _] |- _ => rewrite lookup_delete_ne in H by congruence
  | |- context [<[?k := _]> _ !! ?k] => rewrite lookup_insert_eq
  | |- context [<[_ := _]> _ !! _] => rewrite lookup_insert_ne by congruence
  | |- context [delete ?k _ !! ?k] => rewrite lookup_delete_eq
  | |- context [delete _ _ !! _] => rewrite lookup_delete_ne by congruence
  end.

Lemma delete_none (σ : fs) k : σ.(links) !! k = None → σ = σ <| links := delete k σ.(links) |>.
Proof. intros E. rewrite delete_id by done. by destruct σ. Qed.

Section Cases.
Variables faulty short : bool.
Variable pid : nat.
Variables (σ : fs) (B : gmap string (string * status)) (L : limbo) (P : gmap nat progress).
Hypothesis Hinv : inv σ B L.

Abbreviation result_of := (step_result faulty short pid σ B L P).

Lemma case_open m n h : P !! pid = Some (PStore m) →
  σ.(links) !! (TMP, n) = None → σ.(inodes) !! h = None →
  result_of (VStore m) (Open_excl TMP n) (RFd h)
    (σ <| links := <[(TMP, n) := h]> σ.(links) |> <| inodes := <[h := ""%string]> σ.(inodes) |>).
Proof.
  intros HP Ht Hh. pose proof (inv_name _ _ _ Hinv n) as Hn.
  destruct (no_tmp _ _ _ _ Hn Ht) as (HB & HL & Hv).
  eapply (result_at _ _ _ n) with (v' := VWriting m n h "") (B' := B) (L' := <[n := (pid, true)]> L).
  - apply step_at; cbn; try done.
    + intros. links_simpl. done.
    + intros. links_simpl. done.
    + intros h' Hh'. destruct (decide (h' = h)) as [->|]; links_simpl; done.
    + intros h'. destruct (decide (h' = h)) as [->|]; links_simpl; auto.
    + intros d h' E. destruct (decide (d = TMP)) as [->|]; links_simpl; [|by eauto].
      injection E as <-. auto.
    + split; cbn.
      * intros d h' Hd E. destruct (decide (d = TMP)) as [->|]; [done|]. links_simpl.
        rewrite Hv in E by done. done.
      * intros d d' h1 h2 Hd Hd' E1 E2.
        destruct (decide (d = TMP)) as [->|]; [done|]. links_simpl.
        rewrite Hv in E1 by done. done.
      * rewrite HB. links_simpl. rewrite !Hv by done. split_and!; try done.
        exists h. split; [done|]. intros _ E.
        destruct (ok_inode _ _ _ _ Hn _ _ E). congruence.
      * intros d h' E. destruct (decide (h' = h)) as [->|]; links_simpl; [done|].
        destruct (decide (d = TMP)) as [->|]; links_simpl; [congruence|].
        eapply ok_inode; [apply Hn|done].
  - constructor.
  - by apply (silent_none _ _ _ _ _ (VStore m)).
  - cbn. links_simpl. done.
  - intros q [[m' E]|[w E]]; congruence.
  - auto.
Qed.

Lemma case_write m n h c data k : P !! pid = Some (PStore m) →
  view_ok σ B L pid (VWriting m n h c) → (k <= String.length data)%nat →
  (short = false → k = String.length data) →
  result_of (VWriting m n h c) (Write h data) (RCount (Z.of_nat k))
    (σ <| inodes := <[h := (c +:+ str_take k data)%string]> σ.(inodes) |>).
Proof.
  intros HP (HL & Ht & Hc) Hk Hs. pose proof (inv_name _ _ _ Hinv n) as Hn.
  eapply (result_at _ _ _ n) with (v' := VWriting m n h (c +:+ str_take k data)) (B' := B) (L' := L).
  - apply step_at; cbn; try done.
    + intros h' Hh'. destruct (decide (h' = h)) as [->|]; links_simpl; done.
    + intros h'. destruct (decide (h' = h)) as [->|]; links_simpl; auto.
    + eauto.
    + destruct (limbo_links _ _ _ _ _ _ Hn HL) as (HB & _). destruct Hn as [H1 H2 H3 H4].
      split; cbn; [done..| |].
      * rewrite HB in *. done.
      * intros d h' E. destruct (decide (h' = h)) as [->|]; links_simpl; [done|]. eauto.
  - by constructor.
  - by apply (silent_none _ _ _ _ _ (VWriting m n h c)).
  - cbn. links_simpl. done.
  - intros q [[m' E]|[w E]].
    + destruct (limbo_links _ _ _ _ _ _ Hn HL) as (HB & _). congruence.
    + split; [congruence|done].
  - auto.
Qed.

(** Entries of one name change. *)
Lemma step_links n l' B' L' :
  (∀ n' d, n' ≠ n → l' !! (d, n') = σ.(links) !! (d, n')) →
  (∀ n', n' ≠ n → B' !! n' = B !! n') → (∀ n', n' ≠ n → L' !! n' = L !! n') →
  (∀ d h, l' !! (d, n) = Some h → ∃ d0, σ.(links) !! (d0, n) = Some h) →
  name_ok (σ <| links := l' |>) B' L' n →
  inv (σ <| links := l' |>) B' L' ∧ ∀ n', n' ≠ n → same_at σ B L (σ <| links := l' |>) B' L' n'.
Proof. intros. apply step_at; cbn; eauto. Qed.

(** The decision of all look-ups of a folder. *)
Ltac folders :=
  repeat match goal with
  | d : folder, E : context [_ !! (?d, _)] |- _ =>
    match type of E with context [<[(?e, _) := _]> _] => destruct (decide (d = e)) as [->|] end; links_simpl
  | d : folder, E : context [_ !! (?d, _)] |- _ =>
    match type of E with context [delete (?e, _) _] => destruct (decide (d = e)) as [->|] end; links_simpl
  end.

Ltac other_names := intros; links_simpl; done.

Lemma case_put m n h c : P !! pid = Some (PStore m) →
  view_ok σ B L pid (VWriting m n h c) → copy_of short m c →
  Z.of_nat (String.length c) < max_message →
  result_of (VWriting m n h c) (Link TMP NEW n) ROk
    (σ <| links := <[(NEW, n) := h]> σ.(links) |>).
Proof.
  intros HP (HL & Ht & Hc) Hcopy Hlen. pose proof (inv_name _ _ _ Hinv n) as Hn.
  destruct (limbo_links _ _ _ _ _ _ Hn HL) as (HB & Hv & h' & Ht' & Hu).
  assert (h' = h) as -> by congruence. specialize (Hu eq_refl).
  eapply (result_at _ _ _ n) with (v' := VReply 0) (B' := <[n := (c, Waiting)]> B)
    (L' := delete n L).
  - apply step_links; [other_names..| |].
    + intros d h' E. folders; [|by eauto]. injection E as <-. eauto.
    + split; cbn.
      * intros d h' Hd E. links_simpl. folders; [congruence|]. rewrite Hv in E by done. done.
      * intros d d' h1 h2 Hd Hd' E1 E2. folders; try done; rewrite Hv in * by done; done.
      * links_simpl. split_and!; [left; by eexists|done|]. exists h. cbn. links_simpl. done.
      * intros d h' E. folders; [injection E as <-; by eexists|]. eapply ok_inode; [apply Hn|done].
  - constructor.
  - apply silent_once. by eapply B_put.
  - done.
  - intros q [[m' E]|[w E]]; [congruence|]. split; [congruence|done].
  - auto.
Qed.

Lemma case_take_mail d n h : P !! pid = Some PStart → d = NEW ∨ d = POST →
  σ.(links) !! (d, n) = Some h →
  result_of VStart (Rename d WORK n) ROk
    (σ <| links := <[(WORK, n) := h]> (delete (d, n) σ.(links)) |>).
Proof.
  intros HP Hd Hl. pose proof (inv_name _ _ _ Hinv n) as Hn.
  destruct (new_waiting _ _ _ _ _ _ Hn Hd Hl) as (m & HB & HL & (h' & Ht & Hm & Hu & Hlen)).
  assert (visible d = true) as Hvd by (destruct Hd as [-> | ->]; done).
  assert (d ≠ WORK) as Hdw by (destruct Hd as [-> | ->]; done).
  assert (d ≠ TMP ∧ d ≠ UNDELIVERABLE) as [Hdt Hdu] by (destruct Hd as [-> | ->]; done).
  assert (h' = h) as -> by (pose proof (ok_tmp _ _ _ _ Hn _ _ Hvd Hl); congruence).
  assert (∀ e, visible e = true → e ≠ d → σ.(links) !! (e, n) = None) as Hno.
  { intros e He Hne. destruct (σ.(links) !! (e, n)) eqn:E; [|done].
    destruct Hne. by eapply (ok_one _ _ _ _ Hn). }
  eapply (result_at _ _ _ n) with (v' := VTaken n) (B' := <[n := (m, Held pid)]> B) (L' := L).
  - apply step_links; [other_names|other_names|done| |].
    + intros e h' E. folders; [injection E as <-; eauto|done|eauto].
    + assert (∀ e, visible e = true → e ≠ WORK →
        (<[(WORK, n) := h]> (delete (d, n) σ.(links))) !! (e, n) = None) as Hno'.
      { intros e He Hne. links_simpl. destruct (decide (e = d)) as [->|]; links_simpl; auto. }
      split; cbn.
      * intros e h' He E. links_simpl. destruct (decide (e = WORK)) as [->|].
        { links_simpl. congruence. }
        rewrite Hno' in E by done. done.
      * intros e e' h1 h2 He He' E1 E2.
        destruct (decide (e = WORK)) as [->|]; [|rewrite Hno' in E1 by done; done].
        destruct (decide (e' = WORK)) as [->|]; [done|rewrite Hno' in E2 by done; done].
      * rewrite lookup_insert_eq, (Hno' NEW), (Hno' POST) by done. split_and!; try done.
        exists h. cbn. links_simpl. done.
      * intros e h' E. folders; [injection E as <-; by eexists|done|].
        eapply ok_inode; [apply Hn|done].
  - constructor.
  - apply silent_once. by eapply B_take.
  - cbn. links_simpl. split; [by eexists|by eexists].
  - intros q [[m' E]|[w E]]; congruence.
  - auto.
Qed.

Lemma case_expire n h : P !! pid = Some PStart →
  σ.(links) !! (POST, n) = Some h →
  result_of VStart (Rename POST UNDELIVERABLE n) ROk
    (σ <| links := <[(UNDELIVERABLE, n) := h]> (delete (POST, n) σ.(links)) |>).
Proof.
  intros HP Hl. pose proof (inv_name _ _ _ Hinv n) as Hn.
  destruct (new_waiting _ _ _ _ _ _ Hn (or_intror eq_refl) Hl) as (m & HB & HL & (h' & Ht & Hm & Hu & Hlen)).
  assert (∀ e, visible e = true → e ≠ POST → σ.(links) !! (e, n) = None) as Hno.
  { intros e He Hne. destruct (σ.(links) !! (e, n)) eqn:E; [|done].
    destruct Hne. by eapply (ok_one _ _ _ _ Hn). }
  eapply (result_at _ _ _ n) with (v' := VExpiring n) (B' := delete n B)
    (L' := <[n := (pid, false)]> L).
  - apply step_links; [other_names..| |].
    + intros e h'' E. folders; [injection E as <-; eauto|done|eauto].
    + assert (∀ e, visible e = true →
        (<[(UNDELIVERABLE, n) := h]> (delete (POST, n) σ.(links))) !! (e, n) = None) as Hno'.
      { intros e He. destruct (decide (e = UNDELIVERABLE)) as [->|]; [done|]. links_simpl.
        destruct (decide (e = POST)) as [->|]; links_simpl; auto. }
      split; cbn.
      * intros e h'' He E. rewrite Hno' in E by done. done.
      * intros e e' h1 h2 He He' E1 E2. rewrite Hno' in E1 by done. done.
      * rewrite lookup_delete_eq, lookup_insert_eq, (Hno' NEW), (Hno' POST), (Hno' WORK) by done.
        split_and!; try done.
        exists h'. links_simpl. done.
      * intros e h'' E. folders; [injection E as <-|done|]; eapply ok_inode; try apply Hn; done.
  - constructor.
  - change (<[pid := view_progress (VExpiring n)]> P) with (<[pid := PStart]> P).
    rewrite (insert_id P) by done. apply silent_once. by eapply B_expire.
  - cbn. links_simpl. done.
  - intros q [[m' E]|[w E]]; congruence.
  - auto.
Qed.

(** The removal from tmp of a message that is gone from the mailbox. *)
Lemma case_unlink_tmp v v' n r : P !! pid = Some (view_progress v) →
  L !! n = Some (pid, false) → view_name v = Some n → view_name v' = None →
  view_progress v' = view_progress v → vstep faulty short v (Unlink TMP n) r v' →
  (∀ σ B L, view_ok σ B L pid v') →
  result_of v (Unlink TMP n) r (σ <| links := delete (TMP, n) σ.(links) |>).
Proof.
  intros HP HL Hv Hv' Hp Hs Hok. pose proof (inv_name _ _ _ Hinv n) as Hn.
  destruct (limbo_links _ _ _ _ _ _ Hn HL) as (HB & Hno & h' & Ht & _).
  eapply (result_at _ _ _ n) with (v' := v') (B' := B) (L' := delete n L).
  - apply step_links; [other_names|done|other_names| |].
    + intros e h'' E. folders; [done|eauto].
    + split; cbn.
      * intros e h'' He E. folders; [done|]. rewrite Hno in E by done. done.
      * intros e e' h1 h2 He He' E1 E2. folders; try done. rewrite Hno in E1 by done. done.
      * rewrite HB. links_simpl. rewrite !Hno by done. done.
      * intros e h'' E. folders; [done|]. eapply ok_inode; [apply Hn|done].
  - done.
  - by apply (silent_none _ _ _ _ _ v).
  - apply Hok.
  - intros q [[m' E]|[w E]]; [congruence|]. rewrite HL in E. injection E as <- <-. done.
  - auto.
Qed.

(** The end of a held message takes it out of work; for the mailbox it is gone, unless it is
    to be tried again. *)
Lemma case_end n t m r : P !! pid = Some (PEnd n t) → B !! n = Some (m, Held pid) →
  result_of (VEnd n t) (Unlink WORK n) r (σ <| links := delete (WORK, n) σ.(links) |>).
Proof.
  intros HP HB. pose proof (inv_name _ _ _ Hinv n) as Hn.
  destruct (held_content _ _ _ _ _ _ Hn HB) as (HN & HPo & HL & (h & Ht & Hm & Hu & Hlen)).
  assert (∀ e, visible e = true → delete (WORK, n) σ.(links) !! (e, n) = None) as Hno.
  { intros e He. destruct (decide (e = WORK)) as [->|]; links_simpl; [done|]. by destruct e. }
  assert (∀ B' L',
    match B' !! n with
    | Some (m', Held q) => m' = m ∧ L' !! n = None
    | Some (_, Waiting) => False
    | None => match L' !! n with Some (_, w) => w = false | None => True end
    end → name_ok (σ <| links := delete (WORK, n) σ.(links) |>) B' L' n) as Hok.
  { intros B' L' H. split; cbn.
    - intros e h' He E. rewrite Hno in E by done. done.
    - intros e e' h1 h2 He He' E1 E2. rewrite Hno in E1 by done. done.
    - rewrite (Hno NEW), (Hno POST), (Hno WORK) by done.
      destruct (B' !! n) as [[m' [|q]]|]; [done| |].
      + destruct H as [-> ->]. split_and!; try done. exists h. cbn. links_simpl. done.
      + split_and!; [done..|]. destruct (L' !! n) as [[q w]|]; [|done]. subst w.
        split; [done|]. exists h. links_simpl. done.
    - intros e h' E. folders; [done|]. eapply ok_inode; [apply Hn|done]. }
  assert (∀ d h', delete (WORK, n) σ.(links) !! (d, n) = Some h' →
    ∃ d0, σ.(links) !! (d0, n) = Some h') as Hold by (intros d h' E; folders; [done|eauto]).
  assert (∀ q, owned q B L n → q = pid ∧ Some n = Some n) as Hown.
  { intros q [[m' E]|[w E]]; [|congruence]. rewrite HB in E. injection E as <- <-. done. }
  assert (vstep faulty short (VEnd n t) (Unlink WORK n) r (ended n t)) as Hs by constructor.
  revert Hs. unfold ended. destruct (Z.eqb_spec t LBMD_TRANS_OK) as [->|Ht1].
  { intros Hs. eapply (result_at _ _ _ n) with (v' := VClosing n) (B' := delete n B)
      (L' := <[n := (pid, false)]> L); try done.
    - apply step_links; [other_names..|done|]. apply Hok. links_simpl. done.
    - apply silent_once. eapply B_done; [done|auto].
    - cbn. links_simpl. done.
    - auto. }
  destruct (Z.eqb_spec t LBMD_TRANS_FAILED) as [->|Ht2].
  { intros Hs. eapply (result_at _ _ _ n) with (v' := VReply 0) (B' := delete n B)
      (L' := L); try done.
    - apply step_links; [other_names|other_names|done|done|]. apply Hok. links_simpl. by rewrite HL.
    - apply silent_once. eapply B_done; [done|auto].
    - auto. }
  intros Hs. eapply (result_at _ _ _ n) with (v' := VPosting n t) (B' := B) (L' := L); try done.
  - apply step_links; [other_names|done|done|done|]. apply Hok. by rewrite HB.
  - by apply (silent_none _ _ _ _ _ (VEnd n t)).
  - cbn. links_simpl. split; [by eexists|done].
  - auto.
Qed.

Lemma case_requeue n t m h : P !! pid = Some (PEnd n t) → is_end t = false →
  B !! n = Some (m, Held pid) → σ.(links) !! (WORK, n) = None → σ.(links) !! (TMP, n) = Some h →
  result_of (VPosting n t) (Link TMP POST n) ROk (σ <| links := <[(POST, n) := h]> σ.(links) |>).
Proof.
  intros HP Hend HB HW Htmp. pose proof (inv_name _ _ _ Hinv n) as Hn.
  destruct (held_content _ _ _ _ _ _ Hn HB) as (HN & HPo & HL & (h' & Ht & Hm & Hu & Hlen)).
  assert (h' = h) as -> by congruence.
  assert (∀ e, visible e = true → e ≠ POST → <[(POST, n) := h]> σ.(links) !! (e, n) = None) as Hno.
  { intros e He Hne. links_simpl. by destruct e. }
  eapply (result_at _ _ _ n) with (v' := VReply 0) (B' := <[n := (m, Waiting)]> B) (L' := L).
  - apply step_links; [other_names|other_names|done| |].
    + intros e h' E. folders; [injection E as <-|]; eauto.
    + split; cbn.
      * intros e h' He E. destruct (decide (e = POST)) as [->|]; links_simpl; [congruence|].
        specialize (Hno _ He n0). links_simpl. congruence.
      * intros e e' h1 h2 He He' E1 E2.
        destruct (decide (e = POST)) as [->|]; [|rewrite Hno in E1 by done; done].
        destruct (decide (e' = POST)) as [->|]; [done|rewrite Hno in E2 by done; done].
      * links_simpl. split_and!; [right; by eexists|done|]. exists h. cbn. links_simpl. done.
      * intros e h' E. folders; [injection E as <-|]; eapply ok_inode; try apply Hn; done.
  - constructor.
  - apply orb_false_iff in Hend as [E1 E2]. apply Z.eqb_neq in E1, E2.
    apply silent_once. by eapply B_requeue.
  - done.
  - intros q [[m' E]|[w E]]; [|congruence]. rewrite HB in E. injection E as <- <-. done.
  - auto.
Qed.

(** Calls that cannot have another result. *)
Lemma rename_distinct d n h : d = NEW ∨ d = POST → σ.(links) !! (d, n) = Some h →
  σ.(links) !! (WORK, n) ≠ Some h ∧ σ.(links) !! (UNDELIVERABLE, n) ≠ Some h.
Proof.
  intros Hd E. pose proof (inv_name _ _ _ Hinv n) as Hn.
  destruct (new_waiting _ _ _ _ _ _ Hn Hd E) as (m & _ & _ & (h' & Ht & _ & Hu & _)).
  assert (visible d = true) as Hv by (destruct Hd as [-> | ->]; done).
  rewrite (ok_tmp _ _ _ _ Hn _ _ Hv E) in Ht. injection Ht as <-. split; [|done].
  intros E'. pose proof (ok_one _ _ _ _ Hn d WORK _ _ Hv eq_refl E E'). destruct Hd; congruence.
Qed.

Lemma limbo_tmp n q w : L !! n = Some (q, w) → σ.(links) !! (TMP, n) ≠ None.
Proof.
  intros HL E. destruct (no_tmp _ _ _ _ (inv_name _ _ _ Hinv n) E) as (_ & HL' & _). congruence.
Qed.

Lemma held_tmp n m q : B !! n = Some (m, Held q) →
  ∃ h, σ.(links) !! (TMP, n) = Some h ∧ σ.(inodes) !! h = Some m ∧
    Z.of_nat (String.length m) < max_message ∧ σ.(links) !! (POST, n) = None.
Proof.
  intros HB. destruct (held_content _ _ _ _ _ _ (inv_name _ _ _ Hinv n) HB)
    as (_ & HP & _ & (h & ? & ? & _ & ?)). eauto 10.
Qed.

End Cases.

(** Every call that the view admits. *)
Lemma exec_step faulty short pid σ B L P v c r σ' : inv σ B L → P !! pid = Some (view_progress v) → view_ok σ B L pid v →
  allowed short v c → exec faulty short σ c r σ' →
  step_result faulty short pid σ B L P v c r σ'.
Proof.
  intros Hinv HP Hok Ha Hx.
  assert (∀ v, P !! pid = Some (view_progress v) → view_ok σ B L pid v →
    vstep faulty short v c r v → σ' = σ →
    step_result faulty short pid σ B L P v c r σ') as Hstay.
  { intros. subst. by apply result_stay. }
  assert (σ' = σ → (∃ e, r = RErr e ∧ faulty = true ∧
     match c with Unlink _ _ | Time | Gettimeofday => False | _ => True end ∧
     match e with EOTHER | EBADF => True | _ => False end) →
    step_result faulty short pid σ B L P v c r σ') as Href.
  { intros -> (e & -> & Hf & Hc & He). apply result_stay; try done. by constructor. }
  destruct v as [m|m n h c0| |n|n|n h m|n t|n|n t|code]; destruct c;
    cbn [allowed] in Ha; try contradiction;
    try (destruct d; try contradiction); try (destruct from; try contradiction; destruct to; try contradiction).
  all: inversion Hx; subst; clear Hx.
  all: try (apply Href; [reflexivity|]; eexists;
    split_and!; [reflexivity|first [reflexivity|assumption]|exact I|assumption]; fail).
  all: try (apply Hstay;
    [assumption|assumption|constructor; first [assumption|reflexivity]|reflexivity]; fail).
  - (* open *) eauto using case_open.
  - (* write *) pose proof Hok as (_ & _ & E).
    match goal with E' : _ !! h = Some _ |- _ => rewrite E in E'; injection E' as <- end.
    by eapply case_write.
  - (* link to new *) destruct Ha as (-> & ? & ?). destruct Hok as (? & ? & ?).
    assert (h0 = h) as -> by congruence. by eapply case_put.
  - destruct Ha as (-> & _ & _). destruct Hok as (HL & _ & _). by eapply limbo_tmp in HL.
  - destruct Ha as (-> & _ & _). destruct Hok as (HL & _ & _).
    destruct (limbo_links _ _ _ _ _ _ (inv_name _ _ _ Hinv n) HL) as (_ & Hv & _).
    rewrite Hv in * by done. done.
  - (* rename *) eauto using case_take_mail.
  - edestruct (rename_distinct _ _ _ Hinv NEW); eauto; done.
  - eauto using case_take_mail.
  - edestruct (rename_distinct _ _ _ Hinv POST); eauto; done.
  - eauto using case_expire.
  - edestruct (rename_distinct _ _ _ Hinv POST); eauto; done.
  - (* unlink the file of an old message *) subst.
    apply (case_unlink_tmp _ _ _ _ _ _ _ Hinv (VExpiring n) VStart); try done. constructor.
  - subst. by eapply limbo_tmp in Hok.
  - (* open the message *) subst. destruct Hok as [[m HB] _].
    destruct (held_tmp _ _ _ Hinv _ _ _ HB) as (h' & Ht & Hm & Hl & _).
    assert (h' = h) as ->.
    { match goal with E : _ !! (WORK, _) = Some _ |- _ =>
        apply (ok_tmp _ _ _ _ (inv_name _ _ _ Hinv n)) in E; [congruence|done] end. }
    apply (result_know _ _ _ _ _ _ _ _ (VReading n h m)); try done. by constructor.
  - subst. destruct Hok as [_ [h E]]. congruence.
  - (* read *) destruct Ha as (-> & _ & _). destruct Hok as (? & ? & E).
    match goal with E' : _ !! h = Some _ |- _ => rewrite E in E'; injection E' as <- end.
    apply result_stay; try done. constructor.
  - destruct Ha as (-> & _ & _). apply result_stay; try done. by constructor.
  - (* end *) subst. destruct Hok as [m HB]. by eapply case_end.
  - subst. destruct Hok as [m HB].
    match goal with E : _ !! (WORK, n) = None |- _ => rewrite (delete_none _ _ E) at 2 end.
    by eapply case_end.
  - subst.
    apply (case_unlink_tmp _ _ _ _ _ _ _ Hinv (VClosing n) (VReply 0)); try done. constructor.
  - subst. by eapply limbo_tmp in Hok.
  - (* link to post *) destruct Ha as [-> ?]. destruct Hok as [[m HB] ?]. by eapply case_requeue.
  - destruct Ha as [-> ?]. destruct Hok as [[m HB] ?]. destruct (held_tmp _ _ _ Hinv _ _ _ HB) as (? & ? & _).
    congruence.
  - destruct Ha as [-> ?]. destruct Hok as [[m HB] ?].
    destruct (held_tmp _ _ _ Hinv _ _ _ HB) as (? & ? & _ & _ & ?). congruence.
  - subst. destruct Hok as [[m HB] ?]. destruct (held_tmp _ _ _ Hinv _ _ _ HB) as (? & ? & _). congruence.
Qed.

(** ** The simulation *)
Section Refinement.
Variables faulty short : bool.

Abbreviation silent := (fun b b' => box_step faulty short b None b').

Record proc_sim (σ : fs) (B : gmap string (string * status)) (L : limbo) (P : gmap nat progress)
    (pid : nat) (p : proc) : Prop := {
  sim_messages : ∀ n t, p.(messages) !! n = Some t →
    ∃ m, B !! n = Some (m, Held pid) ∧ copy_of short m t;
  sim_running :
    match p.(running) with
    | None => P !! pid = Some PIdle
    | Some (_, prog) => ∃ v, P !! pid = Some (view_progress v) ∧ view_ok σ B L pid v ∧
        safe faulty short v prog (done_stream faulty short) ∧
        (∀ n, view_name v = Some n → p.(messages) !! n = None)
    end
}.

Definition sim (s : system) (b : mailbox) : Prop :=
  ∃ L, inv s.(sys_fs) b.(box) L ∧
    ∀ pid, match s.(procs) !! pid with
           | Some p => proc_sim s.(sys_fs) b.(box) L b.(progresses) pid p
           | None => b.(progresses) !! pid = None
           end.

Lemma box_runs_rtc tr b b' : box_runs faulty short tr b → rtc silent b b' →
  box_runs faulty short tr b'.
Proof. intros H Hr. induction Hr; [done|]. eauto using box_runs_silent. Qed.

(** What a process does leaves the others alone. *)
Lemma proc_sim_frame σ B L P σ' B' L' P' q p :
  (∀ n, owned q B L n → same_at σ B L σ' B' L' n) → P' !! q = P !! q →
  proc_sim σ B L P q p → proc_sim σ' B' L' P' q p.
Proof.
  intros Hf HP [H1 H2]. split.
  - intros n t Hn. destruct (H1 n t Hn) as (m & HB & Hc).
    destruct (Hf n) as [_ Hb _ _]; [left; by eexists|]. rewrite Hb. eauto.
  - rewrite HP. destruct (running p) as [[r prog]|]; [|done].
    destruct H2 as (w & HPw & Hok & Hs & Hm). exists w. split_and!; try done.
    eapply view_ok_same, Hok. intros n Hn. apply Hf. by eapply view_owned.
Qed.

(** The process that moved. *)
Lemma sim_update_mail s b pid p' b' σ' v L L' g :
  s.(procs) !! pid <> None →
  (∀ q, match s.(procs) !! q with
        | Some p => proc_sim s.(sys_fs) b.(box) L b.(progresses) q p
        | None => b.(progresses) !! q = None
        end) →
  inv σ' b'.(box) L' → b'.(progresses) = <[pid := g]> b.(progresses) →
  (∀ q n, owned q b.(box) L n → (q = pid → v ≠ Some n) →
     same_at s.(sys_fs) b.(box) L σ' b'.(box) L' n) →
  proc_sim σ' b'.(box) L' b'.(progresses) pid p' →
  sim (mkSystem σ' (<[pid := p']> s.(procs))) b'.
Proof.
  intros Hp Hall Hi HP Hf Hps. exists L'. split; [done|]. intros q. cbn.
  destruct (decide (q = pid)) as [->|Hq]; [by rewrite lookup_insert_eq|].
  rewrite lookup_insert_ne by done. specialize (Hall q).
  destruct (procs s !! q) as [p|] eqn:E.
  - rewrite HP. eapply proc_sim_frame, Hall; [|by rewrite lookup_insert_ne].
    intros n Ho. by apply (Hf q).
  - by rewrite HP, lookup_insert_ne.
Qed.

(** One call of a running process, which goes on with [next]. *)
Lemma sim_exec tr σ ps b pid p r c v σ' w L next :
  box_runs faulty short tr b → ps !! pid = Some p → inv σ b.(box) L →
  (∀ q, match ps !! q with
        | Some p => proc_sim σ b.(box) L b.(progresses) q p
        | None => b.(progresses) !! q = None
        end) →
  b.(progresses) !! pid = Some (view_progress w) → view_ok σ b.(box) L pid w →
  (∀ n, view_name w = Some n → p.(messages) !! n = None) →
  allowed short w c → exec faulty short σ c v σ' →
  (∀ w', vstep faulty short w c v w' → safe faulty short w' next (done_stream faulty short)) →
  ∃ b', box_runs faulty short tr b' ∧
    sim (mkSystem σ' (<[pid := p <| running := Some (r, next) |>]> ps)) b'.
Proof.
  intros Hr Hp Hi Hall HP Hok Hnone Ha Hx Hs. destruct b as [B P]. cbn in *.
  destruct (exec_step _ _ _ _ _ _ _ _ _ _ _ Hi HP Hok Ha Hx)
    as (w' & B' & L' & Hv & Hb & Hi' & Hok' & Hf & Hn).
  exists (mkMailbox B' (<[pid := view_progress w']> P)). split; [by eapply box_runs_rtc|].
  pose proof (Hall pid) as Hme. rewrite Hp in Hme. destruct Hme as [Hm _].
  eapply (sim_update_mail (mkSystem σ ps) (mkMailbox B P)); cbn; try done; [by rewrite Hp|].
  split; cbn.
  - intros n t Ht. destruct (Hm n t Ht) as (m & HB & Hc).
    destruct (Hf pid n) as [_ Hbn _ _]; [left; by eexists| |rewrite Hbn; eauto].
    intros _ E. specialize (Hnone _ E). congruence.
  - exists w'. rewrite lookup_insert_eq. split_and!; auto.
    intros n E. destruct (Hn n E) as [?|Hno]; [auto|].
    destruct (messages p !! n) as [t|] eqn:Ht; [|done]. destruct Hno.
    destruct (Hm n t Ht) as (m & ? & _). eauto.
Qed.

(** A name leaves the mailbox and the work of its process; its file may stay in tmp. *)
Lemma inv_forget σ B L q n : inv σ B L → owned q B L n →
  inv σ (delete n B) (delete n L) ∧
  ∀ n', n' ≠ n → same_at σ B L σ (delete n B) (delete n L) n'.
Proof.
  intros Hi Ho. apply (step_at n σ B L σ); try done.
  - intros. by rewrite lookup_delete_ne.
  - intros. by rewrite lookup_delete_ne.
  - auto.
  - eauto.
  - destruct (inv_name _ _ _ Hi n) as [H1 H2 H3 H4].
    assert (σ.(links) !! (NEW, n) = None ∧ σ.(links) !! (POST, n) = None) as [HN HPo].
    { destruct Ho as [[m E]|[w E]].
      - rewrite E in H3. naive_solver.
      - destruct (limbo_links _ _ _ _ _ _ (inv_name _ _ _ Hi n) E) as (_ & Hv & _). auto. }
    split; try done. by rewrite !lookup_delete_eq.
Qed.

(** A call returns a code. *)
Lemma sim_reply tr σ ps pid p r code dir B P B' L L' v g :
  box_runs faulty short tr (mkMailbox B P) → ps !! pid = Some p →
  (∀ q, match ps !! q with
        | Some p => proc_sim σ B L P q p
        | None => P !! q = None
        end) →
  P !! pid = Some g →
  (g = PReply code ∨ box_step faulty short (mkMailbox B P) None
                       (mkMailbox B' (<[pid := PReply code]> P))) →
  (g = PReply code → B' = B) → inv σ B' L' →
  (∀ q n, owned q B L n → (q = pid → v ≠ Some n) → same_at σ B L σ B' L' n) →
  (∀ n, v = Some n → p.(messages) !! n = None) →
  ∃ b', box_runs faulty short (tr ++ [LReturn pid (Code code)]) b' ∧
    sim (mkSystem σ (<[pid := finish p r (Code code) dir]> ps)) b'.
Proof.
  intros Hr Hp Hall HP Hstep HB Hi Hf Hnone.
  exists (mkMailbox B' (<[pid := PIdle]> P)). split.
  { destruct Hstep as [->|Hstep].
    - rewrite (HB eq_refl). eapply box_runs_visible; [done|]. by constructor.
    - assert (<[pid := PIdle]> P = <[pid := PIdle]> (<[pid := PReply code]> P)) as ->.
      { by rewrite insert_insert_eq. }
      eapply box_runs_visible; [by eapply box_runs_silent|]. constructor. by rewrite lookup_insert_eq. }
  pose proof (Hall pid) as Hme. rewrite Hp in Hme. destruct Hme as [Hm _].
  assert ((finish p r (Code code) dir).(messages) = p.(messages)) as Em by by destruct r.
  assert ((finish p r (Code code) dir).(running) = None) as Er by by destruct r.
  revert Em Er. generalize (finish p r (Code code) dir). intros p' Em Er.
  eapply (sim_update_mail (mkSystem σ ps) (mkMailbox B P)); cbn; try done; [by rewrite Hp|].
  split; [|by rewrite Er, lookup_insert_eq].
  rewrite Em. intros n t Ht. destruct (Hm n t Ht) as (m & E & Hc).
  destruct (Hf pid n) as [_ Hbn _ _]; [left; by eexists| |rewrite Hbn; eauto].
  intros _ Ev. specialize (Hnone _ Ev). congruence.
Qed.

(** The return of a call. *)
Lemma sim_return tr σ ps b pid p r v dir :
  box_runs faulty short tr b → sim (mkSystem σ ps) b → ps !! pid = Some p →
  p.(running) = Some (r, Done (v, dir)) →
  ∃ b', box_runs faulty short (tr ++ [LReturn pid v]) b' ∧
    sim (mkSystem σ (<[pid := finish p r v dir]> ps)) b'.
Proof.
  intros Hr (L & Hi & Hall) Hp Hrun. destruct b as [B P]. cbn in *.
  pose proof (Hall pid) as Hme. rewrite Hp in Hme. destruct Hme as [Hm Hw]. rewrite Hrun in Hw.
  destruct Hw as (w & HP & Hok & Hs & Hnone). cbn [safe] in Hs. unfold done_stream in Hs. cbn in Hs.
  assert (∀ n, view_name w = Some n → inv σ (delete n B) (delete n L) ∧
    ∀ q n', owned q B L n' → (q = pid → view_name w ≠ Some n') →
      same_at σ B L σ (delete n B) (delete n L) n') as Hforget.
  { intros n En. destruct (inv_forget σ B L pid n Hi) as [Hi' Hs']; [by eapply view_owned|].
    split; [done|]. intros q n' Hq Hne. apply Hs'. intros ->.
    destruct (decide (q = pid)) as [->|Hqp]; [by apply Hne|].
    eapply view_owned in Hok; [|done].
    destruct Hq as [[m E]|[u E]], Hok as [[m' E']|[u' E']]; try congruence.
    - destruct (held_content _ _ _ _ _ _ (inv_name _ _ _ Hi n) E) as (_ & _ & ? & _). congruence.
    - destruct (held_content _ _ _ _ _ _ (inv_name _ _ _ Hi n) E') as (_ & _ & ? & _). congruence. }
  destruct v as [code|text n'].
  - destruct w as [m|m n h c0| |n|n|n h m|n t|n|n t|code']; cbn [done_ok view_progress view_name] in *; try contradiction.
    + subst code. eapply (sim_reply _ _ _ _ _ _ _ _ B P B L L None);
        [done|done|done|done| |done|done|done|done].
      right. by eapply B_put_fails.
    + subst code. destruct (Hforget n eq_refl) as [Hi' Hf'].
      destruct Hok as (HL & _ & _).
      destruct (limbo_links _ _ _ _ _ _ (inv_name _ _ _ Hi n) HL) as (HB & _).
      rewrite delete_id in Hi', Hf' by done.
      eapply (sim_reply _ _ _ _ _ _ _ _ B P B L (delete n L) (Some n));
        [done|done|done|done| |by intros [=]|done|done|done].
      right. by eapply B_put_fails.
    + eapply (sim_reply _ _ _ _ _ _ _ _ B P B L L None);
        [done|done|done|done| |done|done|done|done].
      right. by eapply B_start_none.
    + destruct Hs as [-> Hf]. destruct (Hforget n eq_refl) as [Hi' Hf'].
      eapply (sim_reply _ _ _ _ _ _ _ _ B P (delete n B) L (delete n L) (Some n));
        [done|done|done|done| |by intros [=]|done|done|done].
      right. apply B_lose; [by left|done].
    + destruct Hs as [-> Hf]. destruct (Hforget n eq_refl) as [Hi' Hf'].
      eapply (sim_reply _ _ _ _ _ _ _ _ B P (delete n B) L (delete n L) (Some n));
        [done|done|done|done| |by intros [=]|done|done|done].
      right. apply B_lose; [by left|done].
    + destruct Hs as [-> Hf]. destruct (Hforget n eq_refl) as [Hi' Hf'].
      eapply (sim_reply _ _ _ _ _ _ _ _ B P (delete n B) L (delete n L) (Some n));
        [done|done|done|done| |by intros [=]|done|done|done].
      right. apply B_lose; [right; by eexists|done].
    + subst code. eapply (sim_reply _ _ _ _ _ _ _ _ B P B L L None);
        [done|done|done|done| |done|done|done|done]. by left.
  - destruct w as [m|m n h c0| |n|n|n h m|n t|n|n t|code']; cbn [done_ok view_progress view_name] in *; try contradiction.
    destruct Hs as [-> Hc]. destruct Hok as (HB & _ & _).
    exists (mkMailbox B (<[pid := PIdle]> P)). split.
    { eapply box_runs_visible; [done|]. by eapply B_got. }
    assert ((finish p r (Got text n) dir).(messages) = <[n := text]> p.(messages)) as Em
      by by destruct r.
    assert ((finish p r (Got text n) dir).(running) = None) as Er by by destruct r.
    revert Em Er. generalize (finish p r (Got text n) dir). intros p' Em Er.
    eapply (sim_update_mail (mkSystem σ ps) (mkMailbox B P) pid _ _ _ None L L); cbn; try done.
    { by rewrite Hp. }
    split; [|by rewrite Er, lookup_insert_eq].
    rewrite Em. intros n' t' Ht. destruct (decide (n' = n)) as [->|Hne].
    + rewrite lookup_insert_eq in Ht. injection Ht as <-. eauto.
    + rewrite lookup_insert_ne in Ht by done. eauto.
Qed.

Lemma sim_spawn σ ps b pid : sim (mkSystem σ ps) b → ps !! pid = None →
  box_step faulty short b None (mkMailbox b.(box) (<[pid := PIdle]> b.(progresses))) ∧
  sim (mkSystem σ (<[pid := mkProc None None ∅ None]> ps))
    (mkMailbox b.(box) (<[pid := PIdle]> b.(progresses))).
Proof.
  intros (L & Hi & Hall) Hp. destruct b as [B P]. cbn in *. split.
  { constructor. specialize (Hall pid). by rewrite Hp in Hall. }
  exists L. split; [done|]. intros q. cbn.
  destruct (decide (q = pid)) as [->|Hq].
  - rewrite lookup_insert_eq. split; cbn; [done|by rewrite lookup_insert_eq].
  - rewrite lookup_insert_ne by done. specialize (Hall q). destruct (ps !! q).
    + eapply proc_sim_frame, Hall; [intros; apply same_refl|by rewrite lookup_insert_ne].
    + by rewrite lookup_insert_ne.
Qed.

Lemma sim_call σ ps b pid p r : sim (mkSystem σ ps) b → ps !! pid = Some p →
  p.(running) = None → request_ok r = true →
  (∀ n t, r = TransEnd n t → is_Some (p.(messages) !! n)) →
  box_step faulty short b (Some (LCall pid r))
    (mkMailbox b.(box) (<[pid := request_progress r]> b.(progresses))) ∧
  sim (mkSystem σ (<[pid := p <| running := Some (r, start p r) |>
         <| messages := match r with TransEnd n _ => delete n p.(messages)
                        | _ => p.(messages) end |>]> ps))
    (mkMailbox b.(box) (<[pid := request_progress r]> b.(progresses))).
Proof.
  intros (L & Hi & Hall) Hp Hrun Hok Hend. destruct b as [B P]. cbn in *.
  pose proof (Hall pid) as Hme. rewrite Hp in Hme. destruct Hme as [Hm Hidle].
  rewrite Hrun in Hidle.
  assert (∀ n t, r = TransEnd n t → ∃ m, B !! n = Some (m, Held pid)) as Hheld.
  { intros n t E. destruct (Hend n t E) as [x Hx]. destruct (Hm n x Hx) as (m & ? & _). eauto. }
  split.
  { by constructor. }
  eapply (sim_update_mail (mkSystem σ ps) (mkMailbox B P) pid _ _ _ None L L); cbn; try done.
  { by rewrite Hp. }
  split; cbn.
  - intros n t Ht. assert (p.(messages) !! n = Some t) as Ht'; [|eauto].
    destruct r; try done. by apply lookup_delete_Some in Ht as [_ ?].
  - exists (request_view r). split_and!.
    + rewrite lookup_insert_eq. by destruct r.
    + destruct r; cbn; eauto.
    + by apply start_safe.
    + intros n E. destruct r; try done. injection E as <-. by rewrite lookup_delete_eq.
Qed.

(** The death of a process: what it owned is forgotten. *)
Definition box_without (pid : nat) (B : gmap string (string * status)) :=
  filter (fun e => held_by pid e.2 = false) B.
Definition limbo_without (pid : nat) (L : limbo) :=
  filter (fun e : string * (nat * bool) => e.2.1 ≠ pid) L.

Lemma owned_gone σ B L pid n : inv σ B L → owned pid B L n →
  box_without pid B !! n = None ∧ limbo_without pid L !! n = None.
Proof.
  intros Hi Ho. unfold box_without, limbo_without. rewrite !map_lookup_filter_None.
  destruct Ho as [[m E]|[w E]].
  - destruct (held_content _ _ _ _ _ _ (inv_name _ _ _ Hi n) E) as (_ & _ & HL & _).
    split; [|by left]. right. intros x Ex. rewrite E in Ex. injection Ex as <-.
    unfold held_by. cbn. by rewrite Nat.eqb_refl.
  - destruct (limbo_links _ _ _ _ _ _ (inv_name _ _ _ Hi n) E) as (HB & _).
    split; [by left|]. right. intros x Ex. rewrite E in Ex. injection Ex as <-. cbn. tauto.
Qed.

Lemma not_owned_stays σ B L pid n : ¬ owned pid B L n →
  same_at σ B L σ (box_without pid B) (limbo_without pid L) n.
Proof.
  intros Ho. unfold box_without, limbo_without. split; try done.
  - destruct (B !! n) as [[m s]|] eqn:E; [|apply map_lookup_filter_None; by left].
    apply map_lookup_filter_Some. split; [done|]. unfold held_by. cbn. destruct s as [|q]; [done|].
    apply Nat.eqb_neq. intros ->. apply Ho. left. by exists m.
  - destruct (L !! n) as [[q w]|] eqn:E; [|apply map_lookup_filter_None; by left].
    apply map_lookup_filter_Some. split; [done|]. cbn. intros ->. apply Ho. right. by exists w.
Qed.

Lemma owned_dec pid B L n : owned pid B L n ∨ ¬ owned pid B L n.
Proof.
  destruct (B !! n) as [[m s]|] eqn:EB.
  - destruct s as [|q]; [|destruct (decide (q = pid)) as [->|]; [left; left; by eexists|]].
    all: destruct (L !! n) as [[q' w]|] eqn:EL;
      [destruct (decide (q' = pid)) as [->|]; [left; right; by eexists|]|].
    all: right; intros [[x E]|[x E]]; congruence.
  - destruct (L !! n) as [[q' w]|] eqn:EL;
      [destruct (decide (q' = pid)) as [->|]; [left; right; by eexists|]|].
    all: right; intros [[x E]|[x E]]; congruence.
Qed.

Lemma owned_once σ B L p q n : inv σ B L → owned p B L n → owned q B L n → p = q.
Proof.
  intros Hi [[m E]|[w E]] [[m' E']|[w' E']]; try congruence.
  - destruct (held_content _ _ _ _ _ _ (inv_name _ _ _ Hi n) E) as (_ & _ & ? & _). congruence.
  - destruct (held_content _ _ _ _ _ _ (inv_name _ _ _ Hi n) E') as (_ & _ & ? & _). congruence.
Qed.

Lemma inv_without σ B L pid : inv σ B L → inv σ (box_without pid B) (limbo_without pid L).
Proof.
  intros Hi. split; [|apply Hi]. intros n. destruct (owned_dec pid B L n) as [Ho|Ho].
  - destruct (owned_gone _ _ _ _ _ Hi Ho) as [EB EL].
    destruct (inv_forget σ B L pid n Hi Ho) as [Hi' _].
    destruct (inv_name _ _ _ Hi' n) as [H1 H2 H3 H4]. split; try done.
    rewrite EB, EL. by rewrite !lookup_delete_eq in H3.
  - eapply name_ok_same; [by apply not_owned_stays|done|apply Hi].
Qed.

Lemma sim_die σ ps b pid p : sim (mkSystem σ ps) b → ps !! pid = Some p → faulty = true →
  ∃ b', box_step faulty short b (Some (LDie pid)) b' ∧ sim (mkSystem σ (delete pid ps)) b'.
Proof.
  intros (L & Hi & Hall) Hp Hf. destruct b as [B P]. cbn in *.
  exists (mkMailbox (box_without pid B) (delete pid P)). split.
  { apply B_die; [|done]. specialize (Hall pid). rewrite Hp in Hall. destruct Hall as [_ H].
    destruct (running p) as [[r prog]|]; [|by eexists]. destruct H as (v & E & _). by eexists. }
  exists (limbo_without pid L). split; [by apply inv_without|].
  intros q. cbn. destruct (decide (q = pid)) as [->|Hq]; [by rewrite !lookup_delete_eq|].
  rewrite lookup_delete_ne by done. specialize (Hall q). destruct (ps !! q) as [p'|].
  - eapply proc_sim_frame, Hall; [|by rewrite lookup_delete_ne].
    intros n Ho. apply not_owned_stays. intros Ho'. destruct Hq. by eapply owned_once.
  - by rewrite lookup_delete_ne.
Qed.

(** ** The refinement *)

Lemma sim_step s l s' tr b : box_runs faulty short tr b → sim s b →
  sys_step faulty short s l s' →
  ∃ b', box_runs faulty short (match l with Some l => tr ++ [l] | None => tr end) b' ∧ sim s' b'.
Proof.
  intros Hr Hs Hstep. destruct Hstep.
  - destruct (sim_spawn _ _ _ _ Hs H) as [? ?]. eauto using box_runs_silent.
  - destruct (sim_call _ _ _ _ _ _ Hs H H0 H1 H2) as [? ?]. eauto using box_runs_visible.
  - destruct Hs as (L & Hi & Hall). cbn in *. pose proof (Hall pid) as Hme. rewrite H in Hme.
    destruct Hme as [_ Hw]. rewrite H0 in Hw. destruct Hw as (w & HP & Hok & [Ha Hsafe] & Hnone).
    eapply sim_exec; eauto.
  - destruct Hs as (L & Hi & Hall). cbn in *. pose proof (Hall pid) as Hme. rewrite H in Hme.
    destruct Hme as [_ Hw]. rewrite H0 in Hw.
    destruct Hw as (w & HP & Hok & (Ha & Hintr & Hsafe) & Hnone).
    destruct (sim_exec tr σ ps b pid p r c (RErr EINTR) σ' w L (Again c k)) as (b' & ? & ?);
      try done.
    + intros w' Hv. apply Hintr in Hv as ->. cbn. done.
    + exists b'. split; [done|].
      assert (<[pid := p <| running := Some (r, Again c k) |>]> ps = ps) as <-; [|done].
      apply insert_id. rewrite H. rewrite <-H0. by destruct p.
  - destruct Hs as (L & Hi & Hall). cbn in *. pose proof (Hall pid) as Hme. rewrite H in Hme.
    destruct Hme as [_ Hw]. rewrite H0 in Hw.
    destruct Hw as (w & HP & Hok & (Ha & Hintr & Hsafe) & Hnone).
    eapply sim_exec; eauto.
  - eapply sim_return; eauto.
  - destruct (sim_die _ _ _ _ _ Hs H H0) as (b' & ? & ?). eauto using box_runs_visible.
Qed.

Lemma sim_runs tr s : runs faulty short tr s → ∃ b, box_runs faulty short tr b ∧ sim s b.
Proof.
  intros H. induction H as [|tr s s' H (b & Hb & Hs) Hstep|tr s l s' H (b & Hb & Hs) Hstep].
  - exists (mkMailbox ∅ ∅). split; [constructor|]. exists ∅. split.
    + split; cbn; [|intros *; by rewrite lookup_empty].
      intros n. split; cbn; intros *; rewrite ?lookup_empty; done.
    + intros pid. cbn. by rewrite !lookup_empty.
  - destruct (sim_step _ _ _ _ _ Hb Hs Hstep) as (b' & ? & ?). eauto.
  - destruct (sim_step _ _ _ _ _ Hb Hs Hstep) as (b' & ? & ?). eauto.
Qed.
End Refinement.
