(* ===== verification/MaildirRuns.v ===== *)
(** * Mail directories: what the refinement means

    The refinement theorem of the mail directory, what follows for the messages (one holder
    at a time, the text that was stored), and complete calls of a single process, from
    which runs are made. *)
From Stdlib Require Import ZArith Lia Ascii.
From stdpp Require Import base option list strings numbers gmap relations.
From S2P Require Import Prelude CLib Maildir MaildirProps MaildirSim.
#[local] Open Scope Z_scope.

(** ** The theorems *)

(** C20: Every run of processes over a mail directory, with their system calls in any order,
    is a run of the mailbox with the same calls, replies and deaths: a call to store puts
    the message under an unused name or does not, a start takes one waiting message or
    none, the end of a message removes it or puts it back.  The messages that a process has
    got are held by it in the mailbox, a waiting message has its file with its text in new
    or post, and no call has undefined behaviour. *)
Theorem maildir_refines faulty short tr s (H : runs faulty short tr s) :
  ∃ b, box_runs faulty short tr b ∧
    (∀ pid p n t, s.(procs) !! pid = Some p → p.(messages) !! n = Some t →
       ∃ m, b.(box) !! n = Some (m, Held pid) ∧ copy_of short m t) ∧
    (∀ n m, b.(box) !! n = Some (m, Waiting) →
       ∃ d h, d ∈ [NEW; POST] ∧ s.(sys_fs).(links) !! (d, n) = Some h ∧
         s.(sys_fs).(inodes) !! h = Some m) ∧
    (∀ pid p r w, s.(procs) !! pid = Some p → p.(running) ≠ Some (r, Fault w)).
Proof.
  destruct (sim_runs faulty short tr s H) as (b & Hb & L & Hi & Hall).
  exists b. split_and!; [done| | |].
  - intros pid p n t Hp Ht. specialize (Hall pid). rewrite Hp in Hall. eapply sim_messages; eauto.
  - intros n m E. destruct (inv_name _ _ _ Hi n) as [H1 _ H3 _]. rewrite E in H3.
    destruct H3 as (Hl & _ & (h & Ht & Hm & _)).
    destruct Hl as [[h' E']|[h' E']].
    + pose proof (H1 NEW _ eq_refl E') as E''. assert (h' = h) as -> by congruence.
      exists NEW, h. split_and!; [set_solver|done|done].
    + pose proof (H1 POST _ eq_refl E') as E''. assert (h' = h) as -> by congruence.
      exists POST, h. split_and!; [set_solver|done|done].
  - intros pid p r w Hp E. specialize (Hall pid). rewrite Hp in Hall.
    destruct Hall as [_ Hr]. rewrite E in Hr. by destruct Hr as (v & _ & _ & [] & _).
Qed.

(** Where the messages of the mailbox come from. *)
Lemma copy_trans short a b c : copy_of short a b → copy_of short b c → copy_of short a c.
Proof.
  intros [[u ->] H1] [[w ->] H2]. split; [exists (w +:+ u); by rewrite app_assoc_str|].
  intros E. specialize (H1 E). specialize (H2 E). congruence.
Qed.

Definition stored_in (short : bool) (tr : list label) (m : string) : Prop :=
  ∃ pid srv msg, LCall pid (StoreMsg srv msg) ∈ tr ∧ copy_of short msg m.

Lemma stored_more short tr l m : stored_in short tr m → stored_in short (tr ++ [l]) m.
Proof. intros (p & srv & msg & H & ?). exists p, srv, msg. set_solver. Qed.

Record box_origin (short : bool) (tr : list label) (b : mailbox) : Prop := {
  org_box : ∀ n e, b.(box) !! n = Some e → stored_in short tr e.1;
  org_store : ∀ pid msg, b.(progresses) !! pid = Some (PStore msg) →
    ∃ q srv, LCall q (StoreMsg srv msg) ∈ tr;
  org_got : ∀ pid t n, LReturn pid (Got t n) ∈ tr → stored_in short tr t
}.

Ltac map_cases :=
  repeat match goal with
  | H : <[_ := _]> _ !! _ = Some _ |- _ => apply lookup_insert_Some in H as [[? ?]|[? ?]]; simplify_eq
  | H : delete _ _ !! _ = Some _ |- _ => apply lookup_delete_Some in H as [? ?]
  | H : filter _ _ !! _ = Some _ |- _ => apply map_lookup_filter_Some in H as [? ?]
  end.

Lemma box_origin_silent faulty short tr b b' : box_origin short tr b →
  box_step faulty short b None b' → box_origin short tr b'.
Proof.
  intros [H1 H2 H3] Hs. inversion Hs; subst; split; cbn in *; intros; map_cases; eauto.
  - destruct (H2 _ _ H) as (q & srv & ?). by exists q, srv, msg.
  - exact (H1 _ _ H0).
  - exact (H1 _ _ H5).
Qed.

Lemma box_origin_visible faulty short tr b l b' : box_origin short tr b →
  box_step faulty short b (Some l) b' → box_origin short (tr ++ [l]) b'.
Proof.
  intros [H1 H2 H3] Hs.
  assert (∀ pid t n, LReturn pid (Got t n) ∈ tr ++ [l] →
    LReturn pid (Got t n) ∈ tr ∨ l = LReturn pid (Got t n)) as Hin.
  { intros pid t n Hx. apply elem_of_app in Hx as [Hx|Hx]; [by left|]. right. set_solver. }
  split.
  - intros n e E. apply stored_more. inversion Hs; subst; cbn in *; map_cases; eauto.
  - assert (∀ pid msg, b.(progresses) !! pid = Some (PStore msg) →
      ∃ q srv, LCall q (StoreMsg srv msg) ∈ tr ++ [l]) as Hold.
    { intros pid msg E. destruct (H2 _ _ E) as (q & srv & ?). exists q, srv. set_solver. }
    intros pid msg E. inversion Hs; subst; cbn in *; map_cases; eauto.
    destruct r; cbn in *; simplify_eq. exists pid, srvname. apply elem_of_app. right. set_solver.
  - intros pid t n Hx. apply Hin in Hx as [Hx| ->]; [by apply stored_more, (H3 pid t n)|].
    inversion Hs; subst. apply stored_more.
    match goal with E : _ !! n = Some (_, Held _) |- _ => apply H1 in E as (q & srv & msg & ? & ?) end.
    exists q, srv, msg. split; [done|]. by eapply copy_trans.
Qed.

Lemma box_runs_origin faulty short tr b : box_runs faulty short tr b → box_origin short tr b.
Proof.
  induction 1 as [|tr b b' H IH Hs|tr b l b' H IH Hs].
  - split; cbn; intros *; rewrite ?lookup_empty; try done. set_solver.
  - by eapply box_origin_silent.
  - by eapply box_origin_visible.
Qed.

(** C21: A message is in the hands of at most one process: two processes never hold a
    message of the same name, however their calls interleave and whatever fails.  Every
    text that a start returns was given to a call that stores before; it is its beginning,
    and all of it if no write is short and no read interrupted. *)
Theorem message_safety faulty short tr s (H : runs faulty short tr s) :
  (∀ p q sp sq n, p ≠ q → s.(procs) !! p = Some sp → s.(procs) !! q = Some sq →
     is_Some (sp.(messages) !! n) → sq.(messages) !! n = None) ∧
  (∀ pid t n, LReturn pid (Got t n) ∈ tr →
     ∃ q srv msg, LCall q (StoreMsg srv msg) ∈ tr ∧ str_prefix t msg ∧ (short = false → t = msg)).
Proof.
  destruct (sim_runs faulty short tr s H) as (b & Hb & L & Hi & Hall). split.
  - intros p q sp sq n Hne Hp Hq [t Ht].
    pose proof (Hall p) as H1. rewrite Hp in H1. pose proof (Hall q) as H2. rewrite Hq in H2.
    destruct (sim_messages _ _ _ _ _ _ _ _ H1 _ _ Ht) as (m & E & _).
    destruct (messages sq !! n) as [t'|] eqn:Ht'; [|done].
    destruct (sim_messages _ _ _ _ _ _ _ _ H2 _ _ Ht') as (m' & E' & _). congruence.
  - intros pid t n Hx.
    apply (org_got _ _ _ (box_runs_origin _ _ _ _ Hb)) in Hx as (q & srv & msg & ? & ? & ?). eauto 10.
Qed.

(** ** A process alone

    A call that no other process interferes with, from its program to its result. *)
Section Alone.
Variables faulty short : bool.

Inductive solves {R} : fs → prog R → R → fs → Prop :=
| sv_done σ r : solves σ (Done r) r σ
| sv_call σ c k v σ' r σ'' : exec faulty short σ c v σ' → solves σ' (k v) r σ'' →
    solves σ (Call c k) r σ''
| sv_again σ c k v σ' r σ'' : exec faulty short σ c v σ' → v ≠ RErr EINTR →
    solves σ' (k v) r σ'' → solves σ (Again c k) r σ''.

Lemma solves_bind {A R} (p : prog A) (f : A → prog R) σ a σ' r σ'' :
  solves σ p a σ' → solves σ' (f a) r σ'' → solves σ (pbind p f) r σ''.
Proof.
  intros H. induction H as [σ a|σ c k v σ1 a σ2 Hx H IH|σ c k v σ1 a σ2 Hx Hv H IH];
    intros Hf; cbn [pbind]; [done|econstructor; eauto|eapply sv_again; eauto].
Qed.

Lemma solves_runs tr σ (ps : gmap nat proc) pid p r prog x σ' : solves σ prog x σ' →
  runs faulty short tr (mkSystem σ ps) → ps !! pid = Some p → p.(running) = Some (r, prog) →
  runs faulty short tr (mkSystem σ' (<[pid := p <| running := Some (r, Done x) |>]> ps)).
Proof.
  intros H. revert ps p.
  induction H as [σ a|σ c k v σ1 a σ2 Hx H IH|σ c k v σ1 a σ2 Hx Hv H IH]; intros ps p Hr Hp Hrun.
  - assert (p <| running := Some (r, Done a) |> = p) as -> by (rewrite <-Hrun; by destruct p).
    by rewrite insert_id.
  - assert (runs faulty short tr
      (mkSystem σ1 (<[pid := p <| running := Some (r, k v) |>]> ps))) as Hr'.
    { eapply runs_silent; [done|]. by eapply S_exec. }
    pose proof (IH _ (p <| running := Some (r, k v) |>) Hr') as H'.
    rewrite lookup_insert_eq, insert_insert_eq in H'. by apply H'.
  - assert (runs faulty short tr
      (mkSystem σ1 (<[pid := p <| running := Some (r, k v) |>]> ps))) as Hr'.
    { eapply runs_silent; [done|]. by eapply S_once. }
    pose proof (IH _ (p <| running := Some (r, k v) |>) Hr') as H'.
    rewrite lookup_insert_eq, insert_insert_eq in H'. by apply H'.
Qed.

(** A whole call: from an idle process to an idle process. *)
Lemma solves_call tr σ (ps : gmap nat proc) pid p r v dir σ' :
  runs faulty short tr (mkSystem σ ps) → ps !! pid = Some p → p.(running) = None →
  request_ok r = true → match r with TransEnd _ _ => False | _ => True end →
  solves σ (start p r) (v, dir) σ' →
  runs faulty short (tr ++ [LCall pid r] ++ [LReturn pid v])
    (mkSystem σ' (<[pid := finish p r v dir]> ps)).
Proof.
  intros Hr Hp Hrun Hok Hend Hs.
  assert (runs faulty short (tr ++ [LCall pid r])
    (mkSystem σ (<[pid := p <| running := Some (r, start p r) |>
       <| messages := match r with TransEnd n _ => delete n p.(messages) | _ => p.(messages) end |>]> ps)))
    as Hr'.
  { eapply runs_visible; [done|]. apply S_call; try done. by intros n t ->. }
  eapply solves_runs in Hr'; [|done|by rewrite lookup_insert_eq|done].
  rewrite insert_insert_eq in Hr'. rewrite app_assoc.
  assert (<[pid := finish p r v dir]> ps = <[pid := finish
    (p <| running := Some (r, start p r) |>
       <| messages := match r with TransEnd n _ => delete n p.(messages) | _ => p.(messages) end |>
       <| running := Some (r, Done (v, dir)) |>) r v dir]>
    (<[pid := p <| running := Some (r, start p r) |>
       <| messages := match r with TransEnd n _ => delete n p.(messages) | _ => p.(messages) end |>
       <| running := Some (r, Done (v, dir)) |>]> ps)) as ->.
  { rewrite insert_insert_eq. f_equal. destruct p, r, v; done. }
  eapply runs_visible; [exact Hr'|]. eapply S_return; [by rewrite lookup_insert_eq|done].
Qed.

Lemma store_alone σ sec usec srv msg h k : (k <= String.length msg)%nat →
  (short = false → k = String.length msg) → Z.of_nat (String.length msg) < max_message →
  msg ≠ ""%string →
  let n := message_name sec usec srv in
  σ.(links) !! (TMP, n) = None → σ.(links) !! (NEW, n) = None → σ.(inodes) !! h = None →
  ∃ σ', solves σ (with_stream None (glite_lbu_MaildirStoreMsg srv msg)) (Code 0, None) σ' ∧
    σ'.(links) = <[(NEW, n) := h]> (<[(TMP, n) := h]> σ.(links)) ∧
    σ'.(inodes) !! h = Some (str_take k msg).
Proof.
  intros Hk Hs Hl Hne n Ht Hn Hh. eexists. split; [|split].
  - unfold with_stream, glite_lbu_MaildirStoreMsg. eapply solves_bind; [|by constructor].
    eapply solves_bind.
    { cbn [create_file]. eapply sv_call; [apply (X_gettimeofday _ _ _ sec usec)|].
      eapply sv_call; [by apply (X_open _ _ _ _ _ h)|]. constructor. }
    cbn beta iota. eapply solves_bind.
    { unfold write_message, max_message, BUFSIZ in *. rewrite s32_id by (unfold_int; lia).
      rewrite (proj2 (Z.ltb_lt 0 _)) by (destruct msg; [done|cbn; lia]).
      rewrite Nat2Z.id, str_take_all by lia.
      eapply sv_again; [eapply (X_write _ _ _ _ _ _ k); [|done|done]|done|constructor].
      apply lookup_insert_eq. }
    cbn [negb]. eapply sv_call; [apply X_fsync|]. eapply sv_call; [apply X_close|].
    eapply sv_call; [eapply (X_link _ _ _ _ _ _ h)|constructor].
    + apply lookup_insert_eq.
    + etrans; [by apply lookup_insert_ne|exact Hn].
  - reflexivity.
  - apply lookup_insert_eq.
Qed.

(** Reading gives the whole message. *)
Lemma read_alone σ h m fuel : ∀ i, σ.(inodes) !! h = Some m →
  Z.of_nat (String.length m) < BUFSIZ * (Z.of_nat i + Z.of_nat fuel) →
  BUFSIZ * Z.of_nat i <= Z.of_nat (String.length m) →
  solves σ (read_loop fuel h (str_take (Z.to_nat (BUFSIZ * Z.of_nat i)) m)) (Some m) σ.
Proof.
  induction fuel as [|fuel IH]; intros i Hh Hf Hi; [lia|].
  cbn [read_loop]. set (off := Z.to_nat (BUFSIZ * Z.of_nat i)).
  assert (0 < BUFSIZ) as Hpos by (unfold BUFSIZ; lia).
  assert (Z.of_nat off = BUFSIZ * Z.of_nat i) as Hoff by lia.
  assert (String.length (str_take off m) = off) as Hlen by (rewrite length_str_take; lia).
  rewrite Hlen. eapply sv_call; [apply X_realloc|]. eapply sv_call; [apply X_read; [done|lia..]|].
  rewrite Nat2Z.id. set (b := Z.to_nat BUFSIZ). assert (Z.of_nat b = BUFSIZ) as Hb by lia.
  rewrite str_take_add, length_str_take, length_str_drop.
  set (ct := (b `min` (String.length m - off))%nat).
  destruct (Z.eqb_spec (Z.of_nat ct) 0).
  { rewrite str_take_all by lia. constructor. }
  destruct (Z.eqb_spec (Z.of_nat ct) BUFSIZ).
  - replace (off + b)%nat with (Z.to_nat (BUFSIZ * Z.of_nat (S i))) by lia. apply IH; [done|lia..].
  - rewrite str_take_all by lia. constructor.
Qed.

Lemma take_alone σ n h m : σ.(links) !! (NEW, n) = Some h → σ.(links) !! (WORK, n) = None →
  σ.(inodes) !! h = Some m → Z.of_nat (String.length m) < max_message → dot_name n = false →
  ∃ σ', solves σ (glite_lbu_MaildirTransStart None) (Got m n, Some []) σ' ∧
    σ'.(links) = <[(WORK, n) := h]> (delete (NEW, n) σ.(links)) ∧ σ'.(inodes) = σ.(inodes).
Proof.
  intros Hn Hw Hh Hl Hd. eexists. split.
  - unfold glite_lbu_MaildirTransStart. eapply sv_call; [apply (X_opendir _ _ _ _ [n])|].
    cbn [scan_new]. eapply sv_call; [apply X_readdir|]. rewrite Hd.
    eapply sv_call; [eapply X_rename; [done|congruence]|].
    eapply solves_bind; [|constructor]. unfold read_message.
    eapply sv_call; [apply (X_open_rd _ _ _ _ _ h); apply lookup_insert_eq|].
    eapply solves_bind.
    { change ""%string with (str_take (Z.to_nat (BUFSIZ * Z.of_nat 0)) m).
      apply read_alone; [done|unfold max_message, max_chunks, BUFSIZ in *; lia..]. }
    cbn beta iota. eapply sv_call; [apply X_close|]. eapply sv_call; [apply X_strdup|]. constructor.
  - done.
Qed.
End Alone.

(** One process stores, another takes. *)
Lemma store_take_run short k : (k <= 5)%nat → (short = false → k = 5%nat) →
  ∃ s, runs false short
    [LCall 1 (StoreMsg "jp" "hello"); LReturn 1 (Code 0);
     LCall 2 TransStart; LReturn 2 (Got (str_take k "hello") (message_name 1 2 "jp"))] s.
Proof.
  intros Hk Hs.
  assert (runs false short [] (mkSystem (mkFs ∅ ∅) (<[2%nat := mkProc None None ∅ None]>
    (<[1%nat := mkProc None None ∅ None]> ∅)))) as H.
  { eapply runs_silent; [eapply runs_silent; [constructor|]|]; by constructor. }
  destruct (store_alone false short (mkFs ∅ ∅) 1 2 "jp" "hello" 7 k) as (σ1 & H1 & L1 & I1);
    try done.
  eapply (solves_call _ _ _ _ _ 1 _ (StoreMsg "jp" "hello")) in H;
    [|by rewrite lookup_insert_ne, lookup_insert_eq|done|done|exact I|exact H1].
  destruct (take_alone false short σ1 (message_name 1 2 "jp") 7 (str_take k "hello"))
    as (σ2 & H2 & _); try done; [by rewrite L1..| |].
  { rewrite length_str_take. unfold max_message, BUFSIZ. cbn [String.length]. lia. }
  eapply (solves_call _ _ _ _ _ 2 _ TransStart) in H;
    [|by rewrite lookup_insert_ne, lookup_insert_eq|done|done|exact I|exact H2].
  eexists. exact H.
Qed.

(** A short write stores the beginning of the message, and the call returns 0. *)
Lemma short_write_is_lost : ∃ s, runs false true
  [LCall 1 (StoreMsg "jp" "hello"); LReturn 1 (Code 0);
   LCall 2 TransStart; LReturn 2 (Got "he" (message_name 1 2 "jp"))] s.
Proof. apply (store_take_run true 2); [lia|done]. Qed.

Lemma maildir_refines_witness : ∃ s, runs false false
    [LCall 1 (StoreMsg "jp" "hello"); LReturn 1 (Code 0);
     LCall 2 TransStart; LReturn 2 (Got "hello" (message_name 1 2 "jp"))] s ∧
  ∃ b, box_runs false false
    [LCall 1 (StoreMsg "jp" "hello"); LReturn 1 (Code 0);
     LCall 2 TransStart; LReturn 2 (Got "hello" (message_name 1 2 "jp"))] b ∧
    (∀ pid p n t, s.(procs) !! pid = Some p → p.(messages) !! n = Some t →
       ∃ m, b.(box) !! n = Some (m, Held pid) ∧ copy_of false m t) ∧
    (∀ n m, b.(box) !! n = Some (m, Waiting) →
       ∃ d h, d ∈ [NEW; POST] ∧ s.(sys_fs).(links) !! (d, n) = Some h ∧
         s.(sys_fs).(inodes) !! h = Some m) ∧
    (∀ pid p r w, s.(procs) !! pid = Some p → p.(running) ≠ Some (r, Fault w)).
Proof.
  destruct (store_take_run false 5) as [s H]; [lia|done|]. exists s. split; [exact H|].
  apply (maildir_refines false false _ s H).
Defined.

Lemma message_safety_witness : ∃ s, runs false false
    [LCall 1 (StoreMsg "jp" "hello"); LReturn 1 (Code 0);
     LCall 2 TransStart; LReturn 2 (Got "hello" (message_name 1 2 "jp"))] s ∧
  (∀ p q sp sq n, p ≠ q → s.(procs) !! p = Some sp → s.(procs) !! q = Some sq →
     is_Some (sp.(messages) !! n) → sq.(messages) !! n = None) ∧
  (∀ pid t n, LReturn pid (Got t n) ∈
       [LCall 1 (StoreMsg "jp" "hello"); LReturn 1 (Code 0);
        LCall 2 TransStart; LReturn 2 (Got "hello" (message_name 1 2 "jp"))] →
     ∃ q srv msg, LCall q (StoreMsg srv msg) ∈
       [LCall 1 (StoreMsg "jp" "hello"); LReturn 1 (Code 0);
        LCall 2 TransStart; LReturn 2 (Got "hello" (message_name 1 2 "jp"))] ∧
       str_prefix t msg ∧ (false = false → t = msg)).
Proof.
  destruct (store_take_run false 5) as [s H]; [lia|done|]. exists s. split; [exact H|].
  apply (message_safety false false _ s H).
Defined.
