(* ===== verification/Client.v ===== *)
(** * Client contexts: errors, effects

    The error functions of org.glite.lb.common/src/context.c ([edg_wll_Error],
    [edg_wll_SetError], [edg_wll_UpdateError]) and the monad that the client library is
    written in: a computation changes a [client], may have undefined behaviour, and asks the
    world ([netE], [Network]) for what the system and the peers do. *)
From Stdlib Require Import ZArith Lia Ascii.
From stdpp Require Import base option list strings numbers.
From S2P Require Import Prelude CLib JobId LbTypes IlMsg Context Param.
#[local] Open Scope Z_scope.

(** ** Error codes *)
Definition EPERM : Z := 1.
Definition ENOENT : Z := 2.
Definition EINTR : Z := 4.
Definition E2BIG : Z := 7.
Definition EAGAIN : Z := 11.
Definition ENOMEM : Z := 12.
Definition EBUSY : Z := 16.
Definition ENOSPC : Z := 28.
Definition EPIPE : Z := 32.
Definition ENOTCONN : Z := 107.
Definition ETIMEDOUT : Z := 110.
Definition ECONNREFUSED : Z := 111.

Definition EDG_WLL_ERROR_BASE : Z := 1400.
Definition EDG_WLL_ERROR_PARSE_EVENT_UNDEF : Z := 1402.
Definition EDG_WLL_ERROR_PARSE_MSG_INCOMPLETE : Z := 1403.
Definition EDG_WLL_ERROR_PARSE_KEY_DUPLICITY : Z := 1404.
Definition EDG_WLL_ERROR_PARSE_KEY_MISUSE : Z := 1405.
Definition EDG_WLL_ERROR_GSS : Z := 1413.
Definition EDG_WLL_ERROR_DNS : Z := 1414.
Definition EDG_WLL_ERROR_NOJOBID : Z := 1415.
Definition EDG_WLL_IL_PROTO : Z := 1417.
Definition EDG_WLL_IL_SYS : Z := 1418.
Definition EDG_WLL_IL_EVENTS_WAITING : Z := 1419.

Definition errTexts : list string :=
  ["Broken ULM"; "Undefined event"; "Message incomplete"; "Duplicate ULM key";
   "Misuse of ULM key"; "Warning: extra ULM fields"; "XML Parse error";
   "Server response error"; "Bad JobId format"; "Database initialization failed";
   "Database call failed"; "MD5 key clash"; "GSSAPI Error"; "DNS resolver error";
   "No JobId specified in context"; "No indexed condition in query";
   "LB server (bkserver,lbproxy) store protocol error"; "Interlogger internal error";
   "Interlogger has events pending"; "Compared events differ"; "DB deadlock detected";
   "DB connection lost"; "Background operation accepted"].

(** The codes that have a text. *)
Definition known_code (code : Z) : bool := code <=? EDG_WLL_ERROR_BASE + 23.

(** The texts of the C library. *)
Class Texts := { strerror : Z → string; hstrerror : Z → string }.

Section Errors.
Context `{Texts}.

Definition edg_wll_GetErrorText (code : Z) : outcome (option string) :=
  if code =? 0 then Ret None
  else if code <=? EDG_WLL_ERROR_BASE then Ret (Some (strerror code))
  else match errTexts !! Z.to_nat (code - EDG_WLL_ERROR_BASE - 1) with
       | Some t => Ret (Some t)
       | None => UB OutOfBounds
       end.

(** The text is copied and freed again: the code is returned if it has one. *)
Definition edg_wll_Error (ctx : Context) : outcome Z :=
  let! _ := edg_wll_GetErrorText ctx.(errCode) in Ret ctx.(errCode).

Definition edg_wll_SetError (ctx : Context) (code : Z) (desc : option string) : Z * Context :=
  let ctx := edg_wll_ResetError ctx in
  if code =? 0 then (0, ctx)
  else (code, ctx <| errCode := code |> <| errDesc := desc |>).

Definition edg_wll_UpdateError (ctx : Context) (code : Z) (desc : option string) :
    outcome (Z * Context) :=
  let! err_text := edg_wll_GetErrorText ctx.(errCode) in
  let old_desc :=
    if ctx.(errCode) =? 0 then ctx.(errDesc)
    else match ctx.(errDesc), err_text with
         | Some d, Some t => Some (t +:+ ";; " +:+ d)
         | Some d, None => Some d
         | None, t => t
         end in
  let new := match old_desc, desc with
             | Some o, Some d => Some (d +:+ String (chr 10) o)
             | Some o, None => Some o
             | None, d => d
             end in
  let code := if code =? 0 then ctx.(errCode) else code in
  Ret (code, ctx <| errDesc := new |> <| errCode := code |>).

Lemma error_text_known code : known_code code = true →
  ∃ t, edg_wll_GetErrorText code = Ret t ∧ (t = None ↔ code = 0).
Proof.
  unfold known_code, edg_wll_GetErrorText, EDG_WLL_ERROR_BASE. intros Hk. zbool.
  destruct (Z.eqb_spec code 0); [by exists None|].
  destruct (Z.leb_spec code 1400); [by eexists|].
  destruct (lookup_lt_is_Some_2 errTexts (Z.to_nat (code - 1400 - 1))) as [t ->];
    [cbn; lia|by eexists].
Qed.

Lemma error_known ctx : known_code ctx.(errCode) = true → edg_wll_Error ctx = Ret ctx.(errCode).
Proof. intros Hk. unfold edg_wll_Error. by destruct (error_text_known _ Hk) as (t & -> & _). Qed.

Lemma update_error_known ctx code desc : known_code ctx.(errCode) = true →
  ∃ d, edg_wll_UpdateError ctx code desc =
    (let code := if code =? 0 then ctx.(errCode) else code in
     Ret (code, ctx <| errDesc := d |> <| errCode := code |>)) ∧
    (ctx.(errCode) ≠ 0 ∨ is_Some desc → is_Some d).
Proof.
  intros Hk. unfold edg_wll_UpdateError. destruct (error_text_known _ Hk) as (t & -> & Ht).
  cbn [obind]. eexists. split; [done|].
  destruct (Z.eqb_spec (errCode ctx) 0), (errDesc ctx), t, desc; naive_solver.
Qed.
End Errors.

(** A peer that answers with another code makes the client read behind the table. *)
Example unknown_code `{Texts} ctx : edg_wll_Error (ctx <| errCode := 1424 |>) = UB OutOfBounds.
Proof. reflexivity. Qed.

(** ** The connections of a process *)
Record cred := mkCred { cred_name : string; cred_lifetime : Z }.
(** [context != NULL] and [sock]. *)
Record gss_conn := mkGss { gss_context : bool; gss_sock : Z }.
(** [st_ino], [st_dev], [st_mtime]. *)
Definition file_id : Type := Z * Z * Z.

Record ConnSlot := mkSlot {
  peerName : option string;
  peerPort : Z;
  gsiCred : option cred;
  gss : gss_conn;
  lastUsed : Z;
  certfile : option file_id
}.
#[export] Instance ConnSlot_eta : Eta ConnSlot := fun r =>
  mkSlot r.(peerName) r.(peerPort) r.(gsiCred) r.(gss) r.(lastUsed) r.(certfile).

(** [connectionsHandle], which all contexts of a process share: [poolSize] is in the
    parameters, [locked_by] are the mutexes of the connections with their owners. *)
Record Connections := mkConns {
  connPool : list ConnSlot;
  connOpened : Z;
  locked_by : list (option nat)
}.
#[export] Instance Connections_eta : Eta Connections := fun r =>
  mkConns r.(connPool) r.(connOpened) r.(locked_by).

(** ** The world *)

(** A connection of the pool or the one of a call to the server. *)
Inductive link := LPool (i : nat) | LDirect.

Inductive gss_result := GssOk | GssErr (code errno : Z) (text : string).
Inductive select_result := SelTimeout | SelErr (errno : Z) | SelReady (fds : list Z).
(** An error that a call leaves in the context. *)
Definition ctx_error : Type := Z * string.

(** What the library asks: each constructor is a call that is made outside of the modelled
    code, its index the type of what it answers.  Calls with a time limit return what is left. *)
Inductive netE : Type → Type :=
| AcquireCred (cert key : option string) : netE (string + option cred)
| GssConnect (l : link) (c : option cred) (host : string) (port : Z) (t : timeval) :
    netE (gss_result * Z * timeval)
| GssWrite (l : link) (data : string) (t : timeval) : netE (gss_result * timeval)
| GssRead (l : link) (n : Z) (t : timeval) : netE ((Z * Z * string + string) * timeval)
| GssClose (l : link) : netE unit
| PlainConnect (path : string) (t : timeval) : netE ((Z + Z) * timeval)
| PlainWrite (sock : Z) (data : string) (t : timeval) : netE (option Z * timeval)
| PlainRead (sock n : Z) (t : timeval) : netE ((Z + string) * timeval)
| CloseSock (sock : Z) : netE unit
| Select (fds : list Z) (t : timeval) : netE (select_result * timeval)
| Stat (file : string) : netE (option file_id)
| EventWrite (file line : string) (attempts : Z) : netE (ctx_error + Z)
| EventSend (path : string) (filepos : Z) (line : string) (t : timeval) :
    netE (option ctx_error * timeval)
| HttpSend (l : link) (request body : string) (t : timeval) : netE (option ctx_error * timeval)
| HttpRecv (l : link) (t : timeval) : netE ((ctx_error + string) * timeval)
| QuerySequenceCodeProxy (job : JobId) : netE (ctx_error + option string)
| GetTime : netE timeval.

(** [interrupts] bounds how often [select] will still be interrupted; it is used as fuel. *)
Class Network (W : Type) := {
  net_do : ∀ {A}, netE A → W → A * W;
  interrupts : W → nat
}.

(** ** Computations *)

(** A context with its job and the time left of a call ([p_tmp_timeout]), the pool, the
    world. *)
Record client (W : Type) := mkClient {
  cl_st : ParamState;
  p_jobid : option JobId;
  p_tmp_timeout : timeval;
  connections : Connections;
  world : W
}.
Arguments mkClient {W}.
Arguments cl_st {W}.
Arguments p_jobid {W}.
Arguments p_tmp_timeout {W}.
Arguments connections {W}.
Arguments world {W}.
#[export] Instance client_eta W : Eta (client W) := fun r =>
  mkClient r.(cl_st) r.(p_jobid) r.(p_tmp_timeout) r.(connections) r.(world).

Definition M (W A : Type) : Type := client W → outcome (A * client W).
#[export] Instance M_ret W : MRet (M W) := fun A a c => Ret (a, c).
#[export] Instance M_bind W : MBind (M W) := fun A B f m c =>
  let! r := m c in f (fst r) (snd r).

Section Monad.
Context {W : Type} `{Network W} `{Texts}.
(** The context that the calls are made with. *)
Variable me : nat.

Definition gets {A} (f : client W → A) : M W A := fun c => Ret (f c, c).
Definition modify (f : client W → client W) : M W unit := fun c => Ret (tt, f c).
Definition undefined {A} (w : fault) : M W A := fun _ => UB w.
Definition assert (b : bool) : M W unit := fun c => if b then Ret (tt, c) else UB AssertFailed.
Definition lift {A} (o : outcome A) : M W A := fun c => let! a := o in Ret (a, c).
(** [p->...] *)
Definition deref {A} (p : option A) : M W A :=
  match p with Some a => mret a | None => undefined NullDeref end.

Definition ctx_of (c : client W) : Context := c.(cl_st).(ctx_base).
Definition with_ctx (f : Context → Context) (c : client W) : client W :=
  c <| cl_st := (c.(cl_st)) <| ctx_base := f (ctx_of c) |> |>.

Definition ResetError : M W unit := modify (with_ctx edg_wll_ResetError).
Definition Error : M W Z := fun c => let! e := edg_wll_Error (ctx_of c) in Ret (e, c).
Definition SetError (code : Z) (desc : string) : M W Z := fun c =>
  let '(r, x) := edg_wll_SetError (ctx_of c) code (Some desc) in Ret (r, with_ctx (λ _, x) c).
Definition UpdateError (code : Z) (desc : string) : M W Z := fun c =>
  let! r := edg_wll_UpdateError (ctx_of c) code (Some desc) in
  Ret (fst r, with_ctx (λ _, snd r) c).

(** Another context may be using a connection that this one has not locked, and may free it:
    its use is counted as undefined.  Connections are closed under the lock of the pool too. *)
Definition may_use {A} (e : netE A) (lk : list (option nat)) : bool :=
  let mine i := bool_decide (lk !! i = Some (Some me)) in
  match e with
  | GssConnect (LPool i) _ _ _ _ | GssWrite (LPool i) _ _ | GssRead (LPool i) _ _
  | HttpSend (LPool i) _ _ _ | HttpRecv (LPool i) _ => mine i
  | GssClose (LPool i) => mine i || bool_decide (lk !! i = Some None)
  | _ => true
  end.

Definition ask {A} (e : netE A) : M W A := fun c =>
  if may_use e c.(connections).(locked_by) then
    let '(a, w) := net_do e c.(world) in Ret (a, c <| world := w |>)
  else UB DanglingPtr.

(** A call with a time limit, [&ctx->p_tmp_timeout]. *)
Definition ask_timed {A} (e : timeval → netE (A * timeval)) : M W A :=
  t ← gets p_tmp_timeout;
  r ← ask (e t);
  modify (λ c, c <| p_tmp_timeout := snd r |>);; mret (fst r).

(** An error that a call outside has put into the context. *)
Definition leave_error (e : ctx_error) : M W unit := SetError (fst e) (snd e);; mret tt.
End Monad.

(** ** Reasoning *)

(** The computation is defined and its result and client satisfy [Q]. *)
Definition wp {W A} (m : M W A) (Q : A → client W → Prop) (c : client W) : Prop :=
  match m c with Ret r => Q (fst r) (snd r) | UB _ => False end.

Section Wp.
Context {W : Type} `{Network W} `{Texts}.
Implicit Types c : client W.

Lemma wp_ret {A} (a : A) Q c : Q a c → wp (mret a) Q c.
Proof. done. Qed.
Lemma wp_bind {A B} (f : A → M W B) (m : M W A) Q c :
  wp m (λ a c', wp (f a) Q c') c → wp (m ≫= f) Q c.
Proof. unfold wp, mbind, M_bind. by destruct (m c) as [[a c']|]. Qed.
Lemma wp_mono {A} (m : M W A) (P Q : A → client W → Prop) c :
  wp m P c → (∀ a c', P a c' → Q a c') → wp m Q c.
Proof. unfold wp. destruct (m c) as [[a c']|]; naive_solver. Qed.
Lemma wp_gets {A} (f : client W → A) Q c : Q (f c) c → wp (gets f) Q c.
Proof. done. Qed.
Lemma wp_modify f Q c : Q tt (f c) → wp (modify f) Q c.
Proof. done. Qed.
Lemma wp_assert b Q c : b = true → Q tt c → wp (assert b) Q c.
Proof. by intros ->. Qed.
Lemma wp_lift {A} (o : outcome A) a Q c : o = Ret a → Q a c → wp (lift o) Q c.
Proof. by intros ->. Qed.
Lemma wp_ask {A} me (e : netE A) Q c : may_use me e c.(connections).(locked_by) = true →
  (∀ a w, net_do e c.(world) = (a, w) → Q a (c <| world := w |>)) → wp (ask me e) Q c.
Proof. unfold wp, ask. intros ->. destruct (net_do e (world c)); cbn. auto. Qed.
Lemma wp_run {A} (m : M W A) Q c : wp m Q c → ∃ a c', m c = Ret (a, c') ∧ Q a c'.
Proof. unfold wp. destruct (m c) as [[a c']|]; naive_solver. Qed.
Lemma run_wp {A} (m : M W A) Q c a c' : m c = Ret (a, c') → Q a c' → wp m Q c.
Proof. unfold wp. by intros ->. Qed.
End Wp.

(** ** Well behaved worlds

    What the calls outside are documented to answer: codes of errors are known, a negative
    code comes with a failure, the certificate file can be examined, [select] names sockets
    it was asked about. *)
Definition error_ok (e : ctx_error) : Prop := known_code (fst e) = true ∧ fst e ≠ 0.
Definition errno_ok (e : Z) : Prop := 0 < e <= EDG_WLL_ERROR_BASE.
Definition gss_ok (r : gss_result) : Prop :=
  match r with GssOk => True | GssErr code errno _ => -5 <= code < 0 ∧ errno_ok errno end.

(** The number of the four bytes that a local logger answers with. *)
Definition le_int (s : string) : Z :=
  match s with
  | String a (String b (String c (String d _))) =>
    s32 (Z.lor (Z.shiftl (Z.lor (Z.shiftl (Z.lor (Z.shiftl (code d) 8) (code c)) 8) (code b)) 8)
          (code a))
  | _ => 0
  end.

Definition answer_ok {A} (e : netE A) : A → Prop :=
  match e in netE A return A → Prop with
  | GssConnect _ _ _ _ _ => λ a, gss_ok a.1.1 ∧ 0 <= a.1.2
  | GssWrite _ _ _ => λ a, gss_ok a.1
  | GssRead (LPool _) n _ => λ a,
      match a.1 with
      | inl e => gss_ok (GssErr e.1.1 e.1.2 e.2)
      | inr s => String.length s = Z.to_nat n ∧ known_code (le_int s) = true
      end
  | GssRead LDirect _ _ => λ a,
      match a.1 with inl e => gss_ok (GssErr e.1.1 e.1.2 e.2) | inr _ => True end
  | PlainRead _ _ _ => λ a, match a.1 with inl e => errno_ok e | inr _ => True end
  | PlainConnect _ _ => λ a, match a.1 with inl e => errno_ok e | inr sock => 0 <= sock end
  | PlainWrite _ _ _ => λ a, match a.1 with Some e => errno_ok e | None => True end
  | Select fds _ => λ a,
      match a.1 with
      | SelTimeout => True
      | SelErr e => errno_ok e
      | SelReady r => (∃ fd, fd ∈ r) ∧ (∀ fd, fd ∈ r → fd ∈ fds)
      end
  | Stat _ => λ a, is_Some a
  | EventWrite _ _ _ => λ a, match a with inl e => error_ok e | inr _ => True end
  | EventSend _ _ _ _ => λ a, match a.1 with Some e => error_ok e | None => True end
  | HttpSend _ _ _ _ => λ a, match a.1 with Some e => error_ok e | None => True end
  | HttpRecv _ _ => λ a, match a.1 with inl e => error_ok e | inr _ => True end
  | QuerySequenceCodeProxy _ => λ a, match a with inl e => error_ok e | inr _ => True end
  | GetTime => λ t, 0 <= t.1 < 253402300800 ∧ 0 <= t.2 <= 999999
  | _ => λ _, True
  end.

(** An interruption of [select] counts the bound down. *)
Definition interrupted {A} (e : netE A) : A → bool :=
  match e in netE A return A → bool with
  | Select _ _ => λ a, match a.1 with SelErr e => e =? EINTR | _ => false end
  | _ => λ _, false
  end.

Class Honest (W : Type) `{Network W} := {
  honest : W → Prop;
  honest_ask {A} (e : netE A) w a w' : honest w → net_do e w = (a, w') →
    honest w' ∧ answer_ok e a ∧
    (if interrupted e a then interrupts w' < interrupts w else interrupts w' ≤ interrupts w)%nat
}.

Lemma wp_ask_ok {W} `{Honest W} {A} me (e : netE A) Q (c : client W) :
  may_use me e c.(connections).(locked_by) = true → honest c.(world) →
  (∀ a w, honest w → answer_ok e a →
    (if interrupted e a then interrupts w < interrupts c.(world)
     else interrupts w ≤ interrupts c.(world))%nat → Q a (c <| world := w |>)) →
  wp (ask me e) Q c.
Proof.
  intros Hm Hh HQ. apply wp_ask; [done|]. intros a w E.
  destruct (honest_ask e _ _ _ Hh E) as (? & ? & ?). auto.
Qed.

(** Proxies and servers answer with frames: the first 17 bytes announce a body, which can be
    decoded, and the code in it is known. *)
Definition reply_known (msg : string) : Prop :=
  match decode_il_reply msg with
  | Ret (Some (_, code, _, _)) => known_code code = true
  | Ret None => True
  | UB _ => False
  end.

Definition replies_ok {W X} (read : Z → timeval → W → (X + string) * timeval * W) (w : W) : Prop :=
  ∀ t buf t1 w1, read 17 t w = (inr buf, t1, w1) →
  ∃ c, String.get 16 buf = Some c ∧
    (c = NL → let head := c_string (str_take 16 buf) in
     header_ok head = true → 0 < atoi head →
     atoi head ≠ INT_MAX ∧
     ∀ t2 body t3 w2, read (atoi head) t2 w1 = (inr body, t3, w2) →
       reply_known (str_take (Z.to_nat (atoi head)) body +:+ String NUL "")).

Class HonestReplies (W : Type) `{Honest W} := {
  honest_plain sock w : honest w → replies_ok (λ n t, net_do (PlainRead sock n t)) w;
  honest_direct w : honest w → replies_ok (λ n t, net_do (GssRead LDirect n t)) w
}.
