(* ===== verification/ClientDemo.v ===== *)
(** * A world for examples

    Requests fail [demo_fail] times because the connection is gone, then everything works;
    the chunks of bytes that the server and the proxy send are given. *)
From Stdlib Require Import ZArith Lia Ascii.
From stdpp Require Import base option list strings numbers.
From S2P Require Import Prelude CLib JobId LbTypes IlMsg Context Param Client.
#[local] Open Scope Z_scope.

Record demo := mkDemo { demo_fail : nat; demo_direct : list string; demo_plain : list string }.

(** The next chunk, if as many bytes are asked for. *)
Definition next_chunk {E} (chunks : list string) (n : Z) (e : E) : (E + string) * list string :=
  match chunks with
  | s :: l => if Z.of_nat (String.length s) =? n then (inr s, l) else (inl e, chunks)
  | [] => (inl e, chunks)
  end.

Definition demo_do {A} (e : netE A) (w : demo) : A * demo :=
  match e in netE A return A * demo with
  | AcquireCred _ _ => (inr (Some (mkCred "/CN=demo" 3600)), w)
  | GssConnect _ _ _ _ t => (GssOk, 5, t, w)
  | GssWrite _ _ t => (GssOk, t, w)
  | GssRead (LPool _) n t =>
    (inr (String.string_of_list_ascii (replicate (Z.to_nat n) "000"%char)), t, w)
  | GssRead LDirect n t =>
    let '(r, l) := next_chunk w.(demo_direct) n (-3, 1, ""%string) in
    (r, t, mkDemo w.(demo_fail) l w.(demo_plain))
  | GssClose _ => (tt, w)
  | PlainConnect _ t => (inr 6, t, w)
  | PlainWrite _ _ t => (None, t, w)
  | PlainRead _ n t =>
    let '(r, l) := next_chunk w.(demo_plain) n ENOTCONN in
    (r, t, mkDemo w.(demo_fail) w.(demo_direct) l)
  | CloseSock _ => (tt, w)
  | Select fds t => (match fds with [] => SelTimeout | _ => SelReady fds end, t, w)
  | Stat _ => (Some (1, 1, 1), w)
  | EventWrite _ _ _ => (inr 0, w)
  | EventSend _ _ _ t => (None, t, w)
  | HttpSend _ _ _ t =>
    match w.(demo_fail) with
    | O => (None, t, w)
    | S n => (Some (ENOTCONN, "connection closed"%string), t,
              mkDemo n w.(demo_direct) w.(demo_plain))
    end
  | HttpRecv _ t => (inr "HTTP/1.1 200 OK"%string, t, w)
  | QuerySequenceCodeProxy _ => (inr None, w)
  | GetTime => ((1200000000, 0), w)
  end.

#[export] Instance demo_network : Network demo := { net_do := @demo_do; interrupts _ := 0%nat }.
#[export] Instance demo_texts : Texts :=
  { strerror _ := "error"%string; hstrerror _ := "error"%string }.

Lemma zeros_ok n :
  let s := String.string_of_list_ascii (replicate n "000"%char) in
  String.length s = n ∧ known_code (le_int s) = true.
Proof.
  cbn zeta. split; [induction n; cbn; congruence|]. by destruct n as [|[|[|[|]]]].
Qed.

(** The chunks of a reply, and what is left of some replies. *)
Definition demo_reply (maj min : Z) (msg : string) : list string :=
  match encode_il_reply maj min msg with
  | Ret (s, _) => [str_take 17 s; str_drop 17 s]
  | UB _ => []
  end.
Definition reply_ok : list string := demo_reply 0 0 "OK".
Definition reply_denied : list string := demo_reply 600 1 "no".
Definition reply_exists : list string := demo_reply 700 17 "job exists".
Definition demo_streams : list (list string) :=
  [] :: flat_map (λ l, [l; drop 1 l]) [reply_ok; reply_denied; reply_exists].
Definition demo_good (w : demo) : Prop :=
  w.(demo_direct) ∈ demo_streams ∧ w.(demo_plain) ∈ demo_streams.

Lemma next_good {E} l n (e : E) : l ∈ demo_streams → (next_chunk l n e).2 ∈ demo_streams.
Proof.
  assert (∀ s l', s :: l' ∈ demo_streams → l' ∈ demo_streams) as Hs.
  { intros s l' Hl. apply list_elem_of_In in Hl. apply list_elem_of_In.
    vm_compute in Hl |- *. intuition congruence. }
  destruct l as [|s l]; cbn; [done|]. destruct (_ =? _); cbn; eauto.
Qed.

#[export] Instance demo_honest : Honest demo.
Proof.
  refine {| honest := demo_good |}. intros A e w a w' [Hd Hp] E.
  change (demo_do e w = (a, w')) in E.
  assert (∀ {E} l n (e : E), match (next_chunk l n e).1 with inl e' => e' = e | inr _ => True end)
    as Hn by (intros E' [|x l] n e'; cbn; [done|by destruct (_ =? _)]).
  destruct e; cbn in E |- *;
    try (destruct (next_chunk _ n _) as [r l'] eqn:Ec;
         match type of Ec with next_chunk ?l ?n ?e = _ =>
           pose proof (next_good l n e) as Hg; pose proof (Hn _ l n e) as Hr end;
         rewrite Ec in Hg, Hr; cbn in Hg, Hr);
    repeat case_match; simplify_eq; cbn in *; simplify_eq;
    unfold demo_good, errno_ok, error_ok, EDG_WLL_ERROR_BASE; cbn;
    split_and?; try apply zeros_ok; try done; try lia; eauto.
  eexists. rewrite elem_of_cons. by left.
Defined.

(** The replies of the demonstration are replies. *)
Lemma demo_replies {E} (e : E) l : l ∈ demo_streams →
  match next_chunk l 17 e with
  | (inr buf, l1) => ∃ c, String.get 16 buf = Some c ∧
    (c = NL → let head := c_string (str_take 16 buf) in
     header_ok head = true → 0 < atoi head → atoi head ≠ INT_MAX ∧
     match next_chunk l1 (atoi head) e with
     | (inr body, _) => reply_known (str_take (Z.to_nat (atoi head)) body +:+ String NUL "")
     | _ => True
     end)
  | _ => True
  end.
Proof.
  intros Hl. apply list_elem_of_In in Hl. vm_compute in Hl.
  intuition subst; vm_compute; try done; eexists; split; done.
Qed.

#[export] Instance demo_honest_replies : HonestReplies demo.
Proof.
  split; [intros sock w [_ Hl]|intros w [Hl _]]; intros t buf t1 w1 E.
  - change (demo_do (PlainRead sock 17 t) w = (inr buf, t1, w1)) in E. cbn in E.
    pose proof (demo_replies ENOTCONN _ Hl) as D.
    destruct (next_chunk (demo_plain w) 17 ENOTCONN) as [[?|s] l1]; simplify_eq.
    destruct D as (c & Hc & D). exists c. split; [done|]. intros Ec head Hh Ha.
    destruct (D Ec Hh Ha) as [Hm Hb]. split; [done|]. intros t2 body t3 w2 E2.
    change (demo_do (PlainRead sock (atoi head) t2) (mkDemo w.(demo_fail) w.(demo_direct) l1)
      = (inr body, t3, w2)) in E2. cbn in E2. fold head in Hb.
    destruct (next_chunk l1 (atoi head) ENOTCONN) as [[?|s2] l2]; simplify_eq. done.
  - change (demo_do (GssRead LDirect 17 t) w = (inr buf, t1, w1)) in E. cbn in E.
    pose proof (demo_replies (-3, 1, ""%string) _ Hl) as D.
    destruct (next_chunk (demo_direct w) 17 (-3, 1, ""%string)) as [[?|s] l1]; simplify_eq.
    destruct D as (c & Hc & D). exists c. split; [done|]. intros Ec head Hh Ha.
    destruct (D Ec Hh Ha) as [Hm Hb]. split; [done|]. intros t2 body t3 w2 E2.
    change (demo_do (GssRead LDirect (atoi head) t2) (mkDemo w.(demo_fail) l1 w.(demo_plain))
      = (inr body, t3, w2)) in E2. cbn in E2. fold head in Hb.
    destruct (next_chunk l1 (atoi head) (-3, 1, ""%string)) as [[?|s2] l2]; simplify_eq. done.
Defined.
