(* ===== verification/ConnPool.v ===== *)
(** * The pool of connections

    org.glite.lb.client/src/connection.c and the locks of org.glite.lb.common/src/connpool.c:
    the connections that the contexts of a process share, one function each.  The search of
    the pool and the choice of a connection are made under the lock of the pool; from then on
    a connection is protected by its own lock. *)
From Stdlib Require Import ZArith Lia Ascii.
From stdpp Require Import base option list strings numbers relations.
From S2P Require Import Prelude CLib JobId LbTypes Context Param Client.
#[local] Open Scope Z_scope.

(** The slot after [memset]: [gss.sock] is -1. *)
Definition zero_slot : ConnSlot := mkSlot None 0 None (mkGss false (-1)) 0 None.

(** [calloc] of [edg_wll_initConnections] for a pool of [size] connections. *)
Definition edg_wll_initConnections (size : nat) : Connections :=
  mkConns (replicate size zero_slot) 0 (replicate size None).

Section Pool.
Context {W : Type} `{Network W} `{Texts}.
Variable me : nat.
Abbreviation M := (Client.M W).

Definition poolSize : M nat :=
  gets (λ c, Z.to_nat c.(cl_st).(connectionsHandle_poolSize)).
Definition set_pool (f : Connections → Connections) : M unit :=
  modify (λ c, c <| connections := f c.(connections) |>).
Definition slot (i : nat) : M ConnSlot :=
  p ← gets connections;
  match p.(connPool) !! i with Some s => mret s | None => undefined OutOfBounds end.
Definition set_slot (i : nat) (s : ConnSlot) : M unit :=
  set_pool (λ p, p <| connPool := <[i := s]> p.(connPool) |>).

(** ** Locks *)
Definition set_lock (i : nat) (o : option nat) : M unit :=
  set_pool (λ p, p <| locked_by := <[i := o]> p.(locked_by) |>).

(** [pthread_mutex_trylock], with the owner recorded. *)
Definition edg_wll_connectionTryLock (i : nat) : M Z :=
  p ← gets connections;
  match p.(locked_by) !! i with
  | Some None => set_lock i (Some me);; mret 0
  | Some (Some _) => mret EBUSY
  | None => undefined OutOfBounds
  end.

(** Unlocking a mutex of somebody else is undefined. *)
Definition edg_wll_connectionUnlock (i : nat) : M Z :=
  p ← gets connections;
  match p.(locked_by) !! i with
  | Some (Some o) =>
    if (o =? me)%nat then set_lock i None;; mret 0 else undefined Indeterminate
  | Some None => undefined Indeterminate
  | None => undefined OutOfBounds
  end.

(** ** Closing *)
Definition CloseConnection (conn_index : nat) : M Z :=
  p ← gets connections;
  assert (negb (p.(connOpened) =? 0));;
  s ← slot conn_index;
  (if 0 <=? s.(gss).(gss_sock) then ask me (GssClose (LPool conn_index)) else mret tt);;
  set_slot conn_index zero_slot;;
  set_pool (λ p, p <| connOpened := p.(connOpened) - 1 |>);;
  mret 0.

(** ** Searching *)

(** The file that a context authenticates with. *)
Definition cert_file (st : ParamState) : option string :=
  match st.(p_proxy_filename) with Some f => Some f | None => st.(p_cert_filename) end.
Definition key_file (st : ParamState) : option string :=
  match st.(p_proxy_filename) with Some f => Some f | None => st.(p_key_filename) end.

(** [statinfo] has no value if [stat] fails. *)
Definition same_cert (cert : option (option file_id)) (s : ConnSlot) : M bool :=
  match cert, s.(certfile) with
  | None, _ => mret true
  | Some _, None => mret false
  | Some None, Some _ => undefined Indeterminate
  | Some (Some (ino, dev, _)), Some (ino', dev', _) => mret ((ino' =? ino) && (dev' =? dev))
  end.

(** Name, port and certificate, in the order of the [&&]. *)
Definition same_peer (cert : option (option file_id)) (name : option string) (port : Z)
    (s : ConnSlot) : M bool :=
  match s.(peerName) with
  | None => mret false
  | Some peer =>
    name ← deref name;
    if (strcmp name peer =? 0) && (u32 port =? s.(peerPort)) then same_cert cert s
    else mret false
  end.

Fixpoint index_loop (cert : option (option file_id)) (name : option string) (port : Z)
    (n i : nat) : M (option nat) :=
  match n with
  | O => mret None
  | S n =>
    s ← slot i;
    b ← same_peer cert name port s;
    if b : bool then
      r ← edg_wll_connectionTryLock i;
      if r =? 0 then edg_wll_connectionUnlock i;; mret (Some i)
      else if r =? EBUSY then index_loop cert name port n (S i)
      else undefined AssertFailed
    else index_loop cert name port n (S i)
  end.

Definition stat_cert : M (option (option file_id)) :=
  st ← gets cl_st;
  match cert_file st with
  | Some f => r ← ask me (Stat f); mret (Some r)
  | None => mret None
  end.

(** [None] is -1. *)
Definition ConnectionIndex (name : option string) (port : Z) : M (option nat) :=
  cert ← stat_cert;
  size ← poolSize;
  index_loop cert name port size 0.

Fixpoint free_loop (n i : nat) : M (option nat) :=
  match n with
  | O => mret None
  | S n =>
    s ← slot i;
    match s.(peerName) with
    | None =>
      r ← edg_wll_connectionTryLock i;
      if r =? 0 then mret (Some i) else free_loop n (S i)
    | Some _ => free_loop n (S i)
    end
  end.

Definition AddConnection (name : option string) (port : Z) : M (option nat) :=
  size ← poolSize;
  r ← free_loop size 0;
  match r with
  | None => mret None
  | Some index =>
    name ← deref name;
    s ← slot index;
    set_slot index (s <| peerName := Some name |> <| peerPort := u32 port |>
                      <| gsiCred := None |> <| certfile := None |>);;
    set_pool (λ p, p <| connOpened := p.(connOpened) + 1 |>);;
    mret (Some index)
  end.

(** The oldest of the connections that are not locked: index and time. *)
Fixpoint oldest_loop (found : option (nat * Z)) (n i : nat) : M (option (nat * Z)) :=
  match n with
  | O => mret found
  | S n =>
    s ← slot i;
    assert (match s.(peerName) with Some _ => true | None => false end);;
    r ← edg_wll_connectionTryLock i;
    if r =? 0 then
      edg_wll_connectionUnlock i;;
      oldest_loop
        match found with
        | None => Some (i, s.(lastUsed))
        | Some (_, min) => if s.(lastUsed) <? min then Some (i, s.(lastUsed)) else found
        end n (S i)
    else oldest_loop found n (S i)
  end.

Definition ReleaseConnection (name : option string) (port : Z) : M Z :=
  ResetError;;
  p ← gets connections;
  if p.(connOpened) =? 0 then mret 0 else
  match name with
  | Some _ =>
    index ← ConnectionIndex name port;
    match index with Some i => CloseConnection i;; mret tt | None => mret tt end;;
    Error
  | None =>
    size ← poolSize;
    found ← oldest_loop None size 0;
    match found with
    | None => SetError EAGAIN "all connections in the connection pool are locked"
    | Some (index, _) => CloseConnection index;; Error
    end
  end.

(** ** Opening *)

(** The part under the lock of the pool, which [edg_wll_open] and [edg_wll_log_connect] share:
    a connection of their own, locked, or the reason why there is none. *)
Inductive no_slot := PoolLocked | PoolFull.
Definition take_connection (name : option string) (port : Z) : M (no_slot + nat) :=
  index ← ConnectionIndex name port;
  r ← match index with
      | Some i => mret (inr i)
      | None =>
        p ← gets connections;
        size ← gets (λ c, c.(cl_st).(connectionsHandle_poolSize));
        full ← (if p.(connOpened) =? size then ReleaseConnection None 0 else mret 0);
        if negb (full =? 0) then mret (inl PoolLocked) else
        index ← AddConnection name port;
        mret (match index with Some i => inr i | None => inl PoolFull end)
      end;
  match r with
  | inr i => edg_wll_connectionTryLock i;; mret (inr i)
  | inl e => mret (inl e)
  end.

(** [edg_wll_close]: -1 is [None], and so is the value that is left. *)
Definition edg_wll_close (connToUse : option nat) : M (Z * option nat) :=
  ResetError;;
  match connToUse with
  | None => mret (0, None)
  | Some i =>
    CloseConnection i;; edg_wll_connectionUnlock i;;
    e ← Error; mret (e, None)
  end.

(** Whether new credentials are needed. *)
Definition needs_cred (i : nat) : M bool :=
  st ← gets cl_st;
  s ← slot i;
  file ← match cert_file st, s.(certfile) with
         | Some f, Some (_, _, mtime) =>
           r ← ask me (Stat f);
           match r with
           | Some (_, _, mtime') => mret (negb (mtime =? mtime'))
           | None => undefined Indeterminate
           end
         | Some _, None => mret true
         | None, _ => mret false
         end;
  mret (file || match s.(gsiCred) with Some c => c.(cred_lifetime) =? 0 | None => true end).

(** New credentials, with the identification of their file; [false] if there are none. *)
Definition acquire (i : nat) : M bool :=
  st ← gets cl_st;
  r ← ask me (AcquireCred (cert_file st) (key_file st));
  match r with
  | inl text => SetError EDG_WLL_ERROR_GSS text;; mret false
  | inr new =>
    s ← slot i;
    set_slot i (s <| gsiCred := new |>);;
    match cert_file st with
    | Some f =>
      r ← ask me (Stat f);
      s ← slot i;
      set_slot i (s <| certfile := Some (default (default (0, 0, 0) s.(certfile)) r) |>)
    | None => mret tt
    end;;
    mret true
  end.

(** [edg_wll_gss_connect] on a slot of the pool. *)
Definition connect_slot (i : nat) : M gss_result :=
  s ← slot i;
  r ← ask_timed me (GssConnect (LPool i) s.(gsiCred) (default ""%string s.(peerName)) s.(peerPort));
  match r with
  | (GssOk, sock) => set_slot i (s <| gss := mkGss true sock |>);; mret GssOk
  | (e, _) => mret e
  end.

Definition connect_error (code errno : Z) (text : string) : M unit :=
  if code =? -4 then SetError errno "edg_wll_gss_connect()";; mret tt
  else if code =? -1 then SetError EDG_WLL_ERROR_GSS text;; mret tt
  else if code =? -5 then
    SetError EDG_WLL_ERROR_DNS ("edg_wll_gss_connect(): " +:+ hstrerror errno);; mret tt
  else if code =? -3 then
    SetError ECONNREFUSED
      "edg_wll_gss_connect(): server closed the connection, probably due to overload";; mret tt
  else if code =? -2 then SetError ETIMEDOUT "edg_wll_gss_connect()";; mret tt
  else mret tt.

(** The part with the lock of the connection: [false] is the jump to [err]. *)
Definition authenticate (i : nat) : M bool :=
  acquire_cred ← needs_cred i;
  ok ← (if acquire_cred : bool then acquire i else mret true);
  if negb ok then mret false else
  s ← slot i;
  (if acquire_cred && s.(gss).(gss_context) then
     ask me (GssClose (LPool i));; set_slot i (s <| gss := mkGss false (-1) |>)
   else mret tt);;
  s ← slot i;
  if s.(gss).(gss_context) then mret true else
  r ← connect_slot i;
  match r with
  | GssOk => mret true
  | GssErr code errno text => connect_error code errno text;; mret false
  end.

(** [connToUse] comes in and goes out. *)
Definition edg_wll_open (srvName : option string) (srvPort : Z) (connToUse : option nat) :
    M (Z * option nat) :=
  ResetError;;
  r ← take_connection srvName srvPort;
  match r with
  | inl PoolLocked => e ← Error; mret (e, connToUse)
  | inl PoolFull => e ← SetError EAGAIN "connection pool size exceeded"; mret (e, connToUse)
  | inr i =>
    ok ← authenticate i;
    if ok : bool then
      edg_wll_connectionTryLock i;; e ← Error; mret (e, Some i)
    else
      CloseConnection i;; edg_wll_connectionUnlock i;; e ← Error; mret (e, None)
  end.

(** ** A request *)

(** [edg_wll_http_send] and [edg_wll_http_recv] on a connection of the pool. *)
Definition http_send (connToUse : option nat) (request body : string) : M Z :=
  i ← deref connToUse;
  r ← ask_timed me (HttpSend (LPool i) request body);
  match r with Some e => SetError (fst e) (snd e) | None => ResetError;; mret 0 end.
Definition http_recv (connToUse : option nat) : M (Z * option string) :=
  i ← deref connToUse;
  r ← ask_timed me (HttpRecv (LPool i));
  match r with
  | inl e => c ← SetError (fst e) (snd e); mret (c, None)
  | inr s => ResetError;; mret (0, Some s)
  end.

(** The label [err]. *)
Definition request_failed (connToUse : option nat) : M (Z * option string) :=
  ec ← Error;
  ed ← gets (λ c, (ctx_of c).(errDesc));
  edg_wll_close connToUse;;
  modify (with_ctx (λ x, snd (edg_wll_SetError x ec ed)));;
  mret (ec, None).

Definition request_done (connToUse : option nat) (response : option string) :
    M (Z * option string) :=
  match connToUse with
  | None => undefined AssertFailed
  | Some i =>
    now ← ask me GetTime;
    s ← slot i;
    set_slot i (s <| lastUsed := fst now |>);;
    edg_wll_connectionUnlock i;;
    mret (0, response)
  end.

(** Close, open and send again; the connection, and whether to go on. *)
Definition reopen (srvName : option string) (srvPort : Z) (request body : string)
    (connToUse : option nat) : M (bool * option nat) :=
  r ← edg_wll_close connToUse;
  '(e, connToUse) ← edg_wll_open srvName srvPort (snd r);
  if negb (e =? 0) then mret (false, connToUse) else
  e ← http_send connToUse request body;
  mret (e =? 0, connToUse).

Definition edg_wll_http_send_recv (srvName : option string) (srvPort : Z)
    (request body : string) : M (Z * option string) :=
  '(e, connToUse) ← edg_wll_open srvName srvPort None;
  if negb (e =? 0) then e ← Error; mret (e, None) else
  e ← http_send connToUse request body;
  '(ok, connToUse) ←
    (if e =? ENOTCONN then reopen srvName srvPort request body connToUse
     else mret (e =? 0, connToUse));
  if negb ok then request_failed connToUse else
  '(e, response) ← http_recv connToUse;
  if e =? 0 then request_done connToUse response
  else if e =? ENOTCONN then
    '(ok, connToUse) ← reopen srvName srvPort request body connToUse;
    if negb ok then request_failed connToUse else
    '(e, response) ← http_recv connToUse;
    if e =? 0 then request_done connToUse response else request_failed connToUse
  else request_failed connToUse.
End Pool.
