(* ===== verification/PoolProps.v ===== *)
(** * The pool of connections is used safely

    The steps that a context may take on the pool, the invariant that they keep whatever
    contexts take them in whatever order, and the theorem that the functions of ConnPool are
    made of such steps and give every connection back. *)
From Stdlib Require Import ZArith Lia Ascii.
From stdpp Require Import base option list strings numbers relations.
From S2P Require Import Prelude CLib JobId LbTypes Context Param Client ConnPool.
#[local] Open Scope Z_scope.

(** ** Steps *)
Definition is_named (s : ConnSlot) : bool :=
  match s.(peerName) with Some _ => true | None => false end.

(** What the context [me] does with a connection: it locks a connected one, connects an
    unused one, closes one that nobody uses to make room, works on the one it has locked,
    closes it and gives it back, or gives it back open. *)
Inductive pool_step (me : nat) (p : Connections) : Connections → Prop :=
| ps_take i s : p.(locked_by) !! i = Some None → p.(connPool) !! i = Some s →
    is_named s = true →
    pool_step me p (p <| locked_by := <[i := Some me]> p.(locked_by) |>)
| ps_add i s s' : p.(locked_by) !! i = Some None → p.(connPool) !! i = Some s →
    is_named s = false → is_named s' = true →
    pool_step me p (mkConns (<[i := s']> p.(connPool)) (p.(connOpened) + 1)
                      (<[i := Some me]> p.(locked_by)))
| ps_evict i s : p.(locked_by) !! i = Some None → p.(connPool) !! i = Some s →
    is_named s = true →
    pool_step me p (mkConns (<[i := zero_slot]> p.(connPool)) (p.(connOpened) - 1) p.(locked_by))
| ps_work i s s' : p.(locked_by) !! i = Some (Some me) → p.(connPool) !! i = Some s →
    is_named s' = is_named s →
    pool_step me p (p <| connPool := <[i := s']> p.(connPool) |>)
| ps_drop i s : p.(locked_by) !! i = Some (Some me) → p.(connPool) !! i = Some s →
    is_named s = true →
    pool_step me p (mkConns (<[i := zero_slot]> p.(connPool)) (p.(connOpened) - 1)
                      (<[i := None]> p.(locked_by)))
| ps_unlock i : p.(locked_by) !! i = Some (Some me) →
    pool_step me p (p <| locked_by := <[i := None]> p.(locked_by) |>).

(** ** The invariant *)
Fixpoint named (l : list ConnSlot) : Z :=
  match l with [] => 0 | s :: l => (if is_named s then 1 else 0) + named l end.

Record pool_ok (size : nat) (p : Connections) : Prop := {
  po_len : length p.(connPool) = size;
  po_locks : length p.(locked_by) = size;
  po_opened : p.(connOpened) = named p.(connPool);
  po_named i t : p.(locked_by) !! i = Some (Some t) →
    ∃ s, p.(connPool) !! i = Some s ∧ is_named s = true
}.

Lemma named_insert l i s s' : l !! i = Some s →
  named (<[i := s']> l) =
    named l - (if is_named s then 1 else 0) + (if is_named s' then 1 else 0).
Proof.
  revert i. induction l as [|x l IH]; intros [|i] E; try done; simpl in *.
  - injection E as ->. lia.
  - rewrite (IH i) by done. lia.
Qed.
Lemma named_bounds l : 0 <= named l <= Z.of_nat (length l).
Proof. induction l as [|s l IH]; cbn; [lia|]. destruct (is_named s); lia. Qed.
Lemma named_full l : named l = Z.of_nat (length l) → Forall (λ s, is_named s = true) l.
Proof.
  induction l as [|s l IH]; cbn; [constructor|]. pose proof (named_bounds l).
  destruct (is_named s) eqn:E; [|lia]. intros. constructor; [done|]. apply IH. lia.
Qed.
Lemma named_pos l i s : l !! i = Some s → is_named s = true → 0 < named l.
Proof.
  revert i. induction l as [|x l IH]; intros [|i] E Hs; cbn in *; try done.
  - injection E as ->. rewrite Hs. pose proof (named_bounds l). lia.
  - pose proof (IH _ E Hs). destruct (is_named x); lia.
Qed.

Lemma pool_step_ok size me p p' : pool_ok size p → pool_step me p p' → pool_ok size p'.
Proof.
  intros [Hl Hk Ho Hn] Hs. destruct Hs as [i s Hi Hp Hx|i s s' Hi Hp Hx Hx'|i s Hi Hp Hx
    |i s s' Hi Hp Hx|i s Hi Hp Hx|i Hi]; split; cbn; rewrite ?length_insert; try done.
  all: try (erewrite named_insert by done; rewrite ?Hx, ?Hx'; cbn; lia).
  all: intros j t Hj;
    try (apply list_lookup_insert_Some in Hj as [(<- & E & _)|[? Hj]]; [|try by apply (Hn _ _ Hj)]);
    try done.
  - eauto.
  - exists s'. split; [|done]. apply list_lookup_insert_eq. by eapply lookup_lt_Some.
  - destruct (Hn _ _ Hj) as (x & ? & ?). exists x. by rewrite list_lookup_insert_ne.
  - destruct (Hn _ _ Hj) as (x & ? & ?). destruct (decide (i = j)) as [->|]; [congruence|].
    exists x. by rewrite list_lookup_insert_ne.
  - destruct (Hn _ _ Hj) as (x & E & ?). destruct (decide (i = j)) as [->|].
    + exists s'. rewrite list_lookup_insert_eq by (by eapply lookup_lt_Some). split; [done|].
      congruence.
    + exists x. by rewrite list_lookup_insert_ne.
  - destruct (Hn _ _ Hj) as (x & ? & ?). exists x. by rewrite list_lookup_insert_ne.
Qed.

(** What another context has locked stays as it is. *)
Definition others_kept (me : nat) (p p' : Connections) : Prop :=
  ∀ i t, t ≠ me → p.(locked_by) !! i = Some (Some t) →
    p'.(locked_by) !! i = Some (Some t) ∧ p'.(connPool) !! i = p.(connPool) !! i.

Lemma pool_step_others me p p' : pool_step me p p' → others_kept me p p'.
Proof.
  intros Hs j t Ht Hj. destruct Hs as [i s Hi|i s s' Hi|i s Hi|i s s' Hi|i s Hi|i Hi]; cbn;
    (destruct (decide (i = j)) as [->|]; [congruence|]);
    rewrite ?list_lookup_insert_ne by done; done.
Qed.

Lemma others_kept_trans me p q r : others_kept me p q → others_kept me q r → others_kept me p r.
Proof.
  intros H1 H2 i t Ht Hi. destruct (H1 i t Ht Hi) as [E1 E2].
  destruct (H2 i t Ht E1) as [E3 E4]. split; congruence.
Qed.

Lemma pool_steps_others me p p' : rtc (pool_step me) p p' → others_kept me p p'.
Proof.
  induction 1 as [|p q r Hs _ IH]; [by intros i t _ ?|].
  eapply others_kept_trans; [by eapply pool_step_others|done].
Qed.
Lemma pool_steps_ok size me p p' : rtc (pool_step me) p p' → pool_ok size p → pool_ok size p'.
Proof. induction 1; eauto using pool_step_ok. Qed.

(** ** The pool of a running process *)
Inductive pool_reachable (size : nat) : Connections → Prop :=
| pr_init : pool_reachable size (edg_wll_initConnections size)
| pr_step me p p' : pool_reachable size p → pool_step me p p' → pool_reachable size p'.

Lemma init_ok size : pool_ok size (edg_wll_initConnections size).
Proof.
  split; cbn; rewrite ?length_replicate; try done.
  - by induction size.
  - intros i t Hi. apply lookup_replicate in Hi as [? _]. done.
Qed.
Lemma pool_steps_reachable size me p p' : pool_reachable size p → rtc (pool_step me) p p' →
  pool_reachable size p'.
Proof. intros Hp Hs. induction Hs; eauto using pool_reachable. Qed.
Lemma reachable_ok size p : pool_reachable size p → pool_ok size p.
Proof. induction 1; eauto using init_ok, pool_step_ok. Qed.

(** ** The functions of the library are made of these steps *)
Definition quiet (st : ParamState) : ParamState :=
  st <| ctx_base := edg_wll_ResetError st.(ctx_base) |>.

Section Running.
Context {W : Type} `{Honest W} `{Texts}.
Variable me : nat.
Implicit Types c : client W.

Definition code c : Z := (ctx_of c).(errCode).
(** An error has a description. *)
Definition described c : Prop := code c = 0 ∨ is_Some (ctx_of c).(errDesc).
Definition pool_size c : nat := Z.to_nat c.(cl_st).(connectionsHandle_poolSize).

Definition locks_with (held : option nat) (lk : list (option nat)) : list (option nat) :=
  match held with Some i => <[i := Some me]> lk | None => lk end.

(** A client before a call. *)
Record ready c : Prop := {
  rd_size : 0 <= c.(cl_st).(connectionsHandle_poolSize);
  rd_pool : pool_ok (pool_size c) c.(connections);
  rd_world : honest c.(world);
  rd_known : known_code (code c) = true;
  rd_described : described c
}.

(** During a call that began with [c0] and has the connection [held]. *)
Record running (held : option nat) c0 c : Prop := {
  ru_ready : ready c0;
  ru_st : quiet c.(cl_st) = quiet c0.(cl_st);
  ru_job : c.(p_jobid) = c0.(p_jobid);
  ru_steps : rtc (pool_step me) c0.(connections) c.(connections);
  ru_locks : c.(connections).(locked_by) = locks_with held c0.(connections).(locked_by);
  ru_free i : held = Some i → c0.(connections).(locked_by) !! i = Some None;
  ru_world : honest c.(world);
  ru_known : known_code (code c) = true;
  ru_described : described c;
  ru_patience : (interrupts c.(world) ≤ interrupts c0.(world))%nat
}.

Lemma running_refl c : ready c → running None c c.
Proof. intros []. by split; try done; split. Qed.

Lemma quiet_size c c0 : quiet c.(cl_st) = quiet c0.(cl_st) →
  c.(cl_st).(connectionsHandle_poolSize) = c0.(cl_st).(connectionsHandle_poolSize).
Proof. intros E. exact (f_equal connectionsHandle_poolSize E). Qed.

Lemma running_pool held c0 c : running held c0 c → pool_ok (pool_size c) c.(connections).
Proof.
  intros [R E _ S _ _ _ _ _ _]. unfold pool_size. rewrite (quiet_size _ _ E).
  eapply pool_steps_ok; [done|apply R].
Qed.
Lemma running_ready c0 c : running None c0 c → ready c.
Proof.
  intros R. pose proof (running_pool _ _ _ R). destruct R as [R E]. split; try done.
  rewrite (quiet_size _ _ E). apply R.
Qed.
Lemma running_trans held c0 c c' : running None c0 c → running held c c' → running held c0 c'.
Proof.
  intros R R'. pose proof (ru_locks _ _ _ R) as E. cbn in E.
  destruct R as [? ? ? S], R' as [? ? ? S' ? F]. split; try done; try congruence.
  - by etrans.
  - intros i Hi. rewrite <-E. by apply F.
  - etrans; eassumption.
Qed.

Lemma running_held i c0 c : running (Some i) c0 c →
  c.(connections).(locked_by) !! i = Some (Some me).
Proof.
  intros R. rewrite (ru_locks _ _ _ R). cbn. apply list_lookup_insert_eq.
  eapply lookup_lt_Some, (ru_free _ _ _ R). done.
Qed.
Lemma running_slot i c0 c : running (Some i) c0 c →
  ∃ s, c.(connections).(connPool) !! i = Some s ∧ is_named s = true.
Proof. intros R. eapply po_named; [by eapply running_pool|by eapply running_held]. Qed.

Lemma running_same held c0 c c' : running held c0 c →
  quiet c'.(cl_st) = quiet c.(cl_st) → c'.(p_jobid) = c.(p_jobid) →
  c'.(connections) = c.(connections) → honest c'.(world) → known_code (code c') = true →
  described c' → (interrupts c'.(world) ≤ interrupts c.(world))%nat → running held c0 c'.
Proof. intros [] ? ? E ? ? ? ?. split; rewrite ?E; try congruence; try done. lia. Qed.

(** ** Rules *)
Lemma wp_reset held c0 c Q : running held c0 c →
  (∀ c', running held c0 c' → code c' = 0 → c'.(connections) = c.(connections) → Q tt c') →
  wp ResetError Q c.
Proof. intros R HQ. apply wp_modify, HQ; try done. eapply running_same; try done; try apply R. by left. Qed.

Lemma wp_error held c0 c Q : running held c0 c → Q (code c) c → wp Error Q c.
Proof.
  intros R HQ. unfold wp, Error. by rewrite error_known by apply R.
Qed.

Lemma wp_set_error held c0 c k d Q : running held c0 c → known_code k = true →
  (∀ c', running held c0 c' → code c' = k → c'.(connections) = c.(connections) → Q k c') →
  wp (SetError k d) Q c.
Proof.
  intros R Hk HQ. unfold wp, SetError, edg_wll_SetError.
  destruct (Z.eqb_spec k 0) as [->|]; cbn [fst snd]; apply HQ; try done;
    (eapply running_same; try done; try apply R).
  - by left.
  - by right.
Qed.

Lemma wp_update_error held c0 c k d Q : running held c0 c → known_code k = true →
  (∀ c', running held c0 c' → code c' = (if k =? 0 then code c else k) →
     c'.(connections) = c.(connections) → is_Some (ctx_of c').(errDesc) →
     Q (if k =? 0 then code c else k) c') →
  wp (UpdateError k d) Q c.
Proof.
  intros R Hk HQ. unfold wp, UpdateError.
  destruct (update_error_known (ctx_of c) k (Some d)) as (d' & -> & Hd); [apply R|].
  cbn -[Z.eqb]. apply HQ; try done; [|apply Hd; by right].
  eapply running_same; try done; [apply R| |right; apply Hd; by right]. unfold code.
  cbn -[Z.eqb]. destruct (k =? 0); [apply R|done].
Qed.

Lemma wp_ask_running {A} held c0 c (e : netE A) Q : running held c0 c →
  may_use me e c.(connections).(locked_by) = true →
  (∀ a c', running held c0 c' → answer_ok e a → code c' = code c →
     c'.(connections) = c.(connections) →
     (if interrupted e a then interrupts c'.(world) < interrupts c.(world)
      else interrupts c'.(world) ≤ interrupts c.(world))%nat → Q a c') →
  wp (ask me e) Q c.
Proof.
  intros R Hm HQ. apply wp_ask_ok; [done|apply R|]. intros a w Hw Ha Hi.
  apply HQ; try done. eapply running_same; try done; [apply R..|]. cbn.
  destruct (interrupted e a); lia.
Qed.

Lemma wp_timed {A} held c0 c (e : timeval → netE (A * timeval)) Q : running held c0 c →
  (∀ t, may_use me (e t) c.(connections).(locked_by) = true) →
  (∀ t r c', running held c0 c' → answer_ok (e t) r → code c' = code c →
     c'.(connections) = c.(connections) →
     (if interrupted (e t) r then interrupts c'.(world) < interrupts c.(world)
      else interrupts c'.(world) ≤ interrupts c.(world))%nat → Q r.1 c') →
  wp (ask_timed me e) Q c.
Proof.
  intros R Hm HQ. apply wp_bind, wp_gets, wp_bind. eapply wp_ask_running; [done..|].
  intros r c1 R1 Ha E1 E2 Hi. apply wp_bind, wp_modify, wp_ret. eapply HQ; try done.
  eapply running_same; try done; apply R1.
Qed.

Lemma wp_slot held c0 c i Q : running held c0 c → (i < pool_size c)%nat →
  (∀ s, c.(connections).(connPool) !! i = Some s → Q s c) → wp (slot i) Q c.
Proof.
  intros R Hi HQ. unfold slot. apply wp_bind, wp_gets.
  destruct (lookup_lt_is_Some_2 c.(connections).(connPool) i) as [s Hs].
  - by rewrite (po_len _ _ (running_pool _ _ _ R)).
  - rewrite Hs. by apply wp_ret, HQ.
Qed.

Lemma held_size i c0 c : running (Some i) c0 c → (i < pool_size c)%nat.
Proof.
  intros R. destruct (running_slot _ _ _ R) as (s & Hs & _). apply lookup_lt_Some in Hs.
  by rewrite (po_len _ _ (running_pool _ _ _ R)) in Hs.
Qed.

Lemma wp_my_slot c0 c i Q : running (Some i) c0 c →
  (∀ s, c.(connections).(connPool) !! i = Some s → is_named s = true → Q s c) →
  wp (slot i) Q c.
Proof.
  intros R HQ. eapply wp_slot; [done|by eapply held_size|]. intros s Hs. apply HQ; [done|].
  destruct (running_slot _ _ _ R) as (? & ? & ?). congruence.
Qed.

(** Work on the connection. *)
Lemma wp_work c0 c i s s' Q : running (Some i) c0 c →
  c.(connections).(connPool) !! i = Some s → is_named s' = is_named s →
  (∀ c', running (Some i) c0 c' → code c' = code c →
     c'.(connections).(connPool) !! i = Some s' → Q tt c') →
  wp (set_slot i s') Q c.
Proof.
  intros R Hs Hn HQ. apply wp_modify, HQ; try done.
  - destruct R. split; cbn; try done. eapply rtc_r; [done|]. eapply ps_work; try done.
    rewrite ru_locks0. apply list_lookup_insert_eq. eapply lookup_lt_Some. by apply ru_free0.
  - cbn. apply list_lookup_insert_eq. by eapply lookup_lt_Some.
Qed.

Lemma wp_unlock c0 c i Q : running (Some i) c0 c →
  (∀ c', running None c0 c' → code c' = code c → Q 0 c') →
  wp (edg_wll_connectionUnlock me i) Q c.
Proof.
  intros R HQ. pose proof (running_held _ _ _ R) as Hl. apply wp_bind, wp_gets. rewrite Hl.
  rewrite Nat.eqb_refl. apply wp_bind, wp_modify, wp_ret, HQ; [|done].
  destruct R. split; cbn; try done.
  - eapply rtc_r; [done|]. by eapply ps_unlock.
  - rewrite ru_locks0. cbn. rewrite list_insert_insert_eq.
    apply list_insert_id. by apply ru_free0.
Qed.

(** Locking a connection that is locked does nothing. *)
Lemma wp_trylock_held c0 c i Q : running (Some i) c0 c → Q EBUSY c →
  wp (edg_wll_connectionTryLock me i) Q c.
Proof.
  intros R HQ. apply wp_bind, wp_gets. rewrite (running_held _ _ _ R). by apply wp_ret.
Qed.

(** Closing the own connection and giving it back. *)
Lemma wp_close_unlock {B} c0 c i (k : Z → M W B) Q : running (Some i) c0 c →
  (∀ c', running None c0 c' → code c' = code c → wp (k 0) Q c') →
  wp (CloseConnection me i;; edg_wll_connectionUnlock me i ≫= k) Q c.
Proof.
  intros R HQ. pose proof (running_held _ _ _ R) as Hl.
  destruct (running_slot _ _ _ R) as (s & Hs & Hn).
  pose proof (running_pool _ _ _ R) as P. pose proof (po_opened _ _ P) as Ho.
  pose proof (named_pos _ _ _ Hs Hn) as Hpos.
  apply wp_bind. unfold CloseConnection. apply wp_bind, wp_gets, wp_bind, wp_assert.
  { apply negb_true_iff, Z.eqb_neq. lia. }
  apply wp_bind. eapply wp_my_slot; [done|]. intros s1 Hs1 _. apply wp_bind.
  assert (∀ c1, running (Some i) c0 c1 → code c1 = code c → c1.(connections) = c.(connections) →
    wp (set_slot i zero_slot;; set_pool (λ p, p <| connOpened := p.(connOpened) - 1 |>);; mret 0)
      (λ _ c', wp (edg_wll_connectionUnlock me i ≫= k) Q c') c1) as Hk.
  { intros c1 R1 E1 E2. apply wp_bind, wp_modify, wp_bind, wp_modify, wp_ret, wp_bind, wp_bind,
      wp_gets. cbn. rewrite E2, Hl, Nat.eqb_refl. apply wp_bind, wp_modify, wp_ret.
    apply HQ; [|done]. destruct R1. split; cbn; try done; rewrite E2 in *; cbn.
    - eapply rtc_r; [done|]. exact (ps_drop me _ i s Hl Hs Hn).
    - rewrite ru_locks0. cbn. rewrite list_insert_insert_eq.
      apply list_insert_id. by apply ru_free0. }
  destruct (0 <=? gss_sock (gss s1)); [|by apply wp_ret, Hk].
  eapply wp_ask_running; [done| |].
  { cbn. by rewrite Hl, bool_decide_true. }
  intros a c1 R1 _ E1 E2 _. by apply Hk.
Qed.

(** Trying a lock, only to see whether it is free. *)
Lemma wp_probe {A} c0 c i (k1 : M W A) (k2 : Z → M W A) Q : running None c0 c →
  (i < pool_size c)%nat →
  (c.(connections).(locked_by) !! i = Some None → wp k1 Q c) → wp (k2 EBUSY) Q c →
  wp (edg_wll_connectionTryLock me i ≫= λ r,
        if r =? 0 then edg_wll_connectionUnlock me i ≫= (λ _, k1) else k2 r) Q c.
Proof.
  intros R Hi H1' H2'. apply wp_bind, wp_bind, wp_gets.
  destruct (lookup_lt_is_Some_2 c.(connections).(locked_by) i) as [o Ho].
  { by rewrite (po_locks _ _ (running_pool _ _ _ R)). }
  rewrite Ho. destruct o; [by apply wp_ret|].
  apply wp_bind, wp_modify, wp_ret. cbn [Z.eqb]. apply wp_bind, wp_bind, wp_gets. cbn.
  rewrite list_lookup_insert_eq by (by eapply lookup_lt_Some). rewrite Nat.eqb_refl.
  apply wp_bind, wp_modify, wp_ret. cbn.
  rewrite list_insert_insert_eq, list_insert_id by done.
  match goal with |- wp _ _ ?x => replace x with c end; [auto|].
  by destruct c as [? ? ? [] ?].
Qed.

Lemma wp_index_loop cert name port n i c0 c Q : running None c0 c →
  (∀ o, cert = Some o → is_Some o) → (i + n ≤ pool_size c)%nat →
  (∀ r, (∀ j, r = Some j → c.(connections).(locked_by) !! j = Some None ∧
           ∃ s, c.(connections).(connPool) !! j = Some s ∧ is_named s = true) → Q r c) →
  wp (index_loop me cert (Some name) port n i) Q c.
Proof.
  intros R Hcert. revert i. induction n as [|n IH]; intros i Hi HQ; cbn [index_loop].
  { by apply wp_ret, HQ. }
  apply wp_bind. eapply wp_slot; [done|lia|]. intros s Hs. apply wp_bind.
  assert (wp (index_loop me cert (Some name) port n (S i)) Q c) as Hnext by (apply IH; [lia|done]).
  assert (∀ b : bool, (b = true → is_named s = true) → wp (if b then r ← edg_wll_connectionTryLock me i;
    if r =? 0 then edg_wll_connectionUnlock me i;; mret (Some i)
    else if r =? EBUSY then index_loop me cert (Some name) port n (S i)
    else undefined AssertFailed else index_loop me cert (Some name) port n (S i)) Q c) as Hb.
  { intros [] Hn; [|done]. eapply (wp_probe _ _ i _
      (λ r, if r =? EBUSY then index_loop me cert (Some name) port n (S i)
            else undefined AssertFailed)); [done|lia| |done].
    intros Hl. apply wp_ret, HQ. intros j [= <-]. eauto. }
  unfold same_peer. destruct (peerName s) as [peer|] eqn:Ep; [|exact (Hb false ltac:(done))].
  assert (is_named s = true) as Hn by (unfold is_named; by rewrite Ep).
  apply wp_bind, wp_ret. destruct (_ && _); [|exact (Hb false ltac:(done))].
  unfold same_cert. destruct cert as [o|]; [|exact (Hb true (λ _, Hn))].
  destruct (Hcert _ eq_refl) as [[[ino dev] mtime] ->].
  destruct (certfile s) as [[[ino' dev'] mtime']|];
    [exact (Hb _ (λ _, Hn))|exact (Hb false ltac:(done))].
Qed.

Lemma wp_index name port c0 c Q : running None c0 c →
  (∀ r c', running None c0 c' → code c' = code c → c'.(connections) = c.(connections) →
     (∀ j, r = Some j → c.(connections).(locked_by) !! j = Some None ∧
        ∃ s, c.(connections).(connPool) !! j = Some s ∧ is_named s = true) → Q r c') →
  wp (ConnectionIndex me (Some name) port) Q c.
Proof.
  intros R HQ. unfold ConnectionIndex, stat_cert. apply wp_bind, wp_bind, wp_gets.
  destruct (cert_file (cl_st c)) as [f|].
  - apply wp_bind. eapply wp_ask_running; [done..|]. intros a c1 R1 Ha E1 E2 _.
    apply wp_ret, wp_bind, wp_gets. eapply wp_index_loop; [done| |done|].
    + intros o [= <-]. done.
    + intros r Hr. apply HQ; rewrite <-?E2; done.
  - apply wp_ret, wp_bind, wp_gets. eapply wp_index_loop; [done..|]. intros r Hr. by apply HQ.
Qed.

Lemma wp_close_free c0 c i s Q : running None c0 c →
  c.(connections).(locked_by) !! i = Some None → c.(connections).(connPool) !! i = Some s →
  is_named s = true →
  (∀ c', running None c0 c' → code c' = code c → Q 0 c') → wp (CloseConnection me i) Q c.
Proof.
  intros R Hl Hs Hn HQ. pose proof (po_opened _ _ (running_pool _ _ _ R)) as Ho.
  pose proof (named_pos _ _ _ Hs Hn) as Hpos. apply wp_bind, wp_gets, wp_bind, wp_assert.
  { apply negb_true_iff, Z.eqb_neq. lia. }
  apply wp_bind. unfold slot. apply wp_bind, wp_gets. rewrite Hs. apply wp_ret, wp_bind.
  assert (∀ c1, running None c0 c1 → code c1 = code c → c1.(connections) = c.(connections) →
    wp (set_slot i zero_slot;; set_pool (λ p, p <| connOpened := p.(connOpened) - 1 |>);; mret 0)
      Q c1) as Hk.
  { intros c1 R1 E1 E2. apply wp_bind, wp_modify, wp_bind, wp_modify, wp_ret, HQ; [|done].
    destruct R1. split; cbn; rewrite ?E2 in *; try done.
    eapply rtc_r; [done|]. exact (ps_evict me _ i s Hl Hs Hn). }
  destruct (0 <=? gss_sock (gss s)); [|by apply wp_ret, Hk].
  eapply wp_ask_running; [done| |].
  { cbn. rewrite Hl. by rewrite (bool_decide_true (Some None = Some None)), orb_true_r. }
  intros a c1 R1 _ E1 E2 _. by apply Hk.
Qed.

Lemma wp_oldest found n i c0 c Q : running None c0 c → (i + n ≤ pool_size c)%nat →
  Forall (λ s, is_named s = true) c.(connections).(connPool) →
  (∀ j t, found = Some (j, t) → c.(connections).(locked_by) !! j = Some None ∧ (j < pool_size c)%nat) →
  (∀ r, (∀ j t, r = Some (j, t) →
     c.(connections).(locked_by) !! j = Some None ∧ (j < pool_size c)%nat) → Q r c) →
  wp (oldest_loop me found n i) Q c.
Proof.
  intros R. revert found i. induction n as [|n IH]; intros found i Hi Hall Hf HQ; cbn [oldest_loop].
  { by apply wp_ret, HQ. }
  apply wp_bind. eapply wp_slot; [done|lia|]. intros s Hs. apply wp_bind, wp_assert.
  { rewrite Forall_lookup in Hall. exact (Hall _ _ Hs). }
  apply (wp_probe c0 c i _ (λ _, oldest_loop me found n (S i))); [done|lia| |].
  - intros Hl. apply IH; [lia|done| |done]. intros j t E.
    destruct found as [[j' min]|]; [destruct (_ <? _)|]; simplify_eq; eauto with lia.
  - apply IH; [lia|done..].
Qed.

(** A full pool. *)
Lemma wp_release c0 c Q : running None c0 c →
  c.(connections).(connOpened) = c.(cl_st).(connectionsHandle_poolSize) →
  (∀ r c', running None c0 c' → code c' = r → Q r c') →
  wp (ReleaseConnection me None 0) Q c.
Proof.
  intros R Hfull HQ. unfold ReleaseConnection. apply wp_bind. eapply wp_reset; [done|].
  intros c1 R1 E1 E2. apply wp_bind, wp_gets.
  pose proof (running_pool _ _ _ R1) as P. pose proof (po_opened _ _ P) as Ho.
  destruct (connOpened (connections c1) =? 0); [by apply wp_ret, HQ|].
  assert (pool_size c1 = pool_size c) as Esz.
  { unfold pool_size. f_equal. apply quiet_size. by rewrite (ru_st _ _ _ R1), (ru_st _ _ _ R). }
  assert (Forall (λ s, is_named s = true) c1.(connections).(connPool)) as HF.
  { apply named_full. rewrite <-Ho, E2, Hfull. pose proof (po_len _ _ P) as HL. rewrite E2 in HL.
    rewrite HL, Esz. unfold pool_size. rewrite Z2Nat.id; [done|].
    rewrite (quiet_size _ _ (ru_st _ _ _ R)). apply R. }
  apply wp_bind, wp_gets, wp_bind. eapply wp_oldest; [done..|].
  intros [[j t]|] Hr.
  - destruct (Hr _ _ eq_refl) as [Hl Hj].
    destruct (lookup_lt_is_Some_2 c1.(connections).(connPool) j) as [s Hs].
    { by rewrite (po_len _ _ P). }
    apply wp_bind. rewrite Forall_lookup in HF. eapply wp_close_free; [done..|by eapply HF|].
    intros c2 R2 E3. eapply wp_error; [done|]. by apply HQ.
  - eapply wp_set_error; [done|done|]. intros c2 R2 E3 E4. by apply HQ.
Qed.
End Running.
