(* ===== verification/PoolOpen.v ===== *)
(** * Connections are given back

    Opening, using and closing a connection of the pool (ConnPool): every call ends with the
    locks as they were, whatever the network answers and whatever other contexts have locked. *)
From Stdlib Require Import ZArith Lia Ascii.
From stdpp Require Import base option list strings numbers relations.
From S2P Require Import Prelude CLib JobId LbTypes Context Param Client ClientDemo ConnPool PoolProps.
#[local] Open Scope Z_scope.

Section Open.
Context {W : Type} `{Honest W} `{Texts}.
Variable me : nat.
Implicit Types c : client W.
#[local] Abbreviation running := (running me).

(** ** A connection of one's own *)
Lemma free_loop_spec n i c0 c Q : running None c0 c → (i + n ≤ pool_size c)%nat →
  Q None c →
  (∀ j s, c.(connections).(locked_by) !! j = Some None →
     c.(connections).(connPool) !! j = Some s → is_named s = false →
     Q (Some j) (c <| connections :=
       c.(connections) <| locked_by := <[j := Some me]> c.(connections).(locked_by) |> |>)) →
  wp (free_loop me n i) Q c.
Proof.
  intros R. revert i. induction n as [|n IH]; intros i Hi HN HQ; cbn [free_loop].
  { by apply wp_ret. }
  apply wp_bind. eapply wp_slot; [done|lia|]. intros s Hs.
  destruct (peerName s) eqn:Ep; [apply IH; [lia|done..]|].
  apply wp_bind, wp_bind, wp_gets.
  destruct (lookup_lt_is_Some_2 c.(connections).(locked_by) i) as [o Ho].
  { rewrite (po_locks _ _ (running_pool _ _ _ _ R)). lia. }
  rewrite Ho. destruct o; [apply wp_ret, IH; [lia|done..]|].
  apply wp_bind, wp_modify, wp_ret, wp_ret. eapply HQ; [done..|]. unfold is_named. by rewrite Ep.
Qed.

Lemma wp_add name port c0 c Q : running None c0 c →
  (∀ c', running None c0 c' → code c' = code c → Q None c') →
  (∀ i c', running (Some i) c0 c' → code c' = code c → Q (Some i) c') →
  wp (AddConnection me (Some name) port) Q c.
Proof.
  intros R HN HQ. unfold AddConnection. apply wp_bind, wp_gets, wp_bind.
  eapply free_loop_spec; [done|done| |].
  { by apply wp_ret, HN. }
  intros j s Hl Hs Hn. apply wp_bind, wp_ret, wp_bind. unfold slot. apply wp_bind, wp_gets.
  cbn. rewrite Hs. apply wp_ret, wp_bind, wp_modify, wp_bind, wp_modify, wp_ret, HQ; [|done].
  destruct R. split; cbn in *; try done.
  - eapply rtc_r; [done|].
    exact (ps_add me _ j s (s <| peerName := Some name |> <| peerPort := u32 port |>
      <| gsiCred := None |> <| certfile := None |>) Hl Hs Hn eq_refl).
  - by rewrite <-ru_locks.
  - intros i [= <-]. by rewrite <-ru_locks.
Qed.

Lemma wp_take name port c0 c Q : running None c0 c → code c = 0 →
  (∀ i c', running (Some i) c0 c' → code c' = 0 → Q (inr i) c') →
  (∀ e c', running None c0 c' → (e = PoolLocked → code c' ≠ 0) → Q (inl e) c') →
  wp (take_connection me (Some name) port) Q c.
Proof.
  intros R E0 HQ HN. unfold take_connection. apply wp_bind. eapply wp_index; [done|].
  intros r c1 R1 E1 E2 Hr. apply wp_bind. destruct r as [i|].
  - destruct (Hr _ eq_refl) as (Hl & s & Hs & Hn). apply wp_ret, wp_bind, wp_bind, wp_gets.
    rewrite E2, Hl. apply wp_bind, wp_modify, wp_ret, wp_ret, HQ; [|change (code c1 = 0); congruence].
    rewrite <-E2 in *. destruct R1. split; cbn in *; try done.
    + eapply rtc_r; [done|]. by eapply ps_take.
    + by rewrite <-ru_locks.
    + intros j [= <-]. by rewrite <-ru_locks.
  - apply wp_bind, wp_gets, wp_bind, wp_gets, wp_bind.
    assert (∀ full c2, running None c0 c2 → code c2 = full → wp (if negb (full =? 0) then mret (inl PoolLocked) else
        index ← AddConnection me (Some name) port;
        mret (match index with Some i => inr i | None => inl PoolFull end))
      (λ r c', wp (match r with
         | inr i => edg_wll_connectionTryLock me i;; mret (inr i)
         | inl e => mret (inl e) end) Q c') c2) as Hk.
    { intros full c2 R2 E3. destruct (Z.eqb_spec full 0) as [->|Hf]; cbn [negb].
      - apply wp_bind. eapply wp_add; [done| |].
        + intros c3 R3 E4. by apply wp_ret, wp_ret, HN.
        + intros i c3 R3 E4. apply wp_ret, wp_bind. eapply wp_trylock_held; [done|].
          apply wp_ret, HQ; [done|congruence].
      - apply wp_ret, wp_ret, HN; [done|congruence]. }
    destruct (Z.eqb_spec (connOpened (connections c1)) (connectionsHandle_poolSize (cl_st c1))).
    + eapply wp_release; [done..|]. intros full c2 R2 E3. by apply Hk.
    + apply wp_ret, Hk; [done|congruence].
Qed.

(** ** Authentication *)
Definition keeps_own i c0 (Q : bool → client W → Prop) : Prop :=
  ∀ (b : bool) c', running (Some i) c0 c' → (if b then code c' = 0 else code c' ≠ 0) → Q b c'.

Lemma wp_needs_cred i c0 c Q : running (Some i) c0 c →
  (∀ b c', running (Some i) c0 c' → code c' = code c → Q b c') → wp (needs_cred me i) Q c.
Proof.
  intros R HQ. apply wp_bind, wp_gets, wp_bind. eapply wp_my_slot; [done|]. intros s Hs Hn.
  apply wp_bind.
  destruct (cert_file _), (certfile s) as [[[ino dev] mtime]|]; try by apply wp_ret, wp_ret, HQ.
  apply wp_bind. eapply wp_ask_running; [done..|]. intros a c1 R1 [[[? ?] ?] ->] E1 _ _.
  by apply wp_ret, wp_ret, HQ.
Qed.

Lemma wp_acquire i c0 c Q : running (Some i) c0 c → code c = 0 →
  keeps_own i c0 Q → wp (acquire me i) Q c.
Proof.
  intros R E0 HQ. apply wp_bind, wp_gets, wp_bind. eapply wp_ask_running; [done..|].
  intros [text|new] c1 R1 _ E1 _ _.
  - apply wp_bind. eapply wp_set_error; [done..|]. intros c2 R2 E2 _.
    apply wp_ret, HQ; [done|]. by rewrite E2.
  - apply wp_bind. eapply wp_my_slot; [done|]. intros s Hs Hn. apply wp_bind.
    eapply wp_work; [done..|]. intros c2 R2 E2 Hs2. apply wp_bind.
    destruct (cert_file _).
    + apply wp_bind. eapply wp_ask_running; [done..|]. intros a c3 R3 _ E3 _ _.
      apply wp_bind. eapply wp_my_slot; [done|]. intros s3 Hs3 Hn3.
      eapply wp_work; [done..|]. intros c4 R4 E4 _. apply wp_ret, HQ; [done|congruence].
    + apply wp_ret, wp_ret, HQ; [done|congruence].
Qed.

Lemma wp_connect_slot i c0 c Q : running (Some i) c0 c →
  (∀ r c', running (Some i) c0 c' → code c' = code c → gss_ok r → Q r c') →
  wp (connect_slot me i) Q c.
Proof.
  intros R HQ. apply wp_bind. eapply wp_my_slot; [done|]. intros s Hs Hn. apply wp_bind.
  eapply wp_timed; [done| |].
  { intros t. cbn. by rewrite (running_held _ _ _ _ R), bool_decide_true. }
  intros t [[[|k e x] sock] t'] c1 R1 [Hg _] E1 E2 _; cbn [fst].
  - apply wp_bind. eapply wp_work; [done|rewrite E2; done|done|]. intros c2 R2 E3 _.
    apply wp_ret, HQ; [done|congruence|done].
  - by apply wp_ret, HQ.
Qed.

Lemma wp_connect_error i c0 c k e x Q : running (Some i) c0 c → gss_ok (GssErr k e x) →
  (∀ c', running (Some i) c0 c' → code c' ≠ 0 → Q tt c') → wp (connect_error k e x) Q c.
Proof.
  intros R [Hk [He1 He2]] HQ. unfold connect_error.
  assert (∀ n d, n ≠ 0 → known_code n = true → wp (SetError n d;; mret tt) Q c) as Hset.
  { intros n d Hn Hkn. apply wp_bind. eapply wp_set_error; [done..|]. intros c1 R1 E1 _.
    apply wp_ret, HQ; [done|congruence]. }
  destruct (Z.eqb_spec k (-4)).
  { apply Hset; [lia|]. unfold known_code, EDG_WLL_ERROR_BASE in *. apply Z.leb_le. lia. }
  repeat (case_match; zbool; [by apply Hset|]). zbool. lia.
Qed.

Lemma wp_authenticate i c0 c Q : running (Some i) c0 c → code c = 0 →
  keeps_own i c0 Q → wp (authenticate me i) Q c.
Proof.
  intros R E0 HQ. apply wp_bind. eapply wp_needs_cred; [done|]. intros b c1 R1 E1.
  apply wp_bind.
  assert (keeps_own i c0 (λ ok c', wp (if negb ok then mret false else
    s ← slot i;
    (if b && s.(gss).(gss_context) then
       ask me (GssClose (LPool i));; set_slot i (s <| gss := mkGss false (-1) |>)
     else mret tt);;
    s ← slot i;
    if s.(gss).(gss_context) then mret true else
    r ← connect_slot me i;
    match r with
    | GssOk => mret true
    | GssErr code errno text => connect_error code errno text;; mret false
    end) Q c')) as Hk.
  { intros ok c2 R2 E2. destruct ok; cbn [negb]; [|by apply wp_ret, HQ].
    apply wp_bind. eapply wp_my_slot; [done|]. intros s Hs Hn. apply wp_bind.
    assert (∀ c3, running (Some i) c0 c3 → code c3 = 0 → wp (s ← slot i;
      if s.(gss).(gss_context) then mret true else
      r ← connect_slot me i;
      match r with
      | GssOk => mret true
      | GssErr code errno text => connect_error code errno text;; mret false
      end) Q c3) as Hj.
    { intros c3 R3 E3. apply wp_bind. eapply wp_my_slot; [done|]. intros s3 Hs3 Hn3.
      destruct (gss_context _); [by apply wp_ret, HQ|]. apply wp_bind.
      eapply wp_connect_slot; [done|]. intros [|k e x] c4 R4 E4 Hg; [apply wp_ret, HQ; [done|congruence]|].
      apply wp_bind. eapply wp_connect_error; [done..|]. intros c5 R5 E5. by apply wp_ret, HQ. }
    destruct (b && _); [|by apply wp_ret, Hj].
    apply wp_bind. eapply wp_ask_running; [done| |].
    { cbn. by rewrite (running_held _ _ _ _ R2), bool_decide_true. }
    intros a c3 R3 _ E3 E4 _. eapply wp_work; [done|by rewrite E4|done|].
    intros c4 R4 E5 _. apply Hj; [done|congruence]. }
  destruct b.
  - eapply wp_acquire; [done|congruence|done].
  - apply wp_ret, Hk; [done|congruence].
Qed.

(** ** Open and close *)
Lemma wp_open name port c0 c Q : running None c0 c →
  (∀ i c', running (Some i) c0 c' → code c' = 0 → Q (0, Some i) c') →
  (∀ c', running None c0 c' → code c' ≠ 0 → Q (code c', None) c') →
  wp (edg_wll_open me (Some name) port None) Q c.
Proof.
  intros R HQ HN. apply wp_bind. eapply wp_reset; [done|]. intros c1 R1 E1 _.
  apply wp_bind. eapply wp_take; [done..| |].
  - intros i c2 R2 E2. apply wp_bind. eapply wp_authenticate; [done..|].
    intros [] c3 R3 E3.
    + apply wp_bind. eapply wp_trylock_held; [done|]. apply wp_bind. eapply wp_error; [done|].
      rewrite E3. apply wp_ret, HQ; done.
    + eapply wp_close_unlock; [done|]. intros c4 R4 E4. apply wp_bind.
      eapply wp_error; [done|]. apply wp_ret, HN; [done|congruence].
  - intros [] c2 R2 E2.
    + apply wp_bind. eapply wp_error; [done|]. apply wp_ret, HN; auto.
    + apply wp_bind. eapply wp_set_error; [done..|]. intros c3 R3 E3 _. rewrite <-E3.
      apply wp_ret, HN; [done|]. by rewrite E3.
Qed.

Lemma wp_close held c0 c Q : running held c0 c →
  (∀ c', running None c0 c' → code c' = 0 → Q (0, None) c') →
  wp (edg_wll_close me held) Q c.
Proof.
  intros R HQ. apply wp_bind. eapply wp_reset; [done|]. intros c1 R1 E1 _.
  destruct held as [i|]; [|by apply wp_ret, HQ].
  eapply wp_close_unlock; [done|]. intros c2 R2 E2. apply wp_bind. eapply wp_error; [done|].
  rewrite E2, E1. apply wp_ret, HQ; [done|congruence].
Qed.

(** ** Requests *)
Lemma error_code_ok e : error_ok e → known_code e.1 = true.
Proof. by intros [? _]. Qed.

Lemma wp_http_send i c0 c request body Q : running (Some i) c0 c →
  (∀ e c', running (Some i) c0 c' → code c' = e → Q e c') →
  wp (http_send me (Some i) request body) Q c.
Proof.
  intros R HQ. apply wp_bind, wp_ret, wp_bind. eapply wp_timed; [done| |].
  { intros t. cbn. by rewrite (running_held _ _ _ _ R), bool_decide_true. }
  intros t [[e|] t'] c1 R1 Ha E1 E2 _; cbn [fst] in *.
  - eapply wp_set_error; [done|by apply error_code_ok|]. intros c2 R2 E3 _. by apply HQ.
  - apply wp_bind. eapply wp_reset; [done|]. intros c2 R2 E3 _. by apply wp_ret, HQ.
Qed.

Lemma wp_http_recv i c0 c Q : running (Some i) c0 c →
  (∀ e s c', running (Some i) c0 c' → code c' = e → (e = 0 ↔ is_Some s) → Q (e, s) c') →
  wp (http_recv me (Some i)) Q c.
Proof.
  intros R HQ. apply wp_bind, wp_ret, wp_bind. eapply wp_timed; [done| |].
  { intros t. cbn. by rewrite (running_held _ _ _ _ R), bool_decide_true. }
  intros t [[e|s] t'] c1 R1 Ha E1 E2 _; cbn [fst] in *.
  - apply wp_bind. eapply wp_set_error; [done|by apply error_code_ok|]. intros c2 R2 E3 _.
    apply wp_ret, HQ; [done..|]. destruct Ha as [_ Hn]. split; [done|by intros []].
  - apply wp_bind. eapply wp_reset; [done|]. intros c2 R2 E3 _.
    apply wp_ret, HQ; [done..|]. by split.
Qed.

(** How a request ends: with an answer or an error, and nothing locked. *)
Definition request_ends c0 (r : Z * option string) c : Prop :=
  running None c0 c ∧ code c = r.1 ∧ (r.1 = 0 ↔ is_Some r.2).

Lemma wp_failed held c0 c : running held c0 c → code c ≠ 0 →
  wp (request_failed me held) (request_ends c0) c.
Proof.
  intros R E. apply wp_bind. eapply wp_error; [done|]. apply wp_bind, wp_gets, wp_bind.
  eapply wp_close; [done|]. intros c1 R1 E1. apply wp_bind, wp_modify, wp_ret.
  unfold edg_wll_SetError. destruct (Z.eqb_spec (code c) 0); [done|]. split_and!; [|done|].
  - eapply running_same; try done; try apply R1; [apply R|].
    right. by destruct (ru_described _ _ _ _ R).
  - split; [done|by intros []].
Qed.

Lemma wp_done i c0 c s : running (Some i) c0 c → code c = 0 → is_Some s →
  wp (request_done me (Some i) s) (request_ends c0) c.
Proof.
  intros R E Hs. apply wp_bind. eapply wp_ask_running; [done..|]. intros now c1 R1 _ E1 _ _.
  apply wp_bind. eapply wp_my_slot; [done|]. intros x Hx Hn. apply wp_bind.
  eapply wp_work; [done..|]. intros c2 R2 E2 _. apply wp_bind. eapply wp_unlock; [done|].
  intros c3 R3 E3. apply wp_ret. split_and!; [done|cbn; congruence|done].
Qed.

Lemma wp_reopen i name port request body c0 c Q : running (Some i) c0 c →
  (∀ j c', running (Some j) c0 c' → code c' = 0 → Q (true, Some j) c') →
  (∀ held c', running held c0 c' → code c' ≠ 0 → Q (false, held) c') →
  wp (reopen me (Some name) port request body (Some i)) Q c.
Proof.
  intros R HQ HN. apply wp_bind. eapply wp_close; [done|]. intros c1 R1 E1. cbn [snd].
  apply wp_bind. eapply wp_open; [done| |].
  - intros j c2 R2 E2. cbn [negb Z.eqb]. apply wp_bind. eapply wp_http_send; [done|].
    intros e c3 R3 E3. apply wp_ret. destruct (Z.eqb_spec e 0); [by apply HQ; subst|].
    apply HN; [done|congruence].
  - intros c2 R2 E2. destruct (Z.eqb_spec (code c2) 0); [done|]. by apply wp_ret, HN.
Qed.

Lemma http_request_ends name port request body c : ready c →
  wp (edg_wll_http_send_recv me (Some name) port request body) (request_ends c) c.
Proof.
  intros R. pose proof (running_refl me _ R) as R0. apply wp_bind.
  eapply wp_open; [done| |]; cycle 1.
  { intros c1 R1 E1. destruct (Z.eqb_spec (code c1) 0); [done|]. cbn [negb].
    apply wp_bind. eapply wp_error; [done|]. apply wp_ret. split_and!; [done..|].
    split; [done|by intros []]. }
  intros i c1 R1 E1. cbn [negb Z.eqb]. apply wp_bind. eapply wp_http_send; [done|].
  intros e c2 R2 E2. apply wp_bind.
  assert (∀ j c3, running (Some j) c c3 → wp ('(e, response) ← http_recv me (Some j);
    if e =? 0 then request_done me (Some j) response
    else if e =? ENOTCONN then
      '(ok, connToUse) ← reopen me (Some name) port request body (Some j);
      if negb ok then request_failed me connToUse else
      '(e, response) ← http_recv me connToUse;
      if e =? 0 then request_done me connToUse response else request_failed me connToUse
    else request_failed me (Some j)) (request_ends c) c3) as Hk.
  { intros j c3 R3. apply wp_bind. eapply wp_http_recv; [done|]. intros e3 s3 c4 R4 E4 Hs4.
    destruct (Z.eqb_spec e3 0) as [->|]; [by eapply wp_done; [..|apply Hs4]|].
    destruct (e3 =? ENOTCONN); [|eapply wp_failed; [done|congruence]].
    apply wp_bind. eapply wp_reopen; [done| |].
    - intros k c5 R5 E5. cbn [negb]. apply wp_bind. eapply wp_http_recv; [done|].
      intros e6 s6 c6 R6 E6 Hs6. destruct (Z.eqb_spec e6 0) as [->|].
      + by eapply wp_done; [..|apply Hs6].
      + eapply wp_failed; [done|congruence].
    - intros held c5 R5 E5. cbn [negb]. by eapply wp_failed. }
  destruct (e =? ENOTCONN).
  - eapply wp_reopen; [done| |].
    + intros j c3 R3 E3. cbn [negb]. by apply Hk.
    + intros held c3 R3 E3. cbn [negb]. by eapply wp_failed.
  - apply wp_ret. destruct (Z.eqb_spec e 0) as [->|]; cbn [negb]; [by apply Hk|].
    eapply wp_failed; [done|congruence].
Qed.

End Open.

(** A pool of two connections, one of which another context uses. *)
Definition busy_slot : ConnSlot :=
  mkSlot (Some "lb.cz"%string) 9000 None (mkGss true 4) 0 None.
Definition busy_pool : Connections := mkConns [busy_slot; zero_slot] 1 [Some 7%nat; None].
Lemma busy_reachable : pool_reachable 2 busy_pool.
Proof.
  eapply (pr_step 2 7); [apply pr_init|].
  exact (ps_add 7 (edg_wll_initConnections 2) 0 zero_slot busy_slot eq_refl eq_refl eq_refl eq_refl).
Qed.
Definition demo_client (w : demo) : client demo :=
  mkClient (zero_params 2) None (120, 0) busy_pool w.

