(* ===== verification/ProdProto.v ===== *)
(** * The protocols of the producer

    org.glite.lb.client/src/prod_proto.c: connections, messages and answers of the local
    logger, the proxy and the server.  A number that the C functions return as -1 for a failed
    transfer is -1 here; the text of an answer goes into the context. *)
From Stdlib Require Import ZArith Lia Ascii.
From stdpp Require Import base option list strings numbers.
From S2P Require Import Prelude CLib JobId LbTypes IlMsg Context Param Client ConnPool.
#[local] Open Scope Z_scope.

Definition LB_OK : Z := 0.
Definition LB_NOMEM : Z := 200.
Definition LB_PROTO : Z := 400.
Definition LB_PERM : Z := 600.
Definition LB_DBERR : Z := 700.
Definition EDG_WLL_LOG_SOCKET_HEADER : string := "DGLOG".
Definition UNIX_PATH_MAX : Z := 108.

(** The four bytes of a number, the lowest first. *)
Definition size_end (size : Z) : string :=
  let byte n := chr (Z.land (Z.shiftr size n) 255) in
  String (byte 0) (String (byte 8) (String (byte 16) (String (byte 24) ""))).

Section Proto.
Context {W : Type} `{Network W} `{Texts}.
Variable me : nat.
Abbreviation M := (Client.M W).

Definition handle_gss_failures (code errno : Z) (status text : string) : M Z :=
  ResetError;;
  let err fmt := str_take 255 (text +:+ fmt) in
  if 0 <? code then mret 0
  else if code =? -3 then SetError ENOTCONN (err ";; GSS Error: EOF occured;")
  else if code =? -2 then SetError ENOTCONN (err ";; GSS Error: timeout expired;")
  else if code =? -4 then SetError ENOTCONN (text +:+ ";; System Error: " +:+ strerror errno)
  else if code =? -1 then
    SetError EDG_WLL_ERROR_GSS (err ";; GSS Error: GSS failure occured" +:+ status)
  else if code =? -5 then
    SetError EDG_WLL_ERROR_DNS (text +:+ ";; GSS Error: " +:+ hstrerror errno)
  else SetError ECONNREFUSED (err ";; GSS Error: unknown failure").

(** ** Replies *)

(** A reader that may be undefined, for [read_il_data]. *)
Definition as_reader (m : Z → M (Z + string)) (u : outcome (client W)) (n : Z) :
    (Z + string) * outcome (client W) :=
  match u with
  | Ret c => match m n c with Ret (r, c') => (r, Ret c') | UB w => (inl (-1), UB w) end
  | UB w => (inl (-1), UB w)
  end.
Definition read_il (m : Z → M (Z + string)) : M (Z * option string) := fun c =>
  let! '(len, msg, u) := read_il_data (as_reader m) (Ret c) in
  let! c' := u in Ret ((len, msg), c').

Definition plain_reader (sock max_len : Z) : M (Z + string) :=
  r ← ask_timed me (PlainRead sock max_len);
  match r with
  | inl errno =>
    SetError errno "edg_wll_plain_read_full()";;
    UpdateError EDG_WLL_IL_PROTO "plain_reader(): error reading message data";;
    mret (inl (-1))
  | inr s => mret (inr s)
  end.

Definition gss_reader (l : link) (max_len : Z) : M (Z + string) :=
  r ← ask_timed me (GssRead l max_len);
  match r with
  | inl (code, errno, status) =>
    handle_gss_failures code errno status "edg_wll_gss_read_full";;
    UpdateError EDG_WLL_IL_PROTO "gss_reader(): error reading message";;
    mret (inl code)
  | inr s => mret (inr s)
  end.

(** The code of the context, and the parts of the reply if it could be read and decoded. *)
Definition reply : Type := Z * Z * option string.
Definition get_reply (reader : Z → M (Z + string)) (unread undecoded : M Z) :
    M (Z * option reply) :=
  '(len, msg) ← read_il reader;
  if len <? 0 then unread;; e ← Error; mret (e, None) else
  msg ← deref msg;
  r ← lift (decode_il_reply msg);
  match r with
  | Some (maj, min, err, _) => e ← Error; mret (e, Some (maj, min, err))
  | None => undecoded;; e ← Error; mret (e, None)
  end.
Definition get_reply_plain (sock : Z) : M (Z * option reply) :=
  get_reply (plain_reader sock)
    (SetError EDG_WLL_IL_PROTO "get_reply_plain(): error reading message")
    (SetError EDG_WLL_IL_PROTO "get_reply_plain(): error decoding message").
Definition get_reply_gss (l : link) : M (Z * option reply) :=
  get_reply (gss_reader l)
    (UpdateError EDG_WLL_IL_PROTO "get_reply_gss(): error reading reply")
    (UpdateError EDG_WLL_IL_PROTO "get_reply_gss(): error decoding reply").

(** The [switch] on the answer of a proxy or a server. *)
Definition answer_error (fn who server : string) (r : reply) : M unit :=
  let '(lbproto_code, code, answer) := r in
  (if lbproto_code =? LB_OK then mret 0
   else if lbproto_code =? LB_NOMEM then SetError ENOMEM (fn +:+ who +:+ " out of memory")
   else if lbproto_code =? LB_PROTO then
     SetError EDG_WLL_IL_PROTO (fn +:+ "received protocol error response")
   else if lbproto_code =? LB_DBERR then
     SetError code (str_take 255 (fn +:+ "error details from L&B " +:+ server +:+ ": " +:+ default "(null)" answer))
   else if lbproto_code =? LB_PERM then SetError EPERM (fn +:+ "operation not permitted")
   else SetError EDG_WLL_IL_PROTO (fn +:+ "received unknown protocol response"));;
  mret tt.

(** ** The local logger *)

(** The credentials are kept in the slot; without prescribed ones the call goes on. *)
Definition log_cred (i : nat) : M bool :=
  st ← gets cl_st;
  r ← ask me (AcquireCred (cert_file st) (key_file st));
  s ← slot i;
  match r, st.(p_proxy_filename) with
  | inl text, Some _ =>
    set_slot i (s <| gsiCred := None |>);;
    SetError EDG_WLL_ERROR_GSS
      ("edg_wll_gss_acquire_cred_gsi(): failed to load GSI credentials" +:+ text);;
    mret false
  | inl _, None => set_slot i (s <| gsiCred := None |>);; mret true
  | inr c, _ => set_slot i (s <| gsiCred := c |>);; mret true
  end.

(** The answer and the connection, -1 being [None]. *)
Definition edg_wll_log_connect : M (Z * option nat) :=
  ResetError;;
  st ← gets cl_st;
  r ← take_connection me st.(p_destination) st.(p_dest_port);
  match r with
  | inl PoolLocked =>
    a ← SetError EAGAIN "cannot release connection (pool size exceeded)"; mret (a, None)
  | inl PoolFull => a ← SetError EAGAIN "cannot add connection to pool"; mret (a, None)
  | inr i =>
    let failed : M (Z * option nat) :=
      (a ← gets (λ c, (ctx_of c).(errCode));
       CloseConnection me i;; edg_wll_connectionUnlock me i;; mret (a, None)) in
    let done : M (Z * option nat) := (edg_wll_connectionTryLock me i;; mret (0, Some i)) in
    ok ← log_cred i;
    if negb ok then failed else
    s ← slot i;
    if s.(gss).(gss_context) then done else
    ok ← log_cred i;
    if negb ok then failed else
    r ← connect_slot me i;
    match r with
    | GssOk => done
    | GssErr code errno text =>
      handle_gss_failures code errno text "edg_wll_gss_connect()";; failed
    end
  end.

Definition edg_wll_log_close (conn : option nat) : M Z :=
  match conn with
  | None => mret 0
  | Some i =>
    CloseConnection me i;; edg_wll_connectionUnlock me i;; mret 0
  end.

(** One [edg_wll_gss_write_full]: [false] if it failed, with the error in the context. *)
Definition log_write_part (i : nat) (data text : string) : M bool :=
  r ← ask_timed me (GssWrite (LPool i) data);
  match r with
  | GssOk => mret true
  | GssErr code errno status =>
    answer ← handle_gss_failures code errno status "edg_wll_gss_write_full()";
    UpdateError answer text;; mret false
  end.

(** The number of bytes sent or -1. *)
Definition edg_wll_log_write (i : nat) (logline : string) : M Z :=
  let size := os_len logline + 1 in
  ResetError;;
  ok ← log_write_part i EDG_WLL_LOG_SOCKET_HEADER "edg_wll_log_write(): error sending header";
  if negb ok then mret (-1) else
  ok ← log_write_part i (size_end size) "edg_wll_log_write(): error sending message size";
  if negb ok then mret (-1) else
  ok ← log_write_part i (logline +:+ String NUL "") "edg_wll_log_write(): error sending message";
  if negb ok then mret (-1) else
  mret (5 + 4 + size).

(** The answer is the error code of the context. *)
Definition edg_wll_log_read (i : nat) : M Z :=
  ResetError;;
  r ← ask_timed me (GssRead (LPool i) 4);
  match r with
  | inl (code, errno, status) =>
    answer ← handle_gss_failures code errno status "edg_wll_gss_read_full()";
    UpdateError answer "edg_wll_log_read(): error reading answer from local-logger";;
    mret (-1)
  | inr s =>
    SetError (le_int s) "edg_wll_log_read(): answer read from locallogger";; mret 4
  end.

(** ** The proxy: a socket *)
Definition edg_wll_log_proxy_connect (sock : Z) : M (Z * Z) :=
  ResetError;;
  st ← gets cl_st;
  match st.(p_lbproxy_store_sock) with
  | None =>
    a ← SetError EINVAL "edg_wll_log_proxy_connect(): missing lbproxy store socket parameter";
    mret (a, sock)
  | Some path =>
    if UNIX_PATH_MAX <=? os_len path then
      a ← SetError E2BIG "edg_wll_log_proxy_connect(): lbproxy store socket name too big";
      mret (a, sock)
    else
      r ← ask_timed me (PlainConnect path);
      match r with
      | inl errno =>
        a ← SetError (if errno =? EAGAIN then ETIMEDOUT else errno) "edg_wll_log_proxy_connect()";
        mret (a, -1)
      | inr sock => mret (0, sock)
      end
  end.

(** [edg_wll_plain_close]: every socket from 0 on is closed. *)
Definition edg_wll_log_proxy_close (sock : Z) : M unit :=
  if -1 <? sock then ask me (CloseSock sock) else mret tt.

Definition edg_wll_log_proxy_write (sock : Z) (logline : string) : M Z :=
  ResetError;;
  r ← lift (encode_il_msg logline);
  r ← ask_timed me (PlainWrite sock (fst r));
  match r with
  | None => mret (os_len logline)
  | Some errno =>
    SetError errno "edg_wll_plain_write_full()";;
    UpdateError EDG_WLL_IL_PROTO "edg_wll_log_proto_client_proxy(): error sending message to socket";;
    mret (-1)
  end.

Definition edg_wll_log_proxy_read (sock : Z) : M Z :=
  ResetError;;
  '(err, r) ← get_reply_plain sock;
  if negb (err =? 0) then
    UpdateError EDG_WLL_IL_PROTO "edg_wll_log_proxy_read(): error reading answer from lbproxy";;
    mret (-1)
  else
    r ← deref r;
    answer_error "edg_wll_log_proxy_read(): " "proxy" "Proxy server" r;; mret 0.

(** ** The server *)

(** The answer, and the connection with its socket. *)
Definition edg_wll_log_direct_connect (conn : gss_conn) : M (Z * gss_conn) :=
  ResetError;;
  job ← gets p_jobid;
  '(host, port) ← deref (glite_jobid_getServerParts job);
  st ← gets cl_st;
  r ← ask me (AcquireCred (cert_file st) (key_file st));
  match r, st.(p_proxy_filename) with
  | inl text, Some _ =>
    a ← SetError EDG_WLL_ERROR_GSS
      ("edg_wll_gss_acquire_cred_gsi(): failed to load GSI credentials" +:+ text);
    mret (a, conn)
  | _, _ =>
    let c := match r with inr c => c | inl _ => None end in
    r ← ask_timed me (GssConnect LDirect c host (u32 (port + 1)));
    match r with
    | (GssOk, sock) => mret (0, mkGss true sock)
    | (GssErr code errno text, _) =>
      a ← handle_gss_failures code errno text "edg_wll_gss_connect()"; mret (a, conn)
    end
  end.

Definition edg_wll_log_direct_close (conn : gss_conn) : M unit :=
  if conn.(gss_context) then ask me (GssClose LDirect) else mret tt.

Definition edg_wll_log_direct_write (logline : string) : M Z :=
  ResetError;;
  r ← lift (encode_il_msg logline);
  r ← ask_timed me (GssWrite LDirect (fst r));
  match r with
  | GssOk => mret (os_len logline)
  | GssErr code errno status =>
    handle_gss_failures code errno status "edg_wll_gss_write_full()";;
    UpdateError EDG_WLL_IL_PROTO "edg_wll_log_direct_write(): error sending message";;
    mret (-1)
  end.

Definition edg_wll_log_direct_read : M Z :=
  ResetError;;
  '(err, r) ← get_reply_gss LDirect;
  if negb (err =? 0) then
    UpdateError EDG_WLL_IL_PROTO
      "edg_wll_log_proto_client_direct(): error reading answer from L&B direct server";;
    mret (-1)
  else
    r ← deref r;
    answer_error "edg_wll_log_direct_read(): " "server" "server" r;; mret 0.
End Proto.
