(* ===== verification/ProtoProps.v ===== *)
(** * The protocols of the producer end well

    Rules for the functions of ProdProto: whatever an honest world answers they are defined,
    keep the context but for its error, and hold exactly the connection they say. *)
From Stdlib Require Import ZArith Lia Ascii.
From stdpp Require Import base option list strings numbers relations.
From S2P Require Import Prelude CLib JobId LbTypes IlMsg Context Param Client ConnPool PoolProps PoolOpen ProdProto.
#[local] Open Scope Z_scope.

Section Rules.
Context {W : Type} `{HonestReplies W} `{Texts}.
Variable me : nat.
Implicit Types c : client W.
#[local] Abbreviation running := (running me).

(** A call whose error code is [r] when it is not [ok]. *)
Lemma wp_gss_failures held c0 c k e x text Q : running held c0 c → gss_ok (GssErr k e x) →
  (∀ r c', running held c0 c' → code c' = r → r ≠ 0 → known_code r = true →
     c'.(connections) = c.(connections) → Q r c') →
  wp (handle_gss_failures k e x text) Q c.
Proof.
  intros R [Hk He] HQ. apply wp_bind. eapply wp_reset; [done|]. intros c1 R1 E1 E2.
  assert (∀ n d, n ≠ 0 → known_code n = true → wp (SetError n d) Q c1) as Hset.
  { intros n d Hn Hkn. eapply wp_set_error; [done..|]. intros c2 R2 E3 E4.
    apply HQ; [done..|congruence]. }
  destruct (Z.ltb_spec 0 k); [lia|].
  repeat (case_match; zbool; [by apply Hset|]). by apply Hset.
Qed.

(** ** Replies *)

(** [wp_timed] with the answer of the world. *)
Lemma wp_timed_eq {A} held c0 c (e : timeval → netE (A * timeval)) Q : running held c0 c →
  (∀ t, may_use me (e t) c.(connections).(locked_by) = true) →
  (∀ t r c', running held c0 c' → answer_ok (e t) r → code c' = code c →
     c'.(connections) = c.(connections) → net_do (e t) c.(world) = (r, c'.(world)) → Q r.1 c') →
  wp (ask_timed me e) Q c.
Proof.
  intros R Hm HQ. apply wp_bind, wp_gets, wp_bind.
  apply wp_ask; [done|]. intros r w E.
  destruct (honest_ask _ _ _ _ (ru_world _ _ _ _ R) E) as (Hw & Ha & Hi).
  apply wp_bind, wp_modify, wp_ret.
  eapply HQ; try done. eapply running_same; try done; try apply R. cbn.
  destruct (interrupted _ _); lia.
Qed.

Definition reader_spec {X} held c0 (m : Z → M W (Z + string))
    (read : Z → timeval → W → (X + string) * timeval * W) : Prop :=
  ∀ n c, running held c0 c →
  wp (m n) (λ r c', running held c0 c' ∧ c'.(connections) = c.(connections) ∧
    match r with
    | inl e => e < 0
    | inr s => code c' = code c ∧ ∃ t t1, read n t c.(world) = (inr s, t1, c'.(world))
    end) c.

Lemma plain_reader_spec held c0 sock :
  reader_spec held c0 (plain_reader me sock) (λ n t, net_do (PlainRead sock n t)).
Proof.
  intros n c R. apply wp_bind. eapply wp_timed_eq; [done..|].
  intros t [[e|s] t1] c1 R1 Ha E1 E2 E3; cbn [fst] in *; cbn in Ha.
  - apply wp_bind. eapply wp_set_error; [done| |].
    { unfold known_code, errno_ok, EDG_WLL_ERROR_BASE in *. apply Z.leb_le. lia. }
    intros c2 R2 _ E4. apply wp_bind. eapply wp_update_error; [done..|].
    intros c3 R3 _ E5 _. apply wp_ret. split_and!; [done|congruence|done].
  - apply wp_ret. split_and!; eauto.
Qed.

Lemma gss_reader_spec held c0 :
  reader_spec held c0 (gss_reader me LDirect) (λ n t, net_do (GssRead LDirect n t)).
Proof.
  intros n c R. apply wp_bind. eapply wp_timed_eq; [done..|].
  intros t [[[[k e] x]|s] t1] c1 R1 Ha E1 E2 E3; cbn [fst] in *; cbn in Ha.
  - apply wp_bind. eapply wp_gss_failures; [done..|]. intros r c2 R2 _ _ _ E4.
    apply wp_bind. eapply wp_update_error; [done..|].
    intros c3 R3 _ E5 _. apply wp_ret. split_and!; [done|congruence|]. destruct Ha. lia.
  - apply wp_ret. split_and!; eauto.
Qed.

Lemma wp_read_il {X} held c0 c m (read : Z → timeval → W → (X + string) * timeval * W) Q :
  running held c0 c → reader_spec held c0 m read → replies_ok read c.(world) →
  (∀ len msg c', running held c0 c' → c'.(connections) = c.(connections) →
     (0 <= len → code c' = code c ∧ ∃ s, msg = Some s ∧ reply_known s) → Q (len, msg) c') →
  wp (read_il m) Q c.
Proof.
  intros R Hm Hr HQ. unfold wp, read_il, read_il_data. cbn [as_reader].
  destruct (wp_run _ _ _ (Hm 17 c R)) as (r & c1 & E1 & R1 & Ec1 & Hs). rewrite E1.
  destruct r as [e|buf].
  { cbn. apply HQ; [done..|]. lia. }
  destruct Hs as (Ecode & t & t1 & Eread). destruct (Hr _ _ _ _ Eread) as (a & -> & Ha).
  destruct (Ascii.eqb_spec a NL) as [Ea|]; cbn [negb]; [|cbn; apply HQ; [done..|lia]].
  specialize (Ha Ea). cbn zeta in Ha. destruct (header_ok _) eqn:Eh; cbn [negb];
    [|cbn; apply HQ; [done..|lia]].
  destruct (Z.leb_spec (atoi (c_string (str_take 16 buf))) 0); [cbn; apply HQ; [done..|lia]|].
  destruct Ha as [Hmax Hbody]; [done|done|].
  destruct (Z.eqb_spec (atoi (c_string (str_take 16 buf))) INT_MAX); [done|].
  destruct (wp_run _ _ _ (Hm (atoi (c_string (str_take 16 buf))) c1 R1))
    as (r & c2 & E2 & R2 & Ec2 & Hs2). cbn [as_reader]. rewrite E2.
  destruct r as [e|body]; [cbn; apply HQ; [done|congruence|lia]|].
  destruct Hs2 as (Ecode2 & t2 & t3 & Eread2). cbn. apply HQ; [done|congruence|].
  intros _. split; [congruence|]. eexists. split; [done|]. by eapply Hbody.
Qed.

(** The code that an answer leaves in a context without an error. *)
Definition reply_code (r : reply) : Z :=
  let '(maj, min, _) := r in
  if maj =? LB_OK then 0 else if maj =? LB_NOMEM then ENOMEM
  else if maj =? LB_PROTO then EDG_WLL_IL_PROTO else if maj =? LB_DBERR then min
  else if maj =? LB_PERM then EPERM else EDG_WLL_IL_PROTO.
Definition known_reply (r : reply) : Prop := known_code r.1.2 = true.

(** What is left of a reply that was read and decoded. *)
Definition got_reply held c0 c (Q : Z * option reply → client W → Prop) : Prop :=
  (∀ c', running held c0 c' → code c' ≠ 0 → c'.(connections) = c.(connections) →
     Q (code c', None) c') ∧
  (∀ r c', running held c0 c' → code c' = 0 → c'.(connections) = c.(connections) →
     known_reply r → Q (0, Some r) c').

Lemma wp_get_reply {X} held c0 c m (read : Z → timeval → W → (X + string) * timeval * W)
    (unread undecoded : M W Z) Q : running held c0 c → code c = 0 →
  reader_spec held c0 m read → replies_ok read c.(world) →
  (∀ f c1 P, f = unread ∨ f = undecoded → running held c0 c1 →
     (∀ a c2, running held c0 c2 → code c2 ≠ 0 → c2.(connections) = c1.(connections) → P a c2) →
     wp f P c1) →
  got_reply held c0 c Q → wp (get_reply m unread undecoded) Q c.
Proof.
  intros R E0 Hm Hr Hf [HE HQ]. apply wp_bind. eapply wp_read_il; [done..|].
  intros len msg c1 R1 E1 Hmsg.
  assert (∀ f, f = unread ∨ f = undecoded → wp (f;; e ← Error; mret (e, None)) Q c1) as Herr.
  { intros f Hor. apply wp_bind. eapply Hf; [done..|]. intros a c2 R2 E2 E3. apply wp_bind.
    eapply wp_error; [done|]. apply wp_ret, HE; [done..|congruence]. }
  destruct (Z.ltb_spec len 0); [apply Herr; by left|].
  destruct Hmsg as (E2 & s & -> & Hs); [lia|]. apply wp_bind, wp_ret, wp_bind.
  unfold reply_known in Hs. destruct (decode_il_reply s) as [[[[[maj min] err] n]|]|]; [| |done].
  - apply wp_ret, wp_bind. eapply wp_error; [done|]. rewrite E2, E0.
    apply wp_ret, HQ; [done|congruence|done|done].
  - apply wp_ret, Herr. by right.
Qed.

Lemma wp_reply_plain held c0 c sock Q : running held c0 c → code c = 0 →
  got_reply held c0 c Q → wp (get_reply_plain me sock) Q c.
Proof.
  intros R E0 HQ. eapply wp_get_reply; [done|done|apply plain_reader_spec| | |done].
  - apply honest_plain, R.
  - intros f c1 P Hf R1 HP. destruct Hf as [-> | ->]; (eapply wp_set_error; [done..|]);
      intros c2 R2 E2 E3; apply HP; rewrite ?E2; done.
Qed.
Lemma wp_reply_gss held c0 c Q : running held c0 c → code c = 0 →
  got_reply held c0 c Q → wp (get_reply_gss me LDirect) Q c.
Proof.
  intros R E0 HQ. eapply wp_get_reply; [done|done|apply gss_reader_spec| | |done].
  - apply honest_direct, R.
  - intros f c1 P Hf R1 HP. destruct Hf as [-> | ->]; (eapply wp_update_error; [done..|]);
      intros c2 R2 E2 E3 _; apply HP; rewrite ?E2; done.
Qed.

Lemma wp_answer_error held c0 c fn who server r Q : running held c0 c → code c = 0 →
  known_reply r →
  (∀ c', running held c0 c' → code c' = reply_code r → c'.(connections) = c.(connections) →
     Q tt c') →
  wp (answer_error fn who server r) Q c.
Proof.
  intros R E0 Hk HQ. destruct r as [[maj min] err]. unfold known_reply in Hk. cbn in Hk.
  apply wp_bind. unfold reply_code in HQ.
  repeat case_match; try (apply wp_ret, wp_ret, HQ; done);
    (eapply wp_set_error; [done|done|]); intros c1 R1 E1 E2; by apply wp_ret, HQ.
Qed.

(** Reading an answer: -1 with an error, or 0 with the code of the answer. *)
Definition read_answer held c0 c (Q : Z → client W → Prop) : Prop :=
  ∀ r c', running held c0 c' → c'.(connections) = c.(connections) →
    (r = -1 ∧ code c' ≠ 0 ∨ r = 0 ∧ known_code (code c') = true) → Q r c'.

Lemma wp_proxy_read held c0 c sock Q : running held c0 c → read_answer held c0 c Q →
  wp (edg_wll_log_proxy_read me sock) Q c.
Proof.
  intros R HQ. apply wp_bind. eapply wp_reset; [done|]. intros c1 R1 E1 E2. apply wp_bind.
  eapply wp_reply_plain; [done..|]. split.
  - intros c2 R2 E3 E4. destruct (Z.eqb_spec (code c2) 0); [done|]. cbn [negb]. apply wp_bind.
    eapply wp_update_error; [done..|]. intros c3 R3 E5 E6 _. apply wp_ret, HQ; [done|congruence|].
    left. split; [done|]. by rewrite E5.
  - intros r c2 R2 E3 E4 Hk. cbn [negb Z.eqb]. apply wp_bind, wp_ret, wp_bind.
    eapply wp_answer_error; [done..|]. intros c3 R3 E5 E6. apply wp_ret, HQ; [done|congruence|].
    right. split; [done|apply R3].
Qed.
Lemma wp_direct_read held c0 c Q : running held c0 c → read_answer held c0 c Q →
  wp (edg_wll_log_direct_read me) Q c.
Proof.
  intros R HQ. apply wp_bind. eapply wp_reset; [done|]. intros c1 R1 E1 E2. apply wp_bind.
  eapply wp_reply_gss; [done..|]. split.
  - intros c2 R2 E3 E4. destruct (Z.eqb_spec (code c2) 0); [done|]. cbn [negb]. apply wp_bind.
    eapply wp_update_error; [done..|]. intros c3 R3 E5 E6 _. apply wp_ret, HQ; [done|congruence|].
    left. split; [done|]. by rewrite E5.
  - intros r c2 R2 E3 E4 Hk. cbn [negb Z.eqb]. apply wp_bind, wp_ret, wp_bind.
    eapply wp_answer_error; [done..|]. intros c3 R3 E5 E6. apply wp_ret, HQ; [done|congruence|].
    right. split; [done|apply R3].
Qed.

(** ** The local logger *)
Lemma wp_log_cred i c0 c Q : running (Some i) c0 c → code c = 0 →
  keeps_own me i c0 Q → wp (log_cred me i) Q c.
Proof.
  intros R E0 HQ. apply wp_bind, wp_gets, wp_bind. eapply wp_ask_running; [done..|].
  intros r c1 R1 _ E1 _ _. apply wp_bind. eapply wp_my_slot; [done|]. intros s Hs Hn.
  destruct r as [text|cr]; [destruct (p_proxy_filename (cl_st c))|].
  - apply wp_bind. eapply wp_work; [done..|]. intros c2 R2 E2 _. apply wp_bind.
    eapply wp_set_error; [done..|]. intros c3 R3 E3 _. apply wp_ret, HQ; [done|]. by rewrite E3.
  - apply wp_bind. eapply wp_work; [done..|]. intros c2 R2 E2 _. apply wp_ret, HQ; [done|congruence].
  - apply wp_bind. eapply wp_work; [done..|]. intros c2 R2 E2 _. apply wp_ret, HQ; [done|congruence].
Qed.

Lemma wp_log_connect c0 c Q : running None c0 c → is_Some c.(cl_st).(p_destination) →
  (∀ i c', running (Some i) c0 c' → code c' = 0 → Q (0, Some i) c') →
  (∀ a c', running None c0 c' → a ≠ 0 → Q (a, None) c') →
  wp (edg_wll_log_connect me) Q c.
Proof.
  intros R [dest Hd] HQ HN. apply wp_bind. eapply wp_reset; [done|]. intros c1 R1 E1 _.
  apply wp_bind, wp_gets.
  assert (p_destination (cl_st c1) = Some dest) as ->.
  { pose proof (f_equal p_destination (ru_st _ _ _ _ R1)) as F1.
    pose proof (f_equal p_destination (ru_st _ _ _ _ R)) as F2. cbn in F1, F2. congruence. }
  apply wp_bind. eapply wp_take; [done..| |].
  - intros i c2 R2 E2.
    assert (∀ c3, running (Some i) c0 c3 → code c3 ≠ 0 → wp
      (a ← gets (λ c, (ctx_of c).(errCode));
       CloseConnection me i;; edg_wll_connectionUnlock me i;; mret (a, None)) Q c3) as Hfail.
    { intros c3 R3 E3. apply wp_bind, wp_gets. eapply wp_close_unlock; [done|].
      intros c4 R4 E4. by apply wp_ret, HN. }
    assert (∀ c3, running (Some i) c0 c3 → code c3 = 0 → wp
      (edg_wll_connectionTryLock me i;; mret (0, Some i)) Q c3) as Hdone.
    { intros c3 R3 E3. apply wp_bind. eapply wp_trylock_held; [done|]. by apply wp_ret, HQ. }
    apply wp_bind. eapply wp_log_cred; [done..|]. intros [] c3 R3 E3; cbn [negb]; [|by apply Hfail].
    apply wp_bind. eapply wp_my_slot; [done|]. intros s Hs Hn.
    destruct (gss_context (gss s)); [by apply Hdone|].
    apply wp_bind. eapply wp_log_cred; [done..|]. intros [] c4 R4 E4; cbn [negb]; [|by apply Hfail].
    apply wp_bind. eapply wp_connect_slot; [done|]. intros [|k e x] c5 R5 E5 Hg.
    + apply Hdone; [done|congruence].
    + apply wp_bind. eapply wp_gss_failures; [done..|]. intros r c6 R6 E6 Hr _ _.
      apply Hfail; [done|congruence].
  - intros [] c2 R2 E2; apply wp_bind; (eapply wp_set_error; [done..|]); intros c3 R3 E3 _;
      by apply wp_ret, HN.
Qed.

Lemma wp_write_part i c0 c data text Q : running (Some i) c0 c →
  (∀ b : bool, ∀ c', running (Some i) c0 c' → (if b then code c' = code c else code c' ≠ 0) → Q b c') →
  wp (log_write_part me i data text) Q c.
Proof.
  intros R HQ. apply wp_bind. eapply wp_timed; [done| |].
  { intros t. cbn. by rewrite (running_held _ _ _ _ R), bool_decide_true. }
  intros t [[|k e x] t1] c1 R1 Ha E1 E2 _; cbn [fst] in *; [by apply wp_ret, HQ|].
  apply wp_bind. eapply wp_gss_failures; [done..|]. intros r c2 R2 E3 Hr Hk _.
  apply wp_bind. eapply wp_update_error; [done..|]. intros c3 R3 E4 _ _. apply wp_ret, HQ; [done|].
  rewrite E4. by destruct (Z.eqb_spec r 0).
Qed.

Lemma wp_log_write i c0 c line Q : running (Some i) c0 c →
  (∀ r c', running (Some i) c0 c' → (r = -1 ∧ code c' ≠ 0 ∨ 0 <= r ∧ code c' = 0) → Q r c') →
  wp (edg_wll_log_write me i line) Q c.
Proof.
  intros R HQ. apply wp_bind. eapply wp_reset; [done|]. intros c1 R1 E1 _.
  apply wp_bind. eapply wp_write_part; [done|]. intros [] c2 R2 E2; cbn [negb]; [|apply wp_ret, HQ; auto].
  apply wp_bind. eapply wp_write_part; [done|]. intros [] c3 R3 E3; cbn [negb]; [|apply wp_ret, HQ; auto].
  apply wp_bind. eapply wp_write_part; [done|]. intros [] c4 R4 E4; cbn [negb]; [|apply wp_ret, HQ; auto].
  apply wp_ret, HQ; [done|]. right. pose proof (os_len_nonneg line). split; [lia|congruence].
Qed.

Lemma wp_log_read i c0 c Q : running (Some i) c0 c →
  (∀ r c', running (Some i) c0 c' → (r = -1 ∧ code c' ≠ 0 ∨ r = 4) → Q r c') →
  wp (edg_wll_log_read me i) Q c.
Proof.
  intros R HQ. apply wp_bind. eapply wp_reset; [done|]. intros c1 R1 E1 _.
  apply wp_bind. eapply wp_timed; [done| |].
  { intros t. cbn. by rewrite (running_held _ _ _ _ R1), bool_decide_true. }
  intros t [[[[k e] x]|s] t1] c2 R2 Ha E2 E3 _; cbn [fst] in *; cbn in Ha.
  - apply wp_bind. eapply wp_gss_failures; [done..|]. intros r c3 R3 E4 Hr Hk _.
    apply wp_bind. eapply wp_update_error; [done..|]. intros c4 R4 E5 _ _. apply wp_ret, HQ; [done|].
    left. split; [done|]. rewrite E5. by destruct (Z.eqb_spec r 0).
  - destruct Ha as [_ Hk]. apply wp_bind. eapply wp_set_error; [done..|]. intros c3 R3 E4 _.
    apply wp_ret, HQ; auto.
Qed.

(** ** The proxy and the server *)
Lemma errno_known e : errno_ok e → known_code e = true ∧ e ≠ 0.
Proof. unfold errno_ok, known_code, EDG_WLL_ERROR_BASE. intros. split; [apply Z.leb_le|]; lia. Qed.

Lemma wp_proxy_connect held c0 c sock Q : running held c0 c → 0 <= sock →
  (∀ a s c', running held c0 c' → c'.(connections) = c.(connections) →
     (a = 0 → 0 <= s) → Q (a, s) c') →
  wp (edg_wll_log_proxy_connect me sock) Q c.
Proof.
  intros R Hs HQ. apply wp_bind. eapply wp_reset; [done|]. intros c1 R1 E1 E2.
  apply wp_bind, wp_gets. destruct (p_lbproxy_store_sock (cl_st c1)) as [path|].
  - destruct (UNIX_PATH_MAX <=? os_len path).
    { apply wp_bind. eapply wp_set_error; [done..|]. intros c2 R2 _ E3.
      apply wp_ret, HQ; [done|congruence|done]. }
    apply wp_bind. eapply wp_timed; [done..|]. intros t [[e|s] t1] c2 R2 Ha E3 E4 _; cbn in *.
    + apply wp_bind. destruct (errno_known _ Ha).
      eapply wp_set_error; [done|by destruct (e =? EAGAIN)|]. intros c3 R3 _ E5.
      apply wp_ret, HQ; [done|congruence|]. destruct (e =? EAGAIN); [done|lia].
    + apply wp_ret, HQ; [done|congruence|done].
  - apply wp_bind. eapply wp_set_error; [done..|]. intros c2 R2 _ E3.
    apply wp_ret, HQ; [done|congruence|done].
Qed.

Lemma wp_proxy_close held c0 c sock Q : running held c0 c →
  (∀ c', running held c0 c' → code c' = code c → Q tt c') →
  wp (edg_wll_log_proxy_close me sock) Q c.
Proof.
  intros R HQ. unfold edg_wll_log_proxy_close. destruct (_ <? _); [|by apply wp_ret, HQ].
  eapply wp_ask_running; [done..|]. intros [] c1 R1 _ E1 _ _. by apply HQ.
Qed.
Lemma wp_direct_close held c0 c conn Q : running held c0 c →
  (∀ c', running held c0 c' → code c' = code c → Q tt c') →
  wp (edg_wll_log_direct_close me conn) Q c.
Proof.
  intros R HQ. unfold edg_wll_log_direct_close. destruct (gss_context _); [|by apply wp_ret, HQ].
  eapply wp_ask_running; [done..|]. intros [] c1 R1 _ E1 _ _. by apply HQ.
Qed.

(** Writing: -1 with an error, or not. *)
Definition wrote held c0 c (Q : Z → client W → Prop) : Prop :=
  ∀ r c', running held c0 c' → c'.(connections) = c.(connections) →
    (r = -1 ∧ code c' ≠ 0 ∨ 0 <= r ∧ code c' = 0) → Q r c'.

Lemma wp_proxy_write held c0 c sock line Q : running held c0 c → il_small line →
  wrote held c0 c Q → wp (edg_wll_log_proxy_write me sock line) Q c.
Proof.
  intros R Hl HQ. apply wp_bind. eapply wp_reset; [done|]. intros c1 R1 E1 E2.
  apply wp_bind. eapply wp_lift; [by apply encode_il_msg_ok|]. apply wp_bind.
  eapply wp_timed; [done..|]. intros t [[e|] t1] c2 R2 Ha E3 E4 _; cbn in *.
  - apply wp_bind. destruct (errno_known _ Ha). eapply wp_set_error; [done..|]. intros c3 R3 E5 E6.
    apply wp_bind. eapply wp_update_error; [done..|]. intros c4 R4 E7 E8 _.
    apply wp_ret, HQ; [done|congruence|]. left. split; [done|]. by rewrite E7.
  - apply wp_ret, HQ; [done|congruence|]. right. split; [apply os_len_nonneg|congruence].
Qed.
Lemma wp_direct_write held c0 c line Q : running held c0 c → il_small line →
  wrote held c0 c Q → wp (edg_wll_log_direct_write me line) Q c.
Proof.
  intros R Hl HQ. apply wp_bind. eapply wp_reset; [done|]. intros c1 R1 E1 E2.
  apply wp_bind. eapply wp_lift; [by apply encode_il_msg_ok|]. apply wp_bind.
  eapply wp_timed; [done..|]. intros t [[|k e x] t1] c2 R2 Ha E3 E4 _; cbn [fst] in *; cbn in Ha.
  - apply wp_ret, HQ; [done|congruence|]. right. split; [apply os_len_nonneg|congruence].
  - apply wp_bind. eapply wp_gss_failures; [done..|]. intros r c3 R3 E5 Hr Hk E6.
    apply wp_bind. eapply wp_update_error; [done..|]. intros c4 R4 E7 E8 _.
    apply wp_ret, HQ; [done|congruence|]. left. split; [done|]. by rewrite E7.
Qed.

Lemma wp_direct_connect held c0 c conn Q : running held c0 c → is_Some c0.(p_jobid) →
  (∀ a s c', running held c0 c' → c'.(connections) = c.(connections) → Q (a, s) c') →
  wp (edg_wll_log_direct_connect me conn) Q c.
Proof.
  intros R [job Hj] HQ. apply wp_bind. eapply wp_reset; [done|]. intros c1 R1 E1 E2.
  apply wp_bind, wp_gets. rewrite (ru_job _ _ _ _ R1), Hj. apply wp_bind, wp_ret.
  apply wp_bind, wp_gets, wp_bind. eapply wp_ask_running; [done..|]. intros r c2 R2 _ E3 E4 _.
  assert (∀ cr : option cred, wp
    (r ← ask_timed me (GssConnect LDirect cr job.(BShost) (u32 (port_of job + 1)));
     match r with
     | (GssOk, sock) => mret (0, mkGss true sock)
     | (GssErr code errno text, _) =>
       a ← handle_gss_failures code errno text "edg_wll_gss_connect()"; mret (a, conn)
     end) Q c2) as Hc.
  { intros cr. apply wp_bind. eapply wp_timed; [done..|].
    intros t [[[|k e x] sock] t1] c3 R3 [Ha _] E5 E6 _; cbn [fst] in *.
    - apply wp_ret, HQ; [done|congruence].
    - apply wp_bind. eapply wp_gss_failures; [done..|]. intros a c4 R4 E7 Hr Hk E8.
      apply wp_ret, HQ; [done|congruence]. }
  destruct r as [text|cr]; [destruct (p_proxy_filename (cl_st c1))|].
  - apply wp_bind. eapply wp_set_error; [done..|]. intros c3 R3 E5 E6. apply wp_ret, HQ; [done|congruence].
  - apply Hc.
  - apply Hc.
Qed.
End Rules.
