(* ===== verification/Producer.v ===== *)
(** * The producer library

    org.glite.lb.client/src/producer.c: logging of events, registration of jobs, flushing.  A
    call of a logging function is given the fields that its format prints; everything that
    is sent goes through ProdProto. *)
From Stdlib Require Import ZArith Lia Ascii.
From stdpp Require Import base option list strings numbers.
From S2P Require Import Prelude CLib JobId LbTypes Events Context Escape Ulm UlmLine UlmDate Param DbStore Client ConnPool ProdProto.
#[local] Open Scope Z_scope.

(** ** Flags and constants *)
Definition EDG_WLL_LOGFLAG_SYNC : Z := 2.
Definition EDG_WLL_LOGFLAG_LOCAL : Z := 4.
Definition EDG_WLL_LOGFLAG_PROXY : Z := 8.
Definition EDG_WLL_LOGFLAG_DIRECT : Z := 16.
Definition EDG_WLL_LOGLFLAG_EXCL : Z := 64.
Definition EDG_WLL_LOGFLAG_FILE : Z := 128.
Definition EDG_WLL_LOG_SYNC_MAXMSGSIZE : Z := 102400000.
Definition EDG_WLL_LOG_PREFIX_DEFAULT : string := "/var/spool/glite/lb-locallogger/dglogd.log".
Definition DEFAULT_SOCKET : string := "/var/run/glite/glite-lb-interlogger.sock".
Definition FCNTL_ATTEMPTS : Z := 5.

Definition flag (flags f : Z) : bool := negb (Z.land flags f =? 0).

Definition edg_wll_LevelNames : list string :=
  ["UNDEFINED"; "EMERGENCY"; "ALERT"; "ERROR"; "WARNING"; "AUTH"; "SECURITY"; "USAGE";
   "SYSTEM"; "IMPORTANT"; "DEBUG"].
Definition edg_wll_LevelToString (l : Z) : option string :=
  if l <? 0 then None else edg_wll_LevelNames !! Z.to_nat l.

Definition edg_wll_RegJobJobtypeNames : list string :=
  ["UNDEFINED"; "SIMPLE"; "DAG"; "PARTITIONABLE"; "PARTITIONED"; "COLLECTION"; "PBS"; "CONDOR";
   "CREAM"; "FILE_TRANSFER_COLLECTION"; "FILE_TRANSFER"; "VIRTUAL_MACHINE"].
Definition edg_wll_RegJobJobtypeToString (t : Z) : option string :=
  if t <? 0 then None else edg_wll_RegJobJobtypeNames !! Z.to_nat t.
Definition EDG_WLL_REGJOB_SIMPLE : Z := 1.
Definition EDG_WLL_REGJOB_DAG : Z := 2.
Definition EDG_WLL_REGJOB_PARTITIONED : Z := 4.
Definition EDG_WLL_REGJOB_COLLECTION : Z := 5.
Definition EDG_WLL_REGJOB_PBS : Z := 6.
Definition EDG_WLL_REGJOB_CONDOR : Z := 7.
Definition EDG_WLL_REGJOB_CREAM : Z := 8.
Definition EDG_WLL_REGJOB_FILE_TRANSFER_COLLECTION : Z := 9.
Definition EDG_WLL_REGJOB_FILE_TRANSFER : Z := 10.

(** NULL prints as nothing with ["%|Us"], since [glite_lbu_EscapeULM] makes it the empty text,
    and as ["(null)"] with ["%s"]. *)
Definition us (s : option string) : ulm_value := Quoted (default ""%string s).

Definition EDG_WLL_FORMAT_REGJOB (jdl ns : option string) (parent jobtype : string)
    (nsubjobs : Z) (seed wms_dn : option string) : list ulm_field :=
  [("DG.REGJOB.JDL", us jdl); ("DG.REGJOB.NS", us ns); ("DG.REGJOB.PARENT", Verbatim parent);
   ("DG.REGJOB.JOBTYPE", Verbatim jobtype); ("DG.REGJOB.NSUBJOBS", Verbatim (print_int nsubjobs));
   ("DG.REGJOB.SEED", us seed); ("DG.REGJOB.WMS_DN", us wms_dn)]%string.

Definition srcNames : list string :=
  ["Undefined"; "UserInterface"; "NetworkServer"; "WorkloadManager"; "BigHelper"; "JobController";
   "LogMonitor"; "LRMS"; "Application"; "LBServer"; "CREAMInterface"; "CREAMExecutor";
   "PBSClient"; "PBSServer"; "PBSMomSuperior"; "PBSMom"; "PBSScheduler"; "CloudManager";
   "VMManager"; "VMSystem"].
Definition source_text (s : edg_wll_Source) : string := default ""%string (srcNames !! source_index s).

Section Producer.
Context {W : Type} `{Network W} `{Texts}.
(** The context, its environment and host (for the defaults of parameters), and the digest of
    [str2md5base64]. *)
Variables (me : nat) (env : environment) (hostname : string) (str2md5base64 : string → string).
Abbreviation M := (Client.M W).

(** [static char err[256]]. *)
Definition handle_errors (code : Z) (text : string) : M Z :=
  (if bool_decide (code ∈ [0; EINVAL; ENOSPC; ENOMEM; EDG_WLL_ERROR_GSS; EDG_WLL_ERROR_DNS;
       ENOTCONN; ECONNREFUSED; ETIMEDOUT; EAGAIN; EPERM]) then mret 0
   else if bool_decide (code ∈ [EDG_WLL_ERROR_PARSE_EVENT_UNDEF; EDG_WLL_ERROR_PARSE_MSG_INCOMPLETE;
       EDG_WLL_ERROR_PARSE_KEY_DUPLICITY; EDG_WLL_ERROR_PARSE_KEY_MISUSE]) then
     UpdateError EINVAL (str_take 255 (text +:+ ": Error code mapped to EINVAL"))
   else UpdateError EAGAIN (str_take 255 (text +:+ ": Error code mapped to EAGAIN")));;
  Error.

(** ** Sending a line to the local logger *)

(** One attempt, up to the label and the unlocking behind it: the answer. *)
Definition log_attempt (logline : string) (answer : Z) : M Z :=
  '(ret, conn) ← edg_wll_log_connect me;
  '(ret, answer) ←
    (if negb (ret =? 0) then
       UpdateError EDG_WLL_IL_PROTO "edg_wll_DoLogEvent(): edg_wll_log_connect error";;
       mret (ret, answer)
     else
       i ← deref conn;
       ret ← edg_wll_log_write me i logline;
       if ret =? -1 then
         answer ← Error;
         UpdateError EDG_WLL_IL_PROTO "edg_wll_DoLogEvent(): edg_wll_log_write error";;
         mret (ret, answer)
       else
         ret ← edg_wll_log_read me i;
         answer ← Error;
         (if ret =? -1 then
            UpdateError EDG_WLL_IL_PROTO "edg_wll_DoLogEvent(): edg_wll_log_read error"
          else mret 0);;
         mret (ret, answer));
  match conn with
  | Some i => if ret =? -1 then edg_wll_log_close me conn else edg_wll_connectionUnlock me i
  | None => mret 0
  end;;
  mret answer.

Definition edg_wll_DoLogEvent (logline : string) : M Z :=
  ResetError;;
  answer ← log_attempt logline EAGAIN;
  answer ← (if (answer =? ENOTCONN) || (answer =? EPIPE) then log_attempt logline answer
            else mret answer);
  handle_errors answer "edg_wll_DoLogEvent()".

(** ** Sending a line to the proxy and the server *)

(** [FD_ISSET(fd,&fdset)] *)
Definition isset (fd : Z) (fds : list Z) : bool := bool_decide (fd ∈ fds).

(** The answers that are still to come are read as [select] reports them; [lb] and [bk] are the
    sockets.  [fuel] bounds the number of turns. *)
Fixpoint read_answers (fuel : nat) (flags lb bk count : Z) (proxy_answer direct_answer : bool) :
    M unit :=
  if count <=? 0 then mret tt else
  match fuel with
  | O => undefined NoFuel
  | S fuel =>
    let want_direct := flag flags EDG_WLL_LOGFLAG_DIRECT && negb direct_answer in
    let want_proxy := flag flags EDG_WLL_LOGFLAG_PROXY && negb proxy_answer in
    r ← ask_timed me (Select ((if want_direct then [bk] else []) ++ (if want_proxy then [lb] else [])));
    match r with
    | SelTimeout =>
      UpdateError EAGAIN "edg_wll_DoLogEventServer(): select() timeouted";; mret tt
    | SelErr e =>
      if e =? EINTR then read_answers fuel flags lb bk count proxy_answer direct_answer
      else UpdateError e "edg_wll_DoLogEventServer(): select() error";; mret tt
    | SelReady fds =>
      ret ← (if isset lb fds then edg_wll_log_proxy_read me lb else mret 0);
      if ret =? -1 then
        UpdateError EAGAIN "edg_wll_DoLogEventServer(): edg_wll_log_proxy_read error";; mret tt
      else
        let '(count, proxy_answer) :=
          if isset lb fds then (count - 1, true) else (count, proxy_answer) in
        ret ← (if isset bk fds then edg_wll_log_direct_read me else mret 0);
        if ret =? -1 then
          UpdateError EAGAIN "edg_wll_DoLogEventServer(): edg_wll_log_direct_read error";; mret tt
        else
          let '(count, direct_answer) :=
            if isset bk fds then (count - 1, true) else (count, direct_answer) in
          read_answers fuel flags lb bk count proxy_answer direct_answer
    end
  end.

(** Sending and reading; the value of [answer] at the label. *)
Definition send_and_read (flags lb bk count : Z) (logline : string) : M Z :=
  ret ← (if flag flags EDG_WLL_LOGFLAG_PROXY then edg_wll_log_proxy_write me lb logline else mret 0);
  if ret =? -1 then
    answer ← Error;
    UpdateError EDG_WLL_IL_PROTO "edg_wll_DoLogEventServer(): edg_wll_log_proxy_write error";;
    mret answer
  else
    ret ← (if flag flags EDG_WLL_LOGFLAG_DIRECT then edg_wll_log_direct_write me logline else mret 0);
    if ret =? -1 then
      answer ← Error;
      UpdateError EAGAIN "edg_wll_DoLogEventServer(): edg_wll_log_direct_write error";;
      mret answer
    else
      fuel ← gets (λ c, interrupts c.(world));
      read_answers (fuel + 3) flags lb bk count false false;; mret EAGAIN.

(** The connections begin as zeroed memory, with the socket 0. *)
Definition edg_wll_DoLogEventServer (flags : Z) (logline : string) : M Z :=
  ResetError;;
  '(ret, lb) ← (if flag flags EDG_WLL_LOGFLAG_PROXY then edg_wll_log_proxy_connect me 0 else mret (0, 0));
  '(answer, bk) ←
    (if negb (ret =? 0) then
       UpdateError EAGAIN "edg_wll_DoLogEventServer(): edg_wll_log_proxy_connect error";;
       mret (EAGAIN, mkGss false 0)
     else
       '(ret, bk) ← (if flag flags EDG_WLL_LOGFLAG_DIRECT
                     then edg_wll_log_direct_connect me (mkGss false 0)
                     else mret (0, mkGss false 0));
       if negb (ret =? 0) then
         UpdateError EAGAIN "edg_wll_DoLogEventServer(): edg_wll_log_direct_connect error";;
         mret (EAGAIN, bk)
       else
         answer ← send_and_read flags lb bk.(gss_sock)
           ((if flag flags EDG_WLL_LOGFLAG_PROXY then 1 else 0) +
            (if flag flags EDG_WLL_LOGFLAG_DIRECT then 1 else 0)) logline;
         mret (answer, bk));
  edg_wll_log_proxy_close me lb;;
  edg_wll_log_direct_close me bk;;
  handle_errors answer "edg_wll_DoLogEventServer()".

(** ** Writing a line to the file of the job *)
Definition edg_wll_DoLogEventFile (logline : string) : M Z :=
  ResetError;;
  st ← gets cl_st;
  job ← gets p_jobid;
  err ← match glite_jobid_getUnique job with
        | None => SetError ENOMEM "edg_wlc_JobIdGetUnique()"
        | Some jobid_s =>
          let event_file :=
            default EDG_WLL_LOG_PREFIX_DEFAULT st.(p_event_file_prefix) +:+ "." +:+ jobid_s in
          t ← gets p_tmp_timeout;
          r ← ask me (EventWrite event_file logline
                        (if FCNTL_ATTEMPTS <? fst t then fst t else FCNTL_ATTEMPTS));
          match r with
          | inl e => leave_error e;; UpdateError 0 "edg_wll_log_event_write()"
          | inr filepos =>
            r ← ask_timed me (EventSend (default DEFAULT_SOCKET st.(p_il_sock)) filepos logline);
            match r with
            | Some e => leave_error e;; UpdateError EDG_WLL_IL_PROTO "edg_wll_log_event_send()"
            | None => mret 0
            end
          end
        end;
  handle_errors err "edg_wll_DoLogEventFile()".

(** ** The line *)

(** What the operations on the sequence code do to the context. *)
Definition GetSequenceCode : M (option string) := fun c =>
  let! '(s, x) := edg_wll_GetSequenceCode (ctx_of c) in Ret (s, with_ctx (λ _, x) c).
Definition on_ctx (f : Context → Z * Context) : M Z := fun c =>
  let '(r, x) := f (ctx_of c) in Ret (r, with_ctx (λ _, x) c).
Definition IncSequenceCode : M Z := on_ctx edg_wll_IncSequenceCode.
Definition SetSequenceCode (code : option string) (seq_type : Z) : M Z :=
  now ← ask me GetTime;
  on_ctx (λ x, edg_wll_SetSequenceCode (fst now) x code seq_type).

(** The fields of the line, with the date and the texts at hand. *)
Definition line_fix (st : ParamState) (flags : Z) (date eventName fullid : string)
    (seq : option string) : list ulm_field :=
  EDG_WLL_FORMAT_COMMON date (default ""%string st.(p_host))
    (default "(null)"%string (edg_wll_LevelToString st.(p_level))) flags
    (source_text st.(ctx_base).(Context.p_source)) (default ""%string st.(p_instance))
    eventName fullid (default ""%string seq).
Definition line_user (st : ParamState) (flags : Z) : list ulm_field :=
  match st.(p_user_lbproxy) with
  | Some u =>
    if flag flags EDG_WLL_LOGFLAG_PROXY || flag flags EDG_WLL_LOGFLAG_DIRECT
       || flag flags EDG_WLL_LOGFLAG_FILE
    then EDG_WLL_FORMAT_USER u else []
  | None => []
  end.

(** The line, unless the code of the context says why there is none. *)
Definition edg_wll_FormatLogLine (flags event : Z) (var : list ulm_field) :
    M (Z * option string) :=
  ResetError;;
  start_time ← ask me GetTime;
  let fails code text := SetError code text;; e ← Error; mret (e, None) in
  match snd (edg_wll_ULMTimevalToDate (fst start_time) (snd start_time)) with
  | None => fails EINVAL "edg_wll_FormatLogLine(): edg_wll_ULMTimevalToDate() error"%string
  | Some date =>
    st ← gets cl_st;
    job ← gets p_jobid;
    match edg_wll_EventToString event with
    | None => fails EINVAL "edg_wll_FormatLogLine(): event name not specified"%string
    | Some eventName =>
      match glite_jobid_unparse job with
      | None => fails EINVAL "edg_wll_FormatLogLine(): edg_wlc_JobIdUnparse() error"%string
      | Some fullid =>
        seq ← GetSequenceCode;
        let out := log_line (line_fix st flags date eventName fullid seq) (line_user st flags) var in
        if flag flags (Z.lor EDG_WLL_LOGFLAG_DIRECT EDG_WLL_LOGFLAG_SYNC)
           && (EDG_WLL_LOG_SYNC_MAXMSGSIZE <? Z.of_nat (String.length out))
        then fails ENOSPC
          "edg_wll_FormatLogLine(): Message size too large for synchronous transfer"%string
        else e ← Error; mret (e, Some out)
      end
    end
  end.

(** ** Events *)

(** [if (ret) goto edg_wll_logeventmaster_end;] after each destination. *)
Definition send_line (flags : Z) (out : string) : M Z :=
  modify (λ c, c <| p_tmp_timeout :=
    if flag flags (Z.lor EDG_WLL_LOGFLAG_DIRECT EDG_WLL_LOGFLAG_SYNC)
    then c.(cl_st).(p_sync_timeout) else c.(cl_st).(p_log_timeout) |>);;
  ret ← (if flag flags EDG_WLL_LOGFLAG_LOCAL then edg_wll_DoLogEvent out else mret 0);
  if negb (ret =? 0) then mret ret else
  ret ← (if flag flags (Z.lor EDG_WLL_LOGFLAG_PROXY EDG_WLL_LOGFLAG_DIRECT)
         then edg_wll_DoLogEventServer flags out else mret 0);
  if negb (ret =? 0) then mret ret else
  if flag flags EDG_WLL_LOGFLAG_FILE then edg_wll_DoLogEventFile out else mret 0.

(** The code that follows the label: the error is kept over the increment. *)
Definition keep_error_inc (ret : Z) : M Z :=
  x ← gets ctx_of;
  err_store ← (if x.(errCode) =? 0 then mret None else
               d ← deref x.(errDesc); mret (Some (x.(errCode), d)));
  inc ← IncSequenceCode;
  ret ← (if inc =? 0 then mret ret else
         SetError EINVAL "edg_wll_LogEventMaster(): edg_wll_IncSequenceCode failed");
  match err_store with
  | Some (code, d) => SetError code d;; mret tt
  | None => mret tt
  end;;
  (if ret =? 0 then mret 0 else UpdateError 0 "Logging library ERROR: ");;
  Error.

Definition destinations : Z :=
  Z.lor (Z.lor (Z.lor EDG_WLL_LOGFLAG_LOCAL EDG_WLL_LOGFLAG_PROXY) EDG_WLL_LOGFLAG_DIRECT)
    EDG_WLL_LOGFLAG_FILE.

Definition edg_wll_LogEventMasterVa (flags event : Z) (var : list ulm_field) : M Z :=
  if negb (flag flags destinations) then
    SetError EINVAL "edg_wll_LogEventMaster(): no known flag specified"
  else
    '(err, out) ← edg_wll_FormatLogLine flags event var;
    ret ← (if negb (err =? 0) then
             UpdateError EINVAL "edg_wll_LogEventMaster(): edg_wll_FormatLogLine() error";;
             mret EINVAL
           else out ← deref out; send_line flags out);
    keep_error_inc ret.

(** The public functions: [name] begins the description of an error. *)
Definition log_with (flags : Z) (name : string) (event : Z) (var : list ulm_field) : M Z :=
  ResetError;;
  ret ← edg_wll_LogEventMasterVa flags event var;
  (if ret =? 0 then mret 0 else UpdateError 0 name);;
  Error.
Definition edg_wll_LogEvent : Z → list ulm_field → M Z :=
  log_with EDG_WLL_LOGFLAG_LOCAL "edg_wll_LogEvent(): ".
Definition edg_wll_LogEventSync : Z → list ulm_field → M Z :=
  log_with (Z.lor EDG_WLL_LOGFLAG_LOCAL EDG_WLL_LOGFLAG_SYNC) "edg_wll_LogEventSync(): ".
Definition edg_wll_LogEventProxy : Z → list ulm_field → M Z :=
  log_with EDG_WLL_LOGFLAG_PROXY "edg_wll_LogEventProxy(): ".
Definition edg_wll_LogEventFile : Z → list ulm_field → M Z :=
  log_with EDG_WLL_LOGFLAG_FILE "edg_wll_LogEventFile(): ".

(** ** Flushing *)
Definition flush_fields (date : string) (st : ParamState) (timeout : option timeval)
    (fullid : option string) : list ulm_field :=
  [("DATE", Plain date); ("HOST", us st.(p_host)); ("PROG", Plain "internal");
   ("LVL", Plain "system"); ("DG.PRIORITY", Plain "1"); ("DG.TYPE", Verbatim "command");
   ("DG.COMMAND", Verbatim "flush");
   ("DG.TIMEOUT", Verbatim (print_int (fst (default st.(p_sync_timeout) timeout))))]%string ++
  match fullid with Some j => [("DG.JOBID", Verbatim j)]%string | None => [] end.

(** The text of the format, which has no blank before its newline. *)
Definition flush_line (fields : list ulm_field) : string :=
  let text := fields_text fields in
  str_take (String.length text - 1) text +:+ String ULM_LF "".

Definition log_flush (name : string) (timeout : option timeval) (with_job : bool) : M Z :=
  ResetError;;
  start_time ← ask me GetTime;
  ret ← match snd (edg_wll_ULMTimevalToDate (fst start_time) (snd start_time)) with
        | None => SetError EINVAL (name +:+ "edg_wll_ULMTimevalToDate() error")
        | Some date =>
          st ← gets cl_st;
          job ← gets p_jobid;
          let send fullid :=
            modify (λ c, c <| p_tmp_timeout := default st.(p_sync_timeout) timeout |>);;
            edg_wll_DoLogEvent (flush_line (flush_fields date st timeout fullid)) in
          if with_job : bool then
            match glite_jobid_unparse job with
            | None => SetError EINVAL (name +:+ "edg_wlc_JobIdUnparse() error")
            | Some fullid => send (Some fullid)
            end
          else send None
        end;
  (if ret =? 0 then mret 0 else UpdateError 0 name);;
  Error.
Definition edg_wll_LogFlush (timeout : option timeval) : M Z :=
  log_flush "edg_wll_LogFlush(): " timeout true.
Definition edg_wll_LogFlushAll (timeout : option timeval) : M Z :=
  log_flush "edg_wll_LogFlushAll(): " timeout false.

(** ** The job of a context *)
Definition set_user (user : option string) : M Z := fun c =>
  let '(r, st) := edg_wll_SetParamString env hostname c.(cl_st) EDG_WLL_PARAM_LBPROXY_USER user in
  Ret (r, c <| cl_st := st |>).

(** The user of the context: the given one, the one it has, or that of the credentials;
    [false] if there are none. *)
Definition set_logging_user (user : option string) (logging_flags : Z) : M bool :=
  if match user with Some _ => true | None => false end
     && (flag logging_flags EDG_WLL_LOGFLAG_PROXY || flag logging_flags EDG_WLL_LOGFLAG_FILE)
  then set_user user;; mret true
  else
    ResetError;;
    st ← gets cl_st;
    match st.(p_user_lbproxy) with
    | Some _ => mret true
    | None =>
      r ← ask me (AcquireCred (cert_file st) (key_file st));
      match r with
      | inl text =>
        SetError EDG_WLL_ERROR_GSS ("failed to load GSI credentials" +:+ text);; mret false
      | inr cred => c ← deref cred; set_user (Some c.(cred_name));; mret true
      end
    end.

Definition edg_wll_SetLoggingJobMaster (job : option JobId) (code user : option string)
    (seq_code_flags logging_flags : Z) : M Z :=
  ResetError;;
  match job with
  | None => SetError EINVAL "edg_wll_SetLoggingJobMaster(): jobid is null"
  | Some job =>
    modify (λ c, c <| p_jobid := glite_jobid_dup (Some job) |>);;
    ok ← set_logging_user user logging_flags;
    if negb ok then SetError ENOENT "No credentials found." else
    code_loc ←
      (if flag logging_flags EDG_WLL_LOGFLAG_PROXY && match code with None => true | _ => false end
       then ask me (QuerySequenceCodeProxy job) else mret (inr None));
    match code_loc with
    | inl e => leave_error e;; Error
    | inr code_loc =>
      r ← SetSequenceCode (match code with Some _ => code | None => code_loc end) seq_code_flags;
      (if r =? 0 then IncSequenceCode;; mret tt else mret tt);;
      Error
    end
  end.
Definition edg_wll_SetLoggingJob (job : option JobId) (code : option string) (seq_code_flags : Z) :
    M Z := edg_wll_SetLoggingJobMaster job code None seq_code_flags 0.
Definition edg_wll_SetLoggingJobProxy (job : option JobId) (code user : option string)
    (seq_code_flags : Z) : M Z :=
  edg_wll_SetLoggingJobMaster job code user seq_code_flags EDG_WLL_LOGFLAG_PROXY.
Definition edg_wll_SetLoggingJobFile (job : option JobId) (code user : option string)
    (seq_code_flags : Z) : M Z :=
  edg_wll_SetLoggingJobMaster job code user seq_code_flags EDG_WLL_LOGFLAG_FILE.

(** ** Registration *)
Definition seq_type_of (type : Z) : Z :=
  if type =? EDG_WLL_REGJOB_PBS then EDG_WLL_SEQ_PBS
  else if type =? EDG_WLL_REGJOB_CREAM then EDG_WLL_SEQ_CREAM
  else if type =? EDG_WLL_REGJOB_CONDOR then EDG_WLL_SEQ_CONDOR
  else EDG_WLL_SEQ_NORMAL.

(** For a job whose server is the proxy itself the flag of the proxy is to be cancelled; what
    [flags & (0 ^ EDG_WLL_LOGFLAG_PROXY)] leaves is this flag alone. *)
Definition cancel_proxy (st : ParamState) (flags : Z) (job : option JobId) : M Z :=
  match st.(p_lbproxy_servername) with
  | Some name =>
    if flag flags EDG_WLL_LOGFLAG_PROXY && flag flags EDG_WLL_LOGFLAG_DIRECT then
      '(srv, port) ← deref (glite_jobid_getServerParts job);
      mret (if (port =? st.(p_lbproxy_servername_port)) && (strcmp srv name =? 0)
            then Z.land flags EDG_WLL_LOGFLAG_PROXY else flags)
    else mret flags
  | None => mret flags
  end.

Definition both (flags a b : Z) : bool := Z.land flags (Z.lor a b) =? Z.lor a b.

Definition has_subjobs (type num_subjobs : Z) : bool :=
  ((type =? EDG_WLL_REGJOB_DAG) || (type =? EDG_WLL_REGJOB_PARTITIONED) ||
   (type =? EDG_WLL_REGJOB_COLLECTION) || (type =? EDG_WLL_REGJOB_FILE_TRANSFER_COLLECTION))
  && (0 <? num_subjobs).

(** The identifiers of the subjobs, the sequence code for them, and more time. *)
Definition register_subjob_ids (job : option JobId) (num_subjobs : Z) (seed : option string) :
    M (Z * list JobId) :=
  '(err, ids) ← match edg_wll_GenerateSubjobIds str2md5base64 job num_subjobs seed with
                | inl e =>
                  on_ctx (λ x, edg_wll_SetError x e (if e =? ENOMEM then None else
                    Some "edg_wll_GenerateSubjobIds(): edg_wlc_JobIdRecreate() error"%string));;
                  mret (e, [])
                | inr ids => mret (0, ids)
                end;
  SetSequenceCode None EDG_WLL_SEQ_NORMAL;;
  t ← gets (λ c, c.(cl_st).(p_sync_timeout));
  sec ← lift (add_long (fst t) num_subjobs);
  modify (λ c, c <| cl_st := c.(cl_st)
    <| p_sync_timeout := ((if 86400 <? sec then 86400 else sec), snd t) |> |>);;
  mret (err, ids).

Definition wms_text (wms_dn : option (list string)) : option string :=
  match wms_dn with
  | Some l => Some (foldl (λ s dn, s +:+ dn +:+ String (chr 10) "") ""%string l)
  | None => None
  end.

(** Up to the label, with the identifiers stored through [subjobs]. *)
Definition register_body (flags : Z) (job : option JobId) (type : Z) (jdl ns : option string)
    (parent : option JobId) (num_subjobs : Z) (seed : option string)
    (wms_dn : option (list string)) : M (list JobId) :=
  st ← gets cl_st;
  flags ← cancel_proxy st flags job;
  if both flags EDG_WLL_LOGFLAG_DIRECT EDG_WLL_LOGFLAG_LOCAL
     || both flags EDG_WLL_LOGFLAG_PROXY EDG_WLL_LOGFLAG_LOCAL
  then SetError EINVAL "edg_wll_RegisterJobMaster(): wrong flag specified";; mret []
  else
    match edg_wll_RegJobJobtypeToString type with
    | None => SetError EINVAL "edg_wll_RegisterJobMaster(): no jobtype specified";; mret []
    | Some type_s =>
      '(err, ids) ← (if has_subjobs type num_subjobs then register_subjob_ids job num_subjobs seed
                     else mret (0, []));
      if negb (err =? 0) then
        UpdateError EINVAL "edg_wll_RegisterJobMaster(): edg_wll_GenerateSubjobIds() error";;
        mret ids
      else
        let parent_s := match parent with
                        | Some _ => default "(null)"%string (glite_jobid_unparse parent)
                        | None => ""%string
                        end in
        seq ← (if flag flags EDG_WLL_LOGFLAG_PROXY
               then SetSequenceCode None (seq_type_of type);; GetSequenceCode else mret None);
        err ← edg_wll_SetLoggingJobMaster job seq None (seq_type_of type) flags;
        if negb (err =? 0) then
          UpdateError EINVAL "edg_wll_RegisterJobMaster(): unable to set logging job";; mret ids
        else
          err ← edg_wll_LogEventMasterVa flags EDG_WLL_EVENT_REGJOB
            (EDG_WLL_FORMAT_REGJOB jdl ns parent_s type_s num_subjobs seed (wms_text wms_dn));
          (if err =? 0 then mret 0 else
             UpdateError EINVAL "edg_wll_RegisterJobMaster(): unable to register job");;
          mret ids
    end.

Definition edg_wll_RegisterJobMaster (flags : Z) (job : option JobId) (type : Z)
    (jdl ns : option string) (parent : option JobId) (num_subjobs : Z) (seed : option string)
    (wms_dn : option (list string)) : M (Z * list JobId) :=
  ResetError;;
  sync_to ← gets (λ c, c.(cl_st).(p_sync_timeout));
  ids ← register_body flags job type jdl ns parent num_subjobs seed wms_dn;
  modify (λ c, c <| cl_st := c.(cl_st) <| p_sync_timeout := sync_to |> |>);;
  e ← Error; mret (e, ids).

Definition edg_wll_RegisterJob (job : option JobId) (type : Z) (jdl ns : option string)
    (num_subjobs : Z) (seed : option string) : M (Z * list JobId) :=
  edg_wll_RegisterJobMaster EDG_WLL_LOGFLAG_DIRECT job type jdl ns None num_subjobs seed None.
Definition edg_wll_RegisterJobExt (job : option JobId) (type : Z) (jdl ns : option string)
    (num_subjobs : Z) (seed : option string) (wms_dn : option (list string)) (logging_flags : Z) :
    M (Z * list JobId) :=
  let flags := Z.lor (Z.land logging_flags EDG_WLL_LOGLFLAG_EXCL) EDG_WLL_LOGFLAG_DIRECT in
  edg_wll_RegisterJobMaster flags job type jdl ns None num_subjobs seed wms_dn.
Definition edg_wll_RegisterJobProxy (job : option JobId) (type : Z) (jdl ns : option string)
    (num_subjobs : Z) (seed : option string) : M (Z * list JobId) :=
  edg_wll_RegisterJobMaster (Z.lor EDG_WLL_LOGFLAG_PROXY EDG_WLL_LOGFLAG_DIRECT)
    job type jdl ns None num_subjobs seed None.
Definition edg_wll_RegisterJobProxyExt (job : option JobId) (type : Z) (jdl ns : option string)
    (num_subjobs : Z) (seed : option string) (wms_dn : option (list string)) (logging_flags : Z) :
    M (Z * list JobId) :=
  let flags := Z.lor (Z.land logging_flags EDG_WLL_LOGLFLAG_EXCL)
                 (Z.lor EDG_WLL_LOGFLAG_PROXY EDG_WLL_LOGFLAG_DIRECT) in
  edg_wll_RegisterJobMaster flags job type jdl ns None num_subjobs seed wms_dn.

(** ** Batches of subjobs *)

(** One registration for every element of [jdls], which has the job description, with the
    identifiers in their order; the error code and its description if one failed. *)
Fixpoint register_all (logging_flags : Z) (parent : option JobId) (type : Z) (ns : option string)
    (jdls : list (option string)) (subjobs : list JobId) : M (Z * option string) :=
  match jdls with
  | [] => mret (0, None)
  | jdl :: jdls =>
    match subjobs with
    | [] => undefined OutOfBounds
    | job :: subjobs =>
      r ← edg_wll_RegisterJobMaster logging_flags (Some job) type jdl ns parent 0 None None;
      if negb (fst r =? 0) then
        errcode ← Error;
        errdesc ← gets (λ c, (ctx_of c).(errDesc));
        mret (errcode, errdesc)
      else register_all logging_flags parent type ns jdls subjobs
    end
  end.

Definition edg_wll_RegisterSubjobsMaster (logging_flags : Z) (parent : option JobId) (type : Z)
    (jdls : list string) (ns : option string) (nsubjobs : Z) (subjobs : list JobId) : M Z :=
  oldctxjob ← gets (λ c, glite_jobid_dup c.(p_jobid));
  oldctxseq ← GetSequenceCode;
  '(errcode, errdesc) ←
    (if type =? EDG_WLL_REGJOB_SIMPLE then
       register_all logging_flags parent EDG_WLL_REGJOB_SIMPLE ns (map Some jdls) subjobs
     else if type =? EDG_WLL_REGJOB_FILE_TRANSFER then
       register_all logging_flags parent EDG_WLL_REGJOB_FILE_TRANSFER ns
         (replicate (Z.to_nat nsubjobs) None) subjobs
     else mret (1, Some "Unsupported job type."%string));
  edg_wll_SetLoggingJobMaster oldctxjob oldctxseq None EDG_WLL_SEQ_NORMAL logging_flags;;
  (if errcode =? 0 then mret 0 else on_ctx (λ x, edg_wll_SetError x errcode errdesc));;
  Error.
Definition edg_wll_RegisterSubjobs (parent : option JobId) (jdls : list string)
    (ns : option string) (subjobs : list JobId) : M Z :=
  edg_wll_RegisterSubjobsMaster EDG_WLL_LOGFLAG_LOCAL parent EDG_WLL_REGJOB_SIMPLE jdls ns 0 subjobs.
Definition edg_wll_RegisterSubjobsProxy (parent : option JobId) (jdls : list string)
    (ns : option string) (subjobs : list JobId) : M Z :=
  edg_wll_RegisterSubjobsMaster EDG_WLL_LOGFLAG_PROXY parent EDG_WLL_REGJOB_SIMPLE jdls ns 0 subjobs.
Definition edg_wll_RegisterFTSubjobs (parent : option JobId) (ns : option string) (nsubjobs : Z)
    (subjobs : list JobId) : M Z :=
  edg_wll_RegisterSubjobsMaster EDG_WLL_LOGFLAG_LOCAL parent EDG_WLL_REGJOB_FILE_TRANSFER [] ns
    nsubjobs subjobs.

(** The format of the event has ["%s"] for the four codes, which are passed as numbers. *)
Definition edg_wll_ChangeACL (job : option JobId) (user_id : option string)
    (user_id_type permission permission_type operation : Z) : M Z :=
  e ← edg_wll_SetLoggingJob job None EDG_WLL_SEQ_NORMAL;
  if e =? 0 then undefined Indeterminate else Error.
End Producer.
