(* ===== verification/LogProps.v ===== *)
(** * Logging an event

    Rules for the sending part of Producer, and what a call of a logging function does: the
    line it formats, the sequence code it leaves, the error it returns. *)
From Stdlib Require Import ZArith Lia Ascii.
From stdpp Require Import base option list strings numbers relations.
From S2P Require Import Prelude CLib JobId LbTypes Events SeqCode IlMsg Context Escape Ulm UlmLine UlmDate Param Client ConnPool PoolProps PoolOpen ProdProto ProtoProps Producer.
#[local] Open Scope Z_scope.

Section Sending.
Context {W : Type} `{HonestReplies W} `{Texts}.
Variable me : nat.
Implicit Types c : client W.
#[local] Abbreviation running := (running me).

Lemma wp_handle_errors held c0 c k text Q : running held c0 c →
  (∀ c', running held c0 c' → Q (code c') c') → wp (handle_errors k text) Q c.
Proof.
  intros R HQ. apply wp_bind.
  assert (∀ c1, running held c0 c1 → wp Error Q c1) as He.
  { intros c1 R1. eapply wp_error; [done|]. by apply HQ. }
  repeat case_match; [by apply wp_ret, He|..];
    (eapply wp_update_error; [done..|]); intros c1 R1 _ _ _; by apply He.
Qed.

Lemma wp_unlock_running c0 c i Q : running (Some i) c0 c →
  (∀ c', running None c0 c' → Q 0 c') → wp (edg_wll_connectionUnlock me i) Q c.
Proof. intros R HQ. eapply wp_unlock; [done|]. intros c' R' _. by apply HQ. Qed.

Lemma wp_log_attempt c0 c line answer Q : running None c0 c → is_Some c.(cl_st).(p_destination) →
  (∀ a c', running None c0 c' → Q a c') → wp (log_attempt me line answer) Q c.
Proof.
  intros R Hd HQ. apply wp_bind. eapply wp_log_connect; [done..| |].
  - intros i c1 R1 E1. apply wp_bind. cbn [negb Z.eqb]. apply wp_bind, wp_ret.
    assert (∀ (r a : Z) c2, running (Some i) c0 c2 → wp
      (if r =? -1 then edg_wll_log_close me (Some i) else edg_wll_connectionUnlock me i)
      (λ _ c', wp (mret a) Q c') c2) as Hend.
    { intros r a c2 R2. destruct (r =? -1).
      - eapply wp_close_unlock; [done|]. intros c3 R3 _. by apply wp_ret, wp_ret, HQ.
      - eapply wp_unlock_running; [done|]. intros c3 R3. by apply wp_ret, HQ. }
    apply wp_bind. eapply wp_log_write; [done|]. intros r c2 R2 _. destruct (r =? -1) eqn:Er.
    + apply wp_bind. eapply wp_error; [done|]. apply wp_bind. eapply wp_update_error; [done..|].
      intros c3 R3 _ _ _. apply wp_ret, wp_bind. by apply (Hend r).
    + apply wp_bind. eapply wp_log_read; [done|]. intros r3 c3 R3 _.
      apply wp_bind. eapply wp_error; [done|]. apply wp_bind.
      destruct (r3 =? -1) eqn:Er3.
      * eapply wp_update_error; [done..|]. intros c4 R4 _ _ _. apply wp_ret, wp_bind. by apply (Hend r3).
      * apply wp_ret, wp_ret, wp_bind. by apply (Hend r3).
  - intros a c1 R1 Ha. apply wp_bind. destruct (Z.eqb_spec a 0); [done|]. cbn [negb].
    apply wp_bind. eapply wp_update_error; [done..|]. intros c2 R2 _ _ _.
    by apply wp_ret, wp_bind, wp_ret, wp_ret, HQ.
Qed.

Lemma running_dest held c0 c : running held c0 c →
  c.(cl_st).(p_destination) = c0.(cl_st).(p_destination).
Proof. intros R. exact (f_equal p_destination (ru_st _ _ _ _ R)). Qed.

(** A destination ends with its result in the context. *)
Definition sent c0 (Q : Z → client W → Prop) : Prop :=
  ∀ c', running None c0 c' → Q (code c') c'.

Lemma wp_do_log_event c0 c line Q : running None c0 c → is_Some c0.(cl_st).(p_destination) →
  sent c0 Q → wp (edg_wll_DoLogEvent me line) Q c.
Proof.
  intros R Hd HQ. apply wp_bind. eapply wp_reset; [done|]. intros c1 R1 _ _.
  apply wp_bind. eapply wp_log_attempt; [done|by rewrite (running_dest _ _ _ R1)|].
  intros a c2 R2. apply wp_bind. destruct (_ || _).
  - eapply wp_log_attempt; [done|by rewrite (running_dest _ _ _ R2)|]. intros a3 c3 R3.
    eapply wp_handle_errors; [done|]. auto.
  - apply wp_ret. eapply wp_handle_errors; [done|]. auto.
Qed.

Lemma wp_read_answers fuel flags lb bk count pa da c0 c Q : running None c0 c →
  (interrupts c.(world) + Z.to_nat count ≤ fuel)%nat →
  (∀ c', running None c0 c' → Q tt c') →
  wp (read_answers me fuel flags lb bk count pa da) Q c.
Proof.
  revert count pa da c. induction fuel as [|fuel IH]; intros count pa da c R Hf HQ;
    cbn [read_answers].
  all: destruct (Z.leb_spec count 0); [by apply wp_ret, HQ|].
  { lia. }
  set (fds := (if flag flags EDG_WLL_LOGFLAG_DIRECT && negb da then [bk] else []) ++
              (if flag flags EDG_WLL_LOGFLAG_PROXY && negb pa then [lb] else [])).
  apply wp_bind. eapply wp_timed; [done..|]. intros t [[|e|r] t1] c1 R1 Ha E1 E2 Hi; cbn in Ha, Hi.
  - apply wp_bind. eapply wp_update_error; [done..|]. intros c2 R2 _ _ _. by apply wp_ret, HQ.
  - cbn. destruct (e =? EINTR).
    + apply IH; [done|lia|done].
    + apply wp_bind. destruct (errno_known _ Ha). eapply wp_update_error; [done..|].
      intros c2 R2 _ _ _. by apply wp_ret, HQ.
  - destruct Ha as [[fd Hfd] Hsub]. cbn [fst].
    assert (isset lb r = true ∨ isset bk r = true) as Hset.
    { pose proof (Hsub _ Hfd) as Hin. subst fds.
      apply elem_of_app in Hin as [Hin|Hin]; [right|left].
      - destruct (flag flags EDG_WLL_LOGFLAG_DIRECT && negb da); [|by apply elem_of_nil in Hin].
        apply list_elem_of_singleton in Hin as ->. by apply bool_decide_eq_true.
      - destruct (flag flags EDG_WLL_LOGFLAG_PROXY && negb pa); [|by apply elem_of_nil in Hin].
        apply list_elem_of_singleton in Hin as ->. by apply bool_decide_eq_true. }
    assert (∀ k c2 pa, running None c0 c2 →
      (interrupts c2.(world) ≤ interrupts c1.(world))%nat → (k < count ∨ isset bk r = true) →
      k <= count → wp
      (ret ← (if isset bk r then edg_wll_log_direct_read me else mret 0);
       if ret =? -1 then
         UpdateError EAGAIN "edg_wll_DoLogEventServer(): edg_wll_log_direct_read error";; mret tt
       else
         let '(count, da) := if isset bk r then (k - 1, true) else (k, da) in
         read_answers me fuel flags lb bk count pa da) Q c2) as Hdirect.
    { intros k c2 pa' R2 Hle Hk Hk2. apply wp_bind. destruct (isset bk r).
      - eapply wp_direct_read; [exact (running_refl me _ (running_ready _ _ _ R2))|].
        intros x c3 R3 _ _. pose proof (ru_patience _ _ _ _ R3) as Hp.
        pose proof (running_trans _ _ _ _ _ R2 R3) as R3'. destruct (x =? -1).
        + apply wp_bind. eapply wp_update_error; [done..|]. intros c4 R4 _ _ _. by apply wp_ret, HQ.
        + apply IH; [done|lia|done].
      - apply wp_ret. cbn [Z.eqb]. apply IH; [done| |done]. destruct Hk; [lia|done]. }
    apply wp_bind. destruct (isset lb r).
    + eapply wp_proxy_read; [exact (running_refl me _ (running_ready _ _ _ R1))|].
      intros x c3 R3 _ _. pose proof (ru_patience _ _ _ _ R3) as Hp.
      pose proof (running_trans _ _ _ _ _ R1 R3) as R3'. destruct (x =? -1).
      * apply wp_bind. eapply wp_update_error; [done..|]. intros c4 R4 _ _ _. by apply wp_ret, HQ.
      * apply Hdirect; [done|lia|left; lia|lia].
    + apply wp_ret. cbn [Z.eqb]. apply Hdirect; [done|lia|right; by destruct Hset|lia].
Qed.

Lemma wp_send_and_read flags lb bk count line c0 c Q : running None c0 c → il_small line →
  count <= 2 → (∀ a c', running None c0 c' → Q a c') →
  wp (send_and_read me flags lb bk count line) Q c.
Proof.
  intros R Hl Hc HQ. apply wp_bind.
  assert (∀ (a : string) k c1, running None c0 c1 → known_code k = true → wp
    (answer ← Error; UpdateError k a;; mret answer) Q c1) as Hfail.
  { intros a k c1 R1 Hk. apply wp_bind. eapply wp_error; [done|]. apply wp_bind.
    eapply wp_update_error; [done..|]. intros c2 R2 _ _ _. by apply wp_ret, HQ. }
  assert (∀ c1, running None c0 c1 → wp
    (ret ← (if flag flags EDG_WLL_LOGFLAG_DIRECT then edg_wll_log_direct_write me line else mret 0);
     if ret =? -1 then
       answer ← Error;
       UpdateError EAGAIN "edg_wll_DoLogEventServer(): edg_wll_log_direct_write error";; mret answer
     else
       fuel ← gets (λ c, interrupts c.(world));
       read_answers me (fuel + 3) flags lb bk count false false;; mret EAGAIN) Q c1) as Hdirect.
  { intros c1 R1. apply wp_bind.
    assert (∀ x c2, running None c0 c2 → wp
      (if x =? -1 then answer ← Error;
       UpdateError EAGAIN "edg_wll_DoLogEventServer(): edg_wll_log_direct_write error";; mret answer
     else
       fuel ← gets (λ c, interrupts c.(world));
       read_answers me (fuel + 3) flags lb bk count false false;; mret EAGAIN) Q c2) as Hx.
    { intros x c2 R2. destruct (x =? -1); [by apply Hfail|]. apply wp_bind, wp_gets, wp_bind.
      eapply wp_read_answers; [done|lia|]. intros c3 R3. by apply wp_ret, HQ. }
    destruct (flag flags EDG_WLL_LOGFLAG_DIRECT); [|by apply wp_ret, Hx].
    eapply wp_direct_write; [done..|]. intros x c2 R2 _ _. by apply Hx. }
  destruct (flag flags EDG_WLL_LOGFLAG_PROXY); [|by apply wp_ret, Hdirect].
  eapply wp_proxy_write; [done..|]. intros x c2 R2 _ _.
  destruct (x =? -1); [by apply Hfail|by apply Hdirect].
Qed.

Lemma wp_do_log_server flags line c0 c Q : running None c0 c → il_small line →
  is_Some c0.(p_jobid) → sent c0 Q → wp (edg_wll_DoLogEventServer me flags line) Q c.
Proof.
  intros R Hl Hj HQ. apply wp_bind. eapply wp_reset; [done|]. intros c1 R1 _ _. apply wp_bind.
  assert (∀ (a : Z) lb bk c2, running None c0 c2 → wp
    (edg_wll_log_proxy_close me lb;; edg_wll_log_direct_close me bk;;
     handle_errors a "edg_wll_DoLogEventServer()") Q c2) as Hend.
  { intros a lb bk c2 R2. apply wp_bind. eapply wp_proxy_close; [done|]. intros c3 R3 _.
    apply wp_bind. eapply wp_direct_close; [done|]. intros c4 R4 _.
    eapply wp_handle_errors; [done|]. auto. }
  set (count := (if flag flags EDG_WLL_LOGFLAG_PROXY then 1 else 0) +
                (if flag flags EDG_WLL_LOGFLAG_DIRECT then 1 else 0)).
  assert (count <= 2) as Hcount by (subst count; do 2 destruct (flag _ _); lia).
  assert (∀ ret lb c2, running None c0 c2 → wp
    ('(answer, bk) ←
      (if negb (ret =? 0) then
         UpdateError EAGAIN "edg_wll_DoLogEventServer(): edg_wll_log_proxy_connect error";;
         mret (EAGAIN, mkGss false 0)
       else
         '(ret, bk) ← (if flag flags EDG_WLL_LOGFLAG_DIRECT
                       then edg_wll_log_direct_connect me (mkGss false 0)
                       else mret (0, mkGss false 0));
         if negb (ret =? 0) then
           UpdateError EAGAIN "edg_wll_DoLogEventServer(): edg_wll_log_direct_connect error";;
           mret (EAGAIN, bk)
         else
           answer ← send_and_read me flags lb bk.(gss_sock) count line;
           mret (answer, bk));
     edg_wll_log_proxy_close me lb;; edg_wll_log_direct_close me bk;;
     handle_errors answer "edg_wll_DoLogEventServer()") Q c2) as Hconn.
  { intros ret lb c2 R2. apply wp_bind. destruct (negb (ret =? 0)).
    { apply wp_bind. eapply wp_update_error; [done..|]. intros c3 R3 _ _ _. by apply wp_ret, Hend. }
    apply wp_bind.
    assert (∀ (x : Z) bk c3, running None c0 c3 → wp
      (if negb (x =? 0) then
         UpdateError EAGAIN "edg_wll_DoLogEventServer(): edg_wll_log_direct_connect error";;
         mret (EAGAIN, bk)
       else
         answer ← send_and_read me flags lb bk.(gss_sock) count line; mret (answer, bk))
      (λ a c', wp (let '(answer, bk) := a in edg_wll_log_proxy_close me lb;;
         edg_wll_log_direct_close me bk;; handle_errors answer "edg_wll_DoLogEventServer()") Q c') c3) as Hx.
    { intros x bk c3 R3. destruct (negb (x =? 0)).
      - apply wp_bind. eapply wp_update_error; [done..|]. intros c4 R4 _ _ _. by apply wp_ret, Hend.
      - apply wp_bind. eapply wp_send_and_read; [done..|]. intros a c4 R4. by apply wp_ret, Hend. }
    destruct (flag flags EDG_WLL_LOGFLAG_DIRECT).
    - eapply wp_direct_connect; [done..|]. intros a s c3 R3 _. by apply (Hx a s).
    - apply wp_ret. by apply (Hx 0 (mkGss false 0)). }
  destruct (flag flags EDG_WLL_LOGFLAG_PROXY).
  - eapply wp_proxy_connect; [done..|]. intros a s c2 R2 _ _. by apply (Hconn a s).
  - apply wp_ret. by apply (Hconn 0 0).
Qed.

Lemma wp_leave_error held c0 c e Q : running held c0 c → error_ok e →
  (∀ c', running held c0 c' → code c' = e.1 → Q tt c') → wp (leave_error e) Q c.
Proof.
  intros R [Hk _] HQ. apply wp_bind. eapply wp_set_error; [done..|]. intros c1 R1 E1 _.
  by apply wp_ret, HQ.
Qed.

Lemma wp_do_log_file line c0 c Q : running None c0 c → is_Some c0.(p_jobid) →
  sent c0 Q → wp (edg_wll_DoLogEventFile me line) Q c.
Proof.
  intros R [job Hj] HQ. apply wp_bind. eapply wp_reset; [done|]. intros c1 R1 E1 _.
  apply wp_bind, wp_gets, wp_bind, wp_gets. rewrite (ru_job _ _ _ _ R1), Hj. apply wp_bind.
  assert (∀ (a : Z) c2, running None c0 c2 →
    wp (handle_errors a "edg_wll_DoLogEventFile()") Q c2) as Hend.
  { intros a c2 R2. eapply wp_handle_errors; [done|]. auto. }
  cbn. apply wp_bind, wp_gets, wp_bind. eapply wp_ask_running; [done..|].
  intros [e|pos] c2 R2 Ha _ _ _; cbn in Ha.
  - apply wp_bind. eapply wp_leave_error; [done..|]. intros c3 R3 _.
    eapply wp_update_error; [done..|]. intros c4 R4 _ _ _. by apply Hend.
  - apply wp_bind. eapply wp_timed; [done..|]. intros t [[e|] t1] c3 R3 Ha3 _ _ _; cbn in Ha3 |- *.
    + apply wp_bind. eapply wp_leave_error; [done..|]. intros c4 R4 _.
      eapply wp_update_error; [done..|]. intros c5 R5 _ _ _. by apply Hend.
    + apply wp_ret. by apply Hend.
Qed.

(** Sending a line to the destinations of [flags]. *)
Lemma wp_send_line flags line c0 c Q : running None c0 c → code c = 0 →
  (flag flags EDG_WLL_LOGFLAG_LOCAL = true → is_Some c0.(cl_st).(p_destination)) →
  (flag flags (Z.lor EDG_WLL_LOGFLAG_PROXY EDG_WLL_LOGFLAG_DIRECT) = true → il_small line) →
  is_Some c0.(p_jobid) → sent c0 Q → wp (send_line me flags line) Q c.
Proof.
  intros R E0 Hd Hl Hj HQ. apply wp_bind, wp_modify.
  match goal with |- wp _ _ ?x => set (c1 := x) end.
  assert (running None c0 c1 ∧ code c1 = 0) as [R1 E1].
  { split; [|done]. eapply running_same; try done; apply R. }
  assert (∀ c2, running None c0 c2 → code c2 = 0 → wp
    (if flag flags EDG_WLL_LOGFLAG_FILE then edg_wll_DoLogEventFile me line else mret 0) Q c2) as H3.
  { intros c2 R2 E2. destruct (flag flags EDG_WLL_LOGFLAG_FILE); [by eapply wp_do_log_file|].
    apply wp_ret. rewrite <-E2. by apply HQ. }
  assert (∀ c2, running None c0 c2 → code c2 = 0 → wp
    (ret ← (if flag flags (Z.lor EDG_WLL_LOGFLAG_PROXY EDG_WLL_LOGFLAG_DIRECT)
            then edg_wll_DoLogEventServer me flags line else mret 0);
     if negb (ret =? 0) then mret ret else
     if flag flags EDG_WLL_LOGFLAG_FILE then edg_wll_DoLogEventFile me line else mret 0) Q c2) as H2'.
  { intros c2 R2 E2. apply wp_bind.
    destruct (flag flags (Z.lor EDG_WLL_LOGFLAG_PROXY EDG_WLL_LOGFLAG_DIRECT)) eqn:Ef.
    - eapply wp_do_log_server; [done|auto|done|]. intros c3 R3.
      destruct (Z.eqb_spec (code c3) 0); cbn [negb]; [by apply H3|]. by apply wp_ret, HQ.
    - apply wp_ret. cbn [negb Z.eqb]. by apply H3. }
  apply wp_bind. destruct (flag flags EDG_WLL_LOGFLAG_LOCAL).
  - eapply wp_do_log_event; [done|auto|]. intros c3 R3.
    destruct (Z.eqb_spec (code c3) 0); cbn [negb]; [by apply H2'|]. by apply wp_ret, HQ.
  - apply wp_ret. cbn [negb Z.eqb]. by apply H2'.
Qed.
End Sending.
