(* ===== verification/LogSpec.v ===== *)
(** * What a logging call does

    For any network: the line that [edg_wll_FormatLogLine] makes, the result of
    [edg_wll_LogEventMasterVa], and the sequence codes of the events that a context logs. *)
From Stdlib Require Import ZArith Lia Ascii.
From stdpp Require Import base option list strings numbers relations.
From S2P Require Import Prelude CLib JobId LbTypes Events SeqCode IlMsg Context Escape Ulm UlmLine UlmDate Param Client ClientDemo ConnPool PoolProps PoolOpen ProdProto ProtoProps Producer LogProps.
#[local] Open Scope Z_scope.

(** ** The length of a line *)
Definition field_room (f : ulm_field) : Z := os_len f.1 + 2 * os_len (value_of f.2) + 4.
Definition fields_room (fs : list ulm_field) : Z := foldr (λ f n, field_room f + n) 1 fs.

Lemma escape_length s : os_len (str_flat_map escape_ulm_char s) ≤ 2 * os_len s.
Proof.
  induction s as [|a s IH]; [done|]. cbn [str_flat_map]. rewrite os_len_app.
  assert (os_len (escape_ulm_char a) ≤ 2) by (unfold escape_ulm_char; repeat case_match; done).
  unfold os_len in *. cbn [String.length]. lia.
Qed.

Lemma field_length f : os_len (field_text f) ≤ field_room f.
Proof.
  unfold field_text, field_room. rewrite !os_len_app. change (os_len "=") with 1. change (os_len " ") with 1.
  destruct f as [n [v|v|v]]; cbn [fst snd value_text value_of].
  - unfold os_len. lia.
  - pose proof (escape_length v) as L. unfold os_len in *. cbn [String.length].
    rewrite length_app_str. cbn [String.length]. lia.
  - unfold os_len. cbn [String.length]. rewrite length_app_str. cbn [String.length]. lia.
Qed.

Lemma fields_length fs : os_len (fields_text fs +:+ String ULM_LF "") ≤ fields_room fs.
Proof.
  rewrite os_len_app. change (os_len (String ULM_LF "")) with 1.
  induction fs as [|f fs IH]; [done|]. cbn [fields_text fields_room foldr]. rewrite os_len_app.
  pose proof (field_length f). fold (fields_room fs). lia.
Qed.

Lemma il_small_room fs : fields_room fs < 1000000000 → il_small (fields_text fs +:+ String ULM_LF "").
Proof.
  intros Hr. pose proof (fields_length fs) as L. unfold il_small. rewrite il_body_length.
  set (line := fields_text fs +:+ _) in *. clearbody line.
  assert (len_int (os_len line) ≤ 10) as Hn.
  { unfold len_int, put_int, put_int_. rewrite length_app_str. unfold fmt_d, print_nonneg.
    pose proof (os_len_nonneg line). destruct (Z.ltb_spec (os_len line) 0); [lia|].
    pose proof (digits_aux_short 8 (digits_fuel (Z.abs (os_len line))) (Z.abs (os_len line)) ""
      ltac:(change (10 ^ Z.of_nat 9) with 1000000000; lia)) as D.
    rewrite Nat.sub_0_l. cbn [str_repeat String.append String.length] in *. lia. }
  assert (len_string IL_PROTOCOL_MAGIC_WORD < 100) by (vm_compute; done).
  unfold len_string at 2. unfold_int. lia.
Qed.

Section LogSpec.
Context {W : Type} `{HonestReplies W} `{Texts}.
Variable me : nat.
Implicit Types c : client W.
#[local] Abbreviation running := (running me).

(** ** The line of an event *)

(** A context that numbers its events with the counters of the grid components. *)
Record numbered c : Prop := {
  nb_type : grid_type (ctx_of c).(p_seqcode).(sq_type) = true;
  nb_len : length (ctx_of c).(p_seqcode).(sq_c) = EDG_WLL_SOURCE__LAST;
  nb_source : is_Some (seq_pos (ctx_of c).(p_source))
}.

Definition seqcode c : string := seq_text (seq_vector (ctx_of c)).
Definition line_fields c (flags : Z) (name fullid : string) (var : list ulm_field)
    (date seq : string) : list ulm_field :=
  line_fix c.(cl_st) flags date name fullid (Some seq) ++ line_user c.(cl_st) flags ++ var.
Definition line_of c flags name fullid var date seq : string :=
  fields_text (line_fields c flags name fullid var date seq) +:+ String ULM_LF "".

Lemma line_room c flags name fullid var date seq :
  fields_room (line_fields c flags name fullid var date seq) =
  fields_room (line_fields c flags name fullid var "" "") + 2 * os_len date + 2 * os_len seq.
Proof.
  unfold line_fields, line_fix, EDG_WLL_FORMAT_COMMON, fields_room. cbn [app foldr default].
  generalize (foldr (λ f n, field_room f + n) 1 (line_user (cl_st c) flags ++ var)). intros rest.
  unfold field_room, id. cbn [fst snd value_of].
  change (os_len "") with 0. lia.
Qed.

Lemma line_ok c flags name fullid var date seq :
  str_forall UlmLine.quiet date = true → date ≠ ""%string → str_forall not_nul seq = true →
  forallb field_ok (line_fields c flags name fullid var "0" "") = true →
  forallb field_ok (line_fields c flags name fullid var date seq) = true.
Proof.
  intros Hd H0d Hs. unfold line_fields, line_fix, EDG_WLL_FORMAT_COMMON. cbn [app forallb default].
  rewrite !andb_true_iff. intros K. destruct_and! K. split_and!; try done.
  unfold field_ok. cbn [fst snd value_ok]. rewrite Hd. by destruct date.
Qed.

(** What the caller has to provide for: the event has a name, the job can be printed, there
    is a logger to connect to, a line with a sequence code of this length can be sent. *)
Record loggable c (flags event : Z) (var : list ulm_field) : Prop := {
  lg_event : is_Some (edg_wll_EventToString event);
  lg_job : is_Some (glite_jobid_unparse c.(p_jobid));
  lg_dest : flag flags EDG_WLL_LOGFLAG_LOCAL = true → is_Some c.(cl_st).(p_destination);
  lg_small name fullid date seq : edg_wll_EventToString event = Some name →
    glite_jobid_unparse c.(p_jobid) = Some fullid →
    String.length date = ULM_DATE_STRING_LENGTH →
    String.length seq = String.length (seqcode c) →
    flag flags (Z.lor EDG_WLL_LOGFLAG_PROXY EDG_WLL_LOGFLAG_DIRECT) = true →
    il_small (line_of c flags name fullid var date seq)
}.

(** The fields are such that the line can be read: C strings, words and names in their
    places, at most 100 of them. *)
Definition readable c (flags event : Z) (var : list ulm_field) : Prop :=
  ∀ name fullid date seq, edg_wll_EventToString event = Some name →
    glite_jobid_unparse c.(p_jobid) = Some fullid →
    str_forall UlmLine.quiet date = true → date ≠ ""%string → str_forall not_nul seq = true →
    let fields := line_fields c flags name fullid var date seq in
    forallb field_ok fields = true ∧ (length fields ≤ 100)%nat.

(** A number without blanks in front of it. *)
Lemma digit_quiet a : isdigit a = true → UlmLine.quiet a = true.
Proof. destruct a as [[] [] [] [] [] [] [] []]; vm_compute; congruence. Qed.
Lemma fmt_d_quiet zero w z : zero = true ∨ w = 0%nat → str_forall UlmLine.quiet (fmt_d zero w z) = true.
Proof.
  intros Hw. unfold fmt_d. assert (str_forall UlmLine.quiet (print_nonneg (Z.abs z)) = true) as Hd.
  { eapply str_forall_impl; [exact digit_quiet|apply print_nonneg_digits; lia]. }
  destruct Hw as [->| ->], zero, (z <? 0); cbn [Nat.sub str_repeat];
    rewrite ?str_forall_app, ?str_forall_repeat, Hd by done; done.
Qed.

Lemma date_quiet sec usec date : edg_wll_ULMTimevalToDate sec usec = (0, Some date) →
  str_forall UlmLine.quiet date = true.
Proof.
  unfold edg_wll_ULMTimevalToDate. repeat case_match; try done. intros [= <-].
  match goal with H : strftime_date _ _ = Some _ |- _ => revert H end.
  unfold strftime_date. case_match; [|done]. intros [= <-]. printf_simpl.
  repeat (rewrite str_forall_app || cbn [str_forall]). by rewrite !fmt_d_quiet by auto.
Qed.

Lemma quiet_ctx (st st' : ParamState) : quiet st = quiet st' →
  edg_wll_ResetError st.(ctx_base) = edg_wll_ResetError st'.(ctx_base).
Proof. intros E. exact (f_equal ctx_base E). Qed.

Lemma quiet_line (st st' : ParamState) flags date name fullid seq : quiet st = quiet st' →
  line_fix st flags date name fullid seq = line_fix st' flags date name fullid seq ∧
  line_user st flags = line_user st' flags.
Proof.
  intros E. split.
  - change (line_fix (quiet st) flags date name fullid seq = line_fix (quiet st') flags date name fullid seq).
    by rewrite E.
  - change (line_user (quiet st) flags = line_user (quiet st') flags). by rewrite E.
Qed.

Lemma running_seq held c0 c : running held c0 c →
  (ctx_of c).(p_seqcode) = (ctx_of c0).(p_seqcode) ∧ (ctx_of c).(p_source) = (ctx_of c0).(p_source).
Proof.
  intros R. pose proof (quiet_ctx _ _ (ru_st _ _ _ _ R)) as E. unfold ctx_of.
  split; [exact (f_equal p_seqcode E)|exact (f_equal p_source E)].
Qed.

Lemma wp_get_seq held c0 c Q : running held c0 c → numbered c0 →
  (∀ c', running held c0 c' → code c' = code c → Q (Some (seqcode c0)) c') →
  wp GetSequenceCode Q c.
Proof.
  intros R [Ht _ _] HQ. destruct (running_seq _ _ _ R) as [Es _]. unfold wp, GetSequenceCode.
  rewrite get_seq_text by (by rewrite Es). cbn [obind fst snd].
  assert (seqcode c0 = seq_text (seq_vector (ctx_of c))) as <-.
  { unfold seqcode, seq_vector. by rewrite Es. }
  apply HQ; [|done]. eapply running_same; try done; apply R.
Qed.

Lemma wp_format flags event var c Q :
  ready c → numbered c → loggable c flags event var →
  (∀ name fullid date c', running None c c' → code c' = 0 →
     edg_wll_EventToString event = Some name → glite_jobid_unparse c.(p_jobid) = Some fullid →
     String.length date = ULM_DATE_STRING_LENGTH → str_forall UlmLine.quiet date = true →
     Q (0, Some (line_of c flags name fullid var date (seqcode c))) c') →
  (∀ c', running None c c' → code c' = ENOSPC → Q (ENOSPC, None) c') →
  wp (edg_wll_FormatLogLine me flags event var) Q c.
Proof.
  intros Hr Hn [[name En] [fullid Ej] _ _] Hok Hbig. apply wp_bind.
  eapply wp_reset; [by apply running_refl|]. intros c1 R1 E1 _. apply wp_bind.
  eapply wp_ask_running; [done..|]. intros [sec usec] c2 R2 [Hs Hu] E2 _ _. cbn in Hs, Hu. cbn [fst snd].
  destruct (date_roundtrip sec usec Hu) as [D _]. destruct (D Hs) as (date & Ed & Hlen & _).
  rewrite Ed. cbn [snd]. apply wp_bind, wp_gets, wp_bind, wp_gets.
  rewrite En, (ru_job _ _ _ _ R2), Ej. apply wp_bind.
  eapply wp_get_seq; [done..|]. intros c3 R3 E3. rewrite E2, E1 in E3.
  destruct (quiet_line _ _ flags date name fullid (Some (seqcode c)) (ru_st _ _ _ _ R2)) as [-> ->].
  rewrite log_line_text. fold (line_fields c flags name fullid var date (seqcode c)).
  fold (line_of c flags name fullid var date (seqcode c)). destruct (_ && _).
  - apply wp_bind. eapply wp_set_error; [done..|]. intros c4 R4 E4 _.
    apply wp_bind. eapply wp_error; [done|]. rewrite E4. by apply wp_ret, Hbig.
  - apply wp_bind. eapply wp_error; [done|]. rewrite E3. apply wp_ret, Hok; try done. by eapply date_quiet.
Qed.

(** ** The sequence code after an event *)
Definition bumped c : client W := with_ctx inc_ctx c.

Lemma seq_source ctx : is_Some (seq_pos ctx.(p_source)) → ctx.(p_source) ≠ EDG_WLL_SOURCE_NONE.
Proof. intros [i Hi] E. by rewrite E in Hi. Qed.

Lemma bumped_ready c : ready c → ready (bumped c).
Proof. intros []. split; try done. by left. Qed.

Lemma quiet_bumped c c' : quiet c.(cl_st) = quiet c'.(cl_st) →
  (bumped c).(cl_st) = (bumped c').(cl_st).
Proof.
  intros E. exact (f_equal (λ st, st <| ctx_base := inc_ctx st.(ctx_base) |>) E).
Qed.

Lemma running_bumped c0 c : running None c0 c → running None (bumped c0) (bumped c).
Proof.
  intros R. pose proof (quiet_bumped _ _ (ru_st _ _ _ _ R)) as E. destruct R.
  split; try done; [by apply bumped_ready|by left].
Qed.

Lemma wp_keep_error_inc ret c0 c Q : running None c0 c → numbered c0 →
  (∀ c', running None (bumped c0) c' → code c' = code c → Q (code c') c') →
  wp (keep_error_inc ret) Q c.
Proof.
  intros R Hn HQ. destruct (running_seq _ _ _ R) as [Es Ep].
  pose proof (running_bumped _ _ R) as Rb.
  assert (∀ c1, running None (bumped c0) c1 → code c1 = code c → wp
    ((if ret =? 0 then mret 0 else UpdateError 0 "Logging library ERROR: ");; Error) Q c1) as Hend.
  { intros c1 R1 E1. apply wp_bind. destruct (ret =? 0).
    - apply wp_ret. eapply wp_error; [done|]. by apply HQ.
    - eapply wp_update_error; [done..|]. cbn. intros c2 R2 E2 _ _. eapply wp_error; [done|].
      apply HQ; [done|congruence]. }
  apply wp_bind, wp_gets, wp_bind.
  assert (∀ es, (match es with Some (k, _) => k = code c | None => code c = 0 end) → wp
    (inc ← IncSequenceCode;
     ret ← (if inc =? 0 then mret ret else
            SetError EINVAL "edg_wll_LogEventMaster(): edg_wll_IncSequenceCode failed");
     match es with Some (code, d) => SetError code d;; mret tt | None => mret tt end;;
     (if ret =? 0 then mret 0 else UpdateError 0 "Logging library ERROR: ");; Error) Q c) as Hinc.
  { intros es He. apply wp_bind. unfold IncSequenceCode, on_ctx, wp.
    rewrite inc_grid by (rewrite ?Es, ?Ep; first [apply Hn|apply seq_source, Hn]).
    cbn [fst snd]. change (with_ctx (λ _, inc_ctx (ctx_of c)) c) with (bumped c).
    apply wp_bind. cbn [Z.eqb]. apply wp_ret, wp_bind. destruct es as [[k d]|].
    - apply wp_bind. eapply wp_set_error; [done|rewrite He; apply R|]. intros c1 R1 E1 _.
      apply wp_ret. apply Hend; [done|congruence].
    - apply wp_ret. apply Hend; [done|]. by rewrite He. }
  destruct (Z.eqb_spec (ctx_of c).(errCode) 0).
  - apply wp_ret. by apply (Hinc None).
  - apply wp_bind. destruct (ru_described _ _ _ _ R) as [|[d Hd]]; [done|].
    rewrite Hd. apply wp_ret, wp_ret. by apply (Hinc (Some (_, d))).
Qed.

(** ** A call *)
Lemma wp_master flags event var c Q :
  ready c → numbered c → loggable c flags event var → flag flags destinations = true →
  (∀ c', running None (bumped c) c' → Q (code c') c') →
  wp (edg_wll_LogEventMasterVa me flags event var) Q c.
Proof.
  intros Hr Hn Hl Hf HQ. unfold edg_wll_LogEventMasterVa. rewrite Hf. cbn [negb]. apply wp_bind.
  assert (∀ ret c1, running None c c1 → wp (keep_error_inc ret) Q c1) as Hend.
  { intros ret c1 R1. eapply wp_keep_error_inc; [done..|]. intros c2 R2 _. by apply HQ. }
  assert (is_Some c.(p_jobid)) as Hj.
  { destruct (p_jobid c) eqn:Ej; [done|]. destruct (lg_job _ _ _ _ Hl) as [s Es].
    by rewrite Ej in Es. }
  eapply wp_format; [done..| |].
  - intros name fullid date c1 R1 E1 En Ej Hlen _. cbn [negb Z.eqb]. apply wp_bind, wp_bind, wp_ret.
    eapply wp_send_line; [done..| | |done|].
    + by apply (lg_dest _ _ _ _ Hl).
    + intros. by apply (lg_small _ _ _ _ Hl).
    + intros c2 R2. by apply Hend.
  - intros c1 R1 E1. cbn [negb Z.eqb ENOSPC]. apply wp_bind, wp_bind.
    eapply wp_update_error; [done..|]. intros c2 R2 _ _ _. by apply wp_ret, Hend.
Qed.


(** ** Many calls *)
Definition log_call : Type := Z * Z * list ulm_field.
(** The calls one after the other, with the clients they begin with. *)
Inductive log_calls : client W → list log_call → list (client W) → client W → Prop :=
| lc_nil c : log_calls c [] [] c
| lc_cons c flags event var calls r c1 cs c2 :
    edg_wll_LogEventMasterVa me flags event var c = Ret (r, c1) →
    log_calls c1 calls cs c2 → log_calls c ((flags, event, var) :: calls) (c :: cs) c2.

(** The reader finds the sequence code [s] in the line. *)
Definition line_carries (line s : string) : Prop :=
  ∃ t i, edg_wll_ULMProcessParseTable (Some (edg_wll_ULMNewParseTable line)) = Ret (Some t, ULM_PARSE_OK) ∧
    edg_wll_ULMGetNameAt t i = Ret (Some "DG.SEQCODE"%string) ∧
    my_edg_wll_ULMGetValueAt t i = Ret (Some s).

Definition counter c : Z := c_at (ctx_of c).(p_seqcode).(sq_c) (ctx_of c).(p_source).

(** A context that can log some calls. *)
Record can_log c (calls : list log_call) : Prop := {
  cl_ready : ready c;
  cl_numbered : numbered c;
  cl_wf : wf_context (ctx_of c);
  cl_room : fits_width (counter c + Z.of_nat (length calls)) (seq_width (ctx_of c).(p_source));
  cl_calls : Forall (λ '(flags, event, var), flag flags destinations = true ∧
               loggable c flags event var ∧ readable c flags event var) calls
}.

Lemma seq_text_not_nul v : wf_components v → str_forall not_nul (seq_text v) = true.
Proof.
  intros Hv. apply wf_components_9 in Hv as (?&?&?&?&?&?&?&?&?&->).
  unfold seq_text, print_seq. printf_simpl. cbn [map]. printf_simpl.
  repeat (rewrite str_forall_app || cbn [str_forall]). by rewrite !fmt_d_other by done.
Qed.

Lemma line_fields_next c c' flags name fullid var date seq : running None (bumped c) c' →
  line_fields c' flags name fullid var date seq = line_fields c flags name fullid var date seq.
Proof.
  intros R. unfold line_fields.
  by destruct (quiet_line _ _ flags date name fullid (Some seq) (ru_st _ _ _ _ R)) as [-> ->].
Qed.

Lemma loggable_next c c' flags event var : running None (bumped c) c' →
  String.length (seqcode c') = String.length (seqcode c) →
  loggable c flags event var → loggable c' flags event var.
Proof.
  intros R Hs [He Hj Hd Hl]. pose proof (ru_job _ _ _ _ R) as E. change (p_jobid (bumped c)) with (p_jobid c) in E.
  split; rewrite ?E; try done.
  - intros F. rewrite (running_dest _ _ _ _ R). by apply Hd.
  - intros name fullid date seq En Ej Hdate Hseq Hf. unfold line_of.
    rewrite (line_fields_next c) by exact R.
    apply (Hl name fullid date seq En Ej Hdate); [by rewrite <-Hs|exact Hf].
Qed.

Lemma readable_next c c' flags event var : running None (bumped c) c' →
  readable c flags event var → readable c' flags event var.
Proof.
  intros R Hr name fullid date seq En Ej Hd Hd0 Hs.
  pose proof (ru_job _ _ _ _ R) as E. change (p_jobid (bumped c)) with (p_jobid c) in E.
  rewrite E in Ej. rewrite (line_fields_next c) by exact R. by apply (Hr _ _ _ _ En Ej).
Qed.

(** What the next call finds. *)
Lemma can_log_next c c' call calls : can_log c (call :: calls) → running None (bumped c) c' →
  can_log c' calls ∧ (ctx_of c').(p_source) = (ctx_of c).(p_source) ∧
  counter c' = counter c + 1 ∧
  ∀ i, seq_pos (ctx_of c).(p_source) = Some i →
    seq_vector (ctx_of c') = <[i := counter c + 1]> (seq_vector (ctx_of c)) ∧
    seq_vector (ctx_of c) !! i = Some (counter c).
Proof.
  intros [Hr [Ht Hn [i Hi]] [Hl Hwf] Hroom Hc] R. destruct (running_seq _ _ _ R) as [Es Ep].
  change (ctx_of (bumped c)) with (inc_ctx (ctx_of c)) in Es, Ep.
  change (p_source (inc_ctx (ctx_of c))) with (p_source (ctx_of c)) in Ep.
  destruct (inc_vector (ctx_of c) i Hn Hi) as [Hv Hvi]. fold (counter c) in Hv, Hvi.
  cbn [length] in Hroom. rewrite Nat2Z.inj_succ in Hroom.
  assert (0 ≤ counter c) as Hpos.
  { pose proof (Forall2_lookup_l _ _ _ _ _ Hwf Hvi) as (w & _ & Hw). apply Hw. }
  assert (fits_width (counter c + 1) (seq_width (p_source (ctx_of c)))) as Hfit.
  { destruct Hroom as [[? ?] ?]. unfold fits_width. unfold_int. lia. }
  assert (u32 (counter c + 1) = counter c + 1) as Hu.
  { apply u32_id. destruct Hfit as [_ ?]. unfold_int. lia. }
  rewrite Hu in Hv.
  assert (seq_vector (ctx_of c') = <[i := counter c + 1]> (seq_vector (ctx_of c))) as Hv'.
  { rewrite <-Hv. unfold seq_vector. by rewrite Es. }
  assert (wf_components (seq_vector (ctx_of c'))) as Hwf'.
  { rewrite Hv'. unfold seq_width in Hfit. rewrite Hi in Hfit.
    destruct (seq_pos_inv _ _ Hi) as (_ & _ & w & Hw). rewrite Hw in Hfit.
    by eapply wf_components_insert. }
  assert (counter c' = counter c + 1) as Hcount.
  { unfold counter at 1. rewrite Es, Ep. cbn. rewrite c_at_set.
    - destruct (decide _); [exact Hu|done].
    - rewrite Hn. destruct (p_source _); cbn; unfold EDG_WLL_SOURCE__LAST; lia. }
  assert (length (sq_c (p_seqcode (ctx_of c'))) = EDG_WLL_SOURCE__LAST) as Hn'.
  { rewrite Es. cbn. unfold c_set. by rewrite length_insert. }
  split_and!; try done; [|intros j Hj; simplify_eq; done].
  split; [by eapply running_ready|split; [by rewrite Es|done|by rewrite Ep]|done| |].
  - rewrite Hcount, Ep. by replace (counter c + 1 + Z.of_nat (length calls))
      with (counter c + Z.succ (Z.of_nat (length calls))) by lia.
  - apply Forall_cons in Hc as [_ Hc]. eapply Forall_impl; [exact Hc|].
    intros [[flags event] var] (? & ? & ?). split_and!; [done|eapply loggable_next; eauto|by eapply readable_next].
    unfold seqcode. by rewrite !seq_text_length.
Qed.

Lemma log_calls_all calls : ∀ c, can_log c calls →
  ∃ cs c', log_calls c calls cs c' ∧ length cs = length calls ∧
    ∀ k a call, cs !! k = Some a → calls !! k = Some call →
      can_log a (drop k calls) ∧
      ∀ i, seq_pos (ctx_of c).(p_source) = Some i →
        seq_vector (ctx_of a) = <[i := counter c + Z.of_nat k]> (seq_vector (ctx_of c)).
Proof.
  induction calls as [|[[flags event] var] calls IH]; intros c Hc.
  { exists [], c. split_and!; [constructor|done|intros k a call E; done]. }
  pose proof (cl_calls _ _ Hc) as Hs. apply Forall_cons in Hs as [(Hf & Hl & _) _].
  destruct (wp_run _ _ _ (wp_master flags event var c (λ _ c', running None (bumped c) c')
    (cl_ready _ _ Hc) (cl_numbered _ _ Hc) Hl Hf (λ c' R, R))) as (r & c1 & E & R).
  destruct (can_log_next _ _ _ _ Hc R) as (Hc1 & Hsrc & Hcount & Hv).
  destruct (IH c1 Hc1) as (cs & c' & Hcs & Hlen & Hk).
  exists (c :: cs), c'. split_and!; [by econstructor|by cbn; f_equal|].
  intros [|k] a call Ha Hcall.
  - injection Ha as <-. split; [done|]. intros i Hi. destruct (Hv i Hi) as [_ Hvi].
    symmetry. rewrite Z.add_0_r. by apply list_insert_id.
  - destruct (Hk k a call Ha Hcall) as [Hca Hva]. split; [done|]. intros i Hi.
    rewrite (Hva i) by (by rewrite Hsrc). destruct (Hv i Hi) as [-> _].
    rewrite list_insert_insert_eq. by replace (counter c1 + Z.of_nat k) with
      (counter c + Z.of_nat (S k)) by lia.
Qed.

(** The line of a call carries the sequence code of its context. *)
Lemma line_carries_ok c flags name fullid var date seq :
  forallb field_ok (line_fields c flags name fullid var date seq) = true →
  (length (line_fields c flags name fullid var date seq) ≤ 100)%nat →
  line_carries (line_of c flags name fullid var date seq) seq.
Proof.
  intros Hok Hlen. destruct (fields_parsed _ Hok ltac:(done) Hlen) as (t & Et & _ & Ht).
  exists t, 9. split; [exact Et|]. exact (Ht 9%nat ("DG.SEQCODE"%string, Quoted seq) eq_refl).
Qed.

Lemma format_carries c flags event var :
  ready c → numbered c → wf_context (ctx_of c) → loggable c flags event var →
  readable c flags event var →
  ∃ r c', edg_wll_FormatLogLine me flags event var c = Ret (r, c') ∧
    (r = (ENOSPC, None) ∨ ∃ line, r = (0, Some line) ∧ line_carries line (seqcode c)).
Proof.
  intros Hr Hn [_ Hwf] Hl Hread.
  assert (wp (edg_wll_FormatLogLine me flags event var) (λ r _, r = (ENOSPC, None) ∨
    ∃ line, r = (0, Some line) ∧ line_carries line (seqcode c)) c) as Hw.
  { apply wp_format; try done; [|by left]. intros name fullid date c' _ _ En Ej Hlen Hq. right.
    eexists. split; [reflexivity|].
    destruct (Hread name fullid date (seqcode c) En Ej Hq ltac:(by intros ->) (seq_text_not_nul _ Hwf)).
    by apply line_carries_ok. }
  destruct (wp_run _ _ _ Hw) as (r & c' & E & Hc). eauto.
Qed.

Lemma seq_newer `{Stack} u p v w : wf_components u → wf_components (<[p:=w]> u) →
  u !! p = Some v → v < w → edg_wll_compare_seq (seq_text (<[p:=w]> u)) (seq_text u) = 1.
Proof.
  intros Wu Ww Hp Hlt.
  destruct (compare_seq_ok (seq_text (<[p:=w]> u)) (seq_text u)) as (x & y & Ex & Ey & _ & ->);
    [by apply seq_ok_text..|].
  rewrite parse_seq_text in Ex, Ey by done. simplify_eq. by eapply compare_components_incr.
Qed.

End LogSpec.

(** ** An example: the proxy does not answer, the server does *)
Definition log_params : ParamState :=
  (zero_params 2)
    <| ctx_base := mkContext (mkSeqCode EDG_WLL_SEQ_NORMAL (replicate EDG_WLL_SOURCE__LAST 0) "")
                     EDG_WLL_SOURCE_USER_INTERFACE 0 None |>
    <| p_host := Some "host.cz"%string |> <| p_level := 8 |> <| p_sync_timeout := (120, 0) |>.
Definition log_job : JobId := mkJobId "abc" "lb.cz" 9000 None.
Definition log_client (w : demo) : client demo := mkClient log_params (Some log_job) (0, 0) busy_pool w.
Definition EVENT_USERTAG : Z := 21.
Definition demo_calls : list log_call :=
  [(EDG_WLL_LOGFLAG_PROXY, EVENT_USERTAG, demo_var); (EDG_WLL_LOGFLAG_DIRECT, EVENT_USERTAG, demo_var)].

Lemma demo_answers : demo_good (mkDemo 0 reply_ok []).
Proof. split; apply (bool_decide_unpack _); vm_compute; exact I. Qed.
Lemma log_client_ready w : demo_good w → ready (log_client w).
Proof. intros Hw. split; [done|by apply reachable_ok, busy_reachable|done|done|by left]. Qed.
Lemma log_client_numbered w : numbered (log_client w).
Proof. split; [done|done|]. eexists. reflexivity. Qed.

(** [flags] is one of the two. *)
Lemma log_client_call w flags : flags = EDG_WLL_LOGFLAG_PROXY ∨ flags = EDG_WLL_LOGFLAG_DIRECT →
  loggable (log_client w) flags EVENT_USERTAG demo_var ∧
  readable (log_client w) flags EVENT_USERTAG demo_var.
Proof.
  intros Hf. split; [split|].
  - exists "UserTag"%string. reflexivity.
  - eexists. reflexivity.
  - by destruct Hf as [-> | ->].
  - intros name fullid date seq [= <-] [= <-] Hd Hs _. apply il_small_room. rewrite line_room.
    unfold os_len. rewrite Hd, Hs. by destruct Hf as [-> | ->]; vm_compute.
  - intros name fullid date seq [= <-] [= <-] Hd H0d Hs. split.
    + apply line_ok; [done..|]. by destruct Hf as [-> | ->]; vm_compute.
    + destruct Hf as [-> | ->]; vm_compute; lia.
Qed.
Lemma log_client_calls w : Forall (λ '(flags, event, var), flag flags destinations = true ∧
  loggable (log_client w) flags event var ∧ readable (log_client w) flags event var) demo_calls.
Proof.
  unfold demo_calls. apply Forall_cons. split; [|apply Forall_singleton];
    (split; [done|]); apply log_client_call; auto.
Qed.


